(* ===== verification/_CoqProject ===== *)
-Q . S2P
Prelude.v
Chars.v
Buf.v
Base64.v
Hex.v
QuotedPrintable.v
Xml.v
Crc.v
Cint.v
Vector.v
Link.v
Text.v
Argv.v
StateMonad.v
Rbtree.v
RbShape.v
RbInsert.v
RbErase.v
RbDelete.v
Rbset.v
Rbops.v
RbRefine.v
Keyed.v
KeyedSpec.v
KeyedRefine.v
Maps.v
Dict.v
Json.v
JsonSpec.v
JsonOps.v
JsonWrite.v
JsonText.v
JsonRead.v
JsonTrip.v
Cdb.v
CdbBuild.v
CdbFile.v
CdbRead.v
CdbWalk.v
CdbTrip.v
Stream.v
StreamSpec.v
StreamRead.v
StreamWrite.v
StreamTrip.v
Websocket.v
WebsocketTrip.v
Msearch.v
MsearchMem.v
MsearchBuild.v
MsearchWords.v
MsearchEngine.v
MsearchOver.v
MsearchView.v
MsearchFind.v
MsearchMatch.v
MsearchWalk.v
MsearchTrip.v
Scan.v
Url.v
UrlVars.v
UrlTrip.v
Uu.v
Mime.v
MimeParam.v
MimeTrip.v
MimeWords.v
MimeDecode.v
MimeLine.v
Date.v
DateTrip.v
Address.v
AddressTok.v
AddressTrip.v
