(* ===== verification/Prelude.v ===== *)
(** * lib-zc: a model of its core library and what it does

    lib-zc is a C library for servers and mail software. This development
    covers its self-contained core: containers, strings, encodings, checksums,
    and the structures built from them. Functions keep their C names; a
    definition stands for the function of the same name in the file named below.

    ** Parts

    - [Prelude.v] (this file): bytes and integers at their C widths, memory
      blocks, runs that succeed ([runs]), lemmas on lists and bit operations.
    - [Chars.v]: the character tables of src/stdlib/string.c and the macros of
      zc.h that index them.
    - [Buf.v]: src/stdlib/buf.c. A [zbuf] is the heap block (a list of cells,
      [None] while uninitialised) with [len], [size] and [static_mode].
    - [Base64.v], [Hex.v], [QuotedPrintable.v]: src/encode/base64.c, hex.c,
      quoted_printable.c, writing into a [zbuf].
    - [Xml.v]: src/encode/ncr.c and src/xml/utils.c.
    - [Crc.v]: src/hash/crc16.c, crc32.c, crc64.c and [zhash_djb] of zc.h.
    - [Cint.v]: [zint_pack] and its kin in zc.h, src/stdlib/cint_and_data.c.
    - [Vector.v]: src/stdlib/vector.c, a block of pointers with a sliding start.
    - [Link.v]: the [ZMLINK] macros, src/stdlib/link.c, list.c, over a store of
      nodes.
    - [Text.v]: trimming, tokens, case and number parsing of src/stdlib/string.c.
    - [Argv.v]: src/stdlib/argv.c, arrays of private strings; a split uses
      [zstrtok] of Text.v.
    - [StateMonad.v]: the monad of the pointer structures and its [wp].
    - [Rbtree.v]: src/stdlib/rbtree.c over a store of nodes. [RbShape.v] (trees
      and zippers in the store, the red-black invariant, symbolic steps),
      [RbInsert.v], [RbErase.v], [RbDelete.v] (rebalancing), [Rbset.v] (the order,
      searching, attaching), [Rbops.v] (stepping, replacing, walking) and
      [RbRefine.v] (runs) prove it.
    - [Keyed.v]: the program that src/stdlib/map.c, longmap.c, dict.c and
      dictlong.c share, a client of Rbtree.v: its operations call
      [zrbtree_attach], [zrbtree_replace_node] and the others on the store.
      [KeyedSpec.v] and [KeyedRefine.v] prove it against an association list and
      define the interface ([keyed_api]); [Maps.v] and [Dict.v] are the four
      instances, [Dict.v] with a [zbuf] of Buf.v in each node.
    - [Json.v]: src/json/json.c and serialize.c over a store of values: arrays
      are vectors of Vector.v, objects maps of Maps.v, strings buffers of Buf.v,
      and the model runs their operations. [JsonSpec.v] says when a tree of
      values stands in the store and proves the release; [JsonOps.v] the
      operations; [JsonWrite.v] the writer; [JsonText.v] has a reader of text
      without a store, [JsonRead.v] proves the program against it, and
      [JsonTrip.v] puts writer and reader together.
    - [Cdb.v]: src/cdb/builder.c and reader.c. The builder keeps hash tables and
      writes a block with a cursor; the reader works on such a block alone.
      [CdbBuild.v]: the tables hold a finite map; [CdbFile.v]: the layout of the
      file and that compiling writes it; [CdbRead.v], [CdbWalk.v]: what queries
      and walks find in a file of that layout; [CdbTrip.v] composes them.
    - [Stream.v]: src/stream/stream.c and the stream part of zc.h, over an engine:
      a class of functions ([Engine]) with laws ([EngineLaws] in [StreamSpec.v]),
      as the engines call the operating system. [StreamSpec.v]: flushing and the
      next character; [StreamRead.v], [StreamWrite.v]: the functions for clients;
      [StreamTrip.v]: their contracts, messages from one stream to another, and an
      engine to run them on ([script]).
    - [Websocket.v]: the frames of src/http/websocketd.c, a client of Stream.v.
      [WebsocketTrip.v]: what is read of frames, what is written, and messages
      from one websocket to another.
    - [Msearch.v]: src/search/msearch.c, a client of Maps.v. The builder keeps
      words in two maps and writes tables into a block; the search and the walker
      read that block alone. [MsearchMem.v]: numbers, tables and buckets in a
      block; [MsearchBuild.v]: the passes that fill them; [MsearchWords.v],
      [MsearchEngine.v]: the words of the builder; [MsearchOver.v]: the engine
      that is built; [MsearchView.v]: what can be read of it; [MsearchFind.v],
      [MsearchMatch.v]: searching; [MsearchWalk.v]: walking; [MsearchTrip.v]: from
      the words to the answers.
    - [Url.v]: src/http/url.c and cookie.c, clients of Dict.v, Buf.v and Hex.v.
      [UrlVars.v]: the dictionary a query or a cookie is read into, and the texts
      written; [UrlTrip.v]: URLs.
    - [Mime.v], [MimeParam.v]: the lines of a mail header, src/mime/header_line.c,
      2231.c, param.c and the buffer cache of util.c, clients of Buf.v, Text.v,
      Base64.v, QuotedPrintable.v and Hex.v. [MimeTrip.v]: parameters;
      [MimeWords.v]: the cut of a line into pieces; [MimeDecode.v]: encoded words;
      [MimeLine.v]: unfolding and RFC 2231.
    - [Address.v]: src/mime/address.c, a client of Mime.v and Text.v.
      [AddressTok.v]: one address of a line; [AddressTrip.v]: vectors of addresses.
    - [Date.v]: src/stdlib/date.c and src/mime/date.c, over the calendar of
      <time.h>; [DateTrip.v] proves it.
    - [Uu.v]: src/encode/uu.c. [Scan.v]: texts that are read up to a delimiter.

    ** Conventions

    - A byte is a [Z] in [0, 256), an [int] a [Z]; [as_int], [uwrap] and [swrap]
      write out overflow and conversions. [char] is signed; shifts of negative
      numbers are arithmetic, as gcc does. The locale is "C".
    - [None] is undefined behaviour: an access outside a block or to a node that
      is not in the store, signed overflow, an endless recursion. An option
      inside the result of a function is a NULL pointer or a flag.
    - A pointer with a length ([(ptr, len)], with [len < 0] for a C string) is
      resolved by [in_bytes] to the bytes that are read.
    - Allocation does not fail ([zmalloc] aborts the process when it does).
      Where addresses matter the allocator is a parameter: Link.v takes fresh
      addresses from the caller, Keyed.v has the class [Allocator], whose laws are
      that an address is new, not NULL and aligned; [bump_allocator] satisfies
      them.
    - [double] and its conversions ([atof], the casts, [printf]) are the class
      [Doubles], a parameter of Json.v, in which the cast to
      [ssize_t] is partial, as the C one is undefined out of range;
      [whole_doubles] is an instance to run it on.
    - JSON arrays and objects have fewer than 2^25 elements and texts fewer than
      2^25 bytes: below that no [int] of the containers overflows.
    - Constant databases stay below 2^29 bytes (keys, values and 40 bytes for each
      entry), so that no [int] offset or capacity overflows; the loop that grows
      the block has 32 rounds, a search as many as the chain has nodes and one
      more, a walk one for each bucket and each key length.
    - The conversion between character sets (iconv) is the class [Charsets], a
      parameter of Mime.v, with the law [CharsetLaws] that it writes into an empty
      buffer what a function of the charset and the bytes says;
      [same_bytes] is an instance to run it on.
    - The local time zone is the class [Timezone], a parameter of Date.v.
      [timegm], [gmtime_r] and [strftime] are those of glibc.
    - The recursion of the address parser has its depth as fuel: no bound on it is
      enough for every line ([zmime_address_recurses]), one call is enough for a
      line without encoded words in place of addresses.
    - A search engine has at most 65000 words ([max_words]): its tables stay below
      1 MiB, where the block need not move while a pointer into it is in use; the
      loop that grows the block has 32 rounds, a search in a bucket one for each
      word of it and one more.
    - An engine takes at least one byte of each write or fails (write(2) on a
      blocking descriptor), so a flush has at most as many rounds as bytes; a length
      on the wire has at most five groups, a sixth would shift by 35.
    - Loops over a block recurse on what is left of it. Loops over nodes carry
      fuel: rbtree.c's get one unit per node of the store and one more
      ([with_fuel]), the walk four times that, the loops of Keyed.v one per node
      and one more, [zjson_reset] two units per element of the store,
      [zjson_serialize] as many, [zjson_unserialize] two rounds per character and
      two more. That this is enough is part of every theorem: each states
      that the code returns, never only what holds if it does.

    ** What is shown

    - Refinement: [zbuf_refines], [zvector_refines], [zlist_refines],
      [zargv_refines], [zrbtree_refines], [zmap_refines], [zlongmap_refines],
      [zdictlong_refines], [zdict_refines]. Every sequence of operations within
      the callers' contract runs without undefined behaviour, answers what an
      abstract sequence, sorted list or association list answers, and leaves a
      structure that represents it. The specifications answer what the
      documentation says; where the code does not ([near_next] of the trees and
      maps, which it answers as [near_prev]) the theorems say so by name
      ([rb_as_coded], [kv_as_coded]). [zjson_unserialize_reads]: the program that
      values with a stack agrees with a reader of the grammar it accepts.
    - Composition of builder and reader: [cdb_round_trip] (what was put is found,
      through the file), [cdb_walk_visits_all] (a walk ends after every entry),
      where the builder's record of the values' lengths is right ([lengths_ok]); of
      writer and reader of a stream: [zstream_messages]; of
      two websockets: [zwebsocketd_round_trip]; of the builder of a search engine
      and the search: [zmsearch_finds], [zmsearch_reopened] (through a file),
      [zmsearch_walker_walks].
    - Streams: [zstream_reads], [zstream_writes]: no byte is lost, doubled or moved
      between the client and the engine, and the engine is not asked for input
      while output is pending. On top of them, the frames of a websocket:
      [zwebsocketd_reads_frames], [zwebsocketd_sends].
    - Invariants and safety: [zrbtree_balanced] (height), [zrbtree_walk_visits]
      (the fixed stack of the walk), [zjson_free_releases] (every
      node of a value released once), [zjson_operations] (the functions that read,
      convert and change a value; no node is lost but the element that
      [zjson_array_pop] and [zjson_array_shift] fail to hand out), the capacity bounds of the encoders.
    - Round trips of the encoders, of JSON values ([zjson_round_trip]), URLs
      ([zurl_parse_roundtrip]), queries ([zurl_query_roundtrip]), the encoded words
      ([zmime_encoded_words_roundtrip]), the parameters
      ([zmime_get_params_roundtrip]), the addresses ([zmime_address_list_roundtrip])
      and the dates ([zmime_date_roundtrip]) of mail headers, with what does not survive
      where it does not.
    - Any text: [zurl_parse_wf] (a well-formed record of every C string),
      [vars_parse_items] (the dictionary of every query and cookie, and on which
      the decoder of escapes is undefined),
      [zhttp_cookie_build_item_text], [zmime_content_headers_read],
      [zmime_2231_decodes], [zmime_address_vector_reads];
      [zmime_element_vector_covers]: the pieces of a header
      line fit the array counted for them and lie one after another in the line.
    - Equivalence: the CRC tables against polynomial division, a search for many
      words against a search by hand, the two functions that unfold a header line
      ([zmime_unfolding]).
    - Errors the code makes, as theorems: [zcint_escape_negative_diverges],
      [zurl_hex_decode_malformed], [zurl_hex_decode_undefined],
      [cdb_empty_key_not_found], [cdb_empty_value_misread],
      [cdb_stale_value_misread],
      [zstream_write_at_end], [zstream_overruns], [zmsearch_walker_skips],
      [zmime_2231_overreads], [quoted_escaped_quote], [zuudecode_reverses],
      [zmime_address_recurses], [zbuild_rfc822_overruns], [zmime_date_dash_zone].

    ** Not modelled

    - The functions that only release memory or print ([zbuf_fini],
      [zdict_debug_show]); buffers near the limits of [int], which the theorems
      exclude by a bound on sizes.
    - Of the C library: the coroutine and event loops, the server frames,
      sockets, files, TLS, logging and the clients and servers on top of them
      (input and output through the operating system, concurrency by stack
      switching); the mail parser (the tree of parts, sections
      for IMAP), the configuration, memory pools and the Redis
      server are pure enough and are left for later.
    - The C++ library (src/cpp_src), a second implementation of the same
      functions; samples and bindings; iconv, OpenSSL, SQLite and zlib, which are
      other people's code.  *)
From stdpp Require Export base tactics numbers list option strings.
From Stdlib Require Export ZArith Lia Ascii.

#[global] Open Scope Z_scope.

(** ** Bytes, machine integers *)

(** A byte of memory is a [Z] in [0, 256). *)
Definition byte_ok (z : Z) : Prop := 0 <= z < 256.
Abbreviation bytes_ok := (Forall byte_ok).

#[export] Instance byte_ok_dec z : Decision (byte_ok z).
Proof. unfold byte_ok. apply _. Defined.

(** Conversions to the unsigned and signed C types of a given width. *)
Definition uwrap (w z : Z) : Z := z mod 2 ^ w.
Definition swrap (w z : Z) : Z := (z + 2 ^ (w - 1)) mod 2 ^ w - 2 ^ (w - 1).
Abbreviation u8 := (uwrap 8).
Abbreviation u16 := (uwrap 16).
Abbreviation u32 := (uwrap 32).
Abbreviation u64 := (uwrap 64).
Abbreviation s8 := (swrap 8).
Abbreviation s16 := (swrap 16).
Abbreviation s32 := (swrap 32).

(** [int] arithmetic: a result outside the 32-bit range is undefined
    behaviour, [None]. *)
Definition int_min : Z := - 2 ^ 31.
Definition int_max : Z := 2 ^ 31 - 1.
Definition int_ok (z : Z) : bool := (int_min <=? z) && (z <=? int_max).
Definition as_int (z : Z) : option Z := if int_ok z then Some z else None.

(** Character and string literals, as byte values. *)
Definition ascii_Z (a : Ascii.ascii) : Z := Z.of_N (N_of_ascii a).
Definition string_Z (s : string) : list Z := ascii_Z <$> String.list_ascii_of_string s.
Notation "'chr' c" :=
  (ltac:(let v := eval vm_compute in (ascii_Z c%char) in exact v))
  (at level 9, c at level 0, only parsing).
Notation "'str' s" :=
  (ltac:(let v := eval vm_compute in (string_Z s%string) in exact v))
  (at level 9, s at level 0, only parsing).

(** ** Memory blocks: lists read and written at an [int] index

    An access outside the block is undefined behaviour, [None]. *)
Definition zlen {A} (l : list A) : Z := Z.of_nat (length l).

Definition rd {A} (m : list A) (i : Z) : option A :=
  if i <? 0 then None else m !! Z.to_nat i.

Definition wr {A} (m : list A) (i : Z) (v : A) : option (list A) :=
  if (0 <=? i) && (i <? zlen m) then Some (<[Z.to_nat i := v]> m) else None.

(** A constant lookup table indexed by an [unsigned char]. *)
Definition tab (t : list Z) (c : Z) : Z := nth (Z.to_nat (u8 c)) t 0.

(** The C string at the start of a block: the bytes before the first NUL;
    [None] when the block holds no NUL ([strlen] runs out of it). *)
Fixpoint cstr (m : list Z) : option (list Z) :=
  match m with
  | [] => None
  | c :: m' => if c =? 0 then Some [] else cons c <$> cstr m'
  end.

(** The bytes a function called with a pointer to the block [m] and a length
    [n] reads: with [n < 0] the functions of the library take [strlen]. *)
Definition in_bytes (m : list Z) (n : Z) : option (list Z) :=
  if n <? 0 then cstr m
  else if n <=? zlen m then Some (take (Z.to_nat n) m) else None.


(** The [n] bytes a loop over [data, data + n) reads. *)
Definition read_bytes (m : list Z) (n : Z) : option (list Z) :=
  if n <=? zlen m then Some (take (Z.to_nat n) m) else None.

(** ** Runs that succeed

    [runs o P]: the computation [o] neither meets undefined behaviour nor
    aborts, and its result satisfies [P] (total correctness). *)
Definition runs {A} (o : option A) (P : A -> Prop) : Prop := exists a, o = Some a /\ P a.

Lemma runs_ret {A} (a : A) (P : A -> Prop) : P a -> runs (Some a) P.
Proof. unfold runs. eauto. Qed.
Lemma runs_bind {A B} (o : option A) (f : A -> option B) (P : A -> Prop) (Q : B -> Prop) :
  runs o P -> (forall a, P a -> runs (f a) Q) -> runs (o ≫= f) Q.
Proof. intros (a & -> & Ha) H. by apply H. Qed.
Lemma runs_mono {A} (o : option A) (P Q : A -> Prop) :
  runs o P -> (forall a, P a -> Q a) -> runs o Q.
Proof. intros (a & -> & Ha) H. exists a. auto. Qed.
Lemma runs_Some {A} (o : option A) (P : A -> Prop) : runs o P -> is_Some o.
Proof. intros (a & -> & _). eauto. Qed.

(** ** Generic lemmas *)
Section lists.
Context {A : Type}.
Implicit Types l m : list A.

Lemma zlen_nil : zlen (@nil A) = 0.
Proof. done. Qed.
Lemma zlen_cons x l : zlen (x :: l) = 1 + zlen l.
Proof. unfold zlen. simpl. lia. Qed.
Lemma zlen_app l m : zlen (l ++ m) = zlen l + zlen m.
Proof. unfold zlen. rewrite length_app. lia. Qed.
Lemma zlen_nonneg l : 0 <= zlen l.
Proof. unfold zlen. lia. Qed.
Lemma zlen_replicate n (x : A) : zlen (replicate n x) = Z.of_nat n.
Proof. unfold zlen. by rewrite length_replicate. Qed.
Lemma zlen_fmap {B} (f : A -> B) l : zlen (f <$> l) = zlen l.
Proof. unfold zlen. by rewrite length_fmap. Qed.
Lemma zlen_insert l i x : zlen (<[i := x]> l) = zlen l.
Proof. unfold zlen. by rewrite length_insert. Qed.
Lemma zlen_take l n : 0 <= n <= zlen l -> zlen (take (Z.to_nat n) l) = n.
Proof. unfold zlen. rewrite length_take. lia. Qed.
Lemma zlen_drop l n : 0 <= n <= zlen l -> zlen (drop (Z.to_nat n) l) = zlen l - n.
Proof. unfold zlen. rewrite length_drop. lia. Qed.
Lemma zlen_to_nat l : Z.to_nat (zlen l) = length l.
Proof. apply Nat2Z.id. Qed.
Lemma zlen_inv_nil l : zlen l = 0 -> l = [].
Proof. unfold zlen. destruct l; simpl; [done|lia]. Qed.

Lemma rd_Some l i x : rd l i = Some x -> 0 <= i < zlen l.
Proof.
  unfold rd, zlen. destruct (Z.ltb_spec i 0); [done|].
  intros Hl%lookup_lt_Some. lia.
Qed.
Lemma rd_is_Some l i : 0 <= i < zlen l -> is_Some (rd l i).
Proof.
  unfold rd, zlen. intros ?. destruct (Z.ltb_spec i 0); [lia|].
  apply lookup_lt_is_Some. lia.
Qed.
Lemma rd_None l i : i < 0 \/ zlen l <= i -> rd l i = None.
Proof.
  unfold rd, zlen. intros ?. destruct (Z.ltb_spec i 0); [done|].
  apply lookup_ge_None. lia.
Qed.
Lemma rd_app_r l m i : zlen l <= i -> rd (l ++ m) i = rd m (i - zlen l).
Proof.
  unfold rd, zlen. intros ?.
  destruct (Z.ltb_spec i 0), (Z.ltb_spec (i - Z.of_nat (length l)) 0); try lia; [].
  rewrite lookup_app_r by lia. f_equal. lia.
Qed.
Lemma rd_app_l l m i : i < zlen l -> rd (l ++ m) i = rd l i.
Proof.
  unfold rd, zlen. intros ?. destruct (Z.ltb_spec i 0); [done|].
  apply lookup_app_l. lia.
Qed.
Lemma rd_at l x m : rd (l ++ x :: m) (zlen l) = Some x.
Proof. rewrite rd_app_r, Z.sub_diag by lia. done. Qed.
Lemma rd_0 x l : rd (x :: l) 0 = Some x.
Proof. done. Qed.

Lemma wr_Some l i x : 0 <= i < zlen l -> wr l i x = Some (<[Z.to_nat i := x]> l).
Proof.
  unfold wr. intros ?. destruct (Z.leb_spec 0 i), (Z.ltb_spec i (zlen l)); (done || lia).
Qed.
Lemma wr_app l y m x : wr (l ++ y :: m) (zlen l) x = Some (l ++ x :: m).
Proof.
  rewrite wr_Some by (rewrite zlen_app, zlen_cons; pose proof (zlen_nonneg l);
    pose proof (zlen_nonneg m); lia).
  f_equal. unfold zlen. rewrite Nat2Z.id.
  rewrite insert_app_r_alt by lia. by rewrite Nat.sub_diag.
Qed.
End lists.

Lemma cstr_app l m : Forall (.≠ 0) l -> cstr (l ++ 0 :: m) = Some l.
Proof.
  induction 1 as [|c l Hc _ IH]; simpl; [done|].
  destruct (Z.eqb_spec c 0); [done|]. by rewrite IH.
Qed.

Lemma cstr_split m x : cstr m = Some x -> exists rest, m = x ++ 0 :: rest /\ Forall (.≠ 0) x.
Proof.
  revert x. induction m as [|c m IH]; intros x; simpl; [done|].
  destruct (Z.eqb_spec c 0) as [->|Hc]; [intros [= <-]; by exists m|].
  destruct (cstr m) as [y|]; [|done]. intros [= <-]. destruct (IH y eq_refl) as (rest & -> & Hy).
  exists rest. split; [done|by constructor].
Qed.

Lemma in_bytes_full m : in_bytes m (zlen m) = Some m.
Proof.
  unfold in_bytes. pose proof (zlen_nonneg m).
  destruct (Z.ltb_spec (zlen m) 0); [lia|].
  destruct (Z.leb_spec (zlen m) (zlen m)); [|lia].
  f_equal. apply firstn_all2. unfold zlen. lia.
Qed.
Lemma in_bytes_app m r : in_bytes (m ++ r) (zlen m) = Some m.
Proof.
  unfold in_bytes. pose proof (zlen_nonneg m). pose proof (zlen_nonneg r). pose proof (zlen_app m r).
  destruct (Z.ltb_spec (zlen m) 0); [lia|]. destruct (Z.leb_spec (zlen m) (zlen (m ++ r))); [|lia].
  by rewrite zlen_to_nat, take_app_length.
Qed.

(** Induction by groups of two and of three. *)
Lemma list_ind2 {A} (P : list A -> Prop) :
  P [] -> (forall a, P [a]) -> (forall a b l, P l -> P (a :: b :: l)) -> forall l, P l.
Proof. intros H0 H1 H2. fix IH 1. intros [|a [|b l]]; [done|apply H1|apply H2, IH]. Qed.
Lemma list_ind3 {A} (P : list A -> Prop) :
  P [] -> (forall a, P [a]) -> (forall a b, P [a; b]) ->
  (forall a b c l, P l -> P (a :: b :: c :: l)) -> forall l, P l.
Proof.
  intros H0 H1 H2 H3. fix IH 1. intros [|a [|b [|c l]]]; [done|apply H1|apply H2|apply H3, IH].
Qed.

(** Finite checks over all byte values, by computation. *)
Definition all_bytes : list Z := seqZ 0 256.

Lemma byte_forall (P : Z -> bool) :
  forallb P all_bytes = true -> forall b, byte_ok b -> P b = true.
Proof.
  intros H b Hb. rewrite forallb_forall in H. apply H.
  apply list_elem_of_In, elem_of_seqZ. unfold byte_ok in Hb. lia.
Qed.

Lemma byte_forall2 (P : Z -> Z -> bool) :
  forallb (fun a => forallb (P a) all_bytes) all_bytes = true ->
  forall a b, byte_ok a -> byte_ok b -> P a b = true.
Proof.
  intros H a b Ha. revert b. apply byte_forall.
  by apply (byte_forall (fun a => forallb (P a) all_bytes)).
Qed.

Lemma tab_u8 t c : tab t (uwrap 8 c) = tab t c.
Proof. unfold tab, uwrap. by rewrite Z.mod_mod by lia. Qed.

(** What holds of a table at every byte holds at every index. *)
Lemma tab_forall (t : list Z) (P : Z -> bool) :
  forallb (fun c => P (tab t c)) all_bytes = true -> forall c, P (tab t c) = true.
Proof.
  intros H c. rewrite <- tab_u8. apply (byte_forall (fun c => P (tab t c)) H).
  apply Z.mod_pos_bound. lia.
Qed.

(** ** Bit operations as arithmetic

    The database [bits] rewrites masks and shifts by constants to [mod], [/]
    and [*]; [zbits] then closes linear goals about them. *)
Lemma land_mask x n : 0 <= n -> Z.land x (2 ^ n - 1) = x mod 2 ^ n.
Proof.
  intros. replace (2 ^ n - 1) with (Z.ones n) by (rewrite Z.ones_equiv; lia).
  by apply Z.land_ones.
Qed.
Lemma land_3 x : Z.land x 3 = x mod 4.
Proof. by apply (land_mask x 2). Qed.
Lemma land_15 x : Z.land x 15 = x mod 16.
Proof. by apply (land_mask x 4). Qed.
Lemma land_63 x : Z.land x 63 = x mod 64.
Proof. by apply (land_mask x 6). Qed.
Lemma land_127 x : Z.land x 127 = x mod 128.
Proof. by apply (land_mask x 7). Qed.
Lemma land_255 x : Z.land x 255 = x mod 256.
Proof. by apply (land_mask x 8). Qed.
Lemma shiftr_div x n : 0 <= n -> Z.shiftr x n = x / 2 ^ n.
Proof. apply Z.shiftr_div_pow2. Qed.
Lemma shiftl_mul x n : 0 <= n -> Z.shiftl x n = x * 2 ^ n.
Proof. apply Z.shiftl_mul_pow2. Qed.

Create Rewrite HintDb bits.
#[export] Hint Rewrite land_3 land_15 land_63 land_127 land_255 : bits.
#[export] Hint Rewrite shiftr_div shiftl_mul using lia : bits.

Ltac zdiv := Z.to_euclidean_division_equations; lia.
Ltac zbits := autorewrite with bits; zdiv.

(** A multiple of [2^n] and a value below [2^n] share no bit. *)
Lemma land_mul_small x y n : 0 <= n -> 0 <= y < 2 ^ n -> Z.land (x * 2 ^ n) y = 0.
Proof.
  intros Hn Hy. apply Z.bits_inj'. intros i Hi.
  rewrite Z.land_spec, Z.bits_0, Z.mul_pow2_bits by done.
  destruct (Z.lt_ge_cases i n) as [?|?].
  - by rewrite Z.testbit_neg_r by lia.
  - replace (Z.testbit y i) with false; [by rewrite andb_false_r|].
    destruct (Z.eq_dec y 0) as [->|]; [by rewrite Z.bits_0|].
    symmetry. apply Z.bits_above_log2; [lia|].
    apply Z.log2_lt_pow2; [lia|]. apply Z.lt_le_trans with (2 ^ n); [lia|].
    apply Z.pow_le_mono_r; lia.
Qed.

Lemma lor_mul_add n x y : 0 <= n -> 0 <= y < 2 ^ n -> Z.lor (x * 2 ^ n) y = x * 2 ^ n + y.
Proof. intros. symmetry. by apply Z.add_nocarry_lor, land_mul_small. Qed.

Lemma lor_shiftl_add n x y : 0 <= n -> 0 <= y < 2 ^ n ->
  Z.lor (Z.shiftl x n) y = x * 2 ^ n + y.
Proof. intros. rewrite Z.shiftl_mul_pow2 by done. by apply lor_mul_add. Qed.

Lemma uwrap_small w z : 0 <= z < 2 ^ w -> uwrap w z = z.
Proof. apply Z.mod_small. Qed.
Lemma uwrap_range w z : 0 <= w -> 0 <= uwrap w z < 2 ^ w.
Proof. intros. apply Z.mod_pos_bound. by apply Z.pow_pos_nonneg. Qed.
Lemma u8_byte z : byte_ok (u8 z).
Proof. apply (uwrap_range 8). lia. Qed.
Lemma u8_id z : byte_ok z -> u8 z = z.
Proof. apply Z.mod_small. Qed.
Lemma u8_s8 z : u8 (s8 z) = u8 z.
Proof. unfold uwrap, swrap. change (8 - 1) with 7. zdiv. Qed.
Lemma swrap_small w z : 0 < w -> - 2 ^ (w - 1) <= z < 2 ^ (w - 1) -> swrap w z = z.
Proof.
  intros Hw Hz. unfold swrap.
  assert (2 ^ w = 2 * 2 ^ (w - 1)) by (rewrite <- Z.pow_succ_r by lia; f_equal; lia).
  rewrite Z.mod_small by lia. lia.
Qed.

Lemma as_int_Some z : - 2 ^ 31 <= z < 2 ^ 31 -> as_int z = Some z.
Proof.
  intros. unfold as_int, int_ok, int_min, int_max.
  destruct (Z.leb_spec (- 2 ^ 31) z), (Z.leb_spec z (2 ^ 31 - 1)); (done || lia).
Qed.
Lemma as_int_inv z y : as_int z = Some y -> y = z /\ - 2 ^ 31 <= z < 2 ^ 31.
Proof.
  unfold as_int, int_ok, int_min, int_max.
  destruct (Z.leb_spec (- 2 ^ 31) z), (Z.leb_spec z (2 ^ 31 - 1)); simpl; intros [=]; lia.
Qed.

Lemma lor_byte a b : byte_ok a -> byte_ok b -> byte_ok (Z.lor a b).
Proof.
  intros Ha Hb. replace (Z.lor a b) with (u8 (Z.lor a b)); [apply u8_byte|].
  unfold uwrap. change (2 ^ 8) with 256. rewrite <- land_255, Z.land_lor_distr_l, !land_255.
  by f_equal; apply Z.mod_small.
Qed.

Create HintDb zc.
Create Rewrite HintDb zlen.
#[export] Hint Rewrite @zlen_cons @zlen_app @zlen_fmap @zlen_replicate @zlen_insert : zlen.
#[export] Hint Resolve zlen_nonneg u8_byte : zc.

(** Lengths of lists in the context are non-negative: facts for [lia]. *)
Ltac zlen_facts :=
  repeat match goal with
    | |- context [zlen ?l] =>
        lazymatch goal with H : 0 <= zlen l |- _ => fail | _ => pose proof (zlen_nonneg l) end
    | _ : context [zlen ?l] |- _ =>
        lazymatch goal with H : 0 <= zlen l |- _ => fail | _ => pose proof (zlen_nonneg l) end
    end.
(** [zlen []] is convertible to every 0 of the goal, so it is replaced by
    [change] and not by rewriting. *)
Ltac zlen_nils :=
  repeat match goal with
    | |- context [zlen (@nil ?A)] => change (zlen (@nil A)) with 0
    | H : context [zlen (@nil ?A)] |- _ => change (zlen (@nil A)) with 0 in H
    end.
Ltac zlia := autorewrite with zlen in *; zlen_nils; zlen_facts; lia.

(** ** Decimal numbers: [printf]'s ["%d"] and ["%zd"]; 64 digits are enough *)
Fixpoint decimal_digits (fuel : nat) (n : Z) : list Z :=
  match fuel with
  | O => []
  | S fuel' => if n <? 10 then [n + 48] else decimal_digits fuel' (n / 10) ++ [n mod 10 + 48]
  end.
Definition fmt_zd (l : Z) : list Z :=
  if l <? 0 then chr "-" :: decimal_digits 64 (- l) else decimal_digits 64 l.

Lemma decimal_digits_bytes fuel n : 0 <= n -> bytes_ok (decimal_digits fuel n).
Proof.
  revert n. induction fuel as [|fuel IH]; intros n Hn; cbn; [constructor|].
  destruct (Z.ltb_spec n 10); [repeat constructor; lia|]. apply Forall_app. split.
  - apply IH. apply Z.div_pos; lia.
  - constructor; [|constructor]. unfold byte_ok. pose proof (Z.mod_pos_bound n 10). lia.
Qed.
Lemma decimal_digits_len fuel n : (length (decimal_digits fuel n) <= fuel)%nat.
Proof.
  revert n. induction fuel as [|fuel IH]; intros n; cbn; [done|].
  destruct (n <? 10); cbn; [lia|]. rewrite length_app. cbn. specialize (IH (n / 10)). lia.
Qed.
Lemma fmt_zd_bytes l : bytes_ok (fmt_zd l).
Proof.
  unfold fmt_zd. destruct (Z.ltb_spec l 0); [constructor; [by unfold byte_ok|]|]; apply decimal_digits_bytes; lia.
Qed.
Lemma fmt_zd_len l : zlen (fmt_zd l) <= 65.
Proof.
  pose proof (decimal_digits_len 64 l). pose proof (decimal_digits_len 64 (- l)). unfold fmt_zd.
  destruct (l <? 0); [rewrite zlen_cons|]; unfold zlen; lia.
Qed.

(** ** Blocks with a length *)
Lemma in_bytes_front (buf x : list Z) n : in_bytes buf n = Some x -> 0 <= n ->
  exists rest, buf = x ++ rest /\ Z.to_nat n = length x /\ zlen x = n.
Proof.
  unfold in_bytes. destruct (Z.ltb_spec n 0); [lia|]. destruct (Z.leb_spec n (zlen buf)); [|done]. intros [= <-] _.
  exists (drop (Z.to_nat n) buf). rewrite take_drop, zlen_take by lia. split; [done|]. split; [|done].
  rewrite length_take. unfold zlen in *. lia.
Qed.
(** A negative length stands for that of the C string. *)
Lemma bytes_arg buf len x : in_bytes buf len = Some x -> zlen x < 2 ^ 31 ->
  (if len <? 0 then s32 <$> (zlen <$> cstr buf) else Some len) = Some (zlen x) /\ in_bytes buf (zlen x) = Some x.
Proof.
  intros Hin Hx. zlen_facts. unfold in_bytes in Hin. destruct (Z.ltb_spec len 0).
  - rewrite Hin. cbn. rewrite swrap_small by lia. split; [done|]. apply cstr_split in Hin as (rest & -> & _).
    apply in_bytes_app.
  - pose proof Hin as Hin'. destruct (Z.leb_spec len (zlen buf)); [|done]. injection Hin' as <-. rewrite zlen_take by lia.
    split; [done|]. unfold in_bytes. destruct (Z.ltb_spec len 0); [lia|]. by destruct (Z.leb_spec len (zlen buf)); [|lia].
Qed.
