(* ===== verification/Buf.v ===== *)
(** * Byte buffers: src/stdlib/buf.c and the [zbuf_t] part of zc.h

    A [zbuf_t] is a heap block with a length and a capacity; [static_mode]
    marks a buffer over a caller's array, which never grows. Operations are
    total functions into [option]: [None] is an access outside the block, an
    [int] overflow or an endless recursion. *)
From S2P Require Import Prelude.

(** A cell of a block: [None] until it is written. *)
Abbreviation cell := (option Z).

Record zbuf := mk_zbuf {
  bf_data : list cell;
  bf_len : Z;
  bf_static : bool;
  bf_size : Z
}.

(** ** Allocation (src/malloc/malloc.c): a negative request is clamped to 0 *)
Definition zmalloc (n : Z) : list cell := replicate (Z.to_nat n) None.
Definition zrealloc (d : list cell) (n : Z) : list cell :=
  take (Z.to_nat n) d ++ replicate (Z.to_nat n - length d) None.

(** [memcpy] of [l] to offset [i] of the block [d]. *)
Definition blit (d : list cell) (i : Z) (l : list Z) : option (list cell) :=
  if (0 <=? i) && (i + zlen l <=? zlen d)
  then Some (take (Z.to_nat i) d ++ (Some <$> l) ++ drop (Z.to_nat (i + zlen l)) d)
  else None.

(** ** Operations *)
Definition set_data (b : zbuf) (d : list cell) : zbuf :=
  mk_zbuf d (bf_len b) (bf_static b) (bf_size b).
(** [len] and [size] are signed 31-bit fields. *)
Definition set_len (b : zbuf) (n : Z) : zbuf :=
  mk_zbuf (bf_data b) (swrap 31 n) (bf_static b) (bf_size b).

Definition zbuf_init (size : Z) : option zbuf :=
  let size := if size <? 0 then 13 else if size =? 0 then 1 else size in
  n ← as_int (size + 1);
  d ← wr (zmalloc n) 0 (Some 0);
  Some (mk_zbuf d 0 false (swrap 31 size)).

Definition zbuf_create (size : Z) : option zbuf := zbuf_init size.

(** [ZSTACK_BUF(name, size)]: a buffer over a local array of [size + 1]. *)
Definition ZSTACK_BUF (size : Z) : option zbuf :=
  d ← wr (zmalloc (size + 1)) 0 (Some 0);
  Some (mk_zbuf d 0 true (swrap 31 size)).

Definition zbuf_reset (b : zbuf) : option zbuf :=
  d ← wr (bf_data b) 0 (Some 0);
  Some (set_len (set_data b d) 0).

Definition zbuf_terminate (b : zbuf) : option zbuf :=
  d ← wr (bf_data b) (bf_len b) (Some 0);
  Some (set_data b d).

Definition zbuf_truncate (b : zbuf) (new_len : Z) : option zbuf :=
  if (new_len <? bf_len b) && (-1 <? new_len)
  then zbuf_terminate (set_len b new_len)
  else Some b.

Definition zbuf_need_space (b : zbuf) (need : Z) : option (zbuf * Z) :=
  if bf_static b then Some (b, -1) else
  let left := bf_size b - bf_len b in
  incr ← as_int (need - left);
  if incr <? 0 then Some (b, left) else
  let incr := if incr <? bf_size b then bf_size b else incr in
  sum ← as_int (bf_size b + incr);
  let size := swrap 31 sum in
  r ← as_int (left + incr);
  Some (mk_zbuf (zrealloc (bf_data b) (size + 1)) (bf_len b) false size, r).

(** The macro [ZBUF_PUT] and [zbuf_put_do] call each other: [fuel] bounds the
    nesting. Two levels suffice (see [ZBUF_PUT_runs]); when [len > size] the C
    code recurses for ever. *)
Fixpoint ZBUF_PUT_rec (fuel : nat) (b : zbuf) (c : Z) : option zbuf :=
  match fuel with
  | O => None
  | S fuel' =>
      if bf_len b <? bf_size b then
        d ← wr (bf_data b) (bf_len b) (Some (u8 c));
        Some (set_len (set_data b d) (bf_len b + 1))
      else if bf_static b then Some b
      else (* zbuf_put_do *)
        b' ← (if bf_len b =? bf_size b then fst <$> zbuf_need_space b 1 else Some b);
        ZBUF_PUT_rec fuel' b' c
  end.
Definition ZBUF_PUT : zbuf -> Z -> option zbuf := ZBUF_PUT_rec 2.
Definition zbuf_put_do (b : zbuf) (c : Z) : option zbuf :=
  b' ← (if bf_len b =? bf_size b then fst <$> zbuf_need_space b 1 else Some b);
  ZBUF_PUT b' c.

Definition zbuf_put (b : zbuf) (c : Z) : option zbuf :=
  b' ← ZBUF_PUT b c; zbuf_terminate b'.

(** [while (len--) { ZBUF_PUT(bf, *src); src++; }] *)
Fixpoint ZBUF_PUT_all (b : zbuf) (l : list Z) : option zbuf :=
  match l with
  | [] => Some b
  | c :: l' => b' ← ZBUF_PUT b c; ZBUF_PUT_all b' l'
  end.

(** [while (len-- && *src) { ZBUF_PUT(bf, *src); src++; }] *)
Fixpoint put_strn (b : zbuf) (src : list Z) (len : nat) : option zbuf :=
  match len, src with
  | O, _ => Some b
  | S _, [] => None
  | S len', c :: src' =>
      if c =? 0 then Some b else b' ← ZBUF_PUT b c; put_strn b' src' len'
  end.

Definition zbuf_strncat (b : zbuf) (src : list Z) (len : Z) : option zbuf :=
  b' ← (if 0 <? len then put_strn b src (Z.to_nat len) else Some b);
  zbuf_terminate b'.

Definition zbuf_strncpy (b : zbuf) (src : list Z) (len : Z) : option zbuf :=
  b' ← zbuf_reset b; zbuf_strncat b' src len.

(** The common tail of the copying functions: make room, then [memcpy] when
    there is room and byte by byte when there is not (static mode). *)
Definition copy_in (b : zbuf) (src : list Z) (len : Z) : option zbuf :=
  n ← as_int (len + 1);
  '(b, avail) ← zbuf_need_space b n;
  if len <? avail then
    (if 0 <? len then
       l ← in_bytes src len;
       d ← blit (bf_data b) (bf_len b) l;
       Some (set_len (set_data b d) (bf_len b + len))
     else Some b)
  else l ← in_bytes src len; ZBUF_PUT_all b l.

Definition zbuf_memcat (b : zbuf) (src : list Z) (len : Z) : option zbuf :=
  b' ← (if 0 <? len then copy_in b src len else Some b);
  zbuf_terminate b'.

Definition zbuf_memcpy (b : zbuf) (src : list Z) (len : Z) : option zbuf :=
  b' ← zbuf_reset b; zbuf_memcat b' src len.

(** [int len = strlen(src ? src : "")]: the argument is [None] for NULL. *)
Definition strlen_or_empty (src : option (list Z)) : option (list Z) :=
  match src with Some m => cstr m | None => Some [] end.

Definition zbuf_strcat (b : zbuf) (src : option (list Z)) : option zbuf :=
  l ← strlen_or_empty src;
  let len := s32 (zlen l) in
  b' ← (if 0 <? len then copy_in b l len else Some b);
  zbuf_terminate b'.

Definition zbuf_strcpy (b : zbuf) (src : option (list Z)) : option zbuf :=
  b ← zbuf_reset b;
  l ← strlen_or_empty src;
  let len := s32 (zlen l) in
  b' ← copy_in b l len;
  zbuf_terminate b'.

(** [zbuf_puts] is [zbuf_strcat]; the argument of the library's calls is a
    string literal. *)
Definition zbuf_puts (b : zbuf) (s : list Z) : option zbuf := zbuf_strcat b (Some (s ++ [0])).

(** The bytes a buffer holds, as its client reads them. *)
Definition zbuf_bytes (b : zbuf) : option (list Z) :=
  mapM id (take (Z.to_nat (bf_len b)) (bf_data b)).

Definition zbuf_append (b b2 : zbuf) : option zbuf :=
  src ← zbuf_bytes b2; zbuf_memcat b src (bf_len b2).

(** [out] is what the format directives produce; [vsnprintf] stores its first
    1023 bytes and returns its whole length. *)
Definition zbuf_printf_1024 (b : zbuf) (out : list Z) : option zbuf :=
  let len := if zlen out <? 1024 then zlen out else 1024 - 1 in
  zbuf_memcat b (take 1023 out ++ [0]) len.

Fixpoint trim_rn_loop (fuel : nat) (b : zbuf) : option zbuf :=
  match fuel with
  | O => Some b
  | S fuel' =>
      if 0 <? bf_len b then
        c ← mjoin (rd (bf_data b) (bf_len b - 1));
        if (c =? chr "010") || (c =? chr "013")
        then trim_rn_loop fuel' (set_len b (bf_len b - 1))
        else Some b
      else Some b
  end.
Definition zbuf_trim_right_rn (b : zbuf) : option zbuf :=
  b' ← trim_rn_loop (Z.to_nat (bf_len b)) b; zbuf_terminate b'.

(** ** Specification

    A buffer promises a sequence of bytes: everything appended so far, clipped
    to the capacity when the buffer is static. *)
Definition buf_cap (b : zbuf) : option Z := if bf_static b then Some (bf_size b) else None.
Definition clip (cap : option Z) (l : list Z) : list Z :=
  match cap with Some n => take (Z.to_nat n) l | None => l end.
(** A growing buffer must stay below half a gigabyte: its capacity doubles,
    and lives in a signed 31-bit field. *)
Definition room (cap : option Z) (n : Z) : Prop :=
  match cap with Some _ => True | None => n < 2 ^ 29 end.

Record rep (cap : option Z) (b : zbuf) (l : list Z) : Prop := {
  rep_cap : buf_cap b = cap;
  rep_data : exists rest, bf_data b = (Some <$> l) ++ rest;
  rep_len : bf_len b = zlen l;
  rep_fit : zlen l <= bf_size b;
  rep_alloc : zlen (bf_data b) = bf_size b + 1;
  rep_size : 0 <= bf_size b < 2 ^ 30;
  rep_grow : cap = None -> 1 <= bf_size b;
  rep_bytes : bytes_ok l
}.

Definition terminated (b : zbuf) : Prop := rd (bf_data b) (bf_len b) = Some (Some 0).

(** What a client gets: the contents and the terminating NUL. *)
Definition holds (cap : option Z) (l : list Z) (b : zbuf) : Prop := rep cap b l /\ terminated b.

Lemma clip_fit cap b l : rep cap b l -> clip cap l = l.
Proof.
  intros [<- _ _ Hf _ Hs _ _]. unfold buf_cap. destruct (bf_static b); simpl; [|done].
  apply firstn_all2. unfold zlen in Hf. lia.
Qed.

Lemma clip_app cap x y : clip cap (clip cap x ++ y) = clip cap (x ++ y).
Proof.
  destruct cap as [n|]; simpl; [|done].
  destruct (Nat.le_ge_cases (length x) (Z.to_nat n)).
  - by rewrite (firstn_all2 x).
  - rewrite !take_app_le by (rewrite ?length_take; lia). by rewrite take_take, Nat.min_id.
Qed.

Lemma cells_split b l cap : rep cap b l -> exists y rest, bf_data b = (Some <$> l) ++ y :: rest.
Proof.
  intros H. destruct (rep_data _ _ _ H) as [[|y rest] E]; [|by eauto].
  exfalso. pose proof (rep_alloc _ _ _ H) as Ha. pose proof (rep_fit _ _ _ H).
  rewrite E in Ha. zlia.
Qed.

Lemma swrap31_id z : - 2 ^ 30 <= z < 2 ^ 30 -> swrap 31 z = z.
Proof. intros. apply swrap_small; lia. Qed.

(** Storing a byte at the end. *)
Lemma store_end cap b l c : rep cap b l -> zlen l < bf_size b -> byte_ok c ->
  runs (d ← wr (bf_data b) (bf_len b) (Some c);
        Some (set_len (set_data b d) (bf_len b + 1)))
       (fun b' => rep cap b' (l ++ [c]) /\ bf_size b' = bf_size b).
Proof.
  intros H Hl Hc. destruct (cells_split _ _ _ H) as (y & rest & E).
  rewrite (rep_len _ _ _ H), E.
  replace (zlen l) with (zlen (Some <$> l)) at 1 by zlia.
  rewrite wr_app. simpl. apply runs_ret. pose proof (rep_size _ _ _ H).
  split; [|done]. split; unfold set_len, set_data; simpl.
  - apply (rep_cap _ _ _ H).
  - exists rest. rewrite fmap_app, <- app_assoc. done.
  - rewrite swrap31_id; zlia.
  - zlia.
  - pose proof (rep_alloc _ _ _ H) as Ha. rewrite E in Ha. zlia.
  - done.
  - apply (rep_grow _ _ _ H).
  - apply Forall_app. split; [apply (rep_bytes _ _ _ H)|by constructor].
Qed.

Lemma terminate_holds cap b l : rep cap b l -> runs (zbuf_terminate b) (holds cap l).
Proof.
  intros H. destruct (cells_split _ _ _ H) as (y & rest & E).
  unfold zbuf_terminate. rewrite (rep_len _ _ _ H), E.
  replace (zlen l) with (zlen (Some <$> l)) at 1 by zlia.
  rewrite wr_app. simpl. apply runs_ret. split.
  - destruct H. split; unfold set_data; simpl; try done; [by eauto|].
    rewrite E in rep_alloc0. zlia.
  - unfold terminated, set_data. simpl. rewrite (rep_len _ _ _ H).
    rewrite rd_app_r by zlia. replace (zlen l - _) with 0 by zlia. done.
Qed.

Lemma zrealloc_app (l rest : list cell) n : zlen l <= n ->
  exists rest', zrealloc (l ++ rest) n = l ++ rest' /\ zlen (zrealloc (l ++ rest) n) = Z.max 0 n.
Proof.
  intros Hn. unfold zrealloc. rewrite take_app_ge by (unfold zlen in Hn; lia).
  rewrite <- app_assoc. eexists. split; [done|].
  unfold zlen in *. rewrite !length_app, length_take, length_replicate. lia.
Qed.

(** Growing keeps the contents and leaves the promised space. *)
Lemma need_space_dyn b l need : rep None b l -> 1 <= need -> zlen l + need < 2 ^ 29 ->
  runs (zbuf_need_space b need) (fun r => rep None r.1 l /\ r.2 = bf_size r.1 - zlen l /\ need <= r.2).
Proof.
  intros H Hn Hr. pose proof (rep_size _ _ _ H). pose proof (rep_fit _ _ _ H).
  pose proof (rep_grow _ _ _ H eq_refl). pose proof (rep_len _ _ _ H) as Hlen.
  assert (Hst : bf_static b = false).
  { pose proof (rep_cap _ _ _ H) as Hc. unfold buf_cap in Hc. by destruct (bf_static b). }
  unfold zbuf_need_space. rewrite Hst, Hlen. zlen_facts.
  rewrite as_int_Some by lia. simpl.
  destruct (Z.ltb_spec (need - (bf_size b - zlen l)) 0).
  { apply runs_ret. simpl. split; [done|lia]. }
  set (incr := if need - (bf_size b - zlen l) <? bf_size b then bf_size b else need - (bf_size b - zlen l)).
  assert (bf_size b <= incr /\ need - (bf_size b - zlen l) <= incr /\ bf_size b + incr < 2 ^ 30).
  { unfold incr. destruct (Z.ltb_spec (need - (bf_size b - zlen l)) (bf_size b)); lia. }
  repeat (rewrite as_int_Some by lia; simpl).
  rewrite swrap31_id by lia. apply runs_ret. simpl. split; [|lia].
  destruct (rep_data _ _ _ H) as [rest E]. rewrite E.
  destruct (zrealloc_app (Some <$> l) rest (bf_size b + incr + 1)) as (rest' & E' & L'); [zlia|].
  split; simpl; try done; try lia; [rewrite E'; eauto|apply (rep_bytes _ _ _ H)].
Qed.

Lemma ZBUF_PUT_runs cap b l c : rep cap b l -> room cap (zlen l + 1) ->
  runs (ZBUF_PUT b c) (fun b' => rep cap b' (clip cap (l ++ [u8 c]))).
Proof.
  intros H Hr. unfold ZBUF_PUT. simpl. rewrite (rep_len _ _ _ H).
  assert (Hgo : forall b, rep cap b l -> zlen l < bf_size b ->
    runs (d ← wr (bf_data b) (zlen l) (Some (u8 c)); Some (set_len (set_data b d) (zlen l + 1)))
      (fun b' => rep cap b' (clip cap (l ++ [u8 c])))).
  { intros b' H' Hl. rewrite <- (rep_len _ _ _ H').
    eapply runs_mono; [by apply (store_end cap b' l (u8 c) H' Hl), u8_byte|].
    intros b'' [H'' _]. by rewrite (clip_fit _ _ _ H''). }
  destruct (Z.ltb_spec (zlen l) (bf_size b)) as [Hl|Hl]; [by apply Hgo|].
  pose proof (rep_fit _ _ _ H). destruct (bf_static b) eqn:Hst.
  - apply runs_ret. pose proof (rep_cap _ _ _ H) as Hc. unfold buf_cap in Hc. rewrite Hst in Hc.
    subst cap. simpl. rewrite take_app_le by (unfold zlen in *; lia).
    rewrite firstn_all2 by (unfold zlen in *; lia). done.
  - assert (cap = None) as ->.
    { pose proof (rep_cap _ _ _ H) as Hc. unfold buf_cap in Hc. by rewrite Hst in Hc. }
    destruct (Z.eqb_spec (zlen l) (bf_size b)); [|lia]. simpl in Hr.
    destruct (need_space_dyn b l 1 H) as ([b' r] & -> & Hb' & Hr' & ?); [lia..|]. simpl in *.
    rewrite (rep_len _ _ _ Hb'). destruct (Z.ltb_spec (zlen l) (bf_size b')); [|lia].
    by apply Hgo.
Qed.

Lemma room_clip cap (x : list Z) n m :
  zlen x + n <= m -> room cap m -> room cap (zlen (clip cap x) + n).
Proof. destruct cap as [k|]; simpl; [done|]. intros. lia. Qed.

Lemma ZBUF_PUT_all_runs cap x : forall b l,
  rep cap b l -> bytes_ok x -> room cap (zlen l + zlen x) ->
  runs (ZBUF_PUT_all b x) (fun b' => rep cap b' (clip cap (l ++ x))).
Proof.
  induction x as [|c x IH]; intros b l H Hx Hr; simpl.
  { apply runs_ret. by rewrite app_nil_r, (clip_fit _ _ _ H). }
  inversion_clear Hx as [|? ? Hc Hx']. rewrite zlen_cons in Hr. zlen_facts.
  eapply runs_bind.
  { apply (ZBUF_PUT_runs cap b l c H). destruct cap; simpl in *; [done|lia]. }
  rewrite (u8_id c Hc). intros b' H'.
  replace (l ++ c :: x) with ((l ++ [c]) ++ x) by (by rewrite <- app_assoc).
  rewrite <- clip_app. apply IH; [done..|].
  eapply room_clip; [|exact Hr]. zlia.
Qed.

Lemma blit_app (l x rest : list Z) (d : list cell) :
  forall dr, d = (Some <$> l) ++ dr -> zlen x <= zlen dr ->
  blit d (zlen l) x = Some ((Some <$> l ++ x) ++ drop (length x) dr).
Proof.
  intros dr -> Hx. unfold blit.
  destruct (Z.leb_spec 0 (zlen l)), (Z.leb_spec (zlen l + zlen x) (zlen ((Some <$> l) ++ dr)));
    simpl; try zlia; []. f_equal.
  unfold zlen. rewrite <- Nat2Z.inj_add, !Nat2Z.id.
  rewrite take_app_le, firstn_all2 by (rewrite length_fmap; lia).
  rewrite drop_app_ge by (rewrite length_fmap; lia).
  rewrite length_fmap, fmap_app, <- app_assoc. repeat f_equal. lia.
Qed.

Lemma copy_in_runs cap b l src len x :
  rep cap b l -> in_bytes src len = Some x -> zlen x = len -> bytes_ok x ->
  len < int_max -> room cap (zlen l + len + 1) ->
  runs (copy_in b src len) (fun b' => rep cap b' (clip cap (l ++ x))).
Proof.
  intros H Hin Hlen Hx Hmax Hr. unfold copy_in. unfold int_max in Hmax. zlen_facts.
  rewrite as_int_Some by lia. simpl. destruct (bf_static b) eqn:Hst.
  - unfold zbuf_need_space. rewrite Hst. simpl.
    destruct (Z.ltb_spec len (-1)); [lia|]. rewrite Hin. simpl.
    apply ZBUF_PUT_all_runs; [done..|]. destruct cap; simpl in *; [done|lia].
  - assert (cap = None) as ->.
    { pose proof (rep_cap _ _ _ H) as Hc. unfold buf_cap in Hc. by rewrite Hst in Hc. }
    simpl in Hr. destruct (need_space_dyn b l (len + 1) H) as ([b' r] & -> & Hb' & Hr' & ?);
      [lia..|]. simpl in *. destruct (Z.ltb_spec len r); [|lia].
    destruct (Z.ltb_spec 0 len); simpl.
    + rewrite Hin. simpl. destruct (rep_data _ _ _ Hb') as [dr E].
      pose proof (rep_alloc _ _ _ Hb') as Ha. pose proof (rep_size _ _ _ Hb').
      rewrite E in Ha. rewrite (rep_len _ _ _ Hb').
      rewrite (blit_app l x [] (bf_data b') dr E) by zlia. simpl. apply runs_ret.
      split; simpl; try apply Hb'.
      * eauto.
      * rewrite swrap31_id; zlia.
      * zlia.
      * unfold zlen in *. rewrite length_app, length_drop.
        rewrite length_app in Ha. rewrite !length_fmap, length_app in *. lia.
      * apply Forall_app. split; [apply Hb'|done].
    + apply runs_ret. assert (x = []) as -> by (apply zlen_inv_nil; lia). by rewrite app_nil_r.
Qed.

Lemma zbuf_reset_rep cap b l : rep cap b l ->
  runs (zbuf_reset b) (fun b' => rep cap b' []).
Proof.
  intros H. unfold zbuf_reset. pose proof (rep_alloc _ _ _ H). pose proof (rep_size _ _ _ H).
  rewrite wr_Some by lia. simpl. apply runs_ret. destruct H.
  split; simpl; rewrite ?zlen_insert; first [done | by eexists | zlia | by constructor].
Qed.

Lemma zbuf_memcat_holds cap b l src len x :
  rep cap b l -> 0 <= len < int_max -> in_bytes src len = Some x -> zlen x = len -> bytes_ok x ->
  room cap (zlen l + len + 1) ->
  runs (zbuf_memcat b src len) (holds cap (clip cap (l ++ x))).
Proof.
  intros H Hlen Hin Hx Hb Hr. unfold zbuf_memcat. eapply runs_bind; [|intros ?; apply terminate_holds].
  destruct (Z.ltb_spec 0 len).
  - apply copy_in_runs; (done || lia).
  - apply runs_ret. assert (x = []) as -> by (apply zlen_inv_nil; lia).
    by rewrite app_nil_r, (clip_fit _ _ _ H).
Qed.

Lemma zbuf_put_holds cap b l c : rep cap b l -> room cap (zlen l + 1) -> byte_ok c ->
  runs (zbuf_put b c) (holds cap (clip cap (l ++ [c]))).
Proof.
  intros H Hr Hc. unfold zbuf_put. eapply runs_bind; [by apply ZBUF_PUT_runs|].
  rewrite (u8_id c Hc). intros b'. apply terminate_holds.
Qed.

Lemma in_bytes_self (x : list Z) n : n = zlen x -> in_bytes x n = Some x.
Proof. intros ->. apply in_bytes_full. Qed.

Lemma s32_small n : 0 <= n < int_max -> s32 n = n.
Proof. unfold int_max. intros. apply swrap_small; lia. Qed.

Lemma zbuf_strcat_holds cap b l s x :
  rep cap b l -> strlen_or_empty s = Some x -> bytes_ok x -> zlen x < int_max ->
  room cap (zlen l + zlen x + 1) ->
  runs (zbuf_strcat b s) (holds cap (clip cap (l ++ x))).
Proof.
  intros H Hs Hx Hm Hr. unfold zbuf_strcat. rewrite Hs. simpl. zlen_facts.
  rewrite s32_small by lia. eapply runs_bind; [|intros ?; apply terminate_holds].
  destruct (Z.ltb_spec 0 (zlen x)).
  - apply copy_in_runs; try (done || lia). by apply in_bytes_self.
  - apply runs_ret. assert (x = []) as -> by (apply zlen_inv_nil; lia).
    by rewrite app_nil_r, (clip_fit _ _ _ H).
Qed.

(** [while (len-- && *src)]: the bytes a bounded string copy transfers. *)
Fixpoint strn (src : list Z) (len : nat) : option (list Z) :=
  match len, src with
  | O, _ => Some []
  | S _, [] => None
  | S len', c :: src' => if c =? 0 then Some [] else cons c <$> strn src' len'
  end.

Lemma put_strn_all src : forall len b x,
  strn src len = Some x -> put_strn b src len = ZBUF_PUT_all b x.
Proof.
  induction src as [|c src IH]; intros [|len] b x Hx; simpl in *; try (by simplify_eq).
  destruct (c =? 0); [by simplify_eq|].
  apply fmap_Some in Hx as (y & Hy & ->). simpl.
  destruct (ZBUF_PUT b c); simpl; [by apply IH|done].
Qed.

Lemma zbuf_strncat_holds cap b l src n x :
  rep cap b l -> strn src (Z.to_nat n) = Some x -> bytes_ok x -> room cap (zlen l + zlen x + 1) ->
  runs (zbuf_strncat b src n) (holds cap (clip cap (l ++ x))).
Proof.
  intros H Hs Hx Hr. unfold zbuf_strncat. eapply runs_bind; [|intros ?; apply terminate_holds].
  destruct (Z.ltb_spec 0 n).
  - rewrite (put_strn_all _ _ _ _ Hs). apply ZBUF_PUT_all_runs; [done..|].
    destruct cap; simpl in *; [done|lia].
  - replace (Z.to_nat n) with O in Hs by lia.
    assert (x = []) as -> by (by destruct src; simplify_eq/=).
    apply runs_ret. by rewrite app_nil_r, (clip_fit _ _ _ H).
Qed.

Lemma zbuf_strcpy_holds cap b l s x :
  rep cap b l -> strlen_or_empty s = Some x -> bytes_ok x -> zlen x < int_max ->
  room cap (zlen x + 1) ->
  runs (zbuf_strcpy b s) (holds cap (clip cap x)).
Proof.
  intros H Hs Hx Hm Hr. unfold zbuf_strcpy. zlen_facts.
  eapply runs_bind; [by eapply zbuf_reset_rep|]. intros b' H'. rewrite Hs. simpl.
  rewrite s32_small by lia. eapply runs_bind; [|intros ?; apply terminate_holds].
  apply (copy_in_runs cap b' [] x (zlen x) x); try done. apply in_bytes_full.
Qed.

Lemma rep_prefix cap b l n : rep cap b l -> 0 <= n <= zlen l ->
  rep cap (set_len b n) (take (Z.to_nat n) l).
Proof.
  intros H Hn. pose proof (rep_fit _ _ _ H). pose proof (rep_size _ _ _ H).
  destruct H. split; unfold set_len; simpl; try done.
  - destruct rep_data0 as [rest ->].
    exists ((Some <$> drop (Z.to_nat n) l) ++ rest).
    by rewrite app_assoc, <- fmap_app, take_drop.
  - rewrite zlen_take by lia. apply swrap31_id. lia.
  - rewrite zlen_take by lia. lia.
  - by apply Forall_take.
Qed.

Definition truncated (n : Z) (l : list Z) : list Z :=
  if (n <? zlen l) && (-1 <? n) then take (Z.to_nat n) l else l.

Lemma zbuf_truncate_holds cap b l n : holds cap l b ->
  runs (zbuf_truncate b n) (holds cap (truncated n l)).
Proof.
  intros [H Ht]. unfold zbuf_truncate, truncated. rewrite (rep_len _ _ _ H).
  destruct (Z.ltb_spec n (zlen l)), (Z.ltb_spec (-1) n); simpl; try (by apply runs_ret); [].
  apply terminate_holds, rep_prefix; [done|lia].
Qed.

(** Dropping the line ends at the end of the contents. *)
Definition is_rn (c : Z) : bool := (c =? chr "010") || (c =? chr "013").
Fixpoint drop_rn (l : list Z) : list Z :=
  match l with
  | c :: l' => if is_rn c then drop_rn l' else l
  | [] => []
  end.
Definition trim_rn (l : list Z) : list Z := rev (drop_rn (rev l)).

Lemma trim_rn_snoc l c : trim_rn (l ++ [c]) = if is_rn c then trim_rn l else l ++ [c].
Proof.
  unfold trim_rn. rewrite rev_unit. simpl. destruct (is_rn c); [done|].
  by rewrite <- rev_unit, rev_involutive.
Qed.

Lemma trim_rn_loop_rep cap l : forall fuel b, rep cap b l -> (length l <= fuel)%nat ->
  runs (trim_rn_loop fuel b) (fun b' => rep cap b' (trim_rn l)).
Proof.
  induction l as [|c l IH] using rev_ind; intros fuel b H Hf.
  { destruct fuel; simpl; [by apply runs_ret|]. rewrite (rep_len _ _ _ H). by apply runs_ret. }
  rewrite length_app in Hf. simpl in Hf. destruct fuel as [|fuel]; [lia|]. simpl.
  rewrite (rep_len _ _ _ H). destruct (Z.ltb_spec 0 (zlen (l ++ [c]))); [|zlia].
  destruct (rep_data _ _ _ H) as [rest E]. rewrite E, fmap_app, <- app_assoc.
  replace (zlen (l ++ [c]) - 1) with (zlen (Some <$> l)) by zlia.
  rewrite rd_app_r, Z.sub_diag by lia. simpl. rewrite trim_rn_snoc. unfold is_rn.
  destruct (_ || _); [|by apply runs_ret].
  apply IH; [|lia]. pose proof (rep_prefix _ _ _ (zlen (Some <$> l)) H) as Hp.
  replace (take _ _) with l in Hp.
  { apply Hp. zlia. }
  unfold zlen. by rewrite length_fmap, Nat2Z.id, take_app_length.
Qed.

Lemma zbuf_trim_right_rn_holds cap b l : rep cap b l ->
  runs (zbuf_trim_right_rn b) (holds cap (trim_rn l)).
Proof.
  intros H. unfold zbuf_trim_right_rn. eapply runs_bind; [|intros ?; apply terminate_holds].
  apply trim_rn_loop_rep; [done|]. rewrite (rep_len _ _ _ H). unfold zlen. lia.
Qed.

Lemma zbuf_reset_holds cap b l : rep cap b l -> runs (zbuf_reset b) (holds cap []).
Proof.
  intros H. destruct (zbuf_reset_rep _ _ _ H) as (b' & E & H'). exists b'.
  split; [done|]. split; [done|]. unfold terminated. rewrite (rep_len _ _ _ H').
  pose proof (rep_alloc _ _ _ H). pose proof (rep_size _ _ _ H).
  unfold zbuf_reset in E. rewrite wr_Some in E by lia. simplify_eq/=.
  unfold rd. simpl. apply list_lookup_insert_eq. unfold zlen in *. lia.
Qed.

Lemma zbuf_memcpy_holds cap b l src len x :
  rep cap b l -> 0 <= len < int_max -> in_bytes src len = Some x -> zlen x = len -> bytes_ok x ->
  room cap (len + 1) ->
  runs (zbuf_memcpy b src len) (holds cap (clip cap x)).
Proof.
  intros H **. unfold zbuf_memcpy. eapply runs_bind; [by eapply zbuf_reset_rep|].
  intros b' H'. by eapply (zbuf_memcat_holds cap b' []).
Qed.

Lemma zbuf_printf_holds cap b l out :
  rep cap b l -> bytes_ok (take 1023 out) -> room cap (zlen l + zlen (take 1023 out) + 1) ->
  runs (zbuf_printf_1024 b out) (holds cap (clip cap (l ++ take 1023 out))).
Proof.
  intros H Hb Hr. unfold zbuf_printf_1024.
  set (len := if zlen out <? 1024 then _ else _).
  assert (Hlen : zlen (take 1023 out) = len).
  { unfold len, zlen in *. rewrite length_take.
    destruct (Z.ltb_spec (Z.of_nat (length out)) 1024); lia. }
  zlen_facts. assert (len <= 1023) by (unfold len; destruct (Z.ltb_spec (zlen out) 1024); lia).
  apply zbuf_memcat_holds; rewrite ?Hlen in *; try done.
  - unfold int_max. lia.
  - unfold in_bytes. destruct (Z.ltb_spec len 0); [lia|].
    destruct (Z.leb_spec len (zlen (take 1023 out ++ [0]))); [|zlia].
    f_equal. rewrite take_app_le by (unfold zlen in Hlen; lia).
    apply firstn_all2. unfold zlen in Hlen. lia.
Qed.

(** A fresh buffer is empty. *)
Lemma zbuf_create_holds size : size < 2 ^ 29 -> runs (zbuf_create size) (holds None []).
Proof.
  intros Hs. unfold zbuf_create, zbuf_init.
  set (sz := if size <? 0 then 13 else _).
  assert (1 <= sz < 2 ^ 29).
  { unfold sz. destruct (Z.ltb_spec size 0), (Z.eqb_spec size 0); lia. }
  rewrite as_int_Some by lia. simpl. unfold zmalloc.
  rewrite wr_Some by (autorewrite with zlen; lia). apply runs_ret.
  rewrite swrap31_id by lia. split.
  - split; simpl; autorewrite with zlen; zlen_nils; try (done || lia). by eexists.
  - unfold terminated, rd. simpl. apply list_lookup_insert_eq. rewrite length_replicate. lia.
Qed.

Lemma ZSTACK_BUF_holds size : 0 <= size < 2 ^ 30 -> runs (ZSTACK_BUF size) (holds (Some size) []).
Proof.
  intros Hs. unfold ZSTACK_BUF, zmalloc.
  rewrite wr_Some by (autorewrite with zlen; lia). apply runs_ret.
  rewrite swrap31_id by lia. split.
  - split; simpl; autorewrite with zlen; zlen_nils; try (done || lia). by eexists.
  - unfold terminated, rd. simpl. apply list_lookup_insert_eq. rewrite length_replicate. lia.
Qed.

(** ** Sequences of operations *)
Inductive buf_op :=
  | Put (c : Z)
  | Strncpy (src : list Z) (len : Z)
  | Strcpy (src : option (list Z))
  | Strncat (src : list Z) (len : Z)
  | Strcat (src : option (list Z))
  | Memcpy (src : list Z) (len : Z)
  | Memcat (src : list Z) (len : Z)
  | Printf (out : list Z)
  | Trim
  | Truncate (new_len : Z)
  | Reset.

Definition run_op (o : buf_op) (b : zbuf) : option zbuf :=
  match o with
  | Put c => zbuf_put b c
  | Strncpy src len => zbuf_strncpy b src len
  | Strcpy src => zbuf_strcpy b src
  | Strncat src len => zbuf_strncat b src len
  | Strcat src => zbuf_strcat b src
  | Memcpy src len => zbuf_memcpy b src len
  | Memcat src len => zbuf_memcat b src len
  | Printf out => zbuf_printf_1024 b out
  | Trim => zbuf_trim_right_rn b
  | Truncate n => zbuf_truncate b n
  | Reset => zbuf_reset b
  end.

Fixpoint run_ops (os : list buf_op) (b : zbuf) : option zbuf :=
  match os with [] => Some b | o :: os' => b' ← run_op o b; run_ops os' b' end.

(** The bytes an operation transfers; [None] when its arguments make it read
    outside the block it was given. *)
Definition op_bytes (o : buf_op) : option (list Z) :=
  match o with
  | Put c => Some [u8 c]
  | Strncpy src len | Strncat src len => strn src (Z.to_nat len)
  | Strcpy src | Strcat src => strlen_or_empty src
  | Memcpy src len | Memcat src len => in_bytes src (Z.max 0 len)
  | Printf out => Some (take 1023 out)
  | Trim | Truncate _ | Reset => Some []
  end.

(** What an operation does to the contents [l] when it transfers [x]. *)
Definition spec_op (o : buf_op) (l x : list Z) : list Z :=
  match o with
  | Put _ | Strncat _ _ | Strcat _ | Memcat _ _ | Printf _ => l ++ x
  | Strncpy _ _ | Strcpy _ | Memcpy _ _ => x
  | Trim => trim_rn l
  | Truncate n => truncated n l
  | Reset => []
  end.

(** The contents after a sequence of operations, [None] when one of them is
    out of contract: an argument read out of bounds, one of 2^31 bytes or
    more, or contents of a growing buffer that leave its bounds. *)
Fixpoint spec_ops (cap : option Z) (os : list buf_op) (l : list Z) : option (list Z) :=
  match os with
  | [] => Some l
  | o :: os' =>
      x ← op_bytes o;
      if bool_decide (bytes_ok x) && (zlen x <? int_max) &&
         match cap with Some _ => true | None => zlen l + zlen x + 1 <? 2 ^ 29 end
      then spec_ops cap os' (clip cap (spec_op o l x)) else None
  end.

Lemma in_bytes_pos src n x : in_bytes src (Z.max 0 n) = Some x ->
  zlen x = Z.max 0 n /\ (0 <= n -> in_bytes src n = Some x).
Proof.
  unfold in_bytes. destruct (Z.ltb_spec (Z.max 0 n) 0); [lia|].
  destruct (Z.leb_spec (Z.max 0 n) (zlen src)); [|done]. intros [= <-]. split.
  - rewrite zlen_take; lia.
  - intros. rewrite Z.max_r in * by lia.
    destruct (Z.ltb_spec n 0), (Z.leb_spec n (zlen src)); (done || lia).
Qed.

Lemma zbuf_memcat_op cap b l src n x :
  rep cap b l -> in_bytes src (Z.max 0 n) = Some x -> bytes_ok x -> zlen x < int_max ->
  room cap (zlen l + zlen x + 1) ->
  runs (zbuf_memcat b src n) (holds cap (clip cap (l ++ x))).
Proof.
  intros H (Hx & Hin)%in_bytes_pos Hb Hm Hr. destruct (Z.le_gt_cases 0 n).
  - replace n with (zlen x) by lia. apply zbuf_memcat_holds; try done.
    + zlen_facts. lia.
    + replace (zlen x) with n by lia. by apply Hin.
  - assert (x = []) as -> by (apply zlen_inv_nil; lia). unfold zbuf_memcat.
    destruct (Z.ltb_spec 0 n); [lia|]. simpl. rewrite app_nil_r, (clip_fit _ _ _ H).
    by apply terminate_holds.
Qed.

Lemma clip_holds cap b l : holds cap l b -> clip cap l = l.
Proof. intros [H _]. by eapply clip_fit. Qed.

Lemma run_op_holds cap b l o x :
  holds cap l b -> op_bytes o = Some x -> bytes_ok x -> zlen x < int_max ->
  room cap (zlen l + zlen x + 1) ->
  runs (run_op o b) (holds cap (clip cap (spec_op o l x))).
Proof.
  intros [H Ht] Hx Hb Hm Hr.
  assert (Hclip : forall r l', runs r (holds cap l') -> runs r (holds cap (clip cap l'))).
  { intros r l' Hrun. eapply runs_mono; [exact Hrun|]. intros b' Hb'.
    by rewrite (clip_holds _ _ _ Hb'). }
  assert (Hr0 : room cap (zlen x + 1)) by (destruct cap; simpl in *; [done|zlia]).
  destruct o; simpl in *.
  - simplify_eq. eapply runs_bind; [apply ZBUF_PUT_runs; [done|]|].
    + destruct cap; simpl in *; [done|zlia].
    + intros ?. apply terminate_holds.
  - unfold zbuf_strncpy. eapply runs_bind; [by eapply zbuf_reset_rep|].
    intros b' H'. by apply (zbuf_strncat_holds cap b' []).
  - by eapply zbuf_strcpy_holds.
  - by apply zbuf_strncat_holds.
  - by apply zbuf_strcat_holds.
  - unfold zbuf_memcpy. eapply runs_bind; [by eapply zbuf_reset_rep|].
    intros b' H'. by apply (zbuf_memcat_op cap b' []).
  - by apply zbuf_memcat_op.
  - simplify_eq. by apply zbuf_printf_holds.
  - by eapply Hclip, zbuf_trim_right_rn_holds.
  - by apply Hclip, zbuf_truncate_holds.
  - by eapply Hclip, zbuf_reset_holds.
Qed.

Lemma run_ops_holds cap os : forall b l l',
  holds cap l b -> spec_ops cap os l = Some l' -> runs (run_ops os b) (holds cap l').
Proof.
  induction os as [|o os IH]; intros b l l' H Hs; simpl in *.
  { simplify_eq. by apply runs_ret. }
  destruct (op_bytes o) as [x|] eqn:Hx; [|done]. simpl in Hs.
  destruct (bool_decide_reflect (bytes_ok x)); [|done].
  destruct (Z.ltb_spec (zlen x) int_max); [|done]. simpl in Hs.
  assert (room cap (zlen l + zlen x + 1)).
  { destruct cap; simpl; [done|]. destruct (Z.ltb_spec (zlen l + zlen x + 1) (2 ^ 29)); done. }
  eapply runs_bind; [by eapply run_op_holds|]. intros b' Hb'. eapply IH; [exact Hb'|].
  destruct cap; [done|]. by destruct (_ <? 2 ^ 29).
Qed.


Definition demo_ops : list buf_op :=
  [Strcpy (Some (str "mail" ++ [0])); Strncat (str "box/inbox") 3; Put 10; Trim;
   Memcat (str "::") 2; Truncate 8].


(** A growing buffer that is full at half a gigabyte or more cannot take
    one more byte: doubling overflows the signed 31-bit [size], [zrealloc]
    is then asked for a negative size, and [ZBUF_PUT] and [zbuf_put_do] call
    each other until the stack is exhausted, whatever the fuel. *)
Theorem ZBUF_PUT_overflow (b : zbuf) (c : Z) (fuel : nat) :
  bf_static b = false -> bf_len b = bf_size b -> 2 ^ 29 <= bf_size b < 2 ^ 30 ->
  ZBUF_PUT_rec fuel b c = None.
Proof.
  intros Hst Hlen Hs.
  assert (Hstuck : forall fuel b', bf_static b' = false -> bf_size b' < bf_len b' ->
    ZBUF_PUT_rec fuel b' c = None).
  { induction fuel0 as [|f IH]; intros b' Hst' Hl; [done|]. simpl.
    destruct (Z.ltb_spec (bf_len b') (bf_size b')); [lia|]. rewrite Hst'.
    destruct (Z.eqb_spec (bf_len b') (bf_size b')); [lia|]. simpl. by apply IH. }
  destruct fuel as [|fuel]; [done|]. simpl. rewrite Hlen, Hst.
  destruct (Z.ltb_spec (bf_size b) (bf_size b)); [lia|]. rewrite Z.eqb_refl.
  unfold zbuf_need_space. rewrite Hst, Hlen, Z.sub_diag.
  change (1 - 0) with 1. rewrite as_int_Some by lia. simpl.
  destruct (Z.ltb_spec 1 (bf_size b)); [|lia].
  rewrite as_int_Some by lia. simpl. rewrite as_int_Some by lia. simpl.
  apply Hstuck; simpl; [done|]. unfold swrap.
  change (31 - 1) with 30. zdiv.
Qed.

Lemma ZBUF_PUT_overflow_witness :
  ZBUF_PUT_rec 9 (mk_zbuf [] (2 ^ 29) false (2 ^ 29)) 65 = None.
Proof. apply ZBUF_PUT_overflow; simpl; [reflexivity|reflexivity|lia]. Defined.

(** ** Writers

    A writer appends bytes to a buffer: the encoders, decoders and serializers
    of the library are all of this form, and compose. *)
Definition appends (f : zbuf -> option zbuf) (x : list Z) : Prop :=
  forall cap b l, holds cap l b -> room cap (zlen l + zlen x + 1) ->
  runs (f b) (holds cap (clip cap (l ++ x))).

Lemma read_cells (x : list Z) (r : list cell) : mapM id (take (length x) ((Some <$> x) ++ r)) = Some x.
Proof.
  rewrite take_app_length' by (by rewrite length_fmap).
  apply mapM_Some, Forall2_fmap_r, Forall_Forall2_diag, Forall_true. done.
Qed.

Lemma rep_zbuf_bytes cap b l : rep cap b l -> zbuf_bytes b = Some l.
Proof.
  intros H. unfold zbuf_bytes. rewrite (rep_len _ _ _ H).
  destruct (rep_data _ _ _ H) as [rest ->]. unfold zlen. rewrite Nat2Z.id.
  apply read_cells.
Qed.
Lemma holds_bytes cap b l : holds cap l b -> zbuf_bytes b = Some l.
Proof. intros [H _]. by eapply rep_zbuf_bytes. Qed.

Lemma appends_ret : appends (fun b => Some b) [].
Proof. intros cap b l H _. apply runs_ret. by rewrite app_nil_r, (clip_holds _ _ _ H). Qed.

Lemma appends_bind f g x y : appends f x -> appends g y ->
  appends (fun b => b' ← f b; g b') (x ++ y).
Proof.
  intros Hf Hg cap b l H Hr. eapply runs_bind.
  { apply Hf; [done|]. destruct cap; simpl in *; [done|zlia]. }
  intros b' H'. rewrite app_assoc, <- clip_app. apply Hg; [done|].
  rewrite <- Z.add_assoc. eapply room_clip; [|exact Hr]. zlia.
Qed.

Lemma appends_ext f g x : (forall b, f b = g b) -> appends g x -> appends f x.
Proof. intros E H cap b l ??. rewrite E. by apply H. Qed.

Lemma appends_eq f x y : appends f x -> x = y -> appends f y.
Proof. by intros ? <-. Qed.

Lemma appends_put c x : x = [u8 c] -> appends (fun b => zbuf_put b c) x.
Proof.
  intros -> cap b l [H _] Hr. unfold zbuf_put. eapply runs_bind.
  { apply ZBUF_PUT_runs; [done|]. destruct cap; simpl in *; [done|zlia]. }
  intros b'. apply terminate_holds.
Qed.

Lemma appends_terminate : appends zbuf_terminate [].
Proof.
  intros cap b l [H _] _. rewrite app_nil_r, (clip_fit _ _ _ H). by apply terminate_holds.
Qed.

Lemma appends_terminate_end f x : appends f x -> appends (fun b => b' ← f b; zbuf_terminate b') x.
Proof.
  intros H. rewrite <- (app_nil_r x). by apply appends_bind, appends_terminate.
Qed.

Lemma appends_memcat src n x : in_bytes src n = Some x -> zlen x = n -> bytes_ok x ->
  n < int_max -> appends (fun b => zbuf_memcat b src n) x.
Proof.
  intros Hi Hn Hb Hm cap b l [H _] Hr. zlen_facts. apply zbuf_memcat_holds; try (done || lia).
  by rewrite Hn in Hr.
Qed.

Lemma appends_bytes x : bytes_ok x -> zlen x < int_max ->
  appends (fun b => zbuf_memcat b x (zlen x)) x.
Proof. intros. apply appends_memcat; try done. apply in_bytes_full. Qed.

Lemma appends_append cap2 b2 x : holds cap2 x b2 -> zlen x < int_max ->
  appends (fun b => zbuf_append b b2) x.
Proof.
  intros H Hx. eapply appends_ext; [|apply (appends_bytes x); [apply H|done]].
  intros b. unfold zbuf_append. rewrite (holds_bytes _ _ _ H). simpl.
  by rewrite (rep_len _ _ _ (proj1 H)).
Qed.

Lemma appends_puts x : bytes_ok x -> Forall (.≠ 0) x -> zlen x < int_max ->
  appends (fun b => zbuf_puts b x) x.
Proof.
  intros Hb Hz Hm cap b l [H _] Hr. apply zbuf_strcat_holds; try done. by apply cstr_app.
Qed.

Lemma appends_put_then c g y : byte_ok c -> appends g y ->
  appends (fun b => zbuf_put b c ≫= g) (c :: y).
Proof.
  intros Hc Hg. apply (appends_bind (fun b => zbuf_put b c) g [c]); [|done].
  apply appends_put. by rewrite u8_id.
Qed.

(** A writer that also returns a value. *)
Definition writes {A} (f : zbuf -> option (zbuf * A)) (x : list Z) (a : A) : Prop :=
  forall cap b l, holds cap l b -> room cap (zlen l + zlen x + 1) ->
  runs (f b) (fun r => holds cap (clip cap (l ++ x)) r.1 /\ r.2 = a).

Section writes.
Context {A : Type}.
Implicit Types (a : A).

Lemma writes_ret a : writes (fun b => Some (b, a)) [] a.
Proof. intros cap b l H Hr. apply runs_ret. by rewrite app_nil_r, (clip_holds _ _ _ H). Qed.

Lemma writes_bind {B} (f : zbuf -> option (zbuf * B)) (g : zbuf * B -> option (zbuf * A)) x y a c :
  writes f x c -> writes (fun b => g (b, c)) y a -> writes (fun b => f b ≫= g) (x ++ y) a.
Proof.
  intros Hf Hg cap b l H Hr. eapply runs_bind.
  { apply Hf; [done|]. destruct cap; simpl in *; [done|zlia]. }
  intros [b' ?] [H' [= ->]]. rewrite app_assoc, <- clip_app. apply Hg; [done|].
  rewrite <- Z.add_assoc. eapply room_clip; [|exact Hr]. zlia.
Qed.

Lemma appends_writes f g x y a : appends f x -> writes g y a ->
  writes (fun b => f b ≫= g) (x ++ y) a.
Proof.
  intros Hf Hg cap b l H Hr. eapply runs_bind.
  { apply Hf; [done|]. destruct cap; simpl in *; [done|zlia]. }
  intros b' H'. rewrite app_assoc, <- clip_app. apply Hg; [done|].
  rewrite <- Z.add_assoc. eapply room_clip; [|exact Hr]. zlia.
Qed.

Lemma appends_writes_ret f x a : appends f x -> writes (fun b => b' ← f b; Some (b', a)) x a.
Proof.
  intros Hf. rewrite <- (app_nil_r x). by apply appends_writes, writes_ret.
Qed.

Lemma writes_put_then c g y a : byte_ok c -> writes g y a ->
  writes (fun b => zbuf_put b c ≫= g) (c :: y) a.
Proof.
  intros Hc Hg. apply (appends_writes (fun b => zbuf_put b c) g [c]); [|done].
  apply appends_put. by rewrite u8_id.
Qed.

Lemma writes_appends (f : zbuf -> option (zbuf * A)) g x y a :
  writes f x a -> appends (fun b => g (b, a)) y -> appends (fun b => f b ≫= g) (x ++ y).
Proof.
  intros Hf Hg cap b l H Hr. eapply runs_bind.
  { apply Hf; [done|]. destruct cap; simpl in *; [done|zlia]. }
  intros [b' ?] [H' [= ->]]. rewrite app_assoc, <- clip_app. apply Hg; [done|].
  rewrite <- Z.add_assoc. eapply room_clip; [|exact Hr]. zlia.
Qed.

Lemma writes_fst (f : zbuf -> option (zbuf * A)) x a :
  writes f x a -> appends (fun b => fst <$> f b) x.
Proof.
  intros Hf cap b l H Hr. destruct (Hf cap b l H Hr) as ([b' ?] & E & H' & _).
  exists b'. by rewrite E.
Qed.
End writes.

(** Running a writer on a fresh growing buffer. *)
Lemma appends_create f x size : appends f x -> size < 2 ^ 29 -> zlen x + 1 < 2 ^ 29 ->
  runs (b ← zbuf_create size; f b) (holds None x).
Proof.
  intros Hf Hs Hx. eapply runs_bind; [by apply zbuf_create_holds|].
  intros b Hb. by apply (Hf None b []).
Qed.

(** A round trip: an encoder writes to a fresh buffer, a decoder reads that
    buffer's bytes and writes to a second one. *)
Definition through (size : Z) (enc : zbuf -> option zbuf)
    (dec : list Z -> Z -> zbuf -> option zbuf) : option (list Z * zbuf) :=
  e ← zbuf_create size; e ← enc e;
  t ← zbuf_bytes e;
  d ← zbuf_create size; d ← dec t (bf_len e) d;
  Some (t, d).

Lemma through_runs size enc dec y x :
  size < 2 ^ 29 -> zlen y + 1 < 2 ^ 29 -> zlen x + 1 < 2 ^ 29 ->
  appends enc y -> appends (dec y (zlen y)) x ->
  runs (through size enc dec) (fun '(t, d) => t = y /\ holds None x d).
Proof.
  intros Hs Hy Hx He Hd. unfold through.
  destruct (zbuf_create_holds size Hs) as (b & -> & Hb). simpl.
  destruct (He None b [] Hb Hy) as (e & -> & Hy'). simpl in *.
  rewrite (holds_bytes _ _ _ Hy'), (rep_len _ _ _ (proj1 Hy')). simpl.
  destruct (Hd None b [] Hb Hx) as (d & -> & Hx'). by apply runs_ret.
Qed.

#[export] Hint Resolve appends_ret appends_put appends_terminate appends_terminate_end
  appends_put_then writes_ret writes_put_then : zc.
