(* ===== verification/Base64.v ===== *)
(** * Base64: src/encode/base64.c

    The encoder and the decoder append to a [zbuf]. An input is the pointer
    and length of the C call, resolved by [in_bytes]; the loops walk the bytes
    that remain between [src_pos] and [src_size]. *)
From S2P Require Import Prelude Chars Buf.

Definition b64enc : list Z :=
  str "ABCDEFGHIJKLMNOPQRSTUVWXYZabcdefghijklmnopqrstuvwxyz0123456789+/".

Definition zvar_base64_decode_table : list Z := [
    255; 255; 255; 255; 255; 255; 255; 255; 255; 255; 255; 255; 255; 255; 255; 255;
    255; 255; 255; 255; 255; 255; 255; 255; 255; 255; 255; 255; 255; 255; 255; 255;
    255; 255; 255; 255; 255; 255; 255; 255; 255; 255; 255; 62; 255; 255; 255; 63;
    52; 53; 54; 55; 56; 57; 58; 59; 60; 61; 255; 255; 255; 255; 255; 255;
    255; 0; 1; 2; 3; 4; 5; 6; 7; 8; 9; 10; 11; 12; 13; 14;
    15; 16; 17; 18; 19; 20; 21; 22; 23; 24; 25; 255; 255; 255; 255; 255;
    255; 26; 27; 28; 29; 30; 31; 32; 33; 34; 35; 36; 37; 38; 39; 40;
    41; 42; 43; 44; 45; 46; 47; 48; 49; 50; 51; 255; 255; 255; 255; 255;
    255; 255; 255; 255; 255; 255; 255; 255; 255; 255; 255; 255; 255; 255; 255; 255;
    255; 255; 255; 255; 255; 255; 255; 255; 255; 255; 255; 255; 255; 255; 255; 255;
    255; 255; 255; 255; 255; 255; 255; 255; 255; 255; 255; 255; 255; 255; 255; 255;
    255; 255; 255; 255; 255; 255; 255; 255; 255; 255; 255; 255; 255; 255; 255; 255;
    255; 255; 255; 255; 255; 255; 255; 255; 255; 255; 255; 255; 255; 255; 255; 255;
    255; 255; 255; 255; 255; 255; 255; 255; 255; 255; 255; 255; 255; 255; 255; 255;
    255; 255; 255; 255; 255; 255; 255; 255; 255; 255; 255; 255; 255; 255; 255; 255;
    255; 255; 255; 255; 255; 255; 255; 255; 255; 255; 255; 255; 255; 255; 255; 255].

(** ** Encoder *)

(** The tail of the loop body: four [zbuf_put] and the line break. *)
Definition put_quad (mime_flag : bool) (t0 t1 t2 t3 : Z) (mime_count : Z) (b : zbuf)
    : option (zbuf * Z) :=
  b ← zbuf_put b t0; b ← zbuf_put b t1; b ← zbuf_put b t2; b ← zbuf_put b t3;
  if mime_flag then
    let mime_count := mime_count + 1 in
    if mime_count =? 19 then
      b ← zbuf_put b (chr "013"); b ← zbuf_put b (chr "010"); Some (b, 0)
    else Some (b, mime_count)
  else Some (b, mime_count).

Fixpoint encode_loop (mime_flag : bool) (src : list Z) (mime_count : Z) (b : zbuf) : option zbuf :=
  match src with
  | [] => Some b
  | [c0] =>
      fst <$> put_quad mime_flag (tab b64enc (Z.shiftr c0 2))
        (tab b64enc (Z.shiftl (Z.land c0 3) 4)) (chr "=") (chr "=") mime_count b
  | [c0; c1] =>
      fst <$> put_quad mime_flag (tab b64enc (Z.shiftr c0 2))
        (tab b64enc (Z.lor (Z.shiftl (Z.land c0 3) 4) (Z.shiftr c1 4)))
        (tab b64enc (Z.shiftl (Z.land c1 15) 2)) (chr "=") mime_count b
  | c0 :: c1 :: c2 :: rest =>
      '(b, mime_count) ← put_quad mime_flag (tab b64enc (Z.shiftr c0 2))
        (tab b64enc (Z.lor (Z.shiftl (Z.land c0 3) 4) (Z.shiftr c1 4)))
        (tab b64enc (Z.lor (Z.shiftl (Z.land c1 15) 2) (Z.shiftr (Z.land c2 192) 6)))
        (tab b64enc (Z.land c2 63)) mime_count b;
      encode_loop mime_flag rest mime_count b
  end.

Definition zbase64_encode (src : list Z) (src_size : Z) (b : zbuf) (mime_flag : bool) : option zbuf :=
  l ← in_bytes src src_size;
  b ← encode_loop mime_flag l 0 b;
  zbuf_terminate b.

(** ** Decoder *)

(** [___get_next_ch]: the next character that is not white space, or part of
    a percent escape, and the input after it. *)
Fixpoint get_next_ch (src : list Z) : option (Z * list Z) :=
  match src with
  | [] => None
  | c :: rest =>
      if (c =? chr " ") || (c =? chr "013") || (c =? chr "010") then get_next_ch rest
      else if c =? chr "%" then
        match rest with _ :: _ :: rest' => get_next_ch rest' | _ => None end
      else Some (c, rest)
  end.
(** The same with [br] set: the end of the input reads as a pad. *)
Definition get_next_ch_br (src : list Z) : Z * list Z :=
  default (chr "=", []) (get_next_ch src).

(** One iteration of the decoding loop leaves it with [goto over] or [break]
    ([ret = -1]), or continues, after a full group or after a padded one
    ([ret = 1], [goto retry]). *)
Inductive next_step := Stop | Continue.

Definition decode_group (c0 c1 c2 c3 : Z) (b : zbuf) : option (zbuf * next_step) :=
  let i0 := tab zvar_base64_decode_table c0 in
  if i0 =? 255 then Some (b, Stop) else
  let i1 := tab zvar_base64_decode_table c1 in
  if i1 =? 255 then Some (b, Stop) else
  let o0 := u8 (Z.lor (Z.shiftl i0 2) (Z.shiftr i1 4)) in
  let i2 := tab zvar_base64_decode_table c2 in
  if i2 =? 255 then
    if negb (c2 =? chr "=") || negb (c3 =? chr "=") then Some (b, Stop)
    else b ← zbuf_put b o0; Some (b, Continue)
  else
  let o1 := u8 (Z.lor (Z.shiftl i1 4) (Z.shiftr i2 2)) in
  let i3 := tab zvar_base64_decode_table c3 in
  if i3 =? 255 then
    if negb (c3 =? chr "=") then Some (b, Stop)
    else b ← zbuf_put b o0; b ← zbuf_put b o1; Some (b, Continue)
  else
  let o2 := u8 (Z.lor (Z.land (Z.shiftl i2 6) 192) i3) in
  b ← zbuf_put b o0; b ← zbuf_put b o1; b ← zbuf_put b o2; Some (b, Continue).

Fixpoint decode_loop (fuel : nat) (src : list Z) (b : zbuf) : option zbuf :=
  match fuel with
  | O => None
  | S fuel' =>
      match get_next_ch src with
      | None => Some b
      | Some (c0, src) =>
          match get_next_ch src with
          | None => Some b
          | Some (c1, src) =>
              let '(c2, src) := get_next_ch_br src in
              let '(c3, src) := get_next_ch_br src in
              '(b, st) ← decode_group c0 c1 c2 c3 b;
              match st with Stop => Some b | Continue => decode_loop fuel' src b end
          end
      end
  end.

Definition zbase64_decode (src : list Z) (src_size : Z) (b : zbuf) : option zbuf :=
  l ← in_bytes src src_size;
  b ← decode_loop (S (length l)) l b;
  zbuf_terminate b.

(** ** Lengths *)
Fixpoint valid_len (src : list Z) (i : Z) : Z :=
  match src with
  | [] => i
  | ch :: rest =>
      if (ch =? chr "013") || (ch =? chr "010") || (ch =? chr "=") then valid_len rest (i + 1)
      else if tab zvar_base64_decode_table ch =? 255 then i
      else valid_len rest (i + 1)
  end.
Definition zbase64_decode_get_valid_len (src : list Z) (src_size : Z) : option Z :=
  l ← in_bytes src src_size; Some (valid_len l 0).

Definition zbase64_encode_get_min_len (in_len : Z) (mime_flag : bool) : option Z :=
  m ← as_int (in_len * 4);
  r ← as_int (Z.quot m 3 + 4);
  r ← (if mime_flag then as_int (r + ((Z.quot in_len (Z.quot (76 * 3) 4) + 1) * 2 + 2)) else Some r);
  as_int (r + 1).

(** ** Specification (RFC 4648) *)

(** The digit of weight [64 ^ k] of a 24-bit group. *)
Definition b64_digit (v k : Z) : Z := nth (Z.to_nat (v / 64 ^ k mod 64)) b64enc 0.
Definition group24 (a b c : Z) : Z := a * 65536 + b * 256 + c.

Fixpoint b64_quads (l : list Z) : list (list Z) :=
  match l with
  | [] => []
  | [a] => let v := group24 a 0 0 in [[b64_digit v 3; b64_digit v 2; chr "="; chr "="]]
  | [a; b] =>
      let v := group24 a b 0 in [[b64_digit v 3; b64_digit v 2; b64_digit v 1; chr "="]]
  | a :: b :: c :: l' =>
      let v := group24 a b c in
      [b64_digit v 3; b64_digit v 2; b64_digit v 1; b64_digit v 0] :: b64_quads l'
  end.
Definition b64 (l : list Z) : list Z := concat (b64_quads l).

(** A line break after every 19 groups (76 characters), [k] groups being on
    the current line. *)
Fixpoint mime_lines (k : Z) (qs : list (list Z)) : list Z :=
  match qs with
  | [] => []
  | q :: qs' =>
      q ++ (if k + 1 =? 19 then [13; 10] ++ mime_lines 0 qs' else mime_lines (k + 1) qs')
  end.
Definition b64_text (mime_flag : bool) (l : list Z) : list Z :=
  if mime_flag then mime_lines 0 (b64_quads l) else b64 l.

(** The characters the decoder looks at. *)
Fixpoint b64_clean (t : list Z) : list Z :=
  match t with
  | [] => []
  | c :: t' =>
      if (c =? chr " ") || (c =? chr "013") || (c =? chr "010") then b64_clean t'
      else if c =? chr "%" then match t' with _ :: _ :: t'' => b64_clean t'' | _ => [] end
      else c :: b64_clean t'
  end.

(** The value of a character of the alphabet. *)
Definition b64_value (c : Z) : option Z :=
  let v := tab zvar_base64_decode_table c in if v =? 255 then None else Some v.

(** One group of four characters: the bytes it stands for, and whether the
    text goes on after it. *)
Definition b64_group (c0 c1 c2 c3 : Z) : list Z * bool :=
  match b64_value c0, b64_value c1 with
  | Some v0, Some v1 =>
      match b64_value c2, b64_value c3 with
      | Some v2, Some v3 =>
          let n := v0 * 64 ^ 3 + v1 * 64 ^ 2 + v2 * 64 + v3 in
          ([n / 65536; n / 256 mod 256; n mod 256], true)
      | Some v2, None =>
          if c3 =? chr "=" then ([v0 * 4 + v1 / 16; v1 mod 16 * 16 + v2 / 4], true)
          else ([], false)
      | None, _ =>
          if (c2 =? chr "=") && (c3 =? chr "=") then ([v0 * 4 + v1 / 16], true)
          else ([], false)
      end
  | _, _ => ([], false)
  end.

Fixpoint b64_dec (t : list Z) : list Z :=
  match t with
  | c0 :: c1 :: c2 :: c3 :: t' =>
      let g := b64_group c0 c1 c2 c3 in g.1 ++ (if g.2 then b64_dec t' else [])
  | [c0; c1; c2] => (b64_group c0 c1 c2 (chr "=")).1
  | [c0; c1] => (b64_group c0 c1 (chr "=") (chr "=")).1
  | _ => []
  end.

(** ** The encoder implements the specification *)
Lemma tab_small t i : 0 <= i < 256 -> tab t i = nth (Z.to_nat i) t 0.
Proof. intros. unfold tab. by rewrite u8_id. Qed.

Lemma land_192 x : byte_ok x -> Z.shiftr (Z.land x 192) 6 = x / 64.
Proof.
  intros Hx. apply Z.eqb_eq. revert x Hx.
  by apply (byte_forall (fun x => Z.shiftr (Z.land x 192) 6 =? x / 64)).
Qed.

Ltac digit := unfold b64_digit, group24; rewrite tab_small; [f_equal; f_equal|].

Lemma enc_digit3 a b c : byte_ok a -> byte_ok b -> byte_ok c ->
  tab b64enc (Z.shiftr a 2) = b64_digit (group24 a b c) 3.
Proof. unfold byte_ok. intros. digit; rewrite shiftr_div by lia; zdiv. Qed.
Lemma enc_digit2 a b c : byte_ok a -> byte_ok b -> byte_ok c ->
  tab b64enc (Z.lor (Z.shiftl (Z.land a 3) 4) (Z.shiftr b 4)) = b64_digit (group24 a b c) 2.
Proof.
  unfold byte_ok. intros. rewrite shiftr_div by lia.
  rewrite lor_shiftl_add, land_3 by zdiv. digit; zdiv.
Qed.
Lemma enc_digit1 a b c : byte_ok a -> byte_ok b -> byte_ok c ->
  tab b64enc (Z.lor (Z.shiftl (Z.land b 15) 2) (Z.shiftr (Z.land c 192) 6)) =
  b64_digit (group24 a b c) 1.
Proof.
  intros Ha Hb Hc. rewrite land_192 by done. unfold byte_ok in *.
  rewrite lor_shiftl_add, land_15 by zdiv. digit; zdiv.
Qed.
Lemma enc_digit0 a b c : byte_ok a -> byte_ok b -> byte_ok c ->
  tab b64enc (Z.land c 63) = b64_digit (group24 a b c) 0.
Proof. unfold byte_ok. intros. rewrite land_63. digit; zdiv. Qed.

Lemma b64_digit_in v k : b64_digit v k ∈ b64enc.
Proof.
  unfold b64_digit. apply list_elem_of_In, nth_In.
  change (length b64enc) with 64%nat. zdiv.
Qed.
Lemma b64_digit_byte v k : byte_ok (b64_digit v k).
Proof.
  pose proof (b64_digit_in v k) as H. revert H.
  apply (proj1 (Forall_forall byte_ok b64enc)). by vm_compute; repeat constructor.
Qed.

(** One iteration of the loop: a group, and the line break after the 19th. *)
Definition quad_text (mime_flag : bool) (q : list Z) (k : Z) : list Z :=
  q ++ (if mime_flag && (k + 1 =? 19) then [13; 10] else []).
Definition next_count (mime_flag : bool) (k : Z) : Z :=
  if mime_flag then if k + 1 =? 19 then 0 else k + 1 else k.

Lemma put_quad_writes mime t0 t1 t2 t3 k :
  byte_ok t0 -> byte_ok t1 -> byte_ok t2 -> byte_ok t3 ->
  writes (put_quad mime t0 t1 t2 t3 k) (quad_text mime [t0; t1; t2; t3] k) (next_count mime k).
Proof.
  intros. unfold put_quad, quad_text, next_count.
  destruct mime; [destruct (k + 1 =? 19)|]; simpl;
    repeat (apply writes_put_then; [done|]); apply writes_ret.
Qed.

Fixpoint quads_text (mime_flag : bool) (k : Z) (qs : list (list Z)) : list Z :=
  match qs with
  | [] => []
  | q :: qs' => quad_text mime_flag q k ++ quads_text mime_flag (next_count mime_flag k) qs'
  end.

Lemma quads_text_eq mime l : quads_text mime 0 (b64_quads l) = b64_text mime l.
Proof.
  unfold b64_text, b64. generalize (b64_quads l) as qs, 0 as k.
  induction qs as [|q qs IH]; intros k; simpl; [by destruct mime|].
  unfold quad_text, next_count. rewrite IH. destruct mime; simpl.
  - destruct (k + 1 =? 19); simpl; rewrite <- app_assoc; [done|]. by rewrite ?app_nil_l.
  - by rewrite app_nil_r.
Qed.

Lemma byte_0 : byte_ok 0.
Proof. unfold byte_ok. lia. Qed.
Lemma byte_pad : byte_ok (chr "=").
Proof. unfold byte_ok. lia. Qed.
#[local] Hint Resolve byte_0 byte_pad b64_digit_byte put_quad_writes : zc.

Lemma encode_loop_appends mime l : forall k, bytes_ok l ->
  appends (encode_loop mime l k) (quads_text mime k (b64_quads l)).
Proof.
  induction l as [|a|a b|a b c l IH] using list_ind3; intros k Hl;
    cbn [encode_loop b64_quads quads_text];
    repeat (apply Forall_cons in Hl as [? Hl]).
  - apply appends_ret.
  - rewrite app_nil_r. eapply writes_fst.
    pose proof (enc_digit2 a 0 0) as E. rewrite Z.shiftr_0_l, Z.lor_0_r in E.
    rewrite (enc_digit3 a 0 0), E by auto with zc. auto with zc.
  - rewrite app_nil_r. eapply writes_fst.
    pose proof (enc_digit1 a b 0) as E. rewrite Z.land_0_l, Z.shiftr_0_l, Z.lor_0_r in E.
    rewrite (enc_digit3 a b 0), (enc_digit2 a b 0), E by auto with zc. auto with zc.
  - rewrite (enc_digit3 a b c), (enc_digit2 a b c), (enc_digit1 a b c), (enc_digit0 a b c) by done.
    eapply writes_appends; [auto with zc|]. simpl. by apply IH.
Qed.

Lemma zbase64_encode_appends m n l mime : in_bytes m n = Some l -> bytes_ok l ->
  appends (fun b => zbase64_encode m n b mime) (b64_text mime l).
Proof.
  intros Hl Hb. unfold zbase64_encode. rewrite Hl. simpl.
  apply appends_terminate_end. rewrite <- quads_text_eq. by apply encode_loop_appends.
Qed.

(** ** The decoder implements the specification *)
Definition b64_val (c : Z) : Z := tab zvar_base64_decode_table c.

Lemma b64_val_range c : b64_val c = 255 \/ 0 <= b64_val c < 64.
Proof.
  pose proof (tab_forall zvar_base64_decode_table
    (fun v => (v =? 255) || ((0 <=? v) && (v <? 64))) eq_refl c) as H.
  fold (b64_val c) in H. destruct (Z.eqb_spec (b64_val c) 255); [by left|].
  right. simpl in H. lia.
Qed.

Lemma b64_value_Some c v : b64_value c = Some v ->
  tab zvar_base64_decode_table c = v /\ v <> 255 /\ 0 <= v < 64.
Proof.
  unfold b64_value. pose proof (b64_val_range c) as H. unfold b64_val in H.
  destruct (Z.eqb_spec (tab zvar_base64_decode_table c) 255); [done|]. intros [= <-]. lia.
Qed.
Lemma b64_value_None c : b64_value c = None -> tab zvar_base64_decode_table c = 255.
Proof.
  unfold b64_value. destruct (Z.eqb_spec (tab zvar_base64_decode_table c) 255); done.
Qed.

Lemma dec_byte0 v0 v1 : 0 <= v0 < 64 -> 0 <= v1 < 64 ->
  u8 (Z.lor (Z.shiftl v0 2) (Z.shiftr v1 4)) = v0 * 4 + v1 / 16.
Proof.
  intros. rewrite shiftr_div, lor_shiftl_add by zdiv. apply u8_id. unfold byte_ok. zdiv.
Qed.
Lemma dec_byte1 v1 v2 : 0 <= v1 < 64 -> 0 <= v2 < 64 ->
  u8 (Z.lor (Z.shiftl v1 4) (Z.shiftr v2 2)) = v1 mod 16 * 16 + v2 / 4.
Proof.
  intros. rewrite shiftr_div, lor_shiftl_add by zdiv. unfold uwrap. zdiv.
Qed.
Lemma dec_byte2 v2 v3 : 0 <= v2 < 64 -> 0 <= v3 < 64 ->
  u8 (Z.lor (Z.land (Z.shiftl v2 6) 192) v3) = v2 mod 4 * 64 + v3.
Proof.
  intros. replace (Z.land (Z.shiftl v2 6) 192) with (v2 mod 4 * 2 ^ 6).
  - rewrite lor_mul_add by lia. apply u8_id. unfold byte_ok. zdiv.
  - apply Z.eqb_eq. assert (Hv : byte_ok v2) by (unfold byte_ok; lia). clear H. revert v2 Hv.
    apply (byte_forall (fun v2 => v2 mod 4 * 2 ^ 6 =? Z.land (Z.shiftl v2 6) 192)).
    by vm_compute.
Qed.

Lemma decode_group_writes c0 c1 c2 c3 :
  writes (decode_group c0 c1 c2 c3) (b64_group c0 c1 c2 c3).1
    (if (b64_group c0 c1 c2 c3).2 then Continue else Stop).
Proof.
  unfold decode_group, b64_group.
  destruct (b64_value c0) as [v0|] eqn:E0;
    [apply b64_value_Some in E0 as (-> & ?%Z.eqb_neq & R0)|apply b64_value_None in E0 as ->];
    [|apply writes_ret].
  destruct (b64_value c1) as [v1|] eqn:E1;
    [apply b64_value_Some in E1 as (-> & ?%Z.eqb_neq & R1)|apply b64_value_None in E1 as ->];
    [|rewrite H; apply writes_ret].
  rewrite H, H0, dec_byte0 by done.
  assert (B0 : byte_ok (v0 * 4 + v1 / 16)) by (unfold byte_ok; zdiv).
  destruct (b64_value c2) as [v2|] eqn:E2;
    [apply b64_value_Some in E2 as (-> & ?%Z.eqb_neq & R2)|apply b64_value_None in E2 as ->].
  2: { simpl. destruct (c2 =? 61), (c3 =? 61); simpl;
         first [apply writes_ret|apply writes_put_then, writes_ret; done]. }
  rewrite H1, dec_byte1 by done.
  assert (B1 : byte_ok (v1 mod 16 * 16 + v2 / 4)) by (unfold byte_ok; zdiv).
  destruct (b64_value c3) as [v3|] eqn:E3;
    [apply b64_value_Some in E3 as (-> & ?%Z.eqb_neq & R3)|apply b64_value_None in E3 as ->].
  2: { simpl. destruct (c3 =? 61); simpl;
         [repeat (apply writes_put_then; [done|])|]; apply writes_ret. }
  rewrite H2, dec_byte2 by done. simpl.
  replace ((_ + v3) / 65536) with (v0 * 4 + v1 / 16) by zdiv.
  replace ((_ + v3) / 256 mod 256) with (v1 mod 16 * 16 + v2 / 4) by zdiv.
  replace ((_ + v3) mod 256) with (v2 mod 4 * 64 + v3) by zdiv.
  repeat (apply writes_put_then; [done || (unfold byte_ok; zdiv)|]). apply writes_ret.
Qed.

Lemma get_next_ch_clean t :
  match get_next_ch t with
  | None => b64_clean t = []
  | Some (c, t') => b64_clean t = c :: b64_clean t' /\ (length t' < length t)%nat
  end.
Proof.
  induction t as [t IH] using (induction_ltof1 _ (@length Z)). unfold ltof in IH.
  destruct t as [|c t]; simpl; [done|].
  destruct (_ || _).
  - pose proof (IH t ltac:(simpl; lia)) as H.
    destruct (get_next_ch t) as [[c' t']|]; [|done]. destruct H. split; [done|simpl; lia].
  - destruct (c =? chr "%"); [|simpl; auto with lia].
    destruct t as [|? [|? t]]; [done..|]. pose proof (IH t ltac:(simpl; lia)) as H.
    destruct (get_next_ch t) as [[c' t']|]; [|done]. destruct H. split; [done|simpl; lia].
Qed.

Lemma get_next_ch_br_clean t :
  let '(c, t') := get_next_ch_br t in
  (b64_clean t = c :: b64_clean t' \/ b64_clean t = [] /\ c = chr "=" /\ t' = []) /\
  (length t' <= length t)%nat.
Proof.
  unfold get_next_ch_br. pose proof (get_next_ch_clean t) as H.
  destruct (get_next_ch t) as [[c t']|]; simpl in *; [|split; [auto|lia]].
  destruct H. split; [auto|lia].
Qed.

Lemma b64_dec_step c0 c1 t c2 t2 c3 t3 :
  get_next_ch_br t = (c2, t2) -> get_next_ch_br t2 = (c3, t3) ->
  b64_dec (c0 :: c1 :: b64_clean t) =
  (b64_group c0 c1 c2 c3).1 ++
    (if (b64_group c0 c1 c2 c3).2 then b64_dec (b64_clean t3) else []).
Proof.
  intros E2 E3. pose proof (get_next_ch_br_clean t) as H2.
  pose proof (get_next_ch_br_clean t2) as H3. rewrite E2 in H2. rewrite E3 in H3.
  destruct H2 as [[->|(-> & -> & ->)] _].
  - destruct H3 as [[->|(-> & -> & ->)] _]; [done|]. simpl.
    by destruct (b64_group c0 c1 c2 61).2; rewrite app_nil_r.
  - injection E3 as <- <-. simpl. by destruct (b64_group c0 c1 61 61).2; rewrite app_nil_r.
Qed.

Lemma decode_loop_appends fuel : forall t, (length t < fuel)%nat ->
  appends (decode_loop fuel t) (b64_dec (b64_clean t)).
Proof.
  induction fuel as [|fuel IH]; intros t Hf; [lia|]. simpl.
  pose proof (get_next_ch_clean t) as H0.
  destruct (get_next_ch t) as [[c0 t0]|]; [|rewrite H0; apply appends_ret].
  destruct H0 as [-> L0]. pose proof (get_next_ch_clean t0) as H1.
  destruct (get_next_ch t0) as [[c1 t1]|]; [|rewrite H1; apply appends_ret].
  destruct H1 as [-> L1].
  destruct (get_next_ch_br t1) as [c2 t2] eqn:E2. destruct (get_next_ch_br t2) as [c3 t3] eqn:E3.
  pose proof (get_next_ch_br_clean t1) as L2. rewrite E2 in L2. destruct L2 as [_ L2].
  rewrite (b64_dec_step c0 c1 t1 c2 t2 c3 t3) by done.
  eapply writes_appends; [apply decode_group_writes|]. simpl.
  pose proof (get_next_ch_br_clean t2) as L3. rewrite E3 in L3. destruct L3 as [_ L3].
  destruct (b64_group c0 c1 c2 c3).2; [apply IH; lia|apply appends_ret].
Qed.

Lemma zbase64_decode_appends m n t : in_bytes m n = Some t ->
  appends (zbase64_decode m n) (b64_dec (b64_clean t)).
Proof.
  intros Ht. unfold zbase64_decode. rewrite Ht. cbn [mbind option_bind].
  apply appends_terminate_end, decode_loop_appends. lia.
Qed.

(** ** Round trip *)
Lemma b64_value_digit i : 0 <= i < 64 -> b64_value (nth (Z.to_nat i) b64enc 0) = Some i.
Proof.
  intros Hi. assert (Hb : byte_ok i) by (unfold byte_ok; lia).
  assert (H : (64 <=? i) || bool_decide (b64_value (nth (Z.to_nat i) b64enc 0) = Some i) = true).
  { clear Hi. revert i Hb.
    apply (byte_forall (fun i => (64 <=? i) ||
      bool_decide (b64_value (nth (Z.to_nat i) b64enc 0) = Some i))). by vm_compute. }
  destruct (Z.leb_spec 64 i); [lia|]. by apply bool_decide_eq_true in H.
Qed.

Lemma b64_value_b64_digit v k : b64_value (b64_digit v k) = Some (v / 64 ^ k mod 64).
Proof. apply b64_value_digit. zdiv. Qed.

Lemma b64_dec_app x t : bytes_ok x -> b64_dec (b64 x ++ t) = x ++ b64_dec t.
Proof.
  induction x as [|a|a b|a b c l IH] using list_ind3; intros Hl;
    repeat (apply Forall_cons in Hl as [? Hl]); unfold byte_ok in *.
  - done.
  - cbn -[b64_digit]. unfold b64_group. rewrite !b64_value_b64_digit. simpl.
    unfold group24. f_equal. zdiv.
  - cbn -[b64_digit]. unfold b64_group. rewrite !b64_value_b64_digit. simpl.
    unfold group24. do 2 f_equal; [|f_equal]; zdiv.
  - change (b64 (a :: b :: c :: l)) with
      ([b64_digit (group24 a b c) 3; b64_digit (group24 a b c) 2;
        b64_digit (group24 a b c) 1; b64_digit (group24 a b c) 0] ++ b64 l).
    cbn -[b64_digit]. unfold b64_group. rewrite !b64_value_b64_digit. cbn -[Z.div Z.modulo Z.pow].
    rewrite IH by done. unfold group24. repeat f_equal; zdiv.
Qed.
Lemma b64_dec_b64 l : bytes_ok l -> b64_dec (b64 l) = l.
Proof. intros Hl. rewrite <- (app_nil_r (b64 l)), b64_dec_app by done. apply app_nil_r. Qed.

(** The characters the decoder skips never occur in an encoded group. *)
Definition b64_skipped (c : Z) : bool :=
  (c =? chr " ") || (c =? chr "013") || (c =? chr "010") || (c =? chr "%").

Lemma b64_clean_app q t : forallb (fun c => negb (b64_skipped c)) q = true ->
  b64_clean (q ++ t) = q ++ b64_clean t.
Proof.
  induction q as [|c q IH]; simpl; [done|]. unfold b64_skipped at 1.
  intros [Hc Hq]%andb_true_iff. destruct (c =? chr "%"); [by rewrite orb_true_r in Hc|].
  rewrite orb_false_r in Hc. destruct (_ || _); [done|]. by rewrite IH.
Qed.

Lemma b64_digit_kept v k : b64_skipped (b64_digit v k) = false.
Proof.
  pose proof (b64_value_b64_digit v k) as H. unfold b64_skipped.
  repeat match goal with |- context [?c =? ?d] => destruct (Z.eqb_spec c d) as [E|_] end;
    [rewrite E in H; discriminate H..|done].
Qed.

Definition quad_ok (q : list Z) : Prop :=
  length q = 4%nat /\ forallb (fun c => negb (b64_skipped c)) q = true /\ bytes_ok q.

Definition b64_char (c : Z) : Prop := b64_skipped c = false /\ byte_ok c.

Lemma b64_digit_char v k : b64_char (b64_digit v k).
Proof. split; [apply b64_digit_kept|apply b64_digit_byte]. Qed.
Lemma b64_pad_char : b64_char (chr "=").
Proof. split; [done|apply byte_pad]. Qed.
#[local] Hint Resolve b64_digit_char b64_pad_char : zc.

Lemma quad_ok_4 a b c d : b64_char a -> b64_char b -> b64_char c -> b64_char d ->
  quad_ok [a; b; c; d].
Proof.
  intros [Ha ?] [Hb ?] [Hc ?] [Hd ?]. split; [done|]. split; [|by repeat (apply Forall_cons; split; [done|])].
  cbn [forallb]. by rewrite Ha, Hb, Hc, Hd.
Qed.

Lemma b64_quads_ok l : Forall quad_ok (b64_quads l).
Proof.
  induction l as [|a|a b|a b c l IH] using list_ind3; cbn [b64_quads]; constructor; try done;
    apply quad_ok_4; auto with zc.
Qed.

Lemma mime_lines_clean qs : forall k, Forall quad_ok qs -> b64_clean (mime_lines k qs) = concat qs.
Proof.
  induction qs as [|q qs IH]; intros k Hq; simpl; [done|].
  apply Forall_cons in Hq as [(_ & Hq & _) Hqs]. rewrite b64_clean_app by done. f_equal.
  destruct (k + 1 =? 19); simpl; by apply IH.
Qed.

Lemma concat_clean qs : Forall quad_ok qs -> b64_clean (concat qs) = concat qs.
Proof.
  induction 1 as [|q qs (_ & Hq & _) _ IH]; simpl; [done|]. by rewrite b64_clean_app, IH.
Qed.

Lemma b64_text_clean mime l : b64_clean (b64_text mime l) = b64 l.
Proof.
  destruct mime; simpl; [apply mime_lines_clean|apply concat_clean]; apply b64_quads_ok.
Qed.

Lemma mime_lines_bytes qs : forall k, Forall quad_ok qs -> bytes_ok (mime_lines k qs).
Proof.
  induction qs as [|q qs IH]; intros k Hq; simpl; [done|].
  apply Forall_cons in Hq as [(_ & _ & Hq) Hqs]. apply Forall_app. split; [done|].
  destruct (k + 1 =? 19); [|by apply IH]. simpl.
  repeat (constructor; [unfold byte_ok; lia|]). by apply IH.
Qed.

Lemma b64_text_length_0 qs : Forall quad_ok qs -> zlen (concat qs) = 4 * zlen qs.
Proof.
  induction 1 as [|q qs (Hq & _) _ IH]; simpl; [done|].
  rewrite zlen_app, zlen_cons, IH. unfold zlen at 1. rewrite Hq. lia.
Qed.

Lemma mime_lines_length qs : forall k, Forall quad_ok qs -> 0 <= k < 19 ->
  zlen (mime_lines k qs) = 4 * zlen qs + 2 * ((k + zlen qs) / 19).
Proof.
  induction qs as [|q qs IH]; intros k Hq Hk; simpl.
  { change (0 = 4 * 0 + 2 * ((k + 0) / 19)). zdiv. }
  apply Forall_cons in Hq as [(Hq & _) Hqs]. rewrite zlen_app, zlen_cons.
  unfold zlen at 1. rewrite Hq. destruct (Z.eqb_spec (k + 1) 19).
  - rewrite !zlen_cons, IH by (done || lia). zlen_facts. zdiv.
  - rewrite IH by (done || lia). zlen_facts. zdiv.
Qed.

Lemma b64_quads_length l : zlen (b64_quads l) = (zlen l + 2) / 3.
Proof.
  induction l as [|a|a b|a b c l IH] using list_ind3; [done..|].
  cbn [b64_quads]. rewrite !zlen_cons, IH. zlen_facts. zdiv.
Qed.

Lemma b64_text_length mime l :
  zlen (b64_text mime l) =
  4 * ((zlen l + 2) / 3) + (if mime then 2 * ((zlen l + 2) / 3 / 19) else 0).
Proof.
  pose proof (b64_quads_ok l). destruct mime; simpl.
  - rewrite mime_lines_length by (done || lia). by rewrite b64_quads_length.
  - unfold b64. rewrite b64_text_length_0, b64_quads_length by done. lia.
Qed.

Lemma b64_group_length c0 c1 c2 c3 : zlen (b64_group c0 c1 c2 c3).1 <= 3.
Proof.
  unfold b64_group. repeat case_match; simplify_eq/=; unfold zlen; simpl; lia.
Qed.

Lemma b64_group_pad c0 c1 c2 : zlen (b64_group c0 c1 c2 (chr "=")).1 <= 2 /\
  zlen (b64_group c0 c1 (chr "=") (chr "=")).1 <= 1.
Proof.
  unfold b64_group. change (b64_value 61) with (@None Z).
  repeat case_match; simplify_eq/=; unfold zlen; simpl; lia.
Qed.

Lemma b64_dec_length t : 4 * zlen (b64_dec t) <= 3 * zlen t.
Proof.
  induction t as [t IH] using (induction_ltof1 _ (@length Z)). unfold ltof in IH.
  destruct t as [|c0 [|c1 [|c2 [|c3 t]]]]; cbn [b64_dec].
  - done.
  - unfold zlen. simpl. lia.
  - pose proof (b64_group_pad c0 c1 0). rewrite !zlen_cons, zlen_nil. lia.
  - pose proof (b64_group_pad c0 c1 c2). rewrite !zlen_cons, zlen_nil. lia.
  - pose proof (b64_group_length c0 c1 c2 c3). rewrite zlen_app, !zlen_cons.
    destruct (b64_group c0 c1 c2 c3).2; [|rewrite zlen_nil; zlen_facts; lia].
    pose proof (IH t ltac:(simpl; lia)). lia.
Qed.

Lemma b64_clean_length t : zlen (b64_clean t) <= zlen t.
Proof.
  induction t as [t IH] using (induction_ltof1 _ (@length Z)). unfold ltof in IH.
  destruct t as [|c t]; simpl; [done|]. rewrite zlen_cons.
  destruct (_ || _); [pose proof (IH t ltac:(simpl; lia)); lia|].
  destruct (c =? chr "%"); [|rewrite zlen_cons; pose proof (IH t ltac:(simpl; lia)); lia].
  destruct t as [|? [|? t]]; rewrite ?zlen_cons, ?zlen_nil; try lia.
  pose proof (IH t ltac:(simpl; lia)). lia.
Qed.

(** C38: encoding then decoding gives the bytes back, with or without the MIME
    line breaks: the text [zbase64_encode] leaves in a growing buffer is the
    RFC 4648 one, and [zbase64_decode] of that buffer's contents is the input. *)
Theorem zbase64_roundtrip (m : list Z) (n size : Z) (l : list Z) (mime_flag : bool) :
  in_bytes m n = Some l -> bytes_ok l -> zlen l <= 2 ^ 28 -> size < 2 ^ 29 ->
  runs (through size (fun e => zbase64_encode m n e mime_flag) zbase64_decode)
    (fun '(t, d) => t = b64_text mime_flag l /\ holds None l d).
Proof.
  intros Hl Hb Hn Hs. zlen_facts. apply through_runs; [done| |lia|by apply zbase64_encode_appends|].
  { rewrite b64_text_length. destruct mime_flag; zdiv. }
  eapply appends_eq; [apply zbase64_decode_appends, in_bytes_full|].
  rewrite b64_text_clean. by apply b64_dec_b64.
Qed.

Lemma zbase64_roundtrip_witness :
  runs (through 3 (fun e => zbase64_encode [77; 97; 110; 255; 0] (-1) e true) zbase64_decode)
    (fun '(t, d) => t = str "TWFu/w==" /\ holds None [77; 97; 110; 255] d).
Proof.
  apply (zbase64_roundtrip [77; 97; 110; 255; 0] (-1) 3 [77; 97; 110; 255] true).
  - reflexivity.
  - apply (bool_decide_unpack _). vm_compute. exact I.
  - vm_compute. discriminate.
  - lia.
Defined.

(** The decoder on an arbitrary text, well formed or not: it never reads
    outside its input and appends the bytes of the longest well-formed prefix
    (padded groups may be followed by further groups), at most 3 for every 4
    characters; white space and percent escapes change nothing, so a text
    wrapped in any way decodes to the bytes it encodes. *)
Theorem zbase64_decode_spec (m : list Z) (n : Z) (t : list Z) :
  in_bytes m n = Some t ->
  appends (zbase64_decode m n) (b64_dec (b64_clean t)) /\
  4 * zlen (b64_dec (b64_clean t)) <= 3 * zlen t /\
  (forall l, bytes_ok l -> b64_clean t = b64 l -> b64_dec (b64_clean t) = l).
Proof.
  intros Ht. split; [by apply zbase64_decode_appends|]. split.
  - pose proof (b64_dec_length (b64_clean t)). pose proof (b64_clean_length t). lia.
  - intros l Hl ->. by apply b64_dec_b64.
Qed.

Lemma zbase64_decode_spec_witness :
  appends (zbase64_decode (str "TQ== T%0AW E=%") 14) (str "MMa").
Proof.
  destruct (zbase64_decode_spec (str "TQ== T%0AW E=%") 14 (str "TQ== T%0AW E=%")) as (H & _).
  - reflexivity.
  - exact H.
Defined.

(** The size [zbase64_encode_get_min_len] announces is enough: a static
    buffer of that size takes the whole text, NUL included, and nothing is
    clipped; the size itself is computed without overflow for inputs below
    half a gigabyte. *)
Theorem zbase64_min_len_enough (m : list Z) (n : Z) (l : list Z) (mime_flag : bool) :
  in_bytes m n = Some l -> bytes_ok l -> zlen l < 2 ^ 29 ->
  exists r, zbase64_encode_get_min_len (zlen l) mime_flag = Some r /\
    zlen (b64_text mime_flag l) + 1 <= r /\
    runs (b ← ZSTACK_BUF r; zbase64_encode m n b mime_flag)
      (holds (Some r) (b64_text mime_flag l)).
Proof.
  intros Hl Hb Hn. zlen_facts.
  unfold zbase64_encode_get_min_len.
  rewrite as_int_Some by lia. cbn [mbind option_bind].
  rewrite (Z.quot_div_nonneg (zlen l * 4) 3) by lia. rewrite as_int_Some by zdiv. cbn [mbind option_bind].
  set (r2 := if mime_flag then as_int _ else _).
  assert (exists r, r2 = Some r /\ zlen (b64_text mime_flag l) + 1 <= r /\ 0 <= r < 2 ^ 30 - 1)
    as (r & -> & Hr & Hr0).
  { unfold r2. rewrite b64_text_length. destruct mime_flag.
    - change (Z.quot (76 * 3) 4) with 57. rewrite Z.quot_div_nonneg by lia.
      eexists. split; [apply as_int_Some; zdiv|zdiv].
    - eexists. split; [done|zdiv]. }
  simpl. exists (r + 1). rewrite as_int_Some by lia. split; [done|]. split; [lia|].
  eapply runs_bind; [apply ZSTACK_BUF_holds; lia|]. intros b Hb'.
  eapply runs_mono; [by eapply (zbase64_encode_appends m n l mime_flag Hl Hb (Some (r + 1)) b [])|].
  simpl. intros b'. rewrite firstn_all2; [done|]. unfold zlen in *. lia.
Qed.

Lemma zbase64_min_len_enough_witness : exists r, zbase64_encode_get_min_len 4 true = Some r /\
  zlen (str "TWFu/w==") + 1 <= r.
Proof.
  destruct (zbase64_min_len_enough [77; 97; 110; 255] 4 [77; 97; 110; 255] true) as (r & H & H' & _).
  - reflexivity.
  - apply (bool_decide_unpack _). vm_compute. exact I.
  - vm_compute. reflexivity.
  - exists r. split; [exact H|exact H'].
Defined.
