(* ===== verification/Hex.v ===== *)
(** * Hexadecimal and URL escapes: src/encode/hex.c *)
From S2P Require Import Prelude Chars Buf.

Definition dec2hex : list Z := str "0123456789ABCDEF".

Fixpoint hex_encode_loop (src : list Z) (b : zbuf) : option zbuf :=
  match src with
  | [] => Some b
  | c :: rest =>
      let addch1 := tab dec2hex (Z.shiftr c 4) in
      let addch2 := tab dec2hex (Z.land c 15) in
      b ← zbuf_put b addch1; b ← zbuf_put b addch2; hex_encode_loop rest b
  end.
Definition zhex_encode (src : list Z) (src_size : Z) (b : zbuf) : option zbuf :=
  l ← in_bytes src src_size; b ← hex_encode_loop l b; zbuf_terminate b.

Fixpoint hex_decode_loop (src : list Z) (b : zbuf) : option zbuf :=
  match src with
  | c0 :: c1 :: rest =>
      let h_l := u8 (Z.shiftl (tab zchar_xdigitval_vector c0) 4) in
      let h_r := tab zchar_xdigitval_vector c1 in
      b ← zbuf_put b (Z.lor h_l h_r); hex_decode_loop rest b
  | _ => Some b
  end.
Definition zhex_decode (src : list Z) (src_size : Z) (b : zbuf) : option zbuf :=
  l ← in_bytes src src_size; b ← hex_decode_loop l b; zbuf_terminate b.

(** The table is indexed with a signed [char] here: a negative index is a
    read outside the table. *)
Fixpoint url_decode_loop (src : list Z) (b : zbuf) : option zbuf :=
  match src with
  | [] => Some b
  | c :: rest =>
      if s8 c =? chr "%" then
        match rest with
        | c1 :: c2 :: rest' =>
            l ← rd zchar_xdigitval_vector (s8 c1);
            r ← rd zchar_xdigitval_vector (s8 c2);
            b ← (if negb (l =? -1) && negb (r =? -1)
                 then zbuf_put b (Z.shiftl l 4 + r) else Some b);
            url_decode_loop rest' b
        | _ => Some b
        end
      else b ← zbuf_put b (s8 c); url_decode_loop rest b
  end.
Definition zurl_hex_decode (src : list Z) (src_size : Z) (b : zbuf) : option zbuf :=
  l ← in_bytes src src_size; b ← url_decode_loop l b; zbuf_terminate b.

(** [strchr] also finds the terminating NUL. *)
Definition strchr (s : list Z) (c : Z) : bool := existsb (Z.eqb c) (s ++ [0]).

Definition put_escape (b : zbuf) (ch : Z) : option zbuf :=
  b ← zbuf_put b (chr "%");
  b ← zbuf_put b (tab dec2hex (Z.shiftr ch 4));
  zbuf_put b (tab dec2hex (Z.land ch 15)).

Fixpoint url_encode_loop (strict_flag : bool) (src : list Z) (b : zbuf) : option zbuf :=
  match src with
  | [] => Some b
  | ch :: rest =>
      b ← (if ch =? chr " " then zbuf_puts b (str "%20")
           else if isalnum ch then zbuf_put b ch
           else if strict_flag then put_escape b ch
           else if 127 <? ch then zbuf_put b ch
           else if strchr (str "._-") ch then zbuf_put b ch
           else put_escape b ch);
      url_encode_loop strict_flag rest b
  end.
Definition zurl_hex_encode (src : list Z) (src_size : Z) (b : zbuf) (strict_flag : bool)
    : option zbuf :=
  l ← in_bytes src src_size; b ← url_encode_loop strict_flag l b; zbuf_terminate b.

(** ** Specification *)
Definition hex_digit (v : Z) : Z := if v <? 10 then 48 + v else 55 + v.
Definition hex_byte (c : Z) : list Z := [hex_digit (c / 16); hex_digit (c mod 16)].
Definition hex_enc (l : list Z) : list Z := l ≫= hex_byte.

(** The value the decoders give a character: 255 when it is not a digit. *)
Definition digit_value (c : Z) : Z := default 255 (hex_value c).
Definition hex_pair (c0 c1 : Z) : Z := Z.lor (digit_value c0 mod 16 * 16) (digit_value c1).

Fixpoint hex_dec (l : list Z) : list Z :=
  match l with c0 :: c1 :: l' => hex_pair c0 c1 :: hex_dec l' | _ => [] end.

Definition url_plain (strict_flag : bool) (c : Z) : bool :=
  isalnum c || (negb strict_flag &&
    ((127 <? c) || (c =? chr ".") || (c =? chr "_") || (c =? chr "-") || (c =? 0))).
Definition url_char (strict_flag : bool) (c : Z) : list Z :=
  if url_plain strict_flag c then [c] else chr "%" :: hex_byte c.
Definition url_enc (strict_flag : bool) (l : list Z) : list Z := l ≫= url_char strict_flag.

(** [None]: an escape with a byte above 127. *)
Fixpoint url_dec (l : list Z) : option (list Z) :=
  match l with
  | [] => Some []
  | c :: l' =>
      if c =? chr "%" then
        match l' with
        | c1 :: c2 :: l'' =>
            if (c1 <? 128) && (c2 <? 128)
            then cons (u8 (digit_value c1 * 16 + digit_value c2)) <$> url_dec l''
            else None
        | _ => Some []
        end
      else cons c <$> url_dec l'
  end.

(** ** The code implements the specification *)
Lemma dec2hex_digit v : 0 <= v < 16 -> tab dec2hex v = hex_digit v.
Proof.
  intros Hv. assert (Hb : byte_ok v) by (unfold byte_ok; lia).
  assert (H : (16 <=? v) || (tab dec2hex v =? hex_digit v) = true).
  { clear Hv. revert v Hb. by apply (byte_forall (fun v => (16 <=? v) || (tab dec2hex v =? hex_digit v))). }
  destruct (Z.leb_spec 16 v); [lia|]. by apply Z.eqb_eq.
Qed.

Lemma dec2hex_byte c : byte_ok c ->
  [tab dec2hex (Z.shiftr c 4); tab dec2hex (Z.land c 15)] = hex_byte c.
Proof.
  unfold byte_ok. intros. unfold hex_byte.
  rewrite !dec2hex_digit by zbits. by autorewrite with bits.
Qed.

Lemma hex_digit_byte v : 0 <= v < 16 -> byte_ok (hex_digit v).
Proof. unfold hex_digit, byte_ok. intros. destruct (Z.ltb_spec v 10); lia. Qed.

Lemma digit_value_hex_digit v : 0 <= v < 16 -> digit_value (hex_digit v) = v.
Proof.
  intros Hv. assert (Hb : byte_ok v) by (unfold byte_ok; lia).
  assert (H : (16 <=? v) || (digit_value (hex_digit v) =? v) = true).
  { clear Hv. revert v Hb. by apply (byte_forall (fun v => (16 <=? v) || (digit_value (hex_digit v) =? v))). }
  destruct (Z.leb_spec 16 v); [lia|]. by apply Z.eqb_eq.
Qed.

Lemma digit_value_range c : 0 <= digit_value c <= 255.
Proof.
  unfold digit_value, hex_value, isdigit, in_range.
  repeat case_match; simpl; lia.
Qed.

(** Two digits, by two [zbuf_put]. *)
Lemma put_hex_then c g y : byte_ok c -> appends g y ->
  appends (fun b => b ← zbuf_put b (tab dec2hex (Z.shiftr c 4));
                    b ← zbuf_put b (tab dec2hex (Z.land c 15)); g b) (hex_byte c ++ y).
Proof.
  intros Hc Hg. pose proof (dec2hex_byte c Hc) as E. unfold hex_byte in E.
  injection E as -> ->. unfold hex_byte, byte_ok in *.
  apply appends_put_then; [apply hex_digit_byte; zdiv|].
  apply appends_put_then; [apply hex_digit_byte; zdiv|done].
Qed.

Lemma hex_encode_loop_appends l : bytes_ok l -> appends (hex_encode_loop l) (hex_enc l).
Proof.
  induction 1 as [|c l Hc Hl IH]; [apply appends_ret|]. by apply put_hex_then.
Qed.

Lemma zhex_encode_appends m n l : in_bytes m n = Some l -> bytes_ok l ->
  appends (zhex_encode m n) (hex_enc l).
Proof.
  intros Hl Hb. unfold zhex_encode. rewrite Hl. cbn [mbind option_bind].
  by apply appends_terminate_end, hex_encode_loop_appends.
Qed.

Lemma xdigitval_digit c : byte_ok c -> tab zchar_xdigitval_vector c = digit_value c.
Proof. apply zhexval_spec. Qed.

Lemma hex_pair_eq c0 c1 : byte_ok c0 -> byte_ok c1 ->
  Z.lor (u8 (Z.shiftl (tab zchar_xdigitval_vector c0) 4)) (tab zchar_xdigitval_vector c1) =
  hex_pair c0 c1.
Proof.
  intros. rewrite !xdigitval_digit by done. unfold hex_pair. f_equal.
  rewrite shiftl_mul by lia. unfold uwrap. zdiv.
Qed.

Lemma hex_pair_byte c0 c1 : byte_ok (hex_pair c0 c1).
Proof.
  pose proof (digit_value_range c0). pose proof (digit_value_range c1).
  apply lor_byte; unfold byte_ok; zdiv.
Qed.

Lemma hex_decode_loop_appends l : bytes_ok l -> appends (hex_decode_loop l) (hex_dec l).
Proof.
  induction l as [|a|a b l IH] using list_ind2; intros Hl; cbn [hex_decode_loop hex_dec];
    [apply appends_ret..|].
  repeat (apply Forall_cons in Hl as [? Hl]). rewrite hex_pair_eq by done.
  apply appends_put_then; [apply hex_pair_byte|by apply IH].
Qed.

Lemma zhex_decode_appends m n l : in_bytes m n = Some l -> bytes_ok l ->
  appends (zhex_decode m n) (hex_dec l).
Proof.
  intros Hl Hb. unfold zhex_decode. rewrite Hl. cbn [mbind option_bind].
  by apply appends_terminate_end, hex_decode_loop_appends.
Qed.

Lemma hex_pair_byte_id c : byte_ok c ->
  hex_pair (hex_digit (c / 16)) (hex_digit (c mod 16)) = c.
Proof.
  unfold byte_ok. intros. unfold hex_pair. rewrite !digit_value_hex_digit by zdiv.
  rewrite (lor_mul_add 4) by zdiv. zdiv.
Qed.

Lemma hex_dec_enc l : bytes_ok l -> hex_dec (hex_enc l) = l.
Proof.
  induction 1 as [|c l Hc Hl IH]; [done|].
  change (hex_enc (c :: l)) with (hex_byte c ++ hex_enc l). unfold hex_byte.
  cbn [app hex_dec]. by rewrite hex_pair_byte_id, IH.
Qed.

(** ** URL escapes *)
Lemma rd_xdigitval c : byte_ok c ->
  rd zchar_xdigitval_vector (s8 c) = if c <? 128 then Some (digit_value c) else None.
Proof.
  intros Hc. assert (H : bool_decide (rd zchar_xdigitval_vector (s8 c) =
    if c <? 128 then Some (digit_value c) else None) = true).
  { revert c Hc. by apply (byte_forall (fun c => bool_decide (rd zchar_xdigitval_vector (s8 c) =
      if c <? 128 then Some (digit_value c) else None))); vm_compute. }
  by apply bool_decide_eq_true in H.
Qed.

Lemma s8_eqb c k : byte_ok c -> 0 <= k < 128 -> (s8 c =? k) = (c =? k).
Proof.
  unfold byte_ok, swrap. intros. change (8 - 1) with 7.
  destruct (Z.eqb_spec c k), (Z.eqb_spec ((c + 2 ^ 7) mod 2 ^ 8 - 2 ^ 7) k); zdiv || done.
Qed.

Lemma url_decode_loop_appends l : forall x, bytes_ok l -> url_dec l = Some x ->
  appends (url_decode_loop l) x.
Proof.
  induction l as [l IH] using (induction_ltof1 _ (@length Z)). unfold ltof in IH.
  destruct l as [|c l]; intros x Hl Hx; simpl in Hx; [simplify_eq; apply appends_ret|].
  apply Forall_cons in Hl as [Hc Hl]. simpl. rewrite s8_eqb by (done || lia).
  destruct (c =? 37).
  - destruct l as [|c1 [|c2 l]]; [simplify_eq; apply appends_ret..|].
    repeat (apply Forall_cons in Hl as [? Hl]). rewrite !rd_xdigitval by done.
    destruct (c1 <? 128), (c2 <? 128); simpl in Hx; try done; [].
    apply fmap_Some in Hx as (y & Hy & ->). simpl.
    pose proof (digit_value_range c1). pose proof (digit_value_range c2).
    destruct (Z.eqb_spec (digit_value c1) (-1)), (Z.eqb_spec (digit_value c2) (-1)); try lia; [].
    simpl. rewrite shiftl_mul by lia. rewrite <- (app_nil_l y), app_comm_cons.
    apply appends_bind; [by apply appends_put|]. apply IH; [simpl; lia|done..].
  - apply fmap_Some in Hx as (y & Hy & ->). rewrite <- (app_nil_l y), app_comm_cons.
    apply appends_bind; [apply appends_put; by rewrite u8_s8, u8_id|].
    apply IH; [simpl; lia|done..].
Qed.

(** Where the reference has no answer the code reads outside its table. *)
Lemma url_decode_loop_undefined l : bytes_ok l -> url_dec l = None -> forall b, url_decode_loop l b = None.
Proof.
  induction l as [l IH] using (induction_ltof1 _ (@length Z)). unfold ltof in IH. intros Hl Hx b.
  destruct l as [|c l]; simpl in Hx |- *; [done|]. apply Forall_cons in Hl as [Hc Hl]. rewrite s8_eqb by (done || lia).
  destruct (c =? 37).
  - destruct l as [|c1 [|c2 l]]; [done..|]. repeat (apply Forall_cons in Hl as [? Hl]). rewrite !rd_xdigitval by done.
    destruct (c1 <? 128), (c2 <? 128); simpl in Hx |- *; try done. apply fmap_None in Hx.
    lazymatch goal with |- ?o ≫= _ = None => destruct o as [b1|]; [|done] end. cbn. apply IH; [simpl; lia|done..].
  - apply fmap_None in Hx. destruct (zbuf_put b (s8 c)) as [b'|]; [|done]. cbn. apply IH; [simpl; lia|done..].
Qed.
Lemma zurl_hex_decode_undefined m n l b : in_bytes m n = Some l -> bytes_ok l -> url_dec l = None ->
  zurl_hex_decode m n b = None.
Proof.
  intros Hl Hb Hx. unfold zurl_hex_decode. rewrite Hl. cbn [mbind option_bind].
  by rewrite url_decode_loop_undefined.
Qed.
Lemma zurl_hex_decode_appends m n l x : in_bytes m n = Some l -> bytes_ok l ->
  url_dec l = Some x -> appends (zurl_hex_decode m n) x.
Proof.
  intros Hl Hb Hx. unfold zurl_hex_decode. rewrite Hl. cbn [mbind option_bind].
  by apply appends_terminate_end, url_decode_loop_appends.
Qed.

Lemma put_escape_appends c : byte_ok c -> appends (fun b => put_escape b c) (chr "%" :: hex_byte c).
Proof.
  intros Hc. apply appends_put_then; [unfold byte_ok; lia|].
  rewrite <- (app_nil_r (hex_byte c)).
  eapply appends_ext; [|apply put_hex_then, appends_ret; done]. intros b. simpl.
  destruct (zbuf_put b _) as [b'|]; [|done]. simpl. by destruct (zbuf_put b' _).
Qed.

Lemma url_char_appends (strict : bool) c : byte_ok c ->
  appends (fun b : zbuf => if c =? chr " " then zbuf_puts b (str "%20")
           else if isalnum c then zbuf_put b c
           else if strict then put_escape b c
           else if 127 <? c then zbuf_put b c
           else if strchr (str "._-") c then zbuf_put b c
           else put_escape b c) (url_char strict c).
Proof.
  intros Hc. unfold url_char, url_plain.
  destruct (Z.eqb_spec c (chr " ")) as [->|Hsp].
  { replace (isalnum 32) with false by done. destruct strict; simpl;
      apply appends_puts; (done || apply (bool_decide_unpack _); by vm_compute). }
  assert (Hp : appends (fun b => zbuf_put b c) [c]) by (apply appends_put; by rewrite u8_id).
  destruct (isalnum c); [done|]. destruct strict; simpl; [by apply put_escape_appends|].
  destruct (127 <? c); [done|]. unfold strchr. simpl.
  destruct (c =? 46), (c =? 95), (c =? 45), (c =? 0); simpl; first [done|by apply put_escape_appends].
Qed.

Lemma zurl_hex_encode_appends m n l strict : in_bytes m n = Some l -> bytes_ok l ->
  appends (fun b => zurl_hex_encode m n b strict) (url_enc strict l).
Proof.
  intros Hl Hb. unfold zurl_hex_encode. rewrite Hl. cbn [mbind option_bind].
  apply appends_terminate_end. clear Hl. unfold url_enc.
  induction Hb as [|c l' Hc Hl' IH]; [apply appends_ret|].
  simpl. apply appends_bind; [by apply url_char_appends|done].
Qed.

(** What the encoder writes decodes to what it read. *)
Lemma hex_digit_ascii v : 0 <= v < 16 -> (hex_digit v <? 128) = true.
Proof. unfold hex_digit. intros. destruct (Z.ltb_spec v 10); lia. Qed.

Lemma url_dec_enc strict l : bytes_ok l -> url_dec (url_enc strict l) = Some l.
Proof.
  induction 1 as [|c l Hc Hl IH]; [done|].
  change (url_enc strict (c :: l)) with (url_char strict c ++ url_enc strict l).
  unfold url_char. destruct (url_plain strict c) eqn:Hp.
  - simpl. destruct (Z.eqb_spec c 37) as [->|]; [by destruct strict|]. by rewrite IH.
  - unfold byte_ok in Hc. unfold hex_byte. cbn [app url_dec].
    rewrite !hex_digit_ascii, IH, !digit_value_hex_digit by zdiv. simpl.
    do 2 f_equal. unfold uwrap. zdiv.
Qed.

Lemma hex_enc_length l : zlen (hex_enc l) = 2 * zlen l.
Proof.
  induction l as [|c l IH]; [done|].
  change (hex_enc (c :: l)) with (hex_byte c ++ hex_enc l). rewrite zlen_app, IH. unfold hex_byte. zlia.
Qed.

Lemma url_enc_length strict l : zlen (url_enc strict l) <= 3 * zlen l.
Proof.
  induction l as [|c l IH]; [done|].
  change (url_enc strict (c :: l)) with (url_char strict c ++ url_enc strict l).
  rewrite zlen_app. unfold url_char, hex_byte. destruct (url_plain strict c); zlia.
Qed.

(** ** Properties *)

(** Hexadecimal encoding: two upper-case digits for every byte, and the
    decoder gives the bytes back. *)
Theorem zhex_roundtrip (m : list Z) (n size : Z) (l : list Z) :
  in_bytes m n = Some l -> bytes_ok l -> zlen l <= 2 ^ 27 -> size < 2 ^ 29 ->
  runs (through size (zhex_encode m n) zhex_decode)
    (fun '(t, d) => t = hex_enc l /\ holds None l d).
Proof.
  intros Hl Hb Hn Hs. zlen_facts. pose proof (hex_enc_length l) as E.
  apply through_runs; [done|lia|lia|by apply zhex_encode_appends|].
  eapply appends_eq; [apply zhex_decode_appends; [apply in_bytes_full|]|by apply hex_dec_enc].
  clear -Hb. induction Hb as [|c l Hc Hl IH]; [constructor|].
  change (hex_enc (c :: l)) with (hex_byte c ++ hex_enc l). unfold hex_byte, byte_ok in *.
  repeat (apply Forall_cons; split; [apply hex_digit_byte; zdiv|]). done.
Qed.

Lemma zhex_roundtrip_witness :
  runs (through 0 (zhex_encode [171; 0; 15] 3) zhex_decode)
    (fun '(t, d) => t = str "AB000F" /\ holds None [171; 0; 15] d).
Proof.
  apply (zhex_roundtrip [171; 0; 15] 3 0 [171; 0; 15]).
  - reflexivity.
  - apply (bool_decide_unpack _). vm_compute. exact I.
  - vm_compute. discriminate.
  - lia.
Defined.

(** URL encoding: with the strict flag only letters, digits and escapes
    are written; with either flag [zurl_hex_decode] gives the bytes back. *)
Theorem zurl_hex_roundtrip (m : list Z) (n size : Z) (l : list Z) (strict_flag : bool) :
  in_bytes m n = Some l -> bytes_ok l -> zlen l <= 2 ^ 27 -> size < 2 ^ 29 ->
  runs (through size (fun b => zurl_hex_encode m n b strict_flag) zurl_hex_decode)
    (fun '(t, d) => t = url_enc strict_flag l /\ holds None l d /\
       (strict_flag = true -> forall c, c ∈ t -> isalnum c = true \/ c = chr "%")).
Proof.
  intros Hl Hb Hn Hs. zlen_facts. pose proof (url_enc_length strict_flag l) as E.
  assert (Ht : bytes_ok (url_enc strict_flag l)).
  { clear -Hb. apply Forall_bind. eapply Forall_impl; [exact Hb|]. intros c Hc.
    unfold url_char, hex_byte. unfold byte_ok in Hc.
    simpl. destruct (url_plain strict_flag c); rewrite ?Forall_cons, ?Forall_nil;
      [by split|].
    split; [by unfold byte_ok|]. split; [|split; [|done]]; apply hex_digit_byte; zdiv. }
  eapply runs_mono.
  { apply (through_runs size _ _ (url_enc strict_flag l) l); [done|lia|lia| |].
    - by apply zurl_hex_encode_appends.
    - eapply zurl_hex_decode_appends; [apply in_bytes_full|done|by apply url_dec_enc]. }
  intros [t d] [-> Hd]. split; [done|]. split; [done|]. intros -> c.
  unfold url_enc. intros (x & Hc & Hx)%list_elem_of_bind. unfold url_char in Hc.
  destruct (url_plain true x) eqn:Hp.
  - apply list_elem_of_singleton in Hc as ->. unfold url_plain in Hp. simpl in Hp.
    rewrite orb_false_r in Hp. by left.
  - assert (Hx' : byte_ok x) by (by eapply Forall_forall in Hb).
    assert (Hd' : forall v, 0 <= v < 16 -> isalnum (hex_digit v) = true).
    { intros v Hv. assert (Hbv : byte_ok v) by (unfold byte_ok; lia).
      assert (Ha : (16 <=? v) || isalnum (hex_digit v) = true).
      { clear Hv. revert v Hbv. by apply (byte_forall (fun v => (16 <=? v) || isalnum (hex_digit v))). }
      destruct (Z.leb_spec 16 v); [lia|done]. }
    unfold hex_byte, byte_ok in *. rewrite !elem_of_cons in Hc.
    destruct Hc as [->|[->|[->|Hc]]]; [by right|left; apply Hd'; zdiv..|by apply elem_of_nil in Hc].
Qed.

Lemma zurl_hex_roundtrip_witness :
  runs (through 0 (fun b => zurl_hex_encode (str "a b/c_") 6 b true) zurl_hex_decode)
    (fun '(t, d) => t = str "a%20b%2Fc%5F" /\ holds None (str "a b/c_") d /\
       (true = true -> forall c, c ∈ t -> isalnum c = true \/ c = chr "%")).
Proof.
  apply (zurl_hex_roundtrip (str "a b/c_") 6 0 (str "a b/c_") true).
  - reflexivity.
  - apply (bool_decide_unpack _). vm_compute. exact I.
  - vm_compute. discriminate.
  - lia.
Defined.

(** [zurl_hex_decode] on a malformed escape: its test for [-1] never
    fires, because the table holds 255 for a character that is not a digit.
    The escape of two non-digits becomes the byte 239 instead of being dropped,
    and a byte above 127 in an escape, an index that is negative as a [char],
    is read outside the table. *)
Theorem zurl_hex_decode_malformed (c1 c2 : Z) (b : zbuf) :
  byte_ok c1 -> byte_ok c2 -> hex_value c1 = None -> hex_value c2 = None ->
  (c1 < 128 -> c2 < 128 -> appends (zurl_hex_decode [chr "%"; c1; c2] 3) [239]) /\
  (128 <= c1 -> zurl_hex_decode [chr "%"; c1; c2] 3 b = None).
Proof.
  intros H1 H2 V1 V2. split; intros.
  - apply (zurl_hex_decode_appends _ _ [chr "%"; c1; c2]); [done| |].
    + repeat (apply Forall_cons; split; [first [exact H1|exact H2|unfold byte_ok; lia]|]). constructor.
    + unfold url_dec, digit_value. rewrite V1, V2. simpl.
      destruct (Z.ltb_spec c1 128), (Z.ltb_spec c2 128); (done || lia).
  - unfold zurl_hex_decode. change (in_bytes _ _) with (Some [chr "%"; c1; c2]).
    cbn [mbind option_bind url_decode_loop]. rewrite !rd_xdigitval by done.
    destruct (Z.ltb_spec c1 128); [lia|done].
Qed.

Lemma zurl_hex_decode_malformed_witness :
  appends (zurl_hex_decode (str "%zz") 3) [239] /\
  zurl_hex_decode [chr "%"; 200; 122] 3 (mk_zbuf [] 0 true 0) = None.
Proof.
  split.
  - apply (zurl_hex_decode_malformed 122 122 (mk_zbuf [] 0 true 0)); try reflexivity; unfold byte_ok; lia.
  - apply (zurl_hex_decode_malformed 200 122); try reflexivity; unfold byte_ok; lia.
Defined.
