(* ===== verification/QuotedPrintable.v ===== *)
(** * Quoted-printable: src/encode/quoted_printable.c

    The encoders of RFC 2045 bodies and RFC 2047 header words, and their
    decoders. The encoders end without [zbuf_terminate]: every [zbuf_put]
    leaves the NUL. *)
From S2P Require Import Prelude Chars Buf Hex.

Definition hex : list Z := str "0123456789ABCDEF".

Definition put_qp_escape (b : zbuf) (byte : Z) : option zbuf :=
  b ← zbuf_put b (chr "=");
  b ← zbuf_put b (tab hex (Z.land (Z.shiftr byte 4) 15));
  zbuf_put b (tab hex (Z.land byte 15)).

(** [byte = ptr[i]]: a signed [char] widened to [int]. *)
Fixpoint qp_encode_2045_loop (mime_flag : bool) (src : list Z) (col_count : Z) (b : zbuf)
    : option zbuf :=
  match src with
  | [] => Some b
  | c :: rest =>
      let byte := s8 c in
      '(b, col_count) ←
        (if (byte =? chr " ") || ((33 <=? byte) && (byte <=? 126) && negb (byte =? chr "="))
         then b ← zbuf_put b byte; Some (b, col_count + 1)
         else b ← put_qp_escape b byte; Some (b, col_count + 3));
      '(b, col_count) ←
        (if 76 <? col_count then
           b ← (if mime_flag then zbuf_strcat b (Some (chr "=" :: [13; 10; 0])) else Some b);
           Some (b, 0)
         else Some (b, col_count));
      qp_encode_2045_loop mime_flag rest col_count b
  end.
Definition zqp_encode_2045 (src : list Z) (src_size : Z) (b : zbuf) (mime_flag : bool) : option zbuf :=
  l ← in_bytes src src_size; qp_encode_2045_loop mime_flag l 0 b.

Fixpoint qp_encode_2047_loop (src : list Z) (b : zbuf) : option zbuf :=
  match src with
  | [] => Some b
  | c :: rest =>
      let byte := s8 c in
      b ← (if byte =? chr " " then b ← zbuf_put b byte; zbuf_put b (chr "_")
           else if (33 <=? byte) && (byte <=? 126) && negb (byte =? chr "=") then zbuf_put b byte
           else put_qp_escape b byte);
      qp_encode_2047_loop rest b
  end.
Definition zqp_encode_2047 (src : list Z) (src_size : Z) (b : zbuf) : option zbuf :=
  l ← in_bytes src src_size; qp_encode_2047_loop l b.

(** [___hex_val]: the table value stored into a [char]. *)
Definition hex_val (c : Z) : Z := s8 (tab zchar_xdigitval_vector c).
(** [addch = ((c1 << 4) | c2)], a [char] passed to [zbuf_put]. *)
Definition hex_join (c1 c2 : Z) : Z := s8 (Z.lor (Z.shiftl (hex_val c1) 4) (hex_val c2)).

(** Every [___get_next_ch] at the end of the input goes to [over]. *)
Fixpoint qp_decode_2045_loop (src : list Z) (b : zbuf) : option zbuf :=
  match src with
  | [] => Some b
  | c0 :: src1 =>
      if negb (s8 c0 =? chr "=") then b ← zbuf_put b (s8 c0); qp_decode_2045_loop src1 b
      else
        match src1 with
        | [] => Some b
        | c1 :: src2 =>
            match src2 with
            | [] => Some b
            | c2 :: src3 =>
                if (s8 c1 =? 13) || (s8 c1 =? 10) then
                  if negb (s8 c2 =? 13) && negb (s8 c2 =? 10)
                  then (* src_pos-- *) qp_decode_2045_loop src2 b
                  else qp_decode_2045_loop src3 b
                else b ← zbuf_put b (hex_join c1 c2); qp_decode_2045_loop src3 b
            end
        end
  end.
Definition zqp_decode_2045 (src : list Z) (src_size : Z) (b : zbuf) : option zbuf :=
  l ← in_bytes src src_size; b ← qp_decode_2045_loop l b; zbuf_terminate b.

Fixpoint qp_decode_2047_loop (src : list Z) (b : zbuf) : option zbuf :=
  match src with
  | [] => Some b
  | c0 :: src1 =>
      if s8 c0 =? chr "_" then b ← zbuf_put b (chr " "); qp_decode_2047_loop src1 b
      else if negb (s8 c0 =? chr "=") then b ← zbuf_put b (s8 c0); qp_decode_2047_loop src1 b
      else match src1 with
           | c1 :: c2 :: src3 => b ← zbuf_put b (hex_join c1 c2); qp_decode_2047_loop src3 b
           | _ => Some b
           end
  end.
Definition zqp_decode_2047 (src : list Z) (src_size : Z) (b : zbuf) : option zbuf :=
  l ← in_bytes src src_size; b ← qp_decode_2047_loop l b; zbuf_terminate b.

Fixpoint qp_valid_len (src : list Z) (i : Z) : Z :=
  match src with
  | [] => i
  | ch :: rest => if (ch <? 33) || (126 <? ch) then i else qp_valid_len rest (i + 1)
  end.
Definition zqp_decode_get_valid_len (src : list Z) (src_size : Z) : option Z :=
  l ← in_bytes src src_size; Some (qp_valid_len l 0).

(** ** Specification *)
Definition qp_plain (c : Z) : bool := in_range 33 126 c && negb (c =? chr "=").
Definition qp_escape (c : Z) : list Z := chr "=" :: hex_byte c.

(** RFC 2045: a character itself or its escape; a soft line break ("=" CR LF)
    once more than 76 columns are used, [col] being used already. *)
Definition qp_char (c : Z) : list Z :=
  if (c =? chr " ") || qp_plain c then [c] else qp_escape c.
Fixpoint qp_enc (mime_flag : bool) (col : Z) (l : list Z) : list Z :=
  match l with
  | [] => []
  | c :: l' =>
      let col := col + zlen (qp_char c) in
      qp_char c ++
      (if 76 <? col then (if mime_flag then [chr "="; 13; 10] else []) ++ qp_enc mime_flag 0 l'
       else qp_enc mime_flag col l')
  end.

(** RFC 2047, as the code has it: a space is written twice. *)
Definition qp2047_char (c : Z) : list Z :=
  if c =? chr " " then [chr " "; chr "_"] else if qp_plain c then [c] else qp_escape c.
Definition qp2047_enc (l : list Z) : list Z := l ≫= qp2047_char.

(** The byte of an escape; a character that is not a digit counts as -1. *)
Definition qp_pair (c1 c2 : Z) : Z :=
  match hex_value c1, hex_value c2 with
  | Some v1, Some v2 => v1 * 16 + v2
  | None, Some v2 => 240 + v2
  | _, None => 255
  end.

Definition is_nl (c : Z) : bool := (c =? 13) || (c =? 10).
Fixpoint qp_dec (l : list Z) : list Z :=
  match l with
  | [] => []
  | c0 :: l1 =>
      if negb (c0 =? chr "=") then c0 :: qp_dec l1
      else match l1 with
           | [] => []
           | c1 :: l2 =>
               match l2 with
               | [] => []
               | c2 :: l3 =>
                   if is_nl c1 then (if is_nl c2 then qp_dec l3 else qp_dec l2)
                   else qp_pair c1 c2 :: qp_dec l3
               end
           end
  end.

Fixpoint qp2047_dec (l : list Z) : list Z :=
  match l with
  | [] => []
  | c0 :: l1 =>
      if c0 =? chr "_" then chr " " :: qp2047_dec l1
      else if negb (c0 =? chr "=") then c0 :: qp2047_dec l1
      else match l1 with c1 :: c2 :: l3 => qp_pair c1 c2 :: qp2047_dec l3 | _ => [] end
  end.

(** ** The code implements the specification *)
Lemma qp_class c : byte_ok c ->
  (33 <=? s8 c) && (s8 c <=? 126) && negb (s8 c =? chr "=") = qp_plain c.
Proof.
  intros Hc. apply eqb_prop. revert c Hc.
  by apply (byte_forall (fun c => Bool.eqb
    ((33 <=? s8 c) && (s8 c <=? 126) && negb (s8 c =? chr "=")) (qp_plain c))).
Qed.

Lemma hex_pair_digits c : byte_ok c ->
  [tab hex (Z.land (Z.shiftr (s8 c) 4) 15); tab hex (Z.land (s8 c) 15)] = hex_byte c.
Proof.
  intros Hc. assert (H : bool_decide ([tab hex (Z.land (Z.shiftr (s8 c) 4) 15);
    tab hex (Z.land (s8 c) 15)] = hex_byte c) = true).
  { revert c Hc. by apply (byte_forall (fun c => bool_decide
      ([tab hex (Z.land (Z.shiftr (s8 c) 4) 15); tab hex (Z.land (s8 c) 15)] = hex_byte c)));
      vm_compute. }
  by apply bool_decide_eq_true in H.
Qed.

Lemma hex_join_pair c1 c2 : byte_ok c1 -> byte_ok c2 -> u8 (hex_join c1 c2) = qp_pair c1 c2.
Proof.
  intros H1 H2. apply Z.eqb_eq. revert c1 c2 H1 H2.
  by apply (byte_forall2 (fun c1 c2 => u8 (hex_join c1 c2) =? qp_pair c1 c2)); vm_compute.
Qed.

Lemma hex_byte_ok c : byte_ok c -> bytes_ok (hex_byte c).
Proof.
  unfold byte_ok. intros. repeat (apply Forall_cons; split); try apply hex_digit_byte; try zdiv.
  constructor.
Qed.

Lemma appends_put_s8 c : byte_ok c -> appends (fun b => zbuf_put b (s8 c)) [c].
Proof. intros. apply appends_put. by rewrite u8_s8, u8_id. Qed.

Lemma put_qp_escape_appends c : byte_ok c ->
  appends (fun b => put_qp_escape b (s8 c)) (qp_escape c).
Proof.
  intros Hc. pose proof (hex_byte_ok c Hc) as Hb. pose proof (hex_pair_digits c Hc) as E.
  unfold put_qp_escape, qp_escape, hex_byte in *. injection E as -> ->.
  apply Forall_cons in Hb as [? Hb]. apply Forall_cons in Hb as [? Hb].
  apply appends_put_then; [unfold byte_ok; lia|].
  apply appends_put_then; [done|]. apply appends_put. by rewrite u8_id.
Qed.

(** The character step of the RFC 2045 encoder. *)
Lemma qp_char_writes c col : byte_ok c ->
  writes (fun b => if (s8 c =? chr " ") ||
                      ((33 <=? s8 c) && (s8 c <=? 126) && negb (s8 c =? chr "="))
         then b ← zbuf_put b (s8 c); Some (b, col + 1)
         else b ← put_qp_escape b (s8 c); Some (b, col + 3))
    (qp_char c) (col + zlen (qp_char c)).
Proof.
  intros Hc. rewrite qp_class, s8_eqb by (done || lia). unfold qp_char.
  destruct (_ || _).
  - apply (appends_writes _ _ [c] []); [by apply appends_put_s8|]. apply writes_ret.
  - rewrite <- (app_nil_r (qp_escape c)) at 1.
    apply appends_writes; [by apply put_qp_escape_appends|]. apply writes_ret.
Qed.

Lemma soft_break_appends :
  appends (fun b => zbuf_strcat b (Some (chr "=" :: [13; 10; 0]))) [chr "="; 13; 10].
Proof.
  apply (appends_puts [chr "="; 13; 10]); apply (bool_decide_unpack _); by vm_compute.
Qed.

Lemma qp_encode_2045_loop_appends mime l : forall col, bytes_ok l ->
  appends (qp_encode_2045_loop mime l col) (qp_enc mime col l).
Proof.
  induction l as [|c l IH]; intros col Hl; [apply appends_ret|].
  apply Forall_cons in Hl as [Hc Hl]. cbn [qp_encode_2045_loop qp_enc].
  eapply writes_appends; [by apply qp_char_writes|]. cbn beta iota.
  destruct (76 <? col + zlen (qp_char c)).
  - eapply writes_appends; [|by apply IH].
    rewrite <- (app_nil_r (if mime then _ else _)). eapply appends_writes; [|apply writes_ret].
    destruct mime; [apply soft_break_appends|apply appends_ret].
  - by apply IH.
Qed.

Lemma zqp_encode_2045_appends m n l mime : in_bytes m n = Some l -> bytes_ok l ->
  appends (fun b => zqp_encode_2045 m n b mime) (qp_enc mime 0 l).
Proof.
  intros Hl Hb. unfold zqp_encode_2045. rewrite Hl. cbn [mbind option_bind].
  by apply qp_encode_2045_loop_appends.
Qed.

Lemma zqp_encode_2047_appends m n l : in_bytes m n = Some l -> bytes_ok l ->
  appends (zqp_encode_2047 m n) (qp2047_enc l).
Proof.
  intros Hl Hb. unfold zqp_encode_2047. rewrite Hl. cbn [mbind option_bind]. clear Hl.
  induction Hb as [|c l' Hc Hl' IH]; [apply appends_ret|].
  cbn [qp_encode_2047_loop]. rewrite qp_class, s8_eqb by (done || lia).
  change (qp2047_enc (c :: l')) with (qp2047_char c ++ qp2047_enc l').
  apply appends_bind; [|done]. unfold qp2047_char. destruct (Z.eqb_spec c 32) as [->|].
  - apply appends_put_then; [unfold byte_ok; lia|by apply appends_put].
  - destruct (qp_plain c); [by apply appends_put_s8|by apply put_qp_escape_appends].
Qed.

Lemma qp_pair_byte c1 c2 : byte_ok c1 -> byte_ok c2 -> byte_ok (qp_pair c1 c2).
Proof. intros. rewrite <- hex_join_pair by done. apply u8_byte. Qed.

Lemma put_hex_join c1 c2 g y : byte_ok c1 -> byte_ok c2 -> appends g y ->
  appends (fun b => zbuf_put b (hex_join c1 c2) ≫= g) (qp_pair c1 c2 :: y).
Proof.
  intros H1 H2 Hg. apply (appends_bind (fun b => zbuf_put b (hex_join c1 c2)) g [_]); [|done].
  apply appends_put. by rewrite hex_join_pair.
Qed.

Lemma put_s8_then c g y : byte_ok c -> appends g y ->
  appends (fun b => zbuf_put b (s8 c) ≫= g) (c :: y).
Proof.
  intros Hc Hg. apply (appends_bind (fun b => zbuf_put b (s8 c)) g [c]); [|done].
  by apply appends_put_s8.
Qed.

Lemma qp_decode_2045_loop_appends l : bytes_ok l -> appends (qp_decode_2045_loop l) (qp_dec l).
Proof.
  induction l as [l IH] using (induction_ltof1 _ (@length Z)). unfold ltof in IH. intros Hl.
  destruct l as [|c0 l1]; [apply appends_ret|]. apply Forall_cons in Hl as [H0 H1].
  cbn [qp_decode_2045_loop qp_dec]. rewrite s8_eqb by (done || lia).
  destruct (c0 =? 61); cbn [negb].
  2: { apply put_s8_then; [done|]. apply IH; [simpl; lia|done]. }
  destruct l1 as [|c1 [|c2 l3]]; [apply appends_ret..|].
  apply Forall_cons in H1 as [Hc1 Hl2]. pose proof Hl2 as [Hc2 Hl3]%Forall_cons.
  rewrite !(s8_eqb c1), !(s8_eqb c2) by (done || lia).
  fold (is_nl c1). rewrite <- negb_orb. fold (is_nl c2). destruct (is_nl c1).
  - destruct (is_nl c2); cbn [negb]; apply IH; try done; simpl; lia.
  - apply put_hex_join; [done..|]. apply IH; [simpl; lia|done].
Qed.

Lemma zqp_decode_2045_appends m n l : in_bytes m n = Some l -> bytes_ok l ->
  appends (zqp_decode_2045 m n) (qp_dec l).
Proof.
  intros Hl Hb. unfold zqp_decode_2045. rewrite Hl. cbn [mbind option_bind].
  by apply appends_terminate_end, qp_decode_2045_loop_appends.
Qed.

Lemma zqp_decode_2047_appends m n l : in_bytes m n = Some l -> bytes_ok l ->
  appends (zqp_decode_2047 m n) (qp2047_dec l).
Proof.
  intros Hl Hb. unfold zqp_decode_2047. rewrite Hl. cbn [mbind option_bind].
  apply appends_terminate_end. clear Hl m n.
  induction l as [l IH] using (induction_ltof1 _ (@length Z)). unfold ltof in IH.
  destruct l as [|c0 l1]; [apply appends_ret|]. apply Forall_cons in Hb as [H0 H1].
  cbn [qp_decode_2047_loop qp2047_dec]. rewrite !(s8_eqb c0) by (done || lia).
  destruct (c0 =? 95).
  { apply appends_put_then; [unfold byte_ok; lia|]. apply IH; [simpl; lia|done]. }
  destruct (c0 =? 61); cbn [negb].
  2: { apply put_s8_then; [done|]. apply IH; [simpl; lia|done]. }
  destruct l1 as [|c1 [|c2 l3]]; [apply appends_ret..|].
  apply Forall_cons in H1 as [Hc1 [Hc2 Hl3]%Forall_cons].
  apply put_hex_join; [done..|]. apply IH; [simpl; lia|done].
Qed.

(** ** Round trips *)
Lemma qp_pair_hex_byte c : byte_ok c -> qp_pair (hex_digit (c / 16)) (hex_digit (c mod 16)) = c.
Proof.
  intros Hc. apply Z.eqb_eq. revert c Hc.
  by apply (byte_forall (fun c => qp_pair (hex_digit (c / 16)) (hex_digit (c mod 16)) =? c));
    vm_compute.
Qed.

Lemma hex_digit_not_nl v : 0 <= v < 16 -> is_nl (hex_digit v) = false.
Proof.
  unfold is_nl, hex_digit. intros. destruct (Z.ltb_spec v 10);
    destruct (Z.eqb_spec (48 + v) 13), (Z.eqb_spec (48 + v) 10),
      (Z.eqb_spec (55 + v) 13), (Z.eqb_spec (55 + v) 10); (done || lia).
Qed.

Lemma qp_dec_escape c t : byte_ok c -> qp_dec (qp_escape c ++ t) = c :: qp_dec t.
Proof.
  intros Hc. unfold qp_escape, hex_byte. simpl.
  rewrite hex_digit_not_nl by (unfold byte_ok in Hc; zdiv). by rewrite qp_pair_hex_byte.
Qed.

Lemma qp_dec_char c t : byte_ok c -> qp_dec (qp_char c ++ t) = c :: qp_dec t.
Proof.
  intros Hc. unfold qp_char, qp_plain. destruct (Z.eqb_spec c 32) as [->|]; [done|].
  cbn [orb]. destruct (Z.eqb_spec c 61) as [->|Hne].
  - rewrite andb_false_r. by apply qp_dec_escape.
  - rewrite andb_true_r. destruct (in_range 33 126 c); [|by apply qp_dec_escape].
    simpl. by destruct (Z.eqb_spec c 61).
Qed.

Lemma qp_dec_enc mime l : forall col, bytes_ok l -> qp_dec (qp_enc mime col l) = l.
Proof.
  induction l as [|c l IH]; intros col Hl; [done|].
  apply Forall_cons in Hl as [Hc Hl]. cbn [qp_enc]. rewrite qp_dec_char by done. f_equal.
  destruct (_ <? _); [destruct mime|]; cbn [app]; [|by apply IH..].
  rewrite <- (IH 0 Hl) at 2. done.
Qed.

(** What RFC 2047 decoding gives back: spaces double and underscores become
    spaces. *)
Definition qp2047_back (c : Z) : list Z :=
  if c =? chr " " then [chr " "; chr " "] else if c =? chr "_" then [chr " "] else [c].

Lemma qp2047_dec_char c t : byte_ok c ->
  qp2047_dec (qp2047_char c ++ t) = qp2047_back c ++ qp2047_dec t.
Proof.
  intros Hc. unfold qp2047_char, qp2047_back. destruct (Z.eqb_spec c 32) as [->|]; [done|].
  unfold qp_plain. destruct (Z.eqb_spec c 61) as [->|].
  { rewrite andb_false_r. simpl. done. }
  rewrite andb_true_r. destruct (in_range 33 126 c) eqn:Hr.
  - simpl. destruct (Z.eqb_spec c 95) as [->|]; [done|]. by destruct (Z.eqb_spec c 61).
  - unfold qp_escape, hex_byte. simpl. rewrite qp_pair_hex_byte by done.
    destruct (Z.eqb_spec c 95) as [->|]; [done|done].
Qed.

Lemma qp2047_dec_enc l : bytes_ok l -> qp2047_dec (qp2047_enc l) = l ≫= qp2047_back.
Proof.
  induction 1 as [|c l Hc Hl IH]; [done|].
  change (qp2047_enc (c :: l)) with (qp2047_char c ++ qp2047_enc l).
  by rewrite qp2047_dec_char, IH.
Qed.

Lemma qp_escape_ok c : byte_ok c -> bytes_ok (qp_escape c) /\ zlen (qp_escape c) = 3.
Proof. intros Hc. split; [|done]. constructor; [unfold byte_ok; lia|by apply hex_byte_ok]. Qed.

Lemma qp_char_ok c : byte_ok c -> bytes_ok (qp_char c) /\ zlen (qp_char c) <= 3.
Proof.
  intros Hc. unfold qp_char. destruct (_ || _).
  - split; [by repeat constructor; apply Hc|done].
  - destruct (qp_escape_ok c Hc). split; [done|lia].
Qed.
Lemma qp2047_char_ok c : byte_ok c -> bytes_ok (qp2047_char c) /\ zlen (qp2047_char c) <= 3.
Proof.
  intros Hc. unfold qp2047_char. destruct (_ =? _); [|destruct (qp_plain c)].
  - split; [by apply (bool_decide_unpack _); vm_compute|done].
  - split; [by repeat constructor; apply Hc|done].
  - destruct (qp_escape_ok c Hc). split; [done|lia].
Qed.

Lemma qp_enc_ok mime l : forall col, bytes_ok l ->
  bytes_ok (qp_enc mime col l) /\ zlen (qp_enc mime col l) <= 6 * zlen l.
Proof.
  induction l as [|c l IH]; intros col Hl; [by split|].
  apply Forall_cons in Hl as [Hc Hl]. cbn [qp_enc]. destruct (qp_char_ok c Hc) as [Hb Hn].
  destruct (IH 0 Hl) as [B0 N0]. destruct (IH (col + zlen (qp_char c)) Hl) as [B1 N1].
  destruct (_ <? _); [destruct mime|]; cbn [app]; rewrite ?zlen_app, ?zlen_cons;
    (split; [|lia]); repeat (apply Forall_app; split; [done|]); try done.
  repeat (apply Forall_cons; split; [unfold byte_ok; lia|]). done.
Qed.

Lemma qp2047_enc_ok l : bytes_ok l ->
  bytes_ok (qp2047_enc l) /\ zlen (qp2047_enc l) <= 3 * zlen l /\
  zlen (l ≫= qp2047_back) <= 2 * zlen l.
Proof.
  induction 1 as [|c l Hc Hl (Hb & Hn & Hm)]; [done|].
  change (qp2047_enc (c :: l)) with (qp2047_char c ++ qp2047_enc l).
  change ((c :: l) ≫= qp2047_back) with (qp2047_back c ++ (l ≫= qp2047_back)).
  destruct (qp2047_char_ok c Hc) as [Hb' Hn']. rewrite !zlen_app, !zlen_cons.
  split; [by apply Forall_app|]. split; [lia|].
  unfold qp2047_back at 1. destruct (c =? 32); [|destruct (c =? 95)]; zlia.
Qed.

(** ** Properties *)

(** Quoted-printable bodies: the encoder writes the RFC 2045 text (a soft
    line break after the column passes 76, with the MIME flag), every byte of
    any input survives the round trip. *)
Theorem zqp_2045_roundtrip (m : list Z) (n size : Z) (l : list Z) (mime_flag : bool) :
  in_bytes m n = Some l -> bytes_ok l -> zlen l <= 2 ^ 26 -> size < 2 ^ 29 ->
  runs (through size (fun b => zqp_encode_2045 m n b mime_flag) zqp_decode_2045)
    (fun '(t, d) => t = qp_enc mime_flag 0 l /\ holds None l d).
Proof.
  intros Hl Hb Hn Hs. zlen_facts. destruct (qp_enc_ok mime_flag l 0 Hb) as [Hb' Hn'].
  apply through_runs; [done|lia|lia|by apply zqp_encode_2045_appends|].
  eapply appends_eq; [apply zqp_decode_2045_appends; [apply in_bytes_full|done]|].
  by apply qp_dec_enc.
Qed.

Lemma zqp_2045_roundtrip_witness :
  runs (through 0 (fun b => zqp_encode_2045 [97; 61; 200; 13; 0] (-1) b true) zqp_decode_2045)
    (fun '(t, d) => t = str "a=3D=C8=0D" /\ holds None [97; 61; 200; 13] d).
Proof.
  apply (zqp_2045_roundtrip [97; 61; 200; 13; 0] (-1) 0 [97; 61; 200; 13] true).
  - reflexivity.
  - apply (bool_decide_unpack _). vm_compute. exact I.
  - vm_compute. discriminate.
  - lia.
Defined.

(** Quoted-printable header words: what comes back through the RFC 2047
    encoder and decoder is the input with every space doubled (the encoder
    writes both the space and the underscore that stands for it) and every
    underscore turned into a space (the encoder leaves it as it is); an input
    without either survives. *)
Theorem zqp_2047_roundtrip (m : list Z) (n size : Z) (l : list Z) :
  in_bytes m n = Some l -> bytes_ok l -> zlen l <= 2 ^ 26 -> size < 2 ^ 29 ->
  runs (through size (zqp_encode_2047 m n) zqp_decode_2047)
    (fun '(t, d) => t = qp2047_enc l /\ holds None (l ≫= qp2047_back) d) /\
  (chr " " ∉ l -> chr "_" ∉ l -> l ≫= qp2047_back = l).
Proof.
  intros Hl Hb Hn Hs. zlen_facts. destruct (qp2047_enc_ok l Hb) as (Hb' & Hn' & Hm). split.
  - apply through_runs; [done|lia|lia|by apply zqp_encode_2047_appends|].
    eapply appends_eq; [apply zqp_decode_2047_appends; [apply in_bytes_full|done]|].
    by apply qp2047_dec_enc.
  - clear. induction l as [|c l IH]; [done|]. rewrite !not_elem_of_cons.
    intros [H1 H1'] [H2 H2'].
    change ((c :: l) ≫= qp2047_back) with (qp2047_back c ++ (l ≫= qp2047_back)).
    rewrite IH by done. unfold qp2047_back.
    destruct (Z.eqb_spec c 32); [congruence|]. by destruct (Z.eqb_spec c 95); [congruence|].
Qed.

Lemma zqp_2047_roundtrip_witness :
  runs (through 0 (zqp_encode_2047 (str "a b_c") 5) zqp_decode_2047)
    (fun '(t, d) => t = str "a _b_c" /\ holds None (str "a  b c") d).
Proof.
  destruct (zqp_2047_roundtrip (str "a b_c") 5 0 (str "a b_c")) as [H _].
  - reflexivity.
  - apply (bool_decide_unpack _). vm_compute. exact I.
  - vm_compute. discriminate.
  - lia.
  - exact H.
Defined.
