(* ===== verification/Xml.v ===== *)
(** * Character references: src/encode/ncr.c and src/xml/utils.c

    [zncr_decode] writes a code point in UTF-8; [zxml_unescape_string] expands
    the references of an XML text. The text is read through a pointer that the
    code moves by hand, so it is modelled as a block and an index. *)
From S2P Require Import Prelude Chars Buf.

(** ** src/encode/ncr.c: the bytes stored through [wchar] *)
Definition zncr_decode (ins : Z) : list Z :=
  if ins <? 128 then [u8 ins]
  else if ins <? 2048 then [u8 (Z.shiftr ins 6 + 192); u8 (Z.land ins 63 + 128)]
  else if ins <? 65536 then
    [u8 (Z.shiftr ins 12 + 224); u8 (Z.land (Z.shiftr ins 6) 63 + 128); u8 (Z.land ins 63 + 128)]
  else if ins <? 2097152 then
    [u8 (Z.shiftr ins 18 + 240); u8 (Z.land (Z.shiftr ins 12) 63 + 128);
     u8 (Z.land (Z.shiftr ins 6) 63 + 128); u8 (Z.land ins 63 + 128)]
  else [].

(** ** src/xml/utils.c *)

(** [!strncmp(ps, s, strlen(s))], for a literal [s]. *)
Fixpoint starts_with (m : list Z) (ps : Z) (s : list Z) : option bool :=
  match s with
  | [] => Some true
  | c :: s' => x ← rd m ps; if x =? c then starts_with m (ps + 1) s' else Some false
  end.

(** The digits up to the semicolon (or [end]): the value and the new [ps]. *)
Fixpoint ncr_digits (fuel : nat) (m : list Z) (end_ ps u x : Z) : option (Z * Z) :=
  match fuel with
  | O => None
  | S fuel' =>
      if ps <? end_ then
        c ← rd m ps;
        if c =? chr ";" then Some (u, ps)
        else ux ← as_int (u * x); u ← as_int (ux + zhexval c);
             ncr_digits fuel' m end_ (ps + 1) u x
      else Some (u, ps)
  end.

(** The reference after an ampersand: what it appends and the new [ps]. *)
Definition xml_entity (m : list Z) (ps : Z) (b : zbuf) : option (zbuf * Z) :=
  is_lt ← starts_with m ps (str "lt;");
  if is_lt : bool then b ← zbuf_put b (chr "<"); Some (b, ps + 3) else
  is_gt ← starts_with m ps (str "gt;");
  if is_gt : bool then b ← zbuf_put b (chr ">"); Some (b, ps + 3) else
  is_amp ← starts_with m ps (str "amp;");
  if is_amp : bool then b ← zbuf_put b (chr "&"); Some (b, ps + 4) else
  is_apos ← starts_with m ps (str "apos;");
  if is_apos : bool then b ← zbuf_put b (chr "'"); Some (b, ps + 5) else
  is_quot ← starts_with m ps (str "quot;");
  if is_quot : bool then b ← zbuf_put b 34; Some (b, ps + 5) else
  Some (b, ps).

Definition xml_ncr (fuel : nat) (m : list Z) (end_ ps : Z) (b : zbuf) : option (zbuf * Z) :=
  let ps := ps + 1 in
  c ← rd m ps;
  let '(x, ps) := if (c =? chr "x") || (c =? chr "X") then (16, ps + 1) else (10, ps) in
  '(u, ps) ← ncr_digits fuel m end_ ps 0 x;
  let wchar := zncr_decode u in
  b ← (if 0 <? zlen wchar then zbuf_memcat b wchar (zlen wchar) else Some b);
  Some (b, ps).

Fixpoint unescape_loop (fuel : nat) (m : list Z) (end_ ps : Z) (b : zbuf) : option zbuf :=
  match fuel with
  | O => None
  | S fuel' =>
      if ps <? end_ then
        ch ← rd m ps;
        if ch =? chr "<" then Some b else
        let ps := ps + 1 in
        '(b, ps) ← (if ch =? chr "&" then
                      c ← rd m ps;
                      if c =? chr "#" then xml_ncr fuel m end_ ps b else xml_entity m ps b
                    else b ← zbuf_put b (s8 ch); Some (b, ps));
        unescape_loop fuel' m end_ ps b
      else Some b
  end.

(** The pointer moves forward at every iteration: [len + 1] of them suffice. *)
Definition zxml_unescape_string (b : zbuf) (data : list Z) (len : Z) : option zbuf :=
  len ← (if len <? 0 then zlen <$> cstr data else Some len);
  unescape_loop (S (Z.to_nat len)) data len 0 b.

(** ** Specification *)

(** The UTF-8 decoder: one code point and the rest of the text. *)
Definition utf8_decode (t : list Z) : option (Z * list Z) :=
  match t with
  | a :: t' =>
      if in_range 0 127 a then Some (a, t')
      else if in_range 192 223 a then
        match t' with
        | b :: r => if in_range 128 191 b then Some ((a - 192) * 64 + (b - 128), r) else None
        | _ => None
        end
      else if in_range 224 239 a then
        match t' with
        | b :: c :: r =>
            if in_range 128 191 b && in_range 128 191 c
            then Some ((a - 224) * 4096 + (b - 128) * 64 + (c - 128), r) else None
        | _ => None
        end
      else if in_range 240 247 a then
        match t' with
        | b :: c :: d :: r =>
            if in_range 128 191 b && in_range 128 191 c && in_range 128 191 d
            then Some ((a - 240) * 262144 + (b - 128) * 4096 + (c - 128) * 64 + (d - 128), r)
            else None
        | _ => None
        end
      else None
  | [] => None
  end.

(** XML escaping of a text. *)
Definition xml_escape_char (c : Z) : list Z :=
  if c =? chr "<" then str "&lt;" else if c =? chr ">" then str "&gt;"
  else if c =? chr "&" then str "&amp;" else if c =? chr "'" then str "&apos;"
  else if c =? 34 then str "&quot;" else [c].
Definition xml_escape (l : list Z) : list Z := l ≫= xml_escape_char.

(** ** UTF-8 *)
Lemma in_range_true lo hi c : lo <= c <= hi -> in_range lo hi c = true.
Proof. unfold in_range. intros. destruct (Z.leb_spec lo c), (Z.leb_spec c hi); (done || lia). Qed.
Lemma in_range_false lo hi c : ~ (lo <= c <= hi) -> in_range lo hi c = false.
Proof. unfold in_range. intros. destruct (Z.leb_spec lo c), (Z.leb_spec c hi); (done || lia). Qed.

(** Code points in arithmetic form. *)
Lemma zncr_decode_arith n : 0 <= n < 2 ^ 21 ->
  zncr_decode n =
  if n <? 128 then [n]
  else if n <? 2048 then [n / 64 + 192; n mod 64 + 128]
  else if n <? 65536 then [n / 4096 + 224; n / 64 mod 64 + 128; n mod 64 + 128]
  else [n / 262144 + 240; n / 4096 mod 64 + 128; n / 64 mod 64 + 128; n mod 64 + 128].
Proof.
  intros Hn. unfold zncr_decode.
  destruct (Z.ltb_spec n 128); [by rewrite u8_id by (unfold byte_ok; lia)|].
  destruct (Z.ltb_spec n 2048); [|destruct (Z.ltb_spec n 65536);
    [|destruct (Z.ltb_spec n 2097152); [|lia]]];
    autorewrite with bits; rewrite !u8_id by (unfold byte_ok; zdiv); reflexivity.
Qed.

(** [zncr_decode] writes the UTF-8 form of every code point below 2^21:
    the decoder reads it back, whatever follows, and at most 4 bytes, all of
    them valid, are stored; nothing is stored above 2^21. *)
Theorem zncr_decode_utf8 (n : Z) (rest : list Z) : 0 <= n ->
  (n < 2 ^ 21 -> utf8_decode (zncr_decode n ++ rest) = Some (n, rest) /\
     1 <= zlen (zncr_decode n) <= 4) /\
  (2 ^ 21 <= n -> zncr_decode n = []) /\ bytes_ok (zncr_decode n).
Proof.
  intros Hn. split; [|split].
  - intros Hmax. rewrite zncr_decode_arith by lia.
    destruct (Z.ltb_spec n 128); [|destruct (Z.ltb_spec n 2048); [|destruct (Z.ltb_spec n 65536)]];
      (split; [|unfold zlen; simpl; lia]); unfold utf8_decode; cbn [app];
      repeat (rewrite in_range_false by zdiv); rewrite !in_range_true by zdiv; simpl;
      do 2 f_equal; zdiv.
  - intros Hbig. unfold zncr_decode. destruct (Z.ltb_spec n 128), (Z.ltb_spec n 2048),
      (Z.ltb_spec n 65536), (Z.ltb_spec n 2097152); (done || lia).
  - unfold zncr_decode. repeat case_match; repeat (constructor; [apply u8_byte|]); constructor.
Qed.

Lemma zncr_decode_utf8_witness : zncr_decode 8364 = [226; 130; 172] /\
  utf8_decode ([226; 130; 172] ++ [33]) = Some (8364, [33]).
Proof.
  split; [reflexivity|]. apply (zncr_decode_utf8 8364 [33]); lia.
Defined.

(** ** References *)

(** [starts_with] decided from the next bytes alone. *)
Fixpoint prefix_test (t s : list Z) : option bool :=
  match s, t with
  | [], _ => Some true
  | _ :: _, [] => None
  | c :: s', x :: t' => if x =? c then prefix_test t' s' else Some false
  end.

Lemma starts_with_test s : forall pre t suf r, prefix_test t s = Some r ->
  starts_with (pre ++ t ++ suf) (zlen pre) s = Some r.
Proof.
  induction s as [|c s IH]; intros pre t suf r Hr.
  { by destruct t; simplify_eq/=. }
  destruct t as [|x t]; [by simplify_eq/=|]. cbn [starts_with app prefix_test] in *.
  rewrite rd_at. cbn [mbind option_bind].
  destruct (x =? c); [|done]. specialize (IH (pre ++ [x]) t suf r Hr).
  rewrite zlen_app, <- app_assoc in IH. exact IH.
Qed.

(** The five named references: the name, and the byte it stands for. *)
Definition xml_names : list (list Z * Z) :=
  [(str "lt;", chr "<"); (str "gt;", chr ">"); (str "amp;", chr "&");
   (str "apos;", chr "'"); (str "quot;", 34)].

Lemma xml_entity_name pre name c suf b : (name, c) ∈ xml_names ->
  xml_entity (pre ++ name ++ suf) (zlen pre) b =
  (b ← zbuf_put b c; Some (b, zlen pre + zlen name)).
Proof.
  intros Hin. unfold xml_entity.
  repeat (apply elem_of_cons in Hin as [[= -> ->]|Hin]); [..|by apply elem_of_nil in Hin];
    repeat (erewrite starts_with_test by reflexivity; cbn [mbind option_bind]); reflexivity.
Qed.

Lemma rd_mid (pre t suf : list Z) x : rd (pre ++ (x :: t) ++ suf) (zlen pre) = Some x.
Proof. apply rd_at. Qed.

(** One named reference, as the main loop sees it. *)
Lemma unescape_loop_name fuel pre name c suf end_ b : (name, c) ∈ xml_names ->
  zlen pre < end_ ->
  unescape_loop (S fuel) (pre ++ chr "&" :: name ++ suf) end_ (zlen pre) b =
  (b ← zbuf_put b c;
   unescape_loop fuel (pre ++ chr "&" :: name ++ suf) end_ (zlen (pre ++ chr "&" :: name)) b).
Proof.
  intros Hin He. cbn [unescape_loop]. destruct (Z.ltb_spec (zlen pre) end_); [|lia].
  rewrite rd_at. cbn [mbind option_bind].
  change (chr "&" =? chr "<") with false. change (chr "&" =? chr "&") with true. cbn iota.
  replace (pre ++ chr "&" :: name ++ suf) with ((pre ++ [chr "&"]) ++ name ++ suf)
    by (by rewrite <- app_assoc).
  replace (zlen pre + 1) with (zlen (pre ++ [chr "&"])) by zlia.
  assert (Hrd : exists x, rd ((pre ++ [chr "&"]) ++ name ++ suf) (zlen (pre ++ [chr "&"])) = Some x /\
    (x =? chr "#") = false).
  { repeat (apply elem_of_cons in Hin as [[= -> ->]|Hin]); [..|by apply elem_of_nil in Hin];
      eexists; (split; [apply rd_mid|done]). }
  destruct Hrd as (x & Ex & Ey). rewrite Ex. cbn [mbind option_bind]. rewrite Ey.
  rewrite (xml_entity_name _ _ _ _ _ Hin).
  replace (zlen (pre ++ chr "&" :: name)) with (zlen (pre ++ [chr "&"]) + zlen name) by zlia.
  by destruct (zbuf_put b c).
Qed.

Lemma unescape_loop_plain fuel pre c suf end_ b : byte_ok c -> c <> chr "<" -> c <> chr "&" ->
  zlen pre < end_ ->
  unescape_loop (S fuel) (pre ++ c :: suf) end_ (zlen pre) b =
  (b ← zbuf_put b (s8 c); unescape_loop fuel (pre ++ c :: suf) end_ (zlen (pre ++ [c])) b).
Proof.
  intros Hc H1 H2 He. cbn [unescape_loop]. destruct (Z.ltb_spec (zlen pre) end_); [|lia].
  rewrite rd_at. cbn [mbind option_bind].
  destruct (Z.eqb_spec c 60), (Z.eqb_spec c 38); try done; [].
  rewrite zlen_app, zlen_cons, zlen_nil, Z.add_0_r. by destruct (zbuf_put b (s8 c)).
Qed.

Lemma unescape_loop_end fuel m end_ b : unescape_loop (S fuel) m end_ end_ b = Some b.
Proof. simpl. by rewrite Z.ltb_irrefl. Qed.

Ltac elem_of_literal := repeat first [apply list_elem_of_here | apply list_elem_of_further].

Lemma xml_escape_char_cases c :
  (exists name, (name, c) ∈ xml_names /\ xml_escape_char c = chr "&" :: name) \/
  (xml_escape_char c = [c] /\ c <> chr "<" /\ c <> chr "&").
Proof.
  unfold xml_escape_char, xml_names.
  destruct (Z.eqb_spec c 60) as [->|]; [left; eexists; split; [elem_of_literal|done]|].
  destruct (Z.eqb_spec c 62) as [->|]; [left; eexists; split; [elem_of_literal|done]|].
  destruct (Z.eqb_spec c 38) as [->|]; [left; eexists; split; [elem_of_literal|done]|].
  destruct (Z.eqb_spec c 39) as [->|]; [left; eexists; split; [elem_of_literal|done]|].
  destruct (Z.eqb_spec c 34) as [->|]; [left; eexists; split; [elem_of_literal|done]|].
  by right.
Qed.

Lemma unescape_loop_escaped l : forall fuel pre suf, bytes_ok l ->
  (length (xml_escape l) < fuel)%nat ->
  appends (unescape_loop fuel (pre ++ xml_escape l ++ suf) (zlen (pre ++ xml_escape l)) (zlen pre)) l.
Proof.
  induction l as [|c l IH]; intros fuel pre suf Hl Hf.
  - destruct fuel as [|fuel]; [simpl in Hf; lia|]. change (xml_escape []) with (@nil Z).
    rewrite app_nil_r. eapply appends_ext; [intros b; apply unescape_loop_end|apply appends_ret].
  - apply Forall_cons in Hl as [Hc Hl]. destruct fuel as [|fuel]; [lia|].
    change (xml_escape (c :: l)) with (xml_escape_char c ++ xml_escape l) in *.
    rewrite length_app in Hf.
    assert (Hend : forall e, e ++ xml_escape l = xml_escape_char c ++ xml_escape l ->
      zlen (pre ++ xml_escape_char c ++ xml_escape l) = zlen ((pre ++ e) ++ xml_escape l))
      by (intros e <-; by rewrite app_assoc).
    destruct (xml_escape_char_cases c) as [(name & Hin & E)|(E & H1 & H2)]; rewrite E in *.
    + specialize (Hend (chr "&" :: name) eq_refl). rewrite Hend. clear Hend.
      eapply appends_ext; [intros b|].
      { rewrite <- app_assoc. cbn [app]. apply unescape_loop_name; [done|zlia]. }
      cbn beta. apply appends_put_then; [done|].
      replace (pre ++ 38 :: name ++ xml_escape l ++ suf) with ((pre ++ 38 :: name) ++ xml_escape l ++ suf)
        by (by rewrite <- app_assoc).
      apply IH; [done|]. simpl in Hf. lia.
    + specialize (Hend [c] eq_refl). rewrite Hend. clear Hend. eapply appends_ext; [intros b|].
      { cbn [app]. apply unescape_loop_plain; [done..|zlia]. }
      cbn beta. apply (appends_bind (fun b => zbuf_put b (s8 c)) _ [c]).
      { apply appends_put. by rewrite u8_s8, u8_id. }
      replace (pre ++ c :: xml_escape l ++ suf) with ((pre ++ [c]) ++ xml_escape l ++ suf)
        by (by rewrite <- app_assoc).
      apply IH; [done|]. simpl in Hf. lia.
Qed.

(** [zxml_unescape_string] undoes XML escaping: a text in which the five
    special characters are written as named references is restored, for every
    sequence of bytes and whatever follows the text in memory. *)
Theorem zxml_unescape_named (l suf : list Z) : bytes_ok l ->
  appends (fun b => zxml_unescape_string b (xml_escape l ++ suf) (zlen (xml_escape l))) l.
Proof.
  intros Hl. unfold zxml_unescape_string. zlen_facts.
  destruct (Z.ltb_spec (zlen (xml_escape l)) 0); [lia|]. cbn [mbind option_bind].
  apply (unescape_loop_escaped l _ [] suf Hl). unfold zlen. lia.
Qed.

Lemma zxml_unescape_named_witness :
  let t := xml_escape (str "a<&'") in
  t = str "a&lt;&amp;&apos;" /\
  appends (fun b => zxml_unescape_string b (t ++ [0]) (zlen t)) (str "a<&'").
Proof.
  split; [reflexivity|]. apply (zxml_unescape_named (str "a<&'") [0]).
  apply (bool_decide_unpack _). vm_compute. exact I.
Defined.

(** The value of a run of decimal digits. *)
Definition decimal (ds : list Z) : Z := foldl (fun u c => u * 10 + (c - 48)) 0 ds.

Lemma zhexval_digit c : 48 <= c <= 57 -> zhexval c = c - 48.
Proof.
  intros Hc. rewrite zhexval_spec by (unfold byte_ok; lia).
  unfold hex_value, isdigit. by rewrite in_range_true.
Qed.

Lemma decimal_mono ds : forall u, 0 <= u -> Forall (fun c => 48 <= c <= 57) ds ->
  u <= foldl (fun u c => u * 10 + (c - 48)) u ds.
Proof.
  induction ds as [|c ds IH]; intros u Hu Hd; simpl; [lia|].
  apply Forall_cons in Hd as [Hc Hd]. specialize (IH (u * 10 + (c - 48)) ltac:(lia) Hd). lia.
Qed.

Lemma ncr_digits_decimal ds : forall fuel pre suf end_ u,
  Forall (fun c => 48 <= c <= 57) ds -> 0 <= u ->
  foldl (fun u c => u * 10 + (c - 48)) u ds < 2 ^ 31 ->
  (length ds < fuel)%nat -> zlen pre + zlen ds < end_ ->
  ncr_digits fuel (pre ++ ds ++ chr ";" :: suf) end_ (zlen pre) u 10 =
  Some (foldl (fun u c => u * 10 + (c - 48)) u ds, zlen pre + zlen ds).
Proof.
  induction ds as [|c ds IH]; intros [|fuel] pre suf end_ u Hd Hu Hmax Hf He;
    try (simpl in Hf; lia); cbn [ncr_digits]; zlen_facts;
    (destruct (Z.ltb_spec (zlen pre) end_); [|zlia]).
  - cbn [app]. rewrite rd_at. simpl. repeat f_equal. zlia.
  - apply Forall_cons in Hd as [Hc Hd]. cbn [app]. rewrite rd_at. cbn [mbind option_bind].
    destruct (Z.eqb_spec c 59); [lia|]. simpl in Hmax.
    pose proof (decimal_mono ds (u * 10 + (c - 48)) ltac:(lia) Hd).
    rewrite as_int_Some by lia. cbn [mbind option_bind]. rewrite zhexval_digit by done.
    rewrite as_int_Some by lia. cbn [mbind option_bind].
    specialize (IH fuel (pre ++ [c]) suf end_ (u * 10 + (c - 48)) Hd ltac:(lia) Hmax).
    rewrite zlen_app, <- app_assoc in IH. change (zlen [c]) with 1 in IH. cbn [app] in IH.
    rewrite IH; [|simpl in Hf; lia|rewrite zlen_cons in He; lia].
    rewrite zlen_cons. simpl. f_equal. f_equal. lia.
Qed.

(** A decimal reference [&#n;] appends the UTF-8 form of its code point
    and then the semicolon itself: the loop stops at the semicolon without
    stepping over it, so it is read again as text. *)
Theorem zxml_unescape_ncr (ds suf : list Z) :
  Forall (fun c => 48 <= c <= 57) ds -> decimal ds < 2 ^ 21 ->
  let t := str "&#" ++ ds ++ str ";" in
  appends (fun b => zxml_unescape_string b (t ++ suf) (zlen t)) (zncr_decode (decimal ds) ++ str ";").
Proof.
  intros Hd Hv t. pose proof (decimal_mono ds 0 ltac:(lia) Hd) as Hnn. fold (decimal ds) in Hnn.
  assert (Ht : zlen t = 3 + zlen ds) by (unfold t; zlia).
  unfold zxml_unescape_string. zlen_facts. destruct (Z.ltb_spec (zlen t) 0); [lia|].
  cbn [mbind option_bind]. replace (Z.to_nat (zlen t)) with (S (S (S (length ds)))) by (unfold zlen in *; lia).
  cbn [unescape_loop]. destruct (Z.ltb_spec 0 (zlen t)); [|lia].
  assert (E0 : rd (t ++ suf) 0 = Some (chr "&")) by done.
  assert (E1 : rd (t ++ suf) (0 + 1) = Some (chr "#")) by done.
  rewrite E0. cbn [mbind option_bind]. change (chr "&" =? chr "<") with false.
  change (chr "&" =? chr "&") with true. cbn iota. rewrite E1. cbn [mbind option_bind].
  change (chr "#" =? chr "#") with true. cbn iota.
  eapply (writes_appends (xml_ncr _ _ _ _) _ _ _ (2 + zlen ds)).
  - unfold xml_ncr.
    assert (E2 : exists c, rd (t ++ suf) (0 + 1 + 1) = Some c /\ (c =? chr "x") || (c =? chr "X") = false).
    { destruct ds as [|c ds']; [by eexists|]. exists c. split; [done|].
      apply Forall_cons in Hd as [Hc _].
      destruct (Z.eqb_spec c 120), (Z.eqb_spec c 88); (done || lia). }
    destruct E2 as (c & -> & E2). cbn [mbind option_bind]. rewrite E2. cbn iota.
    pose proof (ncr_digits_decimal ds (S (S (S (S (length ds))))) (str "&#") suf (zlen t) 0 Hd
      ltac:(lia)) as E. fold (decimal ds) in E.
    replace (str "&#" ++ ds ++ chr ";" :: suf) with (t ++ suf) in E
      by (unfold t; rewrite <- !app_assoc; done).
    change (zlen (str "&#")) with 2 in E.
    change (0 + 1 + 1) with 2. rewrite E by lia. cbn [mbind option_bind].
    destruct (zncr_decode_utf8 (decimal ds) [] Hnn) as (Hu & _ & Hok).
    destruct (Hu Hv) as [_ Hlen]. destruct (Z.ltb_spec 0 (zlen (zncr_decode (decimal ds)))); [|lia].
    apply appends_writes_ret, appends_bytes; [done|unfold int_max; lia].
  - cbn beta iota. cbn [unescape_loop]. destruct (Z.ltb_spec (2 + zlen ds) (zlen t)); [|lia].
    replace (t ++ suf) with ((str "&#" ++ ds) ++ chr ";" :: suf)
      by (unfold t; rewrite <- !app_assoc; done).
    replace (2 + zlen ds) with (zlen (str "&#" ++ ds)) by zlia. rewrite rd_at.
    cbn [mbind option_bind]. change (chr ";" =? chr "<") with false.
    change (chr ";" =? chr "&") with false. cbn iota.
    apply (appends_ext _ (fun b => zbuf_put b (s8 (chr ";")))).
    { intros b. destruct (zbuf_put b _) as [b'|]; [|done]. cbn [mbind option_bind].
      destruct (Z.ltb_spec (zlen (str "&#" ++ ds) + 1) (zlen t)); [zlia|done]. }
    by apply appends_put.
Qed.

Lemma zxml_unescape_ncr_witness :
  appends (fun b => zxml_unescape_string b (str "&#65;" ++ [0]) 5) (str "A;").
Proof.
  apply (zxml_unescape_ncr (str "65") [0]).
  - repeat constructor; discriminate.
  - reflexivity.
Defined.
