(* ===== verification/Crc.v ===== *)
(** * Checksums: src/hash/crc16.c, crc32.c, crc64.c and the hash of zc.h

    The table-driven loops, the bitwise division by the generator polynomial
    they stand for, and the equivalence of the two. *)
From S2P Require Import Prelude.

Definition crc16tab : list Z := [
    0; 4129; 8258; 12387; 16516; 20645; 24774; 28903; 33032; 37161; 41290; 45419;
    49548; 53677; 57806; 61935; 4657; 528; 12915; 8786; 21173; 17044; 29431; 25302;
    37689; 33560; 45947; 41818; 54205; 50076; 62463; 58334; 9314; 13379; 1056; 5121;
    25830; 29895; 17572; 21637; 42346; 46411; 34088; 38153; 58862; 62927; 50604; 54669;
    13907; 9842; 5649; 1584; 30423; 26358; 22165; 18100; 46939; 42874; 38681; 34616;
    63455; 59390; 55197; 51132; 18628; 22757; 26758; 30887; 2112; 6241; 10242; 14371;
    51660; 55789; 59790; 63919; 35144; 39273; 43274; 47403; 23285; 19156; 31415; 27286;
    6769; 2640; 14899; 10770; 56317; 52188; 64447; 60318; 39801; 35672; 47931; 43802;
    27814; 31879; 19684; 23749; 11298; 15363; 3168; 7233; 60846; 64911; 52716; 56781;
    44330; 48395; 36200; 40265; 32407; 28342; 24277; 20212; 15891; 11826; 7761; 3696;
    65439; 61374; 57309; 53244; 48923; 44858; 40793; 36728; 37256; 33193; 45514; 41451;
    53516; 49453; 61774; 57711; 4224; 161; 12482; 8419; 20484; 16421; 28742; 24679;
    33721; 37784; 41979; 46042; 49981; 54044; 58239; 62302; 689; 4752; 8947; 13010;
    16949; 21012; 25207; 29270; 46570; 42443; 38312; 34185; 62830; 58703; 54572; 50445;
    13538; 9411; 5280; 1153; 29798; 25671; 21540; 17413; 42971; 47098; 34713; 38840;
    59231; 63358; 50973; 55100; 9939; 14066; 1681; 5808; 26199; 30326; 17941; 22068;
    55628; 51565; 63758; 59695; 39368; 35305; 47498; 43435; 22596; 18533; 30726; 26663;
    6336; 2273; 14466; 10403; 52093; 56156; 60223; 64286; 35833; 39896; 43963; 48026;
    19061; 23124; 27191; 31254; 2801; 6864; 10931; 14994; 64814; 60687; 56684; 52557;
    48554; 44427; 40424; 36297; 31782; 27655; 23652; 19525; 15522; 11395; 7392; 3265;
    61215; 65342; 53085; 57212; 44955; 49082; 36825; 40952; 28183; 32310; 20053; 24180;
    11923; 16050; 3793; 7920].

Definition crc32tab : list Z := [
    0; 1996959894; 3993919788; 2567524794; 124634137; 1886057615; 3915621685; 2657392035;
    249268274; 2044508324; 3772115230; 2547177864; 162941995; 2125561021; 3887607047; 2428444049;
    498536548; 1789927666; 4089016648; 2227061214; 450548861; 1843258603; 4107580753; 2211677639;
    325883990; 1684777152; 4251122042; 2321926636; 335633487; 1661365465; 4195302755; 2366115317;
    997073096; 1281953886; 3579855332; 2724688242; 1006888145; 1258607687; 3524101629; 2768942443;
    901097722; 1119000684; 3686517206; 2898065728; 853044451; 1172266101; 3705015759; 2882616665;
    651767980; 1373503546; 3369554304; 3218104598; 565507253; 1454621731; 3485111705; 3099436303;
    671266974; 1594198024; 3322730930; 2970347812; 795835527; 1483230225; 3244367275; 3060149565;
    1994146192; 31158534; 2563907772; 4023717930; 1907459465; 112637215; 2680153253; 3904427059;
    2013776290; 251722036; 2517215374; 3775830040; 2137656763; 141376813; 2439277719; 3865271297;
    1802195444; 476864866; 2238001368; 4066508878; 1812370925; 453092731; 2181625025; 4111451223;
    1706088902; 314042704; 2344532202; 4240017532; 1658658271; 366619977; 2362670323; 4224994405;
    1303535960; 984961486; 2747007092; 3569037538; 1256170817; 1037604311; 2765210733; 3554079995;
    1131014506; 879679996; 2909243462; 3663771856; 1141124467; 855842277; 2852801631; 3708648649;
    1342533948; 654459306; 3188396048; 3373015174; 1466479909; 544179635; 3110523913; 3462522015;
    1591671054; 702138776; 2966460450; 3352799412; 1504918807; 783551873; 3082640443; 3233442989;
    3988292384; 2596254646; 62317068; 1957810842; 3939845945; 2647816111; 81470997; 1943803523;
    3814918930; 2489596804; 225274430; 2053790376; 3826175755; 2466906013; 167816743; 2097651377;
    4027552580; 2265490386; 503444072; 1762050814; 4150417245; 2154129355; 426522225; 1852507879;
    4275313526; 2312317920; 282753626; 1742555852; 4189708143; 2394877945; 397917763; 1622183637;
    3604390888; 2714866558; 953729732; 1340076626; 3518719985; 2797360999; 1068828381; 1219638859;
    3624741850; 2936675148; 906185462; 1090812512; 3747672003; 2825379669; 829329135; 1181335161;
    3412177804; 3160834842; 628085408; 1382605366; 3423369109; 3138078467; 570562233; 1426400815;
    3317316542; 2998733608; 733239954; 1555261956; 3268935591; 3050360625; 752459403; 1541320221;
    2607071920; 3965973030; 1969922972; 40735498; 2617837225; 3943577151; 1913087877; 83908371;
    2512341634; 3803740692; 2075208622; 213261112; 2463272603; 3855990285; 2094854071; 198958881;
    2262029012; 4057260610; 1759359992; 534414190; 2176718541; 4139329115; 1873836001; 414664567;
    2282248934; 4279200368; 1711684554; 285281116; 2405801727; 4167216745; 1634467795; 376229701;
    2685067896; 3608007406; 1308918612; 956543938; 2808555105; 3495958263; 1231636301; 1047427035;
    2932959818; 3654703836; 1088359270; 936918000; 2847714899; 3736837829; 1202900863; 817233897;
    3183342108; 3401237130; 1404277552; 615818150; 3134207493; 3453421203; 1423857449; 601450431;
    3009837614; 3294710456; 1567103746; 711928724; 3020668471; 3272380065; 1510334235; 755167117].

Definition crc64_tab : list Z := [
    0; 8851949072701294969; 17703898145402589938; 10333669153493130123;
    13851072938616403599; 13465927519055396854; 3857338458010461309; 5715195658523061508;
    12333367839138578037; 15127763206205961996; 6816212484437830791; 2612226237385041406;
    7714676916020922618; 1281407202545942915; 11430391317046123016; 16463076249205199729;
    9009731685717012353; 563108230357313272; 9851657908567506291; 17465080730062222346;
    13632424968875661582; 14404880506683019383; 5224452474770082812; 3627802401766982277;
    15429353832041845236; 12463821128841762957; 2562814405091885830; 6433535930597116543;
    1592294032496338811; 7836410910743637506; 16404387395731993993; 11056451039949864176;
    18019463371434024706; 9280105458721969787; 1126216460714626544; 8464919223366468745;
    4190910634541279629; 4679640014836523252; 14959263154764675967; 13060872525739979270;
    5852729821509460343; 3161916214005835790; 11856275032257016709; 16019730051968187132;
    10448904949540165624; 16994763621833383553; 7255604803533964554; 2191395843288271987;
    9734813498046853251; 18285020776702097914; 8262382231073956465; 608425843627928328;
    5125628810183771660; 4465764294926438261; 12867071861194233086; 14432195567501024647;
    3184588064992677622; 6262709589572306831; 15672821821487275012; 11770576130456212861;
    17008134862606432377; 10867599606483677440; 1853769023980628619; 7161174014982448114;
    16103423924954344815; 11935289383220651030; 3083341959784644509; 5769757520242456292;
    2252432921429253088; 7321251034957484697; 16929838446732937490; 10388307452745547883;
    8381821269082559258; 1047727658635319907; 9359280029673046504; 18102965619612993681;
    13000435797616977301; 14894146905688698092; 4745161141923116903; 4252033715651608094;
    11705459643018920686; 15612384854998895511; 6323832428011671580; 3250108949404244325;
    7082685524280996961; 1770671381070249240; 10951102161764411027; 17087309740654948330;
    674072313427442843; 8323419547594995170; 18224423522563763817; 9669888565606754064;
    14511209607067929108; 12950765422787986285; 4382791686576543974; 5047054248884015519;
    2696289253709771373; 6895947823530343188; 15049839570318909599; 12250835051042597350;
    16524764462147912930; 11496477575961038235; 1216851687255856656; 7654800921679748969;
    10251257620367543320; 17625884659327141217; 8931528589852876522; 84259039178430355;
    5655163293556783767; 3792978414742418414; 13532134484260726885; 13912670750543257884;
    6369176129985355244; 2502782282785952917; 12525419179144613662; 15495561035627234919;
    10978437246791527267; 16321975555527844378; 7920669638525335953; 1671873238255513832;
    17531166746306175897; 9913345878835194592; 503231997654823275; 8945175932061546514;
    3707538047961257238; 5308515798192249967; 14322348029964896228; 13554501644362141341;
    10785157014839085493; 17254666630495879372; 6925536469308201799; 1928669229005230654;
    6166683919569289018; 3408106242218915395; 11539515040484912584; 15779741191858611377;
    4504865842858506176; 4925828954283753145; 14642502069914969394; 12820884771576065099;
    18355716529793696079; 9540007361421969462; 796147016248169405; 8202193697865996996;
    16763642538165118516; 10555343349626187597; 2095455317270639814; 7479631577382337983;
    2926364910754730171; 5928137516128508354; 15937228569359352393; 12102324735718361904;
    4867406749023426625; 4131191115536978232; 13131477498808912563; 14763945261529023434;
    9490322283846233806; 17972763431062038455; 8504067431303216188; 926884511990314309;
    8051711962477172407; 1541670979892322254; 11100683476643087429; 16201132341218348348;
    12647664856023343160; 15374718365700663617; 6500217898808488650; 2372580570961558451;
    14165371048561993922; 13712881572587659707; 3541342762140498480; 5475551080882205513;
    337036156713721421; 9112211761281881908; 17374189211922025663; 10071726351451997638;
    1348144626854885686; 7524919785159454799; 16646839095189990340; 11375251796044276413;
    15171913658969673657; 12129609824107054784; 2827581646778391883; 6766067242130363442;
    13374985906044110659; 14070668113165684282; 5489218623395763633; 3960334819262667976;
    8765583373153087948; 251615998827411637; 10094108497768031038; 17783882574922426951;
    5392578507419542746; 3462768234654100899; 13791895647060686376; 14249064643987996497;
    10011129131143811669; 17309264314385947436; 9177858264896848039; 398073508124084702;
    16284634862666717871; 11179858319785628630; 1463182455377365085; 7968614284679676196;
    2433703374511713312; 6565738749404456281; 15309601843359497938; 12587227855704700843;
    4025855981238586203; 5550341738321543714; 14010231419946703273; 13309869690798280912;
    17863057179705753044; 10177610780853122221; 168518078356860710; 8687094605961012831;
    11310326587113567534; 16586241563491499095; 7585956829484836828; 1413790823389195941;
    6687492953022055329; 2744609311697881816; 12213303662187237715; 15250927976100943914;
    12738352259970710488; 14564578711588090529; 5005564565571905834; 4588929132448424019;
    8142317431333358935; 731591227688682542; 9606093343850471333; 18417404465172059868;
    2012927990619293101; 7005115709973351636; 17176652871151048543; 10702745209522052646;
    15841339277050671906; 11605722277885901403; 3343746476511027664; 6106651831093618857;
    14830152191845028953; 13193075276920315168; 4071158715666679467; 4803046671925235666;
    1006463995309646550; 8588326435575524271; 17890351864123093028; 9412308762883553629;
    7415076095922514476; 2035579357833339733; 10617031596384499934; 16829728831969243559;
    12024401134718426275; 15854695815076877786; 6012200567359213137; 3006100283679606568].

(** ** The loops *)
Definition crc16_byte (crc c : Z) : Z :=
  u16 (Z.lxor (Z.shiftl crc 8)
         (nth (Z.to_nat (Z.land (Z.lxor (Z.shiftr crc 8) (s8 c)) 255)) crc16tab 0)).
Definition zcrc16 (data : list Z) (len init_value : Z) : option Z :=
  l ← read_bytes data len; Some (foldl crc16_byte init_value l).

Definition crc32_byte (crc c : Z) : Z :=
  Z.lxor (Z.land (Z.shiftr crc 8) 16777215)
    (nth (Z.to_nat (Z.land (Z.lxor crc (u32 (s8 c))) 255)) crc32tab 0).
(** [for (; len--; p++)]: a negative length runs out of the block. *)
Definition zcrc32 (data : list Z) (size init_value : Z) : option Z :=
  l ← (if size <? 0 then None else read_bytes data size);
  Some (Z.lxor (foldl crc32_byte (Z.lxor init_value 4294967295) l) 4294967295).

Definition crc64_byte (crc c : Z) : Z :=
  Z.lxor (nth (Z.to_nat (Z.lxor (u8 crc) c)) crc64_tab 0) (Z.shiftr crc 8).
Definition zcrc64 (data : list Z) (size init_value : Z) : option Z :=
  l ← read_bytes data size; Some (foldl crc64_byte init_value l).

Definition djb_byte (hash c : Z) : Z := Z.lxor (u32 (hash + u32 (Z.shiftl hash 5))) c.
Definition zhash_djb_with_initial (buf : list Z) (len initial : Z) : option Z :=
  l ← read_bytes buf len; Some (foldl djb_byte initial l).
Definition zhash_djb (buf : list Z) (len : Z) : option Z := zhash_djb_with_initial buf len 5381.

(** ** The polynomial division, one bit at a time *)

(** Least significant bit first (CRC-32, CRC-64). *)
Definition lsb_step (poly c : Z) : Z :=
  Z.lxor (Z.shiftr c 1) (if Z.odd c then poly else 0).
Definition lsb_byte (poly crc c : Z) : Z := Nat.iter 8 (lsb_step poly) (Z.lxor crc c).
(** Most significant bit of 16 first (CRC-16/XMODEM). *)
Definition msb_step (poly c : Z) : Z :=
  Z.lxor (u16 (Z.shiftl c 1)) (if Z.testbit c 15 then poly else 0).
Definition msb_byte (poly crc c : Z) : Z := Nat.iter 8 (msb_step poly) (Z.lxor crc (Z.shiftl c 8)).

Definition poly16 : Z := 0x1021.
Definition poly32 : Z := 0xEDB88320.
Definition poly64 : Z := 0x95ac9329ac4bc9b5.

Definition crc16_ref (init : Z) (l : list Z) : Z := foldl (msb_byte poly16) init l.
Definition crc32_ref (init : Z) (l : list Z) : Z :=
  Z.lxor (foldl (lsb_byte poly32) (Z.lxor init 0xFFFFFFFF) l) 0xFFFFFFFF.
Definition crc64_ref (init : Z) (l : list Z) : Z := foldl (lsb_byte poly64) init l.

(** ** Linearity over exclusive or *)
Section linear.
Variable f : Z -> Z.
Hypothesis f_lxor : forall a b, f (Z.lxor a b) = Z.lxor (f a) (f b).

Lemma iter_lxor n a b : Nat.iter n f (Z.lxor a b) = Z.lxor (Nat.iter n f a) (Nat.iter n f b).
Proof using f_lxor. induction n as [|n IH]; [done|]. simpl. by rewrite IH, f_lxor. Qed.
End linear.

Lemma if_lxor (a b : bool) p :
  (if xorb a b then p else 0) = Z.lxor (if a then p else 0) (if b then p else 0).
Proof. destruct a, b; simpl; rewrite ?Z.lxor_nilpotent, ?Z.lxor_0_r, ?Z.lxor_0_l; done. Qed.

Lemma lxor_swap a b c d : Z.lxor (Z.lxor a b) (Z.lxor c d) = Z.lxor (Z.lxor a c) (Z.lxor b d).
Proof. rewrite !Z.lxor_assoc. f_equal. rewrite <- !Z.lxor_assoc. f_equal. apply Z.lxor_comm. Qed.

Lemma lsb_step_lxor p a b : lsb_step p (Z.lxor a b) = Z.lxor (lsb_step p a) (lsb_step p b).
Proof.
  unfold lsb_step. rewrite Z.shiftr_lxor, <- !Z.bit0_odd, Z.lxor_spec, if_lxor.
  apply lxor_swap.
Qed.

Lemma u16_land z : u16 z = Z.land z (Z.ones 16).
Proof. by rewrite Z.land_ones. Qed.

Lemma u16_lxor a b : u16 (Z.lxor a b) = Z.lxor (u16 a) (u16 b).
Proof. rewrite !u16_land. apply Z.bits_inj'. intros i Hi.
  rewrite !Z.land_spec, !Z.lxor_spec, !Z.land_spec.
  by destruct (Z.testbit a i), (Z.testbit b i), (Z.testbit (Z.ones 16) i).
Qed.

Lemma msb_step_lxor p a b : msb_step p (Z.lxor a b) = Z.lxor (msb_step p a) (msb_step p b).
Proof.
  unfold msb_step. rewrite Z.shiftl_lxor, u16_lxor, Z.lxor_spec, if_lxor. apply lxor_swap.
Qed.

(** A number is its low byte and the rest. *)
Lemma low_byte x : Z.lxor (Z.land x 255) (Z.shiftl (Z.shiftr x 8) 8) = x.
Proof.
  apply Z.bits_inj'. intros i Hi. change 255 with (Z.ones 8).
  rewrite Z.lxor_spec, Z.land_spec, Z.testbit_ones, Z.shiftl_spec by lia.
  destruct (Z.leb_spec 0 i); [|lia]. destruct (Z.ltb_spec i 8).
  - rewrite (Z.testbit_neg_r _ (i - 8)) by lia. simpl. by rewrite andb_true_r, xorb_false_r.
  - simpl. rewrite Z.shiftr_spec by lia. rewrite andb_false_r, xorb_false_l. f_equal. lia.
Qed.

Lemma lsb_shift p y n : 0 <= n -> lsb_step p (Z.shiftl y (Z.succ n)) = Z.shiftl y n.
Proof.
  intros Hn. unfold lsb_step. rewrite <- Z.bit0_odd, Z.shiftl_spec, Z.testbit_neg_r by lia.
  rewrite Z.lxor_0_r, Z.shiftr_shiftl_l by lia. f_equal. lia.
Qed.

Lemma lsb_iter_high p y : Nat.iter 8 (lsb_step p) (Z.shiftl y 8) = y.
Proof.
  simpl. change 8 with (Z.succ 7). rewrite lsb_shift by lia. change 7 with (Z.succ 6).
  rewrite lsb_shift by lia. change 6 with (Z.succ 5). rewrite lsb_shift by lia.
  change 5 with (Z.succ 4). rewrite lsb_shift by lia. change 4 with (Z.succ 3).
  rewrite lsb_shift by lia. change 3 with (Z.succ 2). rewrite lsb_shift by lia.
  change 2 with (Z.succ 1). rewrite lsb_shift by lia. change 1 with (Z.succ 0).
  rewrite lsb_shift by lia. apply Z.shiftl_0_r.
Qed.

Lemma land_255_byte x : byte_ok (Z.land x 255).
Proof. rewrite land_255. apply Z.mod_pos_bound. lia. Qed.

(** Eight steps are one look-up, for a table of the eight steps of each byte. *)
Lemma lsb_table p tb x :
  forallb (fun i => Nat.iter 8 (lsb_step p) i =? nth (Z.to_nat i) tb 0) all_bytes = true ->
  Nat.iter 8 (lsb_step p) x =
  Z.lxor (nth (Z.to_nat (Z.land x 255)) tb 0) (Z.shiftr x 8).
Proof.
  intros H. rewrite <- (low_byte x) at 1.
  rewrite iter_lxor by apply lsb_step_lxor. rewrite lsb_iter_high. f_equal.
  apply Z.eqb_eq.
  exact (byte_forall (fun i => Nat.iter 8 (lsb_step p) i =? nth (Z.to_nat i) tb 0) H _
    (land_255_byte x)).
Qed.

Lemma shiftr_lxor_byte crc c : byte_ok c -> Z.shiftr (Z.lxor crc c) 8 = Z.shiftr crc 8.
Proof.
  intros Hc. rewrite Z.shiftr_lxor. replace (Z.shiftr c 8) with 0; [apply Z.lxor_0_r|].
  unfold byte_ok in Hc. rewrite shiftr_div by lia. zdiv.
Qed.

Lemma land_lxor a b m : Z.land (Z.lxor a b) m = Z.lxor (Z.land a m) (Z.land b m).
Proof.
  apply Z.bits_inj'. intros i Hi. rewrite !Z.land_spec, !Z.lxor_spec, !Z.land_spec.
  by destruct (Z.testbit a i), (Z.testbit b i), (Z.testbit m i).
Qed.

Lemma land_byte c : byte_ok c -> Z.land c 255 = c.
Proof. unfold byte_ok. intros. rewrite land_255. by apply Z.mod_small. Qed.

Lemma crc64_byte_eq crc c : byte_ok c -> crc64_byte crc c = lsb_byte poly64 crc c.
Proof.
  intros Hc. unfold crc64_byte, lsb_byte. rewrite (lsb_table poly64 crc64_tab) by (by vm_compute).
  rewrite shiftr_lxor_byte, land_lxor, (land_byte c), land_255 by done. done.
Qed.

(** A CRC-32 stays below [2^32], so that the mask of the shifted value is
    idle. *)
Lemma lxor_range n a b : 0 <= n -> 0 <= a < 2 ^ n -> 0 <= b < 2 ^ n -> 0 <= Z.lxor a b < 2 ^ n.
Proof.
  intros Hn Ha Hb. replace (Z.lxor a b) with (Z.lxor a b mod 2 ^ n).
  { apply Z.mod_pos_bound. lia. }
  rewrite <- Z.land_ones, land_lxor, !Z.land_ones by done. by rewrite !Z.mod_small.
Qed.

Lemma nth_range n tb i : forallb (fun v => (0 <=? v) && (v <? 2 ^ n)) tb = true ->
  0 < 2 ^ n -> 0 <= nth i tb 0 < 2 ^ n.
Proof.
  intros H Hn. rewrite forallb_forall in H.
  destruct (nth_in_or_default i tb 0) as [Hi| ->]; [|lia].
  specialize (H _ Hi). simpl in H. lia.
Qed.

Lemma crc32_low crc c : byte_ok c ->
  Z.land (Z.lxor crc (u32 (s8 c))) 255 = Z.land (Z.lxor crc c) 255.
Proof.
  intros Hc. rewrite !land_lxor. f_equal. apply Z.eqb_eq. revert c Hc.
  by apply (byte_forall (fun c => Z.land (u32 (s8 c)) 255 =? Z.land c 255)); vm_compute.
Qed.

Lemma crc32_byte_eq crc c : byte_ok c -> 0 <= crc < 2 ^ 32 ->
  crc32_byte crc c = lsb_byte poly32 crc c /\ 0 <= crc32_byte crc c < 2 ^ 32.
Proof.
  intros Hc Hcrc. unfold crc32_byte, lsb_byte.
  rewrite (lsb_table poly32 crc32tab) by (by vm_compute).
  rewrite shiftr_lxor_byte, crc32_low by done. rewrite (land_mask _ 24) by lia.
  assert (0 <= Z.shiftr crc 8 < 2 ^ 24) by (rewrite shiftr_div by lia; zdiv).
  rewrite Z.mod_small by done. rewrite Z.lxor_comm. split; [done|].
  apply lxor_range; [lia|apply nth_range; [by vm_compute|lia]|lia].
Qed.

Lemma msb_low i : byte_ok i -> Nat.iter 8 (msb_step poly16) i = Z.shiftl i 8.
Proof.
  intros Hi. apply Z.eqb_eq. revert i Hi.
  by apply (byte_forall (fun i => Nat.iter 8 (msb_step poly16) i =? Z.shiftl i 8)); vm_compute.
Qed.
Lemma msb_high i : byte_ok i ->
  Nat.iter 8 (msb_step poly16) (Z.shiftl i 8) = nth (Z.to_nat i) crc16tab 0.
Proof.
  intros Hi. apply Z.eqb_eq. revert i Hi.
  by apply (byte_forall (fun i => Nat.iter 8 (msb_step poly16) (Z.shiftl i 8) =?
    nth (Z.to_nat i) crc16tab 0)); vm_compute.
Qed.

Lemma crc16_index crc c : 0 <= crc < 2 ^ 16 -> byte_ok c ->
  Z.land (Z.lxor (Z.shiftr crc 8) (s8 c)) 255 = Z.lxor (Z.shiftr crc 8) c.
Proof.
  intros Hcrc Hc. rewrite land_lxor. f_equal.
  - apply land_byte. unfold byte_ok. rewrite shiftr_div by lia. zdiv.
  - apply Z.eqb_eq. revert c Hc.
    by apply (byte_forall (fun c => Z.land (s8 c) 255 =? c)); vm_compute.
Qed.

Lemma u16_shift8 crc : u16 (Z.shiftl crc 8) = Z.shiftl (Z.land crc 255) 8.
Proof.
  rewrite land_255. change (u16 (Z.shiftl crc 8)) with (Z.shiftl crc 8 mod 2 ^ 16).
  rewrite !shiftl_mul by lia. zdiv.
Qed.

Lemma crc16_byte_eq crc c : 0 <= crc < 2 ^ 16 -> byte_ok c ->
  crc16_byte crc c = msb_byte poly16 crc c /\ 0 <= crc16_byte crc c < 2 ^ 16.
Proof.
  intros Hcrc Hc. split; [|apply (uwrap_range 16); lia].
  unfold crc16_byte, msb_byte. rewrite crc16_index by done.
  set (hi := Z.lxor (Z.shiftr crc 8) c).
  assert (Hhi : byte_ok hi).
  { apply (lxor_range 8); [lia| |exact Hc]. rewrite shiftr_div by lia. zdiv. }
  assert (E : Z.lxor crc (Z.shiftl c 8) = Z.lxor (Z.land crc 255) (Z.shiftl hi 8)).
  { unfold hi. rewrite Z.shiftl_lxor, <- Z.lxor_assoc, low_byte. done. }
  rewrite E, iter_lxor by apply msb_step_lxor.
  rewrite msb_low, msb_high by (done || apply land_255_byte).
  rewrite u16_lxor, u16_shift8. f_equal. apply uwrap_small.
  apply nth_range; [by vm_compute|lia].
Qed.

(** ** Whole inputs *)
Lemma foldl_eq {A} (f g : A -> Z -> A) (P : A -> Prop) l :
  (forall a c, P a -> byte_ok c -> f a c = g a c /\ P (f a c)) ->
  bytes_ok l -> forall a, P a -> foldl f a l = foldl g a l /\ P (foldl f a l).
Proof.
  intros H Hl. induction Hl as [|c l Hc Hl IH]; intros a Ha; [done|].
  simpl. destruct (H a c Ha Hc) as [E HP]. rewrite <- E. by apply IH.
Qed.

Lemma read_bytes_full m : read_bytes m (zlen m) = Some m.
Proof.
  unfold read_bytes. destruct (Z.leb_spec (zlen m) (zlen m)); [|lia].
  f_equal. apply firstn_all2. unfold zlen. lia.
Qed.

(** C39: the three table-driven checksums are the bitwise division by their
    generator polynomials (0x1021 most significant bit first; 0xEDB88320 and
    0x95AC9329AC4BC9B5 least significant bit first), on every input and every
    initial value of their width. *)
Theorem crc_tables_divide (l : list Z) (init16 init32 init64 : Z) :
  bytes_ok l -> 0 <= init16 < 2 ^ 16 -> 0 <= init32 < 2 ^ 32 ->
  zcrc16 l (zlen l) init16 = Some (crc16_ref init16 l) /\
  zcrc32 l (zlen l) init32 = Some (crc32_ref init32 l) /\
  zcrc64 l (zlen l) init64 = Some (crc64_ref init64 l).
Proof.
  intros Hl H16 H32. unfold zcrc16, zcrc32, zcrc64. zlen_facts.
  destruct (Z.ltb_spec (zlen l) 0); [lia|]. rewrite read_bytes_full. simpl.
  unfold crc16_ref, crc32_ref, crc64_ref. repeat split; f_equal.
  - apply (foldl_eq _ _ (fun crc => 0 <= crc < 2 ^ 16)); [|done..].
    intros. by apply crc16_byte_eq.
  - f_equal. apply (foldl_eq _ _ (fun crc => 0 <= crc < 2 ^ 32)); [|done|].
    + intros. by apply crc32_byte_eq.
    + apply lxor_range; lia.
  - apply (foldl_eq _ _ (fun _ => True)); [|done..]. intros. by rewrite crc64_byte_eq.
Qed.

(** "123456789" gives the check value the comment of crc16.c announces, and
    those of the other two algorithms. *)
Lemma crc_tables_divide_witness :
  let l := str "123456789" in
  zcrc16 l 9 0 = Some 0x31C3 /\ crc16_ref 0 l = 0x31C3 /\
  crc32_ref 0 l = 0xCBF43926 /\ crc64_ref 0 l = 0xE9C6D914C4B8D9CA.
Proof.
  destruct (crc_tables_divide (str "123456789") 0 0 0) as (H & _ & _);
    [apply (bool_decide_unpack _); vm_compute; exact I|lia|lia|].
  split; [exact H|]. vm_compute. repeat split.
Defined.

(** Checksums can be computed in pieces: continuing from the checksum of
    a prefix gives the checksum of the whole, for the three of them and for
    the hash. *)
Theorem crc_incremental (x y : list Z) (init : Z) :
  (zcrc16 x (zlen x) init ≫= fun c => zcrc16 y (zlen y) c) = zcrc16 (x ++ y) (zlen (x ++ y)) init /\
  (zcrc32 x (zlen x) init ≫= fun c => zcrc32 y (zlen y) c) = zcrc32 (x ++ y) (zlen (x ++ y)) init /\
  (zcrc64 x (zlen x) init ≫= fun c => zcrc64 y (zlen y) c) = zcrc64 (x ++ y) (zlen (x ++ y)) init /\
  (zhash_djb_with_initial x (zlen x) init ≫= fun h => zhash_djb_with_initial y (zlen y) h) =
    zhash_djb_with_initial (x ++ y) (zlen (x ++ y)) init.
Proof.
  unfold zcrc16, zcrc32, zcrc64, zhash_djb_with_initial. zlen_facts.
  destruct (Z.ltb_spec (zlen x) 0), (Z.ltb_spec (zlen y) 0), (Z.ltb_spec (zlen (x ++ y)) 0);
    try lia; []. rewrite !read_bytes_full. simpl. rewrite !foldl_app. simpl.
  repeat split. by rewrite Z.lxor_assoc, Z.lxor_nilpotent, Z.lxor_0_r.
Qed.
