(* ===== verification/Cint.v ===== *)
(** * Integers on the wire

    The fixed-width integers of zc.h ([zint_pack], big endian) and the
    variable-length ones of src/stdlib/cint_and_data.c: groups of seven bits,
    least significant first, the top bit set on the last. *)
From S2P Require Import Prelude Buf.

(** ** Fixed width (zc.h) *)
Definition zint_unpack (buf : list Z) : option Z :=
  n ← rd buf 0;
  c ← rd buf 1; let n := Z.lor (u32 (Z.shiftl n 8)) c in
  c ← rd buf 2; let n := Z.lor (u32 (Z.shiftl n 8)) c in
  c ← rd buf 3; let n := Z.lor (u32 (Z.shiftl n 8)) c in
  Some n.
Definition zint_pack (num : Z) (buf : list Z) : option (list Z) :=
  p ← wr buf 3 (Z.land num 255); let num := Z.shiftr num 8 in
  p ← wr p 2 (Z.land num 255); let num := Z.shiftr num 8 in
  p ← wr p 1 (Z.land num 255); let num := Z.shiftr num 8 in
  wr p 0 (Z.land num 255).

Definition zint_unpack3 (buf : list Z) : option Z :=
  n ← rd buf 0;
  c ← rd buf 1; let n := Z.lor (u32 (Z.shiftl n 8)) c in
  c ← rd buf 2; let n := Z.lor (u32 (Z.shiftl n 8)) c in
  Some n.
Definition zint_pack3 (num : Z) (buf : list Z) : option (list Z) :=
  p ← wr buf 2 (Z.land num 255); let num := Z.shiftr num 8 in
  p ← wr p 1 (Z.land num 255); let num := Z.shiftr num 8 in
  wr p 0 (Z.land num 255).

Definition zint_unpack2 (buf : list Z) : option Z :=
  n ← rd buf 0;
  c ← rd buf 1; let n := Z.lor (u32 (Z.shiftl n 8)) c in
  Some n.
Definition zint_pack2 (num : Z) (buf : list Z) : option (list Z) :=
  p ← wr buf 1 (Z.land num 255); let num := Z.shiftr num 8 in
  wr p 0 (Z.land num 255).

(** ** Variable length: writing *)

(** [do { ch = left & 0177; left >>= 7; if (!left) ch |= 0200; PUT(ch); } while (left)] *)
Fixpoint escape_len (fuel : nat) (left : Z) (b : zbuf) : option zbuf :=
  match fuel with
  | O => None
  | S fuel' =>
      let ch := Z.land left 127 in
      let left := Z.shiftr left 7 in
      let ch := if left =? 0 then Z.lor ch 128 else ch in
      b ← ZBUF_PUT b ch;
      if left =? 0 then Some b else escape_len fuel' left b
  end.

(** Five groups cover the 31 bits of a length; a negative [left] never becomes
    0 (see [zcint_escape_negative_diverges]). *)
Definition cint_fuel : nat := 5.

(** [left = len] is taken before a negative [len] is replaced by [strlen]. *)
Definition zcint_data_escape (b : zbuf) (data : list Z) (len : Z) : option zbuf :=
  let left := len in
  len ← (if len <? 0 then s32 <$> (zlen <$> cstr data) else Some len);
  b ← escape_len cint_fuel left b;
  if 0 <? len then zbuf_memcat b data len else Some b.

Definition zcint_data_escape_int (b : zbuf) (i : Z) : option zbuf :=
  zcint_data_escape b (fmt_zd i ++ [0]) (zlen (fmt_zd i)).
Definition zcint_data_escape_long (b : zbuf) (i : Z) : option zbuf :=
  zcint_data_escape b (fmt_zd i ++ [0]) (zlen (fmt_zd i)).
(** [ZDICT_WALK]: the keys and values in the order of the dictionary. *)
Fixpoint zcint_data_escape_dict (b : zbuf) (zd : list (list Z * zbuf)) : option zbuf :=
  match zd with
  | [] => Some b
  | (k, v) :: zd' =>
      b ← zcint_data_escape b k (-1);
      l ← zbuf_bytes v;
      b ← zcint_data_escape b l (bf_len v);
      zcint_data_escape_dict b zd'
  end.
Fixpoint zcint_data_escape_pp (b : zbuf) (pp : list (list Z)) : option zbuf :=
  match pp with
  | [] => Some b
  | p :: pp' => b ← zcint_data_escape b p (-1); zcint_data_escape_pp b pp'
  end.

Fixpoint cint_put_loop (fuel : nat) (left : Z) (buf : list Z) (len : Z) : option (list Z * Z) :=
  match fuel with
  | O => None
  | S fuel' =>
      let ch := Z.land left 127 in
      let left := Z.shiftr left 7 in
      let ch := if left =? 0 then Z.lor ch 128 else ch in
      buf ← wr buf len ch;
      if left =? 0 then Some (buf, len + 1) else cint_put_loop fuel' left buf (len + 1)
  end.
Definition zcint_put (size : Z) (buf : list Z) : option (list Z * Z) :=
  cint_put_loop cint_fuel size buf 0.

(** ** Variable length: reading

    [m] is the block behind the pointer, [off] the pointer, [i] the count the
    code compares with [src_size]. [Some None] is the end of the input;
    [None] a read outside the block or a shift by 32 or more. *)
Fixpoint unescape_len (fuel : nat) (m : list Z) (src_size off i len shift : Z)
    : option (option (Z * Z * Z)) :=
  match fuel with
  | O => None
  | S fuel' =>
      if i =? src_size then Some None else
      ch ← rd m off;
      if 31 <? shift then None else
      let len := Z.lor len (s32 (Z.shiftl (Z.land ch 127) shift)) in
      if negb (Z.land ch 128 =? 0) then Some (Some (len, i + 1, off + 1))
      else unescape_len fuel' m src_size (off + 1) (i + 1) len (shift + 7)
  end.

(** The result: [None] for -1, or the offset and length of the data and the
    number of bytes used. *)
Definition zcint_data_unescape (m : list Z) (src_size : Z) : option (option (Z * Z * Z)) :=
  r ← unescape_len (S (length m)) m src_size 0 0 0 0;
  match r with
  | None => Some None
  | Some (len, i, off) =>
      sum ← as_int (i + len);
      if src_size <? sum then Some None else Some (Some (off, len, sum))
  end.

(** The vector of (offset, length) pairs; [n] slots are left. *)
Fixpoint unescape_all_loop (n : nat) (m : list Z) (src_size off : Z) : option (list (Z * Z)) :=
  match n with
  | O => Some []
  | S n' =>
      r ← unescape_len (S (length m)) m src_size off 0 0 0;
      match r with
      | None => Some []
      | Some (len, i, off) =>
          sum ← as_int (i + len);
          if src_size <? sum then Some []
          else cons (off, len) <$> unescape_all_loop n' m src_size (off + len)
      end
  end.
Definition zcint_data_unescape_all (m : list Z) (src_size vec_size : Z) : option (list (Z * Z)) :=
  unescape_all_loop (Z.to_nat vec_size) m src_size 0.

(** ** Specification *)
Fixpoint cint_enc_fuel (fuel : nat) (n : Z) : list Z :=
  match fuel with
  | O => []
  | S fuel' => if n <? 128 then [n + 128] else n mod 128 :: cint_enc_fuel fuel' (n / 128)
  end.
Definition cint_enc (n : Z) : list Z := cint_enc_fuel cint_fuel n.
Definition cint_data (l : list Z) : list Z := cint_enc (zlen l) ++ l.

(** ** Fixed width: round trips *)
Lemma or_byte n c : 0 <= n < 2 ^ 24 -> byte_ok c -> Z.lor (u32 (Z.shiftl n 8)) c = n * 256 + c.
Proof.
  intros Hn Hc. rewrite shiftl_mul by lia. rewrite uwrap_small by lia.
  by apply (lor_mul_add 8).
Qed.

Lemma or_byte3 a b c : byte_ok a -> byte_ok b -> byte_ok c ->
  Z.lor (u32 (Z.shiftl (Z.lor (u32 (Z.shiftl a 8)) b) 8)) c = a * 2 ^ 16 + b * 2 ^ 8 + c.
Proof. unfold byte_ok. intros. rewrite (or_byte a), or_byte by (unfold byte_ok; lia). lia. Qed.
Lemma or_byte4 a b c d : byte_ok a -> byte_ok b -> byte_ok c -> byte_ok d ->
  Z.lor (u32 (Z.shiftl (Z.lor (u32 (Z.shiftl (Z.lor (u32 (Z.shiftl a 8)) b) 8)) c) 8)) d =
  a * 2 ^ 24 + b * 2 ^ 16 + c * 2 ^ 8 + d.
Proof.
  unfold byte_ok. intros. rewrite (or_byte3 a b c), or_byte by (unfold byte_ok; lia). lia.
Qed.

Lemma split4 {A} (l : list A) : 4 <= zlen l ->
  exists a b c d r, l = a :: b :: c :: d :: r.
Proof.
  destruct l as [|a [|b [|c [|d r]]]]; unfold zlen; simpl; [lia..|]. intros _.
  by exists a, b, c, d, r.
Qed.

(** Evaluate reads and writes at the constant indices 0 to 3. *)
Ltac nat_index :=
  cbn; change (Z.to_nat 0) with 0%nat; change (Z.to_nat 1) with 1%nat;
  change (Z.to_nat 2) with 2%nat; change (Z.to_nat 3) with 3%nat; cbn.

(** Packing an unsigned 32-bit integer into the first 4, 3 or 2 bytes of a
    block and unpacking them gives the integer back, modulo the width; the
    bytes are big endian and the rest of the block is untouched. *)
Theorem zint_pack_roundtrip (num : Z) (buf : list Z) :
  0 <= num < 2 ^ 32 -> 4 <= zlen buf ->
  (exists p, zint_pack num buf = Some p /\ zint_unpack p = Some num /\
     p = [num / 2 ^ 24; num / 2 ^ 16 mod 256; num / 2 ^ 8 mod 256; num mod 256] ++ drop 4 buf) /\
  (exists p, zint_pack3 num buf = Some p /\ zint_unpack3 p = Some (num mod 2 ^ 24) /\
     p = [num / 2 ^ 16 mod 256; num / 2 ^ 8 mod 256; num mod 256] ++ drop 3 buf) /\
  (exists p, zint_pack2 num buf = Some p /\ zint_unpack2 p = Some (num mod 2 ^ 16) /\
     p = [num / 2 ^ 8 mod 256; num mod 256] ++ drop 2 buf).
Proof.
  intros Hn (a & b & c & d & r & ->)%split4.
  assert (Hw : forall (p : list Z) i v, 0 <= i < 4 -> 4 <= zlen p ->
    wr p i v = Some (<[Z.to_nat i := v]> p)) by (intros; apply wr_Some; lia).
  unfold zint_pack, zint_pack3, zint_pack2.
  unfold zint_unpack, zint_unpack3, zint_unpack2.
  repeat split; repeat (rewrite Hw by (simpl; zlia); cbn [mbind option_bind]);
    eexists; (split; [reflexivity|]); nat_index;
    (split; [nat_index|repeat f_equal; zbits]);
    rewrite ?or_byte4, ?or_byte3, ?(or_byte _ _) by (rewrite land_255; unfold byte_ok; zdiv);
    f_equal; zbits.
Qed.

Lemma zint_pack_roundtrip_witness : exists p, zint_pack 0xCAFEBABE [0; 1; 2; 3; 4] = Some p /\
  zint_unpack p = Some 0xCAFEBABE.
Proof.
  destruct (zint_pack_roundtrip 0xCAFEBABE [0; 1; 2; 3; 4]) as [(p & H & H' & _) _].
  - lia.
  - vm_compute. discriminate.
  - exists p. split; [exact H|exact H'].
Defined.

(** ** Variable length: round trip *)
Lemma cint_enc_S k n : cint_enc_fuel (S k) n =
  if n <? 128 then [n + 128] else n mod 128 :: cint_enc_fuel k (n / 128).
Proof. done. Qed.

Lemma shiftr_7 n : Z.shiftr n 7 = n / 128.
Proof. by rewrite shiftr_div. Qed.

Lemma div128_0 n : 0 <= n -> (n / 128 =? 0) = (n <? 128).
Proof. intros. destruct (Z.ltb_spec n 128), (Z.eqb_spec (n / 128) 0); zdiv || done. Qed.

Lemma lor_128 n : 0 <= n < 128 -> Z.lor n 128 = n + 128.
Proof. intros. rewrite Z.lor_comm. change 128 with (1 * 2 ^ 7) at 1. rewrite lor_mul_add by lia. lia. Qed.
Lemma land_128_low n : 0 <= n < 128 -> Z.land n 128 = 0.
Proof. intros. rewrite Z.land_comm. by apply (land_mul_small 1 _ 7). Qed.
Lemma land_128_high n : 0 <= n < 128 -> Z.land (n + 128) 128 = 128.
Proof.
  intros. rewrite <- lor_128, Z.land_lor_distr_l, land_128_low by done. done.
Qed.

Lemma pow128_step k n : 0 <= n < 128 ^ Z.of_nat (S k) -> 128 <= n ->
  (0 < k)%nat /\ 0 <= n / 128 < 128 ^ Z.of_nat k.
Proof.
  rewrite Nat2Z.inj_succ, Z.pow_succ_r by lia. intros Hn Hge. split; [|zdiv].
  destruct k; [simpl in Hn; lia|lia].
Qed.

Lemma escape_len_enc k : forall left b, (0 < k)%nat -> 0 <= left < 128 ^ Z.of_nat k ->
  escape_len k left b = ZBUF_PUT_all b (cint_enc_fuel k left).
Proof.
  induction k as [|k IH]; intros left b Hk Hl; [lia|].
  rewrite cint_enc_S. cbn [escape_len]. rewrite shiftr_7, div128_0, land_127 by lia.
  destruct (Z.ltb_spec left 128).
  - by rewrite (Z.mod_small left), lor_128 by lia.
  - cbn [ZBUF_PUT_all]. destruct (ZBUF_PUT b _) as [b'|]; [|done]. cbn [mbind option_bind].
    destruct (pow128_step _ _ Hl) as [? ?]; [lia|]. by apply IH.
Qed.

Lemma cint_enc_ok k : forall n, 0 <= n ->
  bytes_ok (cint_enc_fuel k n) /\ zlen (cint_enc_fuel k n) <= Z.of_nat k.
Proof.
  induction k as [|k IH]; intros n Hn; [done|]. rewrite cint_enc_S.
  destruct (Z.ltb_spec n 128).
  - split; [|zlia]. constructor; [unfold byte_ok; lia|constructor].
  - destruct (IH (n / 128)) as [Hb Hl]; [zdiv|]. split; [|rewrite zlen_cons; lia].
    constructor; [unfold byte_ok; zdiv|done].
Qed.

(** Reading back a written length, [acc] being the groups read so far. *)
Lemma unescape_len_enc k : forall fuel n pre rest src_size i acc shift,
  (0 < k)%nat -> 0 <= n < 128 ^ Z.of_nat k -> 0 <= shift <= 31 -> 0 <= acc < 2 ^ shift ->
  acc + n * 2 ^ shift < 2 ^ 31 -> (length (cint_enc_fuel k n) <= fuel)%nat ->
  i + zlen (cint_enc_fuel k n) <= src_size ->
  unescape_len fuel (pre ++ cint_enc_fuel k n ++ rest) src_size (zlen pre) i acc shift =
  Some (Some (acc + n * 2 ^ shift, i + zlen (cint_enc_fuel k n),
              zlen pre + zlen (cint_enc_fuel k n))).
Proof.
  induction k as [|k IH]; intros fuel n pre rest src i acc shift Hk Hn Hs Ha Hmax Hf Hi;
    [lia|].
  rewrite cint_enc_S in *. pose proof (Z.pow_pos_nonneg 2 shift ltac:(lia) ltac:(lia)) as Hp.
  assert (Hc : forall v, 0 <= v < 128 -> acc + v * 2 ^ shift < 2 ^ 31 ->
    Z.lor acc (s32 (Z.shiftl v shift)) = acc + v * 2 ^ shift).
  { intros v Hv Hb. rewrite shiftl_mul, swrap_small by nia.
    rewrite Z.lor_comm, lor_mul_add by lia. lia. }
  destruct (Z.ltb_spec n 128) as [Hlt|Hge].
  - destruct fuel as [|fuel]; [simpl in Hf; lia|]. cbn [unescape_len app].
    rewrite zlen_cons, zlen_nil in *. destruct (Z.eqb_spec i src); [lia|].
    rewrite rd_app_r, Z.sub_diag, rd_0 by lia. cbn [mbind option_bind].
    destruct (Z.ltb_spec 31 shift); [lia|].
    rewrite land_128_high by lia.
    replace (Z.land (n + 128) 127) with n by (rewrite land_127; zdiv).
    simpl. rewrite Hc by lia. repeat f_equal; lia.
  - destruct fuel as [|fuel]; [simpl in Hf; lia|]. cbn [unescape_len app].
    rewrite zlen_cons in *. zlen_facts. destruct (Z.eqb_spec i src); [lia|].
    rewrite rd_app_r, Z.sub_diag, rd_0 by lia. cbn [mbind option_bind].
    destruct (Z.ltb_spec 31 shift); [lia|].
    assert (Hm : 0 <= n mod 128 < 128) by zdiv.
    rewrite land_128_low by lia.
    replace (Z.land (n mod 128) 127) with (n mod 128) by (rewrite land_127; zdiv).
    assert (Hn' : n = 128 * (n / 128) + n mod 128) by (apply Z.div_mod; lia).
    rewrite Hc by nia. simpl.
    assert (Hpow : 2 ^ (shift + 7) = 2 ^ shift * 128) by (rewrite Z.pow_add_r by lia; done).
    assert (Hs7 : shift + 7 <= 31).
    { apply Z.nlt_ge. intros Hgt.
      assert (2 ^ 31 <= 2 ^ (shift + 7)) by (apply Z.pow_le_mono_r; lia).
      assert (1 <= n / 128) by zdiv. nia. }
    replace (pre ++ n mod 128 :: cint_enc_fuel k (n / 128) ++ rest)
      with ((pre ++ [n mod 128]) ++ cint_enc_fuel k (n / 128) ++ rest) by (by rewrite <- app_assoc).
    replace (zlen pre + 1) with (zlen (pre ++ [n mod 128])) by zlia.
    destruct (pow128_step _ _ Hn) as [Hk' Hn'']; [lia|].
    rewrite IH; [|done|done|lia|rewrite Hpow; nia|rewrite Hpow; nia|simpl in Hf; lia|lia].
    do 2 f_equal. f_equal; [f_equal|]; rewrite ?Hpow; [nia|lia|zlia].
Qed.

Lemma cint_enc_read n rest pre src_size : 0 <= n < 2 ^ 31 -> zlen (cint_enc n) <= src_size ->
  unescape_len (S (length (pre ++ cint_enc n ++ rest))) (pre ++ cint_enc n ++ rest) src_size
    (zlen pre) 0 0 0 =
  Some (Some (n, zlen (cint_enc n), zlen pre + zlen (cint_enc n))).
Proof.
  intros Hn Hs. unfold cint_enc. rewrite unescape_len_enc.
  - by rewrite Z.mul_1_r.
  - unfold cint_fuel. lia.
  - unfold cint_fuel. simpl. lia.
  - lia.
  - lia.
  - lia.
  - rewrite !length_app. lia.
  - done.
Qed.

Lemma zcint_data_escape_from b l src d : rep None b l -> in_bytes src (zlen d) = Some d -> bytes_ok d -> zlen l + zlen d + 6 < 2 ^ 29 ->
  runs (zcint_data_escape b src (zlen d)) (fun b' => rep None b' (l ++ cint_data d)).
Proof.
  intros H Hin Hd Hr. unfold zcint_data_escape. zlen_facts.
  destruct (Z.ltb_spec (zlen d) 0); [lia|]. cbn [mbind option_bind].
  rewrite escape_len_enc by (unfold cint_fuel; simpl; lia). fold (cint_enc (zlen d)).
  destruct (cint_enc_ok cint_fuel (zlen d)) as [Hb Hn]; [lia|]. fold (cint_enc (zlen d)) in *.
  unfold cint_fuel in Hn. eapply runs_bind.
  { apply (ZBUF_PUT_all_runs None (cint_enc (zlen d)) b l H Hb). simpl. lia. }
  simpl. intros b' H'. unfold cint_data. rewrite app_assoc. destruct (Z.ltb_spec 0 (zlen d)).
  - eapply runs_mono; [apply (zbuf_memcat_holds None b' _ src (zlen d) d H')|by intros ? []];
      unfold int_max; try (done || lia). simpl. zlia.
  - apply runs_ret. assert (d = []) as -> by (apply zlen_inv_nil; lia). by rewrite app_nil_r.
Qed.
Lemma zcint_data_escape_rep b l d : rep None b l -> bytes_ok d -> zlen l + zlen d + 6 < 2 ^ 29 ->
  runs (zcint_data_escape b d (zlen d)) (fun b' => rep None b' (l ++ cint_data d)).
Proof. intros. apply zcint_data_escape_from; try done. apply in_bytes_full. Qed.
(** The decimal text of a number. *)
Lemma zcint_data_escape_long_rep b l i : rep None b l -> zlen l + 71 < 2 ^ 29 ->
  runs (zcint_data_escape_int b i) (fun b' => rep None b' (l ++ cint_data (fmt_zd i))) /\
  runs (zcint_data_escape_long b i) (fun b' => rep None b' (l ++ cint_data (fmt_zd i))).
Proof.
  intros H Hl. pose proof (fmt_zd_len i).
  split; (apply zcint_data_escape_from; [done|apply in_bytes_app|apply fmt_zd_bytes|lia]).
Qed.

(** Variable-length integers round trip: [zcint_data_escape] appends the
    length in groups of seven bits and the data, and [zcint_data_unescape]
    gives back the place of the data, its length and the number of bytes used,
    whatever follows. *)
Theorem zcint_data_roundtrip (b : zbuf) (l d rest : list Z) :
  rep None b l -> bytes_ok d -> zlen l + zlen d + 6 < 2 ^ 29 -> zlen (d ++ rest) < 2 ^ 30 ->
  runs (b' ← zcint_data_escape b d (zlen d); zbuf_bytes b') (fun t => t = l ++ cint_data d) /\
  zcint_data_unescape (cint_data d ++ rest) (zlen (cint_data d ++ rest)) =
    Some (Some (zlen (cint_data d) - zlen d, zlen d, zlen (cint_data d))) /\
  drop (length (cint_data d) - length d) (cint_data d) = d.
Proof.
  intros H Hd Hr Hmax. split; [|split].
  - eapply runs_bind; [by apply zcint_data_escape_rep|]. intros b' H'.
    rewrite (rep_zbuf_bytes _ _ _ H'). by apply runs_ret.
  - unfold zcint_data_unescape, cint_data. rewrite <- app_assoc.
    pose proof (cint_enc_read (zlen d) (d ++ rest) [] (zlen (cint_enc (zlen d) ++ d ++ rest))) as E.
    cbn [app] in E. change (zlen (@nil Z)) with 0 in E. rewrite !zlen_app in *. zlen_facts.
    pose proof (proj2 (cint_enc_ok cint_fuel (zlen d) ltac:(lia))) as He.
    change (cint_enc_fuel cint_fuel (zlen d)) with (cint_enc (zlen d)) in He.
    change (Z.of_nat cint_fuel) with 5 in He.
    rewrite E by lia. cbn [mbind option_bind]. rewrite as_int_Some by lia. cbn [mbind option_bind].
    match goal with |- context [?x <? ?y] => destruct (Z.ltb_spec x y); [lia|] end.
    do 3 f_equal. f_equal. lia.
  - unfold cint_data. rewrite length_app.
    replace (_ + _ - _)%nat with (length (cint_enc (zlen d))) by lia. apply drop_app_length.
Qed.

Lemma zcint_data_roundtrip_witness :
  runs (b ← zbuf_create 0; b' ← zcint_data_escape b (str "zc") 2; zbuf_bytes b')
    (fun t => t = [130; 122; 99]) /\
  zcint_data_unescape ([130; 122; 99] ++ [7]) 4 = Some (Some (1, 2, 3)).
Proof.
  assert (Hb : bytes_ok (str "zc")) by (apply (bool_decide_unpack _); vm_compute; exact I).
  split.
  - eapply runs_bind; [apply zbuf_create_holds; lia|]. intros b [Hrep _].
    apply (zcint_data_roundtrip b [] (str "zc") []); [exact Hrep|exact Hb|reflexivity|reflexivity].
  - destruct (zbuf_create_holds 0) as (b & _ & [Hrep _]); [lia|].
    apply (zcint_data_roundtrip b [] (str "zc") [7]); [exact Hrep|exact Hb|reflexivity|reflexivity].
Defined.

(** A negative length, the library's notation for a C string, makes
    [zcint_data_escape] loop for ever: the length written is the -1 the caller
    passed, whose arithmetic shifts never reach 0. So [zcint_data_escape_pp]
    and [zcint_data_escape_dict], which always pass -1, return on nothing but
    an empty array or dictionary. *)
Theorem zcint_escape_negative_diverges (b : zbuf) (data : list Z) (len : Z) :
  len < 0 ->
  (forall fuel, escape_len fuel len b = None) /\
  zcint_data_escape b data len = None /\
  (forall pp, zcint_data_escape_pp b (data :: pp) = None) /\
  (forall v zd, zcint_data_escape_dict b ((data, v) :: zd) = None).
Proof.
  assert (Hloop : forall fuel left b, left < 0 -> escape_len fuel left b = None).
  { induction fuel as [|fuel IH]; intros left b' Hl; [done|]. cbn [escape_len].
    rewrite shiftr_7. assert (left / 128 < 0) by zdiv.
    destruct (Z.eqb_spec (left / 128) 0); [lia|].
    destruct (ZBUF_PUT b' _) as [b''|]; [|done]. by apply IH. }
  assert (Hesc : forall len, len < 0 -> zcint_data_escape b data len = None).
  { intros n Hn. unfold zcint_data_escape. destruct (Z.ltb_spec n 0); [|lia].
    destruct (s32 <$> _); [|done]. cbn [mbind option_bind]. by rewrite Hloop. }
  intros Hlen. split; [by intros; apply Hloop|]. split; [by apply Hesc|].
  split; intros; simpl; by rewrite Hesc.
Qed.

Lemma zcint_escape_negative_diverges_witness :
  zcint_data_escape_pp (mk_zbuf [] 0 true 0) [str "a" ++ [0]; str "b" ++ [0]] = None.
Proof.
  destruct (zcint_escape_negative_diverges (mk_zbuf [] 0 true 0) (str "a" ++ [0]) (-1)) as (_ & _ & H & _).
  - lia.
  - apply H.
Defined.

(** The items of a block of escaped data, as (offset, length). *)
Fixpoint cint_places (off : Z) (ds : list (list Z)) : list (Z * Z) :=
  match ds with
  | [] => []
  | d :: ds' => (off + zlen (cint_enc (zlen d)), zlen d) :: cint_places (off + zlen (cint_data d)) ds'
  end.

Lemma unescape_all_loop_items ds : forall k pre,
  pre ++ concat (cint_data <$> ds) <> [] -> zlen (pre ++ concat (cint_data <$> ds)) < 2 ^ 29 ->
  unescape_all_loop (length ds + k) (pre ++ concat (cint_data <$> ds))
    (zlen (pre ++ concat (cint_data <$> ds))) (zlen pre) =
  if (k =? 0)%nat then Some (cint_places (zlen pre) ds) else None.
Proof.
  induction ds as [|d ds IH]; intros k pre Hne Hmax.
  - destruct k as [|k]; [done|]. change (concat (cint_data <$> [])) with (@nil Z) in *.
    rewrite app_nil_r in *. cbn [length Nat.add unescape_all_loop unescape_len].
    destruct (Z.eqb_spec 0 (zlen pre)) as [E|_].
    { symmetry in E. by apply zlen_inv_nil in E. }
    by rewrite rd_None by lia.
  - cbn [length Nat.add unescape_all_loop fmap list_fmap concat] in *.
    set (m := pre ++ cint_data d ++ concat (cint_data <$> ds)) in *.
    assert (Hm : m = pre ++ cint_enc (zlen d) ++ (d ++ concat (cint_data <$> ds)))
      by (unfold m, cint_data; by rewrite <- app_assoc).
    assert (Hm2 : m = (pre ++ cint_data d) ++ concat (cint_data <$> ds))
      by (unfold m; by rewrite app_assoc).
    assert (Hlen : zlen m = zlen pre + zlen (cint_enc (zlen d)) + zlen d +
      zlen (concat (cint_data <$> ds))) by (rewrite Hm, !zlen_app; lia).
    zlen_facts. rewrite Hm at 1 2. rewrite cint_enc_read by lia. cbn [mbind option_bind].
    rewrite as_int_Some by lia. cbn [mbind option_bind].
    match goal with |- context [?x <? ?y] => destruct (Z.ltb_spec x y); [lia|] end.
    replace (zlen pre + zlen (cint_enc (zlen d)) + zlen d) with (zlen (pre ++ cint_data d))
      by (unfold cint_data; rewrite !zlen_app; lia).
    rewrite Hm2 in Hne, Hmax |- *. rewrite IH by done.
    destruct (k =? 0)%nat; [|done]. simpl. by rewrite zlen_app.
Qed.

(** [zcint_data_unescape_all] finds the items of a block when it is asked
    for as many as there are, and reads past the end of the block when it is
    asked for more: the count it compares with [src_size] restarts from 0 at
    every item, so the end of the input is never seen. *)
Theorem zcint_unescape_all_overrun (d : list Z) (ds : list (list Z)) (vec_size : Z) :
  let m := concat (cint_data <$> d :: ds) in
  zlen m < 2 ^ 29 ->
  zcint_data_unescape_all m (zlen m) (zlen (d :: ds)) = Some (cint_places 0 (d :: ds)) /\
  (zlen (d :: ds) < vec_size -> zcint_data_unescape_all m (zlen m) vec_size = None).
Proof.
  intros m Hm. unfold zcint_data_unescape_all.
  assert (Hne : m <> []).
  { unfold m, cint_data, cint_enc. simpl. by destruct (zlen d <? 128). }
  split.
  - pose proof (unescape_all_loop_items (d :: ds) 0 [] Hne Hm) as E. cbn [app] in E.
    fold m in E. rewrite Nat.add_0_r in E.
    by replace (Z.to_nat (zlen (d :: ds))) with (length (d :: ds)) by (unfold zlen; lia).
  - intros Hv. pose proof (unescape_all_loop_items (d :: ds) (Z.to_nat (vec_size - zlen (d :: ds)))
      [] Hne Hm) as E. cbn [app] in E. fold m in E.
    replace (length (d :: ds) + _)%nat with (Z.to_nat vec_size) in E
      by (unfold zlen in *; lia).
    change (zlen (@nil Z)) with 0 in E. rewrite E. destruct (Nat.eqb_spec (Z.to_nat (vec_size - zlen (d :: ds))) 0); [lia|done].
Qed.

Lemma zcint_unescape_all_overrun_witness :
  zcint_data_unescape_all [129; 97; 128] 3 2 = Some [(1, 1); (3, 0)] /\
  zcint_data_unescape_all [129; 97; 128] 3 8 = None.
Proof.
  destruct (zcint_unescape_all_overrun (str "a") [[]] 8) as [H1 H2].
  - vm_compute. reflexivity.
  - split; [exact H1|apply H2; vm_compute; reflexivity].
Defined.
