(* ===== verification/Vector.v ===== *)
(** * Pointer vectors: src/stdlib/vector.c

    A [zvector_t] is a heap block of pointers; [v_data] is the position of the
    [data] pointer in that block and [v_offset] the field [offset], which the
    code moves separately. Pointers are numbers, 0 being NULL; a cell of a
    block is [None] until it is written. *)
From S2P Require Import Prelude.

Abbreviation pcell := (option Z).

Record zvector := mk_zvector {
  v_block : list pcell;
  v_data : Z;
  v_len : Z;
  v_size : Z;
  v_offset : Z
}.

(** [zmalloc(n * sizeof(char * ))]: the size is a [size_t] converted to the
    [int] parameter, and a negative request is clamped to 0. *)
Definition pmalloc {A} (n : Z) : list (option A) := replicate (Z.to_nat (s32 (n * 8) / 8)) None.
Definition prealloc {A} (d : list (option A)) (n : Z) : list (option A) :=
  let k := Z.to_nat (s32 (n * 8) / 8) in take k d ++ replicate (k - length d) None.

Definition vset (v : zvector) (d : list pcell) : zvector :=
  mk_zvector d (v_data v) (v_len v) (v_size v) (v_offset v).
Definition vset_len (v : zvector) (n : Z) : zvector :=
  mk_zvector (v_block v) (v_data v) n (v_size v) (v_offset v).

(** [data[i]], read and written. *)
Definition vget (v : zvector) (i : Z) : option Z := mjoin (rd (v_block v) (v_data v + i)).
Definition vput (v : zvector) (i x : Z) : option zvector :=
  d ← wr (v_block v) (v_data v + i) (Some x); Some (vset v d).

Definition vec_left (v : zvector) : Z := v_size v - v_offset v - v_len v.

(** [for (i = n-1; i > -1; i--) dst[i] = src[i]], over one block. *)
Fixpoint copy_up (d : list pcell) (src dst : Z) (n : nat) : option (list pcell) :=
  match n with
  | O => Some d
  | S n' =>
      x ← rd d (src + Z.of_nat n');
      d ← wr d (dst + Z.of_nat n') x;
      copy_up d src dst n'
  end.
(** [for (i = 0; i < n; i++) dst[i] = src[i]], over one block. *)
Fixpoint copy_down (d : list pcell) (src dst : Z) (n : nat) : option (list pcell) :=
  match n with
  | O => Some d
  | S n' => x ← rd d src; d ← wr d dst x; copy_down d (src + 1) (dst + 1) n'
  end.

Definition zvector_init (size : Z) : option zvector :=
  let size := if size <? 0 then 13 else if size =? 0 then 1 else size in
  d ← wr (pmalloc (size + 1)) 0 (Some 0);
  Some (mk_zvector d 0 0 size 0).
Definition zvector_create (size : Z) : option zvector := zvector_init size.

Definition zvector_push (v : zvector) (val : Z) : option zvector :=
  v ← (if vec_left v <? 1 then
         s ← as_int (v_size v * 2);
         n ← as_int (s + 1);
         Some (mk_zvector (prealloc (v_block v) n) (v_offset v) (v_len v) s (v_offset v))
       else Some v);
  v ← vput v (v_len v) val;
  let v := vset_len v (v_len v + 1) in
  vput v (v_len v) 0.

Definition zvector_unshift (v : zvector) (val : Z) : option zvector :=
  let len := v_len v in
  v ← (if v_offset v =? 0 then
         if 100 <? vec_left v then
           d ← copy_up (v_block v) (v_data v) (v_data v + 100) (Z.to_nat len);
           vput (mk_zvector d (v_data v + 99) len (v_size v) 99) 0 val
         else
           s2 ← as_int (v_size v * 2);
           nsize ← as_int (s2 + 100);
           n1 ← as_int (nsize + 1);
           let n := pmalloc n1 in
           n ← (if 0 <? len then
                  (* memcpy(n + 100, v->data, len * sizeof(char * )) *)
                  let src := take (Z.to_nat len) (drop (Z.to_nat (v_data v)) (v_block v)) in
                  if (zlen src =? len) && (100 + len <=? zlen n)
                  then Some (take 100 n ++ src ++ drop (Z.to_nat (100 + len)) n) else None
                else Some n);
           vput (mk_zvector n 99 len nsize 99) 0 val
       else vput (mk_zvector (v_block v) (v_data v - 1) len (v_size v) (v_offset v - 1)) 0 val);
  let v := vset_len v (v_len v + 1) in
  vput v (v_len v) 0.

(** The boolean result and [*val] (0 when there is none). *)
Definition zvector_pop (v : zvector) : option (zvector * (bool * Z)) :=
  if v_len v <? 1 then Some (v, (false, 0)) else
  x ← vget v (v_len v - 1);
  let v := vset_len v (v_len v - 1) in
  v ← vput v (v_len v) 0;
  Some (v, (true, x)).

Definition zvector_shift (v : zvector) : option (zvector * (bool * Z)) :=
  if v_len v <? 1 then Some (v, (false, 0)) else
  x ← vget v 0;
  let v := mk_zvector (v_block v) (v_data v + 1) (v_len v - 1) (v_size v) (v_offset v + 1) in
  v ← (if 200 <? v_offset v then
         let ndata := v_data v - v_offset v + 100 in
         d ← copy_down (v_block v) (v_data v) ndata (Z.to_nat (v_len v));
         d ← wr d (ndata + v_len v) (Some 0);
         Some (mk_zvector d ndata (v_len v) (v_size v) 100)
       else Some v);
  Some (v, (true, x)).

(** [while (idx > v->len) zvector_push(v, 0)] *)
Fixpoint push_nulls (n : nat) (v : zvector) : option zvector :=
  match n with O => Some v | S n' => v ← zvector_push v 0; push_nulls n' v end.

Definition zvector_insert (v : zvector) (idx val : Z) : option zvector :=
  let len := v_len v in
  let idx := if idx <? 0 then len else idx in
  if idx =? 0 then zvector_unshift v val
  else if idx =? len then zvector_push v val
  else if idx <? len then
    v ← zvector_push v 0;
    d ← copy_up (v_block v) (v_data v + idx) (v_data v + idx + 1) (Z.to_nat (len - idx));
    v ← vput (vset v d) idx val;
    vput v (v_len v) 0
  else
    v ← push_nulls (Z.to_nat (idx - len)) v;
    zvector_push v val.

Definition zvector_delete (v : zvector) (idx : Z) : option (zvector * (bool * Z)) :=
  let len := v_len v in
  if (idx <? 0) || (len <=? idx) then Some (v, (false, 0))
  else if idx =? 0 then zvector_shift v
  else
    x ← vget v idx;
    d ← copy_down (v_block v) (v_data v + idx + 1) (v_data v + idx) (Z.to_nat (len - idx));
    let v := vset_len (vset v d) (len - 1) in
    v ← vput v (v_len v) 0;
    Some (v, (true, x)).

Definition zvector_reset (v : zvector) : option zvector := vput (vset_len v 0) 0 0.

Definition zvector_truncate (v : zvector) (new_len : Z) : option zvector :=
  let v := if new_len <? v_len v then vset_len v new_len else v in
  vput v (v_len v) 0.

(** ** Specification: a sequence of pointers *)

(** [M] bounds the capacity: every block fits the [int] that [zmalloc] takes,
    [N] bounds the number of elements of a run. *)
Record vrep (N M : Z) (v : zvector) (l : list Z) : Prop := {
  vr_block : exists pre rest, v_block v = pre ++ (Some <$> l) ++ Some 0 :: rest /\
               zlen pre = v_offset v;
  vr_data : v_data v = v_offset v;
  vr_offset : 0 <= v_offset v <= 200;
  vr_len : v_len v = zlen l;
  vr_fit : v_offset v + zlen l <= v_size v;
  vr_alloc : zlen (v_block v) = v_size v + 1;
  vr_size : 1 <= v_size v <= M;
  vr_count : zlen l <= N;
  vr_cap : 2 * N + 400 <= M < 2 ^ 27
}.

Lemma pmalloc_len {A} n : 0 <= n < 2 ^ 28 -> zlen (pmalloc (A := A) n) = n.
Proof.
  intros Hn. unfold pmalloc. rewrite zlen_replicate, swrap_small by lia.
  rewrite Z.div_mul by lia. lia.
Qed.

Lemma prealloc_grow {A} (d : list (option A)) n : zlen d <= n < 2 ^ 28 ->
  exists rest, prealloc d n = d ++ rest /\ zlen (d ++ rest) = n.
Proof.
  intros Hn. zlen_facts. unfold prealloc. rewrite swrap_small, Z.div_mul by lia.
  rewrite firstn_all2 by (unfold zlen in *; lia). eexists. split; [done|].
  rewrite zlen_app, zlen_replicate. unfold zlen in *. lia.
Qed.

(** [data[i] = x] where the block is split at that cell. *)
Lemma vput_at v l y m i x : v_block v = l ++ y :: m -> zlen l = v_data v + i ->
  vput v i x = Some (vset v (l ++ Some x :: m)).
Proof. intros E Hi. unfold vput. by rewrite E, <- Hi, wr_app. Qed.

Lemma vget_at v l x m i : v_block v = l ++ Some x :: m -> zlen l = v_data v + i ->
  vget v i = Some x.
Proof. intros E Hi. unfold vget. by rewrite E, <- Hi, rd_at. Qed.

(** The common end of every growing operation: a NULL after the last element. *)
Lemma vterm_rep N M v l pre y rest :
  v_block v = pre ++ (Some <$> l) ++ y :: rest -> zlen pre = v_offset v ->
  v_data v = v_offset v -> 0 <= v_offset v <= 200 -> v_len v = zlen l ->
  zlen (v_block v) = v_size v + 1 -> 1 <= v_size v <= M -> zlen l <= N -> 2 * N + 400 <= M < 2 ^ 27 ->
  runs (vput v (v_len v) 0) (fun v' => vrep N M v' l).
Proof.
  intros E Hpre Hd Ho Hl Ha Hs HN HM. rewrite E in Ha.
  rewrite (vput_at v (pre ++ (Some <$> l)) y rest) by (rewrite <- ?app_assoc; done || zlia).
  apply runs_ret. split; simpl; try done; try lia; [|zlia|zlia].
  exists pre, rest. by rewrite <- app_assoc.
Qed.

Lemma vrep_split N M v l : vrep N M v l -> exists pre rest,
  v_block v = pre ++ (Some <$> l) ++ Some 0 :: rest /\ zlen pre = v_offset v /\
  zlen rest = v_size v - v_offset v - zlen l.
Proof.
  intros H. destruct (vr_block _ _ _ _ H) as (pre & rest & E & Hp). exists pre, rest.
  split; [done|]. split; [done|]. pose proof (vr_alloc _ _ _ _ H) as Ha. rewrite E in Ha. zlia.
Qed.

(** An element read and replaced. *)
Lemma vget_rep N M v l i x : vrep N M v l -> rd l i = Some x -> vget v i = Some x.
Proof.
  intros H Hi. destruct (vrep_split _ _ _ _ H) as (pre & rest & E & Hp & _). pose proof (rd_Some _ _ _ Hi).
  unfold vget. rewrite E, (vr_data _ _ _ _ H), rd_app_r by lia.
  replace (v_offset v + i - zlen pre) with i by lia. rewrite rd_app_l by (rewrite zlen_fmap; lia).
  unfold rd in *. destruct (i <? 0); [done|]. by rewrite list_lookup_fmap, Hi.
Qed.
Lemma vput_rep N M v l i x : vrep N M v l -> 0 <= i < zlen l ->
  runs (vput v i x) (fun v' => vrep N M v' (<[Z.to_nat i := x]> l)).
Proof.
  intros H Hi. destruct (vrep_split _ _ _ _ H) as (pre & rest & E & Hp & _).
  destruct (lookup_lt_is_Some_2 l (Z.to_nat i)) as [y Hy]; [unfold zlen in Hi; lia|].
  pose proof (take_drop_middle l _ _ Hy) as El. set (a := take (Z.to_nat i) l) in *. set (b := drop _ l) in *.
  assert (Ha : zlen a = i) by (apply zlen_take; lia).
  rewrite (vput_at v (pre ++ (Some <$> a)) (Some y) ((Some <$> b) ++ Some 0 :: rest)).
  - apply runs_ret. destruct H as [_ Hd Ho Hl Hf Hal Hs Hc HM].
    split; cbn; rewrite ?zlen_insert; try done.
    + exists pre, rest. split; [|done]. rewrite insert_take_drop by (by eapply lookup_lt_Some).
      fold a b. by rewrite fmap_app, <- !app_assoc.
    + rewrite <- Hal, E, <- El, !fmap_app. cbn [fmap list_fmap]. zlia.
  - rewrite E, <- El, fmap_app, <- !app_assoc. done.
  - rewrite (vr_data _ _ _ _ H). zlia.
Qed.

(** Writing an element over the NULL, when another cell follows. *)
Lemma push_in_place N M v l val pre y z rest :
  v_block v = pre ++ (Some <$> l) ++ y :: z :: rest -> zlen pre = v_offset v ->
  v_data v = v_offset v -> 0 <= v_offset v <= 200 -> v_len v = zlen l ->
  zlen (v_block v) = v_size v + 1 -> 1 <= v_size v <= M -> zlen l < N -> 2 * N + 400 <= M < 2 ^ 27 ->
  runs (v ← vput v (v_len v) val; let v := vset_len v (v_len v + 1) in vput v (v_len v) 0)
    (fun v' => vrep N M v' (l ++ [val])).
Proof.
  intros E Hpre Hd Ho Hl Ha Hs HN HM. rewrite E in Ha.
  rewrite (vput_at v (pre ++ (Some <$> l)) y (z :: rest)) by (rewrite <- ?app_assoc; done || zlia).
  cbn [mbind option_bind]. apply (vterm_rep _ _ _ _ pre z rest); simpl; try done; try zlia.
  rewrite fmap_app, <- !app_assoc. done.
Qed.

Lemma zvector_push_rep N M v l val : vrep N M v l -> zlen l < N ->
  runs (zvector_push v val) (fun v' => vrep N M v' (l ++ [val])).
Proof.
  intros H HN. destruct (vrep_split _ _ _ _ H) as (pre & rest & E & Hp & Hr).
  unfold zvector_push, vec_left. pose proof (vr_len _ _ _ _ H) as Hl. rewrite Hl.
  destruct H as [_ Hd Ho _ Hf Ha Hs _ HM].
  destruct (Z.ltb_spec (v_size v - v_offset v - zlen l) 1).
  - rewrite as_int_Some by lia. cbn [mbind option_bind].
    rewrite as_int_Some by lia. cbn [mbind option_bind].
    destruct (prealloc_grow (v_block v) (v_size v * 2 + 1)) as (more & Eb & Hm); [lia|].
    rewrite Eb, E in *. rewrite <- !app_assoc, <- app_comm_cons in *.
    assert (Hmore : 1 <= zlen (rest ++ more)) by zlia.
    destruct (rest ++ more) as [|z rest'] eqn:Erest; [rewrite zlen_nil in Hmore; lia|].
    apply (push_in_place _ _ _ l val pre (Some 0) z rest'); simpl; (done || lia).
  - destruct rest as [|z rest]; [zlia|]. cbn [mbind option_bind]. rewrite Hl.
    rewrite <- Hl. apply (push_in_place _ _ _ l val pre (Some 0) z rest); (done || lia).
Qed.

(** ** The copying loops *)
Lemma split_at {A} (l : list A) k : 0 <= k < zlen l ->
  exists a y b, l = a ++ y :: b /\ zlen a = k.
Proof.
  intros Hk. destruct (rd_is_Some l k Hk) as [y Hy]. unfold rd in Hy.
  destruct (Z.ltb_spec k 0); [lia|]. exists (take (Z.to_nat k) l), y, (drop (S (Z.to_nat k)) l).
  rewrite take_drop_middle by done. split; [done|]. rewrite zlen_take; lia.
Qed.

(** Moving [l] up by [k] cells leaves a gap of [k] cells under it. *)
Lemma copy_up_spec l : forall pre mid k, 0 <= k <= zlen mid ->
  exists gap, copy_up (pre ++ l ++ mid) (zlen pre) (zlen pre + k) (length l) =
    Some (pre ++ gap ++ l ++ drop (Z.to_nat k) mid) /\ zlen gap = k.
Proof.
  induction l as [|x l IH] using rev_ind; intros pre mid k Hk.
  - exists (take (Z.to_nat k) mid). simpl. rewrite take_drop. split; [done|].
    by apply zlen_take.
  - rewrite length_app, Nat.add_1_r. cbn [copy_up]. fold (zlen l).
    rewrite <- !app_assoc. cbn [app].
    replace (pre ++ l ++ x :: mid) with ((pre ++ l) ++ x :: mid) by (by rewrite app_assoc).
    replace (zlen pre + zlen l) with (zlen (pre ++ l)) by zlia. rewrite rd_at.
    cbn [mbind option_bind].
    destruct (split_at (x :: mid) k) as (a & y & b & E & Ha); [zlia|]. rewrite E.
    replace ((pre ++ l) ++ a ++ y :: b) with ((pre ++ l ++ a) ++ y :: b)
      by (by rewrite <- !app_assoc).
    replace (zlen pre + k + zlen l) with (zlen (pre ++ l ++ a)) by zlia.
    rewrite wr_app. cbn [mbind option_bind].
    replace ((pre ++ l ++ a) ++ x :: b) with (pre ++ l ++ (a ++ x :: b)) by (by rewrite <- !app_assoc).
    destruct (IH pre (a ++ x :: b) k) as (gap & -> & Hg); [zlia|].
    exists gap. split; [|done]. do 3 f_equal.
    assert (Eb : b = drop (Z.to_nat k) mid).
    { change (drop (Z.to_nat k) mid) with (drop (S (Z.to_nat k)) (x :: mid)). rewrite E.
      rewrite drop_app_ge by (unfold zlen in Ha; lia).
      replace (S (Z.to_nat k) - length a)%nat with 1%nat by (unfold zlen in Ha; lia). done. }
    rewrite drop_app_ge by (unfold zlen in Ha; lia).
    replace (Z.to_nat k - length a)%nat with 0%nat by (unfold zlen in Ha; lia).
    by rewrite Eb.
Qed.

(** Moving [l] down over a gap leaves as many cells after it. *)
Lemma copy_down_spec l : forall pre gap rest, gap <> [] ->
  exists rest', copy_down (pre ++ gap ++ l ++ rest) (zlen pre + zlen gap) (zlen pre) (length l) =
    Some (pre ++ l ++ rest') /\ zlen rest' = zlen gap + zlen rest.
Proof.
  induction l as [|x l IH]; intros pre gap rest Hg.
  - exists (gap ++ rest). split; [done|by rewrite zlen_app].
  - cbn [length copy_down]. destruct gap as [|g gap]; [done|]. cbn [app].
    replace (pre ++ g :: gap ++ x :: l ++ rest) with ((pre ++ g :: gap) ++ x :: l ++ rest)
      by (by rewrite <- app_assoc).
    replace (zlen pre + zlen (g :: gap)) with (zlen (pre ++ g :: gap)) by zlia.
    rewrite rd_at. cbn [mbind option_bind]. rewrite <- app_assoc. cbn [app].
    rewrite wr_app. cbn [mbind option_bind].
    specialize (IH (pre ++ [x]) (gap ++ [x]) rest).
    destruct IH as (rest' & E & Hr); [by destruct gap|].
    replace ((pre ++ [x]) ++ (gap ++ [x]) ++ l ++ rest) with (pre ++ x :: gap ++ x :: l ++ rest) in E
      by (by rewrite <- !app_assoc).
    exists rest'. split; [|zlia].
    replace (zlen (pre ++ g :: gap) + 1) with (zlen (pre ++ [x]) + zlen (gap ++ [x])) by zlia.
    replace (zlen pre + 1) with (zlen (pre ++ [x])) by zlia.
    rewrite E. by rewrite <- app_assoc.
Qed.

(** ** Operations preserve the representation *)
Lemma snoc_split {A} (l : list A) : 0 < zlen l -> exists l' y, l = l' ++ [y] /\ zlen l' = zlen l - 1.
Proof.
  destruct l as [|y l' _] using rev_ind; [intros H; unfold zlen in H; simpl in H; lia|].
  intros _. exists l', y. split; [done|zlia].
Qed.

(** The end of [zvector_unshift], once the cell before the elements is free. *)
Lemma unshift_in_place N M v l val pre y z rest :
  v_block v = pre ++ y :: (Some <$> l) ++ z :: rest -> zlen pre = v_offset v ->
  v_data v = v_offset v -> 0 <= v_offset v <= 200 -> v_len v = zlen l ->
  zlen (v_block v) = v_size v + 1 -> 1 <= v_size v <= M -> zlen l < N -> 2 * N + 400 <= M < 2 ^ 27 ->
  runs (v ← vput v 0 val; let v := vset_len v (v_len v + 1) in vput v (v_len v) 0)
    (fun v' => vrep N M v' (val :: l)).
Proof.
  intros E Hpre Hd Ho Hl Ha Hs HN HM. rewrite E in Ha.
  rewrite (vput_at v pre y ((Some <$> l) ++ z :: rest)) by (done || zlia).
  cbn [mbind option_bind]. apply (vterm_rep _ _ _ _ pre z rest); simpl; try done; zlia.
Qed.

Lemma zvector_unshift_rep N M v l val : vrep N M v l -> zlen l < N ->
  runs (zvector_unshift v val) (fun v' => vrep N M v' (val :: l)).
Proof.
  intros H HN. destruct (vrep_split _ _ _ _ H) as (pre & rest & E & Hp & Hr).
  unfold zvector_unshift, vec_left. destruct H as [_ Hd Ho Hl Hf Ha Hs _ HM]. zlen_facts.
  destruct (Z.eqb_spec (v_offset v) 0) as [Hz|Hz].
  - assert (pre = []) as -> by (apply zlen_inv_nil; lia). cbn [app] in E.
    rewrite Hl, Hd, Hz in *. destruct (Z.ltb_spec 100 (v_size v - 0 - zlen l)).
    + destruct (copy_up_spec (Some <$> l) [] (Some 0 :: rest) 100) as (gap & Ec & Hg); [zlia|].
      change (zlen (@nil pcell)) with 0 in Ec. rewrite length_fmap in Ec. cbn [app Z.add] in Ec. rewrite E.
      replace (Z.to_nat (zlen l)) with (length l) by (unfold zlen; lia). rewrite Ec.
      cbn [mbind option_bind].
      destruct (snoc_split gap) as (g & y & -> & Hg'); [lia|].
      destruct (drop (Z.to_nat 100) (Some 0 :: rest)) as [|z rest'] eqn:Ed.
      { apply (f_equal zlen) in Ed. rewrite zlen_drop in Ed by zlia. change (zlen (@nil pcell)) with 0 in Ed. zlia. }
      assert (Hrest : zlen rest' = v_size v - zlen l - 100).
      { apply (f_equal zlen) in Ed. rewrite zlen_drop in Ed by zlia. zlia. }
      apply (unshift_in_place _ _ _ l val g y z rest'); simpl; try done; try lia; [|zlia].
      by rewrite <- app_assoc.
    + rewrite as_int_Some by lia. cbn [mbind option_bind].
      rewrite as_int_Some by lia. cbn [mbind option_bind].
      rewrite as_int_Some by lia. cbn [mbind option_bind].
      set (n := pmalloc (A := Z) (v_size v * 2 + 100 + 1)).
      assert (Hn : zlen n = v_size v * 2 + 101) by (unfold n; rewrite pmalloc_len; lia).
      set (w := if 0 <? zlen l then _ else _).
      assert (Hw : w = Some (take 100 n ++ (Some <$> l) ++ drop (Z.to_nat (100 + zlen l)) n)).
      { unfold w. destruct (Z.ltb_spec 0 (zlen l)).
        - rewrite E. replace (take (Z.to_nat (zlen l)) _) with (Some <$> l).
          2: { change (drop (Z.to_nat 0) ?x) with x. rewrite take_app_le, firstn_all2; [done|..];
                 rewrite length_fmap; unfold zlen; lia. }
          rewrite zlen_fmap, Z.eqb_refl. destruct (Z.leb_spec (100 + zlen l) (zlen n)); [done|lia].
        - assert (l = []) as -> by (apply zlen_inv_nil; lia). cbn [fmap list_fmap app].
          change (Z.to_nat (100 + zlen (@nil Z))) with 100%nat. by rewrite take_drop. }
      rewrite Hw. cbn [mbind option_bind].
      assert (Hg : zlen (take 100 n) = 100) by (apply (zlen_take n 100); lia).
      destruct (snoc_split (take 100 n)) as (g & y & Eg & Hg'); [lia|]. rewrite Eg. rewrite Hg in Hg'.
      assert (Hd' : zlen (drop (Z.to_nat (100 + zlen l)) n) = zlen n - (100 + zlen l))
        by (apply zlen_drop; lia).
      destruct (drop (Z.to_nat (100 + zlen l)) n) as [|z rest'] eqn:Ed; [change (zlen (@nil pcell)) with 0 in Hd'; lia|].
      apply (unshift_in_place _ _ _ l val g y z rest'); simpl; try done; try lia; [|zlia].
      by rewrite <- app_assoc.
  - destruct (snoc_split pre) as (g & y & -> & Hg'); [lia|].
    rewrite <- app_assoc in E. rewrite zlen_app in Hp. change (zlen [y]) with 1 in Hp.
    apply (unshift_in_place _ _ _ l val g y (Some 0) rest); simpl; try done; lia.
Qed.

Lemma vrep_count N M v l : vrep N M v l -> 2 * N + 400 <= M < 2 ^ 27 /\ zlen l <= N.
Proof. intros H. split; [apply (vr_cap _ _ _ _ H)|apply (vr_count _ _ _ _ H)]. Qed.

Definition spec_pop (l : list Z) : list Z * (bool * Z) :=
  match rev l with [] => ([], (false, 0)) | x :: r => (rev r, (true, x)) end.
Definition spec_shift (l : list Z) : list Z * (bool * Z) :=
  match l with [] => ([], (false, 0)) | x :: l' => (l', (true, x)) end.
Definition spec_delete (l : list Z) (idx : Z) : list Z * (bool * Z) :=
  match rd l idx with
  | None => (l, (false, 0))
  | Some x => (take (Z.to_nat idx) l ++ drop (S (Z.to_nat idx)) l, (true, x))
  end.
(** An index below 0 means the end; one past the end is reached by NULLs. *)
Definition spec_insert (l : list Z) (idx val : Z) : list Z :=
  if idx <? 0 then l ++ [val]
  else take (Z.to_nat idx) l ++ replicate (Z.to_nat (idx - zlen l)) 0 ++ [val] ++ drop (Z.to_nat idx) l.

Lemma spec_pop_snoc l x : spec_pop (l ++ [x]) = (l, (true, x)).
Proof. unfold spec_pop. by rewrite rev_unit, rev_involutive. Qed.

(** What an operation with a result promises. *)
Definition vres (N M : Z) (s : list Z * (bool * Z)) (r : zvector * (bool * Z)) : Prop :=
  vrep N M r.1 s.1 /\ r.2 = s.2.

Lemma zvector_pop_rep N M v l : vrep N M v l -> runs (zvector_pop v) (vres N M (spec_pop l)).
Proof.
  intros H. destruct (vrep_split _ _ _ _ H) as (pre & rest & E & Hp & Hr).
  unfold zvector_pop. rewrite (vr_len _ _ _ _ H).
  destruct l as [|x l _] using rev_ind; [by apply runs_ret|].
  rewrite zlen_app in *. change (zlen [x]) with 1 in *. zlen_facts.
  destruct (Z.ltb_spec (zlen l + 1) 1); [lia|]. rewrite spec_pop_snoc.
  rewrite fmap_app, <- app_assoc in E. cbn [fmap list_fmap app] in E.
  pose proof (vrep_count _ _ _ _ H) as [HM HN]. rewrite zlen_app in HN. change (zlen [x]) with 1 in HN.
  destruct H as [_ Hd Ho Hl Hf Ha Hs _ _]. rewrite zlen_app in *. change (zlen [x]) with 1 in *.
  rewrite (vget_at v (pre ++ (Some <$> l)) x (Some 0 :: rest)) by (rewrite <- ?app_assoc; done || zlia).
  cbn [mbind option_bind]. eapply runs_bind.
  - apply (vterm_rep N M (vset_len v (zlen l + 1 - 1)) l pre (Some x) (Some 0 :: rest));
      simpl; try done; lia.
  - intros v' Hv'. by apply runs_ret.
Qed.

Lemma zvector_shift_rep N M v l : vrep N M v l -> runs (zvector_shift v) (vres N M (spec_shift l)).
Proof.
  intros H. destruct (vrep_split _ _ _ _ H) as (pre & rest & E & Hp & Hr).
  unfold zvector_shift. rewrite (vr_len _ _ _ _ H).
  destruct l as [|x l]; [by apply runs_ret|]. rewrite zlen_cons in *. zlen_facts.
  destruct (Z.ltb_spec (1 + zlen l) 1); [lia|].
  rewrite fmap_cons, <- app_comm_cons in E.
  pose proof (vrep_count _ _ _ _ H) as [HM HN]. rewrite zlen_cons in HN.
  destruct H as [_ Hd Ho Hl Hf Ha Hs _ _]. rewrite zlen_cons in *.
  rewrite (vget_at v pre x ((Some <$> l) ++ Some 0 :: rest)) by (done || zlia).
  cbn [mbind option_bind v_block v_data v_len v_size v_offset].
  destruct (Z.ltb_spec 200 (v_offset v + 1)).
  - (* the 201st free cell: the elements move down to offset 100 *)
    assert (Hsp : exists g1 g2, pre = g1 ++ g2 /\ zlen g1 = 100 /\ zlen g2 = 100).
    { exists (take 100 pre), (drop 100 pre). rewrite take_drop. split; [done|].
      split; [apply (zlen_take pre 100); lia|].
      transitivity (zlen pre - 100); [apply (zlen_drop pre 100)|]; lia. }
    destruct Hsp as (g1 & g2 & -> & Hg1 & Hg2).
    destruct (copy_down_spec (Some <$> l) g1 (g2 ++ [Some x]) (Some 0 :: rest)) as (rest' & Ec & Hr');
      [by destruct g2|].
    rewrite length_fmap in Ec. rewrite E.
    replace ((g1 ++ g2) ++ Some x :: (Some <$> l) ++ Some 0 :: rest)
      with (g1 ++ (g2 ++ [Some x]) ++ (Some <$> l) ++ Some 0 :: rest) by (by rewrite <- !app_assoc).
    replace (v_data v + 1) with (zlen g1 + zlen (g2 ++ [Some x])) by zlia.
    replace (_ - (v_offset v + 1) + 100) with (zlen g1) by zlia.
    replace (Z.to_nat (1 + zlen l - 1)) with (length l) by (unfold zlen; lia).
    rewrite Ec. cbn [mbind option_bind].
    destruct rest' as [|y rest']; [zlia|].
    replace (zlen g1 + (1 + zlen l - 1)) with (zlen (g1 ++ (Some <$> l))) by zlia.
    replace (g1 ++ (Some <$> l) ++ y :: rest') with ((g1 ++ (Some <$> l)) ++ y :: rest')
      by (by rewrite <- app_assoc).
    rewrite wr_app. cbn [mbind option_bind]. apply runs_ret. split; [|done].
    rewrite E in Ha. split; simpl; try done; try zlia.
    exists g1, rest'. by rewrite <- app_assoc.
  - cbn [mbind option_bind]. apply runs_ret. split; [|done]. rewrite E in Ha.
    split; simpl; try done; try zlia; [|by rewrite E; zlia].
    exists (pre ++ [Some x]), rest. rewrite E, <- app_assoc. split; [done|zlia].
Qed.

Lemma push_nulls_rep N M n : forall v l, vrep N M v l -> zlen l + Z.of_nat n <= N ->
  runs (push_nulls n v) (fun v' => vrep N M v' (l ++ replicate n 0)).
Proof.
  induction n as [|n IH]; intros v l H Hn; simpl.
  { apply runs_ret. by rewrite app_nil_r. }
  eapply runs_bind; [apply zvector_push_rep; [done|lia]|]. intros v' H'.
  replace (l ++ 0 :: replicate n 0) with ((l ++ [0]) ++ replicate n 0) by (by rewrite <- app_assoc).
  apply IH; [done|zlia].
Qed.

Lemma zvector_insert_rep N M v l idx val : vrep N M v l ->
  zlen (spec_insert l idx val) <= N ->
  runs (zvector_insert v idx val) (fun v' => vrep N M v' (spec_insert l idx val)).
Proof.
  intros H HN. unfold zvector_insert, spec_insert in *. rewrite (vr_len _ _ _ _ H). zlen_facts.
  destruct (Z.ltb_spec idx 0).
  { rewrite Z.eqb_refl. assert (Hpush : runs (zvector_push v val) (fun v' => vrep N M v' (l ++ [val])))
      by (apply zvector_push_rep; [done|zlia]).
    destruct (Z.eqb_spec (zlen l) 0) as [E0|]; [|done].
    apply zlen_inv_nil in E0 as ->. apply zvector_unshift_rep; [done|zlia]. }
  destruct (Z.eqb_spec idx 0) as [->|].
  { change (Z.to_nat 0) with 0%nat in *. replace (Z.to_nat (0 - zlen l)) with 0%nat in * by lia. cbn [take drop replicate app] in *.
    apply zvector_unshift_rep; [done|zlia]. }
  destruct (Z.eqb_spec idx (zlen l)) as [->|].
  { rewrite Z.sub_diag in *. change (replicate (Z.to_nat 0) 0) with (@nil Z) in *.
    rewrite firstn_all2, skipn_all2 in * by (unfold zlen; lia). cbn [app] in *.
    apply zvector_push_rep; [done|zlia]. }
  destruct (Z.ltb_spec idx (zlen l)).
  - replace (Z.to_nat (idx - zlen l)) with 0%nat in * by lia. cbn [replicate app] in *.
    set (l1 := take (Z.to_nat idx) l) in *. set (l2 := drop (Z.to_nat idx) l) in *.
    assert (El : l = l1 ++ l2) by (symmetry; apply take_drop).
    assert (Hl1 : zlen l1 = idx) by (apply zlen_take; lia).
    assert (Hlen : zlen l = zlen l1 + zlen l2) by (rewrite El at 1; apply zlen_app).
    rewrite zlen_app, zlen_cons in HN.
    eapply runs_bind; [apply zvector_push_rep; [done|lia]|]. intros v1 Hv1.
    destruct (vrep_split _ _ _ _ Hv1) as (pre & rest & E & Hp & Hr).
    pose proof (vrep_count _ _ _ _ Hv1) as [HM _].
    destruct Hv1 as [_ Hd Ho Hl Hf Ha Hs _ _].
    rewrite El, !fmap_app, <- !app_assoc in E. rewrite zlen_app in Hl, Hf. change (zlen [0]) with 1 in *.
    destruct (copy_up_spec (Some <$> l2) (pre ++ (Some <$> l1)) (Some 0 :: Some 0 :: rest) 1)
      as (gap & Ec & Hg); [zlia|].
    destruct gap as [|y [|? ?]]; [by change (zlen (@nil pcell)) with 0 in Hg| |zlia].
    rewrite length_fmap, <- !app_assoc in Ec. cbn [app] in Ec.
    change (drop (Z.to_nat 1) (Some 0 :: Some 0 :: rest)) with (Some 0 :: rest) in Ec.
    rewrite E. replace (v_data v1 + idx) with (zlen (pre ++ (Some <$> l1))) by zlia.
    replace (Z.to_nat (zlen l - idx)) with (length l2) by (unfold zlen in *; lia).
    change ((Some <$> [0]) ++ Some 0 :: rest) with (Some 0 :: Some 0 :: rest).
    rewrite Ec. cbn [mbind option_bind].
    rewrite (vput_at _ (pre ++ (Some <$> l1)) y ((Some <$> l2) ++ Some 0 :: rest))
      by (simpl; rewrite <- ?app_assoc; done || zlia).
    cbn [mbind option_bind].
    match goal with |- runs (vput ?w _ _) _ =>
      apply (vterm_rep N M w (l1 ++ val :: l2) pre (Some 0) rest) end; simpl; try done; try lia.
    + rewrite fmap_app, <- !app_assoc. done.
    + zlia.
    + rewrite E in Ha. zlia.
    + zlia.
  - rewrite firstn_all2, skipn_all2 in * by (unfold zlen in *; lia).
    rewrite app_nil_r in *. rewrite app_assoc in *. rewrite zlen_app in HN.
    change (zlen [val]) with 1 in HN.
    eapply runs_bind; [apply push_nulls_rep; [done|]|].
    { rewrite zlen_app, zlen_replicate in HN. lia. }
    intros v' H'. apply zvector_push_rep; [done|lia].
Qed.

Lemma zvector_delete_rep N M v l idx : vrep N M v l ->
  runs (zvector_delete v idx) (vres N M (spec_delete l idx)).
Proof.
  intros H. unfold zvector_delete, spec_delete. rewrite (vr_len _ _ _ _ H).
  destruct (Z.ltb_spec idx 0); cbn [orb].
  { rewrite rd_None by lia. by apply runs_ret. }
  destruct (Z.leb_spec (zlen l) idx).
  { rewrite rd_None by lia. by apply runs_ret. }
  destruct (Z.eqb_spec idx 0) as [->|].
  { destruct l as [|x l]; [zlia|]. by apply (zvector_shift_rep N M v (x :: l)). }
  destruct (split_at l idx) as (l1 & x & l2 & -> & Hl1); [lia|].
  rewrite <- Hl1, rd_at. rewrite zlen_app, zlen_cons in *. zlen_facts.
  destruct (vrep_split _ _ _ _ H) as (pre & rest & E & Hp & Hr).
  pose proof (vrep_count _ _ _ _ H) as [HM HN]. rewrite zlen_app, zlen_cons in *.
  destruct H as [_ Hd Ho Hl Hf Ha Hs _ _]. rewrite zlen_app, zlen_cons in *.
  rewrite fmap_app, fmap_cons, <- app_assoc, <- app_comm_cons in E.
  rewrite (vget_at v (pre ++ (Some <$> l1)) x ((Some <$> l2) ++ Some 0 :: rest))
    by (rewrite <- ?app_assoc; done || zlia).
  cbn [mbind option_bind].
  destruct (copy_down_spec ((Some <$> l2) ++ [Some 0]) (pre ++ (Some <$> l1)) [Some x] rest)
    as (rest' & Ec & Hr'); [done|].
  rewrite <- !app_assoc in Ec. cbn [app] in Ec. rewrite length_app, length_fmap in Ec.
  change (length [Some 0]) with 1%nat in Ec. rewrite E.
  replace (v_data v + zlen l1 + 1) with (zlen (pre ++ (Some <$> l1)) + zlen [Some x]) by zlia.
  replace (v_data v + zlen l1) with (zlen (pre ++ (Some <$> l1))) by zlia.
  replace (Z.to_nat (zlen l1 + (1 + zlen l2) - zlen l1)) with (length l2 + 1)%nat
    by (unfold zlen in *; simpl; lia).
  rewrite Ec. cbn [mbind option_bind].
  replace (take (Z.to_nat (zlen l1)) (l1 ++ x :: l2)) with l1.
  2: { unfold zlen. by rewrite Nat2Z.id, take_app_length. }
  replace (drop (S (Z.to_nat (zlen l1))) (l1 ++ x :: l2)) with l2.
  2: { unfold zlen. rewrite Nat2Z.id, drop_app_ge by lia.
       by replace (S (length l1) - length l1)%nat with 1%nat by lia. }
  eapply runs_bind.
  - match goal with |- runs (vput ?w _ _) _ =>
      apply (vterm_rep N M w (l1 ++ l2) pre (Some 0) rest') end; simpl; try done; try lia.
    + by rewrite fmap_app, <- app_assoc.
    + zlia.
    + rewrite E in Ha. change (zlen [Some x]) with 1 in *. zlia.
    + zlia.
  - intros v' Hv'. by apply runs_ret.
Qed.

Lemma zvector_truncate_rep N M v l n : vrep N M v l -> 0 <= n ->
  runs (zvector_truncate v n) (fun v' => vrep N M v' (take (Z.to_nat n) l)).
Proof.
  intros H Hn. destruct (vrep_split _ _ _ _ H) as (pre & rest & E & Hp & Hr).
  pose proof (vrep_count _ _ _ _ H) as [HM HN]. unfold zvector_truncate.
  rewrite (vr_len _ _ _ _ H). zlen_facts. destruct H as [_ Hd Ho Hl Hf Ha Hs _ _].
  destruct (Z.ltb_spec n (zlen l)).
  - destruct (split_at l n) as (l1 & x & l2 & -> & Hl1); [lia|].
    rewrite fmap_app, fmap_cons, <- app_assoc, <- app_comm_cons in E.
    replace (take (Z.to_nat n) (l1 ++ x :: l2)) with l1
      by (rewrite <- Hl1; unfold zlen; by rewrite Nat2Z.id, take_app_length).
    rewrite zlen_app, zlen_cons in *. zlen_facts.
    apply (vterm_rep N M (vset_len v n) l1 pre (Some x) ((Some <$> l2) ++ Some 0 :: rest));
      simpl; (done || lia).
  - rewrite firstn_all2 by (unfold zlen in *; lia).
    apply (vterm_rep N M v l pre (Some 0) rest); (done || lia).
Qed.

Lemma zvector_reset_rep N M v l : vrep N M v l ->
  runs (zvector_reset v) (fun v' => vrep N M v' []).
Proof.
  intros H. pose proof (zvector_truncate_rep N M v l 0 H ltac:(lia)) as Ht.
  unfold zvector_truncate in Ht. pose proof (vr_len _ _ _ _ H) as Hl. zlen_facts.
  unfold zvector_reset. destruct (Z.ltb_spec 0 (v_len v)); [exact Ht|].
  replace (vset_len v 0) with v; [|destruct v; unfold vset_len; simpl in *; f_equal; lia].
  replace (v_len v) with 0 in Ht by lia. exact Ht.
Qed.

Lemma zvector_create_rep N M size : 2 * N + 400 <= M < 2 ^ 27 -> 0 <= N -> size <= M ->
  runs (zvector_create size) (fun v => vrep N M v []).
Proof.
  intros HM HN Hs. unfold zvector_create, zvector_init.
  set (sz := if size <? 0 then 13 else _).
  assert (1 <= sz <= M).
  { unfold sz. destruct (Z.ltb_spec size 0), (Z.eqb_spec size 0); lia. }
  assert (Hl : zlen (pmalloc (A := Z) (sz + 1)) = sz + 1) by (apply pmalloc_len; lia).
  destruct (pmalloc (sz + 1)) as [|y rest] eqn:E; [change (zlen (@nil pcell)) with 0 in Hl; lia|].
  change (wr (y :: rest) 0 (Some 0)) with (wr ([] ++ y :: rest) (zlen (@nil pcell)) (Some 0)).
  rewrite wr_app. apply runs_ret. split; simpl; try done; try zlia. by exists [], rest.
Qed.

(** ** Sequences of operations *)
Inductive vec_op :=
  | VPush (val : Z) | VUnshift (val : Z) | VPop | VShift
  | VInsert (idx val : Z) | VDelete (idx : Z) | VTruncate (new_len : Z) | VReset.

(** An operation on a vector, and the value the operation returns, if any. *)
Definition no_result {A} (o : option A) : option (A * (bool * Z)) := (fun a => (a, (false, 0))) <$> o.
Definition run_vop (o : vec_op) (v : zvector) : option (zvector * (bool * Z)) :=
  match o with
  | VPush val => no_result (zvector_push v val)
  | VUnshift val => no_result (zvector_unshift v val)
  | VPop => zvector_pop v
  | VShift => zvector_shift v
  | VInsert idx val => no_result (zvector_insert v idx val)
  | VDelete idx => zvector_delete v idx
  | VTruncate n => no_result (zvector_truncate v n)
  | VReset => no_result (zvector_reset v)
  end.
Fixpoint run_vops (os : list vec_op) (v : zvector) : option (zvector * list (bool * Z)) :=
  match os with
  | [] => Some (v, [])
  | o :: os' => '(v, r) ← run_vop o v; '(v, rs) ← run_vops os' v; Some (v, r :: rs)
  end.

Definition spec_vop (o : vec_op) (l : list Z) : list Z * (bool * Z) :=
  match o with
  | VPush val => (l ++ [val], (false, 0))
  | VUnshift val => (val :: l, (false, 0))
  | VPop => spec_pop l
  | VShift => spec_shift l
  | VInsert idx val => (spec_insert l idx val, (false, 0))
  | VDelete idx => spec_delete l idx
  | VTruncate n => (take (Z.to_nat n) l, (false, 0))
  | VReset => ([], (false, 0))
  end.
(** [None]: a run that holds more than [N] elements at some point, or
    truncates to a negative length. *)
Fixpoint spec_vops (N : Z) (os : list vec_op) (l : list Z) : option (list Z * list (bool * Z)) :=
  match os with
  | [] => Some (l, [])
  | o :: os' =>
      let s := spec_vop o l in
      if (zlen s.1 <=? N) && match o with VTruncate n => 0 <=? n | _ => true end
      then '(l', rs) ← spec_vops N os' s.1; Some (l', s.2 :: rs)
      else None
  end.

Lemma no_result_res N M o l : runs o (fun v' => vrep N M v' l) ->
  runs (no_result o) (vres N M (l, (false, 0))).
Proof. intros (v & -> & H). by apply runs_ret. Qed.

Lemma run_vop_rep N M v l o : vrep N M v l -> zlen (spec_vop o l).1 <= N ->
  (match o with VTruncate n => 0 <=? n | _ => true end) = true ->
  runs (run_vop o v) (vres N M (spec_vop o l)).
Proof.
  intros H HN Ht. destruct o; simpl in *.
  - apply no_result_res, zvector_push_rep; [done|zlia].
  - apply no_result_res, zvector_unshift_rep; [done|zlia].
  - by apply zvector_pop_rep.
  - by apply zvector_shift_rep.
  - by apply no_result_res, zvector_insert_rep.
  - by apply zvector_delete_rep.
  - apply no_result_res, zvector_truncate_rep; [done|lia].
  - by eapply no_result_res, zvector_reset_rep.
Qed.

(** C35: refinement of the vector. Starting from [zvector_create], every
    sequence of operations that holds at most [N] elements at a time runs
    without an access outside its block, through every growth and every move
    of the elements inside the block; the vector then holds the pointers of
    the abstract sequence followed by a NULL, and every pop, shift and delete
    returned what the abstract one returns. *)
Theorem zvector_refines (os : list vec_op) (size N : Z) (l : list Z) (rs : list (bool * Z)) :
  0 <= N < 2 ^ 26 - 200 -> size < 2 ^ 27 - 1 -> spec_vops N os [] = Some (l, rs) ->
  runs (v ← zvector_create size; run_vops os v)
    (fun r => vrep N (Z.max size (2 * N + 400)) r.1 l /\ r.2 = rs).
Proof.
  intros HN Hs Hspec. set (M := Z.max size (2 * N + 400)).
  eapply runs_bind; [apply (zvector_create_rep N M); lia|].
  intros v Hv. revert v rs Hv Hspec. generalize (@nil Z) as l0.
  induction os as [|o os IH]; intros l0 v rs Hv Hspec; simpl in *.
  { simplify_eq. by apply runs_ret. }
  destruct (Z.leb_spec (zlen (spec_vop o l0).1) N); [|done]. simpl in Hspec.
  destruct (match o with VTruncate n => 0 <=? n | _ => true end) eqn:Ho; [|done].
  destruct (spec_vops N os (spec_vop o l0).1) as [[l' rs']|] eqn:E; [|done]. simplify_eq/=.
  destruct (run_vop_rep N M v l0 o Hv) as ([v' r] & -> & Hv' & Hr); [lia|done|].
  cbn [mbind option_bind]. destruct (IH _ v' rs' Hv' E) as ([v'' rs''] & -> & Hv'' & Hrs).
  apply runs_ret. simpl in *. by rewrite Hr, Hrs.
Qed.

Definition demo_vops : list vec_op :=
  [VPush 11; VPush 12; VUnshift 10; VInsert 1 15; VInsert 6 16; VShift; VDelete 1; VPop].

Lemma zvector_refines_witness :
  runs (v ← zvector_create 0; run_vops demo_vops v)
    (fun r => vrep 10 (Z.max 0 420) r.1 [15; 12; 0; 0] /\
       r.2 = [(false, 0); (false, 0); (false, 0); (false, 0); (false, 0);
              (true, 10); (true, 11); (true, 16)]).
Proof.
  apply (zvector_refines demo_vops 0 10); [lia|lia|vm_compute; reflexivity].
Defined.
