(* ===== verification/Link.v ===== *)
(** * Linked lists: the [ZMLINK_*] macros of zc.h, src/stdlib/link.c, list.c

    Nodes live in a store, a finite map from addresses; a list is a pair of
    [head] and [tail] pointers into it, 0 being NULL. The operations write the
    fields of the nodes in the order of the macros; an access through a
    pointer that is not in the store is [None]. *)
From stdpp Require Import gmap.
From S2P Require Import Prelude.

Record lnode := mk_lnode { ln_prev : Z; ln_next : Z; ln_value : Z }.
Abbreviation store := (gmap Z lnode).

(** [zlink_t]. *)
Record zlink := mk_zlink { lk_head : Z; lk_tail : Z }.

(** [p->prev = x] and [p->next = x]. *)
Definition set_prev (h : store) (p x : Z) : option store :=
  n ← h !! p; Some (<[p := mk_lnode x (ln_next n) (ln_value n)]> h).
Definition set_next (h : store) (p x : Z) : option store :=
  n ← h !! p; Some (<[p := mk_lnode (ln_prev n) x (ln_value n)]> h).

(** ** The macros *)
Definition ZMLINK_APPEND (h : store) (l : zlink) (node : Z) : option (store * zlink) :=
  if lk_head l =? 0 then
    h ← set_next h node 0; h ← set_prev h node 0;
    Some (h, mk_zlink node node)
  else
    h ← set_next h (lk_tail l) node;
    h ← set_prev h node (lk_tail l);
    h ← set_next h node 0;
    Some (h, mk_zlink (lk_head l) node).

Definition ZMLINK_PREPEND (h : store) (l : zlink) (node : Z) : option (store * zlink) :=
  if lk_head l =? 0 then
    h ← set_next h node 0; h ← set_prev h node 0;
    Some (h, mk_zlink node node)
  else
    h ← set_prev h (lk_head l) node;
    h ← set_next h node (lk_head l);
    h ← set_prev h node 0;
    Some (h, mk_zlink node (lk_tail l)).

Definition ZMLINK_ATTACH_BEFORE (h : store) (l : zlink) (node before : Z) : option (store * zlink) :=
  if lk_head l =? 0 then
    h ← set_next h node 0; h ← set_prev h node 0;
    Some (h, mk_zlink node node)
  else if before =? 0 then
    h ← set_next h (lk_tail l) node;
    h ← set_prev h node (lk_tail l);
    h ← set_next h node 0;
    Some (h, mk_zlink (lk_head l) node)
  else if before =? lk_head l then
    h ← set_prev h (lk_head l) node;
    h ← set_next h node (lk_head l);
    h ← set_prev h node 0;
    Some (h, mk_zlink node (lk_tail l))
  else
    b ← h !! before; h ← set_prev h node (ln_prev b);
    h ← set_next h node before;
    b ← h !! before; h ← set_next h (ln_prev b) node;
    h ← set_prev h before node;
    Some (h, l).

Definition ZMLINK_DETACH (h : store) (l : zlink) (node : Z) : option (store * zlink) :=
  n ← h !! node;
  '(h, head) ← (if negb (ln_prev n =? 0)
                then h ← set_next h (ln_prev n) (ln_next n); Some (h, lk_head l)
                else Some (h, ln_next n));
  n ← h !! node;
  '(h, tail) ← (if negb (ln_next n =? 0)
                then h ← set_prev h (ln_next n) (ln_prev n); Some (h, lk_tail l)
                else Some (h, ln_prev n));
  Some (h, mk_zlink head tail).

Definition ZMLINK_CONCAT (h : store) (l1 l2 : zlink) : option (store * zlink) :=
  if negb (lk_head l2 =? 0) then
    if negb (lk_head l1 =? 0) then
      h ← set_next h (lk_tail l1) (lk_head l2);
      h ← set_prev h (lk_head l2) (lk_tail l1);
      Some (h, mk_zlink (lk_head l1) (lk_tail l2))
    else Some (h, mk_zlink (lk_head l2) (lk_tail l2))
  else Some (h, l1).

(** ** src/stdlib/link.c *)
Definition zlink_attach_before := ZMLINK_ATTACH_BEFORE.
Definition zlink_push := ZMLINK_APPEND.
Definition zlink_unshift := ZMLINK_PREPEND.
(** The functions that return a node return it with the new state. *)
Definition zlink_detach (h : store) (l : zlink) (node : Z) : option (store * zlink * Z) :=
  if node =? 0 then Some (h, l, 0)
  else '(h, l) ← ZMLINK_DETACH h l node; Some (h, l, node).
Definition zlink_pop (h : store) (l : zlink) : option (store * zlink * Z) :=
  let node := lk_tail l in
  if node =? 0 then Some (h, l, 0)
  else '(h, l) ← ZMLINK_DETACH h l node; Some (h, l, node).
Definition zlink_shift (h : store) (l : zlink) : option (store * zlink * Z) :=
  let node := lk_head l in
  if node =? 0 then Some (h, l, 0)
  else '(h, l) ← ZMLINK_DETACH h l node; Some (h, l, node).

(** ** src/stdlib/list.c

    [len] is an [int]: counting past its range is undefined. *)
Record zlist := mk_zlist { li_link : zlink; li_len : Z }.

Definition zlist_create : zlist := mk_zlist (mk_zlink 0 0) 0.

Definition zlist_attach_before (h : store) (l : zlist) (n before : Z) : option (store * zlist) :=
  '(h, k) ← ZMLINK_ATTACH_BEFORE h (li_link l) n before;
  len ← as_int (li_len l + 1);
  Some (h, mk_zlist k len).
Definition zlist_detach (h : store) (l : zlist) (n : Z) : option (store * zlist) :=
  '(h, k) ← ZMLINK_DETACH h (li_link l) n;
  len ← as_int (li_len l - 1);
  Some (h, mk_zlist k len).

(** [n] is the address [zcalloc] returns; the node comes zeroed. *)
Definition zlist_add_before (h : store) (l : zlist) (n value before : Z) : option (store * zlist) :=
  zlist_attach_before (<[n := mk_lnode 0 0 value]> h) l n before.

(** The result: found or not, and [*value]. [zfree] removes the node. *)
Definition zlist_delete (h : store) (l : zlist) (n : Z) : option (store * zlist * option Z) :=
  if n =? 0 then Some (h, l, None)
  else
    nd ← h !! n;
    '(h, l) ← zlist_detach h l n;
    Some (delete n h, l, Some (ln_value nd)).

Definition zlist_push (h : store) (l : zlist) (n v : Z) := zlist_add_before h l n v 0.
Definition zlist_unshift (h : store) (l : zlist) (n v : Z) :=
  zlist_add_before h l n v (lk_head (li_link l)).
Definition zlist_pop (h : store) (l : zlist) := zlist_delete h l (lk_tail (li_link l)).
Definition zlist_shift (h : store) (l : zlist) := zlist_delete h l (lk_head (li_link l)).

(** [while (list->len) zlist_pop(list, 0)] *)
Fixpoint reset_loop (fuel : nat) (h : store) (l : zlist) : option (store * zlist) :=
  if li_len l =? 0 then Some (h, l) else
  match fuel with
  | O => None
  | S fuel' => '(h, l, _) ← zlist_pop h l; reset_loop fuel' h l
  end.
Definition zlist_reset (h : store) (l : zlist) : option (store * zlist) :=
  reset_loop (Z.to_nat (li_len l)) h l.

(** ** Shape of a doubly linked list

    [dseg h p l n]: the nodes of [l], with their values, are linked in order;
    the first one's [prev] is [p], the last one's [next] is [n]. *)
Abbreviation item := (Z * Z)%type.
Definition first_ptr (l : list item) (n : Z) : Z := match l with [] => n | (x, _) :: _ => x end.
Fixpoint last_ptr (p : Z) (l : list item) : Z :=
  match l with [] => p | (x, _) :: l' => last_ptr x l' end.

Fixpoint dseg (h : store) (p : Z) (l : list item) (n : Z) : Prop :=
  match l with
  | [] => True
  | (x, v) :: l' => h !! x = Some (mk_lnode p (first_ptr l' n) v) /\ dseg h x l' n
  end.

Lemma first_ptr_app l1 l2 n : first_ptr (l1 ++ l2) n = first_ptr l1 (first_ptr l2 n).
Proof. by destruct l1 as [|[]]. Qed.
Lemma last_ptr_app p l1 l2 : last_ptr p (l1 ++ l2) = last_ptr (last_ptr p l1) l2.
Proof. revert p. induction l1 as [|[x v] l1 IH]; intros p; [done|apply IH]. Qed.

Lemma dseg_app h p l1 l2 n :
  dseg h p (l1 ++ l2) n <-> dseg h p l1 (first_ptr l2 n) /\ dseg h (last_ptr p l1) l2 n.
Proof.
  revert p. induction l1 as [|[x v] l1 IH]; intros p; simpl; [tauto|].
  rewrite IH, first_ptr_app. tauto.
Qed.

Lemma dseg_frame h p l n x nd : x ∉ l.*1 -> dseg h p l n -> dseg (<[x := nd]> h) p l n.
Proof.
  revert p. induction l as [|[y v] l IH]; intros p Hx; simpl; [done|].
  rewrite fmap_cons, not_elem_of_cons in Hx. destruct Hx as [Hxy Hx].
  rewrite lookup_insert_ne by done. intros [? ?]. split; [done|by apply IH].
Qed.

Lemma dseg_delete h p l n x : x ∉ l.*1 -> dseg h p l n -> dseg (delete x h) p l n.
Proof.
  revert p. induction l as [|[y v] l IH]; intros p Hx; simpl; [done|].
  rewrite fmap_cons, not_elem_of_cons in Hx. destruct Hx as [Hxy Hx].
  rewrite lookup_delete_ne by done. intros [? ?]. split; [done|by apply IH].
Qed.

Lemma set_next_eq h x p n v m : h !! x = Some (mk_lnode p n v) ->
  set_next h x m = Some (<[x := mk_lnode p m v]> h).
Proof. intros E. unfold set_next. by rewrite E. Qed.
Lemma set_prev_eq h x p n v m : h !! x = Some (mk_lnode p n v) ->
  set_prev h x m = Some (<[x := mk_lnode m n v]> h).
Proof. intros E. unfold set_prev. by rewrite E. Qed.

(** Redirecting the two ends of a segment. *)
Lemma dseg_set_prev h p x v l n p' : x ∉ l.*1 -> dseg h p ((x, v) :: l) n ->
  exists h', set_prev h x p' = Some h' /\ dseg h' p' ((x, v) :: l) n /\
    (forall y, y <> x -> h' !! y = h !! y) /\ dom h' = dom h.
Proof.
  intros Hx [Hl Hs]. rewrite (set_prev_eq _ _ _ _ _ _ Hl). eexists. split; [done|].
  split; [split; [by rewrite lookup_insert_eq|by apply dseg_frame]|].
  split; [intros y Hy; by rewrite lookup_insert_ne|].
  apply dom_insert_lookup_L. eauto.
Qed.

Lemma dseg_set_next h p l x v n n' : x ∉ l.*1 -> dseg h p (l ++ [(x, v)]) n ->
  exists h', set_next h x n' = Some h' /\ dseg h' p (l ++ [(x, v)]) n' /\
    (forall y, y <> x -> h' !! y = h !! y) /\ dom h' = dom h.
Proof.
  intros Hx [Hs [Hl _]]%dseg_app. rewrite (set_next_eq _ _ _ _ _ _ Hl). eexists. split; [done|].
  split; [apply dseg_app; split; [by apply dseg_frame|split; [by rewrite lookup_insert_eq|done]]|].
  split; [intros y Hy; by rewrite lookup_insert_ne|].
  apply dom_insert_lookup_L. eauto.
Qed.

(** A segment only depends on the nodes it holds. *)
Lemma dseg_agree h h' p l n : (forall y, y ∈ l.*1 -> h' !! y = h !! y) ->
  dseg h p l n -> dseg h' p l n.
Proof.
  revert p. induction l as [|[y v] l IH]; intros p Hy; simpl; [done|].
  intros [? ?]. split; [rewrite Hy; [done|by left]|].
  apply IH; [|done]. intros z Hz. apply Hy. by right.
Qed.

Lemma last_ptr_snoc p l x v : last_ptr p (l ++ [(x, v)]) = x.
Proof. by rewrite last_ptr_app. Qed.
Lemma last_ptr_cases (l : list item) : l = [] \/ exists l' x v, l = l' ++ [(x, v)].
Proof. destruct l as [|[x v] l _] using rev_ind; [by left|right; eauto]. Qed.

Lemma elem_mid (l1 l2 : list item) x v : x ∈ (l1 ++ (x, v) :: l2).*1.
Proof. rewrite fmap_app. apply elem_of_app. right. by left. Qed.
Lemma elem_end (l1 l2 : list item) x v : x ∈ ((l1 ++ [(x, v)]) ++ l2).*1.
Proof. rewrite <- app_assoc. apply elem_mid. Qed.

(** A whole list: [head], [tail] and the nodes between, all of them distinct
    and none at NULL. *)
Record dll (h : store) (k : zlink) (l : list item) : Prop := {
  dll_seg : dseg h 0 l 0;
  dll_head : lk_head k = first_ptr l 0;
  dll_tail : lk_tail k = last_ptr 0 l;
  dll_nodup : NoDup l.*1;
  dll_null : 0 ∉ l.*1
}.

Lemma dll_cases h k l : dll h k l ->
  (l = [] /\ lk_head k = 0 /\ lk_tail k = 0) \/
  (l <> [] /\ lk_head k <> 0 /\ lk_tail k <> 0 /\ lk_head k ∈ l.*1 /\ lk_tail k ∈ l.*1).
Proof.
  intros [_ Hh Ht _ H0]. destruct l as [|[x v] l]; [by left|right].
  destruct (last_ptr_cases ((x, v) :: l)) as [?|(l' & y & w & E)]; [done|].
  rewrite E, last_ptr_snoc in Ht. simpl in Hh.
  assert (Hx : x ∈ ((x, v) :: l).*1) by (by left).
  assert (Hy : y ∈ ((x, v) :: l).*1) by (rewrite E; apply elem_mid).
  rewrite Hh, Ht. repeat split; try done; intros ->; done.
Qed.

(** What an insertion must establish. *)
Lemma dll_insert h' k' l1 l2 n v :
  h' !! n = Some (mk_lnode (last_ptr 0 l1) (first_ptr l2 0) v) ->
  dseg h' 0 l1 n -> dseg h' n l2 0 ->
  lk_head k' = first_ptr l1 n -> lk_tail k' = last_ptr n l2 ->
  NoDup (l1 ++ l2).*1 -> 0 ∉ (l1 ++ l2).*1 -> n <> 0 -> n ∉ (l1 ++ l2).*1 ->
  dll h' k' (l1 ++ (n, v) :: l2).
Proof.
  intros Hn H1 H2 Hh Ht Hd H0 Hn0 Hf. rewrite fmap_app in *. split.
  - apply dseg_app. split; [done|]. split; done.
  - rewrite first_ptr_app. done.
  - rewrite last_ptr_app. done.
  - rewrite fmap_app, fmap_cons. simpl. apply NoDup_app in Hd as (? & ? & ?). apply NoDup_app.
    split; [done|]. split; [set_solver|]. apply NoDup_cons. set_solver.
  - rewrite fmap_app, fmap_cons. simpl. set_solver.
Qed.

(** The fields of the inserted node are written last or first; the rest of the
    store is not touched by those writes. *)
Lemma link_node (h : store) n p0 n0 v p' n' : h !! n = Some (mk_lnode p0 n0 v) ->
  (h1 ← set_prev h n p'; set_next h1 n n') = Some (<[n := mk_lnode p' n' v]> h) /\
  (h1 ← set_next h n n'; set_prev h1 n p') = Some (<[n := mk_lnode p' n' v]> h).
Proof.
  intros E. rewrite (set_prev_eq _ _ _ _ _ _ E), (set_next_eq _ _ _ _ _ _ E). simpl.
  erewrite set_next_eq, set_prev_eq by (by rewrite lookup_insert_eq).
  by rewrite !insert_insert_eq.
Qed.

Definition frame_ok (h h' : store) (n : Z) (l : list item) : Prop :=
  dom h' = dom h /\ forall y, y <> n -> y ∉ l.*1 -> h' !! y = h !! y.

Section attach.
Context (h : store) (n v p0 n0 : Z).
Hypothesis Hn : h !! n = Some (mk_lnode p0 n0 v).
Hypothesis Hn0 : n <> 0.

Lemma link_node_frame p' n' l : frame_ok h (<[n := mk_lnode p' n' v]> h) n l.
Proof using Hn.
  split; [apply dom_insert_lookup_L; eauto|]. intros y Hy _. by rewrite lookup_insert_ne.
Qed.

Lemma append_dll k l : dll h k l -> n ∉ l.*1 -> l <> [] ->
  exists h' k', (h1 ← set_next h (lk_tail k) n; h1 ← set_prev h1 n (lk_tail k);
    h1 ← set_next h1 n 0; Some (h1, mk_zlink (lk_head k) n)) = Some (h', k') /\
    dll h' k' (l ++ [(n, v)]) /\ frame_ok h h' n l.
Proof using Hn Hn0.
  intros [Hs Hh Ht Hd H0] Hf Hne.
  destruct (last_ptr_cases l) as [?|(l' & x & w & ->)]; [done|]. rewrite last_ptr_snoc in Ht.
  rewrite fmap_app in Hd. pose proof Hd as (_ & Hx & _)%NoDup_app.
  assert (Hxl : x ∉ l'.*1) by (intros Hin; apply (Hx x Hin); by left).
  destruct (dseg_set_next h 0 l' x w 0 n Hxl Hs) as (h1 & E1 & Hs1 & Ha1 & Hd1).
  rewrite Ht, E1. simpl. rewrite fmap_app in Hf. simpl in Hf.
  assert (Hnx : n <> x) by set_solver.
  assert (E2 : h1 !! n = Some (mk_lnode p0 n0 v)) by (by rewrite Ha1).
  destruct (link_node h1 n p0 n0 v x 0 E2) as [E3 _].
  rewrite (set_prev_eq _ _ _ _ _ _ E2) in *. simpl in *. rewrite E3. simpl.
  do 2 eexists. split; [done|]. split.
  - apply dll_insert; simpl; rewrite ?app_nil_r, ?fmap_app; try done.
    + by rewrite lookup_insert_eq, last_ptr_snoc.
    + apply dseg_frame; [by rewrite fmap_app|done].
    + rewrite Hh, !first_ptr_app. by destruct l' as [|[]].
    + by rewrite <- fmap_app.
  - split.
    + rewrite dom_insert_lookup_L by eauto. done.
    + intros y Hy Hyl. rewrite lookup_insert_ne by done. apply Ha1.
      rewrite fmap_app in Hyl. simpl in Hyl. set_solver.
Qed.

Lemma prepend_dll k l : dll h k l -> n ∉ l.*1 -> l <> [] ->
  exists h' k', (h1 ← set_prev h (lk_head k) n; h1 ← set_next h1 n (lk_head k);
    h1 ← set_prev h1 n 0; Some (h1, mk_zlink n (lk_tail k))) = Some (h', k') /\
    dll h' k' ((n, v) :: l) /\ frame_ok h h' n l.
Proof using Hn Hn0.
  intros [Hs Hh Ht Hd H0] Hf Hne. destruct l as [|[x w] l]; [done|]. simpl in Hh.
  rewrite fmap_cons in Hd, Hf. simpl in Hd, Hf. apply NoDup_cons in Hd as [Hxl Hd].
  destruct (dseg_set_prev h 0 x w l 0 n Hxl Hs) as (h1 & E1 & Hs1 & Ha1 & Hd1).
  rewrite Hh, E1. simpl. assert (Hnx : n <> x) by set_solver.
  assert (E2 : h1 !! n = Some (mk_lnode p0 n0 v)) by (by rewrite Ha1).
  destruct (link_node h1 n p0 n0 v 0 x E2) as [_ E3].
  rewrite (set_next_eq _ _ _ _ _ _ E2) in *. simpl in *. rewrite E3. simpl.
  do 2 eexists. split; [done|]. split.
  - apply (dll_insert _ _ [] ((x, w) :: l)); simpl; try done.
    + by rewrite lookup_insert_eq.
    + apply (dseg_frame h1 n ((x, w) :: l) 0); [|done]. done.
    + by apply NoDup_cons.
  - split; [rewrite dom_insert_lookup_L by eauto; done|].
    intros y Hy Hyl. rewrite lookup_insert_ne by done. apply Ha1.
    rewrite fmap_cons in Hyl. simpl in Hyl. set_solver.
Qed.
End attach.

(** Addresses of the two halves of a list are different. *)
Lemma halves_disjoint (l1 l2 : list item) y z : NoDup (l1 ++ l2).*1 ->
  y ∈ l1.*1 -> z ∈ l2.*1 -> y <> z.
Proof. rewrite fmap_app, NoDup_app. intros (_ & H & _) Hy Hz ->. by eapply H. Qed.

Lemma insert_middle_dll h n v p0 n0 k l1 l2 :
  h !! n = Some (mk_lnode p0 n0 v) -> n <> 0 ->
  dll h k (l1 ++ l2) -> n ∉ (l1 ++ l2).*1 -> l1 <> [] -> l2 <> [] ->
  exists h' , (b ← h !! first_ptr l2 0; h1 ← set_prev h n (ln_prev b);
    h1 ← set_next h1 n (first_ptr l2 0);
    b ← h1 !! first_ptr l2 0; h1 ← set_next h1 (ln_prev b) n;
    h1 ← set_prev h1 (first_ptr l2 0) n; Some (h1, k)) = Some (h', k) /\
    dll h' k (l1 ++ (n, v) :: l2) /\ frame_ok h h' n (l1 ++ l2).
Proof.
  intros Hn Hn0 [Hs Hh Ht Hd H0] Hf Hne1 Hne2.
  destruct (last_ptr_cases l1) as [?|(l1' & x & w & ->)]; [done|].
  destruct l2 as [|[b vb] l2]; [done|]. simpl first_ptr.
  apply dseg_app in Hs as [Hs1 Hs2]. rewrite last_ptr_snoc in Hs2. simpl in Hs2.
  destruct Hs2 as [Hb Hs2]. pose proof (halves_disjoint _ _ x b Hd) as Hxb.
  assert (Hx : x ∈ (l1' ++ [(x, w)]).*1) by (rewrite fmap_app; apply elem_of_app; right; by left).
  assert (Hbl : b ∈ ((b, vb) :: l2).*1) by (by left). specialize (Hxb Hx Hbl).
  assert (Hf12 : n ∉ (l1' ++ [(x, w)]).*1 /\ n ∉ ((b, vb) :: l2).*1)
    by (rewrite fmap_app, not_elem_of_app in Hf; done).
  destruct Hf12 as [Hf1 Hf2].
  assert (Hnx : n <> x) by (by intros ->). assert (Hnb : n <> b) by (by intros ->).
  rewrite Hb. simpl. destruct (link_node h n p0 n0 v x b Hn) as [E _].
  rewrite (set_prev_eq _ _ _ _ _ _ Hn) in *. simpl in *. rewrite E. simpl.
  set (h2 := <[n := mk_lnode x b v]> h). assert (Hb2 : h2 !! b = h !! b) by (by apply lookup_insert_ne).
  rewrite Hb2, Hb. simpl.
  assert (Hd1 : NoDup (l1' ++ [(x, w)]).*1 /\ NoDup ((b, vb) :: l2).*1)
    by (rewrite fmap_app in Hd; apply NoDup_app in Hd as (? & _ & ?); done).
  destruct Hd1 as [Hd1 Hd2]. rewrite fmap_app in Hd1. apply NoDup_app in Hd1 as (_ & Hx' & _).
  assert (Hxl : x ∉ l1'.*1) by (intros Hin; apply (Hx' x Hin); by left).
  rewrite fmap_cons in Hd2. apply NoDup_cons in Hd2 as [Hbl2 Hd2].
  destruct (dseg_set_next h2 0 l1' x w b n Hxl) as (h3 & -> & Hs3 & Ha3 & Hdom3).
  { by apply dseg_frame. }
  simpl. destruct (dseg_set_prev h3 x b vb l2 0 n Hbl2) as (h4 & -> & Hs4 & Ha4 & Hdom4).
  { apply (dseg_agree h); [|by split]. intros y Hy.
    rewrite Ha3 by (intros ->; by apply (halves_disjoint _ _ x x Hd)).
    apply lookup_insert_ne. by intros ->. }
  simpl. exists h4. split; [done|]. split.
  - apply dll_insert; rewrite ?last_ptr_snoc; try done.
    + rewrite Ha4, Ha3 by done. by apply lookup_insert_eq.
    + apply (dseg_agree h3); [|done]. intros y Hy. apply Ha4.
      by apply (halves_disjoint _ _ y b Hd).
    + rewrite Hh. by destruct l1' as [|[]].
    + by rewrite Ht, last_ptr_app.
  - split.
    + rewrite Hdom4, Hdom3. unfold h2. apply dom_insert_lookup_L. eauto.
    + intros y Hy Hyl. rewrite fmap_app, not_elem_of_app in Hyl. destruct Hyl as [Hy1 Hy2].
      rewrite Ha4 by (by intros ->). rewrite Ha3 by (by intros ->). by apply lookup_insert_ne.
Qed.

(** Insertion of [n] before the first node of [l2] (at the end if there is
    none). *)
Lemma attach_before_dll h k l1 l2 n v p0 n0 :
  dll h k (l1 ++ l2) -> h !! n = Some (mk_lnode p0 n0 v) -> n <> 0 -> n ∉ (l1 ++ l2).*1 ->
  exists h' k', ZMLINK_ATTACH_BEFORE h k n (first_ptr l2 0) = Some (h', k') /\
    dll h' k' (l1 ++ (n, v) :: l2) /\ frame_ok h h' n (l1 ++ l2).
Proof.
  intros H Hn Hn0 Hf. unfold ZMLINK_ATTACH_BEFORE.
  destruct (dll_cases _ _ _ H) as [(E & Hh & Ht)|(E & Hh & Ht & Hhin & Htin)].
  - apply app_nil in E as [-> ->]. rewrite Hh. simpl.
    destruct (link_node h n p0 n0 v 0 0 Hn) as [_ E].
    rewrite (set_next_eq _ _ _ _ _ _ Hn) in *. simpl in *. rewrite E. simpl.
    do 2 eexists. split; [done|]. split; [|by eapply link_node_frame].
    split; simpl; try done; [by rewrite lookup_insert_eq|apply NoDup_singleton|set_solver].
  - destruct (Z.eqb_spec (lk_head k) 0); [done|].
    destruct l2 as [|[b vb] l2].
    { rewrite app_nil_r in *. cbn [first_ptr Z.eqb]. by eapply append_dll. }
    assert (Hb0 : b <> 0).
    { intros ->. apply (dll_null _ _ _ H), elem_mid. }
    cbn [first_ptr]. destruct (Z.eqb_spec b 0); [done|].
    destruct l1 as [|[a va] l1].
    + pose proof (dll_head _ _ _ H) as Eh. simpl in Eh.
      destruct (Z.eqb_spec b (lk_head k)); [|congruence]. by eapply prepend_dll.
    + assert (Hne : b <> lk_head k).
      { rewrite (dll_head _ _ _ H). simpl. intros ->.
        apply (halves_disjoint ((a, va) :: l1) ((a, vb) :: l2) a a (dll_nodup _ _ _ H)); [by left|by left|done]. }
      destruct (Z.eqb_spec b (lk_head k)); [done|].
      destruct (insert_middle_dll h n v p0 n0 k ((a, va) :: l1) ((b, vb) :: l2))
        as (h' & E' & Hr); try done.
      exists h', k. split; [exact E'|done].
Qed.

(** Removal of a node: the rest is linked up, the node itself keeps its
    fields. *)
Lemma detach_dll h k l1 l2 n v : dll h k (l1 ++ (n, v) :: l2) ->
  exists h' k', ZMLINK_DETACH h k n = Some (h', k') /\ dll h' k' (l1 ++ l2) /\
    frame_ok h h' n (l1 ++ l2) /\ h' !! n = h !! n.
Proof.
  intros [Hs Hh Ht Hd H0]. rewrite first_ptr_app in Hh. rewrite last_ptr_app in Ht. simpl in Ht.
  apply dseg_app in Hs as [Hs1 [Hn Hs2]]. simpl in Hs1.
  rewrite fmap_app, fmap_cons in Hd. simpl in Hd. apply NoDup_app in Hd as (Hd1 & Hd12 & Hd2).
  apply NoDup_cons in Hd2 as [Hn2 Hd2].
  assert (Hn1 : n ∉ l1.*1) by (intros Hin; apply (Hd12 n Hin); by left).
  assert (Hnd : NoDup (l1 ++ l2).*1).
  { rewrite fmap_app. apply NoDup_app. split; [done|]. split; [|done].
    intros y Hy Hy2. apply (Hd12 y Hy). by right. }
  assert (H0' : 0 ∉ (l1 ++ l2).*1).
  { rewrite fmap_app, not_elem_of_app in *. rewrite fmap_cons, not_elem_of_cons in H0. tauto. }
  unfold ZMLINK_DETACH. rewrite Hn. cbn [mbind option_bind ln_prev ln_next].
  (* the left neighbour, or the head *)
  assert (Hleft : exists h1 head, (if negb (last_ptr 0 l1 =? 0)
      then h1 ← set_next h (last_ptr 0 l1) (first_ptr l2 0); Some (h1, lk_head k)
      else Some (h, first_ptr l2 0)) = Some (h1, head) /\
      dseg h1 0 l1 (first_ptr l2 0) /\ head = first_ptr l1 (first_ptr l2 0) /\
      dom h1 = dom h /\ (forall y, y ∉ l1.*1 -> h1 !! y = h !! y)).
  { destruct (last_ptr_cases l1) as [->|(l1' & x & w & ->)].
    { simpl. do 2 eexists. done. }
    rewrite last_ptr_snoc. assert (Hx : x ∈ (l1' ++ [(x, w)]).*1)
      by (rewrite fmap_app; apply elem_of_app; right; by left).
    destruct (Z.eqb_spec x 0) as [->|]; [exfalso; apply H0', elem_end|].
    rewrite fmap_app in Hd1. apply NoDup_app in Hd1 as (_ & Hx' & _).
    assert (Hxl : x ∉ l1'.*1) by (intros Hin; apply (Hx' x Hin); by left).
    destruct (dseg_set_next h 0 l1' x w n (first_ptr l2 0) Hxl Hs1) as (h1 & E & Hs & Ha & Hdom).
    simpl. rewrite E. simpl. do 2 eexists. split; [done|]. split; [done|].
    split; [rewrite Hh, !first_ptr_app; by destruct l1' as [|[]]|]. split; [done|].
    intros y Hy. apply Ha. by intros ->. }
  destruct Hleft as (h1 & head & -> & Hs1' & Hhead & Hdom1 & Ha1).
  cbn [mbind option_bind]. rewrite (Ha1 n Hn1), Hn. cbn [mbind option_bind ln_prev ln_next].
  assert (Hs2' : dseg h1 n l2 0).
  { apply (dseg_agree h); [|done]. intros y Hy. apply Ha1. intros Hy1.
    by apply (halves_disjoint _ _ y y Hnd). }
  (* the right neighbour, or the tail *)
  destruct l2 as [|[b vb] l2].
  - simpl. do 2 eexists. split; [done|]. rewrite app_nil_r in *.
    split; [by split|]. split; [split; [done|]|by rewrite Ha1]. intros y _ Hy. by apply Ha1.
  - cbn [first_ptr] in *. destruct (Z.eqb_spec b 0) as [->|]; [exfalso; apply H0', elem_mid|].
    rewrite fmap_cons in Hd2. apply NoDup_cons in Hd2 as [Hbl Hd2].
    destruct (dseg_set_prev h1 n b vb l2 0 (last_ptr 0 l1) Hbl Hs2') as (h2 & E & Hs & Ha & Hdom).
    simpl. rewrite E. simpl. do 2 eexists. split; [done|]. split; [split; simpl; try done|].
    + apply dseg_app. split; [|done]. apply (dseg_agree h1); [|done]. intros y Hy. apply Ha.
      intros ->. apply (halves_disjoint _ _ b b Hnd); [done|by left|done].
    + by rewrite first_ptr_app.
    + rewrite Ht. by rewrite last_ptr_app.
    + split.
      * split; [by rewrite Hdom|]. intros y _ Hy. rewrite fmap_app, not_elem_of_app in Hy.
        destruct Hy as [Hy1 Hy2]. rewrite Ha by (intros ->; apply Hy2; by left). by apply Ha1.
      * rewrite Ha by (intros ->; apply Hn2; by left). by rewrite Ha1.
Qed.

(** ** Specification of zlist: a sequence of (address, value) pairs *)
Fixpoint insert_before (n v before : Z) (l : list item) : list item :=
  match l with
  | [] => [(n, v)]
  | (x, w) :: l' =>
      if x =? before then (n, v) :: l else (x, w) :: insert_before n v before l'
  end.
Fixpoint remove_node (n : Z) (l : list item) : list item * option Z :=
  match l with
  | [] => ([], None)
  | (x, w) :: l' =>
      if x =? n then (l', Some w) else let r := remove_node n l' in ((x, w) :: r.1, r.2)
  end.

Inductive list_op :=
  | LAdd (n v before : Z) | LDelete (n : Z)
  | LPush (n v : Z) | LUnshift (n v : Z) | LPop | LShift | LReset.

Definition no_value {A B} (o : option (A * B)) : option (A * B * option Z) :=
  (fun r => (r, None)) <$> o.
Definition run_lop (o : list_op) (h : store) (l : zlist) : option (store * zlist * option Z) :=
  match o with
  | LAdd n v before => no_value (zlist_add_before h l n v before)
  | LDelete n => zlist_delete h l n
  | LPush n v => no_value (zlist_push h l n v)
  | LUnshift n v => no_value (zlist_unshift h l n v)
  | LPop => zlist_pop h l
  | LShift => zlist_shift h l
  | LReset => no_value (zlist_reset h l)
  end.

(** The contract: a new node comes at a fresh address and to a list of fewer than
    [INT_MAX] nodes, a node that is named belongs to the list, or is NULL. *)
Definition lop_ok (o : list_op) (l : list item) : bool :=
  match o with
  | LAdd n _ before =>
      bool_decide (n <> 0 /\ n ∉ l.*1 /\ zlen l < int_max) && bool_decide (before = 0 \/ before ∈ l.*1)
  | LPush n _ | LUnshift n _ => bool_decide (n <> 0 /\ n ∉ l.*1 /\ zlen l < int_max)
  | LDelete n => bool_decide (n = 0 \/ n ∈ l.*1)
  | LPop | LShift | LReset => true
  end.
Definition spec_lop (o : list_op) (l : list item) : list item * option Z :=
  match o with
  | LAdd n v before => (insert_before n v before l, None)
  | LDelete n => remove_node n l
  | LPush n v => (l ++ [(n, v)], None)
  | LUnshift n v => ((n, v) :: l, None)
  | LPop => match rev l with [] => ([], None) | (_, v) :: r => (rev r, Some v) end
  | LShift => match l with [] => ([], None) | (_, v) :: l' => (l', Some v) end
  | LReset => ([], None)
  end.

(** The store holds exactly the nodes of the list: nothing leaks. *)
Definition lrep (h : store) (L : zlist) (l : list item) : Prop :=
  dll h (li_link L) l /\ (li_len L = zlen l /\ zlen l <= int_max) /\ dom h = list_to_set l.*1.

Lemma insert_before_eq n v before l1 l2 : before ∉ l1.*1 -> before = first_ptr l2 0 \/ l2 = [] ->
  insert_before n v before (l1 ++ l2) = l1 ++ (n, v) :: l2.
Proof.
  induction l1 as [|[x w] l1 IH]; intros Hb Hf.
  - destruct l2 as [|[y u] l2]; [done|]. destruct Hf as [->|?]; [|done].
    simpl. by rewrite Z.eqb_refl.
  - rewrite fmap_cons, not_elem_of_cons in Hb. destruct Hb as [Hxb Hb]. simpl in *.
    destruct (Z.eqb_spec x before); [congruence|]. by rewrite IH.
Qed.

Lemma remove_node_eq n v l1 l2 : n ∉ l1.*1 ->
  remove_node n (l1 ++ (n, v) :: l2) = (l1 ++ l2, Some v).
Proof.
  induction l1 as [|[x w] l1 IH]; intros Hb; simpl; [by rewrite Z.eqb_refl|].
  rewrite fmap_cons, not_elem_of_cons in Hb. destruct Hb as [Hxb Hb]. simpl in *.
  destruct (Z.eqb_spec x n); [congruence|]. by rewrite IH.
Qed.

Lemma elem_split (l : list item) x : x ∈ l.*1 -> NoDup l.*1 ->
  exists l1 v l2, l = l1 ++ (x, v) :: l2 /\ x ∉ l1.*1 /\ x ∉ l2.*1.
Proof.
  intros Hx Hd. apply list_elem_of_fmap in Hx as ([y v] & -> & Hy).
  apply list_elem_of_split in Hy as (l1 & l2 & ->). exists l1, v, l2. split; [done|].
  rewrite fmap_app, fmap_cons in Hd. apply NoDup_app in Hd as (_ & H1 & H2).
  apply NoDup_cons in H2 as [H2 _]. split; [|done]. intros Hin. apply (H1 _ Hin). by left.
Qed.

Lemma add_before_lrep h L l1 l2 n v : lrep h L (l1 ++ l2) -> n <> 0 -> n ∉ (l1 ++ l2).*1 ->
  zlen (l1 ++ l2) < int_max ->
  exists h' L', zlist_add_before h L n v (first_ptr l2 0) = Some (h', L') /\
    lrep h' L' (l1 ++ (n, v) :: l2).
Proof.
  intros ([Hs Hh Ht Hd H0] & [Hlen _] & Hdom) Hn Hf Hmax.
  assert (Hdll : dll (<[n := mk_lnode 0 0 v]> h) (li_link L) (l1 ++ l2))
    by (split; try done; by apply dseg_frame).
  destruct (attach_before_dll _ _ l1 l2 n v 0 0 Hdll) as (h' & k' & E & Hd' & Hdom' & _);
    [by rewrite lookup_insert_eq|done|done|].
  pose proof (zlen_nonneg (l1 ++ l2)). unfold int_max in *.
  unfold zlist_add_before, zlist_attach_before. rewrite E. cbn [mbind option_bind].
  rewrite Hlen, as_int_Some by lia. cbn [mbind option_bind].
  do 2 eexists. split; [done|]. split; [done|]. split; [simpl; revert Hmax; unfold int_max; autorewrite with zlen; lia|].
  rewrite Hdom', dom_insert_L, Hdom, !fmap_app, fmap_cons, !list_to_set_app_L. simpl. set_solver.
Qed.

Lemma delete_lrep h L l1 l2 n v : lrep h L (l1 ++ (n, v) :: l2) ->
  exists h' L', zlist_delete h L n = Some (h', L', Some v) /\ lrep h' L' (l1 ++ l2).
Proof.
  intros (Hdll & [Hlen Hmax] & Hdom).
  destruct (detach_dll _ _ _ _ _ _ Hdll) as (h' & k' & E & Hd' & [Hdom' _] & _).
  pose proof Hdll as [Hs _ _ Hnd H0]. apply dseg_app in Hs as [_ [Hn _]].
  assert (Hn0 : n <> 0) by (intros ->; apply H0, elem_mid).
  assert (Hnl : n ∉ (l1 ++ l2).*1).
  { rewrite fmap_app, fmap_cons in Hnd. apply NoDup_app in Hnd as (_ & H1 & H2).
    apply NoDup_cons in H2 as [H2 _]. rewrite fmap_app, not_elem_of_app. split; [|done].
    intros Hin. apply (H1 _ Hin). by left. }
  unfold zlist_delete, zlist_detach. destruct (Z.eqb_spec n 0); [done|]. rewrite Hn. simpl.
  rewrite E. cbn [mbind option_bind]. pose proof (zlen_nonneg (l1 ++ l2)).
  assert (Hz : zlen (l1 ++ (n, v) :: l2) = zlen (l1 ++ l2) + 1) by (autorewrite with zlen; lia).
  rewrite Hlen, as_int_Some by (unfold int_max in Hmax; lia). cbn [mbind option_bind].
  do 2 eexists. split; [done|]. split; [|split; [simpl; lia|]].
  - destruct Hd' as [Hs' Hh' Ht' Hd' H0']. split; simpl; try done. by apply dseg_delete.
  - rewrite dom_delete_L, Hdom', Hdom. rewrite fmap_app in Hnl.
    rewrite !fmap_app, fmap_cons, !list_to_set_app_L. simpl.
    rewrite not_elem_of_app in Hnl. clear -Hnl. apply set_eq. intros y.
    rewrite elem_of_difference, !elem_of_union, !elem_of_list_to_set, elem_of_singleton.
    destruct Hnl. split; [naive_solver|]. intros [?|?]; (split; [tauto|]); by intros ->.
Qed.

Definition lres (s : list item * option Z) (r : store * zlist * option Z) : Prop :=
  lrep r.1.1 r.1.2 s.1 /\ r.2 = s.2.

Lemma lrep_nil h L : lrep h L [] -> lk_head (li_link L) = 0 /\ lk_tail (li_link L) = 0.
Proof. intros ([_ Hh Ht _ _] & _). done. Qed.

Lemma zlist_pop_lrep h L l : lrep h L l -> runs (zlist_pop h L) (lres (spec_lop LPop l)).
Proof.
  intros H. unfold zlist_pop. destruct (last_ptr_cases l) as [->|(l' & x & v & ->)].
  - destruct (lrep_nil _ _ H) as [_ ->]. by apply runs_ret.
  - pose proof (dll_tail _ _ _ (proj1 H)) as Ht. rewrite last_ptr_snoc in Ht. rewrite Ht.
    destruct (delete_lrep _ _ _ _ _ _ H) as (h' & L' & -> & H'). rewrite app_nil_r in H'.
    apply runs_ret. unfold lres. simpl. rewrite rev_unit. simpl. by rewrite rev_involutive.
Qed.

Lemma reset_loop_lrep l : forall fuel h L, lrep h L l -> (length l <= fuel)%nat ->
  runs (reset_loop fuel h L) (fun r => lrep r.1 r.2 []).
Proof.
  induction l as [|[x v] l IH] using rev_ind; intros fuel h L H Hf.
  - pose proof (proj1 (proj1 (proj2 H))) as Hlen. change (zlen (@nil item)) with 0 in Hlen.
    destruct fuel; simpl; rewrite Hlen; by apply runs_ret.
  - rewrite length_app in Hf. simpl in Hf. destruct fuel as [|fuel]; [lia|].
    pose proof (proj1 (proj1 (proj2 H))) as Hlen. cbn [reset_loop].
    destruct (Z.eqb_spec (li_len L) 0); [zlia|].
    destruct (zlist_pop_lrep _ _ _ H) as ([[h' L'] r] & -> & H' & _). simpl in *.
    rewrite rev_unit in H'. simpl in H'. rewrite rev_involutive in H'. apply IH; [done|lia].
Qed.

Lemma run_lop_lrep h L l o : lrep h L l -> lop_ok o l = true ->
  runs (run_lop o h L) (lres (spec_lop o l)).
Proof.
  intros H Hok. pose proof (dll_nodup _ _ _ (proj1 H)) as Hnd.
  pose proof (dll_head _ _ _ (proj1 H)) as Hh. pose proof (dll_null _ _ _ (proj1 H)) as H0.
  assert (Hadd : forall n v before l1 l2, l = l1 ++ l2 -> before = first_ptr l2 0 ->
    n <> 0 -> n ∉ l.*1 -> zlen l < int_max ->
    runs (no_value (zlist_add_before h L n v before)) (lres (l1 ++ (n, v) :: l2, None))).
  { intros n v before l1 l2 -> -> Hn Hf Hmax.
    destruct (add_before_lrep h L l1 l2 n v H Hn Hf Hmax) as (h' & L' & -> & H').
    by apply runs_ret. }
  destruct o as [n v before|n|n v|n v| | |]; simpl in *.
  - apply andb_true_iff in Hok as [(Hn & Hf & Hmax)%bool_decide_eq_true Hb%bool_decide_eq_true].
    destruct Hb as [->|Hb].
    + rewrite <- (app_nil_r l). rewrite insert_before_eq by auto.
      apply Hadd; [by rewrite app_nil_r|done..].
    + destruct (elem_split l before Hb Hnd) as (l1 & w & l2 & E & H1 & _).
      rewrite E. rewrite insert_before_eq by auto. by apply Hadd.
  - apply bool_decide_eq_true in Hok as [->|Hin].
    + apply runs_ret. unfold lres.
      assert (E : remove_node 0 l = (l, None)); [|by rewrite E].
      clear -H0. induction l as [|[x w] l IH]; [done|].
      rewrite fmap_cons, not_elem_of_cons in H0. destruct H0 as [Hx H0]. simpl in *.
      destruct (Z.eqb_spec x 0); [congruence|]. by rewrite IH.
    + destruct (elem_split l n Hin Hnd) as (l1 & v & l2 & -> & H1 & _).
      rewrite remove_node_eq by done.
      destruct (delete_lrep _ _ _ _ _ _ H) as (h' & L' & -> & H'). by apply runs_ret.
  - apply bool_decide_eq_true in Hok as (Hn & Hf & Hmax). apply Hadd; [by rewrite app_nil_r|done..].
  - apply bool_decide_eq_true in Hok as (Hn & Hf & Hmax). by apply (Hadd n v _ [] l).
  - by apply zlist_pop_lrep.
  - unfold zlist_shift. rewrite Hh. destruct l as [|[x v] l]; [by apply runs_ret|].
    destruct (delete_lrep h L [] l x v H) as (h' & L' & E & H'). simpl. rewrite E.
    by apply runs_ret.
  - destruct (reset_loop_lrep l (Z.to_nat (li_len L)) h L H) as ([h' L'] & E & H').
    { rewrite (proj1 (proj1 (proj2 H))). unfold zlen. lia. }
    unfold zlist_reset. rewrite E. by apply runs_ret.
Qed.

Fixpoint run_lops (os : list list_op) (h : store) (l : zlist)
    : option (store * zlist * list (option Z)) :=
  match os with
  | [] => Some (h, l, [])
  | o :: os' =>
      '(h, l, r) ← run_lop o h l; '(h, l, rs) ← run_lops os' h l; Some (h, l, r :: rs)
  end.
Fixpoint spec_lops (os : list list_op) (l : list item) : option (list item * list (option Z)) :=
  match os with
  | [] => Some (l, [])
  | o :: os' =>
      if lop_ok o l then
        let s := spec_lop o l in '(l', rs) ← spec_lops os' s.1; Some (l', s.2 :: rs)
      else None
  end.

(** C36: refinement of the doubly linked list. Every sequence of operations in
    contract, started on an empty list, runs without following a dangling or
    NULL pointer; forwards and backwards the links then give exactly the nodes
    of the abstract sequence, [len], an [int], counts them (a list in contract holds
    at most [INT_MAX] nodes), the store holds these nodes and nothing else, and
    every operation returned the value of the abstract one. *)
Theorem zlist_refines (os : list list_op) (l : list (Z * Z)) (rs : list (option Z)) :
  spec_lops os [] = Some (l, rs) ->
  runs (run_lops os ∅ zlist_create) (fun '(h, L, rs') =>
    dseg h 0 l 0 /\ lk_head (li_link L) = first_ptr l 0 /\ lk_tail (li_link L) = last_ptr 0 l /\
    li_len L = zlen l /\ zlen l <= int_max /\ dom h = list_to_set l.*1 /\ rs' = rs).
Proof.
  assert (Hgen : forall os h L l0 l rs, lrep h L l0 -> spec_lops os l0 = Some (l, rs) ->
    runs (run_lops os h L) (fun '(h, L, rs') => lrep h L l /\ rs' = rs)).
  { clear. induction os as [|o os IH]; intros h L l0 l rs H Hs; simpl in *.
    { simplify_eq. by apply runs_ret. }
    destruct (lop_ok o l0) eqn:Hok; [|done].
    destruct (spec_lops os (spec_lop o l0).1) as [[l' rs']|] eqn:E; [|done]. simplify_eq/=.
    destruct (run_lop_lrep h L l0 o H Hok) as ([[h' L'] r] & -> & H' & Hr). simpl in *.
    destruct (IH h' L' _ _ _ H' E) as ([[h'' L''] rs''] & -> & H'' & Hrs).
    apply runs_ret. split; [done|]. by rewrite Hr, Hrs. }
  intros Hs. eapply runs_mono; [apply (Hgen os ∅ zlist_create [] l rs); [|done]|].
  - split; [split; try done; [apply NoDup_nil_2|apply not_elem_of_nil]|]. split; [by split; [|vm_compute; discriminate]|].
    apply dom_empty_L.
  - intros [[h L] rs'] [([? ? ? ? ?] & [? ?] & ?) ?]. done.
Qed.

Definition demo_lops : list list_op :=
  [LPush 8 1; LPush 16 2; LAdd 24 3 16; LUnshift 32 0; LDelete 24; LPop; LPush 16 5].

Lemma zlist_refines_witness :
  runs (run_lops demo_lops ∅ zlist_create) (fun '(h, L, rs') =>
    dseg h 0 [(32, 0); (8, 1); (16, 5)] 0 /\ lk_head (li_link L) = 32 /\ lk_tail (li_link L) = 16 /\
    li_len L = 3 /\ 3 <= int_max /\ dom h = list_to_set [32; 8; 16] /\
    rs' = [None; None; None; None; Some 3; Some 2; None]).
Proof. apply (zlist_refines demo_lops [(32, 0); (8, 1); (16, 5)]). vm_compute. reflexivity. Defined.
