(* ===== verification/Text.v ===== *)
(** * C strings: the functions of src/stdlib/string.c

    A string is a pointer into a block: the block and an index. The loops
    read the block up to a NUL; [None] when they run out of it. *)
From S2P Require Import Prelude Chars Buf.

(** [strchr(set, c) != 0]; the terminating NUL is found too. *)
Definition in_set (set : list Z) (c : Z) : bool := existsb (Z.eqb c) set.
Definition strchr (set : list Z) (c : Z) : bool := in_set set c || (c =? 0).

(** The first index from [p] on whose byte stops the scan. *)
Fixpoint scan (fuel : nat) (m : list Z) (p : Z) (stop : Z -> bool) : option Z :=
  match fuel with
  | O => None
  | S fuel' => c ← rd m p; if stop c then Some p else scan fuel' m (p + 1) stop
  end.
Definition scan_from (m : list Z) (p : Z) (stop : Z -> bool) : option Z :=
  scan (S (length m)) m p stop.

(** <string.h> *)
Definition strspn (m : list Z) (p : Z) (set : list Z) : option Z :=
  q ← scan_from m p (fun c => (c =? 0) || negb (in_set set c)); Some (q - p).
Definition strcspn (m : list Z) (p : Z) (set : list Z) : option Z :=
  q ← scan_from m p (fun c => (c =? 0) || in_set set c); Some (q - p).

(** ** Case *)
Fixpoint map_string (f : Z -> Z) (m : list Z) : option (list Z) :=
  match m with
  | [] => None
  | c :: m' => if c =? 0 then Some m else cons (f c) <$> map_string f m'
  end.
Definition zstr_tolower : list Z -> option (list Z) := map_string ztolower.
Definition zstr_toupper : list Z -> option (list Z) := map_string ztoupper.

(** ** zstrtok: the token is [len] bytes at [str] *)
Record zstrtok_t := mk_strtok { k_sstr : Z; k_str : Z; k_len : Z }.
Definition zstrtok_init (sstr : Z) : zstrtok_t := mk_strtok sstr 0 0.

(** [Some None]: no more token. [k->len = strcspn(r, delim)] keeps the 32 low bits
    of a [size_t]. *)
Definition zstrtok (m : list Z) (k : zstrtok_t) (delim : list Z) : option (option zstrtok_t) :=
  n ← strspn m (k_sstr k) delim;
  let r := k_sstr k + n in
  c ← rd m r;
  if c =? 0 then Some None else
  len ← strcspn m r delim;
  let len := s32 len in
  if len =? 0 then Some None else
  Some (Some (mk_strtok (r + len) r len)).

(** ** Trimming *)
Definition DELETE (ch : Z) : bool := (isascii ch && isspace ch) || iscntrl ch.

Definition strlen_at (m : list Z) (s : Z) : option Z :=
  q ← scan_from m s (fun c => c =? 0); Some (q - s).

(** The macro [___SKIP] with the condition [___DELETE]. *)
Definition SKIP (m : list Z) (s : Z) : option Z :=
  scan_from m s (fun c => negb (negb (c =? 0) && DELETE c)).

(** The scans from the end of a text: [for (i = len - 1; i >= 0; i--)] in the
    skip functions, [for (p = s + strlen(s); p > s && ..; p--)] in [___TRIM].
    [n] bytes at [ps] are still to be looked at; the result is how many are left
    before the first byte that is not in [d]. *)
Fixpoint skip_right_loop (d : Z -> bool) (n : nat) (m : list Z) (ps : Z) : option Z :=
  match n with
  | O => Some 0
  | S n' =>
      c ← rd m (ps + Z.of_nat n');
      if d c then skip_right_loop d n' m ps else Some (Z.of_nat n)
  end.

Definition TRIM (m : list Z) (s : Z) : option (list Z) :=
  n ← strlen_at m s; k ← skip_right_loop DELETE (Z.to_nat n) m s; wr m (s + k) 0.

Definition ztrim_left (m : list Z) (s : Z) : option Z := SKIP m s.
Definition ztrim_right (m : list Z) (s : Z) : option (list Z) := TRIM m s.
(** The block after the NUL is written, and the pointer returned. *)
Definition ztrim (m : list Z) (s : Z) : option (list Z * Z) :=
  np ← SKIP m s; m ← TRIM m np; Some (m, np).

(** ** Skipping *)

(** [Some None] is the NULL result. *)
Definition zskip_left (m : list Z) (s : Z) (ignores : list Z) : option (option Z) :=
  q ← scan_from m s (fun c => (c =? 0) || negb (strchr ignores c));
  c ← rd m q; if c =? 0 then Some None else Some (Some q).

Definition zskip_right (m : list Z) (s len : Z) (ignores : list Z) : option Z :=
  len ← (if len <? 0 then strlen_at m s else Some len);
  skip_right_loop (strchr ignores) (Z.to_nat len) m s.

(** [for (i = 0; i < len; i++)] from index [i], [n] bytes being left. *)
Fixpoint skip_left_loop (n : nat) (m : list Z) (line i : Z) (ignores : list Z) : option Z :=
  match n with
  | O => Some i
  | S n' =>
      c ← rd m (line + i);
      if strchr ignores c then skip_left_loop n' m line (i + 1) ignores else Some i
  end.
(** The result, and the pointer stored in [*start] when it is stored. *)
Definition zskip (m : list Z) (line len : Z) (ignores_left : list Z) (ignores_right : option (list Z))
    : option (Z * option Z) :=
  len ← (if len <? 0 then strlen_at m line else Some len);
  i ← skip_left_loop (Z.to_nat len) m line 0 ignores_left;
  if i =? len then Some (0, None) else
  let right := default ignores_left ignores_right in
  let ps := line + i in
  r ← skip_right_loop (strchr right) (Z.to_nat (len - i)) m ps;
  if r <? 1 then Some (0, None) else Some (r, Some ps).

(** ** Words, seconds and sizes *)
Fixpoint strcmp_eq (eqc : Z -> Z -> bool) (w : list Z) (m : list Z) : option bool :=
  match w, m with
  | _, [] => None
  | [], c :: _ => Some (c =? 0)
  | a :: w', c :: m' => if eqc a c then strcmp_eq eqc w' m' else Some false
  end.
(** [!strcmp(s, w)] and [!strcasecmp(s, w)], for a word [w] in lower case. *)
Definition is_word : list Z -> list Z -> option bool := strcmp_eq Z.eqb.
Definition is_word_ci : list Z -> list Z -> option bool :=
  strcmp_eq (fun a c => a =? (if isupper c then c + 32 else c)).

(** [||] stops at the first word that matches. *)
Fixpoint any_word (ws : list (list Z -> option bool)) (s : list Z) : option bool :=
  match ws with
  | [] => Some false
  | w :: ws' => b ← w s; if b : bool then Some true else any_word ws' s
  end.
Definition zstr_to_bool (s : list Z) (def : Z) : option Z :=
  t ← any_word [is_word (str "1"); is_word_ci (str "y"); is_word_ci (str "yes"); is_word_ci (str "true")] s;
  if t : bool then Some 1 else
  f ← any_word [is_word (str "0"); is_word_ci (str "n"); is_word_ci (str "no"); is_word_ci (str "false")] s;
  Some (if f : bool then 0 else def).

(** [sscanf(s, "%zd%c%c", ...)]: white space, a sign, decimal digits, then up
    to two characters. The result is the number of conversions, with the values
    stored; an integer outside [ssize_t] is undefined behaviour. *)
Definition ssize_ok (z : Z) : bool := (- 2 ^ 63 <=? z) && (z <? 2 ^ 63).
Fixpoint drop_spaces (l : list Z) : list Z :=
  match l with c :: l' => if isspace c then drop_spaces l' else l | [] => [] end.
Fixpoint scan_digits (acc : option Z) (l : list Z) : option Z * list Z :=
  match l with
  | c :: l' => if isdigit c then scan_digits (Some (default 0 acc * 10 + (c - 48))) l' else (acc, l)
  | [] => (acc, l)
  end.
Definition sscanf_zd (l : list Z) : option (option (Z * list Z)) :=
  let l := drop_spaces l in
  let '(neg, l) := match l with
                   | c :: l' => if c =? chr "-" then (true, l') else if c =? chr "+" then (false, l')
                                else (false, l)
                   | [] => (false, l)
                   end in
  match scan_digits None l with
  | (None, _) => Some None
  | (Some v, l) =>
      let v := if neg then - v else v in
      if ssize_ok v then Some (Some (v, l)) else None
  end.

(** [strtol(s, 0, 10)]: white space, a sign, the digits, 0 when there is none;
    glibc's [atol] is [strtol], its [atoi] the low 32 bits. A value outside the
    type is clamped to its limits. *)
Definition strtol10 (l : list Z) : Z :=
  let l := drop_spaces l in
  let '(neg, l) := match l with
                   | c :: l' => if c =? chr "-" then (true, l') else if c =? chr "+" then (false, l')
                                else (false, l)
                   | [] => (false, l)
                   end in
  let v := default 0 (scan_digits None l).1 in
  let v := if neg then - v else v in
  Z.max (- 2 ^ 63) (Z.min v (2 ^ 63 - 1)).
Definition atol (s : list Z) : option Z := strtol10 <$> cstr s.
Definition atoi (s : list Z) : option Z := s32 <$> atol s.

(** The common shape of the two functions: the unit is [dflt] after the integer
    alone, and anything after the unit makes the whole string invalid. *)
Definition str_to_unit (mult : Z -> Z) (dflt : Z) (s : list Z) (def : Z) : option Z :=
  l ← cstr s;
  r ← sscanf_zd l;
  let scaled v unit :=
    let r := v * mult (ztolower unit) in if ssize_ok r then Some r else None in
  match r with
  | None => Some def
  | Some (v, []) => scaled v dflt
  | Some (v, [unit]) => scaled v unit
  | Some _ => Some def
  end.

Definition second_mult (u : Z) : Z :=
  if u =? chr "w" then 7 * 24 * 3600 else if u =? chr "d" then 24 * 3600
  else if u =? chr "h" then 3600 else if u =? chr "m" then 60 else 1.
Definition size_mult (u : Z) : Z :=
  if u =? chr "g" then 1024 * 1024 * 1024 else if u =? chr "m" then 1024 * 1024
  else if u =? chr "k" then 1024 else 1.
Definition zstr_to_second : list Z -> Z -> option Z := str_to_unit second_mult (chr "s").
Definition zstr_to_size : list Z -> Z -> option Z := str_to_unit size_mult (chr "b").

(** ** Prefixes that satisfy a test *)
Abbreviation all f := (Forall (fun c => f c = true)).
Fixpoint take_while (f : Z -> bool) (l : list Z) : list Z :=
  match l with [] => [] | c :: l' => if f c then c :: take_while f l' else [] end.
Fixpoint drop_while (f : Z -> bool) (l : list Z) : list Z :=
  match l with [] => [] | c :: l' => if f c then drop_while f l' else l end.

Lemma take_drop_while f l : take_while f l ++ drop_while f l = l.
Proof. induction l as [|c l IH]; simpl; [done|]. destruct (f c); simpl; congruence. Qed.
Lemma take_while_all f l : all f (take_while f l).
Proof.
  induction l as [|c l IH]; simpl; [done|]. destruct (f c) eqn:E; [|done].
  by constructor.
Qed.
Lemma drop_while_head f l c : head (drop_while f l) = Some c -> f c = false.
Proof.
  induction l as [|x l IH]; simpl; [done|]. destruct (f x) eqn:E; [done|].
  simpl. congruence.
Qed.
Lemma take_while_app f a b : all f a -> take_while f (a ++ b) = a ++ take_while f b.
Proof.
  induction 1 as [|c a Hc _ IH]; simpl; [done|]. by rewrite Hc, IH.
Qed.
Lemma take_while_ext f g l : (forall c, c ∈ l -> f c = g c) -> take_while f l = take_while g l.
Proof.
  induction l as [|c l IH]; intros H; simpl; [done|].
  rewrite (H c) by (by left). rewrite IH; [done|]. intros x Hx. apply H. by right.
Qed.

Lemma take_while_string l : Forall (.≠ 0) l -> take_while (fun c => negb (c =? 0)) l = l.
Proof.
  induction 1 as [|c l Hc _ IH]; simpl; [done|].
  destruct (Z.eqb_spec c 0); [done|]. simpl. by rewrite IH.
Qed.

(** What is left of [l] when the bytes of [d] are removed from both ends. *)
Definition trims (d1 d2 : Z -> bool) (l a core b : list Z) : Prop :=
  l = a ++ core ++ b /\ all d1 a /\ all d2 b /\
  (forall c, head core = Some c -> d1 c = false) /\ (forall c, last core = Some c -> d2 c = false).

(** ** Scanning a block *)
Lemma scan_at stop pre l c rest : forall fuel,
  Forall (fun x => stop x = false) l -> stop c = true -> (length l < fuel)%nat ->
  scan fuel (pre ++ l ++ c :: rest) (zlen pre) stop = Some (zlen pre + zlen l).
Proof.
  revert pre. induction l as [|x l IH]; intros pre fuel Hl Hc Hf.
  - destruct fuel; [simpl in Hf; lia|]. simpl. rewrite rd_at. simpl. rewrite Hc.
    f_equal. zlia.
  - destruct fuel; [simpl in Hf; lia|]. apply Forall_cons in Hl as [Hx Hl].
    cbn [scan app]. rewrite rd_at. cbn. rewrite Hx.
    specialize (IH (pre ++ [x]) fuel Hl Hc). rewrite <- app_assoc in IH. simpl in IH.
    rewrite zlen_app in IH. change (zlen [x]) with 1 in IH. rewrite IH by (simpl in Hf; lia).
    f_equal. zlia.
Qed.

Lemma scan_from_at stop pre l c rest : Forall (fun x => stop x = false) l -> stop c = true ->
  scan_from (pre ++ l ++ c :: rest) (zlen pre) stop = Some (zlen pre + zlen l).
Proof. intros. apply scan_at; [done..|]. rewrite !length_app. simpl. lia. Qed.

Section block.
Context (m pre l rest : list Z).
Hypothesis Hm : m = pre ++ l ++ 0 :: rest.

(** A scan of a C string that stops at the NUL at the latest. *)
Lemma scan_from_string stop : stop 0 = true ->
  scan_from m (zlen pre) stop = Some (zlen pre + zlen (take_while (fun c => negb (stop c)) l)).
Proof using Hm.
  intros H0. pose proof (take_drop_while (fun c => negb (stop c)) l) as E.
  pose proof (take_while_all (fun c => negb (stop c)) l) as Ht.
  pose proof (drop_while_head (fun c => negb (stop c)) l) as Hd.
  set (a := take_while _ l) in *. set (d := drop_while _ l) in *.
  assert (Ha : Forall (fun x => stop x = false) a)
    by (eapply Forall_impl; [exact Ht|]; simpl; intros x; by destruct (stop x)).
  rewrite Hm, <- E. destruct d as [|c d].
  - rewrite app_nil_r. by apply scan_from_at.
  - rewrite <- app_assoc. apply scan_from_at; [done|].
    specialize (Hd c eq_refl). by destruct (stop c).
Qed.

Lemma strlen_at_string : Forall (.≠ 0) l -> strlen_at m (zlen pre) = Some (zlen l).
Proof using Hm.
  intros Hl. unfold strlen_at. rewrite scan_from_string by done. simpl.
  rewrite take_while_string by done. f_equal. lia.
Qed.
End block.

(** Scanning backwards for the end of the text. *)
Lemma skip_right_loop_spec d pre rest (core b : list Z) : all d b ->
  (forall c, last core = Some c -> d c = false) ->
  skip_right_loop d (length (core ++ b)) (pre ++ (core ++ b) ++ rest) (zlen pre) = Some (zlen core).
Proof.
  revert rest. induction b as [|c b IH] using rev_ind; intros rest Hb Hc.
  - rewrite app_nil_r. destruct core as [|x core _] using rev_ind; [done|].
    rewrite length_app, Nat.add_comm. simpl.
    replace (rd _ _) with (Some x).
    + simpl. rewrite Hc by (by rewrite last_snoc). f_equal. unfold zlen.
      rewrite length_app. simpl. lia.
    + symmetry. rewrite <- !app_assoc, app_assoc. simpl.
      replace (zlen pre + Z.of_nat (length core)) with (zlen (pre ++ core))
        by (unfold zlen; rewrite length_app; lia). apply rd_at.
  - apply Forall_app in Hb as [Hb [Hx _]%Forall_cons].
    rewrite app_assoc, (length_app (core ++ b)), Nat.add_comm. cbn [length Nat.add skip_right_loop].
    assert (E : pre ++ ((core ++ b) ++ [c]) ++ rest = (pre ++ core ++ b) ++ c :: rest)
      by (by rewrite <- !app_assoc).
    rewrite E.
    replace (zlen pre + Z.of_nat (length (core ++ b))) with (zlen (pre ++ core ++ b))
      by (unfold zlen; rewrite !length_app; lia).
    rewrite rd_at. simpl. rewrite Hx.
    specialize (IH (c :: rest) Hb Hc). rewrite <- !app_assoc in *. by apply IH.
Qed.

(** A text splits into what ends it in [d] and what comes before. *)
Lemma split_right d (l : list Z) : exists core b, l = core ++ b /\ all d b /\
  (forall c, last core = Some c -> d c = false).
Proof.
  exists (rev (drop_while d (rev l))), (rev (take_while d (rev l))).
  rewrite <- rev_app_distr, take_drop_while, rev_involutive.
  split; [done|]. split.
  - apply Forall_rev, take_while_all.
  - intros c. replace (last (rev _)) with (head (drop_while d (rev l))); [apply drop_while_head|].
    destruct (drop_while d (rev l)); [done|]. symmetry. apply last_snoc.
Qed.

Lemma trims_left d1 d2 (l core b : list Z) : drop_while d1 l = core ++ b -> all d2 b ->
  (forall c, last core = Some c -> d2 c = false) -> trims d1 d2 l (take_while d1 l) core b.
Proof.
  intros E Hb Hc. repeat split; try done.
  - by rewrite <- E, take_drop_while.
  - apply take_while_all.
  - intros c H. apply (drop_while_head d1 l). rewrite E. by destruct core.
Qed.

(** [ztrim] on the C string [l], wherever it lies in its block: the pointer
    returned is past the white space and control characters [l] begins with; one
    byte of the block changes, the NUL written after the last other character;
    the string at the pointer returned is [l] without what it begins and ends
    with. *)
Theorem ztrim_spec (pre l rest : list Z) : Forall (.≠ 0) l ->
  runs (ztrim (pre ++ l ++ 0 :: rest) (zlen pre)) (fun '(m', p) =>
    exists a core b, trims DELETE DELETE l a core b /\ p = zlen pre + zlen a /\
    m' = <[Z.to_nat (p + zlen core) := 0]> (pre ++ l ++ 0 :: rest) /\
    cstr (drop (Z.to_nat p) m') = Some core).
Proof.
  intros Hl. unfold ztrim, SKIP.
  rewrite (scan_from_string _ pre l rest eq_refl) by done.
  rewrite (take_while_ext _ DELETE).
  2:{ intros c Hc. rewrite negb_involutive. rewrite Forall_forall in Hl.
      specialize (Hl c Hc). by destruct (Z.eqb_spec c 0). }
  destruct (split_right DELETE (drop_while DELETE l)) as (core & b & E & Hb & Hc).
  pose proof (trims_left DELETE DELETE l core b E Hb Hc) as Ht.
  set (a := take_while DELETE l) in *. pose proof Ht as (El & _). simpl.
  assert (Hcb : Forall (.≠ 0) (core ++ b)) by (rewrite El in Hl; by apply Forall_app in Hl as [_ ?]).
  assert (Em : pre ++ l ++ 0 :: rest = (pre ++ a) ++ (core ++ b) ++ 0 :: rest)
    by (rewrite El, <- !app_assoc; done).
  rewrite Em, <- zlen_app. unfold TRIM.
  rewrite (strlen_at_string _ _ _ _ eq_refl) by done. simpl. rewrite zlen_to_nat.
  rewrite skip_right_loop_spec by done. simpl.
  rewrite wr_Some by zlia. simpl. apply runs_ret. exists a, core, b.
  rewrite <- Em. split; [done|]. split; [zlia|]. split; [f_equal; zlia|].
  rewrite Em, <- zlen_app, <- (app_assoc core).
  rewrite !zlen_to_nat, (length_app (pre ++ a) core), insert_app_r, drop_app_length.
  rewrite insert_app_r_alt by lia. rewrite Nat.sub_diag.
  destruct b; simpl; apply cstr_app; by apply Forall_app in Hcb as [? _].
Qed.

Lemma ztrim_spec_witness :
  runs (ztrim (str "x= a b" ++ [9; 10; 0; 7]) 2) (fun '(m', p) =>
    exists a core b, trims DELETE DELETE (str " a b" ++ [9; 10]) a core b /\ p = 2 + zlen a /\
    m' = <[Z.to_nat (p + zlen core) := 0]> (str "x= a b" ++ [9; 10; 0; 7]) /\
    cstr (drop (Z.to_nat p) m') = Some core).
Proof.
  apply (ztrim_spec (str "x=") (str " a b" ++ [9; 10]) [7]).
  repeat constructor; discriminate.
Defined.

(** ** zskip on a counted text *)
Lemma skip_left_loop_spec ign line rest (l : list Z) : forall done,
  skip_left_loop (length l) (line ++ (done ++ l) ++ rest) (zlen line) (zlen done) ign =
  Some (zlen done + zlen (take_while (strchr ign) l)).
Proof.
  induction l as [|c l IH]; intros dn; simpl; [f_equal; zlia|].
  rewrite <- app_assoc, app_assoc, <- zlen_app. simpl. rewrite rd_at. simpl.
  destruct (strchr ign c); [|f_equal; zlia].
  specialize (IH (dn ++ [c])). rewrite <- !app_assoc in *. simpl in IH.
  rewrite zlen_app in IH. change (zlen [c]) with 1 in IH. rewrite IH. f_equal. zlia.
Qed.

(** [zskip] on [len] bytes at [line] counts the text without the bytes of
    [ignores_left] it begins with and those of [ignores_right] (the same set
    when it is NULL) it ends with, and stores its address; when nothing is left
    it answers 0 and stores nothing. NUL bytes are ignored too: [strchr] finds
    the terminator of the set. *)
Theorem zskip_spec (pre l rest ignl : list Z) (ignr : option (list Z)) :
  runs (zskip (pre ++ l ++ rest) (zlen pre) (zlen l) ignl ignr) (fun '(n, start) =>
    exists a core b, trims (strchr ignl) (strchr (default ignl ignr)) l a core b /\
    n = zlen core /\ start = (if zlen core =? 0 then None else Some (zlen pre + zlen a))).
Proof.
  unfold zskip. destruct (Z.ltb_spec (zlen l) 0); [zlia|]. simpl.
  pose proof (skip_left_loop_spec ignl pre rest l []) as E. simpl in E.
  rewrite zlen_to_nat. change (zlen (@nil Z)) with 0 in E. rewrite E, Z.add_0_l. clear E. cbn [mbind option_bind].
  destruct (split_right (strchr (default ignl ignr)) (drop_while (strchr ignl) l))
    as (core & b & E & Hb & Hc).
  pose proof (trims_left _ _ l core b E Hb Hc) as Ht.
  pose proof (take_drop_while (strchr ignl) l) as El.
  set (a := take_while (strchr ignl) l) in *. rewrite E in El.
  destruct (Z.eqb_spec (zlen a) (zlen l)) as [Ha|Ha].
  - apply runs_ret. exists a, core, b. assert (core = []) as -> by (apply zlen_inv_nil; rewrite <- El in Ha; zlia).
    done.
  - replace (Z.to_nat (zlen l - zlen a)) with (length (core ++ b))
      by (rewrite <- zlen_to_nat; f_equal; rewrite <- El; zlia).
    pose proof (skip_right_loop_spec (strchr (default ignl ignr)) (pre ++ a) rest core b Hb Hc) as Er.
    replace (pre ++ l ++ rest) with ((pre ++ a) ++ (core ++ b) ++ rest)
      by (rewrite <- El, <- !app_assoc; done).
    rewrite <- zlen_app, Er. simpl.
    destruct (Z.ltb_spec (zlen core) 1); apply runs_ret; exists a, core, b; repeat split; try apply Ht.
    + zlia.
    + by replace (zlen core) with 0 by zlia.
    + destruct (Z.eqb_spec (zlen core) 0); [lia|]. f_equal. zlia.
Qed.

Lemma zskip_spec_witness :
  runs (zskip (str "x , a,b ,y") 1 8 (str " ,") None) (fun '(n, start) =>
    exists a core b, trims (strchr (str " ,")) (strchr (str " ,")) (str " , a,b ,") a core b /\
    n = zlen core /\ start = (if zlen core =? 0 then None else Some (1 + zlen a))).
Proof. apply (zskip_spec (str "x") (str " , a,b ,") (str "y") (str " ,") None). Defined.

(** ** Tokens: the maximal runs of bytes that are not delimiters *)
Fixpoint tokens_from (d : Z -> bool) (cur l : list Z) : list (list Z) :=
  let flush := match cur with [] => [] | _ => [cur] end in
  match l with
  | [] => flush
  | c :: l' => if d c then flush ++ tokens_from d [] l' else tokens_from d (cur ++ [c]) l'
  end.
Definition tokens (d : Z -> bool) (l : list Z) : list (list Z) := tokens_from d [] l.
Abbreviation nt d := (fun c : Z => negb (d c : bool)).

Lemma tokens_from_cons d l : forall x cur,
  tokens_from d (x :: cur) l =
  ((x :: cur) ++ take_while (nt d) l) :: tokens d (drop_while (nt d) l).
Proof.
  induction l as [|c l IH]; intros x cur; simpl; [by rewrite app_nil_r|].
  destruct (d c) eqn:E; simpl.
  - rewrite app_nil_r. unfold tokens. simpl. by rewrite E.
  - rewrite (IH x (cur ++ [c])). simpl. by rewrite <- app_assoc.
Qed.

Lemma tokens_step d l : tokens d l =
  match drop_while d l with
  | [] => []
  | c :: l1 => take_while (nt d) (c :: l1) :: tokens d (drop_while (nt d) (c :: l1))
  end.
Proof.
  induction l as [|c l IH]; [done|]. unfold tokens in *. simpl.
  destruct (d c) eqn:E; simpl; [done|].
  rewrite E, (tokens_from_cons d l c []). done.
Qed.

(** One step of [zstrtok]: the token is the first run, and the scan resumes
    after it, where the length of the run fits an [int]. *)
Lemma zstrtok_step (pre l rest delim : list Z) s n : Forall (.≠ 0) l ->
  let d := in_set delim in
  let a := take_while d l in
  let l1 := drop_while d l in
  let tok := take_while (nt d) l1 in
  zlen tok <= int_max ->
  zstrtok (pre ++ l ++ 0 :: rest) (mk_strtok (zlen pre) s n) delim =
  Some (match l1 with
        | [] => None
        | _ => Some (mk_strtok (zlen (pre ++ a ++ tok)) (zlen (pre ++ a)) (zlen tok))
        end).
Proof.
  intros Hl d a l1 tok Hmax. unfold zstrtok, strspn, strcspn. cbn [k_sstr].
  rewrite (scan_from_string _ pre l rest eq_refl) by done.
  assert (Hnz : forall c, c ∈ l -> (c =? 0) = false)
    by (intros c Hc; rewrite Forall_forall in Hl; specialize (Hl c Hc); by apply Z.eqb_neq).
  rewrite (take_while_ext _ d) by (intros c Hc; rewrite (Hnz c Hc); simpl; by rewrite negb_involutive).
  fold a. cbn [mbind option_bind].
  replace (zlen pre + (zlen pre + zlen a - zlen pre)) with (zlen (pre ++ a)) by (rewrite zlen_app; lia).
  pose proof (take_drop_while d l) as E. fold a l1 in E.
  assert (Em : pre ++ l ++ 0 :: rest = (pre ++ a) ++ l1 ++ 0 :: rest)
    by (rewrite <- E at 1; by rewrite <- !app_assoc).
  rewrite Em. destruct l1 as [|c l1'] eqn:E1; [simpl; by rewrite rd_at|].
  assert (Hc : c ∈ l) by (rewrite <- E; apply elem_of_app; right; by left).
  assert (rd ((pre ++ a) ++ (c :: l1') ++ 0 :: rest) (zlen (pre ++ a)) = Some c) as -> by apply rd_at.
  cbn [mbind option_bind]. rewrite (Hnz c Hc).
  rewrite (scan_from_string _ (pre ++ a) (c :: l1') rest eq_refl) by done.
  rewrite (take_while_ext _ (nt d)).
  2:{ intros x Hx. rewrite (Hnz x); [done|]. rewrite <- E. apply elem_of_app. by right. }
  fold tok. cbn [mbind option_bind].
  assert (Hd : d c = false) by (apply (drop_while_head d l); fold l1; by rewrite E1).
  assert (Ht : 0 < zlen tok) by (unfold tok; simpl; rewrite Hd; simpl; zlia).
  unfold int_max in Hmax. rewrite swrap_small by lia.
  destruct (Z.eqb_spec (zlen (pre ++ a) + zlen tok - zlen (pre ++ a)) 0); [lia|].
  do 2 f_equal. f_equal; zlia.
Qed.

Lemma drop_while_string f (l : list Z) : Forall (.≠ 0) l -> Forall (.≠ 0) (drop_while f l).
Proof. induction 1 as [|c l Hc Hl IH]; simpl; [done|]. destruct (f c); [done|by constructor]. Qed.

(** ** Integers with a unit *)

(** The decimal value of a text of digits. *)
Definition digits_value (ds : list Z) : Z := fold_left (fun v c => v * 10 + (c - 48)) ds 0.

Lemma scan_digits_app ds r : all isdigit ds -> (forall c, head r = Some c -> isdigit c = false) ->
  forall acc, ds <> [] \/ acc <> None ->
  scan_digits acc (ds ++ r) = (Some (fold_left (fun v c => v * 10 + (c - 48)) ds (default 0 acc)), r).
Proof.
  intros Hd Hr. induction Hd as [|c ds Hc _ IH]; intros acc Ha; simpl.
  - destruct acc; [|by destruct Ha]. destruct r as [|x r]; simpl; [done|]. by rewrite Hr.
  - rewrite Hc, IH by (right; done). done.
Qed.

Lemma digits_value_nonneg ds : all isdigit ds -> 0 <= digits_value ds.
Proof.
  unfold digits_value. intros Hd. assert (H : 0 <= 0) by lia. revert H. generalize 0 at 2 4.
  induction Hd as [|c ds Hc _ IH]; intros z Hz; simpl; [done|]. apply IH.
  unfold isdigit, in_range in Hc. lia.
Qed.

Lemma sscanf_zd_digits (neg : bool) ds tail : all isdigit ds -> ds <> [] -> digits_value ds < 2 ^ 63 ->
  (forall c, head tail = Some c -> isdigit c = false) ->
  sscanf_zd ((if neg then str "-" else []) ++ ds ++ tail) =
  Some (Some (if neg then - digits_value ds else digits_value ds, tail)).
Proof.
  intros Hd Hne Hv Ht. pose proof (digits_value_nonneg ds Hd). unfold sscanf_zd.
  assert (Hok : ssize_ok (if neg then - digits_value ds else digits_value ds) = true)
    by (unfold ssize_ok; destruct neg; lia).
  pose proof (scan_digits_app ds tail Hd Ht None (or_introl Hne)) as E.
  change (fold_left _ ds _) with (digits_value ds) in E.
  destruct neg; cbn -[scan_digits].
  - rewrite E. by rewrite Hok.
  - destruct ds as [|c ds]; [done|]. apply Forall_cons in Hd as [Hc _].
    replace (drop_spaces _) with ((c :: ds) ++ tail).
    2:{ simpl. replace (isspace c) with false; [done|]. unfold isspace, isdigit, in_range in *. lia. }
    cbn [app]. replace (c =? 45) with false by (unfold isdigit, in_range in *; lia).
    replace (c =? 43) with false by (unfold isdigit, in_range in *; lia).
    cbn [app] in E. rewrite E. by rewrite Hok.
Qed.

Lemma str_to_unit_digits mult dflt (neg : bool) ds tail def :
  all isdigit ds -> ds <> [] -> digits_value ds < 2 ^ 33 -> Forall (.≠ 0) tail ->
  (forall c, head tail = Some c -> isdigit c = false) ->
  (forall u, 0 < mult u <= 2 ^ 30) ->
  let v := if neg then - digits_value ds else digits_value ds in
  str_to_unit mult dflt ((if neg then str "-" else []) ++ ds ++ tail ++ [0]) def =
  Some (match tail with
        | [] => v * mult (ztolower dflt) | [u] => v * mult (ztolower u) | _ => def
        end).
Proof.
  intros Hd Hne Hv Hnz Ht Hm v. unfold str_to_unit.
  replace (cstr _) with (Some ((if neg then str "-" else []) ++ ds ++ tail)).
  2:{ rewrite !app_assoc. symmetry. apply cstr_app. apply Forall_app. split; [|done].
      apply Forall_app. split; [by destruct neg; repeat constructor|].
      eapply Forall_impl; [exact Hd|]. unfold isdigit, in_range. simpl. intros. lia. }
  cbn [mbind option_bind]. rewrite sscanf_zd_digits by (done || lia). cbn [mbind option_bind]. fold v.
  assert (Hs : forall u, ssize_ok (v * mult u) = true).
  { intros u. specialize (Hm u). pose proof (digits_value_nonneg ds Hd). unfold ssize_ok, v.
    destruct neg; nia. }
  destruct tail as [|u [|? ?]]; by rewrite ?Hs.
Qed.

(** [zstr_to_second] and [zstr_to_size] on a decimal integer followed by a
    unit letter: the value times 1, 60, 3600, 86400 or 604800 seconds, or times
    1, 2^10, 2^20 or 2^30 bytes, upper and lower case alike and any other unit
    counting for 1; no unit is seconds or bytes, and anything after the unit
    gives the default. *)
Theorem zstr_to_unit_spec (ds tail : list Z) (neg : bool) (def : Z) :
  all isdigit ds -> ds <> [] -> digits_value ds < 2 ^ 33 -> bytes_ok tail -> Forall (.≠ 0) tail ->
  (forall c, head tail = Some c -> isdigit c = false) ->
  let v := if neg then - digits_value ds else digits_value ds in
  let s := (if neg then str "-" else []) ++ ds ++ tail ++ [0] in
  zstr_to_second s def = Some (match tail with
    | [] => v
    | [u] => v * (if in_set (str "wW") u then 604800 else if in_set (str "dD") u then 86400
                  else if in_set (str "hH") u then 3600 else if in_set (str "mM") u then 60 else 1)
    | _ => def
    end) /\
  zstr_to_size s def = Some (match tail with
    | [] => v
    | [u] => v * (if in_set (str "gG") u then 2 ^ 30 else if in_set (str "mM") u then 2 ^ 20
                  else if in_set (str "kK") u then 2 ^ 10 else 1)
    | _ => def
    end).
Proof.
  intros Hd Hne Hv Hb Hnz Ht v s. unfold zstr_to_second, zstr_to_size, s.
  rewrite !str_to_unit_digits by (done || (intros u; unfold second_mult, size_mult; repeat case_match; lia)).
  fold v. destruct tail as [|u [|? ?]]; [split; f_equal; by rewrite Z.mul_1_r| |done].
  apply Forall_cons in Hb as [Hu _].
  clear Hnz Ht s.
  split; do 2 f_equal; apply Z.eqb_eq; revert u Hu; refine (byte_forall (fun u => _ =? _) _); by vm_compute.
Qed.

Lemma zstr_to_unit_spec_witness : zstr_to_second (str "-2H" ++ [0]) 5 = Some (-7200).
Proof.
  apply (zstr_to_unit_spec (str "2") (str "H") true 5); try done; repeat constructor; try done.
  intros c [= <-]. done.
Defined.

(** ** Decimal digits written and read *)
Lemma isdigit_range c : isdigit c = true -> 48 <= c <= 57.
Proof. unfold isdigit, in_range. lia. Qed.
Lemma decimal_digits_digits fuel n : 0 <= n -> all isdigit (decimal_digits fuel n).
Proof.
  assert (Hd : forall k, 0 <= k < 10 -> isdigit (k + 48) = true) by (intros; unfold isdigit, in_range; lia).
  revert n. induction fuel as [|fuel IH]; intros n Hn; cbn; [constructor|].
  destruct (Z.ltb_spec n 10); [constructor; [apply Hd; lia|constructor]|]. apply Forall_app. split.
  - apply IH. apply Z.div_pos; lia.
  - constructor; [|constructor]. apply Hd. pose proof (Z.mod_pos_bound n 10). lia.
Qed.
Lemma decimal_digits_cons n : 0 <= n -> exists c ds, decimal_digits 64 n = c :: ds /\ isdigit c = true.
Proof.
  intros Hn. pose proof (decimal_digits_digits 64 n Hn) as Hd. destruct (decimal_digits 64 n) as [|c ds] eqn:E.
  - change (decimal_digits 64 n) with (if n <? 10 then [n + 48] else decimal_digits 63 (n / 10) ++ [n mod 10 + 48]) in E.
    destruct (n <? 10); [done|]. by destruct (decimal_digits 63 (n / 10)).
  - exists c, ds. split; [done|]. by apply Forall_cons in Hd as [? _].
Qed.
(** The digits read back. *)
Lemma decimal_digits_value fuel n : 0 <= n < 10 ^ Z.of_nat fuel -> digits_value (decimal_digits fuel n) = n.
Proof.
  unfold digits_value. revert n. induction fuel as [|fuel IH]; intros n Hn.
  - change (10 ^ Z.of_nat 0) with 1 in Hn. cbn. lia.
  - cbn [decimal_digits]. rewrite Nat2Z.inj_succ, Z.pow_succ_r in Hn by lia.
    destruct (Z.ltb_spec n 10); [cbn; lia|]. rewrite fold_left_app, IH.
    + cbn. zdiv.
    + split; [apply Z.div_pos; lia|]. apply Z.div_lt_upper_bound; lia.
Qed.
Lemma scan_decimal n : 0 <= n < 2 ^ 64 -> (scan_digits None (decimal_digits 64 n)).1 = Some n.
Proof.
  intros Hn. destruct (decimal_digits_cons n) as (c & ds & E & _); [lia|].
  pose proof (scan_digits_app (decimal_digits 64 n) [] (decimal_digits_digits 64 n ltac:(lia)) ltac:(done) None) as Hs.
  rewrite app_nil_r in Hs. rewrite Hs by (left; by rewrite E). cbn [fst]. f_equal.
  apply (decimal_digits_value 64). split; [lia|]. eapply Z.lt_trans; [apply Hn|]. done.
Qed.
Lemma strtol10_fmt l : - 2 ^ 63 <= l < 2 ^ 63 -> strtol10 (fmt_zd l) = l.
Proof.
  intros Hl. unfold fmt_zd, strtol10. destruct (Z.ltb_spec l 0).
  - cbn [drop_spaces]. change (isspace 45) with false. cbn match. change (45 =? 45) with true. cbn match.
    rewrite scan_decimal by lia. cbn [from_option]. unfold id. lia.
  - destruct (decimal_digits_cons l) as (c & ds & E & Hc); [lia|]. pose proof (scan_decimal l ltac:(lia)) as Hs.
    rewrite E in *. cbn [drop_spaces]. replace (isspace c) with false by (unfold isspace, isdigit, in_range in *; lia).
    replace (c =? 45) with false by (unfold isdigit, in_range in *; lia).
    replace (c =? 43) with false by (unfold isdigit, in_range in *; lia). rewrite Hs. cbn [from_option]. unfold id. lia.
Qed.
Lemma atoi_digits ds rest : all isdigit ds -> ds <> [] -> digits_value ds < 2 ^ 31 -> Forall (.≠ 0) rest ->
  (forall c, head rest = Some c -> isdigit c = false) -> atoi ((ds ++ rest) ++ [0]) = Some (digits_value ds).
Proof.
  intros Hd Hne Hv Hr Hh. unfold atoi, atol. rewrite cstr_app.
  2: { apply Forall_app. split; [|done]. eapply Forall_impl; [exact Hd|]. intros c Hc%isdigit_range. lia. }
  cbn [fmap option_fmap option_map]. f_equal. unfold strtol10.
  pose proof (scan_digits_app ds rest Hd Hh None (or_introl Hne)) as E. pose proof (digits_value_nonneg ds Hd).
  destruct ds as [|d ds]; [done|]. apply Forall_cons in Hd as [Hd0 _]. apply isdigit_range in Hd0. cbn [app drop_spaces] in *.
  assert (isspace d = false) as -> by (unfold isspace, in_range; lia).
  rewrite (proj2 (Z.eqb_neq d (chr "-"))), (proj2 (Z.eqb_neq d (chr "+"))) by lia. rewrite E. cbn [fst default from_option id].
  change (fold_left _ _ 0) with (digits_value (d :: ds)). rewrite Z.min_l, Z.max_r by lia.
  unfold s32, swrap. rewrite Z.mod_small; lia.
Qed.

(** ** Strings in lower case *)
Abbreviation text_ok := (Forall (fun c => 0 < c < 256)).
Lemma text_bytes l : text_ok l -> bytes_ok l.
Proof. intros H. eapply Forall_impl; [exact H|]. intros c Hc. cbn in Hc. unfold byte_ok. lia. Qed.
Lemma text_nonzero l : text_ok l -> Forall (.≠ 0) l.
Proof. intros H. eapply Forall_impl; [exact H|]. intros c Hc. cbn in Hc |- *. lia. Qed.
Lemma ztolower_text l : text_ok l -> text_ok (ztolower <$> l).
Proof.
  intros H. apply Forall_fmap. eapply Forall_impl; [exact H|]. intros c Hc. unfold compose. cbn beta in *.
  rewrite ztolower_spec by (unfold byte_ok; lia). destruct (isupper c) eqn:E; [|lia]. unfold isupper, in_range in E. lia.
Qed.
Lemma zstr_tolower_text l r : Forall (.≠ 0) l -> zstr_tolower (l ++ 0 :: r) = Some ((ztolower <$> l) ++ 0 :: r).
Proof.
  unfold zstr_tolower. induction 1 as [|c l Hc _ IH]; cbn [app map_string fmap list_fmap]; [done|].
  rewrite (proj2 (Z.eqb_neq c 0)) by done. by rewrite IH.
Qed.
Lemma lower_nonzero l : bytes_ok l -> Forall (.≠ 0) l -> Forall (.≠ 0) (ztolower <$> l).
Proof.
  intros Hb H0. apply Forall_fmap. eapply Forall_impl; [apply Forall_and; split; [exact Hb|exact H0]|].
  intros c [Hc Hc0]. unfold compose. rewrite ztolower_spec by done. unfold isupper, in_range. unfold byte_ok in Hc; destruct (_ && _); lia.
Qed.
