(* ===== verification/Argv.v ===== *)
(** * Arrays of strings: src/stdlib/argv.c

    The array is a heap block of pointers. A cell is [None] while it holds no
    valid pointer (never written, or freed), [Some None] for NULL, [Some (Some
    s)] for a pointer to the private copy of the string [s]. *)
From S2P Require Import Prelude Chars Buf Vector Text.

Abbreviation acell := (option (option (list Z))).

Record zargv := mk_zargv { a_argv : list acell; a_argc : Z; a_size : Z }.

(** A C string argument: [None] is NULL. *)
Definition blank_or (ns : option (list Z)) : list Z := default [0] ns.
Definition zstrdup (ns : option (list Z)) : option (list Z) := cstr (blank_or ns).

(** [for (; *p && (nlen < n); p++, nlen++)]: the byte is read before the count is
    tested. *)
Fixpoint strndup_loop (p : list Z) (n : nat) : option (list Z) :=
  match p with
  | [] => None
  | c :: p' =>
      if c =? 0 then Some [] else
      match n with O => Some [] | S n' => cons c <$> strndup_loop p' n' end
  end.
Definition zstrndup (ptr : option (list Z)) (n : Z) : option (list Z) :=
  strndup_loop (blank_or ptr) (Z.to_nat n).

Definition zargv_init (size : Z) : option zargv :=
  let sane_size := if size <? 0 then 13 else size in
  n ← as_int (sane_size + 1);
  d ← wr (pmalloc n) 0 (Some None);
  Some (mk_zargv d 0 sane_size).
Definition zargv_create (size : Z) : option zargv := zargv_init size.

Definition zargv_extend (a : zargv) : option zargv :=
  new_size ← as_int (a_size a * 2);
  let new_size := if new_size <? 1 then 2 else new_size in
  n ← as_int (new_size + 1);
  Some (mk_zargv (prealloc (a_argv a) n) (a_argc a) new_size).

(** The two functions that add differ in how they copy the string. *)
Definition argv_add_copy (a : zargv) (copy : option (list Z)) : option zargv :=
  a ← (if a_size a <=? a_argc a then zargv_extend a else Some a);
  s ← copy;
  d ← wr (a_argv a) (a_argc a) (Some (Some s));
  d ← wr d (a_argc a + 1) (Some None);
  Some (mk_zargv d (a_argc a + 1) (a_size a)).
Definition zargv_add (a : zargv) (ns : option (list Z)) : option zargv :=
  argv_add_copy a (zstrdup ns).
Definition zargv_addn (a : zargv) (ns : option (list Z)) (nlen : Z) : option zargv :=
  argv_add_copy a (zstrndup ns nlen).

(** [for (cpp = ..; cpp < argv + argc; cpp++) zfree( *cpp)]; [n] cells are left. *)
Fixpoint free_loop (n : nat) (d : list acell) (i : Z) : option (list acell) :=
  match n with
  | O => Some d
  | S n' =>
      c ← rd d i;
      _ ← c;
      d ← wr d i None;
      free_loop n' d (i + 1)
  end.
Definition zargv_truncate (a : zargv) (len : Z) : option zargv :=
  if len <? a_argc a then
    d ← free_loop (Z.to_nat (a_argc a - len)) (a_argv a) len;
    d ← wr d len (Some None);
    Some (mk_zargv d len (a_size a))
  else Some a.
Definition zargv_reset (a : zargv) : option zargv := zargv_truncate a 0.

(** [while (zstrtok(&stok, delim)) zargv_addn(argvp, stok.str, stok.len)] *)
Fixpoint split_loop (fuel : nat) (a : zargv) (m : list Z) (k : zstrtok_t) (delim : list Z)
    : option zargv :=
  match fuel with
  | O => None
  | S fuel' =>
      r ← zstrtok m k delim;
      match r with
      | None => Some a
      | Some k =>
          a ← zargv_addn a (Some (drop (Z.to_nat (k_str k)) m)) (k_len k);
          split_loop fuel' a m k delim
      end
  end.
Definition zargv_split_append (argvp : option zargv) (m delim : list Z) : option zargv :=
  a ← match argvp with Some a => Some a | None => zargv_create (-1) end;
  split_loop (S (length m)) a m (zstrtok_init 0) delim.

(** ** Specification: a list of strings *)

(** [M] bounds the capacity, [N] the number of strings. *)
Record arep (N M : Z) (a : zargv) (l : list (list Z)) : Prop := {
  ar_block : exists rest, a_argv a = ((fun s => Some (Some s)) <$> l) ++ Some None :: rest;
  ar_argc : a_argc a = zlen l;
  ar_alloc : zlen (a_argv a) = a_size a + 1;
  ar_size : 0 <= a_size a <= M;
  ar_fit : zlen l <= a_size a;
  ar_count : zlen l <= N;
  ar_cap : 2 * N + 2 <= M < 2 ^ 27
}.

Abbreviation cells l := ((fun s : list Z => Some (Some s)) <$> l).

Lemma zargv_create_rep N M size : 0 <= N -> 2 * N + 2 <= M < 2 ^ 27 -> size <= M -> 13 <= M ->
  runs (zargv_create size) (fun a => arep N M a []).
Proof.
  intros HN HM Hs H13. unfold zargv_create, zargv_init.
  set (k := if size <? 0 then 13 else size). assert (0 <= k <= M) by (unfold k; case_match; lia).
  rewrite as_int_Some by lia. cbn [mbind option_bind].
  pose proof (pmalloc_len (A := option (list Z)) (k + 1)) as Hl.
  destruct (pmalloc (k + 1)) as [|c rest]; [change (zlen (@nil acell)) with 0 in Hl; lia|].
  rewrite wr_Some by zlia. simpl. apply runs_ret. split; simpl; try zlia; by exists rest.
Qed.

Lemma argv_add_rep N M a l s copy : arep N M a l -> zlen l < N -> copy = Some s ->
  runs (argv_add_copy a copy) (fun a' => arep N M a' (l ++ [s])).
Proof.
  intros [(rest & E) Hc Ha Hs Hf Hn Hcap] HN ->. unfold argv_add_copy.
  assert (Hroom : exists d z rest' size,
    (if a_size a <=? a_argc a then zargv_extend a else Some a) = Some (mk_zargv d (a_argc a) size) /\
    d = cells l ++ Some None :: z :: rest' /\ zlen d = size + 1 /\ zlen l < size <= M).
  { destruct (Z.leb_spec (a_size a) (a_argc a)).
    - unfold zargv_extend. rewrite as_int_Some by lia. cbn [mbind option_bind].
      set (n := if a_size a * 2 <? 1 then 2 else a_size a * 2).
      assert (a_size a < n <= M) by (unfold n; case_match; lia).
      rewrite as_int_Some by lia. cbn [mbind option_bind].
      destruct (prealloc_grow (a_argv a) (n + 1)) as (more & Eb & Hm); [lia|].
      rewrite Eb, E in *. rewrite <- app_assoc, <- app_comm_cons in *.
      destruct (rest ++ more) as [|z rest'] eqn:Er; [zlia|].
      exists (cells l ++ Some None :: z :: rest'), z, rest', n. repeat split; (done || lia).
    - destruct rest as [|z rest']; [rewrite E in Ha; zlia|].
      destruct a as [d argc size]. simpl in *. exists d, z, rest', size. repeat split; (done || lia). }
  destruct Hroom as (d & z & rest' & size & -> & Ed & Hd & Hsz). cbn [mbind option_bind a_argv a_argc a_size].
  rewrite Hc, Ed.
  replace (zlen l) with (zlen (cells l)) at 1 by apply zlen_fmap. rewrite wr_app. cbn [mbind option_bind].
  replace (cells l ++ Some (Some s) :: z :: rest') with (cells (l ++ [s]) ++ z :: rest')
    by (rewrite fmap_app, <- app_assoc; done).
  replace (zlen l + 1) with (zlen (cells (l ++ [s]))) at 1 by zlia. rewrite wr_app.
  apply runs_ret. rewrite Ed in Hd. split; simpl; try zlia; try done. by exists rest'.
Qed.

Lemma free_loop_spec (pre : list acell) l rest : forall i, i = zlen pre ->
  free_loop (length l) (pre ++ cells l ++ rest) i = Some (pre ++ replicate (length l) None ++ rest).
Proof.
  revert pre. induction l as [|s l IH]; intros pre i ->; [done|]. cbn [length free_loop fmap list_fmap app].
  rewrite rd_at. cbn [mbind option_bind]. rewrite wr_app. cbn [mbind option_bind].
  specialize (IH (pre ++ [None]) (zlen pre + 1)). rewrite <- !app_assoc in IH. apply IH. zlia.
Qed.

Lemma zargv_truncate_rep N M a l n : arep N M a l -> 0 <= n ->
  runs (zargv_truncate a n) (fun a' => arep N M a' (take (Z.to_nat n) l)).
Proof.
  intros H Hn. unfold zargv_truncate. destruct H as [(rest & E) Hc Ha Hs Hf HN Hcap].
  destruct (Z.ltb_spec n (a_argc a)).
  2:{ apply runs_ret. rewrite take_ge by (unfold zlen in *; lia). split; try done. by exists rest. }
  assert (El : l = take (Z.to_nat n) l ++ drop (Z.to_nat n) l) by (by rewrite take_drop).
  pose proof (zlen_take l n ltac:(lia)) as Ht. pose proof (zlen_drop l n ltac:(lia)) as Hd.
  set (l1 := take _ l) in *. set (l2 := drop _ l) in *.
  rewrite El, fmap_app, <- app_assoc in E. rewrite E, Hc.
  replace (Z.to_nat (zlen l - n)) with (length l2) by (rewrite <- zlen_to_nat; f_equal; lia).
  rewrite free_loop_spec by zlia. cbn [mbind option_bind].
  destruct l2 as [|s l2]; [zlia|]. cbn [length replicate app].
  replace n with (zlen (cells l1)) by zlia. rewrite wr_app. apply runs_ret.
  rewrite E in Ha. split; simpl; try zlia; try done; [by eexists|].
  revert Ha. autorewrite with zlen. fold (zlen l2). lia.
Qed.

Lemma zstrndup_prefix (tok r : list Z) : Forall (.≠ 0) tok -> r <> [] ->
  zstrndup (Some (tok ++ r)) (zlen tok) = Some tok.
Proof.
  intros Ht Hr. unfold zstrndup, blank_or. simpl. rewrite zlen_to_nat.
  induction Ht as [|c tok Hc _ IH]; simpl.
  - destruct r as [|c r]; [done|]. simpl. by destruct (c =? 0).
  - destruct (Z.eqb_spec c 0); [done|]. by rewrite IH.
Qed.

Lemma tokens_length d l : (length (tokens d l) <= length l)%nat.
Proof.
  unfold tokens. assert (H : forall cur, (length (tokens_from d cur l) <=
    length l + match cur with [] => 0 | _ => 1 end)%nat); [|by specialize (H []); simpl in H; lia].
  induction l as [|c l IH]; intros cur; simpl; [destruct cur; simpl; lia|].
  destruct (d c); [rewrite length_app; specialize (IH []); destruct cur; simpl in *; lia|].
  specialize (IH (cur ++ [c])). destruct cur; simpl in *; lia.
Qed.

(** The loop of [zargv_split_append] from a point of the string. *)
Lemma split_loop_rep N M delim rest : forall fuel a pre l ls s n,
  arep N M a ls -> Forall (.≠ 0) l -> Forall (fun t => zlen t <= int_max) (tokens (in_set delim) l) -> zlen ls + zlen (tokens (in_set delim) l) <= N ->
  (length (tokens (in_set delim) l) < fuel)%nat ->
  runs (split_loop fuel a (pre ++ l ++ 0 :: rest) (mk_strtok (zlen pre) s n) delim)
    (fun a' => arep N M a' (ls ++ tokens (in_set delim) l)).
Proof.
  induction fuel as [|fuel IH]; intros a pre l ls s n H Hl Hmax HN Hf; [lia|].
  cbn [split_loop]. rewrite (tokens_step (in_set delim) l) in *.
  rewrite (zstrtok_step pre l rest delim s n Hl).
  2:{ destruct (drop_while (in_set delim) l); [vm_compute; discriminate|]. by apply Forall_inv in Hmax. }
  set (d := in_set delim) in *. set (a1 := take_while d l). cbn zeta. fold a1.
  pose proof (take_drop_while d l) as E. fold a1 in E.
  pose proof (drop_while_string d l Hl) as Hl1.
  destruct (drop_while d l) as [|c l1] eqn:E1.
  { cbn. rewrite app_nil_r. by apply runs_ret. }
  pose proof (take_drop_while (nt d) (c :: l1)) as E2. pose proof (drop_while_string (nt d) _ Hl1) as Hl2.
  set (tok := take_while (nt d) (c :: l1)) in *. set (l2 := drop_while (nt d) (c :: l1)) in *.
  cbn [mbind option_bind k_str k_len].
  assert (Em : pre ++ l ++ 0 :: rest = (pre ++ a1) ++ tok ++ l2 ++ 0 :: rest)
    by (rewrite <- E, <- E2, <- !app_assoc; done).
  rewrite Em, zlen_to_nat, drop_app_length. rewrite <- E2 in Hl1. apply Forall_app in Hl1 as [Ht _].
  eapply runs_bind.
  { apply (argv_add_rep N M a ls tok); [done|zlia|]. apply zstrndup_prefix; [done|]. by destruct l2. }
  intros a' H'. cbn beta in H'. specialize (IH a' (pre ++ a1 ++ tok) l2 (ls ++ [tok]) (zlen (pre ++ a1)) (zlen tok)).
  rewrite <- !app_assoc in *. apply IH; [done|done|by apply Forall_inv_tail in Hmax|zlia|simpl in Hf; lia].
Qed.

Lemma zargv_split_append_rep N M a l m x delim : arep N M a l -> cstr m = Some x ->
  Forall (fun t => zlen t <= int_max) (tokens (in_set delim) x) -> zlen (l ++ tokens (in_set delim) x) <= N ->
  runs (zargv_split_append (Some a) m delim) (fun a' => arep N M a' (l ++ tokens (in_set delim) x)).
Proof.
  intros H Hx Hmax HN. destruct (cstr_split m x Hx) as (rest & -> & Hnz). cbn [zargv_split_append mbind option_bind].
  apply (split_loop_rep N M delim rest _ a [] x l 0 0 H Hnz Hmax); [zlia|].
  pose proof (tokens_length (in_set delim) x). rewrite length_app. simpl. lia.
Qed.

(** ** Runs of operations *)
Inductive argv_op :=
  | AAdd (ns : option (list Z)) | AAddn (ns : option (list Z)) (nlen : Z)
  | ATruncate (len : Z) | AReset | ASplit (string delim : list Z).

Definition run_aop (o : argv_op) (a : zargv) : option zargv :=
  match o with
  | AAdd ns => zargv_add a ns
  | AAddn ns nlen => zargv_addn a ns nlen
  | ATruncate len => zargv_truncate a len
  | AReset => zargv_reset a
  | ASplit string delim => zargv_split_append (Some a) string delim
  end.
Fixpoint run_aops (os : list argv_op) (a : zargv) : option zargv :=
  match os with [] => Some a | o :: os' => a ← run_aop o a; run_aops os' a end.

(** [None]: an argument that is not a C string, a negative length, or a string to
    split with a piece longer than an [int] counts. *)
Definition spec_aop (o : argv_op) (l : list (list Z)) : option (list (list Z)) :=
  match o with
  | AAdd ns => s ← zstrdup ns; Some (l ++ [s])
  | AAddn ns nlen => s ← zstrndup ns nlen; Some (l ++ [s])
  | ATruncate len => if len <? 0 then None else Some (take (Z.to_nat len) l)
  | AReset => Some []
  | ASplit string delim =>
      x ← cstr string; let ts := tokens (in_set delim) x in
      if bool_decide (Forall (fun t => zlen t <= int_max) ts) then Some (l ++ ts) else None
  end.
Fixpoint spec_aops (N : Z) (os : list argv_op) (l : list (list Z)) : option (list (list Z)) :=
  match os with
  | [] => Some l
  | o :: os' => l ← spec_aop o l; if zlen l <=? N then spec_aops N os' l else None
  end.

Lemma run_aop_rep N M a l o l' : arep N M a l -> spec_aop o l = Some l' -> zlen l' <= N ->
  runs (run_aop o a) (fun a' => arep N M a' l').
Proof.
  intros H Hs HN. destruct o as [ns|ns n|n| |s delim]; simpl in *.
  - destruct (zstrdup ns) as [s|] eqn:E; simplify_eq/=. by apply argv_add_rep; [|zlia|].
  - destruct (zstrndup ns n) as [s|] eqn:E; simplify_eq/=. by apply argv_add_rep; [|zlia|].
  - destruct (Z.ltb_spec n 0); simplify_eq. by apply zargv_truncate_rep.
  - simplify_eq. apply (zargv_truncate_rep N M a l 0); [done|lia].
  - destruct (cstr s) as [x|] eqn:E; simplify_eq/=. case_bool_decide; simplify_eq. by apply zargv_split_append_rep.
Qed.

(** C37: refinement of the array of strings. From [zargv_create], every sequence
    of additions, bounded additions, truncations and splits that holds at most
    [N] strings at a time runs without an access outside its block; the array
    then holds the copies of the strings of the abstract sequence, in order,
    followed by NULL. In particular a split appends exactly the maximal runs of
    non-delimiters of the string, each at most [INT_MAX] bytes long (zstrtok counts
    them in an [int]). *)
Theorem zargv_refines (os : list argv_op) (size N : Z) (l : list (list Z)) :
  0 <= N < 2 ^ 25 -> size < 2 ^ 26 -> spec_aops N os [] = Some l ->
  runs (a ← zargv_create size; run_aops os a) (fun a =>
    a_argc a = zlen l /\
    take (S (length l)) (a_argv a) = ((fun s => Some (Some s)) <$> l) ++ [Some None]).
Proof.
  intros HN Hs Hspec. set (M := Z.max (Z.max size (2 * N + 2)) 13).
  eapply runs_bind; [apply (zargv_create_rep N M); lia|]. intros a Ha.
  eapply (runs_mono _ (fun a => arep N M a l)).
  - revert a Ha Hspec. generalize (@nil (list Z)) as l0.
    induction os as [|o os IH]; intros l0 a Ha Hspec; simpl in *; [simplify_eq; by apply runs_ret|].
    destruct (spec_aop o l0) as [l1|] eqn:E; [|done]. simpl in Hspec.
    destruct (Z.leb_spec (zlen l1) N); [|done].
    eapply runs_bind; [by eapply run_aop_rep|]. intros a' Ha'. by apply (IH l1).
  - intros a' [(rest & E) Hc _ _ _ _ _]. split; [done|]. rewrite E.
    change (Some None :: rest) with ([Some None] ++ rest). rewrite app_assoc.
    apply take_app_length'. rewrite length_app, length_fmap. simpl. lia.
Qed.

Definition demo_aops : list argv_op :=
  [AAdd None; ASplit (str "a, b,,c" ++ [0]) (str ", "); AAddn (Some (str "xyz")) 2; ATruncate 5; AAddn (Some (str "xyz")) 2].

Lemma zargv_refines_witness :
  runs (a ← zargv_create 0; run_aops demo_aops a) (fun a =>
    a_argc a = 6 /\
    take 7 (a_argv a) = ((fun s => Some (Some s)) <$> [[]; str "a"; str "b"; str "c"; str "xy"; str "xy"]) ++ [Some None]).
Proof.
  apply (zargv_refines demo_aops 0 10 [[]; str "a"; str "b"; str "c"; str "xy"; str "xy"]);
    [lia|lia|vm_compute; reflexivity].
Defined.
