(* ===== verification/StateMonad.v ===== *)
(** * A state monad with undefined behaviour, and its program logic

    The pointer structures of the library are written in this monad: a
    computation takes the state (a store of nodes and the fields of the
    structure) and either answers with a new state or is undefined ([None]: a
    dereference of an address that is not in the store, a loop out of fuel).
    [wp m s Q] says that [m] runs from [s] without undefined behaviour and that
    its result and final state satisfy [Q]. *)
From S2P Require Import Prelude.

Definition St (S A : Type) : Type := S -> option (A * S).
#[export] Instance St_ret S : MRet (St S) := fun A a s => Some (a, s).
#[export] Instance St_bind S : MBind (St S) := fun A B f m s =>
  match m s with Some (a, s') => f a s' | None => None end.
Definition undefined {S A} : St S A := fun _ => None.
Definition skip {S} : St S unit := mret tt.
Definition gets {S A} (f : S -> A) : St S A := fun s => Some (f s, s).
Definition modify {S} (f : S -> S) : St S unit := fun s => Some (tt, f s).
Definition of_option {S A} (o : option A) : St S A := fun s => (fun a => (a, s)) <$> o.
(** A computation on a part of the state. *)
Definition focus {S T A} (get : S -> T) (set : S -> T -> S) (m : St T A) : St S A := fun s =>
  match m (get s) with Some (a, t) => Some (a, set s t) | None => None end.

Definition wp {S A} (m : St S A) (s : S) (Q : A -> S -> Prop) : Prop :=
  match m s with Some (a, s') => Q a s' | None => False end.

Section rules.
Context {S : Type}.

Lemma wp_ret {A} (a : A) (s : S) Q : Q a s -> wp (mret a) s Q.
Proof. done. Qed.
Lemma wp_bind {A B} (m : St S A) (f : A -> St S B) s Q :
  wp m s (fun a s' => wp (f a) s' Q) -> wp (m ≫= f) s Q.
Proof. unfold wp, mbind, St_bind. by destruct (m s) as [[a s']|]. Qed.
Lemma wp_mono {A} (m : St S A) s (P Q : A -> S -> Prop) :
  wp m s P -> (forall a s', P a s' -> Q a s') -> wp m s Q.
Proof. unfold wp. destruct (m s) as [[a s']|]; auto. Qed.
Lemma wp_gets {A} (f : S -> A) s Q : Q (f s) s -> wp (gets f) s Q.
Proof. done. Qed.
Lemma wp_modify (f : S -> S) s Q : Q tt (f s) -> wp (modify f) s Q.
Proof. done. Qed.
Lemma wp_of_option {A} (o : option A) a (s : S) (Q : A -> S -> Prop) :
  o = Some a -> Q a s -> wp (of_option o) s Q.
Proof. by intros -> ?. Qed.
Lemma wp_focus {T A} (get : S -> T) (set : S -> T -> S) (m : St T A) s (Q : A -> S -> Prop) :
  wp m (get s) (fun a t => Q a (set s t)) -> wp (focus get set m) s Q.
Proof. unfold wp, focus. by destruct (m (get s)) as [[a t]|]. Qed.
Lemma wp_runs {A} (m : St S A) s Q : wp m s Q -> exists a s', m s = Some (a, s') /\ Q a s'.
Proof. unfold wp. destruct (m s) as [[a s']|]; [eauto|done]. Qed.
End rules.
