(* ===== verification/Rbtree.v ===== *)
(** * Red-black trees: the operations of src/stdlib/rbtree.c

    Nodes live in a store, a finite map from addresses to the three fields of
    [zrbtree_node_t]; NULL is 0. The parent pointer and the colour share one
    integer, as in the code: addresses are multiples of 4 and the colour is the
    lowest bit. The code is written in a state monad whose state is the store
    and the [zrbtree_node] field of the tree; a dereference of an address that is
    not in the store, or a loop out of fuel, is [None].

    Every branch the code writes twice, once with left and right exchanged, is
    written once here, over a side [d]: with [d = L], [child d x] is
    [x->zrbtree_left] and [child (opp d) x] is [x->zrbtree_right]. The augmented
    variants are not used: the callbacks are the empty ones of
    [zrbtree_insert_color] and [zrbtree_erase]. *)
From stdpp Require Import gmap.
From S2P Require Import Prelude StateMonad.

(** [zrbtree_node_t]. *)
Record rbnode := mk_rbnode { rb_pc : Z; rb_right : Z; rb_left : Z }.
Abbreviation rbstore := (gmap Z rbnode).
(** The store and [root->zrbtree_node]. *)
Record rbstate := mk_rbstate { st_heap : rbstore; st_root : Z }.

(** ** The state monad *)
Abbreviation M := (St rbstate).

Definition get_node (x : Z) : M rbnode := fun s =>
  match st_heap s !! x with Some n => Some (n, s) | None => None end.
Definition put_node (x : Z) (n : rbnode) : M unit := fun s =>
  Some (tt, mk_rbstate (<[x := n]> (st_heap s)) (st_root s)).
(** Overwriting a whole node that must exist. *)
Definition store_node (x : Z) (n : rbnode) : M unit := get_node x;; put_node x n.
Definition get_root : M Z := fun s => Some (st_root s, s).
Definition set_root (x : Z) : M unit := fun s => Some (tt, mk_rbstate (st_heap s) x).

Definition get_pc (x : Z) : M Z := n ← get_node x; mret (rb_pc n).
Definition get_left (x : Z) : M Z := n ← get_node x; mret (rb_left n).
Definition get_right (x : Z) : M Z := n ← get_node x; mret (rb_right n).
Definition set_pc (x v : Z) : M unit :=
  n ← get_node x; put_node x (mk_rbnode v (rb_right n) (rb_left n)).
Definition set_left (x v : Z) : M unit :=
  n ← get_node x; put_node x (mk_rbnode (rb_pc n) (rb_right n) v).
Definition set_right (x v : Z) : M unit :=
  n ← get_node x; put_node x (mk_rbnode (rb_pc n) v (rb_left n)).

Inductive side := L | R.
Definition opp (d : side) : side := match d with L => R | R => L end.
Definition child (d : side) : Z -> M Z := match d with L => get_left | R => get_right end.
Definition set_child (d : side) : Z -> Z -> M unit :=
  match d with L => set_left | R => set_right end.

(** ** Parent and colour *)
Definition RB_RED : Z := 0.
Definition RB_BLACK : Z := 1.
Definition PARENT_of (pc : Z) : Z := Z.land pc (Z.lnot 3).
Definition color_of (pc : Z) : Z := Z.land pc 1.
Definition is_black_pc (pc : Z) : bool := negb (color_of pc =? 0).

Definition ZRBTREE_PARENT (x : Z) : M Z := pc ← get_pc x; mret (PARENT_of pc).
Definition zrbtree_is_black (x : Z) : M bool := pc ← get_pc x; mret (is_black_pc pc).
Definition zrbtree_is_red (x : Z) : M bool := b ← zrbtree_is_black x; mret (negb b).
(** [!x || zrbtree_is_black(x)] and [x && zrbtree_is_red(x)]. *)
Definition null_or_black (x : Z) : M bool := if x =? 0 then mret true else zrbtree_is_black x.
Definition nonnull_red (x : Z) : M bool := if x =? 0 then mret false else zrbtree_is_red x.

Definition zrbtree_set_parent (rb p : Z) : M unit :=
  pc ← get_pc rb; set_pc rb (Z.lor (color_of pc) p).
Definition zrbtree_set_parent_color (rb p color : Z) : M unit := set_pc rb (Z.lor p color).
(** [if (x) zrbtree_set_parent_color(x, p, color)] *)
Definition set_parent_color_if (x p color : Z) : M unit :=
  if x =? 0 then skip else zrbtree_set_parent_color x p color.
Definition zrbtree_set_black (rb : Z) : M unit :=
  pc ← get_pc rb; set_pc rb (Z.lor pc RB_BLACK).
Definition zrbtree_red_parent (red : Z) : M Z := get_pc red.

Definition change_child (old new_node parent : Z) : M unit :=
  if parent =? 0 then set_root new_node else
  l ← get_left parent;
  if l =? old then set_left parent new_node else set_right parent new_node.

Definition rotate_set_parents (old new_node color : Z) : M unit :=
  parent ← ZRBTREE_PARENT old;
  pc ← get_pc old;
  set_pc new_node pc;;
  zrbtree_set_parent_color old new_node color;;
  change_child old new_node parent.

(** ** [__zrbtree_insert] *)
Fixpoint insert_loop (fuel : nat) (node parent : Z) : M unit :=
  match fuel with
  | O => undefined
  | S fuel' =>
      if parent =? 0 then zrbtree_set_parent_color node 0 RB_BLACK else
      black ← zrbtree_is_black parent;
      if black : bool then skip else
      gparent ← zrbtree_red_parent parent;
      tmp ← get_right gparent;
      let d := if parent =? tmp then R else L in
      tmp ← child (opp d) gparent;
      red ← nonnull_red tmp;
      if red : bool then (* Case 1 *)
        zrbtree_set_parent_color tmp gparent RB_BLACK;;
        zrbtree_set_parent_color parent gparent RB_BLACK;;
        let node := gparent in
        parent ← ZRBTREE_PARENT node;
        zrbtree_set_parent_color node parent RB_RED;;
        insert_loop fuel' node parent
      else
        tmp ← child (opp d) parent;
        pt ← (if node =? tmp then (* Case 2 *)
                tmp ← child d node;
                set_child (opp d) parent tmp;;
                set_child d node parent;;
                set_parent_color_if tmp parent RB_BLACK;;
                zrbtree_set_parent_color parent node RB_RED;;
                let parent := node in
                tmp ← child (opp d) node;
                mret (parent, tmp)
              else mret (parent, tmp));
        let '(parent, tmp) := pt in
        (* Case 3 *)
        set_child d gparent tmp;;
        set_child (opp d) parent gparent;;
        set_parent_color_if tmp gparent RB_BLACK;;
        rotate_set_parents gparent parent RB_RED
  end.

(** A loop over a path of the tree runs at most once per node of the store. *)
Definition with_fuel {A} (f : nat -> M A) : M A := fun s => f (S (size (st_heap s))) s.

Definition zrbtree_insert_color (node : Z) : M unit :=
  parent ← zrbtree_red_parent node;
  with_fuel (fun fuel => insert_loop fuel node parent).

(** ** [____zrbtree_erase_color] *)

(** Case 4 of the loop. *)
Definition erase_case4 (d : side) (parent sibling tmp1 : Z) : M unit :=
  tmp2 ← child d sibling;
  set_child (opp d) parent tmp2;;
  set_child d sibling parent;;
  zrbtree_set_parent_color tmp1 sibling RB_BLACK;;
  (if tmp2 =? 0 then skip else zrbtree_set_parent tmp2 parent);;
  rotate_set_parents parent sibling RB_BLACK.

(** The loop body once the sibling is black; [again] is [continue]. *)
Definition erase_black_sibling (again : Z -> Z -> M unit) (d : side) (parent sibling : Z) : M unit :=
  tmp1 ← child (opp d) sibling;
  black1 ← null_or_black tmp1;
  if black1 : bool then
    tmp2 ← child d sibling;
    black2 ← null_or_black tmp2;
    if black2 : bool then (* Case 2 *)
      zrbtree_set_parent_color sibling parent RB_RED;;
      red ← zrbtree_is_red parent;
      if red : bool then zrbtree_set_black parent
      else
        let node := parent in
        parent ← ZRBTREE_PARENT node;
        if parent =? 0 then skip else again node parent
    else (* Case 3 *)
      tmp1 ← child (opp d) tmp2;
      set_child d sibling tmp1;;
      set_child (opp d) tmp2 sibling;;
      set_child (opp d) parent tmp2;;
      set_parent_color_if tmp1 sibling RB_BLACK;;
      erase_case4 d parent tmp2 sibling
  else erase_case4 d parent sibling tmp1.

Fixpoint erase_color_loop (fuel : nat) (node parent : Z) : M unit :=
  match fuel with
  | O => undefined
  | S fuel' =>
      sibling ← get_right parent;
      let d := if node =? sibling then R else L in
      sibling ← child (opp d) parent;
      red ← zrbtree_is_red sibling;
      sibling ← (if red : bool then (* Case 1 *)
                   tmp1 ← child d sibling;
                   set_child (opp d) parent tmp1;;
                   set_child d sibling parent;;
                   zrbtree_set_parent_color tmp1 parent RB_BLACK;;
                   rotate_set_parents parent sibling RB_RED;;
                   mret tmp1
                 else mret sibling);
      erase_black_sibling (erase_color_loop fuel') d parent sibling
  end.

(** [do { parent = successor; successor = tmp; tmp = tmp->left; } while (tmp)] *)
Fixpoint successor_loop (fuel : nat) (successor tmp : Z) : M (Z * Z) :=
  match fuel with
  | O => undefined
  | S fuel' =>
      let parent := successor in
      let successor := tmp in
      tmp ← get_left tmp;
      if tmp =? 0 then mret (parent, successor) else successor_loop fuel' successor tmp
  end.

(** [__zrbtree_erase_augmented]: the result is [rebalance], 0 for NULL. *)
Definition erase_augmented (node : Z) : M Z :=
  right ← get_right node;
  left ← get_left node;
  if left =? 0 then (* Case 1 *)
    pc ← get_pc node;
    let parent := PARENT_of pc in
    change_child node right parent;;
    if right =? 0 then mret (if is_black_pc pc then parent else 0)
    else set_pc right pc;; mret 0
  else if right =? 0 then
    pc ← get_pc node;
    set_pc left pc;;
    change_child node left (PARENT_of pc);;
    mret 0
  else
    tmp ← get_left right;
    r ← (if tmp =? 0 then (* Case 2 *)
           child2 ← get_right right;
           mret (right, right, child2)
         else (* Case 3 *)
           ps ← with_fuel (fun fuel => successor_loop fuel right tmp);
           let '(parent, successor) := ps in
           child2 ← get_right successor;
           set_left parent child2;;
           set_right successor right;;
           zrbtree_set_parent right successor;;
           mret (parent, successor, child2));
    let '(parent, successor, child2) := r in
    tmp ← get_left node;
    set_left successor tmp;;
    zrbtree_set_parent tmp successor;;
    pc ← get_pc node;
    change_child node successor (PARENT_of pc);;
    if child2 =? 0 then
      pc2 ← get_pc successor;
      set_pc successor pc;;
      mret (if is_black_pc pc2 then parent else 0)
    else
      set_pc successor pc;;
      zrbtree_set_parent_color child2 parent RB_BLACK;;
      mret 0.

Definition zrbtree_erase (node : Z) : M unit :=
  rebalance ← erase_augmented node;
  if rebalance =? 0 then skip else with_fuel (fun fuel => erase_color_loop fuel 0 rebalance).
Definition zrbtree_detach (node : Z) : M Z := zrbtree_erase node;; mret node.

(** ** In-order traversal *)

(** [while (n->left) n = n->left], and its mirror image. *)
Fixpoint down_loop (fuel : nat) (d : side) (n : Z) : M Z :=
  match fuel with
  | O => undefined
  | S fuel' => c ← child d n; if c =? 0 then mret n else down_loop fuel' d c
  end.
Definition zrbtree_end (d : side) : M Z :=
  n ← get_root;
  if n =? 0 then mret 0 else with_fuel (fun fuel => down_loop fuel d n).
Definition zrbtree_first : M Z := zrbtree_end L.
Definition zrbtree_last : M Z := zrbtree_end R.

(** [while ((parent = PARENT(node)) && node == parent->right) node = parent;] *)
Fixpoint up_loop (fuel : nat) (d : side) (node : Z) : M Z :=
  match fuel with
  | O => undefined
  | S fuel' =>
      parent ← ZRBTREE_PARENT node;
      if parent =? 0 then mret 0 else
      c ← child d parent;
      if node =? c then up_loop fuel' d parent else mret parent
  end.
Definition zrbtree_step (d : side) (node : Z) : M Z :=
  pc ← get_pc node;
  if pc =? node then mret 0 (* RB_EMPTY_NODE *) else
  c ← child d node;
  if c =? 0 then with_fuel (fun fuel => up_loop fuel d node)
  else with_fuel (fun fuel => down_loop fuel (opp d) c).
Definition zrbtree_next : Z -> M Z := zrbtree_step R.
Definition zrbtree_prev : Z -> M Z := zrbtree_step L.

Definition zrbtree_replace_node (victim new_node : Z) : M unit :=
  parent ← ZRBTREE_PARENT victim;
  change_child victim new_node parent;;
  l ← get_left victim;
  (if l =? 0 then skip else zrbtree_set_parent l new_node);;
  r ← get_right victim;
  (if r =? 0 then skip else zrbtree_set_parent r new_node);;
  n ← get_node victim;
  store_node new_node n.

(** ** Searching

    [cmp] is what [tree->cmp_fn] answers on the structures that hold the two
    nodes. *)
Section search.
Context (cmp : Z -> Z -> Z).

Fixpoint find_loop (fuel : nat) (vnode node : Z) : M Z :=
  match fuel with
  | O => undefined
  | S fuel' =>
      if node =? 0 then mret 0 else
      if cmp vnode node <? 0 then n ← get_left node; find_loop fuel' vnode n
      else if 0 <? cmp vnode node then n ← get_right node; find_loop fuel' vnode n
      else mret node
  end.
Definition zrbtree_find (vnode : Z) : M Z :=
  node ← get_root; with_fuel (fun fuel => find_loop fuel vnode node).

Definition zrbtree_remove (vnode : Z) : M Z :=
  node ← zrbtree_find vnode;
  (if node =? 0 then skip else zrbtree_erase node);;
  mret node.

(** [zrbtree_node_t **]: the root field, or a child field of a node. *)
Inductive rblink := LRoot | LChild (d : side) (x : Z).
Definition get_link (l : rblink) : M Z :=
  match l with LRoot => get_root | LChild d x => child d x end.
Definition set_link (l : rblink) (v : Z) : M unit :=
  match l with LRoot => set_root v | LChild d x => set_child d x v end.

(** The result: the node that compares equal, or the parent and the link where
    the new node goes. *)
Fixpoint attach_loop (fuel : nat) (node parent : Z) (new_node : rblink) : M (Z + Z * rblink) :=
  match fuel with
  | O => undefined
  | S fuel' =>
      x ← get_link new_node;
      if x =? 0 then mret (inr (parent, new_node)) else
      if cmp node x <? 0 then attach_loop fuel' node x (LChild L x)
      else if 0 <? cmp node x then attach_loop fuel' node x (LChild R x)
      else mret (inl x)
  end.

Definition zrbtree_link_node (node parent : Z) (link : rblink) : M unit :=
  store_node node (mk_rbnode parent 0 0);;
  set_link link node.

Definition zrbtree_attach (node : Z) : M Z :=
  r ← with_fuel (fun fuel => attach_loop fuel node 0 LRoot);
  match r with
  | inl x => mret x
  | inr (parent, link) =>
      zrbtree_link_node node parent link;;
      zrbtree_insert_color node;;
      mret node
  end.

(** [ret_node] is recorded when the search goes right. *)
Fixpoint near_prev_loop (fuel : nat) (vnode node ret_node : Z) : M Z :=
  match fuel with
  | O => undefined
  | S fuel' =>
      if node =? 0 then mret ret_node else
      if cmp vnode node <? 0 then n ← get_left node; near_prev_loop fuel' vnode n ret_node
      else if 0 <? cmp vnode node then n ← get_right node; near_prev_loop fuel' vnode n node
      else mret node
  end.
Definition zrbtree_near_prev (vnode : Z) : M Z :=
  node ← get_root; with_fuel (fun fuel => near_prev_loop fuel vnode node 0).

Fixpoint near_next_loop (fuel : nat) (vnode node ret_node : Z) : M Z :=
  match fuel with
  | O => undefined
  | S fuel' =>
      if node =? 0 then mret ret_node else
      if 0 <? cmp vnode node then n ← get_right node; near_next_loop fuel' vnode n node
      else if cmp vnode node <? 0 then n ← get_left node; near_next_loop fuel' vnode n ret_node
      else mret node
  end.
Definition zrbtree_near_next (vnode : Z) : M Z :=
  node ← get_root; with_fuel (fun fuel => near_next_loop fuel vnode node 0).
End search.

(** ** [zrbtree_walk]: an explicit stack of 64 entries

    The stack is a list, its top first; the result is the list of the nodes
    handed to [walk_fn], in order. *)
Definition WALK_STACK : Z := 64.
Definition walk_push (e : Z * Z) (stack : list (Z * Z)) : option (list (Z * Z)) :=
  if zlen stack <? WALK_STACK then Some (e :: stack) else None.
Definition walk_pop (stack : list (Z * Z)) : list (Z * Z) :=
  match stack with
  | [] => []
  | (node, lrs) :: stack' => (node, (lrs + 1) mod 256) :: stack'
  end.
Fixpoint walk_loop (fuel : nat) (stack : list (Z * Z)) : M (list Z) :=
  match fuel, stack with
  | _, [] => mret []
  | O, _ => undefined
  | S fuel', (node, lrs) :: below =>
      if node =? 0 then walk_loop fuel' (walk_pop below)
      else if lrs =? 2 then out ← walk_loop fuel' (walk_pop below); mret (node :: out)
      else
        c ← (if lrs =? 0 then get_left node else get_right node);
        match walk_push (c, 0) stack with
        | Some stack => walk_loop fuel' stack
        | None => undefined
        end
  end.
Definition zrbtree_walk : M (list Z) :=
  node ← get_root; with_fuel (fun fuel => walk_loop (4 * fuel) [(node, 0)]).
