(* ===== verification/RbShape.v ===== *)
(** * Red-black trees: shapes in the store, invariants, and stepping

    The functional trees that the nodes of the store spell out, the contexts
    (zippers) in which the loops of rbtree.c work, the red-black invariant on
    both, weakest preconditions for the monad, and the tactics that run the code
    symbolically. *)
From stdpp Require Import gmap.
From S2P Require Import Prelude StateMonad Rbtree.

(** ** Trees and contexts *)
Inductive color := Red | Black.
Definition colz (c : color) : Z := match c with Red => RB_RED | Black => RB_BLACK end.
(** The word that holds parent and colour. *)
Definition pcz (p : Z) (c : color) : Z := p + colz c.

Inductive tree := E | T (c : color) (l : tree) (x : Z) (r : tree).
Definition ptr (t : tree) : Z := match t with E => 0 | T _ _ x _ => x end.
Fixpoint elems (t : tree) : list Z :=
  match t with E => [] | T _ l x r => elems l ++ x :: elems r end.

(** A frame: the hole is the [d] child of node [x], of colour [c], whose other
    child is [sib]. A context lists the frames from the hole up. *)
Record frame := mk_frame { fr_side : side; fr_color : color; fr_node : Z; fr_sib : tree }.
Abbreviation ctx := (list frame).
Definition parent_of (k : ctx) : Z := match k with [] => 0 | f :: _ => fr_node f end.

Fixpoint plug (k : ctx) (t : tree) : tree :=
  match k with
  | [] => t
  | mk_frame L c x sib :: k' => plug k' (T c t x sib)
  | mk_frame R c x sib :: k' => plug k' (T c sib x t)
  end.
(** The elements before and after the hole. *)
Fixpoint kl (k : ctx) : list Z :=
  match k with
  | [] => []
  | mk_frame L c x sib :: k' => kl k'
  | mk_frame R c x sib :: k' => kl k' ++ elems sib ++ [x]
  end.
Fixpoint kr (k : ctx) : list Z :=
  match k with
  | [] => []
  | mk_frame L c x sib :: k' => x :: elems sib ++ kr k'
  | mk_frame R c x sib :: k' => kr k'
  end.
Definition zels (k : ctx) (t : tree) : list Z := kl k ++ elems t ++ kr k.

Lemma elems_plug k : forall t, elems (plug k t) = zels k t.
Proof.
  unfold zels. induction k as [|[[] c x sib] k IH]; intros t; simpl; [by rewrite app_nil_r| |];
    rewrite IH; simpl; rewrite <- !app_assoc; done.
Qed.

Lemma kl_app k1 k2 : kl (k1 ++ k2) = kl k2 ++ kl k1.
Proof.
  induction k1 as [|[[] c x sib] k1 IH]; simpl; [by rewrite app_nil_r|done|].
  by rewrite IH, <- app_assoc.
Qed.
Lemma kr_app k1 k2 : kr (k1 ++ k2) = kr k1 ++ kr k2.
Proof. induction k1 as [|[[] c x sib] k1 IH]; simpl; [done| |done]. by rewrite IH, <- app_assoc. Qed.
(** A chain of left frames has nothing before its hole. *)
Lemma kl_left k : Forall (fun f => fr_side f = L) k -> kl k = [].
Proof. induction 1 as [|[d c x sib] k Hd _ IH]; [done|]. simpl in *. by subst d. Qed.
Lemma plug_app k1 k2 : forall t, plug (k1 ++ k2) t = plug k2 (plug k1 t).
Proof. induction k1 as [|[[] c x sib] k1 IH]; intros t; simpl; [done|by rewrite IH..]. Qed.

(** ** Trees and contexts in the store *)
Fixpoint tat (h : rbstore) (p : Z) (t : tree) : Prop :=
  match t with
  | E => True
  | T c l x r => h !! x = Some (mk_rbnode (pcz p c) (ptr r) (ptr l)) /\ tat h x l /\ tat h x r
  end.
(** The node of a frame whose hole points to [f]. *)
Definition frame_node (d : side) (pc f sib : Z) : rbnode :=
  match d with L => mk_rbnode pc sib f | R => mk_rbnode pc f sib end.
Fixpoint cat (h : rbstore) (root f : Z) (k : ctx) : Prop :=
  match k with
  | [] => root = f
  | mk_frame d c x sib :: k' =>
      h !! x = Some (frame_node d (pcz (parent_of k') c) f (ptr sib)) /\ tat h x sib /\ cat h root x k'
  end.

(** Addresses: not NULL, and the two low bits are free. *)
Definition aligned (x : Z) : Prop := x mod 4 = 0.
Definition addr (x : Z) : Prop := 0 < x /\ aligned x.

Record rep (s : rbstate) (t : tree) : Prop := {
  rep_tree : tat (st_heap s) 0 t;
  rep_root : st_root s = ptr t;
  rep_nodup : NoDup (elems t);
  rep_addr : Forall addr (elems t)
}.
Record zrep (s : rbstate) (k : ctx) (t : tree) : Prop := {
  zrep_tree : tat (st_heap s) (parent_of k) t;
  zrep_ctx : cat (st_heap s) (st_root s) (ptr t) k;
  zrep_nodup : NoDup (zels k t);
  zrep_addr : Forall addr (zels k t)
}.

Lemma tat_plug h root k : forall t,
  (tat h (parent_of k) t /\ cat h root (ptr t) k) <-> (tat h 0 (plug k t) /\ root = ptr (plug k t)).
Proof.
  induction k as [|[[] c x sib] k IH]; intros t; simpl; [done| |]; rewrite <- IH; simpl; tauto.
Qed.
Lemma zrep_plug s k t : zrep s k t <-> rep s (plug k t).
Proof.
  split; intros [H1 H2 H3 H4].
  - destruct (proj1 (tat_plug _ _ k t) (conj H1 H2)) as [? ?]. by split; rewrite ?elems_plug.
  - destruct (proj2 (tat_plug _ _ k t) (conj H1 H2)) as [? ?]. rewrite elems_plug in *. by split.
Qed.

Lemma tat_insert h p t x n : x ∉ elems t -> tat h p t -> tat (<[x := n]> h) p t.
Proof.
  revert p. induction t as [|c l IHl y r IHr]; intros p; simpl; [done|].
  rewrite not_elem_of_app, not_elem_of_cons. intros (? & ? & ?) (? & ? & ?).
  rewrite lookup_insert_ne by done. auto.
Qed.
Lemma cat_insert h root f k x n : x ∉ kl k -> x ∉ kr k -> cat h root f k -> cat (<[x := n]> h) root f k.
Proof.
  revert f. induction k as [|[d c y sib] k IH]; intros f; [done|].
  intros H1 H2 (Hn & Ht & Hc). cbn.
  assert ((x <> y) /\ (x ∉ elems sib) /\ (x ∉ kl k) /\ (x ∉ kr k)) as (? & ? & ? & ?).
  { destruct d; simpl in *; rewrite ?not_elem_of_app, ?not_elem_of_cons, ?not_elem_of_app in *; tauto. }
  rewrite lookup_insert_ne by done. auto using tat_insert.
Qed.
Lemma tat_agree h h' p t : (forall y, y ∈ elems t -> h' !! y = h !! y) -> tat h p t -> tat h' p t.
Proof.
  revert p. induction t as [|c l IHl y r IHr]; intros p; simpl; [done|]. intros H (? & ? & ?).
  rewrite H by set_solver. split; [done|]. split; [apply IHl|apply IHr]; try done; set_solver.
Qed.
Lemma tat_dom h p t x : tat h p t -> x ∈ elems t -> x ∈ dom h.
Proof.
  revert p. induction t as [|c l IHl y r IHr]; intros p; simpl; [set_solver|].
  intros (? & ? & ?). rewrite elem_of_app, elem_of_cons. intros [?|[->|?]]; [by eapply IHl| |by eapply IHr].
  apply elem_of_dom. eauto.
Qed.

(** A piece of a context: its hole points to [f], its last frame hangs under [q]. *)
Definition above (k : ctx) (q : Z) : Z := match k with [] => q | g :: _ => fr_node g end.
Fixpoint top_of (f : Z) (k : ctx) : Z := match k with [] => f | g :: k' => top_of (fr_node g) k' end.
Fixpoint cseg (h : rbstore) (f : Z) (k : ctx) (q : Z) : Prop :=
  match k with
  | [] => True
  | mk_frame d c x sib :: k' =>
      h !! x = Some (frame_node d (pcz (above k' q) c) f (ptr sib)) /\ tat h x sib /\ cseg h x k' q
  end.

Lemma parent_of_app k1 k2 : parent_of (k1 ++ k2) = above k1 (parent_of k2).
Proof. by destruct k1. Qed.
Lemma above_snoc k f q : above (k ++ [f]) q = above k (fr_node f).
Proof. by destruct k. Qed.
Lemma ptr_plug k : forall t, ptr (plug k t) = top_of (ptr t) k.
Proof. induction k as [|[[] c x sib] k IH]; intros t; simpl; [done|by rewrite IH..]. Qed.
Lemma cat_app h root k1 k2 : forall f,
  cat h root f (k1 ++ k2) <-> cseg h f k1 (parent_of k2) /\ cat h root (top_of f k1) k2.
Proof.
  induction k1 as [|[d c x sib] k1 IH]; intros f; simpl; [tauto|].
  rewrite IH, parent_of_app. tauto.
Qed.
Lemma cseg_insert h f k q x n : (x ∉ kl k) -> (x ∉ kr k) -> cseg h f k q -> cseg (<[x := n]> h) f k q.
Proof.
  revert f. induction k as [|[d c y sib] k IH]; intros f; [done|].
  intros H1 H2 (Hn & Ht & Hc). cbn.
  assert ((x <> y) /\ (x ∉ elems sib) /\ (x ∉ kl k) /\ (x ∉ kr k)) as (? & ? & ? & ?).
  { destruct d; simpl in *; rewrite ?not_elem_of_app, ?not_elem_of_cons, ?not_elem_of_app in *; tauto. }
  rewrite lookup_insert_ne by done. auto using tat_insert.
Qed.

(** Everything laid out in the store is counted by its size. *)
Lemma elems_size h p t : tat h p t -> NoDup (elems t) -> (length (elems t) <= size h)%nat.
Proof.
  intros Ht Hnd. rewrite <- size_dom, <- (size_list_to_set (C := gset Z)) by exact Hnd.
  apply subseteq_size. intros y Hy%elem_of_list_to_set. by eapply tat_dom.
Qed.
(** Contexts are no longer than the store is large. *)
Lemma ctx_fuel h root k t : zrep (mk_rbstate h root) k t -> (length k <= size h)%nat.
Proof.
  intros H. pose proof H as Hz%zrep_plug. destruct Hz as [Ht _ Hnd _]. cbn in Ht.
  assert (Hl : (length k <= length (elems (plug k t)))%nat).
  { rewrite elems_plug. unfold zels. clear. induction k as [|[[] c x sib] k IH]; simpl; [lia| |];
      rewrite ?length_app in *; simpl; rewrite ?length_app in *; simpl; lia. }
  etrans; [exact Hl|]. by eapply elems_size.
Qed.

(** ** The red-black invariant

    [rbt c n t]: [t] can stand under a node of colour [c]; every path down [t]
    meets [n] black nodes; no red node has a red child. *)
Inductive rbt : color -> nat -> tree -> Prop :=
  | rbt_E c : rbt c 0 E
  | rbt_R n l x r : rbt Red n l -> rbt Red n r -> rbt Black n (T Red l x r)
  | rbt_B c n l x r : rbt Black n l -> rbt Black n r -> rbt c (S n) (T Black l x r).
Definition is_rb (t : tree) : Prop := exists n, rbt Red n t.

(** What a context asks of the tree in its hole. *)
Inductive rbk : color -> nat -> ctx -> Prop :=
  | rbk_nil n : rbk Red n []
  | rbk_R n d x sib k : rbt Red n sib -> rbk Black n k -> rbk Red n (mk_frame d Red x sib :: k)
  | rbk_B c n d x sib k : rbt Black n sib -> rbk c (S n) k -> rbk Black n (mk_frame d Black x sib :: k).

Create HintDb rb.
#[export] Hint Constructors rbt rbk : rb.

Lemma rbt_weaken n t : rbt Red n t -> rbt Black n t.
Proof. inversion 1; subst; eauto with rb. Qed.
#[export] Hint Resolve rbt_weaken : rb.

Lemma rbt_plug k : forall c n t, rbk c n k -> rbt c n t -> is_rb (plug k t).
Proof.
  induction k as [|[d c' x sib] k IH]; intros c n t Hk Ht; [inversion Hk; subst; by exists n|].
  inversion Hk; subst; destruct d; simpl; eapply IH; eauto with rb.
Qed.
(** Going down: the subtree at a hole, and what its context asks for. *)
Lemma rbt_unplug k : forall t, is_rb (plug k t) -> exists c n, rbk c n k /\ rbt c n t.
Proof.
  induction k as [|[d c' x sib] k IH]; intros t H; [destruct H as [n H]; exists Red, n; eauto with rb|].
  destruct d; simpl in H; destruct (IH _ H) as (c & n & Hk & Ht); inversion Ht; subst; eauto with rb.
Qed.

(** ** Single steps *)
Section steps.
Context (h : rbstore) (root x : Z).

Lemma wp_get_node n Q : h !! x = Some n ->
  Q n (mk_rbstate h root) -> wp (get_node x) (mk_rbstate h root) Q.
Proof. unfold wp, get_node. simpl. by intros ->. Qed.
Lemma wp_get_pc n Q : h !! x = Some n ->
  Q (rb_pc n) (mk_rbstate h root) -> wp (get_pc x) (mk_rbstate h root) Q.
Proof. intros ? ?. by eapply wp_bind, wp_get_node. Qed.
Lemma wp_get_left n Q : h !! x = Some n ->
  Q (rb_left n) (mk_rbstate h root) -> wp (get_left x) (mk_rbstate h root) Q.
Proof. intros ? ?. by eapply wp_bind, wp_get_node. Qed.
Lemma wp_get_right n Q : h !! x = Some n ->
  Q (rb_right n) (mk_rbstate h root) -> wp (get_right x) (mk_rbstate h root) Q.
Proof. intros ? ?. by eapply wp_bind, wp_get_node. Qed.
Lemma wp_set_left n v Q : h !! x = Some n ->
  Q tt (mk_rbstate (<[x := mk_rbnode (rb_pc n) (rb_right n) v]> h) root) ->
  wp (set_left x v) (mk_rbstate h root) Q.
Proof. intros ? ?. by eapply wp_bind, wp_get_node. Qed.
Lemma wp_set_right n v Q : h !! x = Some n ->
  Q tt (mk_rbstate (<[x := mk_rbnode (rb_pc n) v (rb_left n)]> h) root) ->
  wp (set_right x v) (mk_rbstate h root) Q.
Proof. intros ? ?. by eapply wp_bind, wp_get_node. Qed.
Lemma wp_set_pc n v Q : h !! x = Some n ->
  Q tt (mk_rbstate (<[x := mk_rbnode v (rb_right n) (rb_left n)]> h) root) ->
  wp (set_pc x v) (mk_rbstate h root) Q.
Proof. intros ? ?. by eapply wp_bind, wp_get_node. Qed.

End steps.

Lemma wp_get_root h root Q : Q root (mk_rbstate h root) -> wp get_root (mk_rbstate h root) Q.
Proof. done. Qed.
Lemma wp_set_root h root x Q : Q tt (mk_rbstate h x) -> wp (set_root x) (mk_rbstate h root) Q.
Proof. done. Qed.
Lemma wp_put_node h root x n Q :
  Q tt (mk_rbstate (<[x := n]> h) root) -> wp (put_node x n) (mk_rbstate h root) Q.
Proof. done. Qed.

(** ** The word [pcz p c] taken apart and changed *)
Lemma PARENT_pcz p c : aligned p -> PARENT_of (pcz p c) = p.
Proof.
  unfold aligned, PARENT_of, pcz. intros Hp. rewrite <- Z.ldiff_land.
  change 3 with (Z.ones 2). rewrite Z.ldiff_ones_r by lia.
  rewrite Z.shiftl_mul_pow2, Z.shiftr_div_pow2 by lia. change (2 ^ 2) with 4.
  destruct c; unfold colz, RB_RED, RB_BLACK; zdiv.
Qed.
Lemma color_pcz p c : aligned p -> color_of (pcz p c) = colz c.
Proof.
  unfold aligned, color_of, pcz. intros Hp. rewrite (land_mask _ 1) by lia. change (2 ^ 1) with 2.
  destruct c; unfold colz, RB_RED, RB_BLACK; zdiv.
Qed.
Lemma is_black_pcz p c : aligned p -> is_black_pc (pcz p c) = match c with Red => false | Black => true end.
Proof. intros. unfold is_black_pc. rewrite color_pcz by done. by destruct c. Qed.
Lemma lor_pcz p c : aligned p -> Z.lor p (colz c) = pcz p c.
Proof.
  unfold aligned, pcz. intros Hp. replace p with (p / 4 * 2 ^ 2) by (change (2 ^ 2) with 4; zdiv).
  apply lor_mul_add; [lia|]. by destruct c.
Qed.
Lemma lor_red p : aligned p -> Z.lor p RB_RED = pcz p Red.
Proof. apply (lor_pcz p Red). Qed.
Lemma lor_black p : aligned p -> Z.lor p RB_BLACK = pcz p Black.
Proof. apply (lor_pcz p Black). Qed.
Lemma set_parent_pcz p q c : aligned p -> aligned q -> Z.lor (color_of (pcz p c)) q = pcz q c.
Proof. intros. rewrite color_pcz by done. rewrite Z.lor_comm. by apply lor_pcz. Qed.
Lemma set_black_pcz p c : aligned p -> Z.lor (pcz p c) RB_BLACK = pcz p Black.
Proof.
  intros. rewrite <- (lor_pcz p c), <- Z.lor_assoc by done. rewrite <- (lor_black p) by done.
  by destruct c.
Qed.
Lemma red_pcz p : pcz p Red = p.
Proof. apply Z.add_0_r. Qed.
Lemma aligned_0 : aligned 0.
Proof. done. Qed.
Lemma addr_aligned x : addr x -> aligned x.
Proof. by intros []. Qed.
Lemma addr_nonzero x : addr x -> x <> 0.
Proof. intros []. lia. Qed.
#[export] Hint Resolve aligned_0 addr_aligned addr_nonzero : rb.

Lemma wp_with_fuel {A} h root (f : nat -> M A) Q :
  wp (f (S (size h))) (mk_rbstate h root) Q -> wp (with_fuel f) (mk_rbstate h root) Q.
Proof. done. Qed.

Section words.
Context (h : rbstore) (root x p : Z) (c : color) (l r : Z).
Hypothesis Hx : h !! x = Some (mk_rbnode (pcz p c) r l).
Hypothesis Hp : aligned p.

Lemma wp_PARENT Q : Q p (mk_rbstate h root) -> wp (ZRBTREE_PARENT x) (mk_rbstate h root) Q.
Proof using Hx Hp. intros. eapply wp_bind, wp_get_pc; [done|]. cbn. by rewrite PARENT_pcz. Qed.
Lemma wp_is_black Q : Q (match c with Red => false | Black => true end) (mk_rbstate h root) ->
  wp (zrbtree_is_black x) (mk_rbstate h root) Q.
Proof using Hx Hp. intros. eapply wp_bind, wp_get_pc; [done|]. cbn. by rewrite is_black_pcz. Qed.
Lemma wp_is_red Q : Q (match c with Red => true | Black => false end) (mk_rbstate h root) ->
  wp (zrbtree_is_red x) (mk_rbstate h root) Q.
Proof using Hx Hp. intros. apply wp_bind, wp_is_black. cbn. by destruct c. Qed.
Lemma wp_set_parent q Q : aligned q ->
  Q tt (mk_rbstate (<[x := mk_rbnode (pcz q c) r l]> h) root) ->
  wp (zrbtree_set_parent x q) (mk_rbstate h root) Q.
Proof using Hx Hp.
  intros. eapply wp_bind, wp_get_pc; [done|]. cbn. rewrite set_parent_pcz by done.
  by eapply wp_set_pc.
Qed.
Lemma wp_set_black Q : Q tt (mk_rbstate (<[x := mk_rbnode (pcz p Black) r l]> h) root) ->
  wp (zrbtree_set_black x) (mk_rbstate h root) Q.
Proof using Hx Hp.
  intros. eapply wp_bind, wp_get_pc; [done|]. cbn. rewrite set_black_pcz by done.
  by eapply wp_set_pc.
Qed.
End words.

Section write_words.
Context (h : rbstore) (root x : Z) (n : rbnode).
Hypothesis Hx : h !! x = Some n.
Lemma wp_set_parent_red q Q : aligned q ->
  Q tt (mk_rbstate (<[x := mk_rbnode (pcz q Red) (rb_right n) (rb_left n)]> h) root) ->
  wp (zrbtree_set_parent_color x q RB_RED) (mk_rbstate h root) Q.
Proof using Hx. intros. unfold zrbtree_set_parent_color. rewrite lor_red by done. by eapply wp_set_pc. Qed.
Lemma wp_set_parent_black q Q : aligned q ->
  Q tt (mk_rbstate (<[x := mk_rbnode (pcz q Black) (rb_right n) (rb_left n)]> h) root) ->
  wp (zrbtree_set_parent_color x q RB_BLACK) (mk_rbstate h root) Q.
Proof using Hx. intros. unfold zrbtree_set_parent_color. rewrite lor_black by done. by eapply wp_set_pc. Qed.
End write_words.

(** ** Distinctness facts

    [peeled P R]: the list [P ++ R] has no duplicates; [nodup_facts] takes the
    elements out of [R] one by one and records what each differs from. *)
Definition peeled (P R : list Z) : Prop := NoDup (P ++ R).
Lemma peel_start R : NoDup R -> peeled [] R.
Proof. done. Qed.
Lemma peel_app P A R : peeled P (A ++ R) -> peeled (P ++ A) R.
Proof. unfold peeled. by rewrite app_assoc. Qed.
Lemma peel_cons P x R : peeled P (x :: R) -> (x ∉ P) /\ (x ∉ R) /\ peeled P R.
Proof.
  unfold peeled. rewrite <- Permutation_middle, NoDup_cons, not_elem_of_app. tauto.
Qed.

Lemma notin_app (x : Z) l1 l2 : (x ∉ l1 ++ l2) -> (x ∉ l1) /\ (x ∉ l2).
Proof. by rewrite not_elem_of_app. Qed.
Lemma notin_cons (x y : Z) l : (x ∉ y :: l) -> x <> y /\ (x ∉ l).
Proof. by rewrite not_elem_of_cons. Qed.
Ltac split_notin H :=
  lazymatch type of H with
  | _ ∉ _ ++ _ =>
      let A := fresh "F" in let B := fresh "F" in
      apply notin_app in H as [A B]; split_notin A; split_notin B
  | _ ∉ _ :: _ =>
      let A := fresh "F" in let B := fresh "F" in apply notin_cons in H as [A B]; split_notin B
  | _ ∉ [] => clear H
  | _ => idtac
  end.
Ltac nodup_facts H :=
  apply peel_start in H;
  repeat lazymatch type of H with
    | peeled _ (_ :: _) =>
        let F := fresh "F" in let G := fresh "F" in
        apply peel_cons in H as (F & G & H); split_notin F; split_notin G
    | peeled _ (_ ++ _) => apply peel_app in H
    end;
  clear H.

(** Facts about every address of a configuration whose list of elements is
    [elts]: [Hnd : NoDup elts], [Hal : Forall addr elts]. *)
Ltac addr_facts H :=
  lazymatch type of H with
  | Forall _ (_ ++ _) =>
      let A := fresh "A" in let B := fresh "A" in
      apply Forall_app in H as [A B]; addr_facts A; addr_facts B
  | Forall _ (_ :: _) =>
      let A := fresh "A" in let B := fresh "A" in apply Forall_cons in H as [A B]; addr_facts B
  | Forall _ [] => clear H
  | _ => idtac
  end.

Lemma parent_aligned k : Forall addr (kl k) -> Forall addr (kr k) -> aligned (parent_of k).
Proof.
  destruct k as [|[[] c x sib] k]; simpl; [done| |]; repeat rewrite ?Forall_app, ?Forall_cons; intuition auto with rb.
Qed.
Lemma above_addr k q : Forall addr (kl k) -> Forall addr (kr k) -> addr q -> addr (above k q).
Proof.
  destruct k as [|[[] c x sib] k]; simpl; [done| |]; repeat rewrite ?Forall_app, ?Forall_cons; tauto.
Qed.
Lemma top_of_addr k : forall f, Forall addr (kl k) -> Forall addr (kr k) -> addr f -> addr (top_of f k).
Proof.
  induction k as [|[[] c x sib] k IH]; intros f; simpl; [done| |]; repeat rewrite ?Forall_app, ?Forall_cons;
    intros; apply IH; tauto.
Qed.
#[export] Hint Resolve parent_aligned above_addr top_of_addr : rb.

(** All facts about a configuration. *)
Ltac zfacts Hnd Hal :=
  let N := fresh "N" in let A := fresh "A" in
  pose proof Hnd as N; pose proof Hal as A;
  unfold zels in N, A; cbn [kl kr elems app] in N, A; rewrite ?kl_app, ?kr_app in N, A;
  cbn [kl kr elems app] in N, A;
  repeat (rewrite <- app_assoc in N; cbn [app] in N);
  nodup_facts N; addr_facts A.

Ltac neq :=
  solve [ assumption | apply not_eq_sym; assumption | auto with rb
        | apply not_eq_sym; auto with rb | discriminate ].
(** Lookups through a chain of insertions. *)
Ltac hl :=
  cbn [st_heap st_root];
  repeat first [ rewrite lookup_insert_eq | rewrite lookup_insert_ne by neq ];
  first [ reflexivity | eassumption ].
(** What is left of a tree or of a context after a chain of insertions. *)
Ltac framed :=
  first [ eassumption
        | apply tat_insert; [assumption|framed]
        | apply cat_insert; [assumption|assumption|framed]
        | apply cseg_insert; [assumption|assumption|framed] ].
Ltac aligned_tac := solve [ assumption | auto with rb ].

(** One step of the code. *)
Lemma wp_red_parent h root x p l r Q : h !! x = Some (mk_rbnode (pcz p Red) r l) ->
  Q p (mk_rbstate h root) -> wp (zrbtree_red_parent x) (mk_rbstate h root) Q.
Proof. intros ? ?. eapply wp_get_pc; [done|]. cbn. by rewrite red_pcz. Qed.

(** The root of a subtree that a red node can have is not red. *)
Lemma wp_nonnull_red h root p t n Q : rbt Red n t -> tat h p t -> aligned p -> Forall addr (elems t) ->
  Q false (mk_rbstate h root) -> wp (nonnull_red (ptr t)) (mk_rbstate h root) Q.
Proof.
  intros Ht Ha Hp He HQ. unfold nonnull_red. inversion Ht; subst; [done|]. cbn in *.
  destruct Ha as (Hx & _). apply Forall_app in He as (_ & (Hz & _)%Forall_cons).
  rewrite (proj2 (Z.eqb_neq x 0)) by auto with rb.
  by eapply wp_is_red.
Qed.
Lemma wp_null_or_black h root p t n Q : rbt Red n t -> tat h p t -> aligned p -> Forall addr (elems t) ->
  Q true (mk_rbstate h root) -> wp (null_or_black (ptr t)) (mk_rbstate h root) Q.
Proof.
  intros Ht Ha Hp He HQ. unfold null_or_black. inversion Ht; subst; [done|]. cbn in *.
  destruct Ha as (Hx & _). apply Forall_app in He as (_ & (Hz & _)%Forall_cons).
  rewrite (proj2 (Z.eqb_neq x 0)) by auto with rb.
  by eapply wp_is_black.
Qed.
Lemma ptr_neq t x : (x ∉ elems t) -> addr x -> x <> ptr t.
Proof. destruct t as [|c l y r]; simpl; [auto with rb|]. rewrite not_elem_of_app, not_elem_of_cons. tauto. Qed.
#[export] Hint Resolve ptr_neq : rb.

Ltac eqb_tac :=
  match goal with
  | |- context [?a =? ?a] => rewrite (Z.eqb_refl a)
  | |- context [?a =? ?b] => rewrite (proj2 (Z.eqb_neq a b)) by neq
  end.
Ltac wp_cbn :=
  cbn [rb_pc rb_left rb_right ptr parent_of fr_node fr_side child set_child opp colz frame_node
       st_heap st_root negb].
Ltac wp_step :=
  lazymatch goal with
  | |- wp (mbind _ _) _ _ => apply wp_bind
  | |- wp (mret _) _ _ => apply wp_ret
  | |- wp skip _ _ => apply wp_ret
  | |- wp get_root _ _ => apply wp_get_root
  | |- wp (set_root _) _ _ => apply wp_set_root
  | |- wp (get_node _) _ _ => eapply wp_get_node; [hl|]
  | |- wp (put_node _ _) _ _ => apply wp_put_node
  | |- wp (get_pc _) _ _ => eapply wp_get_pc; [hl|]
  | |- wp (get_left _) _ _ => eapply wp_get_left; [hl|]
  | |- wp (get_right _) _ _ => eapply wp_get_right; [hl|]
  | |- wp (set_left _ _) _ _ => eapply wp_set_left; [hl|]
  | |- wp (set_right _ _) _ _ => eapply wp_set_right; [hl|]
  | |- wp (set_pc _ _) _ _ => eapply wp_set_pc; [hl|]
  | |- wp (ZRBTREE_PARENT _) _ _ => eapply wp_PARENT; [hl|aligned_tac|]
  | |- wp (zrbtree_is_black _) _ _ => eapply wp_is_black; [hl|aligned_tac|]
  | |- wp (zrbtree_is_red _) _ _ => eapply wp_is_red; [hl|aligned_tac|]
  | |- wp (zrbtree_red_parent _) _ _ => eapply wp_red_parent; [hl|]
  | |- wp (zrbtree_set_parent _ _) _ _ => eapply wp_set_parent; [hl|aligned_tac|aligned_tac|]
  | |- wp (zrbtree_set_black _) _ _ => eapply wp_set_black; [hl|aligned_tac|]
  | |- wp (zrbtree_set_parent_color _ _ RB_RED) _ _ => eapply wp_set_parent_red; [hl|aligned_tac|]
  | |- wp (zrbtree_set_parent_color _ _ RB_BLACK) _ _ => eapply wp_set_parent_black; [hl|aligned_tac|]
  | |- wp (if _ =? _ then _ else _) _ _ => eqb_tac
  | |- wp (child _ _) _ _ => eqb_tac
  | |- wp (nonnull_red (ptr _)) _ _ => eapply wp_nonnull_red; [eassumption|framed|aligned_tac|eassumption|]
  | |- wp (null_or_black (ptr _)) _ _ => eapply wp_null_or_black; [eassumption|framed|aligned_tac|eassumption|]
  | |- wp (null_or_black _) _ _ => unfold null_or_black
  | |- wp (nonnull_red _) _ _ => unfold nonnull_red
  | |- wp (set_parent_color_if _ _ _) _ _ => unfold set_parent_color_if
  | |- wp (rotate_set_parents _ _ _) _ _ => unfold rotate_set_parents
  | |- wp (change_child _ _ (PARENT_of _)) _ _ => rewrite PARENT_pcz by aligned_tac
  | |- wp (change_child _ _ _) _ _ => unfold change_child
  | |- wp (erase_case4 _ _ _ _) _ _ => unfold erase_case4
  | |- wp (store_node _ _) _ _ => unfold store_node
  end; wp_cbn.
Ltac wp_run := wp_cbn; repeat wp_step.

(** What an operation on a tree whose elements are [L] leaves behind: a
    red-black tree of the elements [L'], the nodes outside [L] untouched. *)
Definition rebuilt (h : rbstore) (L L' : list Z) (s : rbstate) : Prop :=
  exists t, rep s t /\ is_rb t /\ elems t = L' /\ forall y, (y ∉ L) -> st_heap s !! y = h !! y.

Lemma rebuilt_zrep h L L' s k t c n : zrep s k t -> rbk c n k -> rbt c n t -> zels k t = L' ->
  (forall y, (y ∉ L) -> st_heap s !! y = h !! y) -> rebuilt h L L' s.
Proof.
  intros. exists (plug k t). split; [by apply zrep_plug|]. split; [by eapply rbt_plug|].
  by rewrite elems_plug.
Qed.

Lemma rebuilt_frame h h2 L L' s : rebuilt h2 L L' s -> (forall y, (y ∉ L) -> h2 !! y = h !! y) ->
  rebuilt h L L' s.
Proof.
  intros (t & ? & ? & ? & Hf) Hh. exists t. repeat split; try done; try apply H; [].
  intros y Hy. rewrite Hf by done. by apply Hh.
Qed.

Ltac zels_eq := unfold zels; cbn [kl kr elems app]; rewrite ?kl_app, ?kr_app;
  repeat match goal with E : kl _ = [] |- _ => progress rewrite E end; cbn [kl kr elems app]; repeat (rewrite <- app_assoc; cbn [app]); reflexivity.
Ltac tat_tac := cbn [tat ptr]; repeat split; solve [hl | framed].
Ltac cat_tac :=
  cbn [cat ptr parent_of fr_node frame_node]; rewrite ?cat_app, ?parent_of_app;
  cbn [cat ptr parent_of fr_node frame_node]; repeat split; solve [reflexivity | hl | framed].
Ltac frame_tac :=
  let y := fresh "y" in let Hy := fresh "Hy" in
  intros y Hy; unfold zels in Hy; cbn [kl kr elems app] in Hy;
  rewrite ?kl_app, ?kr_app in Hy; cbn [kl kr elems app] in Hy;
  split_notin Hy; hl.
(** The configuration reached: [Hnd] and [Hal] speak of the initial one, whose
    elements are the same. *)
Ltac zrep_tac Hnd Hal :=
  split; [ tat_tac | cat_tac
         | lazymatch type of Hnd with NoDup ?l => replace (zels _ _) with l by zels_eq; exact Hnd end
         | lazymatch type of Hal with Forall _ ?l => replace (zels _ _) with l by zels_eq; exact Hal end ].
(** From a configuration laid out in the store to the state the code reaches. *)
Ltac rb_run Ht Hc Hnd Hal :=
  zfacts Hnd Hal; cbn in Ht, Hc; destruct_and? Ht; destruct_and? Hc; subst; wp_run.
Ltac finish Hnd Hal k t c n :=
  eapply (rebuilt_zrep _ _ _ _ k t c n);
    [ zrep_tac Hnd Hal | by eauto 8 with rb | by eauto 8 with rb | zels_eq | frame_tac ].
