(* ===== verification/RbInsert.v ===== *)
(** * Red-black trees: insertion keeps the invariant *)
From stdpp Require Import gmap.
From S2P Require Import Prelude StateMonad Rbtree RbShape.

(** One round of Case 1: the configuration at the grandparent, whose subtrees are
    now [l] and [r]. *)
Ltac climb IH Hnd Hal l r :=
  lazymatch goal with
  | Hk : rbk ?c (S ?n) ?k |- wp (insert_loop _ ?g _) (mk_rbstate ?h2 ?root2) (fun _ => rebuilt _ ?L _) =>
      let E := fresh "E" in
      assert (E : zels k (T Red l g r) = L) by zels_eq;
      eapply wp_mono;
        [ eapply (IH h2 root2 k (S n) c l g r);
            [ by eauto 8 with rb | by eauto 8 with rb | exact Hk | zrep_tac Hnd Hal | assumption ]
        | intros ? s' Hs'; cbn beta in Hs'; rewrite E in Hs'; eapply rebuilt_frame; [exact Hs'|frame_tac] ]
  end.

Lemma insert_loop_spec fuel : forall h root k n c a x b,
  rbt Red n a -> rbt Red n b -> rbk c n k -> zrep (mk_rbstate h root) k (T Red a x b) ->
  (length k < fuel)%nat ->
  wp (insert_loop fuel x (parent_of k)) (mk_rbstate h root)
    (fun _ => rebuilt h (zels k (T Red a x b)) (zels k (T Red a x b))).
Proof.
  induction fuel as [|fuel IH]; intros h root k n c a x b Ha Hb Hk Hz Hf; [lia|].
  cbn [insert_loop]. destruct Hz as [Ht Hc Hnd Hal]. cbn [st_heap st_root] in *.
  destruct k as [|[d cp p sib] k].
  - (* the root *)
    zfacts Hnd Hal. cbn in Ht, Hc. destruct Ht as (Hx & Hta & Htb). wp_run.
    eapply (rebuilt_zrep _ _ _ _ [] (T Black a x b) Red (S n)); [|eauto with rb..|done|frame_tac].
    split; [tat_tac|done..].
  - destruct cp.
    2:{ (* a black parent *)
      pose proof Hc as (Hp & _). destruct d; zfacts Hnd Hal; cbn in Hp; wp_run;
        (eapply (rebuilt_zrep _ _ _ _ (_ :: k) _ Black n); [by split|by inversion Hk; subst; eauto with rb..|done|done]). }
    destruct k as [|[d2 cg g u] k]; [inversion Hk; subst; match goal with H : rbk Black _ [] |- _ => inversion H end|].
    assert (cg = Black /\ exists c', rbt Red n sib /\ rbt Black n u /\ rbk c' (S n) k) as (-> & c' & Hbs & Hbu & Hk')
      by (inversion Hk; subst; match goal with H : rbk Black _ (_ :: _) |- _ => inversion H; subst end; eauto 6).
    clear Hk.
    assert (Hcu : rbt Red n u \/ exists ul uu ur, u = T Red ul uu ur /\ rbt Red n ul /\ rbt Red n ur)
      by (inversion Hbu; subst; eauto 8 with rb).
    destruct Hcu as [Hru|(ul & uu & ur & -> & Hul & Hur)].
    + (* a black uncle: rotate *)
      destruct d2, d.
      * destruct sib as [|[] sl ss sr]; [|exfalso; inversion Hbs|]; destruct k as [|[[] c3 g3 s3] k];
          rb_run Ht Hc Hnd Hal;
          lazymatch goal with Hk : rbk c' _ ?k |- rebuilt _ (zels (mk_frame _ _ _ ?sib :: _) _) _ _ =>
          finish Hnd Hal k (T Black (T Red a x b) p (T Red sib g u)) c' (S n) end.
      * destruct a as [|[] al aa ar]; [|exfalso; inversion Ha|]; (destruct b as [|[] bl bb br]; [|exfalso; inversion Hb|]);
          destruct k as [|[[] c3 g3 s3] k];
          rb_run Ht Hc Hnd Hal;
          lazymatch goal with Hk : rbk c' _ ?k |- rebuilt _ (zels _ (T Red ?a _ ?b)) _ _ =>
          finish Hnd Hal k (T Black (T Red sib p a) x (T Red b g u)) c' (S n) end.
      * destruct a as [|[] al aa ar]; [|exfalso; inversion Ha|]; (destruct b as [|[] bl bb br]; [|exfalso; inversion Hb|]);
          destruct k as [|[[] c3 g3 s3] k];
          rb_run Ht Hc Hnd Hal;
          lazymatch goal with Hk : rbk c' _ ?k |- rebuilt _ (zels _ (T Red ?a _ ?b)) _ _ =>
          finish Hnd Hal k (T Black (T Red u g a) x (T Red b p sib)) c' (S n) end.
      * destruct sib as [|[] sl ss sr]; [|exfalso; inversion Hbs|]; destruct k as [|[[] c3 g3 s3] k];
          rb_run Ht Hc Hnd Hal;
          lazymatch goal with Hk : rbk c' _ ?k |- rebuilt _ (zels (mk_frame _ _ _ ?sib :: _) _) _ _ =>
          finish Hnd Hal k (T Black (T Red u g sib) p (T Red a x b)) c' (S n) end.
    + (* a red uncle: recolour and climb *)
      assert (Hfk : (length k < fuel)%nat) by (simpl in Hf; lia).
      destruct d2, d.
      all: rb_run Ht Hc Hnd Hal.
      * climb IH Hnd Hal (T Black (T Red a x b) p sib) (T Black ul uu ur).
      * climb IH Hnd Hal (T Black sib p (T Red a x b)) (T Black ul uu ur).
      * climb IH Hnd Hal (T Black ul uu ur) (T Black (T Red a x b) p sib).
      * climb IH Hnd Hal (T Black ul uu ur) (T Black sib p (T Red a x b)).
Qed.

(** [zrbtree_insert_color] on a new red node: the tree that results is
    red-black and its elements stand in the order the new node was linked at. *)
Lemma zrbtree_insert_color_spec h root k c x :
  rbk c 0 k -> zrep (mk_rbstate h root) k (T Red E x E) ->
  wp (zrbtree_insert_color x) (mk_rbstate h root)
    (fun _ => rebuilt h (zels k (T Red E x E)) (zels k (T Red E x E))).
Proof.
  intros Hk Hz. unfold zrbtree_insert_color. apply wp_bind.
  pose proof Hz as [(Hx & _) _ _ _]. eapply wp_red_parent; [exact Hx|].
  unfold with_fuel. apply (insert_loop_spec (S (size h)) h root k 0 c); eauto with rb.
  apply ctx_fuel in Hz. lia.
Qed.
