(* ===== verification/RbErase.v ===== *)
(** * Red-black trees: the colour fix-up after a deletion, case by case *)
From stdpp Require Import gmap.
From S2P Require Import Prelude StateMonad Rbtree RbShape.

(** A black-rooted tree, or a red root whose subtrees are black-rooted. *)
Lemma rbt_cases n t : rbt Black n t ->
  rbt Red n t \/ exists l x r, t = T Red l x r /\ rbt Red n l /\ rbt Red n r.
Proof. inversion 1; subst; eauto 8 with rb. Qed.

Lemma rbt_height t : forall c n c' n', rbt c n t -> rbt c' n' t -> n = n'.
Proof.
  induction t as [|[] l IHl x r IHr]; intros c n c' n' H H'; inversion H; inversion H'; subst; eauto using f_equal.
Qed.

(** Calling [again] on the parent, whose subtree is now [t2]. *)
Ltac retry H Hnd Hal k t2 :=
  lazymatch goal with
  | |- wp _ (mk_rbstate ?h2 ?root2) (fun _ => rebuilt _ ?L _) =>
      let E := fresh "E" in
      assert (E : zels k t2 = L) by zels_eq;
      eapply wp_mono;
        [ apply (H eq_refl ltac:(discriminate) h2 root2 t2); [ by eauto 8 with rb | zrep_tac Hnd Hal ]
        | intros ? s' Hs'; cbn beta in Hs'; rewrite E in Hs'; eapply rebuilt_frame; [exact Hs'|frame_tac] ]
  end.

(** ** The loop of the colour fix-up

    The hole is the [d] child of [p], a node of colour [cp] whose other child is
    black; the tree in the hole has [n] black nodes on every path, one fewer
    than its sibling. *)
Section black_sibling.
Context (again : Z -> Z -> M unit) (h : rbstore) (root : Z) (d : side) (cp : color) (p : Z).
Context (k : ctx) (t : tree) (n m : nat) (c : color).
Hypothesis Ht : rbt Red n t.
Hypothesis Hk : rbk c m k.
(** What the context takes at [p] once the deficit is made up. *)
Hypothesis Hfit : forall a x b, rbt Red (S n) a -> rbt Red (S n) b -> rbt c m (T cp a x b).

Abbreviation inner_outer i s o := (match d with L => T Black i s o | R => T Black o s i end).
Abbreviation goal_for sib m :=
  (zrep (mk_rbstate h root) (mk_frame d cp p sib :: k) t ->
   wp m (mk_rbstate h root)
     (fun _ => rebuilt h (zels (mk_frame d cp p sib :: k) t) (zels (mk_frame d cp p sib :: k) t))).

(** Case 4: the outer child of the sibling is red. *)
Lemma erase_case4_spec i s ol ox or : rbt Black n i -> rbt Red n ol -> rbt Red n or ->
  goal_for (inner_outer i s (T Red ol ox or)) (erase_black_sibling again d p s).
Proof using Ht Hk Hfit.
  intros Hi Hol Hor [Htt Hc Hnd Hal]. cbn [st_heap st_root] in *. unfold erase_black_sibling.
  destruct d; (destruct i as [|ci il ix ir]; destruct k as [|[[] c3 g3 s3] k'];
    rb_run Htt Hc Hnd Hal;
    lazymatch goal with
    | Hk : rbk _ _ ?k, Hi : rbt Black n ?i |- rebuilt _ (zels (mk_frame L _ _ _ :: _) _) _ _ =>
        finish Hnd Hal k (T cp (T Black t p i) s (T Black ol ox or)) c m
    | Hk : rbk _ _ ?k, Hi : rbt Black n ?i |- _ =>
        finish Hnd Hal k (T cp (T Black ol ox or) s (T Black i p t)) c m
    end).
Qed.

(** Case 3: only the inner child is red. *)
Lemma erase_case3_spec il ix ir s o : rbt Red n o -> rbt Red n il -> rbt Red n ir ->
  goal_for (inner_outer (T Red il ix ir) s o) (erase_black_sibling again d p s).
Proof using Ht Hk Hfit.
  intros Ho Hil Hir [Htt Hc Hnd Hal]. cbn [st_heap st_root] in *. unfold erase_black_sibling.
  destruct d; (destruct il as [|[] ill ilx ilr]; [|exfalso; inversion Hil|]);
    (destruct ir as [|[] irl irx irr]; [|exfalso; inversion Hir|]);
    destruct k as [|[[] c3 g3 s3] k'];
    rb_run Htt Hc Hnd Hal;
    lazymatch goal with
    | Hk : rbk _ _ ?k |- rebuilt _ (zels (mk_frame L _ _ (T Black (T Red ?il _ ?ir) _ _) :: _) _) _ _ =>
        finish Hnd Hal k (T cp (T Black t p il) ix (T Black ir s o)) c m
    | Hk : rbk _ _ ?k |- rebuilt _ (zels (mk_frame R _ _ (T Black _ _ (T Red ?il _ ?ir)) :: _) _) _ _ =>
        finish Hnd Hal k (T cp (T Black o s il) ix (T Black ir p t)) c m
    end.
Qed.

(** Case 2: both children of the sibling are black. *)
Lemma erase_case2_spec i s o : rbt Red n i -> rbt Red n o ->
  (cp = Black -> k <> [] -> forall h2 root2 t2, rbt Red (S n) t2 -> zrep (mk_rbstate h2 root2) k t2 ->
     wp (again (ptr t2) (parent_of k)) (mk_rbstate h2 root2) (fun _ => rebuilt h2 (zels k t2) (zels k t2))) ->
  goal_for (inner_outer i s o) (erase_black_sibling again d p s).
Proof using Ht Hk Hfit.
  intros Hi Ho Hagain [Htt Hc Hnd Hal]. cbn [st_heap st_root] in *. unfold erase_black_sibling.
  destruct cp.
  - (* a red parent turns black *)
    assert (Hfit2 : forall a x b, rbt Black n a -> rbt Black n b -> rbt c m (T Black a x b)).
    { assert (Hr : rbt Red (S n) (T Black i s o)) by eauto with rb. pose proof (Hfit _ p _ Hr Hr) as Hb.
      inversion Hb as [| |]; subst.
      match goal with H : rbt Red m _ |- _ => rewrite (rbt_height _ _ _ _ _ H Hr) end. eauto with rb. }
    destruct d; rb_run Htt Hc Hnd Hal.
    + finish Hnd Hal k (T Black t p (T Red i s o)) c m.
    + finish Hnd Hal k (T Black (T Red o s i) p t) c m.
  - (* a black parent: the deficit moves up *)
    destruct d; (destruct k as [|[[] c3 g3 s3] k'];
      rb_run Htt Hc Hnd Hal;
      lazymatch goal with
      | |- rebuilt _ (zels (mk_frame L _ _ _ :: _) _) _ _ =>
          finish Hnd Hal (@nil frame) (T Black t p (T Red i s o)) Red (S n)
      | |- rebuilt _ (zels (mk_frame R _ _ _ :: _) _) _ _ =>
          finish Hnd Hal (@nil frame) (T Black (T Red o s i) p t) Red (S n)
      | |- wp _ _ (fun _ => rebuilt _ (zels (mk_frame L _ _ _ :: ?k) _) _) =>
          retry Hagain Hnd Hal k (T Black t p (T Red i s o))
      | |- wp _ _ (fun _ => rebuilt _ (zels (mk_frame R _ _ _ :: ?k) _) _) =>
          retry Hagain Hnd Hal k (T Black (T Red o s i) p t)
      end).
Qed.

Lemma erase_black_sibling_spec i s o : rbt Black n i -> rbt Black n o ->
  (cp = Black -> k <> [] -> forall h2 root2 t2, rbt Red (S n) t2 -> zrep (mk_rbstate h2 root2) k t2 ->
     wp (again (ptr t2) (parent_of k)) (mk_rbstate h2 root2) (fun _ => rebuilt h2 (zels k t2) (zels k t2))) ->
  goal_for (inner_outer i s o) (erase_black_sibling again d p s).
Proof using Ht Hk Hfit.
  intros Hi Ho Hagain. destruct (rbt_cases _ _ Ho) as [Ho'|(ol & ox & or & -> & ? & ?)].
  - destruct (rbt_cases _ _ Hi) as [Hi'|(il & ix & ir & -> & ? & ?)].
    + by apply erase_case2_spec.
    + by apply erase_case3_spec.
  - by apply erase_case4_spec.
Qed.
End black_sibling.
