(* ===== verification/RbDelete.v ===== *)
(** * Red-black trees: deletion keeps the invariant *)
From stdpp Require Import gmap.
From S2P Require Import Prelude StateMonad Rbtree RbShape RbErase.

(** After the rotation of case 1: the parent is red, below the former sibling. *)
Ltac descend Hnd Hal sib k2 :=
  lazymatch goal with
  | Ht : rbt Red ?n ?t |- wp (erase_black_sibling _ ?d ?p _) _ (fun _ => rebuilt _ (zels ?k0 ?t) _) =>
      lazymatch sib with T Black ?a _ ?b =>
      let E := fresh "E" in
      assert (E : zels (mk_frame d Red p sib :: k2) t = zels k0 t) by zels_eq;
      eapply wp_mono;
        [ lazymatch d with
          | L => refine (erase_black_sibling_spec _ _ _ L Red p k2 t n (S n) Black Ht _ _ a _ b _ _ _ _)
          | R => refine (erase_black_sibling_spec _ _ _ R Red p k2 t n (S n) Black Ht _ _ b _ a _ _ _ _)
          end;
            [ by eauto 8 with rb | by eauto with rb | assumption | assumption | discriminate
            | zrep_tac Hnd Hal ]
        | intros ? s' Hs'; cbn beta iota in Hs'; rewrite E in Hs';
          eapply rebuilt_frame; [exact Hs'|frame_tac] ]
      end
  end.

(** The whole loop, started below any parent. *)
Lemma erase_color_loop_spec fuel : forall h root d cp p sib k t n c,
  rbt Red n t -> rbk c (S n) (mk_frame d cp p sib :: k) ->
  zrep (mk_rbstate h root) (mk_frame d cp p sib :: k) t -> (length k < fuel)%nat ->
  wp (erase_color_loop fuel (ptr t) p) (mk_rbstate h root)
    (fun _ => rebuilt h (zels (mk_frame d cp p sib :: k) t) (zels (mk_frame d cp p sib :: k) t)).
Proof.
  induction fuel as [|fuel IH]; intros h root d cp p sib k t n c Ht Hk Hz Hf; [lia|].
  cbn [erase_color_loop].
  assert (Hagain : k <> [] -> forall c' n' h2 root2 t2, rbk c' (S n') k -> rbt Red n' t2 ->
     zrep (mk_rbstate h2 root2) k t2 ->
     wp (erase_color_loop fuel (ptr t2) (parent_of k)) (mk_rbstate h2 root2)
       (fun _ => rebuilt h2 (zels k t2) (zels k t2))).
  { intros Hk0 c' n' h2 root2 t2 Hk2 Ht2 Hz2. destruct k as [|[d' c'' p' sib'] k]; [done|].
    eapply IH; eauto. simpl in Hf. lia. }
  inversion Hk as [|? ? ? ? ? Hs Hk2|c' ? ? ? ? ? Hs Hk2]; subst; clear Hk.
  - (* a red parent: the sibling is black *)
    inversion Hs as [| |? ? i s o Hi Ho]; subst.
    assert (Hfit : forall a x b, rbt Red (S n) a -> rbt Red (S n) b -> rbt Black (S n) (T Red a x b))
      by eauto with rb.
    pose proof Hz as [Htt Hc Hnd Hal]. cbn [st_heap st_root] in *.
    destruct d; rb_run Htt Hc Hnd Hal.
    + by eapply (erase_black_sibling_spec _ _ _ L).
    + by eapply (erase_black_sibling_spec _ _ _ R).
  - (* a black parent *)
    assert (Hfit : forall a x b, rbt Red (S n) a -> rbt Red (S n) b -> rbt c' (S (S n)) (T Black a x b))
      by eauto with rb.
    destruct (rbt_cases _ _ Hs) as [Hs'|(sl & s & sr & -> & Hsl & Hsr)].
    + inversion Hs' as [| |? ? i s o Hi Ho]; subst.
      pose proof Hz as [Htt Hc Hnd Hal]. cbn [st_heap st_root] in *.
      destruct d; rb_run Htt Hc Hnd Hal.
      * eapply (erase_black_sibling_spec _ _ _ L); eauto.
      * eapply (erase_black_sibling_spec _ _ _ R); eauto.
    + (* a red sibling: rotate, the parent is red now *)
      destruct d.
      * inversion Hsl as [| |? ? a y b Ha Hb]; subst.
        pose proof Hz as [Htt Hc Hnd Hal]. cbn [st_heap st_root] in *. clear Hz.
        destruct k as [|[[] c3 g3 s3] k]; rb_run Htt Hc Hnd Hal;
          lazymatch goal with |- wp _ _ (fun _ => rebuilt _ (zels (_ :: ?k) _) _) =>
            descend Hnd Hal (T Black a y b) (mk_frame L Black s sr :: k) end.
      * inversion Hsr as [| |? ? a y b Ha Hb]; subst.
        pose proof Hz as [Htt Hc Hnd Hal]. cbn [st_heap st_root] in *. clear Hz.
        destruct k as [|[[] c3 g3 s3] k]; rb_run Htt Hc Hnd Hal;
          lazymatch goal with |- wp _ _ (fun _ => rebuilt _ (zels (_ :: ?k) _) _) =>
            descend Hnd Hal (T Black a y b) (mk_frame R Black s sl :: k) end.
Qed.

(** ** Unlinking the node

    What [__zrbtree_erase_augmented] leaves: either a red-black tree without the
    node, or a hole one black node short, below the node it returns. *)
Definition unlinked (h : rbstore) (l l' : list Z) (reb : Z) (s : rbstate) : Prop :=
  (reb = 0 /\ rebuilt h l l' s) \/
  (reb <> 0 /\ exists d cp sib k c, rbk c 1 (mk_frame d cp reb sib :: k) /\
     zrep s (mk_frame d cp reb sib :: k) E /\ zels (mk_frame d cp reb sib :: k) E = l' /\
     forall y, (y ∉ l) -> st_heap s !! y = h !! y).

Lemma rbt_zero t : rbt Red 0 t -> t = E.
Proof. by inversion 1. Qed.
Lemma rbt_leaf t : rbt Black 0 t -> t = E \/ exists y, t = T Red E y E.
Proof. inversion 1 as [|? ? y ? H1 H2|]; [by left|]. inversion H1; inversion H2. eauto. Qed.

Ltac words := rewrite ?is_black_pcz, ?PARENT_pcz by aligned_tac.
Ltac unlink_done Hnd Hal k t c n := left; split; [reflexivity|finish Hnd Hal k t c n].
Ltac unlink_short Hnd Hal d cp sib k c :=
  right; split; [solve [auto with rb]|]; exists d, cp, sib, k, c;
  split; [by eauto 8 with rb|]; split; [zrep_tac Hnd Hal|]; split; [zels_eq|frame_tac].

Section unlink.
Context (h : rbstore) (root : Z) (k : ctx) (c0 : color) (n0 : nat) (c : color) (x : Z).
Hypothesis Hk : rbk c0 n0 k.

Definition unlink_spec (l r : tree) : Prop :=
  rbt c0 n0 (T c l x r) -> zrep (mk_rbstate h root) k (T c l x r) ->
   wp (erase_augmented x) (mk_rbstate h root)
     (unlinked h (zels k (T c l x r)) (kl k ++ elems l ++ elems r ++ kr k)).

(** The lists of elements with and without the node. *)
Lemma unlink_list (P : list Z -> Prop) l r :
  (forall a b, P (a ++ x :: b) -> P (a ++ b)) ->
  P (zels k (T c l x r)) -> P (kl k ++ elems l ++ elems r ++ kr k).
Proof.
  intros HP H. unfold zels in H. cbn in H. rewrite <- app_assoc, (app_assoc (kl k)) in H.
  cbn in H. apply HP in H. by rewrite <- !app_assoc in H.
Qed.
Lemma unlink_nodup l r : NoDup (zels k (T c l x r)) -> NoDup (kl k ++ elems l ++ elems r ++ kr k).
Proof. apply unlink_list. intros a b. rewrite <- Permutation_middle, NoDup_cons. tauto. Qed.
Lemma unlink_addr l r : Forall addr (zels k (T c l x r)) -> Forall addr (kl k ++ elems l ++ elems r ++ kr k).
Proof. apply unlink_list. intros a b. rewrite !Forall_app, Forall_cons. tauto. Qed.

Lemma erase_leaf_spec : unlink_spec E E.
Proof using Hk.
  intros Ht [Htt Hc Hnd Hal]. cbn [st_heap st_root] in *. unfold erase_augmented.
  pose proof (unlink_nodup _ _ Hnd) as Hnd'. pose proof (unlink_addr _ _ Hal) as Hal'.
  destruct c; inversion Ht; subst.
  - destruct k as [|[[] c3 g3 s3] k']; rb_run Htt Hc Hnd Hal; words;
      lazymatch goal with H : rbk Black n0 ?k |- _ => unlink_done Hnd' Hal' k E Black n0 end.
  - assert (n = 0%nat) as -> by (match goal with H : rbt Black n E |- _ => by inversion H end).
    destruct k as [|[[] c3 g3 s3] k']; rb_run Htt Hc Hnd Hal; words.
    + unlink_done Hnd' Hal' (@nil frame) E Red 0%nat.
    + unlink_short Hnd' Hal' L c3 s3 k' c0.
    + unlink_short Hnd' Hal' R c3 s3 k' c0.
Qed.

(** The only child of a node is red, and takes its place and its colour. *)
Lemma only_child t : rbt c0 n0 (T c E x t) \/ rbt c0 n0 (T c t x E) -> t <> E ->
  c = Black /\ n0 = 1%nat /\ exists y, t = T Red E y E.
Proof.
  intros Ht Hne. destruct Ht as [Ht|Ht]; inversion Ht; subst;
    repeat match goal with H : rbt _ ?n E |- _ => inversion H; clear H; subst end;
    match goal with H : rbt Red 0 t |- _ => by apply rbt_zero in H
    | H : rbt Black 0 t |- _ => destruct (rbt_leaf _ H) as [?|?]; [done|by auto] end.
Qed.

Lemma erase_only_right_spec cr rl y rr : unlink_spec E (T cr rl y rr).
Proof using Hk.
  intros Ht [Htt Hc Hnd Hal]. cbn [st_heap st_root] in *. unfold erase_augmented.
  pose proof (unlink_nodup _ _ Hnd) as Hnd'. pose proof (unlink_addr _ _ Hal) as Hal'.
  destruct (only_child _ (or_introl Ht)) as (Hcb & Hn & y' & Hy); [done|]. simplify_eq/=.
  destruct k as [|[[] c3 g3 s3] k']; rb_run Htt Hc Hnd Hal;
    lazymatch goal with H : rbk ?c _ ?k |- _ => unlink_done Hnd' Hal' k (T Black E y' E) c 1%nat end.
Qed.

Lemma erase_only_left_spec cl ll y lr : unlink_spec (T cl ll y lr) E.
Proof using Hk.
  intros Ht [Htt Hc Hnd Hal]. cbn [st_heap st_root] in *. unfold erase_augmented.
  pose proof (unlink_nodup _ _ Hnd) as Hnd'. pose proof (unlink_addr _ _ Hal) as Hal'.
  destruct (only_child _ (or_intror Ht)) as (Hcb & Hn & y' & Hy); [done|]. simplify_eq/=.
  destruct k as [|[[] c3 g3 s3] k']; rb_run Htt Hc Hnd Hal;
    lazymatch goal with H : rbk ?c _ ?k |- _ => unlink_done Hnd' Hal' k (T Black E y' E) c 1%nat end.
Qed.

(** The node has two children: what the successor, whose subtree is
    [T cs E s c2], looks like. *)
Lemma successor_cases c1 n1 cs s c2 : rbt c1 n1 (T cs E s c2) ->
  (c2 = E /\ cs = Red /\ c1 = Black /\ n1 = 0%nat) \/ (c2 = E /\ cs = Black /\ n1 = 1%nat) \/
  (exists z, c2 = T Red E z E /\ cs = Black /\ n1 = 1%nat).
Proof.
  intros H. inversion H; subst; repeat match goal with H : rbt _ ?n E |- _ => inversion H; clear H; subst end;
    match goal with H : rbt _ 0 c2 |- _ => inversion H; subst end; eauto 8;
    repeat match goal with H : rbt Red 0 _ |- _ => apply rbt_zero in H; subst end; eauto 8.
Qed.

Lemma rbk_fit k1 t : rbt c0 n0 (plug k1 t) -> exists c1 n1, rbk c1 n1 (k1 ++ k) /\ rbt c1 n1 t.
Proof using Hk.
  intros H. apply rbt_unplug. rewrite plug_app. by eapply rbt_plug.
Qed.
Lemma rbk_rename k1 c1 n1 d sib s : rbk c1 n1 (k1 ++ mk_frame d c x sib :: k) ->
  rbk c1 n1 (k1 ++ mk_frame d c s sib :: k).
Proof.
  revert c1 n1. induction k1 as [|[d1 c' y sib'] k1 IH]; intros c1 n1 H; simpl in *;
    inversion H; subst; eauto with rb.
Qed.

Lemma erase_next_spec cl ll lx lr cr y rr : unlink_spec (T cl ll lx lr) (T cr E y rr).
Proof using Hk.
  intros Ht [Htt Hc Hnd Hal]. cbn [st_heap st_root] in *. unfold erase_augmented.
  pose proof (unlink_nodup _ _ Hnd) as Hnd'. pose proof (unlink_addr _ _ Hal) as Hal'.
  destruct (rbk_fit [mk_frame R c x (T cl ll lx lr)] _ Ht) as (c1 & n1 & Hk1 & Hr).
  apply (rbk_rename [] _ _ _ _ y) in Hk1. cbn [app] in Hk1.
  destruct (successor_cases _ _ _ _ _ Hr) as [(-> & -> & -> & ->)|[(-> & -> & ->)|(z & -> & -> & ->)]];
    (destruct k as [|[[] c3 g3 s3] k']; rb_run Htt Hc Hnd Hal; words;
    lazymatch goal with
    | H : rbk ?c1 0 (mk_frame R ?c y ?l :: ?k) |- _ => unlink_done Hnd' Hal' (mk_frame R c y l :: k) E c1 0%nat
    | H : rbk ?c1 1 (mk_frame R ?c y ?l :: ?k), _ : rbt _ _ (T _ E _ E) |- _ => unlink_short Hnd' Hal' R c l k c1
    | H : rbk ?c1 1 (mk_frame R ?c y ?l :: ?k) |- _ => unlink_done Hnd' Hal' (mk_frame R c y l :: k) (T Black E z E) c1 1%nat
    end).
Qed.
End unlink.

(** The successor of a node with a right child [t] under [q]: the end of the left
    spine of [t], a chain of left frames. *)
Lemma successor_loop_spec t : forall fuel h root q, t <> E -> tat h q t -> Forall addr (elems t) ->
  (length (elems t) < fuel)%nat ->
  exists k1 cs s c2, t = plug k1 (T cs E s c2) /\ Forall (fun f => fr_side f = L) k1 /\
    wp (successor_loop fuel q (ptr t)) (mk_rbstate h root)
      (fun r s' => s' = mk_rbstate h root /\ r = (above k1 q, s)).
Proof.
  induction t as [|c l IH z r _]; intros fuel h root q Hne Ht Ha Hf; [done|].
  destruct fuel as [|fuel]; [lia|]. cbn [successor_loop ptr]. cbn in Ht, Ha. destruct Ht as (Hz & Hl & _).
  apply Forall_app in Ha as [Hal _]. destruct l as [|cl ll y lr].
  - exists [], c, z, r. split; [done|]. split; [done|]. wp_run. done.
  - destruct (IH fuel h root z) as (k1 & cs & s & c2 & E & Hs & Hwp); [done|done|done|cbn in Hf |- *; rewrite length_app in Hf; simpl in *; lia|].
    exists (k1 ++ [mk_frame L c z r]), cs, s, c2. rewrite plug_app, above_snoc, E.
    split; [done|]. split; [apply Forall_app; split; [done|by repeat constructor]|].
    assert (addr y) by (cbn in Hal; apply Forall_app in Hal as [_ [? _]%Forall_cons]; done).
    wp_run. exact Hwp.
Qed.

Section far.
Context (h : rbstore) (root : Z) (k : ctx) (c0 : color) (n0 : nat) (c : color) (x : Z).
Hypothesis Hk : rbk c0 n0 k.

Lemma erase_far_spec cl ll lx lr cr rl y rr : rl <> E ->
  unlink_spec h root k c0 n0 c x (T cl ll lx lr) (T cr rl y rr).
Proof using Hk.
  intros Hne Ht Hz. pose proof Hz as [Htt _ Hnd Hal]. cbn [st_heap st_root] in *.
  pose proof (unlink_nodup _ _ _ _ _ Hnd) as Hnd'. pose proof (unlink_addr _ _ _ _ _ Hal) as Hal'.
  destruct Htt as (_ & _ & _ & Hrl & _).
  assert (Hrn : NoDup (elems rl) /\ Forall addr (elems rl)).
  { clear -Hnd Hal. unfold zels in *. cbn in *. rewrite !NoDup_app, !NoDup_cons, !NoDup_app in Hnd.
    repeat rewrite ?Forall_app, ?Forall_cons in Hal. tauto. }
  pose proof (elems_size _ _ _ Hrl (proj1 Hrn)) as Hsz.
  destruct (successor_loop_spec rl (S (size h)) h root y Hne Hrl (proj2 Hrn)) as (k1 & cs & s & c2 & -> & Hs & Hwp);
    [lia|].
  rewrite ptr_plug in Hwp. cbn [ptr] in Hwp. clear Hrl Hrn Hsz Hne.
  set (fx := mk_frame R c x (T cl ll lx lr)).
  assert (Hz2 : zrep (mk_rbstate h root) (k1 ++ mk_frame L cr y rr :: fx :: k) (T cs E s c2)).
  { apply zrep_plug in Hz. apply zrep_plug. rewrite plug_app. exact Hz. }
  destruct (rbk_fit k c0 n0 Hk (k1 ++ [mk_frame L cr y rr; fx]) (T cs E s c2)) as (c1 & n1 & Hk1 & Hr).
  { rewrite plug_app. exact Ht. }
  assert (Hk2 : rbk c1 n1 ((k1 ++ [mk_frame L cr y rr]) ++ mk_frame R c s (T cl ll lx lr) :: k))
    by (eapply rbk_rename; rewrite <- app_assoc in Hk1 |- *; exact Hk1).
  rewrite <- app_assoc in Hk2. cbn [app] in Hk2. clear Hz Hk1 Ht Hnd Hal Hk.
  destruct Hz2 as [Htt Hc Hnd Hal]. unfold zels at 1. cbn [elems st_heap st_root] in *.
  rewrite elems_plug in *. unfold zels at 1 2. unfold zels at 1 in Hnd'. unfold zels at 1 in Hal'.
  cbn [elems app] in Hnd', Hal'. subst fx. unfold erase_augmented.
  destruct k1 as [|[d cp p sp] km].
  - cbn [app kl kr] in *.
    destruct (successor_cases _ _ _ _ _ Hr) as [(-> & -> & -> & ->)|[(-> & -> & ->)|(z & -> & -> & ->)]];
      (destruct k as [|[[] c3 g3 s3] k']; rb_run Htt Hc Hnd Hal;
       apply wp_with_fuel; (eapply wp_mono; [exact Hwp|]); intros ? ? [-> ->]; cbn [above]; wp_run; words;
       lazymatch goal with
       | H : rbk ?c1 0 (mk_frame L cr y rr :: ?k) |- _ =>
           unlink_done Hnd' Hal' (mk_frame L cr y rr :: k) E c1 0%nat
       | H : rbk ?c1 1 (mk_frame L cr y rr :: ?k), _ : rbt _ _ (T _ E _ E) |- _ =>
           unlink_short Hnd' Hal' L cr rr k c1
       | H : rbk ?c1 1 (mk_frame L cr y rr :: ?k) |- _ =>
           unlink_done Hnd' Hal' (mk_frame L cr y rr :: k) (T Black E z E) c1 1%nat
       end).
  - apply Forall_cons in Hs as [Hd Hkm%kl_left]. cbn in Hd. subst d.
    cbn [app kl kr] in *. cbn [cat] in Hc. rewrite cat_app, parent_of_app in Hc.
    destruct (successor_cases _ _ _ _ _ Hr) as [(-> & -> & -> & ->)|[(-> & -> & ->)|(z & -> & -> & ->)]];
      (destruct k as [|[[] c3 g3 s3] k']; rb_run Htt Hc Hnd Hal;
       apply wp_with_fuel; (eapply wp_mono; [exact Hwp|]); intros ? ? [-> ->]; cbn [above fr_node]; wp_run; words;
       lazymatch goal with
       | H : rbk ?c1 0 (mk_frame L cp p sp :: ?k) |- _ =>
           unlink_done Hnd' Hal' (mk_frame L cp p sp :: k) E c1 0%nat
       | H : rbk ?c1 1 (mk_frame L cp p sp :: ?k), _ : rbt _ _ (T _ E _ E) |- _ =>
           unlink_short Hnd' Hal' L cp sp k c1
       | H : rbk ?c1 1 (mk_frame L cp p sp :: ?k) |- _ =>
           unlink_done Hnd' Hal' (mk_frame L cp p sp :: k) (T Black E z E) c1 1%nat
       end).
Qed.

Lemma erase_augmented_spec l r : unlink_spec h root k c0 n0 c x l r.
Proof using Hk.
  destruct l as [|cl ll lx lr].
  - destruct r as [|cr rl y rr]; [by apply erase_leaf_spec|by apply erase_only_right_spec].
  - destruct r as [|cr rl y rr]; [by apply erase_only_left_spec|].
    destruct rl; [by apply erase_next_spec|by apply erase_far_spec].
Qed.
End far.

(** [zrbtree_erase] of the node at the hole of [k]: the tree is red-black
    afterwards, holds the other elements in order, and every other node of the
    store is untouched. *)
Lemma zrbtree_erase_spec h root k c x l r : is_rb (plug k (T c l x r)) ->
  zrep (mk_rbstate h root) k (T c l x r) ->
  wp (zrbtree_erase x) (mk_rbstate h root)
    (fun _ => rebuilt h (zels k (T c l x r)) (kl k ++ elems l ++ elems r ++ kr k)).
Proof.
  intros Hrb Hz. destruct (rbt_unplug k _ Hrb) as (c0 & n0 & Hk & Ht).
  unfold zrbtree_erase. apply wp_bind. eapply wp_mono; [by eapply erase_augmented_spec|].
  intros reb s' [[-> Hr]|(Hne & d & cp & sib & k' & c' & Hk' & Hz' & HL & Hf)]; [exact Hr|].
  rewrite (proj2 (Z.eqb_neq reb 0)) by done. destruct s' as [h' root'].
  apply wp_with_fuel. eapply wp_mono.
  - apply (erase_color_loop_spec (S (size h')) h' root' d cp reb sib k' E 0 c'); [constructor|done|done|].
    apply ctx_fuel in Hz'. simpl in Hz'. lia.
  - intros ? s'' Hs. cbn beta in Hs. rewrite HL in Hs. destruct Hs as (t & ? & ? & ? & Hf').
    exists t. repeat split; try done; try apply H; []. intros y Hy. rewrite Hf'; [by apply Hf|].
    intros Hin. apply Hy. unfold zels. cbn.
    repeat rewrite ?elem_of_app, ?elem_of_cons in *. tauto.
Qed.
