(* ===== verification/Rbset.v ===== *)
(** * Red-black trees: searching, traversal, and the ordered set

    The trees are ordered by the comparison callback; every operation of
    rbtree.c is then an operation on the sorted list of the nodes. *)
From stdpp Require Import gmap sorting.
From S2P Require Import Prelude StateMonad Rbtree RbShape RbInsert RbErase RbDelete.

Lemma filter_none {A} (P : A -> Prop) `{HP : !forall x, Decision (P x)} (l : list A) :
  (forall x, x ∈ l -> ~ P x) -> filter P l = [].
Proof.
  induction l as [|a l IH]; intros Hl; [done|].
  rewrite filter_cons_False by (apply Hl; by left). apply IH. intros x Hx. apply Hl. by right.
Qed.
Lemma filter_every {A} (P : A -> Prop) `{!forall x, Decision (P x)} (l : list A) :
  (forall x, x ∈ l -> P x) -> filter P l = l.
Proof.
  induction l as [|a l IH]; intros Hl; [done|].
  rewrite filter_cons_True by (apply Hl; by left). f_equal. apply IH. intros x Hx. apply Hl. by right.
Qed.

(** ** The comparison callback

    What the trees need of [cmp_fn]: its sign is a strict weak order. *)
Class CmpOrder {A : Type} (cmp : A -> A -> Z) : Prop := {
  cmp_flip x y : cmp x y < 0 <-> 0 < cmp y x;
  cmp_lt_trans x y z : cmp x y < 0 -> cmp y z < 0 -> cmp x z < 0;
  cmp_lt_eq x y z : cmp x y < 0 -> cmp y z = 0 -> cmp x z < 0;
  cmp_eq_lt x y z : cmp x y = 0 -> cmp y z < 0 -> cmp x z < 0
}.

Section preorder.
Context {A : Type} (cmp : A -> A -> Z) `{!CmpOrder cmp}.

Lemma cmp_refl x : cmp x x = 0.
Proof.
  destruct (Z.lt_trichotomy (cmp x x) 0) as [H|[H|H]]; [|done|].
  - pose proof (proj1 (cmp_flip x x) H). lia.
  - pose proof (proj2 (cmp_flip x x) H). lia.
Qed.
Lemma cmp_eq_sym x y : cmp x y = 0 -> cmp y x = 0.
Proof.
  intros H. destruct (Z.lt_trichotomy (cmp y x) 0) as [H'|[H'|H']]; [|done|].
  - apply cmp_flip in H'. lia.
  - apply (cmp_flip x y) in H'. lia.
Qed.
Lemma cmp_eq_trans a b c : cmp a b = 0 -> cmp b c = 0 -> cmp a c = 0.
Proof.
  intros Hab Hbc. destruct (Z.lt_trichotomy (cmp a c) 0) as [Hl|[|Hg]]; [|done|].
  - pose proof (cmp_lt_eq a c b Hl (cmp_eq_sym _ _ Hbc)). lia.
  - apply cmp_flip in Hg. pose proof (cmp_lt_eq c a b Hg Hab).
    apply cmp_eq_sym in Hbc. lia.
Qed.
End preorder.
Arguments cmp_eq_sym {A cmp _ x y} _.
Arguments cmp_eq_trans {A cmp _ a b c} _ _.

Section order.
Context (cmp : Z -> Z -> Z) `{!CmpOrder cmp}.

Definition before (x y : Z) : Prop := cmp x y < 0.
Abbreviation ordered := (StronglySorted before).

Lemma ordered_app l1 l2 : ordered (l1 ++ l2) <->
  ordered l1 /\ ordered l2 /\ (forall x y, x ∈ l1 -> y ∈ l2 -> before x y).
Proof.
  induction l1 as [|a l1 IH]; simpl.
  { split; [|tauto]. intros. split; [constructor|]. split; [done|]. by intros ? ? ?%elem_of_nil. }
  split.
  - intros [H Ha]%StronglySorted_inv. apply IH in H as (H1 & H2 & H12).
    rewrite Forall_app in Ha. destruct Ha as [Ha1 Ha2]. rewrite Forall_forall in Ha2.
    split; [by constructor|]. split; [done|]. intros x y [->|?]%elem_of_cons ?; auto.
  - intros ([H1 Ha]%StronglySorted_inv & H2 & H12). constructor.
    + apply IH. split; [done|]. split; [done|]. intros. apply H12; [by right|done].
    + apply Forall_app. split; [done|]. apply Forall_forall. intros y Hy. apply H12; [by left|done].
Qed.

(** The element of an ordered list that compares equal to [v]. *)
Definition find_eq (v : Z) (l : list Z) : option Z := List.find (fun x => cmp v x =? 0) l.
Fixpoint insert_ordered (v : Z) (l : list Z) : list Z :=
  match l with
  | [] => [v]
  | x :: l' => if cmp v x <? 0 then v :: l else x :: insert_ordered v l'
  end.

Lemma find_eq_app v l1 l2 : (forall x, x ∈ l1 -> cmp v x <> 0) -> find_eq v (l1 ++ l2) = find_eq v l2.
Proof.
  unfold find_eq. induction l1 as [|a l1 IH]; intros H; simpl; [done|].
  rewrite (proj2 (Z.eqb_neq (cmp v a) 0)) by (apply H; by left). apply IH. intros x Hx. apply H. by right.
Qed.
Lemma find_eq_none v l : (forall x, x ∈ l -> cmp v x <> 0) -> find_eq v l = None.
Proof. intros H. pose proof (find_eq_app v l [] H) as E. by rewrite app_nil_r in E. Qed.

(** Searching goes left below, right above. *)
Lemma find_eq_left v l x r : ordered (l ++ x :: r) -> cmp v x < 0 ->
  find_eq v (l ++ x :: r) = find_eq v l.
Proof.
  intros (_ & [_ Hx]%StronglySorted_inv & _)%ordered_app Hv. rewrite Forall_forall in Hx.
  assert (Hn : find_eq v (x :: r) = None).
  { apply find_eq_none. intros y [->|Hy]%elem_of_cons; [lia|].
    pose proof (cmp_lt_trans v x y Hv (Hx y Hy)). lia. }
  unfold find_eq in *. induction l as [|a l IH]; simpl; [done|]. by rewrite IH.
Qed.
Lemma find_eq_right v l x r : ordered (l ++ x :: r) -> 0 < cmp v x ->
  find_eq v (l ++ x :: r) = find_eq v r.
Proof.
  intros (_ & _ & Hl)%ordered_app Hv.
  replace (l ++ x :: r) with ((l ++ [x]) ++ r) by (by rewrite <- app_assoc).
  apply find_eq_app. apply cmp_flip in Hv.
  intros y [Hy|Hy%list_elem_of_singleton]%elem_of_app Heq.
  - assert (before y x) as Hyx by (apply Hl; [done|by left]). unfold before in Hyx.
    pose proof (cmp_lt_eq y x x). apply cmp_eq_sym in Heq.
    pose proof (cmp_lt_trans _ _ _ Hyx Hv). lia.
  - subst y. apply cmp_flip in Hv. lia.
Qed.
Lemma find_eq_here v l x r : ordered (l ++ x :: r) -> cmp v x = 0 ->
  find_eq v (l ++ x :: r) = Some x.
Proof.
  intros (_ & _ & Hl)%ordered_app Hv. rewrite find_eq_app; [simpl; by rewrite Hv|].
  intros y Hy Heq. assert (before y x) as Hyx by (apply Hl; [done|by left]). unfold before in Hyx.
  apply cmp_eq_sym in Heq. pose proof (cmp_lt_eq y x v Hyx (cmp_eq_sym Hv)). lia.
Qed.
Lemma insert_ordered_app v l r : (forall x, x ∈ l -> cmp x v < 0) ->
  insert_ordered v (l ++ r) = l ++ insert_ordered v r.
Proof.
  induction l as [|a l IH]; intros H; simpl; [done|].
  pose proof (proj1 (cmp_flip a v) (H a ltac:(by left))) as Ha.
  destruct (Z.ltb_spec (cmp v a) 0); [lia|]. rewrite IH; [done|]. intros x Hx. apply H. by right.
Qed.
Lemma insert_ordered_at v l r : (forall x, x ∈ l -> cmp x v < 0) -> (forall x, x ∈ r -> cmp v x < 0) ->
  insert_ordered v (l ++ r) = l ++ v :: r.
Proof.
  intros Hl Hr. rewrite insert_ordered_app by done. f_equal. destruct r as [|x r]; [done|]. simpl.
  specialize (Hr x ltac:(by left)). destruct (Z.ltb_spec (cmp v x) 0); [done|lia].
Qed.

(** ** [zrbtree_find] *)
Lemma find_loop_spec t : forall fuel h root p v, tat h p t -> Forall addr (elems t) ->
  ordered (elems t) -> (length (elems t) < fuel)%nat ->
  wp (find_loop cmp fuel v (ptr t)) (mk_rbstate h root)
    (fun x s => s = mk_rbstate h root /\ x = default 0 (find_eq v (elems t))).
Proof using CmpOrder0.
  induction t as [|c l IHl x r IHr]; intros fuel h root p v Ht Ha Ho Hf;
    (destruct fuel as [|fuel]; [cbn in Hf; lia|]); cbn [find_loop ptr elems]; [done|].
  cbn in Ht, Ha, Ho, Hf. destruct Ht as (Hx & Htl & Htr).
  apply Forall_app in Ha as [Hal [Hax Har]%Forall_cons]. rewrite length_app in Hf. cbn in Hf.
  pose proof Ho as (Hol & [Hor _]%StronglySorted_inv & _)%ordered_app.
  eqb_tac. destruct (Z.ltb_spec (cmp v x) 0); [|destruct (Z.ltb_spec 0 (cmp v x))].
  - wp_run. rewrite find_eq_left by done. eapply IHl; [done..|lia].
  - wp_run. rewrite find_eq_right by done. eapply IHr; [done..|lia].
  - wp_run. rewrite find_eq_here by (done || lia). done.
Qed.

(** ** [zrbtree_attach] *)
Definition link_of (k : ctx) : rblink :=
  match k with [] => LRoot | f :: _ => LChild (fr_side f) (fr_node f) end.

Lemma wp_get_link h root k f Q : cat h root f k -> Q f (mk_rbstate h root) ->
  wp (get_link (link_of k)) (mk_rbstate h root) Q.
Proof.
  destruct k as [|[[] c x sib] k]; cbn; [intros ->; by apply wp_get_root|intros (Hx & _) ?..].
  - by eapply wp_get_left.
  - by eapply wp_get_right.
Qed.

(** Where [v] goes: a hole between the smaller and the larger elements. *)
Definition fits (v : Z) (k : ctx) : Prop :=
  (forall y, y ∈ kl k -> cmp y v < 0) /\ (forall y, y ∈ kr k -> cmp v y < 0).

Lemma attach_loop_spec t : forall fuel h root k v, zrep (mk_rbstate h root) k t ->
  ordered (zels k t) -> fits v k -> (length (elems t) < fuel)%nat ->
  wp (attach_loop cmp fuel v (parent_of k) (link_of k)) (mk_rbstate h root) (fun r s =>
    s = mk_rbstate h root /\
    match r with
    | inl x => x ∈ zels k t /\ find_eq v (zels k t) = Some x
    | inr (parent, link) => exists k', parent = parent_of k' /\ link = link_of k' /\ fits v k' /\
        plug k' E = plug k t
    end).
Proof using CmpOrder0.
  induction t as [|c l IHl x r IHr]; intros fuel h root k v Hz Ho [Hfl Hfr] Hf;
    (destruct fuel as [|fuel]; [cbn in Hf; lia|]); cbn [attach_loop];
    pose proof Hz as [_ Hc _ Ha]; apply wp_bind; (eapply wp_get_link; [exact Hc|]); cbn [ptr].
  { split; [done|]. by exists k. }
  assert (Hx : x ∈ zels k (T c l x r)) by (unfold zels; cbn; rewrite !elem_of_app, elem_of_cons; auto).
  assert (addr x) by (rewrite Forall_forall in Ha; auto).
  rewrite (proj2 (Z.eqb_neq x 0)) by auto with rb. cbn in Hf. rewrite length_app in Hf. cbn in Hf.
  pose proof Ho as Ho'. unfold zels in Ho'. cbn in Ho'. rewrite <- app_assoc, (app_assoc (kl k)) in Ho'.
  cbn in Ho'. destruct (proj1 (ordered_app _ _) Ho') as (_ & [_ Hxr]%StronglySorted_inv & Hlx).
  rewrite Forall_forall in Hxr.
  destruct (Z.ltb_spec (cmp v x) 0) as [Hlt|Hge]; [|destruct (Z.ltb_spec 0 (cmp v x)) as [Hgt|Hle]].
  - eapply wp_mono; [apply (IHl fuel h root (mk_frame L c x r :: k) v)|].
    + apply zrep_plug in Hz. by apply zrep_plug.
    + replace (zels _ _) with (zels k (T c l x r)) by zels_eq. done.
    + split; [done|]. cbn. intros y [->|Hy]%elem_of_cons; [done|].
      eapply cmp_lt_trans; [exact Hlt|]. by apply Hxr.
    + cbn. lia.
    + intros [y|[parent link]] s [-> Hr]; split; [done| |done|].
      * replace (zels k (T c l x r)) with (zels (mk_frame L c x r :: k) l) by zels_eq. done.
      * exact Hr.
  - eapply wp_mono; [apply (IHr fuel h root (mk_frame R c x l :: k) v)|].
    + apply zrep_plug in Hz. by apply zrep_plug.
    + replace (zels _ _) with (zels k (T c l x r)) by zels_eq. done.
    + split; [|done]. cbn. apply cmp_flip in Hgt.
      intros y [Hy|[Hy|Hy%list_elem_of_singleton]%elem_of_app]%elem_of_app; [by apply Hfl| |by subst].
      eapply cmp_lt_trans; [|exact Hgt]. apply Hlx; [apply elem_of_app; by right|by left].
    + cbn. lia.
    + intros [y|[parent link]] s [-> Hr]; split; [done| |done|].
      * replace (zels k (T c l x r)) with (zels (mk_frame R c x l :: k) r) by zels_eq. done.
      * exact Hr.
  - apply wp_ret. split; [done|]. split; [done|]. assert (Hv : cmp v x = 0) by lia.
    unfold zels. cbn. rewrite <- app_assoc, (app_assoc (kl k)). cbn. by apply find_eq_here.
Qed.

Lemma zrbtree_attach_spec h root t v : rep (mk_rbstate h root) t -> is_rb t -> ordered (elems t) ->
  v ∈ dom h -> addr v -> v ∉ elems t ->
  wp (zrbtree_attach cmp v) (mk_rbstate h root) (fun r s =>
    match find_eq v (elems t) with
    | Some x => r = x /\ s = mk_rbstate h root
    | None => r = v /\ rebuilt h (v :: elems t) (insert_ordered v (elems t)) s
    end).
Proof using CmpOrder0.
  intros Hr Hrb Ho Hv Hav Hnv. unfold zrbtree_attach. apply wp_bind, wp_with_fuel.
  assert (Hz : zrep (mk_rbstate h root) [] t) by (by apply zrep_plug).
  assert (Ez : zels [] t = elems t) by (unfold zels; cbn; by rewrite app_nil_r).
  eapply wp_mono; [apply (attach_loop_spec t (S (size h)) h root [] v)|]; [done|by rewrite Ez| | |].
  { split; by intros y ?%elem_of_nil. }
  { destruct Hr as [Ht _ Hnd _]. pose proof (elems_size _ _ _ Ht Hnd). cbn in *. lia. }
  rewrite Ez. intros [x|[parent link]] s [-> Hres].
  { destruct Hres as [_ ->]. by apply wp_ret. }
  destruct Hres as (k & -> & -> & [Hl Hrr] & Ep). cbn [plug] in Ep.
  assert (Ee : elems t = kl k ++ kr k) by (rewrite <- Ep, elems_plug; done).
  rewrite find_eq_none.
  2:{ intros x. rewrite Ee. intros [Hx|Hx]%elem_of_app Heq; [|specialize (Hrr x Hx); lia].
      specialize (Hl x Hx). apply cmp_flip in Hl. lia. }
  rewrite Ee, (insert_ordered_at v) by done.
  apply elem_of_dom in Hv as [nv Hnv'].
  assert (Hzk : zrep (mk_rbstate h root) k E) by (apply zrep_plug; by rewrite Ep).
  destruct (rbt_unplug k E) as (c & n & Hk & Hn); [by rewrite Ep|].
  assert (n = 0%nat) as -> by (by inversion Hn). rewrite Ee in Hnv.
  assert (Hnd' : NoDup (kl k ++ v :: kr k)).
  { rewrite <- Permutation_middle, NoDup_cons. split; [done|]. apply (zrep_nodup _ _ _ Hzk). }
  assert (Hal' : Forall addr (kl k ++ v :: kr k)).
  { rewrite <- Permutation_middle, Forall_cons. split; [done|]. apply (zrep_addr _ _ _ Hzk). }
  assert (Hlink : wp (zrbtree_link_node v (parent_of k) (link_of k)) (mk_rbstate h root) (fun _ s =>
    zrep s k (T Red E v E) /\ forall y, (y ∉ kl k ++ v :: kr k) -> st_heap s !! y = h !! y)).
  { destruct Hzk as [_ Hc _ _]. cbn in Hc. unfold zrbtree_link_node. rewrite <- (red_pcz (parent_of k)).
    pose proof Hnd' as N. pose proof Hal' as A.
    destruct k as [|[[] c3 g3 s3] k]; cbn [kl kr app] in N, A;
      repeat (rewrite <- app_assoc in N; cbn [app] in N); nodup_facts N; addr_facts A;
      cbn in Hc; destruct_and? Hc; subst; cbn [link_of set_link]; wp_run;
      (split; [split; [tat_tac|cat_tac|exact Hnd'|exact Hal']|]);
      intros y Hy; cbn [kl kr app] in Hy; split_notin Hy; hl. }
  apply wp_bind. eapply wp_mono; [exact Hlink|]. intros _ [h2 root2] [Hz2 Hf2].
  apply wp_bind. eapply wp_mono; [by eapply zrbtree_insert_color_spec|].
  intros ? s Hs. cbn beta in Hs. apply wp_ret. split; [done|].
  destruct Hs as (t' & ? & ? & Et & Hf). exists t'. repeat split; try done; try apply H; [].
  assert (Hp : forall y, (y ∉ v :: kl k ++ kr k) -> (y ∉ kl k ++ v :: kr k)).
  { intros y. by rewrite (Permutation_middle (kl k) (kr k) v). }
  intros y Hy%Hp. cbn in Hf2. rewrite Hf by done. by apply Hf2.
Qed.

(** ** [zrbtree_near_prev] and [zrbtree_near_next] *)

(** The greatest element that is not above [v]. *)
Definition floor (v : Z) (l : list Z) : option Z := last (filter (fun y => 0 <= cmp v y) l).
(** The least that is not below. *)
Definition ceiling (v : Z) (l : list Z) : option Z := head (filter (fun y => cmp v y <= 0) l).

Lemma floor_left v l x r : ordered (l ++ x :: r) -> cmp v x < 0 -> floor v (l ++ x :: r) = floor v l.
Proof using CmpOrder0.
  intros (_ & [_ Hx]%StronglySorted_inv & _)%ordered_app Hv. rewrite Forall_forall in Hx.
  unfold floor. rewrite filter_app.
  rewrite (filter_none _ (x :: r)); [by rewrite app_nil_r|]. intros y [->|Hy]%elem_of_cons; [lia|].
  pose proof (cmp_lt_trans v x y Hv (Hx y Hy)). lia.
Qed.
Lemma floor_right v l x r : 0 <= cmp v x -> floor v (l ++ x :: r) = Some (default x (floor v r)).
Proof.
  intros Hv. unfold floor. rewrite filter_app, filter_cons_True by done.
  rewrite last_app_cons, last_cons. by destruct (last _).
Qed.
Lemma floor_here v l x r : ordered (l ++ x :: r) -> cmp v x = 0 -> floor v (l ++ x :: r) = Some x.
Proof using CmpOrder0.
  intros (_ & [_ Hx]%StronglySorted_inv & _)%ordered_app Hv. rewrite Forall_forall in Hx.
  rewrite floor_right by lia. unfold floor. rewrite (filter_none _ r); [done|].
  intros y Hy. pose proof (cmp_eq_lt v x y Hv (Hx y Hy)). lia.
Qed.

Lemma near_prev_loop_spec t : forall fuel h root p v ret, tat h p t -> Forall addr (elems t) ->
  ordered (elems t) -> (length (elems t) < fuel)%nat ->
  wp (near_prev_loop cmp fuel v (ptr t) ret) (mk_rbstate h root)
    (fun x s => s = mk_rbstate h root /\ x = default ret (floor v (elems t))).
Proof using CmpOrder0.
  induction t as [|c l IHl x r IHr]; intros fuel h root p v ret Ht Ha Ho Hf;
    (destruct fuel as [|fuel]; [cbn in Hf; lia|]); cbn [near_prev_loop ptr elems]; [done|].
  cbn in Ht, Ha, Ho, Hf. destruct Ht as (Hx & Htl & Htr).
  apply Forall_app in Ha as [Hal [Hax Har]%Forall_cons]. rewrite length_app in Hf. cbn in Hf.
  pose proof Ho as (Hol & [Hor _]%StronglySorted_inv & _)%ordered_app.
  eqb_tac. destruct (Z.ltb_spec (cmp v x) 0); [|destruct (Z.ltb_spec 0 (cmp v x))].
  - wp_run. rewrite floor_left by done. eapply IHl; [done..|lia].
  - wp_run. rewrite floor_right by lia. eapply wp_mono; [eapply IHr; [done..|lia]|].
    intros y s [-> ->]. done.
  - wp_run. rewrite floor_here by (done || lia). done.
Qed.
Lemma near_next_loop_prev fuel : forall v node ret s,
  near_next_loop cmp fuel v node ret s = near_prev_loop cmp fuel v node ret s.
Proof.
  induction fuel as [|fuel IH]; intros v node ret s; simpl; [done|].
  destruct (node =? 0); [done|].
  destruct (Z.ltb_spec 0 (cmp v node)), (Z.ltb_spec (cmp v node) 0); try lia; [| |done];
    unfold mbind, St_bind; [destruct (get_right node s) as [[n s']|]|destruct (get_left node s) as [[n s']|]];
    try done; apply IH.
Qed.
End order.

(** ** Traversal *)
Definition end_of (d : side) (l : list Z) : Z := default 0 (match d with L => head l | R => last l end).
(** The neighbour of the hole of a context. *)
Definition beyond (d : side) (k : ctx) (t : tree) : list Z :=
  match d with R => elems t ++ kr k | L => kl k ++ elems t end.

Lemma end_app d l1 l2 : end_of d (l1 ++ l2) =
  match d with
  | L => match l1 with [] => end_of L l2 | _ => end_of L l1 end
  | R => match l2 with [] => end_of R l1 | _ => end_of R l2 end
  end.
Proof.
  destruct d; [by destruct l1|]. destruct l2 as [|a l2]; [by rewrite app_nil_r|].
  unfold end_of. by rewrite last_app_cons.
Qed.

Lemma down_loop_spec d t : forall fuel h root p, t <> E -> tat h p t -> Forall addr (elems t) ->
  (length (elems t) < fuel)%nat ->
  wp (down_loop fuel d (ptr t)) (mk_rbstate h root)
    (fun x s => s = mk_rbstate h root /\ x = end_of d (elems t)).
Proof.
  induction t as [|c l IHl x r IHr]; intros fuel h root p Hne Ht Ha Hf; [done|].
  destruct fuel as [|fuel]; [cbn in Hf; lia|]. cbn [down_loop ptr elems].
  cbn in Ht, Ha, Hf. destruct Ht as (Hx & Htl & Htr).
  apply Forall_app in Ha as [Hal [Hax Har]%Forall_cons]. rewrite length_app in Hf. cbn in Hf.
  rewrite end_app. destruct d.
  - destruct l as [|cl ll y lr]; [by wp_run|].
    assert (addr y) by (cbn in Hal; apply Forall_app in Hal as [_ [? _]%Forall_cons]; done).
    wp_run. destruct (elems (T cl ll y lr)) eqn:El; [cbn in El; by destruct (elems ll)|].
    rewrite <- El in *. eapply (IHl fuel); [done..|lia].
  - change (x :: elems r) with ([x] ++ elems r). rewrite end_app.
    destruct r as [|cr rl y rr]; [by wp_run|].
    assert (addr y) by (cbn in Har; apply Forall_app in Har as [_ [? _]%Forall_cons]; done).
    wp_run. destruct (elems (T cr rl y rr)) eqn:Er; [cbn in Er; by destruct (elems rl)|].
    rewrite <- Er in *. eapply (IHr fuel); [done..|lia].
Qed.

Lemma zrbtree_end_spec h root t d : rep (mk_rbstate h root) t ->
  wp (zrbtree_end d) (mk_rbstate h root)
    (fun x s => s = mk_rbstate h root /\ x = end_of d (elems t)).
Proof.
  intros [Ht Hr Hnd Ha]. cbn in *. unfold zrbtree_end. apply wp_bind, wp_get_root. rewrite Hr.
  destruct t as [|c l x r]; cbn [ptr]; [by destruct d|].
  assert (addr x) by (cbn in Ha; apply Forall_app in Ha as [_ [? _]%Forall_cons]; done).
  eqb_tac. apply wp_with_fuel. eapply (down_loop_spec d (T c l x r)); [done|exact Ht|done|].
  pose proof (elems_size _ _ _ Ht Hnd). lia.
Qed.
