(* ===== verification/Rbops.v ===== *)
(** * Red-black trees: stepping, walking, replacing, and runs of operations *)
From stdpp Require Import gmap sorting.
From S2P Require Import Prelude StateMonad Rbtree RbShape RbInsert RbErase RbDelete Rbset.

(** ** [zrbtree_next] and [zrbtree_prev] *)
Definition outside (d : side) (k : ctx) : Z :=
  match d with R => end_of L (kr k) | L => end_of R (kl k) end.

Lemma up_loop_spec k : forall fuel h root d t, t <> E -> zrep (mk_rbstate h root) k t ->
  (length k < fuel)%nat ->
  wp (up_loop fuel d (ptr t)) (mk_rbstate h root)
    (fun x s => s = mk_rbstate h root /\ x = outside d k).
Proof.
  induction k as [|[d' c p sib] k IH]; intros fuel h root d t Hne Hz Hf;
    (destruct fuel as [|fuel]; [cbn in Hf; lia|]); cbn [up_loop];
    pose proof Hz as [Ht Hc Hnd Ha]; (destruct t as [|ct l x r]; [done|]); cbn [ptr st_heap] in *.
  - zfacts Hnd Ha. cbn in Ht. destruct_and? Ht. wp_run. by destruct d.
  - assert (Hup : wp (up_loop fuel d p) (mk_rbstate h root)
      (fun y s => s = mk_rbstate h root /\ y = outside d k)).
    { assert (Hz' : zrep (mk_rbstate h root) k (match d' with L => T c (T ct l x r) p sib | R => T c sib p (T ct l x r) end)).
      { apply zrep_plug. apply zrep_plug in Hz. by destruct d'. }
      destruct d'; apply (IH fuel h root d) in Hz'; try done; simpl in Hf; lia. }
    destruct d'; zfacts Hnd Ha; cbn in Ht, Hc; destruct_and? Ht; destruct_and? Hc;
      destruct d; wp_run; try exact Hup; split; try done; cbn.
    by rewrite end_app, app_nil_r || (unfold end_of; by rewrite !last_app).
Qed.

Lemma pc_not_self p c x : aligned p -> aligned x -> p <> x -> pcz p c <> x.
Proof.
  unfold aligned, pcz. intros Hp Hx Hne. destruct c; unfold colz, RB_RED, RB_BLACK; [lia|].
  intros <-. revert Hx Hp. zdiv.
Qed.

Lemma root_addr c l x r : Forall addr (elems (T c l x r)) -> addr x.
Proof. cbn. by intros [_ [? _]%Forall_cons]%Forall_app. Qed.

Lemma zrbtree_step_spec h root d k c x l r : zrep (mk_rbstate h root) k (T c l x r) ->
  wp (zrbtree_step d x) (mk_rbstate h root) (fun y s => s = mk_rbstate h root /\
    y = match d with R => end_of L (elems r ++ kr k) | L => end_of R (kl k ++ elems l) end).
Proof.
  intros Hz. pose proof Hz as [Ht Hc Hnd Ha]. unfold zrbtree_step.
  assert (Hp : parent_of k <> x).
  { destruct k as [|[[] c' p sib] k]; zfacts Hnd Ha; cbn; neq. }
  zfacts Hnd Ha. cbn in Ht. destruct Ht as (Hx & Htl & Htr).
  apply wp_bind. eapply wp_get_pc; [exact Hx|]. cbn [rb_pc].
  rewrite (proj2 (Z.eqb_neq _ _)) by (apply pc_not_self; [aligned_tac|aligned_tac|exact Hp]).
  pose proof Hz as Hz'%zrep_plug. pose proof Hz' as [Ht' _ Hnd' _].
  pose proof (elems_size _ _ _ Ht' Hnd') as Hsz. rewrite elems_plug in Hsz. unfold zels in Hsz.
  cbn in Hsz. rewrite !length_app in Hsz. cbn in Hsz.
  pose proof (ctx_fuel _ _ _ _ Hz) as Hfk.
  destruct d.
  - destruct l as [|cl ll y lr]; cbn [ptr] in *.
    + wp_run. apply wp_with_fuel. eapply wp_mono; [apply (up_loop_spec k _ h root L (T c E x r)); [done|done|lia]|].
      intros z s [-> ->]. split; [done|]. cbn. by rewrite app_nil_r.
    + pose proof (root_addr cl ll y lr ltac:(assumption)).
      wp_run. apply wp_with_fuel. eapply wp_mono; [apply (down_loop_spec R (T cl ll y lr) _ h root x); try done; lia|].
      intros z s [-> ->]. split; [done|]. rewrite end_app. cbn. by destruct (elems ll).
  - destruct r as [|cr rl y rr]; cbn [ptr] in *.
    + wp_run. apply wp_with_fuel. eapply wp_mono; [apply (up_loop_spec k _ h root R (T c l x E)); [done|done|lia]|].
      intros z s [-> ->]. done.
    + pose proof (root_addr cr rl y rr ltac:(assumption)).
      wp_run. apply wp_with_fuel. eapply wp_mono; [apply (down_loop_spec L (T cr rl y rr) _ h root x); try done; lia|].
      intros z s [-> ->]. split; [done|]. rewrite end_app. cbn. by destruct (elems rl).
Qed.

(** ** Dividing a tree at one of its nodes *)
Lemma tree_at t : forall x, x ∈ elems t -> exists k c l r, t = plug k (T c l x r).
Proof.
  induction t as [|c l IHl y r IHr]; intros x; cbn; [by intros ?%elem_of_nil|].
  intros [H|[->|H]%elem_of_cons]%elem_of_app.
  - destruct (IHl x H) as (k & c' & l' & r' & ->). exists (k ++ [mk_frame L c y r]), c', l', r'.
    by rewrite plug_app.
  - by exists [], c, l, r.
  - destruct (IHr x H) as (k & c' & l' & r' & ->). exists (k ++ [mk_frame R c y l]), c', l', r'.
    by rewrite plug_app.
Qed.
Lemma elems_at k c l x r : elems (plug k (T c l x r)) = (kl k ++ elems l) ++ x :: (elems r ++ kr k).
Proof. rewrite elems_plug. unfold zels. cbn. by rewrite <- !app_assoc. Qed.

(** The list operations. *)
Definition without (x : Z) (l : list Z) : list Z := filter (fun y => y <> x) l.
Fixpoint next_of (x : Z) (l : list Z) : Z :=
  match l with [] => 0 | y :: l' => if y =? x then end_of L l' else next_of x l' end.
Fixpoint prev_of (p x : Z) (l : list Z) : Z :=
  match l with [] => 0 | y :: l' => if y =? x then p else prev_of y x l' end.
Fixpoint replaced (x y : Z) (l : list Z) : list Z :=
  match l with [] => [] | z :: l' => if z =? x then y :: l' else z :: replaced x y l' end.

Lemma nodup_mid (x : Z) a b : NoDup (a ++ x :: b) -> (x ∉ a) /\ (x ∉ b).
Proof. rewrite NoDup_app, NoDup_cons. intros (_ & H & ? & _). split; [|done]. intros Hx. apply (H x Hx). by left. Qed.
Lemma without_at x a b : NoDup (a ++ x :: b) -> without x (a ++ x :: b) = a ++ b.
Proof.
  intros [Ha Hb]%nodup_mid. unfold without. rewrite filter_app, filter_cons_False by (intros H; by apply H).
  rewrite !filter_every; [done|by intros y Hy ->..].
Qed.
Lemma next_of_at x a b : (x ∉ a) -> next_of x (a ++ x :: b) = end_of L b.
Proof.
  induction a as [|y a IH]; simpl; [by rewrite Z.eqb_refl|]. intros [Hy Ha]%notin_cons.
  rewrite (proj2 (Z.eqb_neq y x)) by congruence. by apply IH.
Qed.
Lemma prev_of_at x a b : forall p, (x ∉ a) -> prev_of p x (a ++ x :: b) = default p (last a).
Proof.
  induction a as [|y a IH]; intros p; simpl; [by rewrite Z.eqb_refl|]. intros [Hy Ha]%notin_cons.
  rewrite (proj2 (Z.eqb_neq y x)) by congruence. rewrite IH by done.
  change (y :: a) with ([y] ++ a). rewrite last_app. by destruct (last a).
Qed.
Lemma replaced_at x y a b : (x ∉ a) -> replaced x y (a ++ x :: b) = a ++ y :: b.
Proof.
  induction a as [|z a IH]; simpl; [by rewrite Z.eqb_refl|]. intros [Hz Ha]%notin_cons.
  rewrite (proj2 (Z.eqb_neq z x)) by congruence. by rewrite IH.
Qed.

Section set_level.
Context (h : rbstore) (root : Z) (t : tree) (x : Z).
Hypothesis Ht : rep (mk_rbstate h root) t.
Hypothesis Hx : x ∈ elems t.

Lemma erase_elem_spec : is_rb t ->
  wp (zrbtree_erase x) (mk_rbstate h root) (fun _ => rebuilt h (elems t) (without x (elems t))).
Proof using Ht Hx.
  intros Hrb. destruct (tree_at t x Hx) as (k & c & l & r & ->).
  pose proof Ht as [_ _ Hnd _]. rewrite elems_at in Hnd |- *. rewrite without_at by done.
  apply zrep_plug in Ht as Hz. pose proof (zrbtree_erase_spec h root k c x l r Hrb Hz) as H.
  unfold zels in H. cbn in H. by rewrite <- !app_assoc in *.
Qed.
Lemma next_elem_spec : wp (zrbtree_next x) (mk_rbstate h root)
  (fun y s => s = mk_rbstate h root /\ y = next_of x (elems t)).
Proof using Ht Hx.
  destruct (tree_at t x Hx) as (k & c & l & r & ->). pose proof Ht as [_ _ Hnd _].
  rewrite elems_at in Hnd |- *. apply nodup_mid in Hnd as [Hl _]. rewrite next_of_at by done.
  apply (zrbtree_step_spec h root R k c x l r). by apply zrep_plug.
Qed.
Lemma prev_elem_spec : wp (zrbtree_prev x) (mk_rbstate h root)
  (fun y s => s = mk_rbstate h root /\ y = prev_of 0 x (elems t)).
Proof using Ht Hx.
  destruct (tree_at t x Hx) as (k & c & l & r & ->). pose proof Ht as [_ _ Hnd _].
  rewrite elems_at in Hnd |- *. apply nodup_mid in Hnd as [Hl _]. rewrite prev_of_at by done.
  apply (zrbtree_step_spec h root L k c x l r). by apply zrep_plug.
Qed.

(** [zrbtree_replace_node]: the new node stands where the victim stood. *)
Lemma replace_elem_spec y : is_rb t -> y ∈ dom h -> addr y -> (y ∉ elems t) ->
  wp (zrbtree_replace_node x y) (mk_rbstate h root)
    (fun _ => rebuilt h (y :: elems t) (replaced x y (elems t))).
Proof using Ht Hx.
  intros Hrb [ny Hny]%elem_of_dom Hay Hy. destruct (tree_at t x Hx) as (k & c & l & r & ->).
  pose proof Ht as Hz%zrep_plug. pose proof Hz as [Htt Hc Hnd Hal].
  destruct (rbt_unplug _ _ Hrb) as (c0 & n0 & Hk & Htr).
  assert (Htr' : rbt c0 n0 (T c l y r)) by (inversion Htr; subst; eauto with rb).
  rewrite elems_plug in Hy |- *.
  assert (Hnd2 : NoDup (y :: zels k (T c l x r))) by (by apply NoDup_cons).
  assert (Hal2 : Forall addr (y :: zels k (T c l x r))) by (by apply Forall_cons).
  assert (Hnd' : NoDup (zels k (T c l y r)) /\ Forall addr (zels k (T c l y r)) /\
    replaced x y (zels k (T c l x r)) = zels k (T c l y r)).
  { pose proof Ht as [_ _ Hnd3 _]. rewrite elems_at in Hnd3. rewrite <- !elems_plug, !elems_at.
    rewrite replaced_at by (by apply nodup_mid in Hnd3 as [? _]). rewrite <- elems_plug, elems_at in Hnd2, Hal2.
    split; [|split; [|done]].
    - rewrite <- Permutation_middle in Hnd2 |- *. apply NoDup_cons in Hnd2 as [? [? ?]%NoDup_cons].
      apply NoDup_cons. split; [|done]. set_solver.
    - rewrite <- Permutation_middle in Hal2 |- *. rewrite !Forall_cons in Hal2. rewrite Forall_cons. tauto. }
  destruct Hnd' as (Hnd' & Hal' & ->). cbn [st_heap st_root] in *. clear Hnd Hal Hrb Hz.
  unfold zrbtree_replace_node.
  destruct l as [|cl ll lx lr]; destruct r as [|cr rl rx rr]; destruct k as [|[[] c3 g3 s3] k];
    rb_run Htt Hc Hnd2 Hal2; words;
    lazymatch goal with H : rbk ?c1 ?n1 ?k, H2 : rbt ?c1 ?n1 ?t2 |- _ => finish Hnd' Hal' k t2 c1 n1 end.
Qed.
End set_level.

(** ** [zrbtree_walk]: every node after its subtrees *)
Fixpoint postorder (t : tree) : list Z :=
  match t with E => [] | T _ l x r => postorder l ++ postorder r ++ [x] end.
Fixpoint height (t : tree) : Z :=
  match t with E => 0 | T _ l _ r => 1 + Z.max (height l) (height r) end.
Fixpoint walk_steps (t : tree) : nat :=
  match t with E => 1 | T _ l _ r => 3 + walk_steps l + walk_steps r end.

Lemma height_nonneg t : 0 <= height t.
Proof. induction t; simpl; lia. Qed.
Lemma walk_steps_elems t : walk_steps t = (4 * length (elems t) + 1)%nat.
Proof. induction t; simpl; [done|]. rewrite length_app. simpl. lia. Qed.

Section walking.
Context (h : rbstore) (root : Z) (fuel : nat) (below : list (Z * Z)) (Q : list Z -> rbstate -> Prop).

Lemma wp_walk_null : wp (walk_loop fuel (walk_pop below)) (mk_rbstate h root) Q ->
  wp (walk_loop (S fuel) ((0, 0) :: below)) (mk_rbstate h root) Q.
Proof. done. Qed.
Lemma wp_walk_visit x : x <> 0 ->
  wp (walk_loop fuel (walk_pop below)) (mk_rbstate h root) (fun out => Q (x :: out)) ->
  wp (walk_loop (S fuel) ((x, 2) :: below)) (mk_rbstate h root) Q.
Proof. intros Hx H. cbn [walk_loop]. rewrite (proj2 (Z.eqb_neq x 0)) by done. by apply wp_bind. Qed.
Lemma wp_walk_child x n d : x <> 0 -> h !! x = Some n -> zlen below + 1 < WALK_STACK ->
  wp (walk_loop fuel ((match d with L => rb_left n | R => rb_right n end, 0)
    :: (x, match d with L => 0 | R => 1 end) :: below)) (mk_rbstate h root) Q ->
  wp (walk_loop (S fuel) ((x, match d with L => 0 | R => 1 end) :: below)) (mk_rbstate h root) Q.
Proof.
  intros Hx Hn Hb H. cbn [walk_loop]. rewrite (proj2 (Z.eqb_neq x 0)) by done.
  destruct d; cbn [Z.eqb Pos.eqb]; apply wp_bind;
    [eapply wp_get_left|eapply wp_get_right]; try exact Hn;
    unfold walk_push; rewrite zlen_cons, (proj2 (Z.ltb_lt _ _)) by lia; exact H.
Qed.
End walking.

Lemma walk_loop_spec h root t : forall p below fuel Q, tat h p t -> Forall addr (elems t) ->
  zlen below + height t < WALK_STACK ->
  wp (walk_loop fuel (walk_pop below)) (mk_rbstate h root) (fun out => Q (postorder t ++ out)) ->
  wp (walk_loop (walk_steps t + fuel) ((ptr t, 0) :: below)) (mk_rbstate h root) Q.
Proof.
  induction t as [|c l IHl x r IHr]; intros p below fuel Q Ht Ha Hb HQ; [by apply wp_walk_null|].
  cbn in Ht, Ha, Hb. destruct Ht as (Hx & Htl & Htr).
  apply Forall_app in Ha as [Hal [Hax Har]%Forall_cons].
  pose proof (height_nonneg l). pose proof (height_nonneg r).
  assert (x <> 0) by auto with rb.
  replace (walk_steps (T c l x r) + fuel)%nat with (S (walk_steps l + S (walk_steps r + S fuel))) by (simpl; lia).
  apply (wp_walk_child _ _ _ _ _ x _ L H1 Hx); [lia|]. cbn [rb_left].
  eapply (IHl x); [done..|rewrite zlen_cons; lia|].
  apply (wp_walk_child _ _ _ _ _ x _ R H1 Hx); [lia|]. cbn [rb_right].
  eapply (IHr x); [done..|rewrite zlen_cons; lia|].
  apply wp_walk_visit; [done|]. eapply wp_mono; [exact HQ|]. intros out s. cbn [postorder].
  by rewrite <- !app_assoc.
Qed.

(** A red-black tree is at most twice as high as its black height, and full down
    to it. *)
Lemma rbt_size c n t : rbt c n t -> 2 ^ Z.of_nat n <= zlen (elems t) + 1.
Proof.
  induction 1 as [c|n l x r _ IHl _ IHr|c n l x r _ IHl _ IHr]; cbn; [done| |];
    rewrite zlen_app, zlen_cons; pose proof (zlen_nonneg (elems l)); [lia|].
  rewrite Nat2Z.inj_succ, Z.pow_succ_r by lia. lia.
Qed.
Lemma rbt_height_bound c n t : rbt c n t ->
  height t <= 2 * Z.of_nat n + match c with Red => 0 | Black => 1 end.
Proof.
  induction 1 as [[]|n l x r _ IHl _ IHr|c n l x r _ IHl _ IHr]; cbn in *; try lia. destruct c; lia.
Qed.
Lemma rb_height t : is_rb t -> zlen (elems t) < 2 ^ 32 - 1 -> height t < WALK_STACK - 1.
Proof.
  intros [n Hn] Hs. pose proof (rbt_size _ _ _ Hn). pose proof (rbt_height_bound _ _ _ Hn).
  unfold WALK_STACK. cbn in *. assert (Z.of_nat n < 32); [|lia].
  apply (Z.pow_lt_mono_r_iff 2); lia.
Qed.

Lemma zrbtree_walk_spec h root t : rep (mk_rbstate h root) t -> is_rb t ->
  zlen (elems t) < 2 ^ 32 - 1 ->
  wp zrbtree_walk (mk_rbstate h root) (fun out s => s = mk_rbstate h root /\ out = postorder t).
Proof.
  intros [Ht Hr Hnd Ha] Hrb Hs. cbn in *. unfold zrbtree_walk. apply wp_bind, wp_get_root, wp_with_fuel.
  pose proof (elems_size _ _ _ Ht Hnd) as Hsz. pose proof (walk_steps_elems t) as Hst.
  replace (4 * S (size h))%nat with (walk_steps t + S (4 * S (size h) - walk_steps t - 1))%nat
    by (rewrite Hst; lia).
  rewrite Hr. eapply walk_loop_spec; [done..| |].
  { pose proof (rb_height t Hrb Hs). change (zlen (A := Z * Z) []) with 0. unfold WALK_STACK in *. lia. }
  cbn. rewrite app_nil_r. done.
Qed.
