(* ===== verification/RbRefine.v ===== *)
(** * Red-black trees: a run of operations is a run on a sorted list

    The specification of rbtree.c is a list of nodes, ascending by the
    comparison callback. This file gives each entry point its meaning on the list
    and shows that every run of the code from the empty tree computes it, inside
    the red-black invariant and without an undefined step. *)
From stdpp Require Import gmap sorting.
From S2P Require Import Prelude StateMonad Rbtree RbShape RbInsert RbErase RbDelete Rbset Rbops.

(** ** No operation allocates or frees a node *)
Class Keeps {A} (m : M A) : Prop :=
  keeps s : match m s with Some (_, s') => dom (st_heap s') = dom (st_heap s) | None => True end.

Section keeps_basic.
Context {A B : Type}.
#[export] Instance keeps_ret (a : A) : Keeps (mret a).
Proof. done. Qed.
#[export] Instance keeps_undefined : Keeps (@undefined rbstate A).
Proof. done. Qed.
#[export] Instance keeps_bind (m : M A) (f : A -> M B) :
  Keeps m -> (forall a, Keeps (f a)) -> Keeps (m ≫= f).
Proof.
  intros Hm Hf s. unfold mbind, St_bind. specialize (Hm s). destruct (m s) as [[a s']|]; [|done].
  specialize (Hf a s'). destruct (f a s') as [[b s'']|]; [congruence|done].
Qed.
#[export] Instance keeps_with_fuel (f : nat -> M A) : (forall n, Keeps (f n)) -> Keeps (with_fuel f).
Proof. intros H s. apply H. Qed.
End keeps_basic.
#[export] Instance keeps_get_node x : Keeps (get_node x).
Proof. intros s. unfold get_node. by destruct (st_heap s !! x). Qed.
#[export] Instance keeps_get_root : Keeps get_root.
Proof. done. Qed.
#[export] Instance keeps_set_root x : Keeps (set_root x).
Proof. done. Qed.
(** Every write goes to a node read before. *)
#[export] Instance keeps_store x (f : rbnode -> rbnode) : Keeps (n ← get_node x; put_node x (f n)).
Proof.
  intros s. unfold mbind, St_bind, get_node, put_node. destruct (st_heap s !! x) eqn:E; [|done].
  simpl. rewrite dom_insert_L. apply elem_of_dom_2 in E. set_solver.
Qed.
#[export] Instance keeps_set_pc x v : Keeps (set_pc x v).
Proof. apply (keeps_store x (fun n => mk_rbnode v (rb_right n) (rb_left n))). Qed.
#[export] Instance keeps_set_left x v : Keeps (set_left x v).
Proof. apply (keeps_store x (fun n => mk_rbnode (rb_pc n) (rb_right n) v)). Qed.
#[export] Instance keeps_set_right x v : Keeps (set_right x v).
Proof. apply (keeps_store x (fun n => mk_rbnode (rb_pc n) v (rb_left n))). Qed.
#[export] Instance keeps_store_node x n : Keeps (store_node x n).
Proof. apply (keeps_store x (fun _ => n)). Qed.

(** The steps of a routine, one by one. *)
Ltac keeps_tac :=
  repeat (cbv zeta; lazymatch goal with
    | |- Keeps (mbind _ _) => apply keeps_bind; [|intros ?]
    | |- Keeps (with_fuel _) => apply keeps_with_fuel; intros ?
    | |- Keeps (match ?b with _ => _ end) => destruct b
    | |- Keeps skip => apply keeps_ret
    | |- Keeps _ => solve [apply _ | auto]
    end).

#[export] Instance keeps_get_pc x : Keeps (get_pc x).
Proof. unfold get_pc. keeps_tac. Qed.
#[export] Instance keeps_child d x : Keeps (child d x).
Proof. destruct d; simpl; unfold get_left, get_right; keeps_tac. Qed.
#[export] Instance keeps_get_left x : Keeps (get_left x).
Proof. apply (keeps_child L). Qed.
#[export] Instance keeps_get_right x : Keeps (get_right x).
Proof. apply (keeps_child R). Qed.
#[export] Instance keeps_set_child d x v : Keeps (set_child d x v).
Proof. destruct d; apply _. Qed.
#[export] Instance keeps_PARENT x : Keeps (ZRBTREE_PARENT x).
Proof. unfold ZRBTREE_PARENT. keeps_tac. Qed.
#[export] Instance keeps_is_black x : Keeps (zrbtree_is_black x).
Proof. unfold zrbtree_is_black. keeps_tac. Qed.
#[export] Instance keeps_is_red x : Keeps (zrbtree_is_red x).
Proof. unfold zrbtree_is_red. keeps_tac. Qed.
#[export] Instance keeps_nonnull_red x : Keeps (nonnull_red x).
Proof. unfold nonnull_red. keeps_tac. Qed.
#[export] Instance keeps_null_or_black x : Keeps (null_or_black x).
Proof. unfold null_or_black. keeps_tac. Qed.
#[export] Instance keeps_set_parent x p : Keeps (zrbtree_set_parent x p).
Proof. unfold zrbtree_set_parent. keeps_tac. Qed.
#[export] Instance keeps_set_black x : Keeps (zrbtree_set_black x).
Proof. unfold zrbtree_set_black. keeps_tac. Qed.
#[export] Instance keeps_set_parent_color x p c : Keeps (zrbtree_set_parent_color x p c).
Proof. apply keeps_set_pc. Qed.
#[export] Instance keeps_set_parent_color_if x p c : Keeps (set_parent_color_if x p c).
Proof. unfold set_parent_color_if. keeps_tac. Qed.
#[export] Instance keeps_red_parent x : Keeps (zrbtree_red_parent x).
Proof. apply keeps_get_pc. Qed.
#[export] Instance keeps_change_child o n p : Keeps (change_child o n p).
Proof. unfold change_child. keeps_tac. Qed.
#[export] Instance keeps_rotate o n c : Keeps (rotate_set_parents o n c).
Proof. unfold rotate_set_parents. keeps_tac. Qed.

#[export] Instance keeps_insert_loop fuel : forall node parent, Keeps (insert_loop fuel node parent).
Proof. induction fuel; intros; cbn [insert_loop]; keeps_tac. Qed.
#[export] Instance keeps_insert_color node : Keeps (zrbtree_insert_color node).
Proof. unfold zrbtree_insert_color. keeps_tac. Qed.
#[export] Instance keeps_erase_case4 d p s t : Keeps (erase_case4 d p s t).
Proof. unfold erase_case4. keeps_tac. Qed.
#[export] Instance keeps_erase_color_loop fuel : forall node parent, Keeps (erase_color_loop fuel node parent).
Proof. induction fuel; intros; cbn [erase_color_loop]; unfold erase_black_sibling; keeps_tac. Qed.
#[export] Instance keeps_successor_loop fuel : forall s t, Keeps (successor_loop fuel s t).
Proof. induction fuel; intros; cbn [successor_loop]; keeps_tac. Qed.
#[export] Instance keeps_erase node : Keeps (zrbtree_erase node).
Proof. unfold zrbtree_erase, erase_augmented. keeps_tac. Qed.
#[export] Instance keeps_replace victim node : Keeps (zrbtree_replace_node victim node).
Proof. unfold zrbtree_replace_node. keeps_tac. Qed.
#[export] Instance keeps_link_node node parent link : Keeps (zrbtree_link_node node parent link).
Proof. unfold zrbtree_link_node, set_link. keeps_tac. Qed.
#[export] Instance keeps_get_link link : Keeps (get_link link).
Proof. unfold get_link. keeps_tac. Qed.
#[export] Instance keeps_attach_loop cmp fuel : forall node parent link,
  Keeps (attach_loop cmp fuel node parent link).
Proof. induction fuel; intros; cbn [attach_loop]; keeps_tac. Qed.
#[export] Instance keeps_attach cmp node : Keeps (zrbtree_attach cmp node).
Proof. unfold zrbtree_attach. keeps_tac. Qed.

Lemma wp_keeps {A} (m : M A) s Q `{!Keeps m} : wp m s Q ->
  wp m s (fun a s' => Q a s' /\ dom (st_heap s') = dom (st_heap s)).
Proof. unfold wp. pose proof (keeps s) as H. destruct (m s) as [[a s']|]; [done|done]. Qed.

(** ** The specification *)
Inductive rb_op :=
  | OAttach (x : Z) | OFind (v : Z) | ODetach (x : Z) | ORemove (v : Z) | OFirst | OLast
  | ONext (x : Z) | OPrev (x : Z) | ONearPrev (v : Z) | ONearNext (v : Z) | OReplace (x y : Z).

Section refine.
Context (cmp : Z -> Z -> Z) `{!CmpOrder cmp}.
Abbreviation ordered := (StronglySorted (before cmp)).

(** The code; [zrbtree_replace_node] returns nothing. *)
Definition rb_exec (op : rb_op) : M Z :=
  match op with
  | OAttach x => zrbtree_attach cmp x
  | OFind v => zrbtree_find cmp v
  | ODetach x => zrbtree_detach x
  | ORemove v => zrbtree_remove cmp v
  | OFirst => zrbtree_first
  | OLast => zrbtree_last
  | ONext x => zrbtree_next x
  | OPrev x => zrbtree_prev x
  | ONearPrev v => zrbtree_near_prev cmp v
  | ONearNext v => zrbtree_near_next cmp v
  | OReplace x y => zrbtree_replace_node x y;; mret 0
  end.
Fixpoint rb_exec_all (ops : list rb_op) : M (list Z) :=
  match ops with
  | [] => mret []
  | op :: ops' => r ← rb_exec op; rs ← rb_exec_all ops'; mret (r :: rs)
  end.

(** The same on the sorted list, as doc/rbtree.md describes it: the answer and the
    list after. NULL is 0. *)
Definition rb_spec (op : rb_op) (l : list Z) : Z * list Z :=
  match op with
  | OAttach x => match find_eq cmp x l with Some y => (y, l) | None => (x, insert_ordered cmp x l) end
  | OFind v => (default 0 (find_eq cmp v l), l)
  | ODetach x => (x, without x l)
  | ORemove v => match find_eq cmp v l with Some y => (y, without y l) | None => (0, l) end
  | OFirst => (default 0 (head l), l)
  | OLast => (default 0 (last l), l)
  | ONext x => (next_of x l, l)
  | OPrev x => (prev_of 0 x l, l)
  | ONearPrev v => (default 0 (floor cmp v l), l)
  | ONearNext v => (default 0 (ceiling cmp v l), l)
  | OReplace x y => (0, replaced x y l)
  end.
Fixpoint rb_spec_all (ops : list rb_op) (l : list Z) : list Z * list Z :=
  match ops with
  | [] => ([], l)
  | op :: ops' => let (r, l') := rb_spec op l in let (rs, l'') := rb_spec_all ops' l' in (r :: rs, l'')
  end.

(** The one entry point that does not answer as described: [zrbtree_near_next]
    answers what [zrbtree_near_prev] does. *)
Definition rb_as_coded (op : rb_op) : rb_op :=
  match op with ONearNext v => ONearPrev v | _ => op end.
Lemma rb_as_coded_list op l : (rb_spec (rb_as_coded op) l).2 = (rb_spec op l).2.
Proof. by destruct op. Qed.
Lemma rb_as_coded_id ops : Forall (fun op => forall v, op <> ONearNext v) ops -> rb_as_coded <$> ops = ops.
Proof. induction 1 as [|op ops Hop _ IH]; [done|]. cbn. rewrite IH. f_equal. by destruct op; [..|edestruct Hop|]. Qed.

(** What callers owe: a node attached is not in the tree; a node detached,
    stepped from or replaced is; a replacement compares equal. [D] holds the
    nodes the caller has allocated. *)
Definition rb_ok (D : gset Z) (op : rb_op) (l : list Z) : Prop :=
  match op with
  | OAttach x => x ∈ D /\ x ∉ l
  | ODetach x | ONext x | OPrev x => x ∈ l
  | OReplace x y => x ∈ l /\ y ∈ D /\ (y ∉ l) /\ cmp x y = 0
  | _ => True
  end.
Fixpoint rb_all_ok (D : gset Z) (ops : list rb_op) (l : list Z) : Prop :=
  match ops with [] => True | op :: ops' => rb_ok D op l /\ rb_all_ok D ops' (rb_spec op l).2 end.

#[export] Instance rb_ok_dec D op l : Decision (rb_ok D op l).
Proof. destruct op; cbn; apply _. Defined.
#[export] Instance rb_all_ok_dec D ops : forall l, Decision (rb_all_ok D ops l).
Proof. induction ops; intros l; cbn; apply _. Defined.

(** A state holds a list. *)
Definition holds (s : rbstate) (l : list Z) : Prop :=
  exists t, rep s t /\ is_rb t /\ elems t = l /\ ordered l.

Lemma holds_empty h : holds (mk_rbstate h 0) [].
Proof. exists E. repeat split; try constructor. exists 0%nat. constructor. Qed.
Lemma rebuilt_holds h L l s : rebuilt h L l s -> ordered l -> holds s l.
Proof. intros (t & ? & ? & ? & _) ?. by exists t. Qed.

Lemma ordered_without x l : ordered l -> ordered (without x l).
Proof.
  induction 1 as [|y l _ IH Hy]; [constructor|]. unfold without in *. rewrite filter_cons.
  case_decide; [|done]. constructor; [done|]. rewrite Forall_forall in *.
  intros z [_ Hz]%list_elem_of_filter. auto.
Qed.
Lemma ordered_insert x l : ordered l -> find_eq cmp x l = None -> ordered (insert_ordered cmp x l).
Proof.
  unfold find_eq. induction 1 as [|y l Hl IH Hy]; simpl; [repeat constructor|].
  destruct (Z.eqb_spec (cmp x y) 0) as [|Hne]; [done|]. intros Hf. specialize (IH Hf).
  rewrite Forall_forall in Hy. destruct (Z.ltb_spec (cmp x y) 0) as [Hlt|Hge].
  - constructor; [constructor; [done|by apply Forall_forall]|]. apply Forall_forall.
    intros z [->|Hz]%elem_of_cons; [done|]. eapply cmp_lt_trans; [exact Hlt|]. by apply Hy.
  - constructor; [done|]. apply Forall_forall. intros z Hz.
    assert (Hz' : z = x \/ z ∈ l).
    { clear -Hz. induction l as [|a l IH]; simpl in Hz; [left; set_solver|].
      destruct (cmp x a <? 0); set_solver. }
    destruct Hz' as [->|Hz']; [|by apply Hy]. apply cmp_flip. lia.
Qed.
Lemma ordered_replaced x y l : ordered l -> cmp x y = 0 -> ordered (replaced x y l).
Proof.
  intros Hl Heq. assert (Heq' : cmp y x = 0) by (by apply cmp_eq_sym).
  induction Hl as [|z l Hl IH Hz]; simpl; [constructor|]. rewrite Forall_forall in Hz.
  destruct (Z.eqb_spec z x) as [->|Hne].
  - constructor; [done|]. apply Forall_forall. intros w Hw. eapply cmp_eq_lt; [exact Heq'|]. by apply Hz.
  - constructor; [done|]. apply Forall_forall. intros w Hw.
    assert (Hw' : w ∈ l \/ (w = y /\ x ∈ l)).
    { clear -Hw. induction l as [|a l IH]; simpl in Hw; [by apply elem_of_nil in Hw|].
      destruct (Z.eqb_spec a x); set_solver. }
    destruct Hw' as [Hw'|[-> Hx]]; [by apply Hz|]. eapply cmp_lt_eq; [apply (Hz x Hx)|done].
Qed.
Lemma find_eq_elem v l x : find_eq cmp v l = Some x -> x ∈ l.
Proof.
  unfold find_eq. induction l as [|y l IH]; simpl; [done|].
  destruct (cmp v y =? 0); [intros [= ->]; by left|]. intros H. right. by apply IH.
Qed.

Lemma zrbtree_find_spec h root t v : rep (mk_rbstate h root) t -> ordered (elems t) ->
  wp (zrbtree_find cmp v) (mk_rbstate h root)
    (fun x s => s = mk_rbstate h root /\ x = default 0 (find_eq cmp v (elems t))).
Proof using CmpOrder0.
  intros [Ht Hr Hnd Ha] Ho. cbn in *. unfold zrbtree_find. apply wp_bind, wp_get_root, wp_with_fuel.
  pose proof (elems_size _ _ _ Ht Hnd). rewrite Hr. eapply find_loop_spec; [exact _|exact Ht|done..|lia].
Qed.
Lemma zrbtree_near_prev_spec h root t v : rep (mk_rbstate h root) t -> ordered (elems t) ->
  wp (zrbtree_near_prev cmp v) (mk_rbstate h root)
    (fun x s => s = mk_rbstate h root /\ x = default 0 (floor cmp v (elems t))).
Proof using CmpOrder0.
  intros [Ht Hr Hnd Ha] Ho. cbn in *. unfold zrbtree_near_prev. apply wp_bind, wp_get_root, wp_with_fuel.
  pose proof (elems_size _ _ _ Ht Hnd). rewrite Hr. eapply near_prev_loop_spec; [exact _|exact Ht|done..|lia].
Qed.
Lemma near_next_prev v s : zrbtree_near_next cmp v s = zrbtree_near_prev cmp v s.
Proof. apply near_next_loop_prev. Qed.

(** One operation. *)
Lemma rb_exec_holds D op s l : holds s l -> D ⊆ dom (st_heap s) -> (forall x, x ∈ D -> addr x) ->
  rb_ok D op l ->
  wp (rb_exec op) s (fun r s' => r = (rb_spec (rb_as_coded op) l).1 /\ holds s' (rb_spec op l).2).
Proof using CmpOrder0.
  destruct s as [h root]. intros (t & Ht & Hrb & <- & Ho) HD HA Hok. cbn in HD.
  assert (Hsame : holds (mk_rbstate h root) (elems t)) by (by exists t).
  assert (Hread : forall (m : M Z) f, wp m (mk_rbstate h root) (fun x s => s = mk_rbstate h root /\ x = f) ->
    wp m (mk_rbstate h root) (fun x s => x = f /\ holds s (elems t))).
  { intros m f Hm. eapply wp_mono; [exact Hm|]. by intros ? ? [-> ->]. }
  destruct op as [x|v|x|v| | |x|x|v|v|x y]; cbn [rb_exec rb_as_coded rb_spec fst snd]; cbn in Hok.
  - destruct Hok as [Hx Hn]. eapply wp_mono; [eapply zrbtree_attach_spec; eauto|].
    intros r s Hs. cbn in Hs. destruct (find_eq cmp x (elems t)) eqn:Ef; destruct Hs as [-> Hs]; split; try done.
    + by subst s.
    + eapply rebuilt_holds; [exact Hs|]. by apply ordered_insert.
  - by apply Hread, zrbtree_find_spec.
  - apply wp_bind. eapply wp_mono; [by apply (erase_elem_spec h root t x)|]. intros ? s Hs. cbn in Hs.
    apply wp_ret. split; [done|]. eapply rebuilt_holds; [exact Hs|]. by apply ordered_without.
  - apply wp_bind. eapply wp_mono; [by apply (zrbtree_find_spec h root t v)|]. intros ? s [-> ->].
    destruct (find_eq cmp v (elems t)) as [y|] eqn:Ef; cbn [default fst snd].
    + pose proof (find_eq_elem _ _ _ Ef) as Hy.
      assert (y <> 0) by (destruct Ht as [_ _ _ Ha]; rewrite Forall_forall in Ha; auto with rb).
      eqb_tac. apply wp_bind. eapply wp_mono; [by apply (erase_elem_spec h root t y)|].
      intros ? s Hs. cbn in Hs. apply wp_ret. split; [done|].
      eapply rebuilt_holds; [exact Hs|]. by apply ordered_without.
    + by apply wp_bind, wp_ret, wp_ret.
  - by apply Hread, (zrbtree_end_spec h root t L).
  - by apply Hread, (zrbtree_end_spec h root t R).
  - by apply Hread, next_elem_spec.
  - by apply Hread, prev_elem_spec.
  - by apply Hread, zrbtree_near_prev_spec.
  - eapply Hread. unfold wp. rewrite near_next_prev. by apply zrbtree_near_prev_spec.
  - destruct Hok as (Hx & Hy & Hn & Heq). apply wp_bind.
    eapply wp_mono; [by eapply (replace_elem_spec h root t x Ht Hx y); eauto|]. intros ? s Hs. cbn in Hs.
    apply wp_ret. split; [done|]. eapply rebuilt_holds; [exact Hs|]. by apply ordered_replaced.
Qed.

#[export] Instance keeps_find_loop fuel : forall v node, Keeps (find_loop cmp fuel v node).
Proof. induction fuel; intros; cbn [find_loop]; keeps_tac. Qed.
#[export] Instance keeps_down_loop fuel : forall d node, Keeps (down_loop fuel d node).
Proof. induction fuel; intros; cbn [down_loop]; keeps_tac. Qed.
#[export] Instance keeps_up_loop fuel : forall d node, Keeps (up_loop fuel d node).
Proof. induction fuel; intros; cbn [up_loop]; keeps_tac. Qed.
#[export] Instance keeps_near_prev_loop fuel : forall v node ret, Keeps (near_prev_loop cmp fuel v node ret).
Proof. induction fuel; intros; cbn [near_prev_loop]; keeps_tac. Qed.
#[export] Instance keeps_near_next_loop fuel : forall v node ret, Keeps (near_next_loop cmp fuel v node ret).
Proof. induction fuel; intros; cbn [near_next_loop]; keeps_tac. Qed.
#[export] Instance keeps_exec op : Keeps (rb_exec op).
Proof.
  destruct op; cbn [rb_exec]; unfold zrbtree_find, zrbtree_detach, zrbtree_remove, zrbtree_first,
    zrbtree_last, zrbtree_end, zrbtree_next, zrbtree_prev, zrbtree_step, zrbtree_near_prev,
    zrbtree_near_next, zrbtree_find; keeps_tac.
Qed.

Lemma rb_exec_all_holds D ops : forall s l, holds s l -> D ⊆ dom (st_heap s) ->
  (forall x, x ∈ D -> addr x) -> rb_all_ok D ops l ->
  wp (rb_exec_all ops) s (fun rs s' => rs = (rb_spec_all (rb_as_coded <$> ops) l).1 /\ holds s' (rb_spec_all ops l).2).
Proof using CmpOrder0.
  induction ops as [|op ops IH]; intros s l Hs HD HA Hok; cbn [rb_exec_all rb_spec_all fmap list_fmap]; [by apply wp_ret|].
  destruct Hok as [Hop Hok]. apply wp_bind.
  eapply wp_mono; [apply wp_keeps; [apply _|by apply (rb_exec_holds D op s l)]|].
  intros r s' [[-> Hs'] Hd]. pose proof (rb_as_coded_list op l) as El.
  destruct (rb_spec (rb_as_coded op) l) as [r' l0]. destruct (rb_spec op l) as [r0 l'] eqn:E. cbn in *. subst l0.
  apply wp_bind. eapply wp_mono; [apply (IH s' l'); [done|by rewrite Hd|done..]|].
  intros rs s'' [-> Hs'']. change (list_fmap _ _ rb_as_coded ops) with (rb_as_coded <$> ops).
  by destruct (rb_spec_all (rb_as_coded <$> ops) l'), (rb_spec_all ops l').
Qed.

(** C31: the red-black tree is the sorted list. From the empty tree, on any store
    whose nodes [D] have nonzero addresses that are multiples of 4, every sequence
    of [zrbtree_attach], [find], [detach], [remove], [first], [last], [next],
    [prev], [near_prev], [near_next] and [replace_node] the callers may make runs
    to its end (no dereference outside the store, no endless loop), answers what
    doc/rbtree.md describes on the sorted list, except that [near_next] answers what
    [near_prev] should (the greatest node not above, where the least not below is
    described: a bug), and leaves a tree that is laid out correctly (children,
    parents, colours), satisfies the red-black invariant and whose in-order sequence
    is the sorted list. *)
Theorem zrbtree_refines (D : gset Z) ops h :
  D ⊆ dom h -> (forall x, x ∈ D -> addr x) -> rb_all_ok D ops [] ->
  exists s, rb_exec_all ops (mk_rbstate h 0) = Some ((rb_spec_all (rb_as_coded <$> ops) []).1, s) /\
    holds s (rb_spec_all ops []).2.
Proof using CmpOrder0.
  intros HD HA Hok.
  pose proof (rb_exec_all_holds D ops (mk_rbstate h 0) [] (holds_empty h) HD HA Hok) as H.
  unfold wp in H. destruct (rb_exec_all ops _) as [[rs s]|]; [|done]. destruct H as [-> H]. by exists s.
Qed.

(** C32: the trees stay balanced. After any sequence of operations that callers may
    make, a tree of n nodes is at most 2 log2 (n + 1) high: the number of nodes a
    search, an insertion or a deletion visits is logarithmic. *)
Theorem zrbtree_balanced (D : gset Z) ops h :
  D ⊆ dom h -> (forall x, x ∈ D -> addr x) -> rb_all_ok D ops [] ->
  exists rs s t, rb_exec_all ops (mk_rbstate h 0) = Some (rs, s) /\ rep s t /\
    elems t = (rb_spec_all ops []).2 /\ height t <= 2 * Z.log2 (zlen (elems t) + 1).
Proof using CmpOrder0.
  intros HD HA Hok.
  pose proof (rb_exec_all_holds D ops (mk_rbstate h 0) [] (holds_empty h) HD HA Hok) as H.
  unfold wp in H. destruct (rb_exec_all ops _) as [[rs s]|]; [|done].
  destruct H as [_ (t & Ht & [n Hn] & He & _)]. exists rs, s, t. split; [done|]. split; [done|].
  split; [done|]. pose proof (rbt_size _ _ _ Hn) as Hs. pose proof (rbt_height_bound _ _ _ Hn) as Hh.
  cbn in Hh. pose proof (zlen_nonneg (elems t)).
  assert (Z.of_nat n <= Z.log2 (zlen (elems t) + 1)); [|lia]. by apply Z.log2_le_pow2; [lia|].
Qed.

(** C33: [zrbtree_walk] visits every node exactly once, each after the nodes of its
    subtrees (so that the callback may free it), changes nothing, and its fixed
    stack of 64 entries is never overrun while the tree has fewer than 2^32 - 1
    nodes. *)
Theorem zrbtree_walk_visits (D : gset Z) ops h :
  D ⊆ dom h -> (forall x, x ∈ D -> addr x) -> rb_all_ok D ops [] ->
  zlen (rb_spec_all ops []).2 < 2 ^ 32 - 1 ->
  exists rs s t out, rb_exec_all ops (mk_rbstate h 0) = Some (rs, s) /\ rep s t /\
    zrbtree_walk s = Some (out, s) /\ out = postorder t /\ out ≡ₚ (rb_spec_all ops []).2.
Proof using CmpOrder0.
  intros HD HA Hok Hlen.
  pose proof (rb_exec_all_holds D ops (mk_rbstate h 0) [] (holds_empty h) HD HA Hok) as H.
  unfold wp in H. destruct (rb_exec_all ops _) as [[rs [h' root]]|]; [|done].
  destruct H as [_ (t & Ht & Hrb & He & _)]. rewrite <- He in *.
  pose proof (zrbtree_walk_spec h' root t Ht Hrb Hlen) as Hw. unfold wp in Hw.
  destruct (zrbtree_walk _) as [[out s]|] eqn:Ew; [|done]. destruct Hw as [-> ->].
  exists rs, (mk_rbstate h' root), t, (postorder t). repeat split; try done.
  - apply Ht.
  - apply Ht.
  - apply Ht.
  - apply Ht.
  - clear. induction t as [|c l IHl x r IHr]; simpl; [done|]. rewrite IHl, IHr.
    by rewrite (Permutation_app_comm (elems r)).
Qed.
End refine.

(** [zrbtree_near_next] is [zrbtree_near_prev]: it answers the greatest node
    that is not above the one asked for, not the least that is not below it. *)
Theorem zrbtree_near_next_is_near_prev cmp v s :
  zrbtree_near_next cmp v s = zrbtree_near_prev cmp v s.
Proof. apply near_next_loop_prev. Qed.

(** ** A store of eight nodes ordered by address *)
Definition addr_cmp (x y : Z) : Z := x - y.
#[export] Instance addr_cmp_order : CmpOrder addr_cmp.
Proof. unfold addr_cmp. split; intros; lia. Qed.
Definition demo_store : rbstore :=
  list_to_map ((fun x => (x, mk_rbnode 0 0 0)) <$> [4; 8; 12; 16; 20; 24; 28; 32]).
Definition demo_ops : list rb_op :=
  [OAttach 4; OAttach 8; OAttach 12; OAttach 16; OAttach 20; OAttach 24; OAttach 28; OAttach 32;
   OFind 20; ODetach 16; ORemove 4; ORemove 4; ONext 12; OPrev 12; OPrev 8; ONearPrev 18;
   ONearNext 18; OFirst; OLast; ODetach 8; ODetach 12; OAttach 4].
Definition demo_nodes : gset Z := dom demo_store.

Lemma demo_addr x : x ∈ demo_nodes -> addr x.
Proof.
  revert x. change (set_Forall (fun x => 0 < x /\ x mod 4 = 0) demo_nodes).
  apply (bool_decide_unpack _). vm_compute. exact I.
Qed.
Lemma demo_ok : rb_all_ok addr_cmp demo_nodes demo_ops [].
Proof. apply (bool_decide_unpack _). vm_compute. exact I. Qed.

Lemma zrbtree_refines_witness : exists s,
  rb_exec_all addr_cmp demo_ops (mk_rbstate demo_store 0) =
    Some ([4; 8; 12; 16; 20; 24; 28; 32; 20; 16; 4; 0; 20; 8; 0; 12; 12; 8; 32; 8; 12; 4], s) /\
  holds addr_cmp s [4; 20; 24; 28; 32].
Proof. exact (zrbtree_refines addr_cmp demo_nodes demo_ops demo_store (reflexivity _) demo_addr demo_ok). Defined.
Lemma zrbtree_balanced_witness : exists rs s t,
  rb_exec_all addr_cmp demo_ops (mk_rbstate demo_store 0) = Some (rs, s) /\ rep s t /\
    elems t = [4; 20; 24; 28; 32] /\ height t <= 2 * Z.log2 (zlen (elems t) + 1).
Proof. exact (zrbtree_balanced addr_cmp demo_nodes demo_ops demo_store (reflexivity _) demo_addr demo_ok). Defined.
Lemma zrbtree_walk_visits_witness : exists rs s t out,
  rb_exec_all addr_cmp demo_ops (mk_rbstate demo_store 0) = Some (rs, s) /\ rep s t /\
    zrbtree_walk s = Some (out, s) /\ out = postorder t /\ out ≡ₚ [4; 20; 24; 28; 32].
Proof.
  apply (zrbtree_walk_visits addr_cmp demo_nodes demo_ops demo_store (reflexivity _) demo_addr demo_ok).
  vm_compute. reflexivity.
Defined.
