(* ===== verification/Keyed.v ===== *)
(** * Keyed nodes on a red-black tree: the operations of map.c and its kin

    src/stdlib/map.c, longmap.c, dict.c and dictlong.c are one program over four
    node types. The program is written here once, over the type [K] of keys with
    the comparison the tree's [cmp_fn] makes, and the type [V] of what a node
    holds; the four instances are in Maps.v and Dict.v.

    A node is named by the address of its [rbnode] member ([ZCONTAINER_OF] is the
    identity on names). [key_of] and [val_of] hold the other two members. *)
From stdpp Require Import gmap sorting.
From S2P Require Import Prelude StateMonad Rbtree.

(** The answers of the allocator: [new_addr used] is an address outside [used],
    not NULL, aligned for a structure; [junk] is what the memory holds. *)
Class Allocator := {
  new_addr : gset Z -> Z;
  junk : rbnode
}.
Class AllocatorSound `{Allocator} : Prop := {
  new_addr_fresh used : new_addr used ∉ used;
  new_addr_aligned used : 0 < new_addr used /\ new_addr used mod 4 = 0
}.

Record kvstate (K V : Type) := mk_kvstate {
  kv_rb : rbstate;
  key_of : gmap Z K;
  val_of : gmap Z V;
  kv_len : Z
}.
Arguments mk_kvstate {K V} _ _ _ _.
Arguments kv_rb {K V} _.
Arguments key_of {K V} _.
Arguments val_of {K V} _.
Arguments kv_len {K V} _.

Section keyed.
Context {K V : Type} `{!Inhabited K} (kcmp : K -> K -> Z) `{!Allocator}.
Abbreviation KM := (St (kvstate K V)).

Definition set_rb (s : kvstate K V) (rb : rbstate) : kvstate K V :=
  mk_kvstate rb (key_of s) (val_of s) (kv_len s).
(** [cmp_fn]: the keys of the two structures that hold the nodes. *)
Definition kv_cmp (keys : gmap Z K) (x y : Z) : Z := kcmp (keys !!! x) (keys !!! y).
Definition on_tree {A} (f : (Z -> Z -> Z) -> St rbstate A) : KM A :=
  keys ← gets key_of; focus kv_rb set_rb (f (kv_cmp keys)).

(** A structure comes to life with its key: a local variable or [zmalloc] and
    the assignment to [key]; its scope ends or [zfree] takes it away. *)
Definition new_node (key : K) : KM Z :=
  h ← gets (fun s => st_heap (kv_rb s));
  let x := new_addr (dom h) in
  modify (fun s => mk_kvstate (mk_rbstate (<[x := junk]> h) (st_root (kv_rb s)))
                     (<[x := key]> (key_of s)) (val_of s) (kv_len s));;
  mret x.
Definition free_node (x : Z) : KM unit :=
  h ← gets (fun s => st_heap (kv_rb s));
  n ← of_option (h !! x);
  modify (fun s => mk_kvstate (mk_rbstate (delete x h) (st_root (kv_rb s)))
                     (delete x (key_of s)) (delete x (val_of s)) (kv_len s)).
Definition get_val (x : Z) : KM V := vals ← gets val_of; of_option (vals !! x).
Definition set_val (x : Z) (v : V) : KM unit :=
  h ← gets (fun s => st_heap (kv_rb s));
  _ ← of_option (h !! x);
  modify (fun s => mk_kvstate (kv_rb s) (key_of s) (<[x := v]> (val_of s)) (kv_len s)).
(** [len += d], an [int]. *)
Definition add_len (d : Z) : KM unit :=
  len ← gets kv_len;
  n ← of_option (as_int (len + d));
  modify (fun s => mk_kvstate (kv_rb s) (key_of s) (val_of s) n).

Definition kv_create : kvstate K V := mk_kvstate (mk_rbstate ∅ 0) ∅ ∅ 0.

(** The branch for a new key: the node made takes the place of the local [mp_n]. *)
Definition kv_install (mp_n : Z) (key : K) (assign : option V -> option V) : KM (Z * option V) :=
  mp_np ← new_node key;
  v ← of_option (assign None);
  set_val mp_np v;;
  on_tree (fun _ => zrbtree_replace_node mp_n mp_np);;
  add_len 1;;
  mret (mp_np, None).
(** The node, and the value before. [assign] is what the code does to the value
    of a node that is there ([Some]) or new ([None]). *)
Definition kv_update (key : K) (assign : option V -> option V) : KM (Z * option V) :=
  mp_n ← new_node key;
  rb_np ← on_tree (fun cmp => zrbtree_attach cmp mp_n);
  r ← (if negb (rb_np =? mp_n) then
         old ← get_val rb_np;
         v ← of_option (assign (Some old));
         set_val rb_np v;;
         mret (rb_np, Some old)
       else kv_install mp_n key assign);
  free_node mp_n;;
  mret r.

(** The lookups by key: the node (0 for NULL) and its value. *)
Definition kv_search (look : (Z -> Z -> Z) -> Z -> St rbstate Z) (key : K) : KM (Z * option V) :=
  mp_n ← new_node key;
  rb_np ← on_tree (fun cmp => look cmp mp_n);
  r ← (if negb (rb_np =? 0) then v ← get_val rb_np; mret (rb_np, Some v) else mret (0, None));
  free_node mp_n;;
  mret r.
Definition kv_find : K -> KM (Z * option V) := kv_search zrbtree_find.
Definition kv_find_near_prev : K -> KM (Z * option V) := kv_search zrbtree_near_prev.
Definition kv_find_near_next : K -> KM (Z * option V) := kv_search zrbtree_near_next.

Definition kv_first : KM Z := on_tree (fun _ => zrbtree_first).
Definition kv_last : KM Z := on_tree (fun _ => zrbtree_last).
Definition kv_prev (n : Z) : KM Z := on_tree (fun _ => zrbtree_prev n).
Definition kv_next (n : Z) : KM Z := on_tree (fun _ => zrbtree_next n).

(** [detach], the releases; the answer is the value the node had. *)
Definition kv_drop (n : Z) : KM V :=
  on_tree (fun _ => zrbtree_detach n);; v ← get_val n; free_node n;; mret v.
Definition kv_delete_node (n : Z) : KM V := v ← kv_drop n; add_len (-1);; mret v.
Definition kv_delete (key : K) : KM (option V) :=
  r ← kv_find key;
  let n : Z := fst r in
  if n =? 0 then mret None else v ← kv_delete_node n; mret (Some v).
Definition kv_node_update (n : Z) (value : V) : KM V :=
  old ← get_val n; set_val n value;; mret old.

(** [while ((n = first(map))) drop(n)], for as many nodes as there are. *)
Fixpoint kv_drain (drop : Z -> KM V) (fuel : nat) : KM unit :=
  match fuel with
  | O => undefined
  | S fuel' => n ← kv_first; if n =? 0 then skip else drop n;; kv_drain drop fuel'
  end.
Definition kv_with_fuel {A} (f : nat -> KM A) : KM A := fun s => f (S (size (st_heap (kv_rb s)))) s.
(** [zmap_reset] lowers [len] node by node; [zdict_reset] sets it to 0 at the end. *)
Definition kv_reset : KM unit := kv_with_fuel (kv_drain kv_delete_node).
Definition kv_reset0 : KM unit :=
  kv_with_fuel (kv_drain kv_drop);;
  modify (fun s => mk_kvstate (kv_rb s) (key_of s) (val_of s) 0).
(** All nodes released; the structure that holds the tree goes last. *)
Definition kv_free : KM unit := kv_with_fuel (kv_drain kv_drop).

(** [for (n = first(map); n; n = next(n))]: the keys and values met. *)
Fixpoint kv_walk_loop (fuel : nat) (n : Z) : KM (list (K * V)) :=
  match fuel with
  | O => undefined
  | S fuel' =>
      if n =? 0 then mret [] else
      keys ← gets key_of;
      k ← of_option (keys !! n);
      v ← get_val n;
      n ← kv_next n;
      rest ← kv_walk_loop fuel' n;
      mret ((k, v) :: rest)
  end.
Definition kv_walk : KM (list (K * V)) :=
  n ← kv_first; kv_with_fuel (fun fuel => kv_walk_loop fuel n).
End keyed.

(** ** An allocator: the next multiple of 4 *)
#[export] Instance bump_allocator : Allocator := {
  new_addr used := 4 + 4 * foldr Z.max 0 (elements used);
  junk := mk_rbnode 0 0 0
}.
Lemma foldr_max_ge l : 0 <= foldr Z.max 0 l /\ forall x, x ∈ l -> x <= foldr Z.max 0 l.
Proof.
  induction l as [|y l [IH0 IH]]; simpl; [split; [done|by intros ? ?%elem_of_nil]|].
  split; [lia|]. intros x [->|Hx]%elem_of_cons; [lia|]. specialize (IH x Hx). lia.
Qed.
#[export] Instance bump_allocator_sound : AllocatorSound.
Proof.
  split; intros used; destruct (foldr_max_ge (elements used)) as [H0 Hx]; cbn.
  - intros H%elem_of_elements. specialize (Hx _ H). lia.
  - split; [lia|]. rewrite Z.add_mod, (Z.mul_comm 4), Z.mod_mul by lia. done.
Qed.
