(* ===== verification/KeyedSpec.v ===== *)
(** * Keyed nodes: an ordered association list is what they implement

    The specification is a list of keys and values, ascending by key. A map
    structure represents it when its tree holds one node per entry, in that
    order, [len] counts them, and the store holds nothing else: the operations
    leak no node and free none twice. *)
From stdpp Require Import gmap sorting.
From S2P Require Import Prelude StateMonad Rbtree RbShape Rbset Rbops RbRefine Keyed.

(** ** The association list *)
Section alist.
Context {K W : Type} (kcmp : K -> K -> Z).
Implicit Types (al : list (K * W)) (e : K * W).

Definition al_find (k : K) al : option (K * W) := List.find (fun e => kcmp k e.1 =? 0) al.
Definition al_set (k : K) (w : W) al : list (K * W) :=
  (fun e => if kcmp k e.1 =? 0 then (e.1, w) else e) <$> al.
Fixpoint al_insert (k : K) (w : W) al : list (K * W) :=
  match al with
  | [] => [(k, w)]
  | e :: al' => if kcmp k e.1 <? 0 then (k, w) :: al else e :: al_insert k w al'
  end.
Definition al_update (k : K) (w : W) al : list (K * W) :=
  match al_find k al with Some _ => al_set k w al | None => al_insert k w al end.
Definition al_remove (k : K) al : list (K * W) := filter (fun e => kcmp k e.1 <> 0) al.
Definition al_floor (k : K) al : option (K * W) := last (filter (fun e => 0 <= kcmp k e.1) al).
Definition al_ceiling (k : K) al : option (K * W) := head (filter (fun e => kcmp k e.1 <= 0) al).
Definition al_next (k : K) al : option (K * W) := head (filter (fun e => kcmp k e.1 < 0) al).
Definition al_prev (k : K) al : option (K * W) := last (filter (fun e => 0 < kcmp k e.1) al).

Lemma al_find_set k w al : al_find k (al_set k w al) = (fun e => (e.1, w)) <$> al_find k al.
Proof.
  unfold al_find, al_set. induction al as [|e al IH]; simpl; [done|].
  destruct (kcmp k e.1 =? 0) eqn:E; simpl; by rewrite E.
Qed.
Lemma al_find_insert `{!CmpOrder kcmp} k w al : al_find k al = None -> al_find k (al_insert k w al) = Some (k, w).
Proof.
  unfold al_find. induction al as [|e al IH]; simpl; [by rewrite cmp_refl|].
  destruct (Z.eqb_spec (kcmp k e.1) 0) as [|Hne]; [done|]. intros Hf.
  destruct (kcmp k e.1 <? 0); simpl; [by rewrite cmp_refl|].
  rewrite (proj2 (Z.eqb_neq _ _) Hne). by apply IH.
Qed.
(** A key above all the others goes to the end. *)
Lemma al_insert_last `{!CmpOrder kcmp} k w al : Forall (fun e => kcmp e.1 k < 0) al -> al_insert k w al = al ++ [(k, w)].
Proof.
  induction 1 as [|e al He _ IH]; simpl; [done|]. apply cmp_flip in He. destruct (Z.ltb_spec (kcmp k e.1) 0); [lia|].
  by rewrite IH.
Qed.
Lemma al_find_above `{!CmpOrder kcmp} k al : Forall (fun e => kcmp e.1 k < 0) al -> al_find k al = None.
Proof.
  unfold al_find. induction 1 as [|e al He _ IH]; simpl; [done|]. apply cmp_flip in He.
  destruct (Z.eqb_spec (kcmp k e.1) 0); [lia|done].
Qed.
Lemma al_update_last `{!CmpOrder kcmp} k w al : Forall (fun e => kcmp e.1 k < 0) al -> al_update k w al = al ++ [(k, w)].
Proof. intros H. unfold al_update. rewrite al_find_above by done. by apply al_insert_last. Qed.
Lemma zlen_al_set k w al : zlen (al_set k w al) = zlen al.
Proof. apply zlen_fmap. Qed.
Lemma zlen_al_insert k w al : zlen (al_insert k w al) = zlen al + 1.
Proof.
  induction al as [|e al IH]; simpl; [done|]. destruct (kcmp k e.1 <? 0); rewrite !zlen_cons; lia.
Qed.
End alist.

(** ** Lists related element by element *)
Section forall2.
Context {A B : Type} (R : A -> B -> Prop).

Lemma Forall2_find (p : A -> bool) (q : B -> bool) l m : Forall2 R l m ->
  (forall x y, x ∈ l -> R x y -> p x = q y) -> option_Forall2 R (List.find p l) (List.find q m).
Proof.
  induction 1 as [|x y l m Hxy _ IH]; intros Hpq; simpl; [constructor|].
  rewrite (Hpq x y) by (done || by left). destruct (q y); [by constructor|].
  apply IH. intros. apply Hpq; [by right|done].
Qed.
Lemma Forall2_filter_rel (P : A -> Prop) (Q : B -> Prop)
    `{!forall x, Decision (P x)} `{!forall x, Decision (Q x)} l m : Forall2 R l m ->
  (forall x y, x ∈ l -> R x y -> P x <-> Q y) -> Forall2 R (filter P l) (filter Q m).
Proof.
  induction 1 as [|x y l m Hxy _ IH]; intros Hpq; simpl; [constructor|].
  assert (Forall2 R (filter P l) (filter Q m)) by (apply IH; intros; apply Hpq; [by right|done]).
  pose proof (Hpq x y ltac:(by left) Hxy). rewrite !filter_cons.
  do 2 case_decide; [by constructor|tauto|tauto|done].
Qed.
Lemma Forall2_last_rel l m : Forall2 R l m -> option_Forall2 R (last l) (last m).
Proof.
  induction 1 as [|x y l m Hxy H IH]; [constructor|].
  destruct H as [|x' y' l m]; [by constructor|]. exact IH.
Qed.
Lemma Forall2_head_rel l m : Forall2 R l m -> option_Forall2 R (head l) (head m).
Proof. destruct 1; by constructor. Qed.
Lemma Forall2_elem l m x : Forall2 R l m -> x ∈ l -> exists y, R x y /\ y ∈ m.
Proof.
  induction 1 as [|x' y l m Hxy _ IH]; [by intros ?%elem_of_nil|].
  intros [->|Hx]%elem_of_cons; [exists y; split; [done|by left]|].
  destruct (IH Hx) as (y' & ? & ?). exists y'. split; [done|by right].
Qed.
Lemma Forall2_mono_in (R' : A -> B -> Prop) l m : Forall2 R l m ->
  (forall x y, x ∈ l -> R x y -> R' x y) -> Forall2 R' l m.
Proof.
  induction 1 as [|x y l m Hxy _ IH]; intros H'; constructor; [apply H'; [by left|done]|].
  apply IH. intros. apply H'; [by right|done].
Qed.
End forall2.

(** ** Neighbours in an ordered list, by filtering *)
Section neighbours.
Context (cmp : Z -> Z -> Z) `{!CmpOrder cmp}.
Abbreviation ordered := (StronglySorted (before cmp)).

Lemma ordered_mid a x b : ordered (a ++ x :: b) ->
  (forall y, y ∈ a -> cmp y x < 0) /\ (forall y, y ∈ b -> cmp x y < 0).
Proof.
  intros (_ & [_ Hb]%StronglySorted_inv & Hab)%ordered_app. rewrite Forall_forall in Hb.
  split; [|done]. intros y Hy. apply Hab; [done|by left].
Qed.
Lemma ordered_nodup l : ordered l -> NoDup l.
Proof using CmpOrder0.
  induction 1 as [|x l _ IH Hx]; constructor; [|done]. intros H. rewrite Forall_forall in Hx.
  pose proof (Hx x H) as H'. unfold before in H'. rewrite cmp_refl in H' by exact _. lia.
Qed.
(** Only one node of an ordered list compares equal. *)
Lemma ordered_unique l x y v : ordered l -> x ∈ l -> y ∈ l -> cmp v x = 0 -> cmp v y = 0 -> x = y.
Proof using CmpOrder0.
  intros Ho Hx Hy Hvx Hvy. apply list_elem_of_split in Hx as (a & b & ->).
  apply ordered_mid in Ho as [Ha Hb].
  assert (Hxv : cmp x v = 0) by (by apply cmp_eq_sym). assert (Hyv : cmp y v = 0) by (by apply cmp_eq_sym).
  apply elem_of_app in Hy as [Hy|[Hy|Hy]%elem_of_cons]; [|done|].
  - pose proof (cmp_lt_eq y x v (Ha y Hy) Hxv). lia.
  - pose proof (cmp_eq_lt v x y Hvx (Hb y Hy)). lia.
Qed.
Lemma next_of_filter l x : ordered l -> x ∈ l ->
  next_of x l = default 0 (head (filter (fun y => cmp x y < 0) l)).
Proof using CmpOrder0.
  intros Ho Hx. pose proof (ordered_nodup l Ho) as Hnd. apply list_elem_of_split in Hx as (a & b & ->).
  destruct (ordered_mid a x b Ho) as [Ha Hb]. apply nodup_mid in Hnd as [Hxa _].
  rewrite next_of_at by done. rewrite filter_app, filter_none, filter_cons_False, filter_every; [done|done| |].
  - rewrite cmp_refl by exact _. lia.
  - intros y Hy. specialize (Ha y Hy). apply cmp_flip in Ha. lia.
Qed.
Lemma prev_of_filter l x : ordered l -> x ∈ l ->
  prev_of 0 x l = default 0 (last (filter (fun y => 0 < cmp x y) l)).
Proof using CmpOrder0.
  intros Ho Hx. pose proof (ordered_nodup l Ho) as Hnd. apply list_elem_of_split in Hx as (a & b & ->).
  destruct (ordered_mid a x b Ho) as [Ha Hb]. apply nodup_mid in Hnd as [Hxa _].
  rewrite prev_of_at by done.
  rewrite filter_app, filter_every, filter_cons_False, filter_none; [by rewrite app_nil_r| | |].
  - intros y Hy. specialize (Hb y Hy). lia.
  - rewrite cmp_refl by exact _. lia.
  - intros y Hy. by apply cmp_flip, Ha.
Qed.
End neighbours.

(** ** Representation *)
Lemma holds_ext cmp cmp' s l : holds cmp s l -> (forall x y, x ∈ l -> y ∈ l -> cmp x y = cmp' x y) ->
  holds cmp' s l.
Proof.
  intros (t & Ht & Hrb & <- & Ho) He. exists t. split; [done|]. split; [done|]. split; [done|].
  revert He. induction Ho as [|x l _ IH Hx]; intros He; constructor.
  - apply IH. intros. apply He; by right.
  - rewrite Forall_forall in *. intros y Hy. unfold before. rewrite <- He; [by apply Hx|by left|by right].
Qed.
Lemma holds_agree cmp h h' root l : holds cmp (mk_rbstate h root) l ->
  (forall x, x ∈ l -> h' !! x = h !! x) -> holds cmp (mk_rbstate h' root) l.
Proof.
  intros (t & [Ht Hr Hnd Ha] & Hrb & <- & Ho) He. cbn in *. exists t. split; [|done].
  split; try done. cbn. by eapply tat_agree.
Qed.
Lemma holds_nodup cmp s l : holds cmp s l -> NoDup l.
Proof. by intros (t & [_ _ ? _] & _ & <- & _). Qed.
Lemma holds_ordered cmp s l : holds cmp s l -> StronglySorted (before cmp) l.
Proof. by intros (t & _ & _ & <- & ?). Qed.
Lemma holds_addr cmp s l x : holds cmp s l -> x ∈ l -> addr x.
Proof. intros (t & [_ _ _ Ha] & _ & <- & _) Hx. rewrite Forall_forall in Ha. auto. Qed.
Lemma holds_dom cmp s l x : holds cmp s l -> x ∈ l -> x ∈ dom (st_heap s).
Proof. intros (t & [Ht _ _ _] & _ & <- & _) Hx. by eapply tat_dom. Qed.

Section keyed_spec.
Context {K V W : Type} `{!Inhabited K} (kcmp : K -> K -> Z) `{!CmpOrder kcmp} `{AllocatorSound}.
Context (Rv : V -> W -> Prop).
Abbreviation cmp_of s := (kv_cmp kcmp (key_of s)).

#[export] Instance kv_cmp_order keys : CmpOrder (kv_cmp kcmp keys).
Proof using CmpOrder0.
  unfold kv_cmp. split; intros *; [apply cmp_flip|apply cmp_lt_trans|apply cmp_lt_eq|apply cmp_eq_lt].
Qed.

(** Node [x] holds the entry [e]. *)
Definition entry (keys : gmap Z K) (vals : gmap Z V) (x : Z) (e : K * W) : Prop :=
  keys !! x = Some e.1 /\ exists v, vals !! x = Some v /\ Rv v e.2.

(** The tree of [s] has the nodes [l], which hold [al]; [T] are the local
    variables alive, in the store but not in the tree; [n] is [len]. *)
Record kv_at (T : gset Z) (n : Z) (s : kvstate K V) (l : list Z) (al : list (K * W)) : Prop := {
  at_tree : holds (cmp_of s) (kv_rb s) l;
  at_entries : Forall2 (entry (key_of s) (val_of s)) l al;
  at_heap : dom (st_heap (kv_rb s)) = T ∪ list_to_set l;
  at_keys : dom (key_of s) = T ∪ list_to_set l;
  at_vals : list_to_set l ⊆ dom (val_of s) ⊆ T ∪ list_to_set l;
  at_local : T ## list_to_set l;
  at_len : kv_len s = n
}.
Definition kv_rep (s : kvstate K V) (al : list (K * W)) : Prop := exists l, kv_at ∅ (zlen al) s l al.

(** A search key in a local variable. *)
Definition kv_temp (x : Z) (k : K) (n : Z) (s : kvstate K V) (l : list Z) (al : list (K * W)) : Prop :=
  kv_at {[x]} n s l al /\ addr x /\ key_of s !! x = Some k.

Lemma kv_rep_create : kv_rep kv_create [].
Proof. exists []. split; cbn; [apply holds_empty|constructor|done..]. Qed.

Lemma entry_insert keys vals x y k e : x <> y -> entry keys vals y e -> entry (<[x := k]> keys) vals y e.
Proof. unfold entry. intros Hne. by rewrite lookup_insert_ne by done. Qed.
Lemma cmp_insert_key keys x y z k : x <> y -> x <> z ->
  kv_cmp kcmp (<[x := k]> keys) y z = kv_cmp kcmp keys y z.
Proof. intros. unfold kv_cmp. by rewrite !lookup_total_insert_ne by done. Qed.

Lemma new_node_spec (k : K) (s : kvstate K V) l : holds (cmp_of s) (kv_rb s) l ->
  wp (new_node k) s (fun x s' => (x ∉ dom (st_heap (kv_rb s))) /\ addr x /\ holds (cmp_of s') (kv_rb s') l /\
    dom (st_heap (kv_rb s')) = {[x]} ∪ dom (st_heap (kv_rb s)) /\ key_of s' = <[x := k]> (key_of s) /\
    val_of s' = val_of s /\ kv_len s' = kv_len s).
Proof using H0 CmpOrder0.
  intros Ht. destruct s as [[h root] keys vals len]. cbn in *. unfold new_node.
  apply wp_bind, wp_gets. cbn. set (x := new_addr (dom h)).
  assert (Hx : (x ∉ dom h)) by apply new_addr_fresh.
  assert (Hne : forall y, y ∈ l -> x <> y) by (intros y Hy Heq; apply Hx; rewrite Heq; exact (holds_dom _ _ _ _ Ht Hy)).
  apply wp_bind, wp_modify, wp_ret. cbn. split; [done|]. split; [apply new_addr_aligned|].
  split; [|by rewrite dom_insert_L]. eapply holds_ext; [eapply holds_agree; [exact Ht|]|].
  - intros y Hy. by rewrite lookup_insert_ne by auto.
  - intros y z Hy Hz. by rewrite cmp_insert_key by auto.
Qed.
Lemma new_temp (k : K) n s l al : kv_at ∅ n s l al ->
  wp (new_node k) s (fun x s' => kv_temp x k n s' l al).
Proof using H0 CmpOrder0.
  intros [Ht He Hh Hk Hv _ Hn]. eapply wp_mono; [by apply new_node_spec|].
  intros x s' (Hx & Ha & Ht' & Hh' & Hk' & Hv' & Hn'). rewrite Hh in Hx, Hh'.
  split; [|split; [done|by rewrite Hk', lookup_insert_eq]]. split; rewrite ?Hk', ?Hv', ?Hn'; try done.
  - by rewrite <- Hk'.
  - eapply Forall2_mono_in; [exact He|]. intros y e Hy. apply entry_insert. set_solver.
  - rewrite Hh'. set_solver.
  - rewrite dom_insert_L, Hk. set_solver.
  - set_solver.
  - set_solver.
Qed.

(** Taking a node that is not in the tree out of the store. *)
Lemma free_spec T x n s l al : kv_at ({[x]} ∪ T) n s l al -> (x ∉ T) ->
  wp (free_node x) s (fun _ s' => kv_at T n s' l al).
Proof using H0 CmpOrder0.
  intros [Ht He Hh Hk Hv HT Hn] HxT. destruct s as [[h root] keys vals len]. cbn in *.
  assert (Hx : x ∈ dom h) by (rewrite Hh; set_solver). assert (Hxl : (x ∉ l)) by set_solver.
  apply elem_of_dom in Hx as [nd Hx].
  unfold free_node. apply wp_bind, wp_gets. cbn. apply wp_bind.
  eapply wp_of_option; [exact Hx|]. apply wp_modify. split; cbn.
  - eapply holds_ext; [eapply holds_agree; [exact Ht|]|].
    + intros y Hy. by rewrite lookup_delete_ne by congruence.
    + intros y z Hy Hz. unfold kv_cmp. rewrite !lookup_total_delete_ne by congruence. done.
  - eapply Forall2_mono_in; [exact He|]. intros y e Hy. unfold entry.
    by rewrite !lookup_delete_ne by congruence.
  - rewrite dom_delete_L, Hh. set_solver.
  - rewrite dom_delete_L, Hk. set_solver.
  - rewrite dom_delete_L. set_solver.
  - set_solver.
  - done.
Qed.
Lemma free_temp x k n s l al : kv_temp x k n s l al ->
  wp (free_node x) s (fun _ s' => kv_at ∅ n s' l al).
Proof using H0 CmpOrder0. intros (Ha & _). apply free_spec; [by rewrite union_empty_r_L|set_solver]. Qed.

(** One operation on the tree. *)
Lemma on_tree_spec (op : rb_op) (f : (Z -> Z -> Z) -> St rbstate Z) (D : gset Z) (s : kvstate K V) l :
  (forall cmp, f cmp = rb_exec cmp op) -> holds (cmp_of s) (kv_rb s) l ->
  D ⊆ dom (st_heap (kv_rb s)) -> (forall x, x ∈ D -> addr x) -> rb_ok (cmp_of s) D op l ->
  wp (on_tree kcmp f) s (fun r s' => exists rb, s' = set_rb s rb /\ r = (rb_spec (cmp_of s) (rb_as_coded op) l).1 /\
    holds (cmp_of s) rb (rb_spec (cmp_of s) op l).2 /\ dom (st_heap rb) = dom (st_heap (kv_rb s))).
Proof using CmpOrder0.
  intros Hf Hs HD HA Hok. unfold on_tree. apply wp_bind, wp_gets, wp_focus. rewrite Hf.
  eapply wp_mono; [apply wp_keeps; [apply _|by apply (rb_exec_holds (cmp_of s) D op (kv_rb s) l)]|].
  intros r rb [[-> Hrb] Hd]. by exists rb.
Qed.
(** One that leaves the list as it is. *)
Lemma on_tree_read (op : rb_op) f T n (s : kvstate K V) l al : kv_at T n s l al ->
  (forall cmp, f cmp = rb_exec cmp op) -> rb_ok (cmp_of s) ∅ op l -> (rb_spec (cmp_of s) op l).2 = l ->
  wp (on_tree kcmp f) s (fun r s' => r = (rb_spec (cmp_of s) (rb_as_coded op) l).1 /\ kv_at T n s' l al /\
    key_of s' = key_of s /\ val_of s' = val_of s).
Proof using CmpOrder0.
  intros [Ht He Hh Hk Hv HT Hn] Hf Hok Hl.
  eapply wp_mono; [by apply (on_tree_spec op f ∅ s l)|]. intros r s' (rb & -> & -> & Hrb & Hd).
  rewrite Hl in Hrb. split; [done|]. split; [|done]. split; try done. cbn. by rewrite Hd.
Qed.

(** ** What the nodes of the answers hold *)
Definition found (s : kvstate K V) (l : list Z) (x : Z) (e : option (K * W)) : Prop :=
  match e with Some e => x ∈ l /\ x <> 0 /\ entry (key_of s) (val_of s) x e | None => x = 0 end.

Lemma entries_in T n s l al : kv_at T n s l al ->
  Forall2 (fun x e => found s l x (Some e)) l al.
Proof using CmpOrder0.
  intros [Ht He _ _ _ _ _]. eapply Forall2_mono_in; [exact He|]. intros x e Hx Hxe.
  pose proof (holds_addr _ _ _ x Ht Hx). split; [done|]. split; [auto with rb|done].
Qed.
Lemma found_default s l (o : option Z) e :
  option_Forall2 (fun x e => found s l x (Some e)) o e -> found s l (default 0 o) e.
Proof. by destruct 1. Qed.
Lemma kv_cmp_keys keys x y k k' : keys !! x = Some k -> keys !! y = Some k' ->
  kv_cmp kcmp keys x y = kcmp k k'.
Proof. intros Hx Hy. unfold kv_cmp. by rewrite (lookup_total_correct _ _ _ Hx), (lookup_total_correct _ _ _ Hy). Qed.

Section answers.
Context (T : gset Z) (n : Z) (s : kvstate K V) (l : list Z) (al : list (K * W)) (x : Z) (k : K).
Hypothesis Hs : kv_at T n s l al.
Hypothesis Hx : key_of s !! x = Some k.

Lemma cmp_entry y e : found s l y (Some e) -> kv_cmp kcmp (key_of s) x y = kcmp k e.1.
Proof using Hx. intros (_ & _ & Hy & _). by apply kv_cmp_keys. Qed.
Lemma found_find : found s l (default 0 (find_eq (cmp_of s) x l)) (al_find kcmp k al).
Proof using Hs Hx CmpOrder0.
  apply found_default. apply (Forall2_find _ _ _ _ _ (entries_in _ _ _ _ _ Hs)).
  intros y e _ Hy. by rewrite (cmp_entry y e Hy).
Qed.
Lemma found_floor : found s l (default 0 (floor (cmp_of s) x l)) (al_floor kcmp k al).
Proof using Hs Hx CmpOrder0.
  apply found_default, Forall2_last_rel, Forall2_filter_rel; [by eapply entries_in|].
  intros y e _ Hy. by rewrite (cmp_entry y e Hy).
Qed.
Lemma found_next : x ∈ l -> found s l (next_of x l) (al_next kcmp k al).
Proof using Hs Hx CmpOrder0.
  intros Hxl. rewrite (next_of_filter (cmp_of s)); [|apply (holds_ordered _ _ _ (at_tree _ _ _ _ _ Hs))|done].
  apply found_default, Forall2_head_rel, Forall2_filter_rel; [by eapply entries_in|].
  intros y e _ Hy. by rewrite (cmp_entry y e Hy).
Qed.
Lemma found_prev : x ∈ l -> found s l (prev_of 0 x l) (al_prev kcmp k al).
Proof using Hs Hx CmpOrder0.
  intros Hxl. rewrite (prev_of_filter (cmp_of s)); [|apply (holds_ordered _ _ _ (at_tree _ _ _ _ _ Hs))|done].
  apply found_default, Forall2_last_rel, Forall2_filter_rel; [by eapply entries_in|].
  intros y e _ Hy. by rewrite (cmp_entry y e Hy).
Qed.
End answers.

Lemma get_val_found (s : kvstate K V) l x e : found s l x (Some e) ->
  wp (get_val x) s (fun v s' => s' = s /\ val_of s !! x = Some v /\ Rv v e.2).
Proof.
  intros (_ & _ & _ & v & Hv & HR). unfold get_val. apply wp_bind, wp_gets.
  by eapply wp_of_option.
Qed.

(** [out] is the value handed out with the node. *)
Definition value_rel (out : option V) (e : option (K * W)) : Prop :=
  option_Forall2 (fun v (e : K * W) => Rv v e.2) out e.

(** Deleting a key that was put in changes nothing else. *)
Lemma found_agree (s s' : kvstate K V) l x e : found s l x e ->
  (forall y, y ∈ l -> key_of s' !! y = key_of s !! y /\ val_of s' !! y = val_of s !! y) -> found s' l x e.
Proof.
  unfold found, entry. destruct e as [e|]; [|done]. intros (Hx & Hx0 & He) Ha.
  destruct (Ha x Hx) as [-> ->]. done.
Qed.
Lemma free_keeps x n s l al (Q : kvstate K V -> Prop) : kv_at {[x]} n s l al ->
  (forall s', kv_at ∅ n s' l al -> (forall y, y ∈ l -> key_of s' !! y = key_of s !! y /\
     val_of s' !! y = val_of s !! y) -> Q s') ->
  wp (free_node x) s (fun _ => Q).
Proof using H0 CmpOrder0.
  intros Ha HQ. assert (Hx : x ∉ l) by (destruct Ha; set_solver).
  pose proof (free_spec ∅ x n s l al) as Hf. rewrite union_empty_r_L in Hf.
  specialize (Hf Ha ltac:(set_solver)). unfold wp in *. unfold free_node in *.
  unfold mbind, St_bind, gets, of_option, modify in *. cbn in *.
  destruct (st_heap (kv_rb s) !! x); cbn in *; [|done]. apply HQ; [done|]. cbn.
  intros y Hy. by rewrite !lookup_delete_ne by congruence.
Qed.

Lemma kv_search_spec look (op : Z -> rb_op) (ans : K -> list (K * W) -> option (K * W)) k n s l al :
  kv_at ∅ n s l al ->
  (forall cmp x, look cmp x = rb_exec cmp (op x)) ->
  (forall cmp D x, rb_ok cmp D (op x) l) -> (forall cmp x, (rb_spec cmp (op x) l).2 = l) ->
  (forall T s x, kv_at T n s l al -> key_of s !! x = Some k ->
     found s l (rb_spec (cmp_of s) (rb_as_coded (op x)) l).1 (ans k al)) ->
  wp (kv_search kcmp look k) s (fun r s' => kv_at ∅ n s' l al /\ found s' l r.1 (ans k al) /\
    value_rel r.2 (ans k al)).
Proof using H0 CmpOrder0.
  intros Hs Hlook Hok Hl Hans. unfold kv_search. apply wp_bind.
  eapply wp_mono; [by apply new_temp|]. intros x s1 (Hs1 & Hax & Hk1).
  apply wp_bind. eapply wp_mono; [eapply (on_tree_read (op x)); [exact Hs1|..]; auto|].
  intros r s2 (-> & Hs2 & Ek & Ev).
  assert (Hf : found s2 l (rb_spec (cmp_of s1) (rb_as_coded (op x)) l).1 (ans k al)).
  { rewrite <- Ek. eapply Hans; [exact Hs2|]. by rewrite Ek. }
  set (r := (rb_spec (cmp_of s1) (rb_as_coded (op x)) l).1) in *. clearbody r. clear Ek Ev Hs Hs1 Hk1 s s1.
  apply wp_bind. destruct (ans k al) as [e|] eqn:Ea.
  - pose proof Hf as (_ & Hr & _). rewrite (proj2 (Z.eqb_neq r 0)) by done. cbn [negb].
    apply wp_bind. eapply wp_mono; [by eapply get_val_found|]. intros v s3 (-> & _ & Hv).
    apply wp_ret, wp_bind. eapply free_keeps; [exact Hs2|]. intros s' Hs' Hkeep. apply wp_ret.
    split; [done|]. split; [by eapply found_agree|]. by constructor.
  - cbn in Hf. subst r. cbn. apply wp_ret, wp_bind. eapply free_keeps; [exact Hs2|].
    intros s' Hs' Hkeep. apply wp_ret. split; [done|]. split; [done|]. constructor.
Qed.
Lemma kv_find_spec k n s l al : kv_at ∅ n s l al ->
  wp (kv_find kcmp k) s (fun r s' => kv_at ∅ n s' l al /\ found s' l r.1 (al_find kcmp k al) /\
    value_rel r.2 (al_find kcmp k al)).
Proof using H0 CmpOrder0. intros Hs. apply (kv_search_spec _ OFind); try done. intros. by eapply found_find. Qed.
Lemma kv_find_near_prev_spec k n s l al : kv_at ∅ n s l al ->
  wp (kv_find_near_prev kcmp k) s (fun r s' => kv_at ∅ n s' l al /\ found s' l r.1 (al_floor kcmp k al) /\
    value_rel r.2 (al_floor kcmp k al)).
Proof using H0 CmpOrder0. intros Hs. apply (kv_search_spec _ ONearPrev); try done. intros. by eapply found_floor. Qed.
Lemma kv_find_near_next_spec k n s l al : kv_at ∅ n s l al ->
  wp (kv_find_near_next kcmp k) s (fun r s' => kv_at ∅ n s' l al /\ found s' l r.1 (al_floor kcmp k al) /\
    value_rel r.2 (al_floor kcmp k al)).
Proof using H0 CmpOrder0. intros Hs. apply (kv_search_spec _ ONearNext); try done. intros. by eapply found_floor. Qed.

(** ** Removing a node *)
Lemma Forall2_without s l al x k n T : kv_at T n s l al -> x ∈ l -> key_of s !! x = Some k ->
  Forall2 (entry (key_of s) (val_of s)) (without x l) (al_remove kcmp k al).
Proof using CmpOrder0.
  intros Hs Hx Hk. pose proof (at_tree _ _ _ _ _ Hs) as Ht.
  pose proof (entries_in _ _ _ _ _ Hs) as He. eapply Forall2_impl.
  - apply (Forall2_filter_rel (fun x e => found s l x (Some e)) _ (fun e => kcmp k e.1 <> 0) l al He).
    intros y e Hy Hye. rewrite <- (cmp_entry s l x k Hk y e Hye). split; intros Hne Heq; apply Hne.
    + eapply (ordered_unique (cmp_of s)); [by eapply holds_ordered|done|done|exact Heq|]. apply (cmp_refl (cmp_of s)).
    + subst y. apply (cmp_refl (cmp_of s)).
  - intros y e (_ & _ & ?). done.
Qed.
Lemma list_to_set_without (x : Z) l : x ∈ l -> list_to_set (C := gset Z) l = {[x]} ∪ list_to_set (without x l).
Proof.
  intros Hx. apply set_eq. intros y. unfold without.
  rewrite elem_of_union, elem_of_singleton, !elem_of_list_to_set, list_elem_of_filter.
  destruct (decide (y = x)); naive_solver.
Qed.

Lemma kv_drop_spec x e n s l al : kv_at ∅ n s l al -> found s l x (Some e) ->
  wp (kv_drop kcmp x) s (fun v s' => Rv v e.2 /\ kv_at ∅ n s' (without x l) (al_remove kcmp e.1 al)).
Proof using H0 CmpOrder0.
  intros Hs Hf. pose proof Hf as (Hx & _ & Hk & _). unfold kv_drop. apply wp_bind.
  pose proof (Forall2_without s l al x e.1 n ∅ Hs Hx Hk) as Hal. pose proof Hs as [Ht He Hh Hkd Hv _ Hn].
  eapply wp_mono; [by apply (on_tree_spec (ODetach x) _ ∅ s l)|].
  intros r s1 (rb & -> & -> & Hrb & Hd). cbn in Hrb.
  apply wp_bind. eapply wp_mono; [by apply (get_val_found (set_rb s rb) l x e)|]. intros v s2 (-> & _ & HR).
  apply wp_bind. rewrite (list_to_set_without x l Hx) in Hh, Hkd, Hv.
  assert (Hxw : x ∉ without x l) by (unfold without; rewrite list_elem_of_filter; tauto).
  eapply wp_mono; [apply (free_spec ∅ x n _ (without x l) (al_remove kcmp e.1 al))|intros ? s3 Hs3; by apply wp_ret].
  - split; cbn; [done|done|by rewrite Hd, union_empty_r_L, Hh, union_empty_l_L| | | |done].
    + by rewrite Hkd, union_empty_r_L, union_empty_l_L.
    + set_solver.
    + set_solver.
  - set_solver.
Qed.

Lemma wp_add_len d (s : kvstate K V) (Q : unit -> kvstate K V -> Prop) : - 2 ^ 31 <= kv_len s + d < 2 ^ 31 ->
  Q tt (mk_kvstate (kv_rb s) (key_of s) (val_of s) (kv_len s + d)) -> wp (add_len d) s Q.
Proof.
  intros Hd HQ. unfold add_len. apply wp_bind, wp_gets, wp_bind.
  eapply wp_of_option; [by apply as_int_Some|]. by apply wp_modify.
Qed.
Lemma add_len_spec d T n s l al : kv_at T n s l al -> - 2 ^ 31 <= n + d < 2 ^ 31 ->
  wp (add_len d) s (fun _ s' => kv_at T (n + d) s' l al).
Proof. intros [Ht He Hh Hk Hv HT <-] Hd. by apply wp_add_len. Qed.
Lemma kv_delete_node_spec x e n s l al : kv_at ∅ n s l al -> found s l x (Some e) -> 0 < n <= int_max ->
  wp (kv_delete_node kcmp x) s (fun v s' => Rv v e.2 /\
    kv_at ∅ (n - 1) s' (without x l) (al_remove kcmp e.1 al)).
Proof using H0 CmpOrder0.
  intros Hs Hf Hn. unfold kv_delete_node, int_max in *. apply wp_bind.
  eapply wp_mono; [by eapply kv_drop_spec|]. intros v s1 [HR Hs1].
  apply wp_bind. eapply wp_mono; [eapply add_len_spec; [exact Hs1|lia]|].
  intros ? s2 Hs2. apply wp_ret. by split.
Qed.

(** ** Changing a value *)
Lemma found_unique T n s l al x y e e' k : kv_at T n s l al -> found s l x (Some e) -> found s l y (Some e') ->
  kcmp k e.1 = 0 -> kcmp k e'.1 = 0 -> y = x.
Proof using CmpOrder0.
  intros Hs Hx Hy He He'. eapply (ordered_unique (cmp_of s) l y x x).
  - by eapply holds_ordered, at_tree.
  - apply Hy.
  - apply Hx.
  - rewrite (cmp_entry s l x e.1 (proj1 (proj2 (proj2 Hx))) y e' Hy).
    eapply cmp_eq_trans; [|exact He']. by apply cmp_eq_sym.
  - apply (cmp_refl (cmp_of s)).
Qed.
Lemma wp_set_val x v (s : kvstate K V) (Q : unit -> kvstate K V -> Prop) : x ∈ dom (st_heap (kv_rb s)) ->
  Q tt (mk_kvstate (kv_rb s) (key_of s) (<[x := v]> (val_of s)) (kv_len s)) -> wp (set_val x v) s Q.
Proof.
  intros [nd Hx]%elem_of_dom HQ. unfold set_val. apply wp_bind, wp_gets, wp_bind.
  eapply wp_of_option; [exact Hx|]. by apply wp_modify.
Qed.
Lemma set_val_spec x e k v w T n s l al : kv_at T n s l al -> found s l x (Some e) -> kcmp k e.1 = 0 -> Rv v w ->
  wp (set_val x v) s (fun _ s' => kv_at T n s' l (al_set kcmp k w al) /\ found s' l x (Some (e.1, w))).
Proof using H0 CmpOrder0.
  intros Hs Hx Hk HR. pose proof Hs as [Ht He Hh Hkd Hv HT Hn]. pose proof Hx as (Hxl & Hx0 & Hxk & _).
  apply wp_set_val; [rewrite Hh; set_solver|]. split.
  - split; cbn; try done.
    + unfold al_set. apply Forall2_fmap_r. eapply Forall2_mono_in; [by eapply entries_in|].
      intros y e' _ Hy. pose proof Hy as (_ & _ & Hyk & v' & Hyv & HR'). cbn.
      destruct (Z.eqb_spec (kcmp k e'.1) 0) as [Heq|Hne].
      * assert (y = x) as -> by (by apply (found_unique T n s l al x y e e' k)). split; [done|]. exists v.
        by rewrite lookup_insert_eq.
      * split; [done|]. exists v'. rewrite lookup_insert_ne; [done|]. intros ->.
        assert (e.1 = e'.1) by congruence. congruence.
    + rewrite dom_insert_L. set_solver.
  - split; [done|]. split; [done|]. split; [done|]. exists v. cbn. by rewrite lookup_insert_eq.
Qed.
Lemma kv_node_update_spec x e v w n s l al : kv_at ∅ n s l al -> found s l x (Some e) -> Rv v w ->
  wp (kv_node_update x v) s (fun old s' => Rv old e.2 /\ kv_at ∅ n s' l (al_set kcmp e.1 w al)).
Proof using H0 CmpOrder0.
  intros Hs Hx HR. unfold kv_node_update. apply wp_bind.
  eapply wp_mono; [by eapply get_val_found|]. intros old s1 (-> & _ & HR0). apply wp_bind.
  eapply wp_mono; [eapply (set_val_spec x e e.1 v w); try done; by apply cmp_refl|].
  intros ? s2 [Hs2 _]. apply wp_ret. by split.
Qed.

(** ** Insertion *)
Lemma insert_ordered_elems (cmp : Z -> Z -> Z) x l y : y ∈ insert_ordered cmp x l <-> y = x \/ y ∈ l.
Proof. induction l as [|a l IH]; simpl; [set_solver|]. destruct (cmp x a <? 0); set_solver. Qed.
(** The local node [x] linked into the tree, then replaced by the new node. *)
Lemma inserted_entries (cmp : Z -> Z -> Z) (R : Z -> K * W -> Prop) x np k w l al : x ∉ l ->
  Forall2 R l al -> (forall y e, y ∈ l -> R y e -> cmp x y = kcmp k e.1) ->
  Forall2 (fun y e => (y = np /\ e = (k, w)) \/ (y ∈ l /\ R y e))
    (replaced x np (insert_ordered cmp x l)) (al_insert kcmp k w al).
Proof using H0 CmpOrder0.
  intros Hx He Hc. induction He as [|y e l al Hye He IH]; simpl.
  { rewrite Z.eqb_refl. constructor; [by left|constructor]. }
  rewrite (Hc y e) by (done || by left). destruct (kcmp k e.1 <? 0); simpl.
  - rewrite Z.eqb_refl. constructor; [by left|]. constructor; [right; split; [by left|done]|].
    eapply Forall2_mono_in; [exact He|]. intros. right. split; [by right|done].
  - apply notin_cons in Hx as [Hxy Hx]. rewrite (proj2 (Z.eqb_neq y x)) by congruence.
    constructor; [right; split; [by left|done]|].
    eapply Forall2_impl; [apply IH; [done|]; intros; apply Hc; [by right|done]|].
    intros z e' [?|[? ?]]; [by left|right; split; [by right|done]].
Qed.
Lemma inserted_nodes (cmp : Z -> Z -> Z) x np l : x ∉ l ->
  list_to_set (C := gset Z) (replaced x np (insert_ordered cmp x l)) = {[np]} ∪ list_to_set l.
Proof using H0 CmpOrder0.
  intros Hx. induction l as [|y l IH]; simpl; [by rewrite Z.eqb_refl|].
  apply notin_cons in Hx as [Hxy Hx]. destruct (cmp x y <? 0); simpl.
  - by rewrite Z.eqb_refl.
  - rewrite (proj2 (Z.eqb_neq y x)) by congruence. simpl. rewrite IH by done. set_solver.
Qed.

(** The value the code stores when it finds the key, or does not. *)
Definition assigns (assign : option V -> option V) (w : W) : Prop :=
  (exists v, assign None = Some v /\ Rv v w) /\
  (forall v0 w0, Rv v0 w0 -> exists v, assign (Some v0) = Some v /\ Rv v w).

Lemma on_tree_replace D x y (s : kvstate K V) l : holds (cmp_of s) (kv_rb s) l ->
  D ⊆ dom (st_heap (kv_rb s)) -> (forall x, x ∈ D -> addr x) -> rb_ok (cmp_of s) D (OReplace x y) l ->
  wp (on_tree kcmp (fun _ => zrbtree_replace_node x y)) s (fun _ s' => exists rb, s' = set_rb s rb /\
    holds (cmp_of s) rb (replaced x y l) /\ dom (st_heap rb) = dom (st_heap (kv_rb s))).
Proof using CmpOrder0.
  intros Hs HD HA Hok. pose proof (on_tree_spec (OReplace x y) (fun _ => zrbtree_replace_node x y;; mret 0) D s l) as H'.
  specialize (H' (fun _ => eq_refl) Hs HD HA Hok). revert H'. unfold wp, on_tree, focus, mbind, St_bind, gets. cbn.
  destruct (zrbtree_replace_node x y (kv_rb s)) as [[u rb]|]; cbn; [|done].
  intros (rb' & E & _ & Hrb & Hd). exists rb'. done.
Qed.

Lemma kv_install_spec assign w x k n s rb l al : kv_temp x k n s l al -> assigns assign w -> 0 <= n < int_max ->
  holds (cmp_of s) rb (insert_ordered (cmp_of s) x l) -> dom (st_heap rb) = dom (st_heap (kv_rb s)) ->
  wp (kv_install kcmp x k assign) (set_rb s rb) (fun r s' => exists l', kv_at {[x]} (n + 1) s' l' (al_insert kcmp k w al) /\
    r.2 = None /\ found s' l' r.1 (Some (k, w))).
Proof using H0 CmpOrder0.
  intros (Hs & Hax & Hkx) [(v & Hv & HR) _] Hn Hrb Hd. unfold int_max in Hn. unfold kv_install.
  pose proof Hs as [Ht He Hh Hkd Hvd HT Hlen]. assert (Hxl : x ∉ l) by set_solver.
  apply wp_bind. eapply wp_mono; [by apply (new_node_spec k (set_rb s rb))|].
  intros np s2 (Hnp & Hanp & Ht2 & Hh2 & Hk2 & Hv2 & Hn2). cbn in Hnp, Hh2, Hk2, Hv2, Hn2.
  rewrite Hd, Hh in Hnp, Hh2. assert (Hnx : np <> x) by set_solver.
  apply wp_bind. eapply wp_of_option; [exact Hv|]. apply wp_bind, wp_set_val; [rewrite Hh2; set_solver|].
  apply wp_bind. set (l1 := insert_ordered (cmp_of s) x l) in *.
  assert (Hx1 : x ∈ l1) by (apply insert_ordered_elems; by left).
  assert (Hnp1 : np ∉ l1) by (unfold l1; rewrite insert_ordered_elems; set_solver).
  eapply wp_mono; [apply (on_tree_replace {[np]} x np _ l1); cbn; [exact Ht2|set_solver| |]|].
  { by intros y ->%elem_of_singleton. }
  { split; [done|]. split; [set_solver|]. split; [done|]. rewrite Hk2.
    rewrite (kv_cmp_keys _ x np k k); [apply cmp_refl; exact _| |by rewrite lookup_insert_eq].
    by rewrite lookup_insert_ne by done. }
  intros ? s3 (rb3 & -> & Hrb3 & Hd3). cbn in Hrb3, Hd3. set (l2 := replaced x np l1) in *.
  pose proof (inserted_nodes (cmp_of s) x np l Hxl) as Hl2. fold l1 l2 in Hl2.
  assert (Hfin : kv_at {[x]} n (set_rb (mk_kvstate (kv_rb s2) (key_of s2) (<[np:=v]> (val_of s2)) (kv_len s2)) rb3)
    l2 (al_insert kcmp k w al)).
  { split; cbn; [done| |rewrite Hd3, Hh2, Hl2; set_solver|rewrite Hk2, dom_insert_L, Hl2; set_solver
                 |rewrite Hv2, dom_insert_L, Hl2; set_solver|rewrite Hl2; set_solver|by rewrite Hn2].
    eapply Forall2_impl; [apply (inserted_entries (cmp_of s) _ x np k w l al Hxl (entries_in _ _ _ _ _ Hs))|].
    - intros y e _ Hy. by apply (cmp_entry s l x k Hkx).
    - rewrite Hk2, Hv2. intros y e [[-> ->]|(Hy & _ & _ & Hye & v' & Hyv & HR')]; (split; cbn).
      + by rewrite lookup_insert_eq.
      + exists v. by rewrite lookup_insert_eq.
      + rewrite lookup_insert_ne by set_solver. done.
      + exists v'. rewrite lookup_insert_ne by set_solver. done. }
  assert (Hfound : forall s', key_of s' = key_of s2 -> val_of s' = <[np:=v]> (val_of s2) ->
    found s' l2 np (Some (k, w))).
  { intros s' Ek Ev. split; [rewrite <- (elem_of_list_to_set (C := gset Z)), Hl2; set_solver|].
    split; [destruct Hanp; lia|]. split; cbn; [by rewrite Ek, Hk2, lookup_insert_eq|].
    exists v. by rewrite Ev, lookup_insert_eq. }
  apply wp_bind, wp_add_len; [cbn; rewrite Hn2, Hlen; lia|]. apply wp_ret. exists l2.
  split; [destruct Hfin; split; try done; cbn; congruence|]. split; [done|]. by apply Hfound.
Qed.

Lemma kv_update_spec assign w k s al : kv_rep s al -> assigns assign w -> zlen al < int_max ->
  wp (kv_update kcmp k assign) s (fun r s' => exists l', kv_at ∅ (zlen (al_update kcmp k w al)) s' l' (al_update kcmp k w al) /\
    found s' l' r.1 (al_find kcmp k (al_update kcmp k w al)) /\ value_rel r.2 (al_find kcmp k al)).
Proof using H0 CmpOrder0.
  intros [l Hs] Has Hlen. unfold kv_update. apply wp_bind.
  eapply wp_mono; [by apply new_temp|]. intros x s1 Hs1. pose proof Hs1 as (Ha1 & Hax & Hk1).
  pose proof (found_find _ _ _ _ _ _ _ Ha1 Hk1) as Hf. pose proof Ha1 as [Ht He Hh Hkd Hvd HT Hn].
  apply wp_bind. eapply wp_mono; [apply (on_tree_spec (OAttach x) _ {[x]} s1 l); [done|done|set_solver| |split; set_solver]|].
  { by intros y ->%elem_of_singleton. }
  intros r s2 (rb & -> & -> & Hrb & Hd). cbn in Hrb |- *.
  unfold al_update. destruct (al_find kcmp k al) as [e|] eqn:Ee.
  - destruct (find_eq (cmp_of s1) x l) as [y|] eqn:Ey; cbn in Hf, Hrb |- *; [|by destruct Hf as (_ & ? & _)].
    pose proof Hf as (Hy & Hy0 & _). rewrite (proj2 (Z.eqb_neq y x)) by (intros ->; set_solver). cbn [negb].
    assert (Hs2 : kv_at {[x]} (zlen al) (set_rb s1 rb) l al) by (split; try done; cbn; by rewrite Hd).
    apply wp_bind, wp_bind. eapply wp_mono; [eapply (get_val_found (set_rb s1 rb) l); exact Hf|].
    intros old s3 (-> & _ & HR). apply wp_bind. destruct Has as [_ Hset].
    destruct (Hset old e.2 HR) as (v & Hv & HRv). eapply wp_of_option; [exact Hv|].
    assert (Hke : kcmp k e.1 = 0) by (apply find_some in Ee as [_ ?]; lia).
    apply wp_bind. eapply wp_mono; [by apply (set_val_spec y e k v w {[x]} (zlen al) (set_rb s1 rb) l al)|].
    intros ? s4 [Hs4 Hf4]. apply wp_ret, wp_bind.
    eapply free_keeps; [exact Hs4|]. intros s5 Hs5 Hkeep. apply wp_ret. exists l.
    rewrite zlen_al_set, al_find_set, Ee. split; [done|]. split; [|by constructor].
    eapply found_agree; [exact Hf4|exact Hkeep].
  - assert (find_eq (cmp_of s1) x l = None) as Ey.
    { destruct (find_eq (cmp_of s1) x l) as [y|] eqn:E; [|done]. cbn in Hf. subst y.
      apply find_eq_elem in E. by destruct (holds_addr _ _ _ _ Ht E). }
    rewrite Ey in Hrb |- *. cbn in Hrb |- *. rewrite Z.eqb_refl. cbn [negb]. apply wp_bind.
    eapply wp_mono; [eapply (kv_install_spec assign w x k (zlen al) s1 rb l al); try done|].
    { pose proof (zlen_nonneg al). lia. }
    intros r s3 (l' & Hs3 & Hr2 & Hf3). apply wp_bind. eapply free_keeps; [exact Hs3|].
    intros s4 Hs4 Hkeep. apply wp_ret. exists l'. rewrite Hr2. rewrite zlen_al_insert, al_find_insert by done.
    split; [done|]. split; [|constructor]. by eapply found_agree.
Qed.
End keyed_spec.
