(* ===== verification/KeyedRefine.v ===== *)
(** * Keyed nodes: runs of operations against the association list *)
From stdpp Require Import gmap sorting.
From S2P Require Import Prelude StateMonad Rbtree RbShape Rbset Rbops RbRefine Keyed KeyedSpec.

(** Keys that compare equal are the same key to every operation of the list. *)
Section same_key.
Context {K W : Type} (kcmp : K -> K -> Z) `{!CmpOrder kcmp} (k k' : K).
Hypothesis Hk : kcmp k k' = 0.
Lemma cmp_same (a : K) : (kcmp k a = 0 <-> kcmp k' a = 0) /\ (kcmp k a < 0 <-> kcmp k' a < 0) /\
  (0 < kcmp k a <-> 0 < kcmp k' a).
Proof using Hk CmpOrder0.
  assert (Hk' : kcmp k' k = 0) by (by apply cmp_eq_sym).
  assert (Heq : kcmp k a = 0 <-> kcmp k' a = 0) by (split; intros; by eapply cmp_eq_trans).
  assert (Hlt : kcmp k a < 0 <-> kcmp k' a < 0) by (split; intros; by eapply cmp_eq_lt).
  split; [done|]. split; [done|]. lia.
Qed.
Lemma al_remove_same (al : list (K * W)) : al_remove kcmp k al = al_remove kcmp k' al.
Proof using Hk CmpOrder0. apply list_filter_iff. intros e. destruct (cmp_same e.1) as (? & _). tauto. Qed.
Lemma al_set_same w (al : list (K * W)) : al_set kcmp k w al = al_set kcmp k' w al.
Proof using Hk CmpOrder0.
  apply list_fmap_ext. intros _ e _. destruct (cmp_same e.1) as (He & _).
  destruct (Z.eqb_spec (kcmp k e.1) 0), (Z.eqb_spec (kcmp k' e.1) 0); tauto.
Qed.
Lemma al_next_same (al : list (K * W)) : al_next kcmp k al = al_next kcmp k' al.
Proof using Hk CmpOrder0. unfold al_next. f_equal. apply list_filter_iff. intros e. by destruct (cmp_same e.1) as (_ & ? & _). Qed.
Lemma al_prev_same (al : list (K * W)) : al_prev kcmp k al = al_prev kcmp k' al.
Proof using Hk CmpOrder0. unfold al_prev. f_equal. apply list_filter_iff. intros e. by destruct (cmp_same e.1) as (_ & _ & ?). Qed.
End same_key.
Lemma al_find_key {K W} (kcmp : K -> K -> Z) k (al : list (K * W)) e : al_find kcmp k al = Some e ->
  kcmp k e.1 = 0 /\ e ∈ al.
Proof. intros [? ?]%find_some. split; [lia|by apply list_elem_of_In]. Qed.
Lemma al_find_None {K W} (kcmp : K -> K -> Z) k (al : list (K * W)) : al_find kcmp k al = None ->
  forall e, e ∈ al -> kcmp k e.1 <> 0.
Proof. intros Hf e He. pose proof (find_none _ _ Hf e) as H. rewrite <- list_elem_of_In in H. specialize (H He). lia. Qed.
Lemma al_remove_none {K W} (kcmp : K -> K -> Z) k (al : list (K * W)) : al_find kcmp k al = None ->
  al_remove kcmp k al = al.
Proof. intros Hf. apply filter_every. by apply al_find_None. Qed.
Lemma al_set_none {K W} (kcmp : K -> K -> Z) k w (al : list (K * W)) : al_find kcmp k al = None ->
  al_set kcmp k w al = al.
Proof.
  intros Hf. unfold al_set. etrans; [|apply list_fmap_id]. apply list_fmap_ext. intros i e He.
  apply list_elem_of_lookup_2 in He. apply (al_find_None _ _ _ Hf) in He. by rewrite (proj2 (Z.eqb_neq _ _) He).
Qed.
Lemma zlen_without x l : NoDup l -> x ∈ l -> zlen (without x l) = zlen l - 1.
Proof.
  intros Hnd (a & b & ->)%list_elem_of_split. rewrite without_at by done. rewrite !zlen_app, zlen_cons. lia.
Qed.

(** ** The interface the four modules share *)
Record keyed_api (K V A : Type) := mk_keyed_api {
  api_create : kvstate K V;
  api_update : K -> A -> St (kvstate K V) (Z * option V);
  api_find : K -> St (kvstate K V) (Z * option V);
  api_find_near_prev : K -> St (kvstate K V) (Z * option V);
  api_find_near_next : K -> St (kvstate K V) (Z * option V);
  api_delete : K -> St (kvstate K V) (option V);
  api_delete_node : Z -> St (kvstate K V) V;
  api_node_update : option (Z -> V -> St (kvstate K V) V);
  api_first : St (kvstate K V) Z;
  api_last : St (kvstate K V) Z;
  api_next : Z -> St (kvstate K V) Z;
  api_prev : Z -> St (kvstate K V) Z;
  api_len : St (kvstate K V) Z;
  api_reset : St (kvstate K V) unit;
  api_free : St (kvstate K V) unit;
  api_walk : St (kvstate K V) (list (K * V))
}.
Arguments mk_keyed_api {K V A} _ _ _ _ _ _ _ _ _ _ _ _ _ _ _ _.
Arguments api_create {K V A} _.
Arguments api_update {K V A} _ _ _.
Arguments api_find {K V A} _ _.
Arguments api_find_near_prev {K V A} _ _.
Arguments api_find_near_next {K V A} _ _.
Arguments api_delete {K V A} _ _.
Arguments api_delete_node {K V A} _ _.
Arguments api_node_update {K V A} _.
Arguments api_first {K V A} _.
Arguments api_last {K V A} _.
Arguments api_next {K V A} _ _.
Arguments api_prev {K V A} _ _.
Arguments api_len {K V A} _.
Arguments api_reset {K V A} _.
Arguments api_free {K V A} _.
Arguments api_walk {K V A} _.

(** What a client does; a node is named by the key it is found under. *)
Inductive kv_op (K V A : Type) :=
  | KUpdate (k : K) (a : A) | KFind (k : K) | KNearPrev (k : K) | KNearNext (k : K)
  | KDelete (k : K) | KDeleteNode (k : K) | KNodeUpdate (k : K) (v : V) | KFirst | KLast | KNext (k : K)
  | KPrev (k : K) | KLen | KReset | KWalk.
Arguments KUpdate {K V A} _ _.
Arguments KFind {K V A} _.
Arguments KNearPrev {K V A} _.
Arguments KNearNext {K V A} _.
Arguments KDelete {K V A} _.
Arguments KDeleteNode {K V A} _.
Arguments KNodeUpdate {K V A} _ _.
Arguments KFirst {K V A}.
Arguments KLast {K V A}.
Arguments KNext {K V A} _.
Arguments KPrev {K V A} _.
Arguments KLen {K V A}.
Arguments KReset {K V A}.
Arguments KWalk {K V A}.
(** What it is told: the key and value of the node answered, a value handed out. *)
Inductive kv_res (K V : Type) :=
  | KNode (e : option (K * V)) (out : option V) | KOut (out : option V) | KNum (n : Z)
  | KAll (al : list (K * V)) | KDone.
Arguments KNode {K V} _ _.
Arguments KOut {K V} _.
Arguments KNum {K V} _.
Arguments KAll {K V} _.
Arguments KDone {K V}.

(** An operation on the node found under a key; nothing when there is none. *)
Definition on_node {K V B} (find : K -> St (kvstate K V) (Z * option V)) (k : K) (none : B) (f : Z -> St (kvstate K V) B) :
    St (kvstate K V) B :=
  r ← find k; if fst r =? 0 then mret none else f r.1.

Section runs.
Context {K V A : Type} (api : keyed_api K V A).
Abbreviation KM := (St (kvstate K V)).

(** [node_key(n)] and [node_value(n)] *)
Definition node_entry (n : Z) : KM (option (K * V)) :=
  if n =? 0 then mret None else
  keys ← gets key_of; k ← of_option (keys !! n); v ← get_val n; mret (Some (k, v)).
Definition kv_answer (r : Z * option V) : KM (kv_res K V) := e ← node_entry r.1; mret (KNode e r.2).
Definition kv_exec (op : kv_op K V A) : KM (kv_res K V) :=
  match op with
  | KUpdate k a => r ← api_update api k a; kv_answer r
  | KFind k => r ← api_find api k; kv_answer r
  | KNearPrev k => r ← api_find_near_prev api k; kv_answer r
  | KNearNext k => r ← api_find_near_next api k; kv_answer r
  | KDelete k => o ← api_delete api k; mret (KOut o)
  | KDeleteNode k => o ← on_node (api_find api) k None (fun n => v ← api_delete_node api n; mret (Some v)); mret (KOut o)
  | KNodeUpdate k v =>
      f ← of_option (api_node_update api);
      o ← on_node (api_find api) k None (fun n => old ← f n v; mret (Some old)); mret (KOut o)
  | KFirst => n ← api_first api; kv_answer (n, None)
  | KLast => n ← api_last api; kv_answer (n, None)
  | KNext k => n ← on_node (api_find api) k 0 (api_next api); kv_answer (n, None)
  | KPrev k => n ← on_node (api_find api) k 0 (api_prev api); kv_answer (n, None)
  | KLen => n ← api_len api; mret (KNum n)
  | KReset => api_reset api;; mret KDone
  | KWalk => al ← api_walk api; mret (KAll al)
  end.
Fixpoint kv_exec_all (ops : list (kv_op K V A)) : KM (list (kv_res K V)) :=
  match ops with
  | [] => mret []
  | op :: ops' => r ← kv_exec op; rs ← kv_exec_all ops'; mret (r :: rs)
  end.
End runs.

(** Two ways to write the same update give the same runs. *)
Definition with_update {K V A} (api : keyed_api K V A) (update : K -> A -> St (kvstate K V) (Z * option V)) :
    keyed_api K V A :=
  mk_keyed_api (api_create api) update (api_find api) (api_find_near_prev api) (api_find_near_next api)
    (api_delete api) (api_delete_node api) (api_node_update api) (api_first api) (api_last api) (api_next api)
    (api_prev api) (api_len api) (api_reset api) (api_free api) (api_walk api).
Lemma kv_exec_all_update {K V A} (api : keyed_api K V A) update :
  (forall k a, update k a = api_update api k a) ->
  forall ops s, kv_exec_all (with_update api update) ops s = kv_exec_all api ops s.
Proof.
  intros He. induction ops as [|op ops IH]; intros s; [done|]. cbn [kv_exec_all].
  assert (E : kv_exec (with_update api update) op = kv_exec api op) by (destruct op; cbn; rewrite ?He; done).
  rewrite E. unfold mbind, St_bind. destruct (kv_exec api op s) as [[r s']|]; [|done]. by rewrite IH.
Qed.

(** The same on the association list, as doc/dict.md and doc/map.md describe it: [absA] and [absV] are the values that the
    argument of an update and a value of the code stand for. *)
Section spec.
Context {K V A W : Type} (kcmp : K -> K -> Z) (absA : A -> W) (absV : V -> W).
Definition kv_spec (op : kv_op K V A) (al : list (K * W)) : kv_res K W * list (K * W) :=
  let out (e : option (K * W)) := snd <$> e in
  match op with
  | KUpdate k a => let al' := al_update kcmp k (absA a) al in
                   (KNode (al_find kcmp k al') (out (al_find kcmp k al)), al')
  | KFind k => (KNode (al_find kcmp k al) (out (al_find kcmp k al)), al)
  | KNearPrev k => (KNode (al_floor kcmp k al) (out (al_floor kcmp k al)), al)
  | KNearNext k => (KNode (al_ceiling kcmp k al) (out (al_ceiling kcmp k al)), al)
  | KDelete k | KDeleteNode k => (KOut (out (al_find kcmp k al)), al_remove kcmp k al)
  | KNodeUpdate k v => (KOut (out (al_find kcmp k al)), al_set kcmp k (absV v) al)
  | KFirst => (KNode (head al) None, al)
  | KLast => (KNode (last al) None, al)
  | KNext k => (KNode (_ ← al_find kcmp k al; al_next kcmp k al) None, al)
  | KPrev k => (KNode (_ ← al_find kcmp k al; al_prev kcmp k al) None, al)
  | KLen => (KNum (zlen al), al)
  | KReset => (KDone, [])
  | KWalk => (KAll al, al)
  end.
Fixpoint kv_spec_all (ops : list (kv_op K V A)) (al : list (K * W)) : list (kv_res K W) * list (K * W) :=
  match ops with
  | [] => ([], al)
  | op :: ops' => let (r, al') := kv_spec op al in
                  let (rs, al'') := kv_spec_all ops' al' in (r :: rs, al'')
  end.
End spec.
(** The one operation that does not answer as described: the search for the next
    key answers what the search for the previous key does. *)
Definition kv_as_coded {K V A} (op : kv_op K V A) : kv_op K V A :=
  match op with KNearNext k => KNearPrev k | _ => op end.
Lemma kv_as_coded_list {K V A W} (kcmp : K -> K -> Z) absA absV (op : kv_op K V A) (al : list (K * W)) :
  (kv_spec kcmp absA absV (kv_as_coded op) al).2 = (kv_spec kcmp absA absV op al).2.
Proof. by destruct op. Qed.
Lemma kv_as_coded_id {K V A} (ops : list (kv_op K V A)) : Forall (fun op => forall k, op <> KNearNext k) ops ->
  kv_as_coded <$> ops = ops.
Proof. induction 1 as [|op ops Hop _ IH]; [done|]. cbn. rewrite IH. f_equal. destruct op; try done. by edestruct Hop. Qed.

(** The generic program as an instance of the interface. *)
Definition kv_api {K V A} `{!Inhabited K} (kcmp : K -> K -> Z) `{!Allocator} (assign : A -> option V -> option V)
    (node_update : bool) (reset : St (kvstate K V) unit) : keyed_api K V A :=
  mk_keyed_api kv_create (fun k a => kv_update kcmp k (assign a)) (kv_find kcmp) (kv_find_near_prev kcmp)
    (kv_find_near_next kcmp) (kv_delete kcmp) (kv_delete_node kcmp)
    (if node_update then Some kv_node_update else None) (kv_first kcmp) (kv_last kcmp) (kv_next kcmp)
    (kv_prev kcmp) (gets kv_len) reset (kv_free kcmp) (kv_walk kcmp).

Section refine.
Context {K V A W : Type} `{!Inhabited K} (kcmp : K -> K -> Z) `{!CmpOrder kcmp} `{AllocatorSound}.
Context (Rv : V -> W -> Prop).
Abbreviation at_ := (kv_at kcmp Rv ∅).
Abbreviation found := (KeyedSpec.found Rv).
Abbreviation rep := (kv_rep kcmp Rv).

Lemma at_rep s l al : at_ (zlen al) s l al -> rep s al.
Proof. by exists l. Qed.
Lemma at_len n s l al : at_ n s l al -> zlen l = zlen al.
Proof. intros [_ He _ _ _ _ _]. unfold zlen. by rewrite (Forall2_length _ _ _ He). Qed.
Lemma at_nodup n s l al : at_ n s l al -> NoDup l.
Proof. intros [Ht _ _ _ _ _ _]. by eapply holds_nodup. Qed.

Lemma zlen_al_remove n s l al e x : at_ n s l al -> found s l x (Some e) ->
  zlen (al_remove kcmp e.1 al) = zlen al - 1.
Proof using H0 CmpOrder0.
  intros Hs Hx. pose proof Hx as (Hxl & _ & Hk & _).
  pose proof (Forall2_without kcmp Rv s l al x e.1 n ∅ Hs Hxl Hk) as Hf.
  apply Forall2_length in Hf. pose proof (zlen_without x l (at_nodup _ _ _ _ Hs) Hxl) as Hw.
  rewrite <- (at_len _ _ _ _ Hs), <- Hw. unfold zlen. by rewrite Hf.
Qed.

(** ** Deleting by key *)
Lemma delete_found s l al x e : at_ (zlen al) s l al -> found s l x (Some e) -> zlen al <= int_max ->
  wp (kv_delete_node kcmp x) s (fun v s' => Rv v e.2 /\ rep s' (al_remove kcmp e.1 al)).
Proof using H0 CmpOrder0.
  intros Hs Hx Hmax. assert (Hpos : 0 < zlen al).
  { pose proof (at_len _ _ _ _ Hs). destruct Hx as (Hxl & _). destruct l; [by apply elem_of_nil in Hxl|].
    rewrite zlen_cons in *. pose proof (zlen_nonneg l). lia. }
  eapply wp_mono; [by apply (kv_delete_node_spec kcmp Rv x e (zlen al) s l al)|]. intros v s' [HR Hs']. split; [done|].
  exists (without x l). by rewrite (zlen_al_remove _ _ _ _ _ _ Hs Hx).
Qed.
Lemma on_node_spec {B} (none : B) (f : Z -> St (kvstate K V) B) k s al
    (Q : B -> kvstate K V -> Prop) : rep s al ->
  (al_find kcmp k al = None -> forall s', rep s' al -> Q none s') ->
  (forall e s' l x, al_find kcmp k al = Some e -> kcmp k e.1 = 0 -> at_ (zlen al) s' l al ->
     found s' l x (Some e) -> wp (f x) s' Q) ->
  wp (on_node (kv_find kcmp) k none f) s Q.
Proof using H0 CmpOrder0.
  intros [l Hs] Hnone Hsome. unfold on_node. apply wp_bind.
  eapply wp_mono; [by eapply kv_find_spec|]. intros r s' (Hs' & Hf & _).
  destruct (al_find kcmp k al) as [e|] eqn:Ee.
  - pose proof Hf as (_ & Hr & _). rewrite (proj2 (Z.eqb_neq _ _) Hr).
    eapply Hsome; [done| |exact Hs'|exact Hf]. apply (al_find_key _ _ _ _ Ee).
  - cbn in Hf. rewrite Hf. cbn. apply wp_ret. apply Hnone; [done|]. by eapply at_rep.
Qed.

Lemma kv_delete_spec k s al : rep s al -> zlen al <= int_max ->
  wp (kv_delete kcmp k) s (fun o s' => value_rel Rv o (al_find kcmp k al) /\ rep s' (al_remove kcmp k al)).
Proof using H0 CmpOrder0.
  intros Hs Hmax. change (kv_delete kcmp k) with
    (on_node (kv_find kcmp) k None (fun n => v ← kv_delete_node kcmp n; mret (Some v)) : St (kvstate K V) _).
  eapply on_node_spec; [exact Hs|..].
  - intros Hn s' Hs'. rewrite Hn, al_remove_none by done. split; [constructor|done].
  - intros e s' l x He Hk Hs' Hx. apply wp_bind. eapply wp_mono; [by eapply delete_found|].
    intros v s2 [HR Hs2]. apply wp_ret. rewrite He. split; [by constructor|].
    by rewrite (al_remove_same kcmp k e.1).
Qed.

(** ** Traversal *)
Lemma kv_end_spec d n s l al : at_ n s l al ->
  wp (on_tree kcmp (fun _ => zrbtree_end d)) s (fun r s' => r = end_of d l /\ at_ n s' l al /\
    found s' l r (match d with L => head al | R => last al end) /\ key_of s' = key_of s /\ val_of s' = val_of s).
Proof using H0 CmpOrder0.
  intros Hs.
  assert (Hr : wp (on_tree kcmp (fun _ => zrbtree_end d)) s (fun r s' => r = end_of d l /\ at_ n s' l al /\
    key_of s' = key_of s /\ val_of s' = val_of s)).
  { destruct d; [eapply (on_tree_read kcmp Rv OFirst)|eapply (on_tree_read kcmp Rv OLast)]; done. }
  eapply wp_mono; [exact Hr|]. intros r s' (-> & Hs' & Hk & Hv). split; [done|]. split; [done|].
  split; [|done]. apply found_default. pose proof (entries_in kcmp Rv _ _ _ _ _ Hs') as He.
  destruct d; [by apply Forall2_head_rel|by apply Forall2_last_rel].
Qed.
Lemma kv_first_spec n s l al : at_ n s l al ->
  wp (kv_first kcmp) s (fun r s' => at_ n s' l al /\ found s' l r (head al)).
Proof using H0 CmpOrder0. intros Hs. eapply wp_mono; [by apply (kv_end_spec L)|]. cbn. tauto. Qed.
Lemma kv_last_spec n s l al : at_ n s l al ->
  wp (kv_last kcmp) s (fun r s' => at_ n s' l al /\ found s' l r (last al)).
Proof using H0 CmpOrder0. intros Hs. eapply wp_mono; [by apply (kv_end_spec R)|]. cbn. tauto. Qed.
Lemma kv_next_spec x e n s l al : at_ n s l al -> found s l x (Some e) ->
  wp (kv_next kcmp x) s (fun r s' => r = next_of x l /\ at_ n s' l al /\ found s' l r (al_next kcmp e.1 al) /\
    key_of s' = key_of s /\ val_of s' = val_of s).
Proof using H0 CmpOrder0.
  intros Hs Hx. pose proof Hx as (Hxl & _ & Hk & _).
  eapply wp_mono; [by eapply (on_tree_read kcmp Rv (ONext x))|]. intros r s' (-> & Hs' & Ek & Ev). cbn.
  split; [done|]. split; [done|]. split; [|done]. eapply (found_next kcmp Rv); [exact Hs'|by rewrite Ek|done].
Qed.
Lemma kv_prev_spec x e n s l al : at_ n s l al -> found s l x (Some e) ->
  wp (kv_prev kcmp x) s (fun r s' => at_ n s' l al /\ found s' l r (al_prev kcmp e.1 al)).
Proof using H0 CmpOrder0.
  intros Hs Hx. pose proof Hx as (Hxl & _ & Hk & _).
  eapply wp_mono; [by eapply (on_tree_read kcmp Rv (OPrev x))|]. intros r s' (-> & Hs' & Ek & Ev). cbn.
  split; [done|]. eapply (found_prev kcmp Rv); [exact Hs'|by rewrite Ek|done].
Qed.

(** What the code hands out, and the entry it stands for. *)
Definition entry_rel (kv : K * V) (e : K * W) : Prop := kv.1 = e.1 /\ Rv kv.2 e.2.

Lemma kv_walk_loop_spec n l al : forall b a fuel s x, at_ n s l al -> l = a ++ b -> x = end_of L b ->
  (length b < fuel)%nat ->
  wp (kv_walk_loop kcmp fuel x) s (fun out s' => at_ n s' l al /\
    Forall2 entry_rel out (drop (length a) al)).
Proof using H0 CmpOrder0.
  induction b as [|y b IH]; intros a fuel s x Hs -> -> Hf; (destruct fuel as [|fuel]; [cbn in Hf; lia|]);
    cbn [kv_walk_loop].
  - cbn. apply wp_ret. split; [done|]. pose proof (at_len _ _ _ _ Hs) as Hl. unfold zlen in Hl.
    rewrite app_nil_r in Hl. rewrite drop_ge by lia. constructor.
  - pose proof (at_entries _ _ _ _ _ _ _ Hs) as He.
    destruct (Forall2_elem _ _ _ y (entries_in kcmp Rv _ _ _ _ _ Hs) ltac:(set_solver)) as (e & Hy & Hin).
    change (end_of L (y :: b)) with y. pose proof Hy as (_ & Hy0 & Hk & v & Hv & HR).
    rewrite (proj2 (Z.eqb_neq y 0)) by done. apply wp_bind, wp_gets, wp_bind.
    eapply wp_of_option; [exact Hk|]. unfold get_val. apply wp_bind, wp_bind, wp_gets.
    eapply wp_of_option; [exact Hv|]. apply wp_bind.
    eapply wp_mono; [by eapply kv_next_spec|]. intros r s' (-> & Hs' & _ & Ek & Ev).
    pose proof (at_nodup _ _ _ _ Hs) as [Hya _]%nodup_mid. rewrite next_of_at by done.
    apply wp_bind. eapply wp_mono; [apply (IH (a ++ [y]) fuel s' (end_of L b))|].
    + done.
    + by rewrite <- app_assoc.
    + done.
    + cbn in Hf. lia.
    + intros out s2 [Hs2 Hout]. apply wp_ret. split; [done|].
      apply Forall2_app_inv_l in He as (al1 & al2 & Ha & Hb & ->).
      inversion Hb as [|? e' ? al2' He' Hb']; subst. pose proof (Forall2_length _ _ _ Ha) as Hla.
      assert (Hl : length (a ++ [y]) = length (al1 ++ [e'])) by (rewrite !length_app, Hla; done).
      replace (al1 ++ e' :: al2') with ((al1 ++ [e']) ++ al2') in Hout by (by rewrite <- app_assoc).
      rewrite Hl, drop_app_length in Hout. rewrite Hla, drop_app_length. constructor; [|done].
      destruct He' as (Hk' & v' & Hv' & HR'). split; cbn; congruence.
Qed.
Lemma kv_walk_spec s al : rep s al ->
  wp (kv_walk kcmp) s (fun out s' => rep s' al /\ Forall2 entry_rel out al).
Proof using H0 CmpOrder0.
  intros [l Hs]. unfold kv_walk. apply wp_bind. eapply wp_mono; [by apply (kv_end_spec L)|].
  intros r s' (-> & Hs' & _). eapply wp_mono; [apply (kv_walk_loop_spec (zlen al) l al l [])|]; try done.
  - destruct Hs' as [Ht _ Hh _ _ _ _]. apply holds_nodup in Ht.
    rewrite <- size_dom, Hh, union_empty_l_L, size_list_to_set by done. lia.
  - intros out s2 [Hs2 Hout]. split; [by eapply at_rep|done].
Qed.

(** ** Releasing every node *)
Lemma kv_drain_spec d (drop : Z -> St (kvstate K V) V) : (0 <= d) ->
  (forall x e n s l al, at_ n s l al -> found s l x (Some e) -> d <= n <= int_max ->
     wp (drop x) s (fun _ s' => at_ (n - d) s' (without x l) (al_remove kcmp e.1 al))) ->
  forall fuel n s l al, at_ n s l al -> d * zlen l <= n <= int_max -> (length l < fuel)%nat ->
  wp (kv_drain kcmp drop fuel) s (fun _ s' => at_ (n - d * zlen l) s' [] []).
Proof using H0 CmpOrder0.
  intros Hd Hdrop. induction fuel as [|fuel IH]; intros n s l al Hs Hn Hf; [lia|]. cbn [kv_drain].
  apply wp_bind. eapply wp_mono; [by apply kv_first_spec|]. intros x s1 [Hs1 Hx].
  pose proof (at_len _ _ _ _ Hs1) as Hlen. destruct al as [|e al]; cbn in Hx.
  - subst x. cbn. apply wp_ret. assert (l = []) as -> by (apply zlen_inv_nil; by rewrite Hlen).
    change (zlen (@nil Z)) with 0. by rewrite Z.mul_0_r, Z.sub_0_r.
  - pose proof Hx as (Hxl & Hx0 & _). rewrite (proj2 (Z.eqb_neq x 0)) by done. apply wp_bind.
    assert (Hw : zlen (without x l) = zlen l - 1) by (eapply zlen_without; [by eapply at_nodup|done]).
    assert (0 <= zlen (without x l)) by apply zlen_nonneg.
    eapply wp_mono; [eapply Hdrop; [exact Hs1|exact Hx|nia]|]. intros ? s2 Hs2.
    eapply wp_mono; [eapply (IH (n - d) s2); [exact Hs2|rewrite Hw; nia|unfold zlen in Hw; lia]|].
    intros ? s3 Hs3. cbn in Hs3. rewrite Hw in Hs3.
    replace (n - d * zlen l) with (n - d - d * (zlen l - 1)) by ring. done.
Qed.

Lemma with_fuel_spec {B} (f : nat -> St (kvstate K V) B) n s l al (Q : B -> kvstate K V -> Prop) : at_ n s l al ->
  wp (f (S (length l))) s Q -> wp (kv_with_fuel f) s Q.
Proof.
  intros [Ht _ Hh _ _ _ _] Hf. unfold wp, kv_with_fuel in *.
  by rewrite <- size_dom, Hh, union_empty_l_L, size_list_to_set by (by eapply holds_nodup).
Qed.
Lemma drop_drains x e n s l al : at_ n s l al -> found s l x (Some e) -> 0 <= n <= int_max ->
  wp (kv_drop kcmp x) s (fun _ s' => at_ (n - 0) s' (without x l) (al_remove kcmp e.1 al)).
Proof using H0 CmpOrder0.
  intros Hs Hx _. rewrite Z.sub_0_r. eapply wp_mono; [by eapply kv_drop_spec|]. by intros v s' [_ ?].
Qed.
Lemma delete_drains x e n s l al : at_ n s l al -> found s l x (Some e) -> 1 <= n <= int_max ->
  wp (kv_delete_node kcmp x) s (fun _ s' => at_ (n - 1) s' (without x l) (al_remove kcmp e.1 al)).
Proof using H0 CmpOrder0.
  intros Hs Hx Hn. eapply wp_mono; [eapply kv_delete_node_spec; [done..|lia]|]. by intros v s' [_ ?].
Qed.

(** The two ways of emptying: [len] counts down, or is set to 0 at the end. *)
Lemma kv_reset_spec s al : rep s al -> zlen al <= int_max ->
  wp (kv_reset kcmp) s (fun _ s' => rep s' []).
Proof using H0 CmpOrder0.
  intros [l Hs] Hmax. pose proof (at_len _ _ _ _ Hs) as Hl. pose proof (zlen_nonneg al).
  eapply with_fuel_spec; [exact Hs|].
  eapply wp_mono; [eapply (kv_drain_spec 1 (kv_delete_node kcmp)); [done|apply delete_drains|exact Hs|lia|lia]|].
  intros ? s' Hs'. exists []. by rewrite Hl, Z.mul_1_l, Z.sub_diag in Hs'.
Qed.
Lemma kv_drained s al : rep s al -> zlen al <= int_max ->
  wp (kv_with_fuel (kv_drain kcmp (kv_drop kcmp))) s (fun _ s' => exists n, at_ n s' [] []).
Proof using H0 CmpOrder0.
  intros [l Hs] Hmax. pose proof (zlen_nonneg al). eapply with_fuel_spec; [exact Hs|].
  eapply wp_mono; [eapply (kv_drain_spec 0 (kv_drop kcmp)); [done|apply drop_drains|exact Hs|lia|lia]|].
  intros ? s' Hs'. eexists. exact Hs'.
Qed.
Lemma kv_reset0_spec s al : rep s al -> zlen al <= int_max ->
  wp (kv_reset0 kcmp) s (fun _ s' => rep s' []).
Proof using H0 CmpOrder0.
  intros Hs Hmax. apply wp_bind. eapply wp_mono; [by eapply kv_drained|].
  intros ? s1 [n [Ht He Hh Hk Hv HT _]]. apply wp_modify. exists []. by split.
Qed.
(** Nothing is left in the store. *)
Definition released (s : kvstate K V) : Prop :=
  st_heap (kv_rb s) = ∅ /\ key_of s = ∅ /\ val_of s = ∅.
Lemma kv_free_spec s al : rep s al -> zlen al <= int_max -> wp (kv_free kcmp) s (fun _ => released).
Proof using H0 CmpOrder0.
  intros Hs Hmax. eapply wp_mono; [by eapply kv_drained|].
  intros ? s1 [n [_ _ Hh Hk Hv _ _]]. cbn in Hh, Hk, Hv. rewrite union_empty_l_L in Hh, Hk, Hv.
  repeat split; apply dom_empty_inv_L; set_solver.
Qed.

(** ** The refinement *)
Definition res_rel (r : kv_res K V) (r' : kv_res K W) : Prop :=
  match r, r' with
  | KNode e o, KNode e' o' => option_Forall2 entry_rel e e' /\ option_Forall2 Rv o o'
  | KOut o, KOut o' => option_Forall2 Rv o o'
  | KNum n, KNum n' => n = n'
  | KAll al, KAll al' => Forall2 entry_rel al al'
  | KDone, KDone => True
  | _, _ => False
  end.
Lemma value_rel_out o (e : option (K * W)) : value_rel Rv o e -> option_Forall2 Rv o (snd <$> e).
Proof. destruct 1; by constructor. Qed.
Lemma kv_answer_spec n s l al r (e : option (K * W)) (o : option W) : at_ n s l al -> found s l r.1 e ->
  option_Forall2 Rv r.2 o ->
  wp (kv_answer r) s (fun a s' => s' = s /\ res_rel a (KNode e o)).
Proof using H0 CmpOrder0.
  intros Hs Hf Ho. unfold kv_answer, node_entry. apply wp_bind. destruct e as [e|]; cbn in Hf.
  - destruct Hf as (Hx & Hx0 & Hk & v & Hv & HR). rewrite (proj2 (Z.eqb_neq _ _) Hx0).
    apply wp_bind, wp_gets, wp_bind. eapply wp_of_option; [exact Hk|]. unfold get_val.
    apply wp_bind, wp_bind, wp_gets. eapply wp_of_option; [exact Hv|]. apply wp_ret, wp_ret.
    split; [done|]. split; [by constructor|done].
  - rewrite Hf. cbn. apply wp_ret. split; [done|]. split; [constructor|done].
Qed.

Context (assign : A -> option V -> option V) (node_update : bool) (reset : St (kvstate K V) unit).
Context (absA : A -> W) (absV : V -> W) (a_ok : A -> Prop).
Hypothesis assign_ok : forall a, a_ok a -> assigns Rv (assign a) (absA a).
Hypothesis update_ok : node_update = true -> forall v, Rv v (absV v).
Hypothesis reset_ok : forall s al, rep s al -> zlen al <= int_max -> wp reset s (fun _ s' => rep s' []).
Abbreviation api := (kv_api kcmp assign node_update reset).

Definition op_ok (op : kv_op K V A) : Prop :=
  match op with KUpdate _ a => a_ok a | KNodeUpdate _ _ => node_update = true | _ => True end.

Lemma kv_exec_spec op s al : rep s al -> zlen al < int_max -> op_ok op ->
  wp (kv_exec api op) s (fun r s' => res_rel r (kv_spec kcmp absA absV (kv_as_coded op) al).1 /\
    rep s' (kv_spec kcmp absA absV op al).2).
Proof using H0 CmpOrder0 assign_ok update_ok reset_ok.
  intros Hr Hmax Hok. pose proof Hr as [l Hs].
  assert (Hsearch : forall (m : St (kvstate K V) (Z * option V)) e,
    wp m s (fun r s' => at_ (zlen al) s' l al /\ found s' l r.1 e /\ value_rel Rv r.2 e) ->
    wp (r ← m; kv_answer r) s (fun r s' => res_rel r (KNode e (snd <$> e)) /\ rep s' al)).
  { intros m e Hm. apply wp_bind. eapply wp_mono; [exact Hm|]. intros r s' (Hs' & Hf & Hv).
    eapply wp_mono; [eapply kv_answer_spec; [exact Hs'|exact Hf|by apply value_rel_out]|].
    intros a s2 [-> Ha]. split; [done|by eapply at_rep]. }
  assert (Hnode : forall (m : St (kvstate K V) Z) e,
    wp m s (fun r s' => exists l', at_ (zlen al) s' l' al /\ found s' l' r e) ->
    wp (n ← m; kv_answer (n, None)) s (fun r s' => res_rel r (KNode e None) /\ rep s' al)).
  { intros m e Hm. apply wp_bind. eapply wp_mono; [exact Hm|]. intros r s' (l' & Hs' & Hf).
    eapply wp_mono; [eapply (kv_answer_spec _ _ _ _ (r, None)); [exact Hs'|exact Hf|constructor]|].
    intros a s2 [-> Ha]. split; [done|by eapply at_rep]. }
  destruct op as [k a|k|k|k|k|k|k v| | |k|k| | |]; cbn [kv_exec kv_as_coded kv_spec fst snd api_update api_find
    api_find_near_prev api_find_near_next api_delete api_delete_node api_node_update api_first api_last
    api_next api_prev api_len api_reset api_walk kv_api]; cbn in Hok.
  - apply wp_bind. eapply wp_mono; [by apply (kv_update_spec kcmp Rv (assign a) (absA a) k s al Hr (assign_ok a Hok))|].
    intros r s' (l' & Hs' & Hf & Hv).
    eapply wp_mono; [eapply kv_answer_spec; [exact Hs'|exact Hf|by apply value_rel_out]|].
    intros x s2 [-> Hx]. split; [done|by eapply at_rep].
  - by apply Hsearch, kv_find_spec.
  - by apply Hsearch, kv_find_near_prev_spec.
  - by apply Hsearch, kv_find_near_next_spec.
  - apply wp_bind. eapply wp_mono; [apply (kv_delete_spec k s al Hr); lia|]. intros o s' [Ho Hs'].
    apply wp_ret. split; [by apply value_rel_out|done].
  - apply wp_bind. change (on_node _ k None _) with (kv_delete kcmp k : St (kvstate K V) _).
    eapply wp_mono; [apply (kv_delete_spec k s al Hr); lia|]. intros o s' [Ho Hs'].
    apply wp_ret. split; [by apply value_rel_out|done].
  - rewrite Hok. apply wp_bind. eapply wp_of_option; [done|]. apply wp_bind.
    eapply on_node_spec; [exact Hr|..].
    + intros Hn s' Hs'. apply wp_ret. rewrite Hn, al_set_none by done. split; [constructor|done].
    + intros e s' l' x He Hk Hs' Hx. apply wp_bind.
      eapply wp_mono; [eapply (kv_node_update_spec kcmp Rv x e v (absV v)); [done|done|by apply update_ok]|].
      intros old s2 [HR Hs2]. apply wp_ret, wp_ret. rewrite He. split; [by constructor|].
      rewrite (al_set_same kcmp k e.1) by done. exists l'. by rewrite zlen_al_set.
  - apply Hnode. eapply wp_mono; [by apply kv_first_spec|]. intros r s' ?. by exists l.
  - apply Hnode. eapply wp_mono; [by apply kv_last_spec|]. intros r s' ?. by exists l.
  - apply Hnode. eapply on_node_spec; [exact Hr|..].
    + intros Hn s' [l' Hs']. exists l'. rewrite Hn. by split.
    + intros e s' l' x He Hk Hs' Hx. rewrite He. cbn. rewrite (al_next_same kcmp k e.1) by done.
      eapply wp_mono; [by eapply kv_next_spec|]. intros r s2 (_ & Hs2 & Hf & _). by exists l'.
  - apply Hnode. eapply on_node_spec; [exact Hr|..].
    + intros Hn s' [l' Hs']. exists l'. rewrite Hn. by split.
    + intros e s' l' x He Hk Hs' Hx. rewrite He. cbn. rewrite (al_prev_same kcmp k e.1) by done.
      eapply wp_mono; [by eapply kv_prev_spec|]. intros r s2 (Hs2 & Hf). by exists l'.
  - apply wp_bind, wp_gets, wp_ret. split; [apply Hs|done].
  - apply wp_bind. eapply wp_mono; [apply (reset_ok s al Hr); lia|]. intros ? s' Hs'. by apply wp_ret.
  - apply wp_bind. eapply wp_mono; [by apply kv_walk_spec|]. intros out s' [Hs' Hout].
    apply wp_ret. by split.
Qed.

Lemma zlen_filter_le {B} (P : B -> Prop) `{!forall x, Decision (P x)} (l : list B) : zlen (filter P l) <= zlen l.
Proof. unfold zlen. pose proof (length_filter P l). lia. Qed.
Lemma kv_spec_len op (al : list (K * W)) : zlen (kv_spec kcmp absA absV op al).2 <= zlen al + 1.
Proof.
  destruct op; cbn; try lia; try (unfold al_remove; pose proof (zlen_filter_le (fun e => kcmp k e.1 <> 0) al); lia).
  - unfold al_update. destruct (al_find kcmp k al); rewrite ?zlen_al_set, ?zlen_al_insert; lia.
  - rewrite zlen_al_set. lia.
  - change (zlen (@nil (K * W))) with 0. pose proof (zlen_nonneg al). lia.
Qed.

Lemma kv_exec_all_spec ops : forall s al, rep s al -> zlen al + zlen ops <= int_max -> Forall op_ok ops ->
  wp (kv_exec_all api ops) s (fun rs s' => Forall2 res_rel rs (kv_spec_all kcmp absA absV (kv_as_coded <$> ops) al).1 /\
    rep s' (kv_spec_all kcmp absA absV ops al).2 /\ zlen (kv_spec_all kcmp absA absV ops al).2 <= int_max).
Proof using H0 CmpOrder0 assign_ok update_ok reset_ok.
  induction ops as [|op ops IH]; intros s al Hs Hmax Hok; cbn [kv_exec_all kv_spec_all fmap list_fmap].
  { apply wp_ret. rewrite zlen_nil in Hmax. split; [constructor|]. split; [done|cbn; lia]. }
  apply Forall_cons in Hok as [Hop Hok]. rewrite zlen_cons in Hmax. pose proof (zlen_nonneg ops).
  apply wp_bind. eapply wp_mono; [apply (kv_exec_spec op s al Hs); [lia|done]|]. intros r s1 [Hr Hs1].
  pose proof (kv_spec_len op al) as Hlen. pose proof (kv_as_coded_list kcmp absA absV op al) as El.
  destruct (kv_spec kcmp absA absV (kv_as_coded op) al) as [r' al0].
  destruct (kv_spec kcmp absA absV op al) as [r0 al'] eqn:E. cbn in *. subst al0.
  apply wp_bind. eapply wp_mono; [apply (IH s1 al' Hs1); [lia|done]|]. intros rs s2 (Hrs & Hs2 & Hl).
  apply wp_ret. change (list_fmap _ _ kv_as_coded ops) with (kv_as_coded <$> ops).
  destruct (kv_spec_all kcmp absA absV (kv_as_coded <$> ops) al') as [rs' ?], (kv_spec_all kcmp absA absV ops al') as [? al'']. cbn in *. split; [by constructor|done].
Qed.

(** From the empty structure: the answers agree, the structure represents the
    list, and releasing it leaves nothing behind. *)
Lemma kv_run_refines ops : Forall op_ok ops -> zlen ops <= int_max ->
  exists rs s s', kv_exec_all api ops (api_create api) = Some (rs, s) /\
    Forall2 res_rel rs (kv_spec_all kcmp absA absV (kv_as_coded <$> ops) []).1 /\
    rep s (kv_spec_all kcmp absA absV ops []).2 /\
    api_free api s = Some (tt, s') /\ released s'.
Proof using H0 CmpOrder0 assign_ok update_ok reset_ok.
  intros Hok Hlen.
  destruct (wp_runs _ _ _ (kv_exec_all_spec ops kv_create [] (kv_rep_create kcmp Rv) Hlen Hok))
    as (rs & s & E & Hrs & Hs & Hl).
  destruct (wp_runs _ _ _ (kv_free_spec s _ Hs Hl)) as ([] & s' & E' & Hrel).
  exists rs, s, s'. done.
Qed.
End refine.

(** When values are compared as they are, the answers are equal. *)
Lemma res_rel_eq {K V} (r r' : kv_res K V) : res_rel eq r r' -> r = r'.
Proof.
  assert (Ho : forall o o' : option V, option_Forall2 eq o o' -> o = o') by (by destruct 1; subst).
  assert (Hp : forall e e' : K * V, entry_rel eq e e' -> e = e') by (by intros [] [] [? ?]; cbn in *; subst).
  destruct r, r'; cbn; try done.
  - intros [He Hout]. f_equal; [|by apply Ho]. by destruct He as [? ? ->%Hp|].
  - intros ?. f_equal. by apply Ho.
  - by intros ->.
  - intros Hal. f_equal. induction Hal as [|e e' ? ? ->%Hp _ IH]; [done|by f_equal].
Qed.
Lemma res_rel_all_eq {K V} (rs rs' : list (kv_res K V)) : Forall2 (res_rel eq) rs rs' -> rs = rs'.
Proof. induction 1 as [|? ? ? ? ?%res_rel_eq _ IH]; [done|by f_equal]. Qed.

(** ** Entries of a represented map ascend *)
Section sorted.
Context {K V W : Type} `{!Inhabited K} (kcmp : K -> K -> Z) `{!CmpOrder kcmp} (Rv : V -> W -> Prop).
Definition al_sorted (al : list (K * W)) : Prop := StronglySorted (fun e e' => kcmp e.1 e'.1 < 0) al.
Lemma Forall2_sorted keys (vals : gmap Z V) l al : Forall2 (entry Rv keys vals) l al ->
  StronglySorted (before (kv_cmp kcmp keys)) l -> al_sorted al.
Proof.
  induction 1 as [|x e l al Hx Hl IH]; intros Hs; [constructor|].
  apply StronglySorted_inv in Hs as [Hs Hxs]. constructor; [by apply IH|].
  rewrite Forall_forall in Hxs. apply Forall_forall. intros e' He'.
  apply Forall2_flip in Hl. destruct (Forall2_elem _ _ _ e' Hl He') as (y & Hy & Hyl).
  specialize (Hxs y Hyl). unfold before in Hxs.
  by rewrite (kv_cmp_keys kcmp keys x y e.1 e'.1 (proj1 Hx) (proj1 Hy)) in Hxs.
Qed.
Lemma kv_rep_sorted s al : kv_rep kcmp Rv s al -> al_sorted al.
Proof. intros [l [Ht He _ _ _ _ _]]. eapply Forall2_sorted; [exact He|]. by eapply holds_ordered. Qed.
Lemma al_remove_head e al : al_sorted (e :: al) -> al_remove kcmp e.1 (e :: al) = al.
Proof using CmpOrder0.
  intros [_ He]%StronglySorted_inv. unfold al_remove. rewrite filter_cons_False.
  - apply filter_every. intros e' He'. rewrite Forall_forall in He. specialize (He e' He'). cbn in *. lia.
  - intros Hne. apply Hne, (cmp_refl kcmp).
Qed.
End sorted.
