(* ===== verification/Maps.v ===== *)
(** * Maps: src/stdlib/map.c, longmap.c and dictlong.c

    Three of the four structures of keyed nodes: string keys and pointers
    ([zmap_t]), [ssize_t] keys and pointers ([zlongmap_t]), string keys and
    [ssize_t] values ([zdictlong_t]). Pointers and integers are [Z]; a string
    key is the bytes of the C string, which [zstrdup] copies. *)
From stdpp Require Import gmap sorting.
From S2P Require Import Prelude StateMonad Rbtree RbShape Rbset RbRefine Keyed KeyedSpec KeyedRefine.

(** ** Keys *)

(** [strcmp] on the bytes of two C strings; only the sign is documented. *)
Fixpoint strcmp (a b : list Z) : Z :=
  match a, b with
  | [], [] => 0
  | [], _ => -1
  | _, [] => 1
  | x :: a', y :: b' => if x <? y then -1 else if y <? x then 1 else strcmp a' b'
  end.

Ltac cmp_cases :=
  repeat match goal with |- context [?x <? ?y] => destruct (Z.ltb_spec x y) end.
Lemma strcmp_sign a b : strcmp a b = -1 \/ strcmp a b = 0 \/ strcmp a b = 1.
Proof. revert b. induction a as [|x a IH]; intros [|y b]; simpl; auto. cmp_cases; auto. Qed.
Lemma strcmp_opp a : forall b, strcmp b a = - strcmp a b.
Proof. induction a as [|x a IH]; intros [|y b]; simpl; try done. cmp_cases; try lia. by rewrite IH. Qed.
Lemma strcmp_eq_iff a : forall b, strcmp a b = 0 <-> a = b.
Proof.
  induction a as [|x a IH]; intros [|y b]; simpl; try done; try lia.
  cmp_cases; [split; [lia|intros [= ? ?]; lia]..|]. rewrite IH. assert (x = y) by lia. subst.
  split; [by intros ->|by intros [= ->]].
Qed.
Lemma strcmp_lt_trans a : forall b c, strcmp a b < 0 -> strcmp b c < 0 -> strcmp a c < 0.
Proof.
  induction a as [|x a IH]; intros [|y b] [|z c]; simpl; try lia.
  cmp_cases; try lia. apply IH.
Qed.
#[export] Instance strcmp_order : CmpOrder strcmp.
Proof.
  split.
  - intros a b. rewrite (strcmp_opp b a). lia.
  - intros a b c. apply strcmp_lt_trans.
  - intros a b c Hab ->%strcmp_eq_iff. done.
  - intros a b c ->%strcmp_eq_iff. done.
Qed.

(** [memcmp] and [strncmp]. *)
Definition memcmp (a b : list Z) (n : Z) : option Z :=
  x ← read_bytes a n; y ← read_bytes b n; Some (strcmp x y).
Fixpoint strncmp (a b : list Z) (n : nat) : option Z :=
  match n, a, b with
  | O, _, _ => Some 0
  | S n', x :: a', y :: b' =>
      if x <? y then Some (-1) else if y <? x then Some 1
      else if x =? 0 then Some 0 else strncmp a' b' n'
  | _, _, _ => None
  end.

(** ** [zmap_t] *)
Section zmap.
Context `{!Allocator}.
(** [zmap_zrbtree_cmp] is [strcmp] on the keys. *)
Abbreviation zmap_t := (kvstate (list Z) Z).
Definition zmap_create : zmap_t := kv_create.
Definition zmap_update (key : (list Z)) (value : Z) : St zmap_t (Z * option Z) :=
  kv_update strcmp key (fun _ => Some value).
Definition zmap_find (key : (list Z)) : St zmap_t (Z * option Z) := kv_find strcmp key.
Definition zmap_find_near_prev (key : (list Z)) : St zmap_t (Z * option Z) := kv_find_near_prev strcmp key.
Definition zmap_find_near_next (key : (list Z)) : St zmap_t (Z * option Z) := kv_find_near_next strcmp key.
Definition zmap_delete_node (n : Z) : St zmap_t Z := kv_delete_node strcmp n.
Definition zmap_delete (key : (list Z)) : St zmap_t (option Z) := kv_delete strcmp key.
Definition zmap_node_update (n value : Z) : St zmap_t Z := kv_node_update n value.
Definition zmap_first : St zmap_t Z := kv_first strcmp.
Definition zmap_last : St zmap_t Z := kv_last strcmp.
Definition zmap_prev (node : Z) : St zmap_t Z := kv_prev strcmp node.
Definition zmap_next (node : Z) : St zmap_t Z := kv_next strcmp node.
Definition zmap_len : St zmap_t Z := gets kv_len.
Definition zmap_reset : St zmap_t unit := kv_reset strcmp.
Definition zmap_free : St zmap_t unit := kv_free strcmp.
(** [ZMAP_NODE_WALK_BEGIN ... END]: the keys and values the body sees. *)
Definition ZMAP_NODE_WALK : St zmap_t (list ((list Z) * Z)) := kv_walk strcmp.

Definition zmap_api : keyed_api (list Z) Z Z :=
  mk_keyed_api zmap_create zmap_update zmap_find zmap_find_near_prev zmap_find_near_next
    zmap_delete zmap_delete_node (Some zmap_node_update) zmap_first zmap_last zmap_next
    zmap_prev zmap_len zmap_reset zmap_free ZMAP_NODE_WALK.
End zmap.

(** ** [zlongmap_t] *)
Section zlongmap.
Context `{!Allocator}.
(** [zlongmap_zrbtree_cmp] on the keys. *)
Definition zlongmap_cmp (k1 k2 : Z) : Z := if k2 <? k1 then 1 else if k1 <? k2 then -1 else 0.
Abbreviation zlongmap_t := (kvstate Z Z).
Definition zlongmap_create : zlongmap_t := kv_create.
Definition zlongmap_update (key : Z) (value : Z) : St zlongmap_t (Z * option Z) :=
  kv_update zlongmap_cmp key (fun _ => Some value).
Definition zlongmap_find (key : Z) : St zlongmap_t (Z * option Z) := kv_find zlongmap_cmp key.
Definition zlongmap_find_near_prev (key : Z) : St zlongmap_t (Z * option Z) := kv_find_near_prev zlongmap_cmp key.
Definition zlongmap_find_near_next (key : Z) : St zlongmap_t (Z * option Z) := kv_find_near_next zlongmap_cmp key.
Definition zlongmap_delete_node (n : Z) : St zlongmap_t Z := kv_delete_node zlongmap_cmp n.
Definition zlongmap_delete (key : Z) : St zlongmap_t (option Z) := kv_delete zlongmap_cmp key.
Definition zlongmap_node_update (n value : Z) : St zlongmap_t Z := kv_node_update n value.
Definition zlongmap_first : St zlongmap_t Z := kv_first zlongmap_cmp.
Definition zlongmap_last : St zlongmap_t Z := kv_last zlongmap_cmp.
Definition zlongmap_prev (node : Z) : St zlongmap_t Z := kv_prev zlongmap_cmp node.
Definition zlongmap_next (node : Z) : St zlongmap_t Z := kv_next zlongmap_cmp node.
Definition zlongmap_len : St zlongmap_t Z := gets kv_len.
Definition zlongmap_reset : St zlongmap_t unit := kv_reset zlongmap_cmp.
Definition zlongmap_free : St zlongmap_t unit := kv_free zlongmap_cmp.
(** [ZLONGMAP_NODE_WALK_BEGIN ... END]: the keys and values the body sees. *)
Definition ZLONGMAP_NODE_WALK : St zlongmap_t (list (Z * Z)) := kv_walk zlongmap_cmp.

Definition zlongmap_api : keyed_api Z Z Z :=
  mk_keyed_api zlongmap_create zlongmap_update zlongmap_find zlongmap_find_near_prev zlongmap_find_near_next
    zlongmap_delete zlongmap_delete_node (Some zlongmap_node_update) zlongmap_first zlongmap_last zlongmap_next
    zlongmap_prev zlongmap_len zlongmap_reset zlongmap_free ZLONGMAP_NODE_WALK.
End zlongmap.

(** ** [zdictlong_t] *)
Section zdictlong.
Context `{!Allocator}.
(** [zdictlong_zrbtree_cmp] is [strcmp] on the keys. *)
Abbreviation zdictlong_t := (kvstate (list Z) Z).
Definition zdictlong_create : zdictlong_t := kv_create.
Definition zdictlong_update (key : (list Z)) (value : Z) : St zdictlong_t (Z * option Z) :=
  kv_update strcmp key (fun _ => Some value).
Definition zdictlong_find (key : (list Z)) : St zdictlong_t (Z * option Z) := kv_find strcmp key.
Definition zdictlong_find_near_prev (key : (list Z)) : St zdictlong_t (Z * option Z) := kv_find_near_prev strcmp key.
Definition zdictlong_find_near_next (key : (list Z)) : St zdictlong_t (Z * option Z) := kv_find_near_next strcmp key.
Definition zdictlong_delete_node (n : Z) : St zdictlong_t Z := kv_delete_node strcmp n.
Definition zdictlong_delete (key : (list Z)) : St zdictlong_t (option Z) := kv_delete strcmp key.
Definition zdictlong_node_set_value (node value : Z) : St zdictlong_t unit := set_val node value.
Definition zdictlong_first : St zdictlong_t Z := kv_first strcmp.
Definition zdictlong_last : St zdictlong_t Z := kv_last strcmp.
Definition zdictlong_prev (node : Z) : St zdictlong_t Z := kv_prev strcmp node.
Definition zdictlong_next (node : Z) : St zdictlong_t Z := kv_next strcmp node.
Definition zdictlong_len : St zdictlong_t Z := gets kv_len.
Definition zdictlong_reset : St zdictlong_t unit := kv_reset0 strcmp.
Definition zdictlong_free : St zdictlong_t unit := kv_free strcmp.
(** [ZDICTLONG_WALK_BEGIN ... END]: the keys and values the body sees. *)
Definition ZDICTLONG_WALK : St zdictlong_t (list ((list Z) * Z)) := kv_walk strcmp.

Definition zdictlong_api : keyed_api (list Z) Z Z :=
  mk_keyed_api zdictlong_create zdictlong_update zdictlong_find zdictlong_find_near_prev zdictlong_find_near_next
    zdictlong_delete zdictlong_delete_node
    (Some (fun n v => old ← get_val n; zdictlong_node_set_value n v;; mret old)) zdictlong_first zdictlong_last zdictlong_next
    zdictlong_prev zdictlong_len zdictlong_reset zdictlong_free ZDICTLONG_WALK.
End zdictlong.

#[export] Instance zlongmap_order : CmpOrder zlongmap_cmp.
Proof. unfold zlongmap_cmp. split; intros *; cmp_cases; lia. Qed.

(** ** The specifications *)
Abbreviation smap_spec := (kv_spec_all (K := list Z) (V := Z) (A := Z) (W := Z) strcmp id id).
Abbreviation lmap_spec := (kv_spec_all (K := Z) (V := Z) (A := Z) (W := Z) zlongmap_cmp id id).

Section plain.
Context {K : Type} `{!Inhabited K} (kcmp : K -> K -> Z) `{!CmpOrder kcmp} `{AllocatorSound}.
Context (reset : St (kvstate K Z) unit).
Hypothesis reset_ok : forall s al, kv_rep kcmp eq s al -> zlen al <= int_max ->
  wp reset s (fun _ s' => kv_rep kcmp eq s' []).
Abbreviation api := (kv_api kcmp (fun v (_ : option Z) => Some v) true reset).

(** Values stored as they come. *)
Lemma plain_run_refines ops : zlen ops <= int_max ->
  exists s s', kv_exec_all api ops (api_create api) = Some ((kv_spec_all kcmp id id (kv_as_coded <$> ops) []).1, s) /\
    kv_rep kcmp eq s (kv_spec_all kcmp id id ops []).2 /\ api_free api s = Some (tt, s') /\ released s'.
Proof using H0 CmpOrder0 reset_ok.
  intros Hlen.
  destruct (kv_run_refines kcmp eq (fun v (_ : option Z) => Some v) true reset id id (fun _ => True)) with (ops := ops)
    as (rs & s & s' & E & Hrs & Hs & E' & Hr); try done.
  - intros a _. split; [by exists a|]. intros v0 w0 _. by exists a.
  - apply Forall_forall. by intros [] _.
  - exists s, s'. by rewrite <- (res_rel_all_eq _ _ Hrs).
Qed.
End plain.

(** C30: a [zmap_t] is a finite map with its keys in [strcmp] order. From
    [zmap_create], every sequence of operations (update, find, the two
    near-lookups, delete by key and by node, change of a node's value, first,
    last, next, prev, len, reset, the walk macro) answers what doc/map.md describes
    on the association list, old values and visited entries included, whatever
    addresses the allocator returns, except that [zmap_find_near_next] answers what
    [zmap_find_near_prev] should (the entry of the greatest key not above, where the
    least not below is described: a bug of the tree); the structure then holds
    exactly the entries of the association list, and [zmap_free] leaves no node
    behind. *)
Theorem zmap_refines `{AllocatorSound} (ops : list (kv_op (list Z) Z Z)) : zlen ops <= int_max ->
  exists s s', kv_exec_all zmap_api ops zmap_create = Some ((smap_spec (kv_as_coded <$> ops) []).1, s) /\
    kv_rep strcmp eq s (smap_spec ops []).2 /\ zmap_free s = Some (tt, s') /\ released s'.
Proof. apply (plain_run_refines strcmp (kv_reset strcmp)). apply (kv_reset_spec strcmp eq). Qed.

(** The same for [zlongmap_t], keyed by integers in their order. *)
Theorem zlongmap_refines `{AllocatorSound} (ops : list (kv_op Z Z Z)) : zlen ops <= int_max ->
  exists s s', kv_exec_all zlongmap_api ops zlongmap_create = Some ((lmap_spec (kv_as_coded <$> ops) []).1, s) /\
    kv_rep zlongmap_cmp eq s (lmap_spec ops []).2 /\ zlongmap_free s = Some (tt, s') /\ released s'.
Proof. apply (plain_run_refines zlongmap_cmp (kv_reset zlongmap_cmp)). apply (kv_reset_spec zlongmap_cmp eq). Qed.

(** The same for [zdictlong_t], whose reset clears [len] at the end. *)
Theorem zdictlong_refines `{AllocatorSound} (ops : list (kv_op (list Z) Z Z)) : zlen ops <= int_max ->
  exists s s', kv_exec_all zdictlong_api ops zdictlong_create = Some ((smap_spec (kv_as_coded <$> ops) []).1, s) /\
    kv_rep strcmp eq s (smap_spec ops []).2 /\ zdictlong_free s = Some (tt, s') /\ released s'.
Proof. apply (plain_run_refines strcmp (kv_reset0 strcmp)). apply (kv_reset0_spec strcmp eq). Qed.

(** ** Runs *)
Definition smap_demo : list (kv_op (list Z) Z Z) :=
  [KUpdate (str "pear") 1; KUpdate (str "apple") 2; KUpdate (str "fig") 3; KUpdate (str "apple") 4;
   KFind (str "kiwi"); KNearPrev (str "kiwi"); KNearNext (str "kiwi"); KNext (str "fig"); KPrev (str "fig"); KFirst; KLast;
   KNodeUpdate (str "fig") 5; KWalk; KDelete (str "apple"); KDelete (str "apple");
   KDeleteNode (str "pear"); KLen; KReset; KLen; KUpdate (str "") 6].
Definition smap_answers : list (kv_res (list Z) Z) :=
  [KNode (Some (str "pear", 1)) None; KNode (Some (str "apple", 2)) None; KNode (Some (str "fig", 3)) None;
   KNode (Some (str "apple", 4)) (Some 2); KNode None None; KNode (Some (str "fig", 3)) (Some 3);
   KNode (Some (str "fig", 3)) (Some 3);
   KNode (Some (str "pear", 1)) None; KNode (Some (str "apple", 4)) None;
   KNode (Some (str "apple", 4)) None; KNode (Some (str "pear", 1)) None; KOut (Some 3);
   KAll [(str "apple", 4); (str "fig", 5); (str "pear", 1)]; KOut (Some 4); KOut None; KOut (Some 1);
   KNum 1; KDone; KNum 0; KNode (Some ([], 6)) None].
Lemma zmap_refines_witness :
  exists s s', kv_exec_all zmap_api smap_demo zmap_create = Some (smap_answers, s) /\
    kv_rep strcmp eq s [([], 6)] /\ zmap_free s = Some (tt, s') /\ released s'.
Proof. apply (zmap_refines smap_demo). vm_compute. discriminate. Defined.
Lemma zdictlong_refines_witness :
  exists s s', kv_exec_all zdictlong_api smap_demo zdictlong_create = Some (smap_answers, s) /\
    kv_rep strcmp eq s [([], 6)] /\ zdictlong_free s = Some (tt, s') /\ released s'.
Proof. apply (zdictlong_refines smap_demo). vm_compute. discriminate. Defined.
Lemma zlongmap_refines_witness :
  exists s s', kv_exec_all zlongmap_api [KUpdate 7 1; KUpdate (-3) 2; KNearNext 0; KWalk; KDelete 7] zlongmap_create =
      Some ([KNode (Some (7, 1)) None; KNode (Some (-3, 2)) None; KNode (Some (-3, 2)) (Some 2);
             KAll [(-3, 2); (7, 1)]; KOut (Some 1)], s) /\
    kv_rep zlongmap_cmp eq s [(-3, 2)] /\ zlongmap_free s = Some (tt, s') /\ released s'.
Proof.
  apply (zlongmap_refines [KUpdate 7 1; KUpdate (-3) 2; KNearNext 0; KWalk; KDelete 7]). vm_compute. discriminate.
Defined.
