(* ===== verification/Dict.v ===== *)
(** * Dictionaries: src/stdlib/dict.c

    [zdict_t]: keyed nodes whose values are byte buffers ([zbuf_t], Buf.v)
    embedded in the node. An update copies the bytes into the buffer of the node,
    which is created with the node. The getters read a value as text. *)
From stdpp Require Import gmap sorting.
From S2P Require Import Prelude Buf Text StateMonad Rbtree RbShape Rbset RbRefine Keyed KeyedSpec KeyedRefine Maps.

Section zdict.
Context `{!Allocator}.
(** [zdict_zrbtree_cmp] is [strcmp] on the keys. *)
Abbreviation zdict_t := (kvstate (list Z) zbuf).

Definition zdict_create : zdict_t := kv_create.

(** What an update does to the value of the node: [zbuf_memcpy], into a buffer
    made by [zbuf_init] when the node is new. *)
Definition zdict_assign (value : list Z) (len : Z) (old : option zbuf) : option zbuf :=
  match old with
  | Some b => zbuf_memcpy b value len
  | None => b ← zbuf_init len; zbuf_memcpy b value len
  end.
(** [if (value_len < 0) value_len = strlen(value)] *)
Definition value_strlen (value : list Z) (value_len : Z) : option Z :=
  if value_len <? 0 then l ← cstr value; as_int (zlen l) else Some value_len.
Definition zdict_update_string (key value : list Z) (value_len : Z) : St zdict_t (Z * option zbuf) :=
  kv_update strcmp key (fun old => n ← value_strlen value value_len; zdict_assign value n old).
Definition zdict_update (key : list Z) (value : zbuf) : St zdict_t (Z * option zbuf) :=
  kv_update strcmp key (fun old => src ← zbuf_bytes value; zdict_assign src (bf_len value) old).

Definition zdict_find (key : list Z) : St zdict_t (Z * option zbuf) := kv_find strcmp key.
Definition zdict_find_near_prev (key : list Z) : St zdict_t (Z * option zbuf) := kv_find_near_prev strcmp key.
Definition zdict_find_near_next (key : list Z) : St zdict_t (Z * option zbuf) := kv_find_near_next strcmp key.
Definition zdict_delete_node (n : Z) : St zdict_t zbuf := kv_delete_node strcmp n.
Definition zdict_delete (key : list Z) : St zdict_t (option zbuf) := kv_delete strcmp key.
Definition zdict_first : St zdict_t Z := kv_first strcmp.
Definition zdict_last : St zdict_t Z := kv_last strcmp.
Definition zdict_prev (node : Z) : St zdict_t Z := kv_prev strcmp node.
Definition zdict_next (node : Z) : St zdict_t Z := kv_next strcmp node.
Definition zdict_len : St zdict_t Z := gets kv_len.
Definition zdict_reset : St zdict_t unit := kv_reset0 strcmp.
Definition zdict_free : St zdict_t unit := kv_free strcmp.
(** [ZDICT_WALK_BEGIN ... END]: the keys and values the body sees. *)
Definition ZDICT_WALK : St zdict_t (list (list Z * zbuf)) := kv_walk strcmp.

(** ** The getters: [None] is a NULL dictionary or a NULL string; a string is
    the block from its first byte to its NUL. *)
Definition zbuf_data_z (b : zbuf) : option (list Z) :=
  mapM id (take (Z.to_nat (bf_len b) + 1) (bf_data b)).
Definition zdict_get_str (dict : option zdict_t) (name : list Z) (def : option (list Z)) :
    option (option (list Z)) :=
  match dict with
  | None => Some def
  | Some s =>
      r ← zdict_find name s;
      match r with
      | ((n, Some b), _) => if n =? 0 then Some def else Some <$> zbuf_data_z b
      | _ => Some def
      end
  end.
(** [if (str_val && *str_val) return conv(str_val); return def;] *)
Definition zdict_get_conv (conv : list Z -> option Z) (dict : option zdict_t) (name : list Z) (def : Z) : option Z :=
  str_val ← zdict_get_str dict name None;
  match str_val with
  | None => Some def
  | Some s => c ← rd s 0; if c =? 0 then Some def else conv s
  end.
Definition zdict_get_bool (dict : option zdict_t) (name : list Z) (def : Z) : option Z :=
  zdict_get_conv (fun s => zstr_to_bool s def) dict name def.
Definition zdict_get_int : option zdict_t -> list Z -> Z -> option Z := zdict_get_conv atoi.
Definition zdict_get_long : option zdict_t -> list Z -> Z -> option Z := zdict_get_conv atol.
Definition zdict_get_second (dict : option zdict_t) (name : list Z) (def : Z) : option Z :=
  zdict_get_conv (fun s => zstr_to_second s def) dict name def.
Definition zdict_get_size (dict : option zdict_t) (name : list Z) (def : Z) : option Z :=
  zdict_get_conv (fun s => zstr_to_size s def) dict name def.

(** The two ways to update, as one operation of the interface. *)
Inductive zdict_value := DString (value : list Z) (value_len : Z) | DBuf (value : zbuf).
Definition zdict_api : keyed_api (list Z) zbuf zdict_value :=
  mk_keyed_api zdict_create
    (fun k a => match a with DString v n => zdict_update_string k v n | DBuf b => zdict_update k b end)
    zdict_find zdict_find_near_prev zdict_find_near_next zdict_delete zdict_delete_node None zdict_first
    zdict_last zdict_next zdict_prev zdict_len zdict_reset zdict_free ZDICT_WALK.
End zdict.

(** ** Values *)
(** A buffer of the dictionary holds the bytes. *)
Definition dict_rep (b : zbuf) (x : list Z) : Prop := Buf.holds None x b.
Definition value_bytes (a : zdict_value) : option (list Z) :=
  match a with DString v n => in_bytes v n | DBuf b => zbuf_bytes b end.
(** The bytes are there, and few enough for a growing buffer. *)
Definition value_ok (a : zdict_value) : Prop :=
  exists x, value_bytes a = Some x /\ bytes_ok x /\ zlen x + 1 < 2 ^ 29 /\
    match a with DString _ _ => True | DBuf b => bf_len b = zlen x end.
Definition value_abs (a : zdict_value) : list Z := default [] (value_bytes a).

Lemma zdict_assign_runs src n x old : in_bytes src n = Some x -> zlen x = n -> bytes_ok x -> n + 1 < 2 ^ 29 ->
  (forall b, old = Some b -> exists y, dict_rep b y) -> runs (zdict_assign src n old) (fun b => dict_rep b x).
Proof.
  intros Hin Hx Hb Hn Hold. pose proof (zlen_nonneg x).
  assert (Hcpy : forall b y, dict_rep b y -> runs (zbuf_memcpy b src n) (fun b => dict_rep b x)).
  { intros b y [Hy _]. eapply runs_mono; [apply (zbuf_memcpy_holds None b y src n x); try done; unfold int_max; cbn; lia|].
    done. }
  destruct old as [b|]; cbn; [destruct (Hold b eq_refl) as [y Hy]; by eapply Hcpy|].
  eapply runs_bind; [apply (zbuf_create_holds n); lia|]. intros b Hb0. by eapply Hcpy.
Qed.
Lemma in_bytes_strlen src x : cstr src = Some x -> in_bytes src (zlen x) = Some x.
Proof.
  intros (rest & -> & _)%cstr_split. apply in_bytes_app.
Qed.
Definition assign_of (a : zdict_value) (old : option zbuf) : option zbuf :=
  match a with
  | DString value value_len => n ← value_strlen value value_len; zdict_assign value n old
  | DBuf value => src ← zbuf_bytes value; zdict_assign src (bf_len value) old
  end.
Lemma assign_of_runs a old : value_ok a -> (forall b, old = Some b -> exists y, dict_rep b y) ->
  runs (assign_of a old) (fun b => dict_rep b (value_abs a)).
Proof.
  intros (x & Hx & Hb & Hl & Hbuf) Hold. pose proof (zlen_nonneg x). unfold value_abs. rewrite Hx. cbn [default].
  destruct a as [v n|b]; cbn in *.
  - assert (value_strlen v n = Some (zlen x) /\ in_bytes v (zlen x) = Some x) as [-> Hin].
    { unfold value_strlen. destruct (Z.ltb_spec n 0) as [Hn|Hn].
      - unfold in_bytes in Hx. rewrite (proj2 (Z.ltb_lt _ _) Hn) in Hx. rewrite Hx. cbn.
        rewrite as_int_Some by lia. split; [done|by apply in_bytes_strlen].
      - assert (Hn' : zlen x = n); [|by subst n].
        unfold in_bytes in Hx. rewrite (proj2 (Z.ltb_ge _ _) Hn) in Hx.
        destruct (Z.leb_spec n (zlen v)); [|done]. injection Hx as <-. by apply zlen_take. }
    by apply zdict_assign_runs.
  - rewrite Hx. cbn. rewrite Hbuf. apply zdict_assign_runs; try done. apply in_bytes_full.
Qed.
Lemma assign_of_ok a : value_ok a -> assigns dict_rep (assign_of a) (value_abs a).
Proof.
  intros Ha. split.
  - apply (assign_of_runs a None Ha). done.
  - intros v0 w0 Hv. apply (assign_of_runs a (Some v0) Ha). intros b [= <-]. by exists w0.
Qed.

Abbreviation dict_spec := (kv_spec_all (K := list Z) (V := zbuf) (A := zdict_value) strcmp value_abs (fun _ => [])).
(** Every value stored is well formed; nodes have no setter. *)
Definition dict_ok (op : kv_op (list Z) zbuf zdict_value) : Prop :=
  match op with KUpdate _ a => value_ok a | KNodeUpdate _ _ => False | _ => True end.

Lemma zdict_run `{AllocatorSound} (ops : list (kv_op (list Z) zbuf zdict_value)) :
  Forall dict_ok ops -> zlen ops <= int_max ->
  exists rs s s', kv_exec_all zdict_api ops zdict_create = Some (rs, s) /\
    Forall2 (res_rel dict_rep) rs (dict_spec (kv_as_coded <$> ops) []).1 /\ kv_rep strcmp dict_rep s (dict_spec ops []).2 /\
    zdict_free s = Some (tt, s') /\ released s'.
Proof.
  intros Hok Hlen.
  destruct (kv_run_refines strcmp dict_rep assign_of false (kv_reset0 strcmp) value_abs (fun _ => []) value_ok)
    with (ops := ops) as (rs & s & s' & E & Hrs & Hs & E' & Hr); try done.
  - apply assign_of_ok.
  - apply (kv_reset0_spec strcmp dict_rep).
  - eapply Forall_impl; [exact Hok|]. by intros [].
  - exists rs, s, s'. split; [|done]. rewrite <- E. symmetry.
    apply (kv_exec_all_update zdict_api (fun k a => kv_update strcmp k (assign_of a))). by intros k [].
Qed.


(** ** Reading values *)
Lemma zbuf_data_z_rep b x : dict_rep b x -> zbuf_data_z b = Some (x ++ [0]).
Proof.
  intros [Hr Ht]. destruct (rep_data _ _ _ Hr) as [rest E]. unfold terminated in Ht.
  rewrite E, (rep_len _ _ _ Hr) in Ht. unfold zbuf_data_z. rewrite E, (rep_len _ _ _ Hr).
  rewrite <- (zlen_fmap Some x) in Ht. rewrite rd_app_r, Z.sub_diag in Ht by lia.
  destruct rest as [|c rest]; [done|]. rewrite rd_0 in Ht. injection Ht as ->.
  rewrite zlen_to_nat. change ((Some <$> x) ++ Some 0 :: rest) with ((Some <$> x) ++ ([Some 0] ++ rest)).
  rewrite app_assoc, take_app_length' by (rewrite length_app, length_fmap; simpl; lia).
  apply mapM_Some_2, Forall2_app; [|by constructor].
  clear. induction x as [|c x IH]; by constructor.
Qed.
(** What the getters answer from the association list. *)
Definition get_str_spec (al : list (list Z * list Z)) (name : list Z) (def : option (list Z)) : option (list Z) :=
  match al_find strcmp name al with Some (_, x) => Some (x ++ [0]) | None => def end.
Definition get_conv_spec (conv : list Z -> option Z) al (name : list Z) (def : Z) : option Z :=
  match al_find strcmp name al with
  | Some (_, c :: x) => if c =? 0 then Some def else conv (c :: x ++ [0])
  | _ => Some def
  end.

Section getters.
Context `{AllocatorSound} (s : kvstate (list Z) zbuf) (al : list (list Z * list Z)) (name : list Z).
Hypothesis Hs : kv_rep strcmp dict_rep s al.

Lemma get_str_rep def : zdict_get_str (Some s) name def = Some (get_str_spec al name def).
Proof using H0 Hs.
  destruct Hs as [l Hl]. pose proof (kv_find_spec strcmp dict_rep name (zlen al) s l al Hl) as Hf.
  apply wp_runs in Hf as ([n v] & s' & E & _ & Hn & Hv). unfold zdict_get_str, zdict_find, get_str_spec. rewrite E. cbn.
  cbn in Hn, Hv. destruct (al_find strcmp name al) as [[k x]|]; inversion Hv as [b ? Hb|]; subst; cbn.
  - destruct Hn as (_ & Hn & _). cbn in Hn. rewrite (proj2 (Z.eqb_neq n 0)) by done.
    by rewrite (zbuf_data_z_rep b x Hb).
  - done.
Qed.
Lemma get_conv_rep conv def : zdict_get_conv conv (Some s) name def = get_conv_spec conv al name def.
Proof using H0 Hs.
  unfold zdict_get_conv. rewrite get_str_rep. unfold get_str_spec, get_conv_spec. cbn.
  destruct (al_find strcmp name al) as [[k [|c x]]|]; done.
Qed.

(** The getters of a dictionary read the bytes stored under the name: the text
    up to its NUL, converted by [zstr_to_bool], [atoi], [atol], [zstr_to_second]
    or [zstr_to_size]; the default answers a NULL dictionary, a missing name and a
    value that is empty or starts with a NUL. *)
Theorem zdict_getters_spec :
  (forall def, zdict_get_str None name def = Some def /\
     zdict_get_str (Some s) name def = Some (get_str_spec al name def)) /\
  (forall def, zdict_get_int None name def = Some def) /\
  forall def, zdict_get_bool (Some s) name def = get_conv_spec (fun x => zstr_to_bool x def) al name def /\
    zdict_get_int (Some s) name def = get_conv_spec atoi al name def /\
    zdict_get_long (Some s) name def = get_conv_spec atol al name def /\
    zdict_get_second (Some s) name def = get_conv_spec (fun x => zstr_to_second x def) al name def /\
    zdict_get_size (Some s) name def = get_conv_spec (fun x => zstr_to_size x def) al name def.
Proof using H0 Hs.
  split; [intros def; split; [done|apply get_str_rep]|]. split; [done|].
  intros def. repeat split; apply get_conv_rep.
Qed.
End getters.

(** ** Runs *)
Definition dict_demo : list (kv_op (list Z) zbuf zdict_value) :=
  [KUpdate (str "port") (DString (str "8025" ++ [0]) (-1)); KUpdate (str "host") (DString (str "localhost") 5);
   KUpdate (str "port") (DString (str "25") 2); KUpdate (str "idle") (DString (str "3m" ++ [0; 7]) (-1));
   KFind (str "port"); KNearPrev (str "i"); KNearNext (str "i"); KDelete (str "host"); KLen; KWalk].
Lemma dict_demo_ok : Forall dict_ok dict_demo.
Proof.
  unfold dict_demo. repeat constructor; eexists; (split; [reflexivity|]);
    (split; [apply (bool_decide_unpack _); vm_compute; exact I|split; [reflexivity|exact I]]).
Qed.
Lemma zdict_getters_spec_witness :
  exists s, kv_rep strcmp dict_rep s [(str "idle", str "3m"); (str "port", str "25")] /\
    zdict_get_int (Some s) (str "port") 7 = Some 25 /\ zdict_get_second (Some s) (str "idle") 7 = Some 180.
Proof.
  destruct (zdict_run dict_demo dict_demo_ok ltac:(vm_compute; discriminate)) as (rs & s & s' & _ & _ & Hs & _).
  exists s. split; [exact Hs|]. split.
  - apply (zdict_getters_spec s _ (str "port") Hs).
  - apply (zdict_getters_spec s _ (str "idle") Hs).
Defined.
