(* ===== verification/Json.v ===== *)
(** * JSON values: src/json/json.c and src/json/serialize.c

    A value is a node of a store, named by its address; 0 is NULL. The member of
    the union in use and the field [type] are one constructor of [jval]. Strings
    are buffers of Buf.v, arrays are vectors of Vector.v that hold addresses, and
    objects are maps of Maps.v, so that every operation here runs theirs. The
    temporary vectors of the loops ([for_deteled], [json_vec] and the two beside
    it) are lists, their last element first. *)
From stdpp Require Import gmap.
From S2P Require Import Prelude Chars Buf Vector Text Xml StateMonad Keyed Maps.

(** [double] and the conversions of the C library that the code calls;
    [dbl_trunc d] is the cast to [ssize_t], undefined ([None]) out of its range. *)
Class Doubles := {
  dbl : Type;
  dbl_zero : dbl;
  atof : list Z -> dbl;
  dbl_trunc : dbl -> option Z;
  fmt_e : dbl -> list Z;
  fmt_lf : dbl -> list Z
}.

Section json.
Context `{!Allocator} `{!Doubles}.
Abbreviation zmap_t := (kvstate (list Z) Z).

Inductive jval :=
  | VNull | VBool (b : Z) | VLong (l : Z) | VDouble (d : dbl) | VString (s : zbuf)
  | VObject (m : zmap_t) | VArray (v : zvector).
(** [zjson_t] *)
Record jnode := mk_jnode { jn_val : jval; jn_parent : Z }.
Abbreviation jstore := (gmap Z jnode).
Abbreviation JM := (St jstore).

(** ** Fields *)
Definition get_json (j : Z) : JM jnode := st ← gets id; of_option (st !! j).
Definition put_json (j : Z) (n : jnode) : JM unit := get_json j;; modify (fun st => <[j := n]> st).
Definition free_json (j : Z) : JM unit := get_json j;; modify (fun st => delete j st).
Definition get_jval (j : Z) : JM jval := n ← get_json j; mret (jn_val n).
Definition set_jval (j : Z) (v : jval) : JM unit := n ← get_json j; put_json j (mk_jnode v (jn_parent n)).
Definition set_parent (j parent : Z) : JM unit := n ← get_json j; put_json j (mk_jnode (jn_val n) parent).
(** A map operation on [j->val.m], a vector operation on [j->val.v]. *)
Definition on_map {A} (j : Z) (f : St zmap_t A) : JM A :=
  v ← get_jval j;
  match v with
  | VObject m => r ← of_option (f m); set_jval j (VObject (snd r));; mret (fst r)
  | _ => undefined
  end.
Definition on_vec {A} (j : Z) (f : zvector -> option (zvector * A)) : JM A :=
  v ← get_jval j;
  match v with
  | VArray a => r ← of_option (f a); set_jval j (VArray (fst r));; mret (snd r)
  | _ => undefined
  end.

(** ** Creation, [zcalloc] leaves the parent NULL *)
Definition alloc_json (v : jval) : JM Z :=
  st ← gets id;
  let j := new_addr (dom st) in
  modify (fun st => <[j := mk_jnode v 0]> st);; mret j.
Definition zjson_create : JM Z := alloc_json VNull.
Definition zjson_create_bool (b : Z) : JM Z := alloc_json (VBool b).
Definition zjson_create_long (l : Z) : JM Z := alloc_json (VLong l).
Definition zjson_create_double (d : dbl) : JM Z := alloc_json (VDouble d).
Definition zjson_create_string (s : list Z) (len : Z) : JM Z :=
  x ← of_option (in_bytes s len);
  b ← of_option (b ← zbuf_create (zlen x); zbuf_memcpy b s (zlen x));
  alloc_json (VString b).
Definition zjson_create_array : JM Z := v ← of_option (zvector_create (-1)); alloc_json (VArray v).
Definition zjson_create_object : JM Z := alloc_json (VObject zmap_create).

(** ** Release *)

(** Elements of the arrays and objects of the store; what is left to do when
    [for_deteled] holds [stack]. *)
Definition jval_children (v : jval) : nat :=
  match v with VArray a => Z.to_nat (v_len a) | VObject m => Z.to_nat (kv_len m) | _ => 0 end.
Definition jweight (st : jstore) : nat :=
  map_fold (fun _ n acc => 1 + 2 * jval_children (jn_val n) + acc)%nat 0%nat st.

Definition free_unless (js j : Z) : JM unit := if negb (js =? j) then free_json js else skip.
Fixpoint reset_loop (fuel : nat) (j : Z) (for_deteled : list Z) : JM unit :=
  match for_deteled, fuel with
  | [], _ => skip
  | _, O => undefined
  | js :: rest, S fuel' =>
      if js =? 0 then reset_loop fuel' j rest else
      v ← get_jval js;
      match v with
      | VString _ => (* zbuf_free *) free_unless js j;; reset_loop fuel' j rest
      | VArray a =>
          if v_len a =? 0 then (* zvector_free *) free_unless js j;; reset_loop fuel' j rest
          else r ← on_vec js zvector_pop; reset_loop fuel' j (snd r :: js :: rest)
      | VObject m =>
          if kv_len m =? 0 then of_option (zmap_free m);; free_unless js j;; reset_loop fuel' j rest
          else js2 ← on_map js (n ← zmap_first; zmap_delete_node n);
               reset_loop fuel' j (js2 :: js :: rest)
      | _ => free_unless js j;; reset_loop fuel' j rest
      end
  end.
Definition zjson_reset (j : Z) : JM unit :=
  st ← gets id;
  reset_loop (S (S (jweight st))) j [j];;
  set_jval j VNull.
Definition zjson_free (j : Z) : JM unit :=
  if j =? 0 then skip else
  v ← get_jval j;
  match v with VObject _ | VArray _ => zjson_reset j | _ => skip end;;
  free_json j.

(** ** Getters: a value of another type is reset first *)
Definition ensure (is_type : jval -> bool) (init : option jval) (j : Z) : JM unit :=
  v ← get_jval j;
  if is_type v then skip else
  zjson_reset j;; v ← of_option init; set_jval j v.
Definition is_string (v : jval) : bool := match v with VString _ => true | _ => false end.
Definition is_long (v : jval) : bool := match v with VLong _ => true | _ => false end.
Definition is_double (v : jval) : bool := match v with VDouble _ => true | _ => false end.
Definition is_bool (v : jval) : bool := match v with VBool _ => true | _ => false end.
Definition is_array (v : jval) : bool := match v with VArray _ => true | _ => false end.
Definition is_object (v : jval) : bool := match v with VObject _ => true | _ => false end.
Definition zjson_get_string_value : Z -> JM unit := ensure is_string (VString <$> zbuf_create (-1)).
Definition zjson_get_long_value : Z -> JM unit := ensure is_long (Some (VLong 0)).
Definition zjson_get_double_value : Z -> JM unit := ensure is_double (Some (VDouble dbl_zero)).
Definition zjson_get_bool_value : Z -> JM unit := ensure is_bool (Some (VBool 0)).
Definition zjson_get_array_value : Z -> JM unit := ensure is_array (VArray <$> zvector_create (-1)).
Definition zjson_get_object_value : Z -> JM unit := ensure is_object (Some (VObject zmap_create)).

(** ** Arrays and objects *)
Definition zjson_array_get (j idx : Z) : JM Z :=
  if idx <? 0 then mret 0 else
  zjson_get_array_value j;;
  on_vec j (fun v => if v_len v <=? idx then Some (v, 0) else x ← vget v idx; Some (v, x)).
Definition zjson_object_get (j : Z) (key : list Z) : JM Z :=
  zjson_get_object_value j;;
  r ← on_map j (zmap_find key);
  mret (default 0 (snd r)).
Definition zjson_array_get_len (j : Z) : JM Z := zjson_get_array_value j;; on_vec j (fun v => Some (v, v_len v)).
Definition zjson_object_get_len (j : Z) : JM Z := zjson_get_object_value j;; on_map j zmap_len.
Definition zjson_array_push (j element : Z) : JM Z :=
  set_parent element j;;
  zjson_get_array_value j;;
  on_vec j (fun v => v ← zvector_push v element; Some (v, tt));;
  mret element.
Definition zjson_array_unshift (j element : Z) : JM Z :=
  set_parent element j;;
  zjson_get_array_value j;;
  on_vec j (fun v => v ← zvector_unshift v element; Some (v, tt));;
  mret element.
(** The address of [tmpj] is not what is passed on, but its value, NULL: the
    element removed is not stored anywhere. The answer is [ret] and [*element]. *)
Definition zjson_array_pop (j : Z) : JM (bool * Z) :=
  zjson_get_array_value j;; r ← on_vec j zvector_pop; mret (fst r, 0).
Definition zjson_array_shift (j : Z) : JM (bool * Z) :=
  zjson_get_array_value j;; r ← on_vec j zvector_shift; mret (fst r, 0).

(** An element taken out: handed to the caller, or freed. *)
Definition give_back (want_old : bool) (tmpj : Z) : JM Z :=
  if want_old then (if tmpj =? 0 then skip else set_parent tmpj 0);; mret tmpj
  else (if tmpj =? 0 then skip else zjson_free tmpj);; mret 0.
Definition zjson_array_update (j idx element : Z) (want_old : bool) : JM Z :=
  set_parent element j;;
  zjson_get_array_value j;;
  tmpj ← on_vec j (fun v =>
    let idx := if idx <? 0 then v_len v else idx in
    if idx <? v_len v then tmpj ← vget v idx; v ← vput v idx element; Some (v, tmpj)
    else v ← zvector_insert v idx element; Some (v, 0));
  give_back want_old tmpj.
(** [element->parent] is left as it is. *)
Definition zjson_array_insert (j idx element : Z) : JM Z :=
  zjson_get_array_value j;;
  on_vec j (fun v => v ← zvector_insert v idx element; Some (v, tt));;
  mret element.
Definition zjson_array_delete (j idx : Z) (want_old : bool) : JM Z :=
  zjson_get_array_value j;;
  r ← on_vec j (fun v => zvector_delete v idx);
  give_back want_old (snd r).
Definition zjson_object_update (j : Z) (key : list Z) (element : Z) (want_old : bool) : JM Z :=
  set_parent element j;;
  zjson_get_object_value j;;
  r ← on_map j (zmap_update key element);
  give_back want_old (default 0 (snd r)).
Definition zjson_object_delete (j : Z) (key : list Z) (want_old : bool) : JM Z :=
  zjson_get_object_value j;;
  old ← on_map j (zmap_delete key);
  give_back want_old (default 0 old).

(** ** Paths *)

(** The pieces between slashes. *)
Fixpoint split_slash (path : list Z) : list (list Z) :=
  match path with
  | [] => [[]]
  | c :: path' =>
      if c =? chr "/" then [] :: split_slash path'
      else match split_slash path' with p :: ps => (c :: p) :: ps | [] => [[c]] end
  end.
(** The index a piece spells; [Some None] when it is not one, [None] on overflow. *)
Fixpoint path_index (idx : Z) (p : list Z) : option (option Z) :=
  match p with
  | [] => Some (Some idx)
  | c :: p' => if isdigit c then idx ← as_int (idx * 10 + (c - 48)); path_index idx p' else Some None
  end.
Fixpoint path_loop (jn : Z) (pieces : list (list Z)) : JM Z :=
  match pieces with
  | [] => mret jn
  | ps :: pieces' =>
      if jn =? 0 then mret 0 else
      v ← get_jval jn;
      jn ← match v with
           | VArray _ => i ← of_option (path_index 0 ps);
                         match i with Some idx => zjson_array_get jn idx | None => mret 0 end
           | VObject _ => zjson_object_get jn ps
           | _ => mret 0
           end;
      path_loop jn pieces'
  end.
Definition zjson_get_element_by_path (j : Z) (path : list Z) : JM Z :=
  match path with [] => mret j | _ => path_loop j (split_slash path) end.

Fixpoint top_loop (fuel : nat) (r : Z) : JM Z :=
  match fuel with
  | O => undefined
  | S fuel' => n ← get_json r; if jn_parent n =? 0 then mret r else top_loop fuel' (jn_parent n)
  end.
Definition zjson_get_top (j : Z) : JM Z := st ← gets id; top_loop (size st) j.

(** ** Reading text: what is left between [ps] and [str_end] is a list *)
Definition json_blank (c : Z) : bool := (c =? chr " ") || (c =? 9) || (c =? 13) || (c =? 10).
Fixpoint ignore_blank (ps : list Z) : list Z :=
  match ps with c :: ps' => if json_blank c then ignore_blank ps' else ps | [] => [] end.

(** The character an escape stands for; 0 for an unknown one. *)
Definition escape_char (ch2 : Z) : Z :=
  if ch2 =? chr "\" then chr "\" else if ch2 =? chr "/" then chr "/"
  else if ch2 =? 34 then 34 else if ch2 =? chr "'" then chr "'"
  else if ch2 =? chr "b" then 8 else if ch2 =? chr "f" then 12
  else if ch2 =? chr "r" then 13 else if ch2 =? chr "n" then 10
  else if ch2 =? chr "t" then 9 else 0.
(** [uval = (uval << 4) + ch4], four times. The table is unsigned, so that no digit
    compares equal to -1. *)
Definition hex4 (a b c d : Z) : Z :=
  foldl (fun uval ch => Z.shiftl uval 4 + zhexval ch) 0 [a; b; c; d].

Fixpoint fetch_string_loop (begin : Z) (ps : list Z) (b : zbuf) : option (zbuf * list Z) :=
  match ps with
  | [] => Some (b, [])
  | ch :: ps1 =>
      if (ch =? 34) || (ch =? chr "'") then
        if begin =? ch then Some (b, ps1)
        else b ← zbuf_put b ch; fetch_string_loop begin ps1 b
      else match ps1 with
      | [] => Some (b, [])
      | ch2 :: ps2 =>
          if ch =? chr "\" then
            if ch2 =? chr "u" then
              match ps2 with
              | h1 :: h2 :: h3 :: h4 :: ps3 =>
                  let buf := zncr_decode (hex4 h1 h2 h3 h4) in
                  b ← zbuf_memcat b buf (zlen buf); fetch_string_loop begin ps3 b
              | _ => Some (b, ps2)
              end
            else
              let ch3 := escape_char ch2 in
              if negb (ch3 =? 0) then b ← zbuf_put b ch3; fetch_string_loop begin ps2 b
              else b ← zbuf_put b (chr "\"); b ← zbuf_put b ch2; fetch_string_loop begin ps2 b
          else b ← zbuf_put b ch; fetch_string_loop begin ps1 b
      end
  end.
Definition fetch_string (ps : list Z) (b : zbuf) : option (zbuf * list Z) :=
  match ps with begin :: ps' => fetch_string_loop begin ps' b | [] => None end.

(** A bare key. *)
Fixpoint fetch_string2 (ps : list Z) (b : zbuf) : option (zbuf * list Z) :=
  match ps with
  | ch :: ps' => if json_blank ch || (ch =? chr ":") then Some (b, ps)
                 else b ← zbuf_put b ch; fetch_string2 ps' b
  | [] => Some (b, [])
  end.

(** Blanks and commas before an element: what follows and [comma_count];
    [None] at the end of the text. *)
Fixpoint skip_commas (comma_count : Z) (ps : list Z) : option (list Z * Z) :=
  match ps with
  | [] => None
  | c :: ps' => if json_blank c then skip_commas comma_count ps'
                else if c =? chr "," then skip_commas (comma_count + 1) ps'
                else Some (ps, comma_count)
  end.

Definition number_char (c : Z) : bool :=
  (c =? chr "-") || (c =? chr "+") || (c =? chr ".") || (c =? chr "E") || (c =? chr "e") || isdigit c.
Fixpoint fetch_number (ps : list Z) (is_double : bool) (b : zbuf) : option (zbuf * list Z * bool) :=
  match ps with
  | ch :: ps' =>
      if number_char ch then
        b ← zbuf_put b ch;
        fetch_number ps' (is_double || (ch =? chr ".") || (ch =? chr "e") || (ch =? chr "E")) b
      else Some (b, ps, is_double)
  | [] => Some (b, [], is_double)
  end.
(** [None] inside when the word grows past 10 letters: [goto err]. *)
Fixpoint fetch_word (ps : list Z) (b : zbuf) : option (zbuf * option (list Z)) :=
  match ps with
  | ch :: ps' =>
      if isalpha ch then
        b ← zbuf_put b (ztolower ch);
        if 10 <? bf_len b then Some (b, None) else fetch_word ps' b
      else Some (b, Some ps)
  | [] => Some (b, Some [])
  end.
(** [zbuf_data] of the temporary buffer as a C string. *)
Definition zbuf_cstr (b : zbuf) : option (list Z) :=
  x ← zbuf_bytes b; cstr (x ++ [0]).

(** [for (i = 0; i < n; i++) zjson_array_push(j, zjson_create())] *)
Fixpoint push_nulls_json (n : nat) (j : Z) : JM unit :=
  match n with O => skip | S n' => e ← zjson_create; zjson_array_push j e;; push_nulls_json n' j end.

(** *** One round of the loop of [zjson_unserialize]

    [ps] is at a character that is not blank, [cur] was popped from [json_vec].
    The answer is the new state of [tmpkey], [ps] and [json_vec]; [None] is
    [goto err]. *)
Definition round : Type := zbuf * list Z * list Z.

Definition object_round (tmpkey : zbuf) (ps : list Z) (cur : Z) (json_vec : list Z) : JM (option round) :=
  match skip_commas 0 ps with
  | None | Some ([], _) => mret None
  | Some ((c :: ps1) as ps, comma_count) =>
      if c =? chr "}" then mret (Some (tmpkey, ps1, json_vec)) else
      n ← zjson_object_get_len cur;
      if (0 <? n) && (comma_count =? 0) then mret None else
      tmpkey ← of_option (zbuf_reset tmpkey);
      r ← of_option (if (c =? 34) || (c =? chr "'") then fetch_string ps tmpkey else fetch_string2 ps tmpkey);
      let '(tmpkey, ps) := r in
      key ← of_option (zbuf_cstr tmpkey);
      new_json ← zjson_create;
      old_json ← zjson_object_update cur key new_json true;
      if negb (old_json =? 0) then zjson_free old_json;; mret None else
      match ignore_blank ps with
      | c :: ps => if c =? chr ":" then mret (Some (tmpkey, ps, new_json :: cur :: json_vec)) else mret None
      | [] => mret None
      end
  end.
Definition array_round (tmpkey : zbuf) (ps : list Z) (cur : Z) (json_vec : list Z) : JM (option round) :=
  match skip_commas 0 ps with
  | None | Some ([], _) => mret None
  | Some ((c :: ps1) as ps, comma_count) =>
      if c =? chr "]" then
        push_nulls_json (Z.to_nat comma_count) cur;; mret (Some (tmpkey, ps1, json_vec))
      else
        push_nulls_json (Z.to_nat (comma_count - 1)) cur;;
        n ← zjson_array_get_len cur;
        if (0 <? n) && (comma_count <? 1) then mret None else
        new_json ← zjson_create;
        zjson_array_push cur new_json;;
        mret (Some (tmpkey, ps, new_json :: cur :: json_vec))
  end.
Definition string_round (tmpkey : zbuf) (ps : list Z) (cur : Z) (json_vec : list Z) : JM (option round) :=
  tmpkey ← of_option (zbuf_reset tmpkey);
  r ← of_option (fetch_string ps tmpkey);
  let '(tmpkey, ps) := r in
  v ← get_jval cur;
  match v with
  | VString _ | VNull =>
      zjson_get_string_value cur;;
      v ← get_jval cur;
      match v with
      | VString s =>
          x ← of_option (zbuf_bytes tmpkey);
          s ← of_option (zbuf_memcpy s x (bf_len tmpkey));
          set_jval cur (VString s);;
          tmpkey ← of_option (zbuf_reset tmpkey);
          mret (Some (tmpkey, ps, json_vec))
      | _ => undefined
      end
  | _ => mret None
  end.
Definition number_round (tmpkey : zbuf) (ps : list Z) (cur : Z) (json_vec : list Z) : JM (option round) :=
  tmpkey ← of_option (zbuf_reset tmpkey);
  r ← of_option (fetch_number ps false tmpkey);
  let '(tmpkey, ps, is_double) := r in
  x ← of_option (zbuf_cstr tmpkey);
  (if is_double : bool then zjson_get_double_value cur;; set_jval cur (VDouble (atof x))
   else zjson_get_long_value cur;; set_jval cur (VLong (strtol10 x)));;
  mret (Some (tmpkey, ps, json_vec)).
Definition word_round (tmpkey : zbuf) (ps : list Z) (cur : Z) (json_vec : list Z) : JM (option round) :=
  tmpkey ← of_option (zbuf_reset tmpkey);
  r ← of_option (fetch_word ps tmpkey);
  match r with
  | (_, None) => mret None
  | (tmpkey, Some ps) =>
      x ← of_option (zbuf_cstr tmpkey);
      if (strcmp x (str "null") =? 0) || (strcmp x (str "undefined") =? 0) then
        zjson_reset cur;; mret (Some (tmpkey, ps, json_vec))
      else if strcmp x (str "true") =? 0 then
        zjson_get_bool_value cur;; set_jval cur (VBool 1);; mret (Some (tmpkey, ps, json_vec))
      else if strcmp x (str "false") =? 0 then
        zjson_get_bool_value cur;; set_jval cur (VBool 0);; mret (Some (tmpkey, ps, json_vec))
      else mret None
  end.
Definition value_round (tmpkey : zbuf) (ps : list Z) (cur : Z) (json_vec : list Z) : JM (option round) :=
  match ps with
  | [] => undefined
  | c :: ps1 =>
      if c =? chr "{" then zjson_get_object_value cur;; mret (Some (tmpkey, ps1, cur :: json_vec))
      else if c =? chr "[" then zjson_get_array_value cur;; mret (Some (tmpkey, ps1, cur :: json_vec))
      else if (c =? 34) || (c =? chr "'") then string_round tmpkey ps cur json_vec
      else if (c =? chr "-") || isdigit c then number_round tmpkey ps cur json_vec
      else word_round tmpkey ps cur json_vec
  end.
Fixpoint unserialize_loop (fuel : nat) (tmpkey : zbuf) (ps json_vec : list Z) : JM bool :=
  match fuel with
  | O => undefined
  | S fuel' =>
      match ignore_blank ps, json_vec with
      | [], _ | _, [] => mret true
      | ps, cur :: json_vec =>
          v ← get_jval cur;
          r ← match v with
              | VObject _ => object_round tmpkey ps cur json_vec
              | VArray _ => array_round tmpkey ps cur json_vec
              | _ => value_round tmpkey ps cur json_vec
              end;
          match r with
          | Some (tmpkey, ps, json_vec) => unserialize_loop fuel' tmpkey ps json_vec
          | None => mret false
          end
      end
  end.
(** Every two rounds read a character. *)
Definition zjson_unserialize (j : Z) (jstr : list Z) (jlen : Z) : JM bool :=
  ps ← of_option (in_bytes jstr jlen);
  zjson_reset j;;
  tmpkey ← of_option (zbuf_create 128);
  ret ← unserialize_loop (2 * length ps + 2) tmpkey ps [j];
  (if ret : bool then skip else zjson_reset j);;
  mret ret.

(** ** Writing text *)
Definition json_hex_chars : list Z := str "0123456789abcdef".
Definition escape_of (ch : Z) : Z :=
  if ch =? chr "\" then chr "\" else if ch =? chr "/" then chr "/" else if ch =? 34 then 34
  else if ch =? 8 then chr "b" else if ch =? 12 then chr "f" else if ch =? 10 then chr "n"
  else if ch =? 13 then chr "r" else if ch =? 9 then chr "t" else 0.
Fixpoint serialize_chars (data : list Z) (b : zbuf) : option zbuf :=
  match data with
  | [] => Some b
  | ch :: data' =>
      b ← (if negb (escape_of ch =? 0) then b ← zbuf_put b (chr "\"); zbuf_put b (escape_of ch)
           else if ch <? chr " " then
             b ← zbuf_strcat b (Some (str "\u00" ++ [0]));
             b ← zbuf_put b (tab json_hex_chars (Z.shiftr ch 4));
             zbuf_put b (tab json_hex_chars (Z.land ch 15))
           else zbuf_put b ch);
      serialize_chars data' b
  end.
Definition serialize_string (b : zbuf) (data : list Z) : option zbuf :=
  b ← zbuf_put b 34; b ← serialize_chars data b; zbuf_put b 34.

Definition serialize_double (b : zbuf) (d : dbl) : option zbuf :=
  l ← dbl_trunc d;
  if (1000 * 1000 * 1000 * 1000 <? l) || (l <? - (1000 * 1000 * 1000 * 1000)) then zbuf_printf_1024 b (fmt_e d)
  else zbuf_printf_1024 b (fmt_lf d).

(** The three vectors are pushed and popped together: an entry is a value, its
    index in [array_vec] and its map node in [object_vec]. *)
Definition work : Type := Z * Z * Z.
Definition array_work (a : zvector) (p idx : Z) (stack : list work) (b : zbuf) : option (list work * zbuf) :=
  let length := v_len a in
  if length =? 0 then b ← zbuf_puts b (str "[]"); Some (stack, b)
  else if idx =? 0 then b ← zbuf_put b (chr "["); Some ((p, 1, 0) :: stack, b)
  else if idx =? length + 1 then b ← zbuf_put b (chr "]"); Some (stack, b)
  else
    b ← (if (1 <? idx) && (idx <? length + 1) then zbuf_put b (chr ",") else Some b);
    e ← (if idx - 1 <? 0 then Some 0 else if length <=? idx - 1 then Some 0 else vget a (idx - 1));
    Some ((e, 0, 0) :: (p, idx + 1, 0) :: stack, b).
Definition object_work (m : zmap_t) (p idx map_it : Z) (stack : list work) (b : zbuf) : option (list work * zbuf) :=
  if kv_len m =? 0 then b ← zbuf_puts b (str "{}"); Some (stack, b)
  else if map_it =? 0 then
    if idx =? 0 then
      b ← zbuf_put b (chr "{");
      it ← fst <$> zmap_first m;
      Some ((p, 1, it) :: stack, b)
    else b ← zbuf_put b (chr "}"); Some (stack, b)
  else
    first ← fst <$> zmap_first m;
    b ← (if negb (map_it =? first) then zbuf_put b (chr ",") else Some b);
    next ← fst <$> zmap_next map_it m;
    key ← key_of m !! map_it;
    b ← serialize_string b key;
    b ← zbuf_put b (chr ":");
    value ← val_of m !! map_it;
    Some ((value, 0, 0) :: (p, 1, next) :: stack, b).
Fixpoint serialize_loop (fuel : nat) (st : jstore) (stack : list work) (b : zbuf) : option zbuf :=
  match stack, fuel with
  | [], _ => Some b
  | _, O => None
  | (p, idx, map_it) :: stack, S fuel' =>
      v ← (if p =? 0 then Some VNull else jn_val <$> st !! p);
      match v with
      | VNull => b ← zbuf_puts b (str "null"); serialize_loop fuel' st stack b
      | VString s => x ← zbuf_bytes s; b ← serialize_string b x; serialize_loop fuel' st stack b
      | VBool t => b ← zbuf_puts b (if t =? 0 then str "false" else str "true"); serialize_loop fuel' st stack b
      | VLong l => b ← zbuf_printf_1024 b (fmt_zd l); serialize_loop fuel' st stack b
      | VDouble d => b ← serialize_double b d; serialize_loop fuel' st stack b
      | VArray a => r ← array_work a p idx stack b; let (stack, b) := (r : list work * zbuf) in serialize_loop fuel' st stack b
      | VObject m => r ← object_work m p idx map_it stack b; let (stack, b) := (r : list work * zbuf) in serialize_loop fuel' st stack b
      end
  end.
(** A node is visited once more than it has elements, and once at its start. *)
Definition serialize_fuel (st : jstore) : nat :=
  map_fold (fun _ n acc => 2 + 2 * jval_children (jn_val n) + acc)%nat 2%nat st.
Definition zjson_serialize (st : jstore) (j : Z) (result : zbuf) : option zbuf :=
  serialize_loop (serialize_fuel st) st [(j, 0, 0)] result.
End json.

(** Whole numbers in place of [double], to evaluate the functions on; those of more
    than 63 bits have no cast. *)
Definition whole_doubles : Doubles := {|
  dbl := Z; dbl_zero := 0; atof := strtol10;
  dbl_trunc d := if (- 2 ^ 63 <=? d) && (d <? 2 ^ 63) then Some d else None;
  fmt_e d := fmt_zd d ++ str ".000000"; fmt_lf d := fmt_zd d ++ str ".000000"
|}.
