(* ===== verification/JsonSpec.v ===== *)
(** * JSON values in the store, and their release

    [jtree] is a value with the addresses of its nodes; [jat] lays it out in the
    store: every node under its parent, strings in terminated buffers, arrays in
    vectors, objects in maps. [json] forgets the addresses. *)
From stdpp Require Import gmap sorting.
From S2P Require Import Prelude Buf Vector StateMonad RbShape Rbset Rbops RbRefine Keyed KeyedSpec KeyedRefine Maps Json.

Section spec.
Context `{!Allocator} `{!Doubles}.

(** ** Values *)
Inductive jtree := JNil | JT (p : Z) (c : jcont)
with jcont :=
  | CNull | CBool (b : Z) | CLong (l : Z) | CDouble (d : dbl) | CString (x : list Z)
  | CObject (es : list (list Z * jtree)) | CArray (ts : list jtree).

Definition children (c : jcont) : list jtree :=
  match c with CObject es => map snd es | CArray ts => ts | _ => [] end.
Definition jptr (t : jtree) : Z := match t with JNil => 0 | JT p _ => p end.

Fixpoint addrs (t : jtree) : list Z :=
  match t with
  | JNil => []
  | JT p c => p :: match c with
                   | CObject es => concat (map (fun e => addrs (snd e)) es)
                   | CArray ts => concat (map addrs ts)
                   | _ => []
                   end
  end.
Lemma addrs_JT p c : addrs (JT p c) = p :: concat (map addrs (children c)).
Proof. destruct c; try done. cbn. by rewrite map_map. Qed.

Lemma jtree_nested_ind (P : jtree -> Prop) : P JNil ->
  (forall p c, Forall P (children c) -> P (JT p c)) -> forall t, P t.
Proof.
  intros Hnil Hnode. fix IH 1. intros [|p c]; [exact Hnil|]. apply Hnode.
  destruct c as [| | | | |es|ts]; try constructor.
  - induction es as [|e es IHes]; constructor; [apply IH|exact IHes].
  - induction ts as [|t ts IHts]; constructor; [apply IH|exact IHts].
Qed.

(** Arrays are kept below 2^25 elements, far from the limits of [int]. *)
Definition JN : Z := 2 ^ 25.
Definition JM : Z := 2 ^ 26 + 400.
Definition entry_ptr (e : list Z * jtree) : list Z * Z := (e.1, jptr e.2).
(** The fields of a node. *)
Definition cval (v : jval) (c : jcont) : Prop :=
  match v, c with
  | VNull, CNull => True
  | VBool b, CBool b' => b = b'
  | VLong l, CLong l' => l = l'
  | VDouble d, CDouble d' => d = d'
  | VString s, CString x => Buf.holds None x s
  | VObject m, CObject es => kv_rep strcmp eq m (map entry_ptr es) /\ zlen es <= JN
  | VArray a, CArray ts => vrep JN JM a (map jptr ts)
  | _, _ => False
  end.
Fixpoint jat (st : gmap Z jnode) (parent : Z) (t : jtree) : Prop :=
  match t with
  | JNil => True
  | JT p c => (p <> 0 /\ exists v, st !! p = Some (mk_jnode v parent) /\ cval v c) /\
              fold_right and True (match c with
                                   | CObject es => map (fun e => jat st p (snd e)) es
                                   | CArray ts => map (jat st p) ts
                                   | _ => []
                                   end)
  end.
Lemma fold_and {A} (P : A -> Prop) l : fold_right and True (map P l) <-> Forall P l.
Proof. induction l as [|a l IH]; simpl; [by rewrite Forall_nil|]. by rewrite IH, Forall_cons. Qed.
Lemma jat_JT st parent p c : jat st parent (JT p c) <->
  (p <> 0 /\ exists v, st !! p = Some (mk_jnode v parent) /\ cval v c) /\ Forall (jat st p) (children c).
Proof.
  destruct c as [| | | | |es|ts]; cbn [jat children]; try (by rewrite Forall_nil).
  - by rewrite <- fold_and, map_map.
  - by rewrite <- fold_and.
Qed.

Lemma jat_agree st st' t : forall parent, (forall y, y ∈ addrs t -> st' !! y = st !! y) ->
  jat st parent t -> jat st' parent t.
Proof.
  induction t as [|p c IH] using jtree_nested_ind; intros parent He; [done|]. rewrite !jat_JT, addrs_JT in *.
  intros [(Hp & v & Hv & Hc) Ht]. split; [split; [done|exists v; split; [rewrite He by (by left); done|done]]|].
  rewrite Forall_forall in *. intros t Hin. apply IH; [done| |by apply Ht].
  intros y Hy. apply He. right. apply list_elem_of_In, in_concat.
  exists (addrs t). split; [apply in_map|]; by apply list_elem_of_In.
Qed.
Lemma jat_dom st parent t y : jat st parent t -> y ∈ addrs t -> y ∈ dom st.
Proof.
  revert parent. induction t as [|p c IH] using jtree_nested_ind; intros parent; [by intros _ ?%elem_of_nil|].
  rewrite jat_JT, addrs_JT. intros [(_ & v & Hv & _) Ht] [->|Hy]%elem_of_cons; [by apply elem_of_dom_2 in Hv|].
  apply list_elem_of_In, in_concat in Hy as (l & Hl & Hy). apply in_map_iff in Hl as (t & <- & Ht').
  rewrite Forall_forall in *. apply list_elem_of_In in Ht'. apply list_elem_of_In in Hy. by eapply IH; eauto.
Qed.
(** All nodes of a list of values. *)
Definition alladdrs (ts : list jtree) : list Z := concat (map addrs ts).
Lemma alladdrs_app ts ts' : alladdrs (ts ++ ts') = alladdrs ts ++ alladdrs ts'.
Proof. unfold alladdrs. by rewrite map_app, concat_app. Qed.
Lemma alladdrs_elem t ts y : t ∈ ts -> y ∈ addrs t -> y ∈ alladdrs ts.
Proof.
  intros Ht Hy. apply list_elem_of_In, in_concat. exists (addrs t). split; [apply in_map|]; by apply list_elem_of_In.
Qed.
Lemma jat_all_agree st st' parent ts : (forall y, y ∈ alladdrs ts -> st' !! y = st !! y) ->
  Forall (jat st parent) ts -> Forall (jat st' parent) ts.
Proof.
  intros He Ht. rewrite Forall_forall in *. intros t Hin. eapply jat_agree; [|by apply Ht].
  intros y Hy. apply He. by eapply alladdrs_elem.
Qed.

(** ** The work left in the store *)
Definition nweight (n : jnode) : nat := (1 + 2 * jval_children (jn_val n))%nat.
Lemma jweight_delete (st : gmap Z jnode) p n : st !! p = Some n ->
  jweight st = (nweight n + jweight (delete p st))%nat.
Proof.
  intros Hp. unfold jweight. rewrite <- (insert_delete_id st p n Hp) at 1.
  rewrite map_fold_insert_L; [done| |apply lookup_delete_eq].
  intros. unfold nweight. lia.
Qed.
Lemma jweight_insert (st : gmap Z jnode) p n n' : st !! p = Some n ->
  (jweight (<[p := n']> st) + nweight n = jweight st + nweight n')%nat.
Proof.
  intros Hp. rewrite (jweight_delete st p n Hp), (jweight_delete (<[p := n']> st) p n') by apply lookup_insert_eq.
  rewrite delete_insert_eq. lia.
Qed.
End spec.

(** ** Steps on a node *)
Section steps.
Context `{!Allocator} `{!Doubles} (st : gmap Z jnode) (j par : Z) (v : jval).
Hypothesis Hj : st !! j = Some (mk_jnode v par).

Lemma wp_get_jval Q : Q v st -> wp (get_jval j) st Q.
Proof using Hj.
  intros HQ. unfold get_jval, get_json. apply wp_bind, wp_bind, wp_gets.
  eapply wp_of_option; [exact Hj|]. by apply wp_ret.
Qed.
Lemma wp_put_json n Q : Q tt (<[j := n]> st) -> wp (put_json j n) st Q.
Proof using Hj.
  intros HQ. unfold put_json, get_json. apply wp_bind, wp_bind, wp_gets.
  eapply wp_of_option; [exact Hj|]. by apply wp_modify.
Qed.
Lemma wp_set_jval v' Q : Q tt (<[j := mk_jnode v' par]> st) -> wp (set_jval j v') st Q.
Proof using Hj.
  intros HQ. unfold set_jval, get_json. apply wp_bind, wp_bind, wp_gets.
  eapply wp_of_option; [exact Hj|]. by apply wp_put_json.
Qed.
Lemma wp_set_parent_json q Q : Q tt (<[j := mk_jnode v q]> st) -> wp (set_parent j q) st Q.
Proof using Hj.
  intros HQ. unfold set_parent, get_json. apply wp_bind, wp_bind, wp_gets.
  eapply wp_of_option; [exact Hj|]. by apply wp_put_json.
Qed.
Lemma wp_free_json Q : Q tt (delete j st) -> wp (free_json j) st Q.
Proof using Hj.
  intros HQ. unfold free_json, get_json. apply wp_bind, wp_bind, wp_gets.
  eapply wp_of_option; [exact Hj|]. by apply wp_modify.
Qed.
Lemma wp_on_vec {A} (f : zvector -> option (zvector * A)) a a' x (Q : A -> gmap Z jnode -> Prop) : VArray a = v ->
  f a = Some (a', x) -> Q x (<[j := mk_jnode (VArray a') par]> st) -> wp (on_vec j f) st Q.
Proof using Hj.
  intros Hv Hf HQ. unfold on_vec. apply wp_bind, wp_get_jval. rewrite <- Hv. apply wp_bind.
  eapply wp_of_option; [exact Hf|]. by apply wp_bind, wp_set_jval, wp_ret.
Qed.
Lemma wp_on_map {A} (f : St (kvstate (list Z) Z) A) m m' x (Q : A -> gmap Z jnode -> Prop) : VObject m = v ->
  f m = Some (x, m') -> Q x (<[j := mk_jnode (VObject m') par]> st) -> wp (on_map j f) st Q.
Proof using Hj.
  intros Hv Hf HQ. unfold on_map. apply wp_bind, wp_get_jval. rewrite <- Hv. apply wp_bind.
  eapply wp_of_option; [exact Hf|]. by apply wp_bind, wp_set_jval, wp_ret.
Qed.
End steps.

(** ** What the arrays and maps of a node answer *)
Section parts.
Context `{AllocatorSound} `{!Doubles}.

Lemma array_len a ts : cval (VArray a) (CArray ts) -> v_len a = zlen ts.
Proof. intros Hc. rewrite (vr_len _ _ _ _ Hc). unfold zlen. by rewrite length_map. Qed.
Lemma object_len m es : cval (VObject m) (CObject es) -> kv_len m = zlen es.
Proof. intros [[l [_ _ _ _ _ _ Hn]] _]. rewrite Hn. unfold zlen. by rewrite length_map. Qed.
Lemma array_pop a ts t : cval (VArray a) (CArray (ts ++ [t])) -> exists a',
  zvector_pop a = Some (a', (true, jptr t)) /\ cval (VArray a') (CArray ts).
Proof.
  intros Hc. cbn [cval] in Hc. rewrite map_app in Hc.
  destruct (zvector_pop_rep _ _ _ _ Hc) as ([a' r] & E & Hr & Er).
  cbn [map] in Hr, Er. rewrite spec_pop_snoc in Hr, Er. cbn in *. subst r. by exists a'.
Qed.
Lemma object_pop m e es : cval (VObject m) (CObject (e :: es)) -> exists m',
  (n ← zmap_first; zmap_delete_node n) m = Some (jptr e.2, m') /\ cval (VObject m') (CObject es).
Proof using H0.
  intros [[l Hl] Hlen]. cbn [map] in Hl. pose proof (zlen_nonneg es). rewrite zlen_cons in Hlen. unfold JN in *.
  assert (Hw : wp (n ← zmap_first; zmap_delete_node n) m (fun q m' =>
    q = jptr e.2 /\ kv_rep strcmp eq m' (map entry_ptr es))).
  { apply wp_bind. eapply wp_mono; [by apply (kv_first_spec strcmp eq)|]. intros x m1 [Hl1 Hx]. cbn in Hx.
    eapply wp_mono; [eapply (delete_found strcmp eq); [exact Hl1|exact Hx|]|].
    - unfold int_max. rewrite zlen_cons. unfold zlen in *. rewrite length_map. lia.
    - intros q m2 [-> Hr]. split; [done|]. rewrite (al_remove_head strcmp) in Hr; [done|].
      eapply kv_rep_sorted. by exists l. }
  apply wp_runs in Hw as (q & m' & E & -> & Hr). exists m'. split; [exact E|]. split; [done|]. unfold JN. lia.
Qed.
Lemma object_free m : cval (VObject m) (CObject []) -> exists m', zmap_free m = Some (tt, m').
Proof using H0.
  intros [Hr _]. pose proof (kv_free_spec strcmp eq m [] Hr ltac:(done)) as Hw.
  apply wp_runs in Hw as ([] & m' & E & _). by exists m'.
Qed.
End parts.

(** ** [zjson_reset] *)
Section reset.
Context `{AllocatorSound} `{!Doubles}.
Implicit Types (st : gmap Z jnode) (ts : list jtree).

Lemma alladdrs_perm ts ts' : ts ≡ₚ ts' -> alladdrs ts ≡ₚ alladdrs ts'.
Proof. intros Hp. unfold alladdrs. rewrite <- !flat_map_concat_map. by apply Permutation_flat_map. Qed.
Lemma cval_children v c : cval v c -> Z.of_nat (jval_children v) = zlen (children c).
Proof.
  destruct v, c; cbn [cval jval_children children]; try done; intros Hc.
  - rewrite (object_len _ _ Hc). unfold zlen. rewrite length_map. lia.
  - rewrite (array_len _ _ Hc). unfold zlen. lia.
Qed.

Lemma wp_free_unless st j p n Q : st !! p = Some n -> Q tt (if p =? j then st else delete p st) ->
  wp (free_unless p j) st Q.
Proof.
  intros Hp HQ. unfold free_unless. destruct n as [v q]. destruct (p =? j); cbn [negb]; [by apply wp_ret|].
  by eapply wp_free_json.
Qed.

(** A node without elements goes, unless it is the one being reset. *)
Lemma reset_leaf fuel j st q p c rest Q : jat st q (JT p c) -> children c = [] ->
  wp (reset_loop fuel j rest) (if p =? j then st else delete p st) Q ->
  wp (reset_loop (S fuel) j (p :: rest)) st Q.
Proof using H0.
  rewrite jat_JT. intros [(Hp & v & Hv & Hc) _] Hn HQ. cbn [reset_loop].
  rewrite (proj2 (Z.eqb_neq p 0)) by done. apply wp_bind. eapply wp_get_jval; [exact Hv|].
  assert (Hfree : wp (free_unless p j;; reset_loop fuel j rest) st Q).
  { apply wp_bind. by eapply wp_free_unless. }
  pose proof (cval_children _ _ Hc) as Hz. rewrite Hn in Hz. change (zlen []) with 0 in Hz.
  destruct v as [| | | | |m|a]; try exact Hfree; destruct c as [| | | | |es|ts]; try done; cbn in Hn, Hz.
  - rewrite (object_len _ _ Hc). destruct es; [|done]. destruct (object_free m Hc) as (m' & Em).
    change (zlen []) with 0. rewrite Z.eqb_refl. apply wp_bind.
    eapply wp_of_option; [exact Em|exact Hfree].
  - rewrite (array_len _ _ Hc). subst ts. exact Hfree.
Qed.

(** A node with elements gives one away. *)
Lemma reset_pop fuel j st q p v c rest Q : jat st q (JT p c) -> st !! p = Some (mk_jnode v q) -> children c <> [] ->
  (forall t c' v', children c ≡ₚ t :: children c' -> cval v' c' ->
     wp (reset_loop fuel j (jptr t :: p :: rest)) (<[p := mk_jnode v' q]> st) Q) ->
  wp (reset_loop (S fuel) j (p :: rest)) st Q.
Proof using H0.
  rewrite jat_JT. intros [(Hp & w & Hw & Hc) _] Hv Hn HQ. assert (w = v) as -> by congruence.
  cbn [reset_loop]. rewrite (proj2 (Z.eqb_neq p 0)) by done.
  apply wp_bind. eapply wp_get_jval; [exact Hw|].
  destruct v as [| | | | |m|a], c as [| | | | |es|ts]; try done.
  - destruct es as [|e es]; [done|]. rewrite (object_len _ _ Hc), zlen_cons. pose proof (zlen_nonneg es).
    destruct (Z.eqb_spec (1 + zlen es) 0); [lia|]. destruct (object_pop m e es Hc) as (m' & E & Hc').
    apply wp_bind. eapply wp_on_map; [exact Hw|reflexivity|exact E|]. by apply (HQ e.2 (CObject es)).
  - destruct (exists_last Hn) as (ts' & t & Et). cbn in Et. subst ts.
    rewrite (array_len _ _ Hc), zlen_app, zlen_cons. pose proof (zlen_nonneg ts').
    change (zlen []) with 0. destruct (Z.eqb_spec (zlen ts' + (1 + 0)) 0); [lia|].
    destruct (array_pop a ts' t Hc) as (a' & E & Hc'). apply wp_bind.
    eapply wp_on_vec; [exact Hw|reflexivity|exact E|]. apply (HQ t (CArray ts')); [|done].
    cbn [children]. by rewrite Permutation_app_comm.
Qed.

(** Values that stand side by side in the store. *)
Definition standing st ts : Prop := Forall (fun t => exists q, jat st q t) ts /\ NoDup (alladdrs ts).

Lemma standing_perm st ts ts' : ts ≡ₚ ts' -> standing st ts -> standing st ts'.
Proof. intros Hp [Ht Hn]. split; [by rewrite <- Hp|by rewrite <- (alladdrs_perm _ _ Hp)]. Qed.
Lemma standing_cons st t ts : standing st (t :: ts) ->
  (exists q, jat st q t) /\ standing st ts /\ (forall y, y ∈ addrs t -> y ∉ alladdrs ts).
Proof.
  intros [[Ht Hts]%Forall_cons Hn]. unfold alladdrs in *. cbn [map concat] in Hn.
  apply NoDup_app in Hn as (_ & Hd & Hn). done.
Qed.
Lemma standing_agree st st' ts : (forall y, y ∈ alladdrs ts -> st' !! y = st !! y) -> standing st ts -> standing st' ts.
Proof.
  intros He [Ht Hn]. split; [|done]. rewrite Forall_forall in *. intros t Hin. destruct (Ht t Hin) as [q Hq].
  exists q. eapply jat_agree; [|exact Hq]. intros y Hy. apply He. by eapply alladdrs_elem.
Qed.
Lemma alladdrs_cons t ts : alladdrs (t :: ts) = addrs t ++ alladdrs ts.
Proof. done. Qed.
(** Taking one element out of the node on top. *)
Lemma standing_pop st p v v' q c c' t ts : st !! p = Some (mk_jnode v q) -> cval v' c' ->
  children c ≡ₚ t :: children c' -> standing st (JT p c :: ts) ->
  standing (<[p := mk_jnode v' q]> st) (t :: JT p c' :: ts) /\
  alladdrs (JT p c :: ts) ≡ₚ alladdrs (t :: JT p c' :: ts).
Proof.
  intros Hp Hc' Hperm [[[q' Ht] Hts]%Forall_cons Hn].
  assert (Ea : alladdrs (JT p c :: ts) ≡ₚ alladdrs (t :: JT p c' :: ts)).
  { rewrite !alladdrs_cons, !addrs_JT. fold (alladdrs (children c)) (alladdrs (children c')).
    rewrite (alladdrs_perm _ _ Hperm), alladdrs_cons. cbn [app]. rewrite <- Permutation_middle.
    by rewrite app_assoc. }
  assert (Hpn : p ∉ alladdrs (children c) ++ alladdrs ts).
  { rewrite alladdrs_cons, addrs_JT in Hn. by apply NoDup_cons in Hn as [? _]. }
  apply not_elem_of_app in Hpn as [Hpc Hpts]. apply jat_JT in Ht as [(Hp0 & w & Hw & Hc) Hch].
  split; [|exact Ea]. split; [|by rewrite <- Ea].
  apply (jat_all_agree st (<[p := mk_jnode v' q]> st)) in Hch.
  2:{ intros y Hy. apply lookup_insert_ne. intros ->. done. }
  rewrite Hperm in Hch. apply Forall_cons in Hch as [Hch1 Hch2].
  constructor; [by exists p|]. constructor.
  - exists q. rewrite jat_JT. split; [|done]. split; [done|]. exists v'. by rewrite lookup_insert_eq.
  - rewrite Forall_forall in *. intros x Hx. destruct (Hts x Hx) as [qx Hqx]. exists qx.
    eapply jat_agree; [|exact Hqx]. intros y Hy. apply lookup_insert_ne. intros ->. apply Hpts. by eapply alladdrs_elem.
Qed.

(** All that [for_deteled] reaches is released, except the value reset itself. *)
Definition freed (j : Z) (gone : list Z) st st' : Prop :=
  forall y, y <> j -> st' !! y = if decide (y ∈ gone) then None else st !! y.
Lemma freed_perm j l l' st st' : l ≡ₚ l' -> freed j l st st' -> freed j l' st st'.
Proof.
  intros Hp Hf y Hy. rewrite (Hf y Hy). by do 2 case_decide; rewrite Hp in *.
Qed.
(** Changing a node that goes anyway. *)
Lemma freed_insert j p n l st st' : p ∈ l -> freed j l (<[p := n]> st) st' -> freed j l st st'.
Proof.
  intros Hp Hf y Hy. rewrite (Hf y Hy). case_decide; [done|]. apply lookup_insert_ne. by intros ->.
Qed.
Lemma freed_nil j st : freed j [] st st.
Proof. intros y _. by rewrite decide_False by apply not_elem_of_nil. Qed.
Lemma freed_app j l l' st st1 st' : freed j l st st1 -> freed j l' st1 st' -> freed j (l ++ l') st st'.
Proof.
  intros Hf Hf' y Hy. rewrite (Hf' y Hy), (Hf y Hy). pose proof (elem_of_app l l' y) as Ha.
  destruct (decide (y ∈ l)), (decide (y ∈ l')), (decide (y ∈ l ++ l')); tauto.
Qed.
Lemma freed_delete j p l st st' : freed j l (delete p st) st' -> freed j (p :: l) st st'.
Proof.
  intros Hf y Hy. rewrite (Hf y Hy). destruct (decide (y = p)) as [->|Hne].
  - rewrite lookup_delete_eq, (decide_True (P := p ∈ p :: l)) by (by left). by case_decide.
  - rewrite lookup_delete_ne by done. pose proof (elem_of_cons l y p) as Ha.
    destruct (decide (y ∈ l)), (decide (y ∈ p :: l)); tauto.
Qed.

Lemma reset_loop_spec j par : forall fuel ts c v st, standing st (ts ++ [JT j c]) ->
  st !! j = Some (mk_jnode v par) -> (jweight st + S (length ts) < fuel)%nat ->
  wp (reset_loop fuel j (map jptr (ts ++ [JT j c]))) st (fun _ st' =>
    (exists v, st' !! j = Some (mk_jnode v par)) /\ freed j (alladdrs (ts ++ [JT j c])) st st').
Proof using H0.
  induction fuel as [|fuel IH]; intros ts c v st Hs Hj Hf; [lia|].
  destruct (ts ++ [JT j c]) as [|t rest] eqn:Ets; [by destruct ts|]. cbn [map].
  pose proof (standing_cons _ _ _ Hs) as ([q Ht] & Hrest & Hd).
  (* what comes next when the top is done with *)
  assert (Hnext : forall st1, standing st1 rest -> (exists v, st1 !! j = Some (mk_jnode v par)) ->
    (jweight st1 + length ts < fuel)%nat -> freed j (addrs t) st st1 ->
    wp (reset_loop fuel j (map jptr rest)) st1 (fun _ st' =>
      (exists v, st' !! j = Some (mk_jnode v par)) /\ freed j (alladdrs (t :: rest)) st st')).
  { intros st1 Hs1 [v1 Hj1] Hf1 Hfr. destruct ts as [|t0 ts]; cbn in Ets; injection Ets as <- <-.
    - rewrite alladdrs_cons, app_nil_r. destruct fuel; (apply wp_ret; split; [by exists v1|exact Hfr]).
    - eapply wp_mono; [eapply IH; [exact Hs1|exact Hj1|cbn in Hf1; lia]|]. intros _ st' [Hv' Hf']. split; [done|].
      rewrite alladdrs_cons. by eapply freed_app. }
  destruct t as [|p c0]; cbn [jptr].
  - cbn [reset_loop]. apply Hnext; [done|by exists v|lia|]. apply freed_nil.
  - pose proof Ht as [(Hp0 & w & Hw & Hc) Hch]%jat_JT. destruct (children c0) as [|t1 ch1] eqn:Ech.
    + eapply reset_leaf; [exact Ht|exact Ech|]. assert (Hap : addrs (JT p c0) = [p]) by (by rewrite addrs_JT, Ech).
      destruct (Z.eqb_spec p j) as [->|Hpj].
      * apply Hnext; [done|by exists v|lia|]. intros y Hy. by rewrite Hap, decide_False by (by intros ->%list_elem_of_singleton).
      * pose proof (jweight_delete st p _ Hw) as Hwt. unfold nweight in Hwt.
        apply Hnext; [|exists v; by rewrite lookup_delete_ne|lia|].
        -- eapply standing_agree; [|exact Hrest]. intros y Hy. apply lookup_delete_ne. intros ->.
           apply (Hd y); [rewrite Hap; by left|done].
        -- rewrite Hap. apply freed_delete, freed_nil.
    + eapply reset_pop; [exact Ht|exact Hw|by rewrite Ech|]. intros t c' v' Hperm Hc'.
      destruct (standing_pop st p w v' q c0 c' t rest Hw Hc' Hperm Hs) as [Hs' Ea].
      pose proof (jweight_insert st p _ (mk_jnode v' q) Hw) as Hwt. unfold nweight in Hwt. cbn [jn_val] in Hwt.
      pose proof (cval_children _ _ Hc) as Hcz. pose proof (cval_children _ _ Hc') as Hcz'.
      pose proof (Permutation_length Hperm) as Hl. cbn [length] in Hl. unfold zlen in Hcz, Hcz'.
      set (st1 := <[p := mk_jnode v' q]> st) in *.
      assert (Hgo : wp (reset_loop fuel j (map jptr (t :: JT p c' :: rest))) st1 (fun _ st' =>
        (exists v, st' !! j = Some (mk_jnode v par)) /\ freed j (alladdrs (t :: JT p c' :: rest)) st1 st')).
      { destruct ts as [|t0 ts]; cbn in Ets; [injection Ets as <- <- <-|injection Ets as -> <-].
        - eapply (IH [t] c' v'); [exact Hs'| |cbn; lia]. assert (Eq : q = par) by congruence. unfold st1. rewrite Eq. apply lookup_insert_eq.
        - eapply (IH (t :: JT p c' :: ts) c v); [exact Hs'| |cbn [length] in *; lia]. unfold st1.
          rewrite lookup_insert_ne; [done|]. intros ->. apply (Hd j); [rewrite addrs_JT; by left|].
          rewrite alladdrs_app. apply elem_of_app. right. rewrite alladdrs_cons, addrs_JT. by left. }
      eapply wp_mono; [exact Hgo|]. intros _ st' [Hv' Hf']. split; [exact Hv'|].
      apply (freed_perm j _ _ _ _ (Permutation_sym Ea)). eapply freed_insert; [|exact Hf'].
      rewrite <- Ea, alladdrs_cons, addrs_JT. by left.
Qed.

(** ** A value and the rest of the store

    The store [st] is the nodes of [t], the parent of the top one being [q],
    beside the store [R]; nothing else is in it. *)
Record jrep (R : gmap Z jnode) (q : Z) (t : jtree) (st : gmap Z jnode) : Prop := {
  jr_at : jat st q t;
  jr_nodup : NoDup (addrs t);
  jr_new y : y ∈ addrs t -> R !! y = None;
  jr_rest y : y ∉ addrs t -> st !! y = R !! y
}.

Lemma zjson_reset_spec R q j c st : jrep R q (JT j c) st ->
  wp (zjson_reset j) st (fun _ st' => jrep R q (JT j CNull) st').
Proof using H0.
  intros [Ht Hn HR Hst]. unfold zjson_reset. apply wp_bind, wp_gets, wp_bind.
  pose proof Ht as [(Hj & v & Hv & _) _]%jat_JT. assert (Hal : alladdrs [JT j c] = addrs (JT j c)) by apply app_nil_r.
  eapply wp_mono; [apply (reset_loop_spec j q _ [] c v st)|].
  - split; [constructor; [by exists q|constructor]|]. cbn [app]. by rewrite Hal.
  - done.
  - cbn. lia.
  - intros _ st1 [[v1 Hv1] Hf]. cbn [app] in Hf. rewrite Hal in Hf. eapply wp_set_jval; [exact Hv1|].
    assert (Hin : j ∈ addrs (JT j c)) by (rewrite addrs_JT; by left). split.
    + apply jat_JT. split; [|constructor]. split; [done|]. exists VNull. by rewrite lookup_insert_eq.
    + apply NoDup_singleton.
    + intros y ->%list_elem_of_singleton. by apply HR.
    + intros y Hy. rewrite lookup_insert_ne by (intros ->; apply Hy; by left).
      rewrite (Hf y) by (intros ->; apply Hy; by left). case_decide; [by rewrite HR|by apply Hst].
Qed.

Lemma jrep_leaf_free R q j c st : jrep R q (JT j c) st -> children c = [] -> delete j st = R.
Proof.
  intros [Ht Hn HR Hst] Hc. apply map_eq. intros y. rewrite addrs_JT, Hc in *. cbn in *.
  destruct (decide (y = j)) as [->|Hy].
  - rewrite lookup_delete_eq. symmetry. apply HR. by left.
  - rewrite lookup_delete_ne by done. apply Hst. by intros ->%list_elem_of_singleton.
Qed.
Lemma zjson_free_spec R q t st : jrep R q t st -> wp (zjson_free (jptr t)) st (fun _ st' => st' = R).
Proof using H0.
  intros Hr. destruct t as [|j c]; cbn [jptr].
  { apply wp_ret. apply map_eq. intros y. apply (jr_rest _ _ _ _ Hr). apply not_elem_of_nil. }
  pose proof (jr_at _ _ _ _ Hr) as [(Hj & v & Hv & Hc) _]%jat_JT. unfold zjson_free.
  rewrite (proj2 (Z.eqb_neq j 0)) by done. apply wp_bind. eapply wp_get_jval; [exact Hv|].
  assert (Hleaf : forall c st, jrep R q (JT j c) st -> children c = [] -> wp (free_json j) st (fun _ st' => st' = R)).
  { intros c0 st0 Hr0 Hc0. pose proof (jr_at _ _ _ _ Hr0) as [(_ & v0 & Hv0 & _) _]%jat_JT.
    eapply wp_free_json; [exact Hv0|]. by eapply jrep_leaf_free. }
  assert (Hreset : wp (zjson_reset j;; free_json j) st (fun _ st' => st' = R)).
  { apply wp_bind. eapply wp_mono; [by eapply zjson_reset_spec|]. intros [] st1 Hr1. by eapply Hleaf. }
  destruct v, c; try done; (exact Hreset || (apply wp_bind, wp_ret; by eapply Hleaf)).
Qed.
End reset.
