(* ===== verification/JsonOps.v ===== *)
(** * JSON values: the operations of json.c on a value in the store

    Each function takes the store of a value, beside anything else, to the store
    of the value its specification names; elements move in and out of a value
    whole. *)
From stdpp Require Import gmap sorting.
From S2P Require Import Prelude Chars Buf Vector Text StateMonad RbShape Rbset Rbops RbRefine Keyed KeyedSpec KeyedRefine Maps Json JsonSpec.

(** ** Association lists with one entry per key *)
Section alist.
Context {K W : Type} (kcmp : K -> K -> Z) `{!CmpOrder kcmp}.
Implicit Types (al : list (K * W)).

Lemma al_find_split k al e : al_sorted kcmp al -> al_find kcmp k al = Some e -> exists a b, al = a ++ e :: b /\
  (forall w, al_set kcmp k w al = a ++ (e.1, w) :: b) /\ al_remove kcmp k al = a ++ b.
Proof using CmpOrder0.
  unfold al_find, al_set, al_remove. induction 1 as [|x al Hal IH Hx]; cbn [List.find]; [done|].
  destruct (Z.eqb_spec (kcmp k x.1) 0) as [E|E].
  - intros [= ->]. exists [], al. split; [done|].
    assert (Hrest : forall y, y ∈ al -> kcmp k y.1 <> 0).
    { intros y Hy. rewrite Forall_forall in Hx. specialize (Hx y Hy). cbn in Hx.
      pose proof (cmp_eq_lt (cmp := kcmp) k e.1 y.1 E Hx). lia. }
    split.
    + intros w. cbn [app fmap list_fmap]. rewrite (proj2 (Z.eqb_eq _ _) E). f_equal. etrans; [|apply list_fmap_id]. apply list_fmap_ext. intros i y Hy.
      apply list_elem_of_lookup_2, Hrest in Hy. by destruct (Z.eqb_spec (kcmp k y.1) 0).
    + rewrite filter_cons_False by (intros ?; done). by apply filter_every.
  - intros Hf. destruct (IH Hf) as (a & b & -> & Hset & Hrem). exists (x :: a), b. split; [done|]. split.
    + intros w. cbn [fmap list_fmap]. rewrite (proj2 (Z.eqb_neq _ _) E). cbn. f_equal. apply Hset.
    + rewrite filter_cons_True by done. cbn [app]. f_equal. apply Hrem.
Qed.
Lemma al_insert_perm k w al : al_insert kcmp k w al ≡ₚ (k, w) :: al.
Proof.
  induction al as [|x al IH]; cbn; [done|]. destruct (kcmp k x.1 <? 0); [done|]. rewrite IH. apply perm_swap.
Qed.
End alist.

(** The operations on lists of entries commute with a change of the values. *)
Section values.
Context {K V W : Type} (kcmp : K -> K -> Z) (f : V -> W).
Abbreviation on_vals := (map (fun e : K * V => (e.1, f e.2))).
Lemma al_find_vals k al : al_find kcmp k (on_vals al) = (fun e => (e.1, f e.2)) <$> al_find kcmp k al.
Proof. unfold al_find. induction al as [|x al IH]; cbn; [done|]. by destruct (kcmp k x.1 =? 0). Qed.
Lemma al_set_vals k v al : al_set kcmp k (f v) (on_vals al) = on_vals (al_set kcmp k v al).
Proof. unfold al_set. induction al as [|x al IH]; cbn; [done|]. rewrite <- IH. by destruct (kcmp k x.1 =? 0). Qed.
Lemma al_insert_vals k v al : al_insert kcmp k (f v) (on_vals al) = on_vals (al_insert kcmp k v al).
Proof. induction al as [|x al IH]; cbn; [done|]. rewrite IH. by destruct (kcmp k x.1 <? 0). Qed.
Lemma al_update_vals k v al : al_update kcmp k (f v) (on_vals al) = on_vals (al_update kcmp k v al).
Proof.
  unfold al_update. rewrite al_find_vals. destruct (al_find kcmp k al); cbn; [apply al_set_vals|apply al_insert_vals].
Qed.
Lemma al_remove_vals k al : al_remove kcmp k (on_vals al) = on_vals (al_remove kcmp k al).
Proof.
  unfold al_remove. induction al as [|x al IH]; [done|]. cbn [map]. rewrite !filter_cons, IH. cbn [fst].
  by case_decide.
Qed.
End values.

(** ** Moving values in and out of others *)
Section move.
Context `{AllocatorSound} `{!Doubles}.
Implicit Types (st R : gmap Z jnode) (t e : jtree).

Definition without_addrs (l : list Z) st : gmap Z jnode := filter (fun kv => kv.1 ∉ l) st.
Lemma lookup_without_in l st y : y ∈ l -> without_addrs l st !! y = None.
Proof. intros Hy. apply map_lookup_filter_None. right. intros ? _. cbn. by intros ?. Qed.
Lemma lookup_without_out l st y : y ∉ l -> without_addrs l st !! y = st !! y.
Proof.
  intros Hy. unfold without_addrs. rewrite map_lookup_filter. destruct (st !! y); cbn; [|done].
  by rewrite option_guard_True.
Qed.
Lemma jrep_ptr R q t st : jrep R q t st -> jptr t = 0 -> t = JNil.
Proof. destruct t as [|p c]; [done|]. intros Hr Hp. apply jr_at, jat_JT in Hr as [[? _] _]. done. Qed.
Lemma jrep_nil R q st : jrep R q JNil st <-> st = R.
Proof.
  split.
  - intros Hr. apply map_eq. intros y. apply (jr_rest _ _ _ _ Hr). apply not_elem_of_nil.
  - intros ->. split; [done|constructor|by intros ? ?%elem_of_nil|done].
Qed.
Lemma jrep_node R q j c st : jrep R q (JT j c) st -> j <> 0 /\ exists v, st !! j = Some (mk_jnode v q) /\ cval v c.
Proof. intros Hr. by apply jr_at, jat_JT in Hr as [? _]. Qed.
(** What is elsewhere is not in the value. *)
Lemma jrep_elsewhere R q t st y n : jrep R q t st -> R !! y = Some n -> (y ∉ addrs t) /\ st !! y = Some n.
Proof.
  intros Hr Hy. assert (Hy' : y ∉ addrs t) by (intros Hin; rewrite (jr_new _ _ _ _ Hr y Hin) in Hy; done).
  split; [done|]. by rewrite (jr_rest _ _ _ _ Hr).
Qed.
Lemma jrep_of R q t st (Ht : jat st q t) (Hn : NoDup (addrs t)) : jrep (without_addrs (addrs t) st) q t st.
Proof.
  split; [done|done|apply lookup_without_in|]. intros y Hy. by rewrite lookup_without_out.
Qed.

Lemma addrs_perm p c t c' : children c ≡ₚ t :: children c' -> addrs (JT p c) ≡ₚ addrs t ++ addrs (JT p c').
Proof.
  intros Hp. rewrite !addrs_JT. fold (alladdrs (children c)) (alladdrs (children c')).
  rewrite (alladdrs_perm _ _ Hp), alladdrs_cons. apply Permutation_middle.
Qed.
Lemma jrep_set_parent R q q' j c v st : jrep R q (JT j c) st -> st !! j = Some (mk_jnode v q) ->
  jrep R q' (JT j c) (<[j := mk_jnode v q']> st).
Proof.
  intros [Ht Hn HR Hst] Hv. pose proof Ht as [(Hj & w & Hw & Hc) Hch]%jat_JT. assert (w = v) as -> by congruence.
  rewrite addrs_JT in Hn. apply NoDup_cons in Hn as [Hjn Hn']. split.
  - apply jat_JT. split; [split; [done|]; exists v; by rewrite lookup_insert_eq|].
    eapply jat_all_agree; [|exact Hch]. intros y Hy. apply lookup_insert_ne. by intros ->.
  - rewrite addrs_JT. by constructor.
  - done.
  - intros y Hy. rewrite lookup_insert_ne; [by apply Hst|]. intros ->. apply Hy. rewrite addrs_JT. by left.
Qed.
(** A change elsewhere. *)
Lemma jrep_outside R q t st y n : jrep R q t st -> (y ∉ addrs t) -> jrep (<[y := n]> R) q t (<[y := n]> st).
Proof.
  intros [Ht Hn HR Hst] Hy. split; [|done| |].
  - eapply jat_agree; [|exact Ht]. intros x Hx. apply lookup_insert_ne. by intros ->.
  - intros x Hx. rewrite lookup_insert_ne; [by apply HR|by intros ->].
  - intros x Hx. destruct (decide (x = y)) as [->|Hne]; [by rewrite !lookup_insert_eq|].
    rewrite !lookup_insert_ne by done. by apply Hst.
Qed.
Lemma jrep_dom R q t st y : jrep R q t st -> y ∈ addrs t -> exists n, st !! y = Some n.
Proof. intros Hr Hy. apply elem_of_dom. eapply jat_dom; [apply Hr|done]. Qed.
(** Two values in one store. *)
Lemma jrep_disjoint R R1 q1 q2 t1 t2 st y : jrep R1 q1 t1 st -> jrep R q2 t2 R1 -> y ∈ addrs t2 -> y ∉ addrs t1.
Proof. intros Hr1 Hr2 Hy. destruct (jrep_dom _ _ _ _ _ Hr2 Hy) as [n Hn]. by apply (jrep_elsewhere _ _ _ _ _ _ Hr1 Hn). Qed.
Lemma jrep_swap R R1 q1 q2 t1 t2 st : jrep R1 q1 t1 st -> jrep R q2 t2 R1 ->
  exists R2, jrep R2 q2 t2 st /\ jrep R q1 t1 R2.
Proof.
  intros Hr1 Hr2. pose proof (jrep_disjoint R R1 q1 q2 t1 t2 st) as Hd.
  exists (without_addrs (addrs t2) st). split.
  - apply (jrep_of R); [|apply Hr2]. eapply jat_agree; [|apply Hr2]. intros y Hy.
    apply (jr_rest _ _ _ _ Hr1). by apply Hd.
  - assert (Hout : forall y, y ∈ addrs t1 -> y ∉ addrs t2) by (intros y Hy Hy'; by apply (Hd y)).
    split; [|apply Hr1| |].
    + eapply jat_agree; [|apply Hr1]. intros y Hy. apply lookup_without_out. by apply Hout.
    + intros y Hy. rewrite <- (jr_rest _ _ _ _ Hr2) by (by apply Hout). by apply (jr_new _ _ _ _ Hr1).
    + intros y Hy. destruct (decide (y ∈ addrs t2)) as [Hy2|Hy2].
      * rewrite lookup_without_in by done. symmetry. by apply (jr_new _ _ _ _ Hr2).
      * rewrite lookup_without_out, (jr_rest _ _ _ _ Hr1) by done. by apply (jr_rest _ _ _ _ Hr2).
Qed.
(** The value of a node changes: the element [e] comes in and [t] goes out. *)
Lemma jrep_exchange R R1 q j c c' e t v' st : jrep R1 j e st -> jrep R q (JT j c) R1 -> cval v' c' ->
  (forall x, x ∈ children c' -> x = e \/ x ∈ children c \/ x = JNil) -> (t ∈ children c \/ t = JNil) ->
  addrs t ++ alladdrs (children c') ≡ₚ addrs e ++ alladdrs (children c) ->
  let st' := <[j := mk_jnode v' q]> st in
  exists R', jrep R' j t st' /\ jrep R q (JT j c') R'.
Proof.
  intros He Hc Hv' Hin Ht Ha st'. pose proof (jrep_node _ _ _ _ _ Hc) as (Hj & _).
  assert (Hd : forall y, y ∈ addrs (JT j c) -> y ∉ addrs e) by (intros y; by apply (jrep_disjoint R R1 j q e (JT j c) st)).
  assert (Ea : addrs t ++ addrs (JT j c') ≡ₚ addrs e ++ addrs (JT j c)).
  { rewrite !addrs_JT. fold (alladdrs (children c)) (alladdrs (children c')). by rewrite <- !Permutation_middle, Ha. }
  assert (Hnd : NoDup (addrs t ++ addrs (JT j c'))).
  { rewrite Ea. apply NoDup_app. split; [apply He|]. split; [|apply Hc]. intros y Hy Hy'. by apply (Hd y). }
  apply NoDup_app in Hnd as (Hnt & Hdt & Hnc').
  assert (Hjc : j ∉ alladdrs (children c)).
  { pose proof (jr_nodup _ _ _ _ Hc) as Hn. rewrite addrs_JT in Hn. by apply NoDup_cons in Hn as [? _]. }
  assert (Hje : j ∉ addrs e) by (apply Hd; rewrite addrs_JT; by left).
  assert (Hjt : j ∉ addrs t) by (intros Hy; apply (Hdt j Hy); rewrite addrs_JT; by left).
  pose proof (jr_at _ _ _ _ Hc) as [_ Hch]%jat_JT. rewrite Forall_forall in Hch.
  assert (Hat : forall x, x = e \/ x ∈ children c \/ x = JNil -> jat st' j x).
  { intros x [->|[Hx| ->]]; [..|done].
    - eapply jat_agree; [|apply He]. intros y Hy. apply lookup_insert_ne. by intros ->.
    - eapply jat_agree; [|by apply Hch]. intros y Hy. assert (Hy' : y ∈ alladdrs (children c)) by (by eapply alladdrs_elem).
      unfold st'. rewrite lookup_insert_ne by (by intros ->). apply (jr_rest _ _ _ _ He), Hd. rewrite addrs_JT. by right. }
  exists (without_addrs (addrs t) st'). split; [apply (jrep_of R); [apply Hat; tauto|done]|]. split; [|done| |].
  - apply jat_JT. split; [split; [done|]; exists v'; split; [|done]; rewrite lookup_without_out by done; apply lookup_insert_eq|].
    rewrite Forall_forall. intros x Hx. eapply jat_agree; [|by apply Hat, Hin]. intros y Hy. apply lookup_without_out.
    intros Hy'. apply (Hdt y Hy'). rewrite addrs_JT. right. by eapply alladdrs_elem.
  - intros y Hy. assert (Hy' : y ∈ addrs e ++ addrs (JT j c)) by (rewrite <- Ea; apply elem_of_app; by right).
    apply elem_of_app in Hy' as [Hy'|Hy']; [|by apply (jr_new _ _ _ _ Hc)].
    rewrite <- (jr_rest _ _ _ _ Hc) by (intros ?; by apply (Hd y)). by apply (jr_new _ _ _ _ He).
  - intros y Hy. destruct (decide (y ∈ addrs t)) as [Hyt|Hyt].
    + rewrite lookup_without_in by done. symmetry.
      assert (Hy' : y ∈ addrs e ++ addrs (JT j c)) by (rewrite <- Ea; apply elem_of_app; by left).
      apply elem_of_app in Hy' as [Hy'|Hy']; [|by apply (jr_new _ _ _ _ Hc)].
      rewrite <- (jr_rest _ _ _ _ Hc) by (intros ?; by apply (Hd y)). by apply (jr_new _ _ _ _ He).
    + assert (Hy' : y ∉ addrs e ++ addrs (JT j c)) by (rewrite <- Ea; by intros [?|?]%elem_of_app).
      apply not_elem_of_app in Hy' as [Hye Hyc]. rewrite lookup_without_out by done. unfold st'.
      rewrite lookup_insert_ne by (intros ->; apply Hy; rewrite addrs_JT; by left).
      rewrite (jr_rest _ _ _ _ He) by done. by apply (jr_rest _ _ _ _ Hc).
Qed.
(** Only the node itself changes. *)
Lemma jrep_set R q j c c' v' st : jrep R q (JT j c) st -> children c' = children c -> cval v' c' ->
  jrep R q (JT j c') (<[j := mk_jnode v' q]> st).
Proof.
  intros Hc Hch Hv'. pose proof (proj2 (jrep_nil st j st) eq_refl) as He.
  destruct (jrep_exchange R st q j c c' JNil JNil v' st He Hc Hv') as (R' & Hn & Hr).
  - intros x. rewrite Hch. auto.
  - by right.
  - by rewrite Hch.
  - apply jrep_nil in Hn. by rewrite Hn.
Qed.
(** A new node. *)
Lemma jrep_new R c v : cval v c -> children c = [] -> let x := new_addr (dom R) in
  jrep R 0 (JT x c) (<[x := mk_jnode v 0]> R).
Proof using H0.
  intros Hv Hch x. pose proof (new_addr_fresh (dom R)) as Hx. fold x in Hx. apply not_elem_of_dom in Hx.
  pose proof (new_addr_aligned (dom R)) as [Hpos _]. fold x in Hpos. split.
  - apply jat_JT. rewrite Hch. split; [|constructor]. split; [lia|]. exists v. by rewrite lookup_insert_eq.
  - rewrite addrs_JT, Hch. apply NoDup_singleton.
  - rewrite addrs_JT, Hch. by intros y ->%list_elem_of_singleton.
  - rewrite addrs_JT, Hch. intros y Hy. apply lookup_insert_ne. intros ->. apply Hy. by left.
Qed.
End move.

(** ** The getters: a value of another type becomes an empty one *)
Section getters.
Context `{AllocatorSound} `{!Doubles}.
Implicit Types (st R : gmap Z jnode).

Lemma ensure_other is_type init v0 c0 R q j c v st : jrep R q (JT j c) st -> st !! j = Some (mk_jnode v q) ->
  is_type v = false -> init = Some v0 -> cval v0 c0 -> children c0 = [] ->
  wp (ensure is_type init j) st (fun _ st' => jrep R q (JT j c0) st').
Proof using H0.
  intros Hr Hv Hty Hi Hv0 Hc0. unfold ensure. apply wp_bind. eapply wp_get_jval; [exact Hv|]. rewrite Hty.
  apply wp_bind. eapply wp_mono; [by eapply zjson_reset_spec|]. intros [] st1 Hr1.
  pose proof (jrep_node _ _ _ _ _ Hr1) as (_ & v1 & Hv1 & _). apply wp_bind.
  eapply wp_of_option; [exact Hi|]. eapply wp_set_jval; [exact Hv1|]. by apply (jrep_set R q j CNull c0).
Qed.
Lemma ensure_same is_type init v q j st Q : st !! j = Some (mk_jnode v q) -> is_type v = true ->
  Q tt st -> wp (ensure is_type init j) st Q.
Proof.
  intros Hv Hty HQ. unfold ensure. apply wp_bind. eapply wp_get_jval; [exact Hv|]. rewrite Hty. by apply wp_ret.
Qed.

Definition as_array (c : jcont) : list jtree := match c with CArray ts => ts | _ => [] end.
Definition as_object (c : jcont) : list (list Z * jtree) := match c with CObject es => es | _ => [] end.
Definition as_string (c : jcont) : list Z := match c with CString x => x | _ => [] end.
Definition as_long (c : jcont) : Z := match c with CLong l => l | _ => 0 end.
Definition as_bool (c : jcont) : Z := match c with CBool b => b | _ => 0 end.
Definition as_double (c : jcont) : dbl := match c with CDouble d => d | _ => dbl_zero end.

Lemma get_value_spec is_type init v0 R q j c c0 st : jrep R q (JT j c) st ->
  (forall v, cval v c -> is_type v = true -> c = c0) ->
  (forall v, cval v c -> is_type v = false -> children c0 = [] /\ init = Some v0 /\ cval v0 c0) ->
  wp (ensure is_type init j) st (fun _ st' => jrep R q (JT j c0) st').
Proof using H0.
  intros Hr Hs Ho. pose proof (jrep_node _ _ _ _ _ Hr) as (_ & v & Hv & Hc). destruct (is_type v) eqn:Ety.
  - eapply ensure_same; [exact Hv|exact Ety|]. by rewrite <- (Hs v Hc Ety).
  - destruct (Ho v Hc Ety) as (Hch & Hi & Hv0). by eapply ensure_other.
Qed.
Ltac getter v c := destruct v; destruct c; done.

Lemma get_array_spec R q j c st : jrep R q (JT j c) st ->
  wp (zjson_get_array_value j) st (fun _ st' => jrep R q (JT j (CArray (as_array c))) st').
Proof using H0.
  intros Hr. destruct (zvector_create_rep JN JM (-1)) as (v0 & E & Hv0); [unfold JN, JM; lia..|].
  eapply (get_value_spec _ _ (VArray v0)); [exact Hr|intros v; getter v c|].
  intros v. rewrite E. destruct v; destruct c; done.
Qed.
Lemma get_object_spec R q j c st : jrep R q (JT j c) st ->
  wp (zjson_get_object_value j) st (fun _ st' => jrep R q (JT j (CObject (as_object c))) st').
Proof using H0.
  intros Hr. assert (Hv0 : cval (VObject zmap_create) (CObject [])) by (split; [apply kv_rep_create|done]).
  eapply (get_value_spec _ _ (VObject zmap_create)); [exact Hr|intros v; getter v c|].
  intros v. destruct v; destruct c; done.
Qed.
Lemma get_string_spec R q j c st : jrep R q (JT j c) st ->
  wp (zjson_get_string_value j) st (fun _ st' => jrep R q (JT j (CString (as_string c))) st').
Proof using H0.
  intros Hr. destruct (zbuf_create_holds (-1)) as (v0 & E & Hv0); [lia|].
  eapply (get_value_spec _ _ (VString v0)); [exact Hr|intros v; getter v c|].
  intros v. rewrite E. destruct v; destruct c; done.
Qed.
Lemma get_long_spec R q j c st : jrep R q (JT j c) st ->
  wp (zjson_get_long_value j) st (fun _ st' => jrep R q (JT j (CLong (as_long c))) st').
Proof using H0.
  intros Hr. eapply (get_value_spec _ _ (VLong 0)); [exact Hr|intros v; getter v c|].
  intros v. destruct v; destruct c; done.
Qed.
Lemma get_bool_spec R q j c st : jrep R q (JT j c) st ->
  wp (zjson_get_bool_value j) st (fun _ st' => jrep R q (JT j (CBool (as_bool c))) st').
Proof using H0.
  intros Hr. eapply (get_value_spec _ _ (VBool 0)); [exact Hr|intros v; getter v c|].
  intros v. destruct v; destruct c; done.
Qed.
Lemma get_double_spec R q j c st : jrep R q (JT j c) st ->
  wp (zjson_get_double_value j) st (fun _ st' => jrep R q (JT j (CDouble (as_double c))) st').
Proof using H0.
  intros Hr. eapply (get_value_spec _ _ (VDouble dbl_zero)); [exact Hr|intros v; getter v c|].
  intros v. destruct v; destruct c; done.
Qed.
End getters.

(** ** The operations as functions on values *)
Section spec.
Context `{!Doubles}.
Implicit Types (ts : list jtree) (e : jtree) (idx : Z).

(** An index below 0 means the end; one past the end is reached by NULLs. *)
Definition insert_at ts idx e : list jtree :=
  if idx <? 0 then ts ++ [e]
  else take (Z.to_nat idx) ts ++ replicate (Z.to_nat (idx - zlen ts)) JNil ++ [e] ++ drop (Z.to_nat idx) ts.

(** The element under a key. *)
Definition found_in (es : list (list Z * jtree)) key : jtree := default JNil (snd <$> al_find strcmp key es).
(** The number the digits of a piece of a path spell. *)
Definition piece_value (p : list Z) : Z := foldl (fun n c => 10 * n + (c - 48)) 0 p.
(** Where a path leads: an element by its index, a value by its key, NULL from
    where there is none. *)
Definition tree_step t (p : list Z) : jtree :=
  match t with
  | JT _ (CArray ts) => if forallb isdigit p then default JNil (rd ts (piece_value p)) else JNil
  | JT _ (CObject es) => found_in es p
  | _ => JNil
  end.
Fixpoint tree_at t (pieces : list (list Z)) : jtree :=
  match pieces with [] => t | p :: pieces' => tree_at (tree_step t p) pieces' end.
(** The digits looked up in an array spell an [int]. *)
Fixpoint path_fits t (pieces : list (list Z)) : Prop :=
  match pieces with
  | [] => True
  | p :: pieces' =>
      match t with JT _ (CArray _) => piece_value (take_while isdigit p) <= int_max | _ => True end /\
      path_fits (tree_step t p) pieces'
  end.

Inductive jop :=
  | ArrayPush | ArrayUnshift | ArrayInsert idx | ArrayUpdate idx (want_old : bool)
  | ArrayDelete idx (want_old : bool) | ArrayPop (want_old : bool) | ArrayShift (want_old : bool)
  | ObjectUpdate (key : list Z) (want_old : bool) | ObjectDelete (key : list Z) (want_old : bool)
  | GetBool | GetLong | GetDouble | GetString | GetArray | GetObject
  | ArrayGet idx | ArrayLen | ObjectGet (key : list Z) | ObjectLen | GetPath (path : list Z).

(** The new value, the element removed, what the function answers ([ret]). *)
Definition jop_spec (op : jop) (c : jcont) e : jcont * jtree * bool :=
  let ts := as_array c in
  let es := as_object c in
  match op with
  | ArrayPush => (CArray (ts ++ [e]), JNil, true)
  | ArrayUnshift => (CArray (e :: ts), JNil, true)
  | ArrayInsert idx => (CArray (insert_at ts idx e), JNil, true)
  | ArrayUpdate idx _ =>
      match rd ts idx with
      | Some t => (CArray (<[Z.to_nat idx := e]> ts), t, true)
      | None => (CArray (insert_at ts idx e), JNil, true)
      end
  | ArrayDelete idx _ =>
      match rd ts idx with
      | Some t => (CArray (delete (Z.to_nat idx) ts), t, true)
      | None => (CArray ts, JNil, true)
      end
  | ArrayPop _ => match last ts with Some t => (CArray (removelast ts), t, true) | None => (CArray [], JNil, false) end
  | ArrayShift _ => match ts with t :: ts' => (CArray ts', t, true) | [] => (CArray [], JNil, false) end
  | ObjectUpdate key _ => (CObject (al_update strcmp key e es), found_in es key, true)
  | ObjectDelete key _ => (CObject (al_remove strcmp key es), found_in es key, true)
  | GetBool => (CBool (as_bool c), JNil, true)
  | GetLong => (CLong (as_long c), JNil, true)
  | GetDouble => (CDouble (as_double c), JNil, true)
  | GetString => (CString (as_string c), JNil, true)
  | GetArray | ArrayLen => (CArray ts, JNil, true)
  | GetObject | ObjectLen | ObjectGet _ => (CObject es, JNil, true)
  | ArrayGet idx => (if idx <? 0 then c else CArray ts, JNil, true)
  | GetPath _ => (c, JNil, true)
  end.

(** Whether the caller asks for the element removed. *)
Definition jop_wants (op : jop) : bool :=
  match op with
  | ArrayUpdate _ want | ArrayDelete _ want | ArrayPop want | ArrayShift want
  | ObjectUpdate _ want | ObjectDelete _ want => want
  | _ => false
  end.
(** What becomes of the element removed, as zc.h says: it is handed over with no
    parent, or released ([None]). *)
Definition jop_fate (op : jop) : option Z := if jop_wants op then Some 0 else None.
(** The two functions that do neither: the element stays in the store with its
    parent unchanged, and the caller gets NULL. *)
Definition jop_loses (op : jop) : bool := match op with ArrayPop _ | ArrayShift _ => true | _ => false end.
Definition fate (f : option Z) (R : gmap Z jnode) (t : jtree) (R' : gmap Z jnode) : Prop :=
  match f with Some q => jrep R q t R' | None => R' = R end.

(** The pointer or the number a function answers. *)
Definition jop_answer (op : jop) j c e t : Z :=
  match op with
  | ArrayPush | ArrayUnshift | ArrayInsert _ => jptr e
  | ArrayGet idx => jptr (default JNil (rd (as_array c) idx))
  | ArrayLen => zlen (as_array c)
  | ObjectGet key => jptr (found_in (as_object c) key)
  | ObjectLen => zlen (as_object c)
  | GetPath path => match path with [] => j | _ => jptr (tree_at (JT j c) (split_slash path)) end
  | _ => if jop_wants op then jptr t else 0
  end.
Definition takes_element (op : jop) : bool :=
  match op with
  | ArrayPush | ArrayUnshift | ArrayInsert _ | ArrayUpdate _ _ | ObjectUpdate _ _ => true
  | _ => false
  end.
(** The operand: a value of its own, which [zjson_array_insert], that does not set
    its parent, expects to be marked as the array's already; no operand where none
    is taken. And a path whose indices an [int] holds. *)
Definition operand_ok (op : jop) (j qe : Z) c e : Prop :=
  (if takes_element op then e <> JNil /\ (forall idx, op = ArrayInsert idx -> qe = j) else e = JNil) /\
  match op with GetPath path => path_fits (JT j c) (split_slash path) | _ => True end.
Definition size_ok (c : jcont) : Prop := zlen (children c) <= JN.
End spec.

Section exec.
Context `{!Allocator} `{!Doubles}.
Definition jexec (op : jop) (j element : Z) : St (gmap Z jnode) (bool * Z) :=
  match op with
  | ArrayPush => r ← zjson_array_push j element; mret (true, r)
  | ArrayUnshift => r ← zjson_array_unshift j element; mret (true, r)
  | ArrayInsert idx => r ← zjson_array_insert j idx element; mret (true, r)
  | ArrayUpdate idx want_old => r ← zjson_array_update j idx element want_old; mret (true, r)
  | ArrayDelete idx want_old => r ← zjson_array_delete j idx want_old; mret (true, r)
  | ArrayPop _ => zjson_array_pop j
  | ArrayShift _ => zjson_array_shift j
  | ObjectUpdate key want_old => r ← zjson_object_update j key element want_old; mret (true, r)
  | ObjectDelete key want_old => r ← zjson_object_delete j key want_old; mret (true, r)
  | GetBool => zjson_get_bool_value j;; mret (true, 0)
  | GetLong => zjson_get_long_value j;; mret (true, 0)
  | GetDouble => zjson_get_double_value j;; mret (true, 0)
  | GetString => zjson_get_string_value j;; mret (true, 0)
  | GetArray => zjson_get_array_value j;; mret (true, 0)
  | GetObject => zjson_get_object_value j;; mret (true, 0)
  | ArrayGet idx => r ← zjson_array_get j idx; mret (true, r)
  | ArrayLen => r ← zjson_array_get_len j; mret (true, r)
  | ObjectGet key => r ← zjson_object_get j key; mret (true, r)
  | ObjectLen => r ← zjson_object_get_len j; mret (true, r)
  | GetPath path => r ← zjson_get_element_by_path j path; mret (true, r)
  end.
End exec.

(** ** Lists of elements: addresses and pointers *)
Section elements.
Context `{!Doubles}.
Implicit Types (ts : list jtree) (e t x : jtree).

Lemma alladdrs_nils n : alladdrs (replicate n JNil) = [].
Proof. by induction n. Qed.
Lemma alladdrs_one t : alladdrs [t] = addrs t.
Proof. apply app_nil_r. Qed.
(** What a list of elements may become when [e] comes in and [t] goes out. *)
Definition swaps ts e t ts' : Prop :=
  (forall x, x ∈ ts' -> x = e \/ x ∈ ts \/ x = JNil) /\ (t ∈ ts \/ t = JNil) /\
  addrs t ++ alladdrs ts' ≡ₚ addrs e ++ alladdrs ts.

Lemma swaps_perm ts e t ts' : t :: ts' ≡ₚ e :: ts -> t ∈ ts \/ t = JNil -> swaps ts e t ts'.
Proof.
  intros Hp Ht. split; [|split; [done|]].
  - intros x Hx. assert (Hx' : x ∈ e :: ts) by (rewrite <- Hp; by right). apply elem_of_cons in Hx'. tauto.
  - rewrite <- !alladdrs_cons. by apply alladdrs_perm.
Qed.
Lemma swaps_add ts e ts' : ts' ≡ₚ e :: ts -> swaps ts e JNil ts'.
Proof.
  intros Hp. split; [|split; [by right|]].
  - intros x. rewrite Hp. intros [?|?]%elem_of_cons; auto.
  - cbn [addrs app]. rewrite <- alladdrs_cons. by apply alladdrs_perm.
Qed.
Lemma swaps_remove ts t ts' : ts ≡ₚ t :: ts' -> swaps ts JNil t ts'.
Proof.
  intros Hp. split; [|split; [left; rewrite Hp; by left|]].
  - intros x Hx. right. left. rewrite Hp. by right.
  - by rewrite (alladdrs_perm _ _ Hp), alladdrs_cons.
Qed.
Lemma swaps_insert ts e idx : swaps ts e JNil (insert_at ts idx e).
Proof.
  unfold insert_at. destruct (idx <? 0).
  - split; [|split; [by right|]].
    + intros x [Hx|Hx%list_elem_of_singleton]%elem_of_app; auto.
    + rewrite alladdrs_app, alladdrs_one. cbn [addrs app]. apply Permutation_app_comm.
  - set (n := Z.to_nat idx). split; [|split; [by right|]].
    + intros x. rewrite !elem_of_app, list_elem_of_singleton.
      intros [Hx|[Hx|[->|Hx]]]; auto.
      * right. left. rewrite <- (take_drop n ts). apply elem_of_app. by left.
      * apply elem_of_replicate in Hx as [-> _]. auto.
      * right. left. rewrite <- (take_drop n ts). apply elem_of_app. by right.
    + rewrite !alladdrs_app, alladdrs_nils, alladdrs_one. cbn [addrs app].
      rewrite Permutation_app_swap_app, <- alladdrs_app. by rewrite take_drop.
Qed.
Lemma swaps_replace ts e t n : ts !! n = Some t -> swaps ts e t (<[n := e]> ts).
Proof.
  intros Hn. apply swaps_perm; [|left; by eapply list_elem_of_lookup_2].
  rewrite <- (take_drop_middle ts n t Hn) at 2. rewrite insert_take_drop by (by eapply lookup_lt_Some).
  rewrite <- !Permutation_middle. apply perm_swap.
Qed.
Lemma swaps_delete ts t n : ts !! n = Some t -> swaps ts JNil t (delete n ts).
Proof. intros Hn. by apply swaps_remove, delete_Permutation. Qed.
Lemma swaps_refl ts : swaps ts JNil JNil ts.
Proof. split; [|by split; [right|]]. auto. Qed.

Lemma nil_ptrs n : map jptr (replicate n JNil) = replicate n 0.
Proof. by induction n as [|n IH]; cbn; [|rewrite IH]. Qed.
Lemma insert_at_ptrs ts idx e : map jptr (insert_at ts idx e) = spec_insert (map jptr ts) idx (jptr e).
Proof.
  unfold insert_at, spec_insert. destruct (idx <? 0); rewrite !map_app; [done|]. cbn [map].
  rewrite firstn_map, skipn_map, nil_ptrs. unfold zlen. by rewrite length_map.
Qed.
Lemma rd_ptrs ts idx : rd (map jptr ts) idx = jptr <$> rd ts idx.
Proof. unfold rd. destruct (idx <? 0); [done|]. apply list_lookup_fmap. Qed.
Lemma rd_lookup ts idx t : rd ts idx = Some t -> ts !! Z.to_nat idx = Some t /\ 0 <= idx < zlen ts.
Proof.
  intros Hr. pose proof (rd_Some _ _ _ Hr). unfold rd in Hr. destruct (Z.ltb_spec idx 0); [lia|]. done.
Qed.
End elements.

(** ** Every operation does what its specification says *)
Section refine.
Context `{AllocatorSound} `{!Doubles}.
Implicit Types (st R : gmap Z jnode) (ts : list jtree) (e t : jtree).

(** The steps all operations share. *)
Lemma two_node R R1 q j c e st : jrep R1 j e st -> jrep R q (JT j c) R1 ->
  exists v, st !! j = Some (mk_jnode v q) /\ cval v c.
Proof.
  intros He Hc. destruct (jrep_node _ _ _ _ _ Hc) as (_ & v & Hv & Hvc). exists v. split; [|done].
  by apply (jrep_elsewhere _ _ _ _ _ _ He Hv).
Qed.
Lemma wp_array_change {A} R R1 q j ts ts' e t (f : zvector -> option (zvector * A)) ret st (Q : A -> gmap Z jnode -> Prop) :
  jrep R1 j e st -> jrep R q (JT j (CArray ts)) R1 ->
  (forall a, cval (VArray a) (CArray ts) -> runs (f a) (fun r => cval (VArray r.1) (CArray ts') /\ r.2 = ret)) ->
  swaps ts e t ts' ->
  (forall st' R', jrep R' j t st' -> jrep R q (JT j (CArray ts')) R' -> Q ret st') ->
  wp (on_vec j f) st Q.
Proof.
  intros He Hc Hf (Hin & Ht & Ha) HQ. destruct (two_node _ _ _ _ _ _ _ He Hc) as (v & Hv & Hvc).
  destruct v as [| | | | | |a]; try done. destruct (Hf a Hvc) as ([a' r] & E & Hc' & Er). cbn in Hc', Er. subst r.
  eapply wp_on_vec; [exact Hv|reflexivity|exact E|].
  destruct (jrep_exchange R R1 q j (CArray ts) (CArray ts') e t (VArray a') st He Hc Hc' Hin Ht Ha) as (R' & H1' & H2').
  by eapply HQ.
Qed.
Lemma wp_object_change {A} R R1 q j es es' e t (f : St (kvstate (list Z) Z) A) (P : A -> Prop) st (Q : A -> gmap Z jnode -> Prop) :
  jrep R1 j e st -> jrep R q (JT j (CObject es)) R1 ->
  (forall m, cval (VObject m) (CObject es) -> wp f m (fun r m' => cval (VObject m') (CObject es') /\ P r)) ->
  swaps (map snd es) e t (map snd es') ->
  (forall r st' R', P r -> jrep R' j t st' -> jrep R q (JT j (CObject es')) R' -> Q r st') ->
  wp (on_map j f) st Q.
Proof.
  intros He Hc Hf (Hin & Ht & Ha) HQ. destruct (two_node _ _ _ _ _ _ _ He Hc) as (v & Hv & Hvc).
  destruct v as [| | | | |m|]; try done. destruct (wp_runs _ _ _ (Hf m Hvc)) as (r & m' & E & Hc' & Hr).
  eapply wp_on_map; [exact Hv|reflexivity|exact E|].
  destruct (jrep_exchange R R1 q j (CObject es) (CObject es') e t (VObject m') st He Hc Hc' Hin Ht Ha) as (R' & H1' & H2').
  by eapply HQ.
Qed.

Lemma enter_element R R1 q qe j c e st : jrep R1 q (JT j c) st -> jrep R qe e R1 -> e <> JNil ->
  wp (set_parent (jptr e) j) st (fun _ st' => exists R1', jrep R1' q (JT j c) st' /\ jrep R j e R1').
Proof.
  intros Hc He Hne. destruct e as [|x ce]; [done|]. destruct (jrep_node _ _ _ _ _ He) as (_ & v & Hv & _).
  destruct (jrep_elsewhere _ _ _ _ _ _ Hc Hv) as [Hx Hxv]. eapply wp_set_parent_json; [exact Hxv|].
  exists (<[x := mk_jnode v j]> R1). split; [by apply jrep_outside|]. by eapply jrep_set_parent.
Qed.
Lemma enter_array R R1 q j c e st : jrep R1 q (JT j c) st -> jrep R j e R1 ->
  wp (zjson_get_array_value j) st (fun _ st' => exists R2, jrep R2 j e st' /\ jrep R q (JT j (CArray (as_array c))) R2).
Proof using H0.
  intros Hc He. eapply wp_mono; [by eapply get_array_spec|]. intros [] st' Hc'. by eapply jrep_swap.
Qed.
Lemma enter_object R R1 q j c e st : jrep R1 q (JT j c) st -> jrep R j e R1 ->
  wp (zjson_get_object_value j) st (fun _ st' => exists R2, jrep R2 j e st' /\ jrep R q (JT j (CObject (as_object c))) R2).
Proof using H0.
  intros Hc He. eapply wp_mono; [by eapply get_object_spec|]. intros [] st' Hc'. by eapply jrep_swap.
Qed.

Lemma give_back_spec R R1 q j c t want st : jrep R1 j t st -> jrep R q (JT j c) R1 ->
  wp (give_back want (jptr t)) st (fun r st' => r = (if want : bool then jptr t else 0) /\
    exists R', jrep R' q (JT j c) st' /\ fate (if want then Some 0 else None) R t R').
Proof using H0.
  intros Ht Hc. unfold give_back. destruct t as [|x ct].
  - apply jrep_nil in Ht as ->. cbn. destruct want; (apply wp_bind, wp_ret, wp_ret; split; [done|]; exists R; split; [done|]);
      [by apply jrep_nil|done].
  - cbn [jptr]. destruct (jrep_node _ _ _ _ _ Ht) as (Hx & v & Hv & _). rewrite (proj2 (Z.eqb_neq x 0)) by done.
    destruct want; apply wp_bind.
    + eapply wp_set_parent_json; [exact Hv|]. apply wp_ret. split; [done|].
      pose proof (jrep_set_parent _ _ 0 _ _ _ _ Ht Hv) as Ht'. by eapply jrep_swap.
    + eapply wp_mono; [by apply (zjson_free_spec R1 j (JT x ct))|]. intros [] st' ->. apply wp_ret. split; [done|].
      by exists R.
Qed.

Lemma runs_cval {B} (o : option zvector) (b : B) ts : runs o (fun v => cval (VArray v) (CArray ts)) ->
  runs (v ← o; Some (v, b)) (fun r => cval (VArray r.1) (CArray ts) /\ r.2 = b).
Proof. intros Ho. eapply runs_bind; [exact Ho|]. intros v Hv. by apply runs_ret. Qed.

(** What an operation must do to a value over [R], with an operand that stands over [R] too. *)
Definition jop_post (op : jop) R q j c e (r : bool * Z) st' : Prop :=
  r = ((jop_spec op c e).2, if jop_loses op then 0 else jop_answer op j c e (jop_spec op c e).1.2) /\
  exists R', jrep R' q (JT j (jop_spec op c e).1.1) st' /\
    fate (if jop_loses op then Some j else jop_fate op) R (jop_spec op c e).1.2 R'.

Lemma array_grow R R1 q j c e st (f : zvector -> option zvector) ts' : jrep R1 q (JT j c) st -> jrep R j e R1 ->
  swaps (as_array c) e JNil ts' ->
  (forall a, cval (VArray a) (CArray (as_array c)) -> runs (f a) (fun v => cval (VArray v) (CArray ts'))) ->
  wp (zjson_get_array_value j;; on_vec j (fun v => v ← f v; Some (v, tt));; mret (jptr e)) st
    (fun r st' => r = jptr e /\ jrep R q (JT j (CArray ts')) st').
Proof using H0.
  intros Hc He Hsw Hf. apply wp_bind. eapply wp_mono; [by eapply enter_array|]. intros [] st1 (R2 & He2 & Hc2).
  apply wp_bind. eapply (wp_array_change R R2); [exact He2|exact Hc2| |exact Hsw|].
  - intros a Ha. by apply runs_cval, Hf.
  - intros st2 R' Hn Hr. apply wp_ret. split; [done|]. apply jrep_nil in Hn. by rewrite Hn.
Qed.
Lemma insert_fits a ts idx e : cval (VArray a) (CArray ts) -> size_ok (CArray (insert_at ts idx e)) ->
  runs (zvector_insert a idx (jptr e)) (fun v => cval (VArray v) (CArray (insert_at ts idx e))).
Proof.
  unfold size_ok. cbn. intros Ha Hsz. rewrite insert_at_ptrs. apply zvector_insert_rep; [done|].
  rewrite <- insert_at_ptrs. unfold zlen in *. by rewrite length_map.
Qed.
Lemma push_fits a ts e : cval (VArray a) (CArray ts) -> size_ok (CArray (ts ++ [e])) ->
  runs (zvector_push a (jptr e)) (fun v => cval (VArray v) (CArray (ts ++ [e]))).
Proof.
  unfold size_ok. cbn. intros Ha Hsz. rewrite map_app. apply zvector_push_rep; [done|].
  unfold zlen in *. rewrite length_app in Hsz. cbn in Hsz. rewrite length_map. lia.
Qed.
Lemma unshift_fits a ts e : cval (VArray a) (CArray ts) -> size_ok (CArray (e :: ts)) ->
  runs (zvector_unshift a (jptr e)) (fun v => cval (VArray v) (CArray (e :: ts))).
Proof.
  unfold size_ok. cbn. intros Ha Hsz. apply zvector_unshift_rep; [done|].
  unfold zlen in *. cbn in Hsz. rewrite length_map. lia.
Qed.

Lemma push_ok R R1 q qe j c e st : jrep R1 q (JT j c) st -> jrep R qe e R1 -> e <> JNil ->
  size_ok (CArray (as_array c ++ [e])) ->
  wp (zjson_array_push j (jptr e)) st (fun r st' => r = jptr e /\ jrep R q (JT j (CArray (as_array c ++ [e]))) st').
Proof using H0.
  intros Hc He Hne Hsz. apply wp_bind.
  eapply wp_mono; [by eapply enter_element|]. intros [] st1 (R2 & Hc1 & He1).
  eapply (array_grow _ _ _ _ _ _ _ (fun v => zvector_push v (jptr e))); [exact Hc1|exact He1| |].
  - apply swaps_add. apply Permutation_app_comm.
  - intros a Ha. by apply push_fits.
Qed.
Lemma unshift_ok R R1 q qe j c e st : jrep R1 q (JT j c) st -> jrep R qe e R1 -> e <> JNil ->
  size_ok (CArray (e :: as_array c)) ->
  wp (zjson_array_unshift j (jptr e)) st (fun r st' => r = jptr e /\ jrep R q (JT j (CArray (e :: as_array c))) st').
Proof using H0.
  intros Hc He Hne Hsz. apply wp_bind.
  eapply wp_mono; [by eapply enter_element|]. intros [] st1 (R2 & Hc1 & He1).
  eapply (array_grow _ _ _ _ _ _ _ (fun v => zvector_unshift v (jptr e))); [exact Hc1|exact He1| |].
  - by apply swaps_add.
  - intros a Ha. by apply unshift_fits.
Qed.
Lemma insert_ok R R1 q j c e idx st : jrep R1 q (JT j c) st -> jrep R j e R1 ->
  size_ok (CArray (insert_at (as_array c) idx e)) ->
  wp (zjson_array_insert j idx (jptr e)) st (fun r st' => r = jptr e /\
    jrep R q (JT j (CArray (insert_at (as_array c) idx e))) st').
Proof using H0.
  intros Hc He Hsz. eapply (array_grow _ _ _ _ _ _ _ (fun v => zvector_insert v idx (jptr e))); [exact Hc|exact He| |].
  - apply swaps_insert.
  - intros a Ha. by apply insert_fits.
Qed.

(** A change with what the function does after it. *)
Lemma array_step {A B} R R1 q j c e t ts' (ret : A) (f : zvector -> option (zvector * A))
    (k : A -> St (gmap Z jnode) B) (Q : B -> gmap Z jnode -> Prop) st : jrep R1 q (JT j c) st -> jrep R j e R1 ->
  (forall a, cval (VArray a) (CArray (as_array c)) -> runs (f a) (fun r => cval (VArray r.1) (CArray ts') /\ r.2 = ret)) ->
  swaps (as_array c) e t ts' ->
  (forall st' R', jrep R' j t st' -> jrep R q (JT j (CArray ts')) R' -> wp (k ret) st' Q) ->
  wp (zjson_get_array_value j;; r ← on_vec j f; k r) st Q.
Proof using H0.
  intros Hc He Hf Hsw HQ. apply wp_bind. eapply wp_mono; [by eapply enter_array|]. intros [] st1 (R2 & He1 & Hc1).
  apply wp_bind. eapply (wp_array_change R R2); [exact He1|exact Hc1|exact Hf|exact Hsw|exact HQ].
Qed.
Lemma object_step {A B} R R1 q j c e t es' (P : A -> Prop) (f : St (kvstate (list Z) Z) A)
    (k : A -> St (gmap Z jnode) B) (Q : B -> gmap Z jnode -> Prop) st : jrep R1 q (JT j c) st -> jrep R j e R1 ->
  (forall m, cval (VObject m) (CObject (as_object c)) -> wp f m (fun r m' => cval (VObject m') (CObject es') /\ P r)) ->
  (forall m, cval (VObject m) (CObject (as_object c)) -> swaps (map snd (as_object c)) e t (map snd es')) ->
  (forall r st' R', P r -> jrep R' j t st' -> jrep R q (JT j (CObject es')) R' -> wp (k r) st' Q) ->
  wp (zjson_get_object_value j;; r ← on_map j f; k r) st Q.
Proof using H0.
  intros Hc He Hf Hsw HQ. apply wp_bind. eapply wp_mono; [by eapply enter_object|]. intros [] st1 (R2 & He1 & Hc1).
  destruct (two_node _ _ _ _ _ _ _ He1 Hc1) as (v & Hv & Hvc). destruct v as [| | | | |m|]; try done.
  apply wp_bind. eapply (wp_object_change R R2); [exact He1|exact Hc1|exact Hf|by eapply Hsw|exact HQ].
Qed.
Lemma no_operand R q j c st : jrep R q (JT j c) st -> exists R1, jrep R1 q (JT j c) st /\ jrep R j JNil R1.
Proof. intros Hc. exists R. split; [done|]. by apply jrep_nil. Qed.
Abbreviation ops_goal op R q j c e st := (wp (jexec op j (jptr e)) st (jop_post op R q j c e)).

(** Removing [t] from a list whose pointers are those of the vector. *)
Lemma vres_cval s a ts' (x : bool * Z) : vres JN JM s a -> s = (map jptr ts', x) ->
  cval (VArray a.1) (CArray ts') /\ a.2 = x.
Proof. intros [Hr Hx] ->. done. Qed.
Lemma take_out op f sp R q j c t ts' ret x st : jrep R q (JT j c) st ->
  (forall a l, vrep JN JM a l -> runs (f a) (vres JN JM (sp l))) ->
  jexec op j 0 = (zjson_get_array_value j;; r ← on_vec j f; mret (fst r, 0)) ->
  jop_spec op c JNil = (CArray ts', t, ret) -> jop_loses op = true ->
  sp (map jptr (as_array c)) = (map jptr ts', (ret, x)) -> swaps (as_array c) JNil t ts' ->
  ops_goal op R q j c JNil st.
Proof using H0.
  intros Hc Hf Ex Es Elose Ep Hsw. destruct (no_operand _ _ _ _ _ Hc) as (R1 & Hc1 & Hn). cbn [jptr]. rewrite Ex.
  eapply (array_step R R1 q j c JNil t ts' (ret, x)); [exact Hc1|exact Hn| |exact Hsw|].
  - intros a Ha. eapply runs_mono; [by apply Hf|]. intros r Hr. exact (vres_cval _ _ _ _ Hr Ep).
  - intros st' R' Ht Hr. apply wp_ret. unfold jop_post. rewrite Es. cbn [fst snd]. rewrite Elose.
    split; [done|]. by eapply jrep_swap.
Qed.
Lemma pop_ok want R q j c st : jrep R q (JT j c) st -> ops_goal (ArrayPop want) R q j c JNil st.
Proof using H0.
  intros Hc. destruct (last (as_array c)) as [t|] eqn:El.
  - pose proof El as (ts' & Ets)%last_Some.
    eapply (take_out (ArrayPop want) zvector_pop spec_pop _ _ _ _ t ts'); try done.
    + intros a l. apply zvector_pop_rep.
    + unfold jop_spec. by rewrite El, Ets, removelast_last.
    + rewrite Ets, map_app. apply spec_pop_snoc.
    + rewrite Ets. apply swaps_remove. by rewrite Permutation_app_comm.
  - pose proof El as Ets%last_None.
    eapply (take_out (ArrayPop want) zvector_pop spec_pop _ _ _ _ JNil []); try done.
    + intros a l. apply zvector_pop_rep.
    + unfold jop_spec. by rewrite El.
    + by rewrite Ets.
    + rewrite Ets. apply swaps_refl.
Qed.
Lemma shift_ok want R q j c st : jrep R q (JT j c) st -> ops_goal (ArrayShift want) R q j c JNil st.
Proof using H0.
  intros Hc. destruct (as_array c) as [|t ts'] eqn:Ets.
  - eapply (take_out (ArrayShift want) zvector_shift spec_shift _ _ _ _ JNil []); try done.
    + intros a l. apply zvector_shift_rep.
    + unfold jop_spec. by rewrite Ets.
    + by rewrite Ets.
    + rewrite Ets. apply swaps_refl.
  - eapply (take_out (ArrayShift want) zvector_shift spec_shift _ _ _ _ t ts'); try done.
    + intros a l. apply zvector_shift_rep.
    + unfold jop_spec. by rewrite Ets.
    + by rewrite Ets.
    + rewrite Ets. by apply swaps_remove.
Qed.
Lemma delete_ok R q j c idx want st : jrep R q (JT j c) st -> ops_goal (ArrayDelete idx want) R q j c JNil st.
Proof using H0.
  intros Hc. set (ts := as_array c).
  assert (Hend : forall t ts' b, jop_spec (ArrayDelete idx want) c JNil = (CArray ts', t, true) ->
    spec_delete (map jptr ts) idx = (map jptr ts', (b, jptr t)) -> swaps ts JNil t ts' ->
    ops_goal (ArrayDelete idx want) R q j c JNil st).
  { intros t ts' b Es Ep Hsw. destruct (no_operand _ _ _ _ _ Hc) as (R1 & Hc1 & Hn).
    cbn [jexec]. unfold zjson_array_delete. apply wp_bind.
    eapply (array_step R R1 q j c JNil t ts' (b, jptr t)); [exact Hc1|exact Hn| |exact Hsw|].
    - intros a Ha. eapply runs_mono; [by apply (zvector_delete_rep JN JM a (map jptr ts) idx)|].
      intros r Hr. exact (vres_cval _ _ _ _ Hr Ep).
    - intros st' R' Ht Hr. eapply wp_mono; [by eapply give_back_spec|]. intros r st2 (-> & Hfate). apply wp_ret.
      unfold jop_post. rewrite Es. done. }
  destruct (rd ts idx) as [t|] eqn:Er.
  - destruct (rd_lookup _ _ _ Er) as [Hl _].
    eapply (Hend t (delete (Z.to_nat idx) ts)); [cbn; fold ts; by rewrite Er| |by apply swaps_delete].
    unfold spec_delete. rewrite rd_ptrs, Er. cbn. by rewrite delete_take_drop, map_app, firstn_map, skipn_map.
  - eapply (Hend JNil ts); [cbn; fold ts; by rewrite Er| |apply swaps_refl].
    unfold spec_delete. by rewrite rd_ptrs, Er.
Qed.
Lemma update_ok R R1 q qe j c e idx want st : jrep R1 q (JT j c) st -> jrep R qe e R1 -> e <> JNil ->
  size_ok (jop_spec (ArrayUpdate idx want) c e).1.1 -> ops_goal (ArrayUpdate idx want) R q j c e st.
Proof using H0.
  intros Hc He Hne Hsz. set (ts := as_array c).
  assert (Hend : forall t ts', jop_spec (ArrayUpdate idx want) c e = (CArray ts', t, true) -> swaps ts e t ts' ->
    (forall a, cval (VArray a) (CArray ts) -> runs ((fun v =>
      let idx := if idx <? 0 then v_len v else idx in
      if idx <? v_len v then tmpj ← vget v idx; v ← vput v idx (jptr e); Some (v, tmpj)
      else v ← zvector_insert v idx (jptr e); Some (v, 0)) a)
      (fun r => cval (VArray r.1) (CArray ts') /\ r.2 = jptr t)) -> ops_goal (ArrayUpdate idx want) R q j c e st).
  { intros t ts' Es Hsw Hf. cbn [jexec]. unfold zjson_array_update. apply wp_bind, wp_bind.
    eapply wp_mono; [by eapply enter_element|]. intros [] st1 (R2 & Hc1 & He1).
    eapply (array_step R R2 q j c e t ts' (jptr t)); [exact Hc1|exact He1|exact Hf|exact Hsw|].
    intros st' R' Ht Hr. eapply wp_mono; [by eapply give_back_spec|]. intros r st2 (-> & Hfate). apply wp_ret.
    unfold jop_post. rewrite Es. done. }
  destruct (rd ts idx) as [t|] eqn:Er.
  - destruct (rd_lookup _ _ _ Er) as [Hl Hrange].
    eapply (Hend t); [cbn; fold ts; by rewrite Er|by apply swaps_replace|]. intros a Ha.
    pose proof (array_len _ _ Ha) as El. cbn zeta. rewrite El.
    destruct (Z.ltb_spec idx 0); [lia|]. destruct (Z.ltb_spec idx (zlen ts)); [|lia].
    rewrite (vget_rep JN JM a (map jptr ts) idx (jptr t)) by (done || by rewrite rd_ptrs, Er). cbn [mbind option_bind].
    apply runs_cval. eapply runs_mono; [apply (vput_rep JN JM a (map jptr ts)); [done|unfold zlen in *; rewrite length_map; lia]|].
    intros v Hv. cbn in Hv |- *. replace (map jptr (<[Z.to_nat idx:=e]> ts)) with (<[Z.to_nat idx:=jptr e]> (map jptr ts)); [done|].
    symmetry. apply (list_fmap_insert jptr).
  - eapply (Hend JNil); [cbn; fold ts; by rewrite Er|apply swaps_insert|]. intros a Ha. cbn zeta.
    rewrite (array_len _ _ Ha). set (i := if idx <? 0 then zlen ts else idx).
    assert (Hi : zlen ts <= i /\ insert_at ts idx e = insert_at ts i e).
    { unfold i. destruct (Z.ltb_spec idx 0).
      - split; [lia|]. unfold insert_at. zlen_facts. destruct (Z.ltb_spec idx 0), (Z.ltb_spec (zlen ts) 0); try lia.
        rewrite Z.sub_diag, zlen_to_nat, drop_all. by rewrite take_ge by lia.
      - split; [|done]. destruct (Z.le_gt_cases (zlen ts) idx); [done|].
        destruct (rd_is_Some ts idx) as [? E]; [lia|]. fold ts in E. congruence. }
    destruct Hi as [Hi Ei]. destruct (Z.ltb_spec i (zlen ts)); [lia|]. apply runs_cval. rewrite Ei.
    apply insert_fits; [done|]. rewrite <- Ei. unfold jop_spec in Hsz. fold ts in Hsz. by rewrite Er in Hsz.
Qed.

(** Maps: the element found under a key, and the children after. *)
Lemma value_found (o : option Z) es key : value_rel eq o (al_find strcmp key (map entry_ptr es)) ->
  default 0 o = jptr (found_in es key).
Proof.
  unfold found_in, value_rel, entry_ptr. rewrite (al_find_vals strcmp jptr key es).
  destruct (al_find strcmp key es) as [e|]; cbn; inversion 1; by subst.
Qed.
Lemma object_sorted m es : cval (VObject m) (CObject es) -> al_sorted strcmp es.
Proof.
  intros [Hr%(kv_rep_sorted strcmp eq) _]. unfold al_sorted in *. clear -Hr. induction es as [|e es IH]; [constructor|].
  cbn in Hr. apply StronglySorted_inv in Hr as [Hr He]. constructor; [by apply IH|].
  apply Forall_forall. intros x Hx. rewrite Forall_forall in He. by apply (He (entry_ptr x)), (list_elem_of_fmap_2 entry_ptr).
Qed.
Lemma object_update_fits m es key e : cval (VObject m) (CObject es) -> size_ok (CObject (al_update strcmp key e es)) ->
  wp (zmap_update key (jptr e)) m (fun r m' => cval (VObject m') (CObject (al_update strcmp key e es)) /\
    default 0 (snd r) = jptr (found_in es key)).
Proof using H0.
  unfold size_ok. cbn [children]. intros [Hr Hlen] Hsz.
  eapply wp_mono; [apply (kv_update_spec strcmp eq _ (jptr e) key m (map entry_ptr es)); [done|by split; eauto|]|].
  - unfold zlen, int_max, JN in *. rewrite length_map. lia.
  - intros r m' (l & Hl & _ & Hv). split; [|by apply value_found].
    unfold entry_ptr in Hl. rewrite (al_update_vals strcmp jptr key e es) in Hl. split; [by exists l|].
    unfold zlen in *. by rewrite length_map in Hsz.
Qed.
Lemma swaps_update es key e : al_sorted strcmp es ->
  swaps (map snd es) e (found_in es key) (map snd (al_update strcmp key e es)).
Proof.
  intros Hs. unfold al_update, found_in. destruct (al_find strcmp key es) as [x|] eqn:Ef; cbn.
  - destruct (al_find_split strcmp key es x Hs Ef) as (a & b & -> & Hset & _). rewrite Hset, !map_app. cbn [map snd].
    apply swaps_perm; [|left; apply elem_of_app; right; by left].
    rewrite <- !Permutation_middle. apply perm_swap.
  - apply swaps_add. by rewrite (al_insert_perm strcmp key e es).
Qed.
Lemma object_delete_fits m es key : cval (VObject m) (CObject es) ->
  wp (zmap_delete key) m (fun r m' => cval (VObject m') (CObject (al_remove strcmp key es)) /\
    default 0 r = jptr (found_in es key)).
Proof using H0.
  intros [Hr Hlen]. eapply wp_mono; [apply (kv_delete_spec strcmp eq key m (map entry_ptr es)); [done|]|].
  - unfold zlen, int_max, JN in *. rewrite length_map. lia.
  - intros r m' (Hv & Hr'). split; [|by apply value_found].
    unfold entry_ptr in Hr'. rewrite (al_remove_vals strcmp jptr key es) in Hr'. split; [done|].
    etrans; [|exact Hlen]. unfold al_remove. apply zlen_filter_le.
Qed.
Lemma swaps_remove_key es key : al_sorted strcmp es ->
  swaps (map snd es) JNil (found_in es key) (map snd (al_remove strcmp key es)).
Proof.
  intros Hs. unfold found_in. destruct (al_find strcmp key es) as [x|] eqn:Ef; cbn.
  - destruct (al_find_split strcmp key es x Hs Ef) as (a & b & -> & _ & Hrem). rewrite Hrem, !map_app. cbn [map snd].
    apply swaps_remove. by rewrite <- Permutation_middle.
  - rewrite al_remove_none by done. apply swaps_refl.
Qed.
Lemma object_update_ok R R1 q qe j c e key want st : jrep R1 q (JT j c) st -> jrep R qe e R1 -> e <> JNil ->
  size_ok (jop_spec (ObjectUpdate key want) c e).1.1 -> ops_goal (ObjectUpdate key want) R q j c e st.
Proof using H0.
  intros Hc He Hne Hsz. cbn [jexec]. unfold zjson_object_update. apply wp_bind, wp_bind.
  eapply wp_mono; [by eapply enter_element|]. intros [] st1 (R2 & Hc1 & He1).
  eapply (object_step R R2 q j c e (found_in (as_object c) key)); [exact Hc1|exact He1| | |].
  - intros m Hm. by apply object_update_fits.
  - intros m Hm. apply swaps_update. by eapply object_sorted.
  - intros r st' R' Hr Ht Hc'. cbn beta in Hr. rewrite Hr.
    eapply wp_mono; [by eapply give_back_spec|]. intros x st2 (-> & Hfate). by apply wp_ret.
Qed.
Lemma object_delete_ok R q j c key want st : jrep R q (JT j c) st -> ops_goal (ObjectDelete key want) R q j c JNil st.
Proof using H0.
  intros Hc. destruct (no_operand _ _ _ _ _ Hc) as (R1 & Hc1 & Hn). cbn [jexec]. unfold zjson_object_delete. apply wp_bind.
  eapply (object_step R R1 q j c JNil (found_in (as_object c) key)); [exact Hc1|exact Hn| | |].
  - intros m Hm. by apply object_delete_fits.
  - intros m Hm. apply swaps_remove_key. by eapply object_sorted.
  - intros r st' R' Hr Ht Hc'. cbn beta in Hr. rewrite Hr.
    eapply wp_mono; [by eapply give_back_spec|]. intros x st2 (-> & Hfate). by apply wp_ret.
Qed.

(** ** Reading *)
Lemma read_done op c' R q j c st : jrep R q (JT j c') st ->
  jop_spec op c JNil = (c', JNil, true) -> jop_loses op = false -> jop_wants op = false ->
  jop_post op R q j c JNil (true, jop_answer op j c JNil JNil) st.
Proof.
  intros Hr Es El Ew. unfold jop_post, jop_fate. rewrite Es, El, Ew. cbn [fst snd]. split; [done|]. by exists R.
Qed.
Lemma value_ok op (get : Z -> St (gmap Z jnode) unit) c' R q j c st :
  wp (get j) st (fun _ st' => jrep R q (JT j c') st') ->
  jexec op j 0 = (get j;; mret (true, 0)) -> jop_spec op c JNil = (c', JNil, true) ->
  jop_loses op = false -> jop_wants op = false -> jop_answer op j c JNil JNil = 0 -> ops_goal op R q j c JNil st.
Proof.
  intros Hg Ex Es El Ew Ea. cbn [jptr]. rewrite Ex. apply wp_bind. eapply wp_mono; [exact Hg|]. intros [] st' Hr.
  apply wp_ret. rewrite <- Ea. by eapply read_done.
Qed.
(** A node rewritten with fields that stand for the same. *)
Lemma jat_touch st y v v' par t : st !! y = Some (mk_jnode v par) -> (forall c, cval v c -> cval v' c) ->
  forall q, jat st q t -> jat (<[y := mk_jnode v' par]> st) q t.
Proof.
  intros Hy Hv. induction t as [|p c IH] using jtree_nested_ind; intros q; [done|]. rewrite !jat_JT.
  intros [(Hp & w & Hw & Hc) Hch]. split.
  - split; [done|]. destruct (decide (p = y)) as [->|Hne].
    + exists v'. rewrite lookup_insert_eq. rewrite Hy in Hw. injection Hw as -> ->. auto.
    + exists w. by rewrite lookup_insert_ne.
  - rewrite Forall_forall in *. auto.
Qed.
Lemma jrep_touch R q t st y v v' par : jrep R q t st -> y ∈ addrs t -> st !! y = Some (mk_jnode v par) ->
  (forall c, cval v c -> cval v' c) -> jrep R q t (<[y := mk_jnode v' par]> st).
Proof.
  intros [Ht Hn HR Hst] Hy Hv Hc. split; [by eapply jat_touch|done|done|].
  intros x Hx. rewrite lookup_insert_ne; [by apply Hst|]. by intros ->.
Qed.
Lemma map_find_same m key : (exists es, cval (VObject m) (CObject es)) -> exists r m', zmap_find key m = Some (r, m') /\
  (forall c, cval (VObject m) c -> cval (VObject m') c) /\
  forall es, cval (VObject m) (CObject es) -> default 0 (snd r) = jptr (found_in es key).
Proof using H0.
  assert (Hw : forall es, cval (VObject m) (CObject es) -> wp (zmap_find key) m (fun r m' =>
    cval (VObject m') (CObject es) /\ default 0 (snd r) = jptr (found_in es key))).
  { intros es [[l Hl] Hlen]. eapply wp_mono; [by apply (kv_find_spec strcmp eq key)|]. intros r m' (Hl' & _ & Hv).
    split; [split; [by exists l|done]|by apply value_found]. }
  intros [es0 H0']. destruct (wp_runs _ _ _ (Hw es0 H0')) as (r & m' & E & _). exists r, m'. split; [done|].
  assert (Hall : forall es, cval (VObject m) (CObject es) ->
    cval (VObject m') (CObject es) /\ default 0 (snd r) = jptr (found_in es key)).
  { intros es Hes. specialize (Hw es Hes). unfold wp in Hw. by rewrite E in Hw. }
  split; [|intros es Hes; by apply Hall]. intros [] Hc; try done. by apply Hall.
Qed.

(** One step of a path, at a node anywhere in the value. *)
Lemma get_index_at R q t st p par v ts idx : jrep R q t st -> p ∈ addrs t -> st !! p = Some (mk_jnode v par) ->
  cval v (CArray ts) -> wp (zjson_array_get p idx) st (fun r st' =>
    r = jptr (default JNil (rd ts idx)) /\ jrep R q t st' /\ forall u x, jat st x u -> jat st' x u).
Proof.
  intros Hr Hp Hv Hc. destruct v as [| | | | | |a]; try done. unfold zjson_array_get.
  destruct (Z.ltb_spec idx 0) as [Hneg|Hpos].
  { apply wp_ret. split; [|done]. unfold rd. by rewrite (proj2 (Z.ltb_lt idx 0)) by done. }
  apply wp_bind. eapply ensure_same; [exact Hv|done|].
  eapply (wp_on_vec _ _ _ _ Hv _ a a (jptr (default JNil (rd ts idx)))); [done| |].
  - rewrite (array_len _ _ Hc). destruct (Z.leb_spec (zlen ts) idx).
    + destruct (rd ts idx) eqn:E; [|done]. apply rd_lookup in E. lia.
    + destruct (rd_is_Some ts idx) as [u E]; [lia|]. cbn [cval] in Hc.
      by rewrite (vget_rep JN JM a (map jptr ts) idx (jptr u)), E by (done || by rewrite rd_ptrs, E).
  - split; [done|]. split; [by eapply jrep_touch|]. intros u x. by eapply jat_touch.
Qed.
Lemma get_key_at R q t st p par v es key : jrep R q t st -> p ∈ addrs t -> st !! p = Some (mk_jnode v par) ->
  cval v (CObject es) -> wp (zjson_object_get p key) st (fun r st' =>
    r = jptr (found_in es key) /\ jrep R q t st' /\ forall u x, jat st x u -> jat st' x u).
Proof using H0.
  intros Hr Hp Hv Hc. destruct v as [| | | | |m|]; try done. unfold zjson_object_get.
  apply wp_bind. eapply ensure_same; [exact Hv|done|].
  destruct (map_find_same m key) as (r & m' & E & Hsame & Hans); [by exists es|].
  apply wp_bind. eapply (wp_on_map _ _ _ _ Hv _ m m' r); [done|exact E|]. apply wp_ret.
  split; [by apply Hans|]. split; [by eapply jrep_touch|]. intros u x. by eapply jat_touch.
Qed.
Abbreviation spell := (fun n c : Z => 10 * n + (c - 48)).
Lemma spell_grows p : forall idx, all isdigit p -> 0 <= idx -> idx <= foldl spell idx p.
Proof.
  induction p as [|c p IH]; intros idx Hd Hi; cbn; [lia|]. apply Forall_cons in Hd as [Hc Hd].
  unfold isdigit, in_range in Hc. specialize (IH (10 * idx + (c - 48)) Hd). lia.
Qed.
Lemma path_index_spec p : forall idx, 0 <= idx -> foldl spell idx (take_while isdigit p) <= int_max ->
  path_index idx p = Some (if forallb isdigit p then Some (foldl spell idx p) else None).
Proof.
  induction p as [|c p IH]; intros idx Hi Hmax; cbn in Hmax |- *; [done|]. destruct (isdigit c) eqn:Hc; [|done].
  cbn in Hmax |- *. replace (idx * 10 + (c - 48)) with (10 * idx + (c - 48)) by lia.
  assert (Hn : 0 <= 10 * idx + (c - 48)) by (unfold isdigit, in_range in Hc; lia).
  pose proof (spell_grows (take_while isdigit p) _ (take_while_all isdigit p) Hn) as Hle.
  rewrite as_int_Some by (unfold int_max in Hmax; lia). cbn [mbind option_bind]. by apply IH.
Qed.
(** The children a step can lead to. *)
Lemma tree_step_child p c ps : tree_step (JT p c) ps ∈ children c \/ tree_step (JT p c) ps = JNil.
Proof.
  destruct c as [| | | | |es|ts]; cbn; auto.
  - unfold found_in. destruct (al_find strcmp ps es) as [e|] eqn:Ef; cbn; [|auto]. left.
    apply (list_elem_of_fmap_2 snd es e). by apply (al_find_key _ _ _ _ Ef).
  - destruct (forallb isdigit ps); [|auto]. destruct (rd ts (piece_value ps)) as [t|] eqn:Er; cbn; [|auto]. left.
    apply rd_lookup in Er as [Er _]. by eapply list_elem_of_lookup_2.
Qed.
Lemma path_loop_spec R q t pieces : forall s par st, jrep R q t st -> jat st par s -> (forall y, y ∈ addrs s -> y ∈ addrs t) ->
  path_fits s pieces ->
  wp (path_loop (jptr s) pieces) st (fun r st' => r = jptr (tree_at s pieces) /\ jrep R q t st').
Proof using H0.
  induction pieces as [|ps pieces IH]; intros s par st Hr Hs Hin Hfit; cbn [path_loop]; [by apply wp_ret|].
  cbn [tree_at path_fits] in *. destruct Hfit as [Hfit Hnext]. destruct s as [|p c].
  { apply wp_ret. split; [|done]. cbn. clear. by induction pieces. }
  pose proof Hs as [(Hp & v & Hv & Hc) Hch]%jat_JT. cbn [jptr]. rewrite (proj2 (Z.eqb_neq p 0)) by done.
  assert (Hp' : p ∈ addrs t) by (apply Hin; rewrite addrs_JT; by left).
  assert (Hgo : forall st', jrep R q t st' -> (forall u x, jat st x u -> jat st' x u) ->
    wp (path_loop (jptr (tree_step (JT p c) ps)) pieces) st' (fun r st' =>
      r = jptr (tree_at (tree_step (JT p c) ps) pieces) /\ jrep R q t st')).
  { intros st' Hr' Hkeep. apply (IH _ p); [done| | |done].
    - destruct (tree_step_child p c ps) as [Hch'|E]; [|by rewrite E]. apply Hkeep. rewrite Forall_forall in Hch. by apply Hch.
    - intros y Hy. apply Hin. rewrite addrs_JT. destruct (tree_step_child p c ps) as [Hch'|E]; [|by rewrite E in Hy; apply elem_of_nil in Hy].
      right. fold (alladdrs (children c)). by eapply alladdrs_elem. }
  apply wp_bind. eapply wp_get_jval; [exact Hv|]. apply wp_bind.
  assert (Hnone : tree_step (JT p c) ps = JNil -> wp (path_loop 0 pieces) st (fun r st' =>
    r = jptr (tree_at (tree_step (JT p c) ps) pieces) /\ jrep R q t st')).
  { intros E. specialize (Hgo st Hr). rewrite E in Hgo |- *. by apply Hgo. }
  destruct v as [| | | | |m|a], c as [| | | | |es|ts]; try done; try by apply wp_ret, Hnone.
  - eapply wp_mono; [by eapply (get_key_at R q t)|]. intros r st' (-> & Hr' & Hkeep). by apply Hgo.
  - apply wp_bind. eapply wp_of_option; [by apply path_index_spec|]. fold (piece_value ps). cbn [tree_step] in *.
    destruct (forallb isdigit ps) eqn:Ed.
    + eapply wp_mono; [by eapply (get_index_at R q t)|]. intros r st' (-> & Hr' & Hkeep). by apply Hgo.
    + by apply wp_ret, Hnone.
Qed.
Lemma path_ok R q j c path st : jrep R q (JT j c) st -> path_fits (JT j c) (split_slash path) ->
  ops_goal (GetPath path) R q j c JNil st.
Proof using H0.
  intros Hr Hfit. cbn [jexec jptr]. apply wp_bind. unfold zjson_get_element_by_path. destruct path as [|x path].
  - apply wp_ret, wp_ret. by apply (read_done (GetPath []) c).
  - eapply wp_mono; [by eapply (path_loop_spec R q (JT j c) _ (JT j c)); [|apply (jr_at _ _ _ _ Hr)| |exact Hfit]|].
    intros r st' [-> Hr']. apply wp_ret. by apply (read_done (GetPath (x :: path)) c).
Qed.
Lemma read_array {A} (f : zvector -> option (zvector * A)) x R q j c st : jrep R q (JT j c) st ->
  (forall a, cval (VArray a) (CArray (as_array c)) -> f a = Some (a, x)) ->
  wp (zjson_get_array_value j;; on_vec j f) st (fun r st' => r = x /\ jrep R q (JT j (CArray (as_array c))) st').
Proof using H0.
  intros Hr Hf. apply wp_bind. eapply wp_mono; [by eapply get_array_spec|]. intros [] st' Hr'.
  destruct (jrep_node _ _ _ _ _ Hr') as (_ & v & Hv & Hc). destruct v as [| | | | | |a]; try done.
  eapply (wp_on_vec _ _ _ _ Hv _ a a x); [done|by apply Hf|]. split; [done|].
  eapply jrep_touch; [done|rewrite addrs_JT; by left|exact Hv|done].
Qed.
Lemma read_object {A} (f : St (kvstate (list Z) Z) A) x R q j c st : jrep R q (JT j c) st ->
  (forall m, cval (VObject m) (CObject (as_object c)) -> exists m', f m = Some (x, m') /\
    forall c', cval (VObject m) c' -> cval (VObject m') c') ->
  wp (zjson_get_object_value j;; on_map j f) st (fun r st' => r = x /\ jrep R q (JT j (CObject (as_object c))) st').
Proof using H0.
  intros Hr Hf. apply wp_bind. eapply wp_mono; [by eapply get_object_spec|]. intros [] st' Hr'.
  destruct (jrep_node _ _ _ _ _ Hr') as (_ & v & Hv & Hc). destruct v as [| | | | |m|]; try done.
  destruct (Hf m Hc) as (m' & E & Hsame). eapply (wp_on_map _ _ _ _ Hv _ m m' x); [done|exact E|]. split; [done|].
  eapply jrep_touch; [done|rewrite addrs_JT; by left|exact Hv|done].
Qed.
Lemma array_get_ok R q j c idx st : jrep R q (JT j c) st -> ops_goal (ArrayGet idx) R q j c JNil st.
Proof using H0.
  intros Hr. cbn [jexec jptr]. apply wp_bind. unfold zjson_array_get. destruct (Z.ltb_spec idx 0) as [Hneg|Hpos].
  - apply wp_ret, wp_ret. assert (E : 0 = jop_answer (ArrayGet idx) j c JNil JNil).
    { cbn. unfold rd. by rewrite (proj2 (Z.ltb_lt idx 0)) by done. }
    rewrite E at 1. apply (read_done _ c); [done| |done..]. cbn. by rewrite (proj2 (Z.ltb_lt idx 0)) by done.
  - eapply wp_mono; [apply (read_array _ (jptr (default JNil (rd (as_array c) idx))) R q j c st Hr)|].
    + intros a Ha. rewrite (array_len _ _ Ha). destruct (Z.leb_spec (zlen (as_array c)) idx).
      * destruct (rd (as_array c) idx) eqn:E; [|done]. apply rd_lookup in E. lia.
      * destruct (rd_is_Some (as_array c) idx) as [u E]; [lia|]. cbn [cval] in Ha.
        by rewrite (vget_rep JN JM a (map jptr (as_array c)) idx (jptr u)), E by (done || by rewrite rd_ptrs, E).
    + intros r st' [-> Hr']. apply wp_ret. apply (read_done (ArrayGet idx) (CArray (as_array c))); [done| |done..].
      cbn. by rewrite (proj2 (Z.ltb_ge idx 0)) by done.
Qed.
Lemma object_get_ok R q j c key st : jrep R q (JT j c) st -> ops_goal (ObjectGet key) R q j c JNil st.
Proof using H0.
  intros Hr. cbn [jexec jptr]. apply wp_bind. unfold zjson_object_get. apply wp_bind.
  eapply wp_mono; [by eapply get_object_spec|]. intros [] st1 Hr1.
  destruct (jrep_node _ _ _ _ _ Hr1) as (_ & v & Hv & Hc). destruct v as [| | | | |m|]; try done.
  destruct (map_find_same m key) as (r & m' & E & Hsame & Hans); [by eexists|].
  apply wp_bind. eapply (wp_on_map _ _ _ _ Hv _ m m' r); [done|exact E|]. apply wp_ret, wp_ret. rewrite (Hans _ Hc).
  apply (read_done (ObjectGet key) (CObject (as_object c))); [|done..].
  eapply jrep_touch; [done|rewrite addrs_JT; by left|exact Hv|done].
Qed.
Lemma reading_ok op R q j c st : jrep R q (JT j c) st ->
  match op with
  | GetBool | GetLong | GetDouble | GetString | GetArray | GetObject | ArrayGet _ | ArrayLen | ObjectGet _ | ObjectLen => True
  | _ => False
  end -> ops_goal op R q j c JNil st.
Proof using H0.
  intros Hr Hop. destruct op as [| | | | | | | | | | | | | | |idx| |key| |]; try done.
  - eapply (value_ok _ zjson_get_bool_value); [by apply get_bool_spec|done..].
  - eapply (value_ok _ zjson_get_long_value); [by apply get_long_spec|done..].
  - eapply (value_ok _ zjson_get_double_value); [by apply get_double_spec|done..].
  - eapply (value_ok _ zjson_get_string_value); [by apply get_string_spec|done..].
  - eapply (value_ok _ zjson_get_array_value); [by apply get_array_spec|done..].
  - eapply (value_ok _ zjson_get_object_value); [by apply get_object_spec|done..].
  - by apply array_get_ok.
  - cbn [jexec jptr]. apply wp_bind. eapply wp_mono; [apply (read_array _ (zlen (as_array c)) R q j c st Hr)|].
    + intros a Ha. by rewrite (array_len _ _ Ha).
    + intros r st' [-> Hr']. apply wp_ret. by apply (read_done ArrayLen (CArray (as_array c))).
  - by apply object_get_ok.
  - cbn [jexec jptr]. apply wp_bind. eapply wp_mono; [apply (read_object _ (zlen (as_object c)) R q j c st Hr)|].
    + intros m Hm. exists m. split; [|done]. unfold zmap_len, gets. by rewrite (object_len _ _ Hm).
    + intros r st' [-> Hr']. apply wp_ret. by apply (read_done ObjectLen (CObject (as_object c))).
Qed.
End refine.

(** ** Results *)

Lemma jrep_null `{AllocatorSound} `{!Doubles} R q j st : jrep R q (JT j CNull) st -> st = <[j := mk_jnode VNull q]> R.
Proof.
  intros Hr. pose proof (jrep_node _ _ _ _ _ Hr) as (_ & v & Hv & Hc). destruct v; try done.
  apply map_eq. intros y. destruct (decide (y = j)) as [->|Hne]; [by rewrite lookup_insert_eq|].
  rewrite lookup_insert_ne by done. apply (jr_rest _ _ _ _ Hr). by intros ->%list_elem_of_singleton.
Qed.

(** C5: [zjson_free] releases a value of any depth: exactly its nodes, the
    elements of arrays, the values of objects and the nodes under them, once
    each; everything else in the store is as it was. NULL elements are skipped.
    [zjson_reset] releases what a value holds in the same way and keeps its node,
    with its parent, as a null value. *)
Theorem zjson_free_releases `{AllocatorSound} `{!Doubles} R q t st : jrep R q t st ->
  zjson_free (jptr t) st = Some (tt, R) /\
  forall j c, t = JT j c -> zjson_reset j st = Some (tt, <[j := mk_jnode VNull q]> R).
Proof.
  intros Hr. split.
  - by destruct (wp_runs _ _ _ (zjson_free_spec R q t st Hr)) as ([] & st' & E & ->).
  - intros j c ->. destruct (wp_runs _ _ _ (zjson_reset_spec R q j c st Hr)) as ([] & st' & E & Hr').
    by rewrite E, (jrep_null _ _ _ _ Hr').
Qed.


(** ** Witnesses: the value [[7]] and a value about to get an element *)
Section demo.
#[local] Existing Instance whole_doubles.
Definition demo_vector : zvector := mk_zvector [Some 8; Some 0] 0 1 1 0.
Definition demo_tree : jtree := JT 4 (CArray [JT 8 (CLong 7)]).
Definition demo_rest : gmap Z jnode := {[12 := mk_jnode VNull 0]}.
Definition demo_store : gmap Z jnode := <[4 := mk_jnode (VArray demo_vector) 0]> (<[8 := mk_jnode (VLong 7) 4]> demo_rest).
Lemma demo_vrep : vrep JN JM demo_vector [8].
Proof. unfold JN, JM. split; cbn; try lia; unfold zlen; cbn; try lia. by exists [], []. Qed.
Lemma demo_jrep : jrep demo_rest 0 demo_tree demo_store.
Proof.
  split.
  - cbn. split; [split; [done|]; exists (VArray demo_vector); split; [reflexivity|apply demo_vrep]|].
    split; [|done]. split; [|done]. split; [done|]. by exists (VLong 7).
  - cbn. constructor; [by intros ?%list_elem_of_singleton|apply NoDup_singleton].
  - intros y Hy. cbn in Hy. apply elem_of_cons in Hy as [->|Hy]; [reflexivity|].
    apply elem_of_cons in Hy as [->|[]%elem_of_nil]. reflexivity.
  - intros y Hy. cbn in Hy. apply not_elem_of_cons in Hy as [Hy4 Hy]. apply not_elem_of_cons in Hy as [Hy8 _].
    unfold demo_store. by rewrite !lookup_insert_ne by done.
Qed.
Lemma demo_rest_jrep : jrep ∅ 0 (JT 12 CNull) demo_rest.
Proof.
  split.
  - cbn. split; [split; [done|]; by exists VNull|done].
  - apply NoDup_singleton.
  - done.
  - intros y Hy. cbn in Hy. apply not_elem_of_cons in Hy as [Hy _]. by apply lookup_insert_ne.
Qed.
Lemma zjson_free_releases_witness : zjson_free 4 demo_store = Some (tt, demo_rest) /\
  zjson_reset 4 demo_store = Some (tt, <[4 := mk_jnode VNull 0]> demo_rest).
Proof.
  destruct (zjson_free_releases demo_rest 0 demo_tree demo_store demo_jrep) as [Hf Hr].
  split; [exact Hf|]. exact (Hr 4 (CArray [JT 8 (CLong 7)]) eq_refl).
Defined.
End demo.
