(* ===== verification/JsonWrite.v ===== *)
(** * JSON text: what serialize.c writes

    [json] is a value without its addresses; [json_text] is its text. The loop of
    [zjson_serialize] with its three vectors writes it for a value of any depth,
    within the number of rounds the model gives it. *)
From stdpp Require Import gmap sorting.
From S2P Require Import Prelude Chars Buf Vector Text StateMonad Rbtree RbShape Rbset Rbops RbRefine Keyed KeyedSpec KeyedRefine Maps.
From S2P Require Import Json JsonSpec JsonOps.

(** What the code relies on of [printf]: it writes bytes. *)
Class DoublesSound `{Doubles} : Prop := {
  fmt_e_bytes d : bytes_ok (fmt_e d);
  fmt_lf_bytes d : bytes_ok (fmt_lf d)
}.

Section text.
Context `{!Doubles}.

(** ** Values and their text *)
Inductive json :=
  | JsNull | JsBool (b : Z) | JsLong (l : Z) | JsDouble (d : dbl) | JsString (x : list Z)
  | JsObject (es : list (list Z * json)) | JsArray (vs : list json).

Definition char_text (ch : Z) : list Z :=
  if negb (escape_of ch =? 0) then [chr "\"; escape_of ch]
  else if ch <? 32 then str "\u00" ++ [tab json_hex_chars (Z.shiftr ch 4); tab json_hex_chars (Z.land ch 15)]
  else [ch].
Definition quoted (x : list Z) : list Z := 34 :: concat (map char_text x) ++ [34].
Definition double_text (d : dbl) : list Z :=
  take 1023 (match dbl_trunc d with
             | Some l => if (10 ^ 12 <? l) || (l <? - 10 ^ 12) then fmt_e d else fmt_lf d
             | None => []
             end).
(** The doubles whose cast to [ssize_t] is defined. *)
Definition castable (d : dbl) : Prop := is_Some (dbl_trunc d).
(** Texts with a comma before each, and between each two. *)
Definition more_text (xs : list (list Z)) : list Z := concat (map (cons (chr ",")) xs).
Definition commas (xs : list (list Z)) : list Z :=
  match xs with [] => [] | x :: xs' => x ++ more_text xs' end.
Definition entry_text (k x : list Z) : list Z := quoted k ++ chr ":" :: x.

Fixpoint json_text (v : json) : list Z :=
  match v with
  | JsNull => str "null"
  | JsBool b => if b =? 0 then str "false" else str "true"
  | JsLong l => fmt_zd l
  | JsDouble d => double_text d
  | JsString x => quoted x
  | JsObject es => chr "{" :: commas (map (fun e => entry_text (fst e) (json_text (snd e))) es) ++ str "}"
  | JsArray vs => chr "[" :: commas (map json_text vs) ++ str "]"
  end.

(** A value of the store, its addresses forgotten; a NULL element reads as null. *)
Fixpoint erase (t : jtree) : json :=
  match t with
  | JNil | JT _ CNull => JsNull
  | JT _ (CBool b) => JsBool b
  | JT _ (CLong l) => JsLong l
  | JT _ (CDouble d) => JsDouble d
  | JT _ (CString x) => JsString x
  | JT _ (CObject es) => JsObject (map (fun e => (fst e, erase (snd e))) es)
  | JT _ (CArray ts) => JsArray (map erase ts)
  end.
Definition tree_text (t : jtree) : list Z := json_text (erase t).
Definition pair_text (e : list Z * jtree) : list Z := entry_text e.1 (tree_text e.2).
Lemma tree_text_array p ts : tree_text (JT p (CArray ts)) = chr "[" :: commas (map tree_text ts) ++ str "]".
Proof. unfold tree_text at 1. cbn [erase json_text]. by rewrite map_map. Qed.
Lemma tree_text_object p es : tree_text (JT p (CObject es)) = chr "{" :: commas (map pair_text es) ++ str "}".
Proof. unfold tree_text at 1. cbn [erase json_text]. by rewrite map_map. Qed.

(** ** Strings and numbers *)
Lemma appends_char ch : byte_ok ch -> forall g y, appends g y -> appends (fun b =>
    b ← (if negb (escape_of ch =? 0) then b ← zbuf_put b (chr "\"); zbuf_put b (escape_of ch)
         else if ch <? chr " " then
           b ← zbuf_strcat b (Some (str "\u00" ++ [0]));
           b ← zbuf_put b (tab json_hex_chars (Z.shiftr ch 4));
           zbuf_put b (tab json_hex_chars (Z.land ch 15))
         else zbuf_put b ch); g b) (char_text ch ++ y).
Proof.
  intros Hc g y Hg. apply (appends_bind _ g); [|done]. unfold char_text.
  assert (He : byte_ok (escape_of ch)) by (unfold escape_of, byte_ok; repeat case_match; lia).
  assert (Hx : forall n, byte_ok (tab json_hex_chars n)).
  { intros n. pose proof (tab_forall json_hex_chars (fun z => (0 <=? z) && (z <? 256)) eq_refl n) as Ht.
    cbv beta in Ht. unfold byte_ok. lia. }
  destruct (negb (escape_of ch =? 0)).
  - apply appends_put_then; [by unfold byte_ok|]. apply appends_put. by rewrite u8_id.
  - destruct (ch <? chr " ").
    + apply (appends_bind (fun b => zbuf_strcat b (Some (str "\u00" ++ [0])))).
      * apply (appends_puts (str "\u00")); [|by repeat constructor|by unfold zlen, int_max; cbn; lia].
        by repeat constructor.
      * apply appends_put_then; [done|]. apply appends_put. by rewrite u8_id.
    + apply appends_put. by rewrite u8_id.
Qed.
Lemma serialize_chars_text x : bytes_ok x -> appends (serialize_chars x) (concat (map char_text x)).
Proof.
  induction 1 as [|ch x Hc _ IH]; [apply appends_ret|]. cbn [serialize_chars map concat]. by apply appends_char.
Qed.
Lemma serialize_string_text x : bytes_ok x -> appends (fun b => serialize_string b x) (quoted x).
Proof.
  intros Hx. unfold serialize_string, quoted. apply appends_put_then; [by unfold byte_ok|].
  apply (appends_bind (serialize_chars x)); [by apply serialize_chars_text|]. by apply appends_put.
Qed.

Lemma appends_printf out x : bytes_ok (take 1023 out) -> x = take 1023 out -> appends (fun b => zbuf_printf_1024 b out) x.
Proof. intros Hb -> cap b l [Hrep _] Hr. by apply zbuf_printf_holds. Qed.
Lemma appends_long l : appends (fun b => zbuf_printf_1024 b (fmt_zd l)) (fmt_zd l).
Proof.
  pose proof (fmt_zd_bytes l). pose proof (fmt_zd_len l). apply appends_printf; [by apply Forall_take|].
  symmetry. apply take_ge. unfold zlen in *. lia.
Qed.
Lemma appends_double `{!DoublesSound} d : castable d -> appends (fun b => serialize_double b d) (double_text d).
Proof.
  intros [l Hl]. unfold serialize_double, double_text. rewrite Hl. cbn [mbind option_bind].
  change (1000 * 1000 * 1000 * 1000) with (10 ^ 12).
  destruct ((10 ^ 12 <? l) || (l <? - 10 ^ 12));
    (apply appends_printf; [apply Forall_take|done]); [apply fmt_e_bytes|apply fmt_lf_bytes].
Qed.
End text.

(** ** Maps, entry by entry *)
Section entries.
Context `{AllocatorSound} `{!Doubles}.
Abbreviation at_ := (kv_at strcmp eq ∅).
Implicit Types (m : kvstate (list Z) Z).

Lemma object_first n m l al : at_ n m l al -> fst <$> zmap_first m = Some (end_of L l).
Proof using H0.
  intros Hm. destruct (wp_runs _ _ _ (kv_end_spec strcmp eq L n m l al Hm)) as (r & m' & E & -> & _).
  unfold zmap_first, kv_first. change zrbtree_first with (zrbtree_end L). by rewrite E.
Qed.
Lemma object_entry n m l1 x l2 al1 e al2 : at_ n m (l1 ++ x :: l2) (al1 ++ e :: al2) -> length l1 = length al1 ->
  x <> 0 /\ key_of m !! x = Some e.1 /\ val_of m !! x = Some e.2 /\
  fst <$> zmap_next x m = Some (end_of L l2).
Proof using H0.
  intros Hm Hlen. pose proof (entries_in strcmp eq _ _ _ _ _ Hm) as He.
  apply Forall2_app_inv in He as [_ He]; [|done]. apply Forall2_cons in He as [Hx _].
  pose proof Hx as (_ & Hx0 & Hk & v & Hv & ->). split; [done|]. split; [done|]. split; [done|].
  destruct (wp_runs _ _ _ (kv_next_spec strcmp eq x e n m _ _ Hm Hx)) as (r & m' & E & -> & _).
  unfold zmap_next. rewrite E. cbn. pose proof (at_nodup strcmp eq _ _ _ _ Hm) as [Hxl _]%nodup_mid.
  by rewrite next_of_at.
Qed.
End entries.

(** ** The loop *)
Section loop.
Context `{AllocatorSound} `{!Doubles} `{DoublesSound0 : !DoublesSound} (st : gmap Z jnode).
Implicit Types (ts : list jtree) (es : list (list Z * jtree)) (t : jtree).

(** Rounds a value takes. *)
Fixpoint tsteps (t : jtree) : nat :=
  match t with
  | JNil => 1
  | JT _ c => 2 + match c with
                  | CObject es => sum_list_with (fun e => S (tsteps (snd e))) es
                  | CArray ts => sum_list_with (fun t => S (tsteps t)) ts
                  | _ => 0
                  end
  end.
Definition wsteps ts : nat := sum_list_with (fun t => S (tsteps t)) ts.
Lemma tsteps_JT p c : tsteps (JT p c) = (2 + wsteps (children c))%nat.
Proof.
  unfold wsteps. destruct c as [| | | | |es|]; try done. cbn [tsteps children]. do 2 f_equal.
  induction es as [|e es IH]; cbn; [done|]. by rewrite IH.
Qed.

(** Strings and keys are bytes. *)
Fixpoint tree_keys (t : jtree) : list (list Z) :=
  match t with
  | JNil => []
  | JT _ c => match c with
              | CObject es => concat (map (fun e => fst e :: tree_keys (snd e)) es)
              | CArray ts => concat (map tree_keys ts)
              | _ => []
              end
  end.
Fixpoint tree_doubles (t : jtree) : list dbl :=
  match t with
  | JNil => []
  | JT _ c => match c with
              | CDouble d => [d]
              | CObject es => concat (map (fun e => tree_doubles (snd e)) es)
              | CArray ts => concat (map tree_doubles ts)
              | _ => []
              end
  end.
Abbreviation keys_ok t := (Forall (Forall byte_ok) (tree_keys t) /\ Forall castable (tree_doubles t)).
Definition ekeys_ok (e : list Z * jtree) : Prop := bytes_ok e.1 /\ keys_ok e.2.

(** What an entry of the three vectors stands for: the text still to write and
    the rounds it takes. *)
Definition rest_text (fresh : bool) (xs : list (list Z)) : list Z := if fresh then commas xs else more_text xs.
Definition is_nil {A} (l : list A) : bool := match l with [] => true | _ => false end.
Inductive pend : work -> list Z -> nat -> Prop :=
  | pend_value q t : jat st q t -> keys_ok t -> pend (jptr t, 0, 0) (tree_text t) (tsteps t)
  | pend_array p q a ts1 ts2 : p <> 0 -> st !! p = Some (mk_jnode (VArray a) q) -> cval (VArray a) (CArray (ts1 ++ ts2)) ->
      Forall (jat st p) ts2 -> Forall (fun t => keys_ok t) ts2 -> ts1 ++ ts2 <> [] ->
      pend (p, zlen ts1 + 1, 0) (rest_text (is_nil ts1) (map tree_text ts2) ++ str "]") (S (wsteps ts2))
  | pend_object p q m l1 l2 es1 es2 : p <> 0 -> st !! p = Some (mk_jnode (VObject m) q) ->
      kv_at strcmp eq ∅ (zlen (es1 ++ es2)) m (l1 ++ l2) (map entry_ptr (es1 ++ es2)) -> length l1 = length es1 ->
      Forall (jat st p) (map snd es2) -> Forall ekeys_ok es2 -> es1 ++ es2 <> [] ->
      pend (p, 1, end_of L l2) (rest_text (is_nil es1) (map pair_text es2) ++ str "}") (S (wsteps (map snd es2))).

(** A round: it writes [out], and [new] is what is left of the entry. *)
Definition todo : Type := work * list Z * nat.
Abbreviation works new := (map (fun x : todo => x.1.1) new).
Abbreviation texts new := (concat (map (fun x : todo => x.1.2) new)).
Abbreviation rounds new := (sum_list_with (fun x : todo => x.2) new).
Abbreviation pending := (Forall (fun x : todo => pend x.1.1 x.1.2 x.2)).
Definition round_ok (w : work) (x : list Z) (n : nat) : Prop :=
  exists out new, pending new /\ out ++ texts new = x /\ (rounds new < n)%nat /\
    forall fuel stack y, appends (serialize_loop fuel st (works new ++ stack)) y ->
      appends (serialize_loop (S fuel) st (w :: stack)) (out ++ y).

(** A round that pushes what the entry becomes. *)
Lemma work_round (f : list work -> zbuf -> option (list work * zbuf)) g new out fuel stack y :
  (forall stack b, f stack b = (b ← g b; Some (new ++ stack, b))) -> appends g out ->
  appends (serialize_loop fuel st (new ++ stack)) y ->
  appends (fun b => r ← f stack b; let (stack, b) := (r : list work * zbuf) in serialize_loop fuel st stack b) (out ++ y).
Proof.
  intros Hf Hg Hy. eapply appends_ext; [|exact (appends_bind _ _ _ _ Hg Hy)].
  intros b. rewrite Hf. by destruct (g b).
Qed.
(** The value on top of the vectors. *)
Lemma top_node p q v idx it stack fuel out y : p <> 0 -> st !! p = Some (mk_jnode v q) ->
  appends (fun b => match v with
      | VNull => b ← zbuf_puts b (str "null"); serialize_loop fuel st stack b
      | VString s => x ← zbuf_bytes s; b ← serialize_string b x; serialize_loop fuel st stack b
      | VBool t => b ← zbuf_puts b (if t =? 0 then str "false" else str "true"); serialize_loop fuel st stack b
      | VLong l => b ← zbuf_printf_1024 b (fmt_zd l); serialize_loop fuel st stack b
      | VDouble d => b ← serialize_double b d; serialize_loop fuel st stack b
      | VArray a => r ← array_work a p idx stack b; let (stack, b) := (r : list work * zbuf) in serialize_loop fuel st stack b
      | VObject m => r ← object_work m p idx it stack b; let (stack, b) := (r : list work * zbuf) in serialize_loop fuel st stack b
      end) (out ++ y) ->
  appends (serialize_loop (S fuel) st ((p, idx, it) :: stack)) (out ++ y).
Proof.
  intros Hp Hv Hy. eapply appends_ext; [|exact Hy]. intros b. cbn [serialize_loop].
  rewrite (proj2 (Z.eqb_neq p 0)) by done. by rewrite Hv.
Qed.

(** Values without elements. *)
Lemma puts_word x : Forall (fun c => 0 < c < 256) x -> zlen x < 20 -> appends (fun b => zbuf_puts b x) x.
Proof.
  intros Hx Hl. apply appends_puts; [| |unfold int_max; lia]; (eapply Forall_impl; [exact Hx|]);
    unfold byte_ok; cbn; lia.
Qed.
Lemma round_done w x n : (0 < n)%nat ->
  (forall fuel stack y, appends (serialize_loop fuel st stack) y -> appends (serialize_loop (S fuel) st (w :: stack)) (x ++ y)) ->
  round_ok w x n.
Proof. intros Hn Hw. exists x, []. cbn. rewrite app_nil_r. by repeat split. Qed.
Lemma round_null idx it n : (0 < n)%nat -> round_ok (0, idx, it) (str "null") n.
Proof.
  intros Hn. apply round_done; [done|]. intros fuel stack y Hy.
  eapply appends_ext; [|apply (appends_bind (fun b => zbuf_puts b (str "null")) (serialize_loop fuel st stack) _ _)].
  - done.
  - apply puts_word; [|done]. repeat constructor; lia.
  - done.
Qed.
Lemma round_leaf p q v c n : p <> 0 -> st !! p = Some (mk_jnode v q) -> cval v c -> (0 < n)%nat ->
  match c with CArray _ | CObject _ => False | CDouble d => castable d | _ => True end ->
  round_ok (p, 0, 0) (tree_text (JT p c)) n.
Proof using DoublesSound0.
  intros Hp Hv Hc Hn Hleaf. apply round_done; [done|]. intros fuel stack y Hy. eapply top_node; [exact Hp|exact Hv|].
  destruct v as [|b|l|d|s|m|a], c as [|b'|l'|d'|x|es|ts]; try done; cbn in Hc; unfold tree_text; cbn [erase json_text].
  - apply (appends_bind (fun b => zbuf_puts b (str "null"))); [|done]. apply puts_word; [|done]. repeat constructor; lia.
  - subst b'. apply (appends_bind (fun b0 => zbuf_puts b0 (if b =? 0 then str "false" else str "true"))); [|done].
    destruct (b =? 0); (apply puts_word; [|done]); repeat constructor; lia.
  - subst l'. apply (appends_bind (fun b => zbuf_printf_1024 b (fmt_zd l))); [|done]. apply appends_long.
  - subst d'. apply (appends_bind (fun b => serialize_double b d)); [|done]. by apply appends_double.
  - rewrite (holds_bytes _ _ _ Hc). cbn [mbind option_bind].
    apply (appends_bind (fun b => serialize_string b x)); [|done]. apply serialize_string_text. apply Hc.
Qed.

(** Arrays: the bracket, the elements one by one, the other bracket. *)
Lemma array_empty p q a idx it n : p <> 0 -> st !! p = Some (mk_jnode (VArray a) q) -> cval (VArray a) (CArray []) ->
  (0 < n)%nat -> round_ok (p, idx, it) (str "[]") n.
Proof.
  intros Hp Hv Hc Hn. apply round_done; [done|]. intros fuel stack y Hy. eapply top_node; [exact Hp|exact Hv|].
  eapply (work_round _ (fun b => zbuf_puts b (str "[]")) []); [|apply puts_word; [|done]|done].
  - intros stk b. unfold array_work. by rewrite (array_len _ _ Hc).
  - repeat constructor; lia.
Qed.
Lemma array_open p q a ts : p <> 0 -> st !! p = Some (mk_jnode (VArray a) q) -> cval (VArray a) (CArray ts) ->
  Forall (jat st p) ts -> Forall (fun t => keys_ok t) ts -> ts <> [] ->
  round_ok (p, 0, 0) (tree_text (JT p (CArray ts))) (tsteps (JT p (CArray ts))).
Proof.
  intros Hp Hv Hc Ht Hk Hne.
  exists [chr "["], [((p, 1, 0), rest_text true (map tree_text ts) ++ str "]", S (wsteps ts))]. split; [|split; [|split]].
  - constructor; [|constructor]. cbn [fst snd]. by apply (pend_array p q a [] ts).
  - cbn [map concat fst snd]. by rewrite app_nil_r, tree_text_array.
  - cbn [sum_list_with snd]. rewrite tsteps_JT. cbn [children]. lia.
  - intros fuel stack y Hy. eapply top_node; [exact Hp|exact Hv|].
    eapply (work_round _ (fun b => zbuf_put b (chr "[")) [(p, 1, 0)]); [|by apply appends_put|exact Hy].
    intros stk b. unfold array_work. rewrite (array_len _ _ Hc). destruct (Z.eqb_spec (zlen ts) 0) as [E|_]; [|done].
    by apply zlen_inv_nil in E.
Qed.
Lemma array_close p q a ts : p <> 0 -> st !! p = Some (mk_jnode (VArray a) q) -> cval (VArray a) (CArray ts) -> ts <> [] ->
  round_ok (p, zlen ts + 1, 0) (str "]") 1.
Proof.
  intros Hp Hv Hc Hne. apply round_done; [lia|]. intros fuel stack y Hy. eapply top_node; [exact Hp|exact Hv|].
  eapply (work_round _ (fun b => zbuf_put b (chr "]")) []); [|by apply appends_put|exact Hy].
  intros stk b. unfold array_work. rewrite (array_len _ _ Hc). zlen_facts. destruct (Z.eqb_spec (zlen ts) 0) as [E|_].
  { by apply zlen_inv_nil in E. }
  destruct (Z.eqb_spec (zlen ts + 1) 0); [lia|]. by rewrite Z.eqb_refl.
Qed.
Lemma rest_text_cons {A} fresh (f : A -> list Z) x l : rest_text fresh (map f (x :: l)) =
  (if fresh then [] else [chr ","]) ++ f x ++ more_text (map f l).
Proof. by destruct fresh. Qed.
Lemma array_next p q a ts1 t ts2 : p <> 0 -> st !! p = Some (mk_jnode (VArray a) q) ->
  cval (VArray a) (CArray (ts1 ++ t :: ts2)) ->
  Forall (jat st p) (t :: ts2) -> Forall (fun t => keys_ok t) (t :: ts2) ->
  round_ok (p, zlen ts1 + 1, 0) (rest_text (is_nil ts1) (map tree_text (t :: ts2)) ++ str "]") (S (wsteps (t :: ts2))).
Proof.
  intros Hp Hv Hc [Ht Hts]%Forall_cons [Hk Hks]%Forall_cons.
  exists (if is_nil ts1 then [] else [chr ","]).
  exists [((jptr t, 0, 0), tree_text t, tsteps t);
          ((p, zlen ts1 + 2, 0), more_text (map tree_text ts2) ++ str "]", S (wsteps ts2))].
  split; [|split; [|split]].
  - constructor; [by apply (pend_value p)|]. constructor; [|constructor]. cbn [fst snd].
    pose proof (pend_array p q a (ts1 ++ [t]) ts2) as Hpa. rewrite <- app_assoc in Hpa.
    replace (is_nil (ts1 ++ [t])) with false in Hpa by (by destruct ts1).
    replace (zlen (ts1 ++ [t]) + 1) with (zlen ts1 + 2) in Hpa by zlia. apply Hpa; try done. by destruct ts1.
  - rewrite rest_text_cons. cbn [map concat fst snd]. by rewrite app_nil_r, <- !app_assoc.
  - unfold wsteps. cbn [sum_list_with snd]. lia.
  - intros fuel stack y Hy. eapply top_node; [exact Hp|exact Hv|].
    eapply (work_round _ (fun b => if is_nil ts1 then Some b else zbuf_put b (chr ",")) [(jptr t, 0, 0); (p, zlen ts1 + 2, 0)]);
      [|destruct (is_nil ts1); [apply appends_ret|by apply appends_put]|exact Hy].
    intros stk b. unfold array_work. rewrite (array_len _ _ Hc). rewrite zlen_app, zlen_cons.
    pose proof (zlen_nonneg ts1). pose proof (zlen_nonneg ts2).
    destruct (Z.eqb_spec (zlen ts1 + (1 + zlen ts2)) 0); [lia|]. destruct (Z.eqb_spec (zlen ts1 + 1) 0); [lia|].
    destruct (Z.eqb_spec (zlen ts1 + 1) (zlen ts1 + (1 + zlen ts2) + 1)); [lia|].
    rewrite Z.add_simpl_r. destruct (Z.ltb_spec (zlen ts1) 0); [lia|].
    destruct (Z.leb_spec (zlen ts1 + (1 + zlen ts2)) (zlen ts1)); [lia|].
    rewrite (vget_rep JN JM a _ (zlen ts1) (jptr t) Hc) by (rewrite rd_ptrs, rd_at; done). cbn [mbind option_bind].
    replace (zlen ts1 + 1 + 1) with (zlen ts1 + 2) by lia.
    destruct (Z.ltb_spec (zlen ts1 + 1) (zlen ts1 + (1 + zlen ts2) + 1)); [|lia]. rewrite andb_true_r.
    destruct ts1 as [|t1 ts1]; [done|]. cbn [is_nil]. rewrite zlen_cons in *. pose proof (zlen_nonneg ts1).
    destruct (Z.ltb_spec 1 (1 + zlen ts1 + 1)); [done|lia].
Qed.

(** Objects: the same, along the nodes of the map. *)
Abbreviation mat m l es := (kv_at strcmp eq ∅ (zlen es) m l (map entry_ptr es)).
Lemma mat_len m l es : mat m l es -> kv_len m = zlen es.
Proof. by intros [_ _ _ _ _ _ ?]. Qed.
Lemma object_empty p q m idx it n : p <> 0 -> st !! p = Some (mk_jnode (VObject m) q) -> cval (VObject m) (CObject []) ->
  (0 < n)%nat -> round_ok (p, idx, it) (str "{}") n.
Proof.
  intros Hp Hv Hc Hn. apply round_done; [done|]. intros fuel stack y Hy. eapply top_node; [exact Hp|exact Hv|].
  eapply (work_round _ (fun b => zbuf_puts b (str "{}")) []); [|apply puts_word; [|done]|done].
  - intros stk b. unfold object_work. by rewrite (object_len _ _ Hc).
  - repeat constructor; lia.
Qed.
Lemma object_open p q m l es : p <> 0 -> st !! p = Some (mk_jnode (VObject m) q) -> mat m l es ->
  Forall (jat st p) (map snd es) -> Forall ekeys_ok es -> es <> [] ->
  round_ok (p, 0, 0) (tree_text (JT p (CObject es))) (tsteps (JT p (CObject es))).
Proof using H0.
  intros Hp Hv Hm Ht Hk Hne.
  exists [chr "{"], [((p, 1, end_of L l), rest_text true (map pair_text es) ++ str "}", S (wsteps (map snd es)))].
  split; [|split; [|split]].
  - constructor; [|constructor]. cbn [fst snd]. by apply (pend_object p q m [] l [] es).
  - cbn [map concat fst snd]. by rewrite app_nil_r, tree_text_object.
  - cbn [sum_list_with snd]. rewrite tsteps_JT. cbn [children]. lia.
  - intros fuel stack y Hy. eapply top_node; [exact Hp|exact Hv|].
    eapply (work_round _ (fun b => zbuf_put b (chr "{")) [(p, 1, end_of L l)]); [|by apply appends_put|exact Hy].
    intros stk b. unfold object_work. rewrite (mat_len _ _ _ Hm). destruct (Z.eqb_spec (zlen es) 0) as [E|_].
    { by apply zlen_inv_nil in E. }
    rewrite !Z.eqb_refl. rewrite (object_first _ _ _ _ Hm). by destruct (zbuf_put b (chr "{")).
Qed.
Lemma object_close p q m l es : p <> 0 -> st !! p = Some (mk_jnode (VObject m) q) -> mat m l es -> es <> [] ->
  round_ok (p, 1, 0) (str "}") 1.
Proof.
  intros Hp Hv Hm Hne. apply round_done; [lia|]. intros fuel stack y Hy. eapply top_node; [exact Hp|exact Hv|].
  eapply (work_round _ (fun b => zbuf_put b (chr "}")) []); [|by apply appends_put|exact Hy].
  intros stk b. unfold object_work. rewrite (mat_len _ _ _ Hm). destruct (Z.eqb_spec (zlen es) 0) as [E|_]; [|done].
  by apply zlen_inv_nil in E.
Qed.
Lemma object_next_round p q m l1 l2 es1 e es2 : p <> 0 -> st !! p = Some (mk_jnode (VObject m) q) ->
  mat m (l1 ++ l2) (es1 ++ e :: es2) -> length l1 = length es1 ->
  Forall (jat st p) (map snd (e :: es2)) -> Forall ekeys_ok (e :: es2) ->
  round_ok (p, 1, end_of L l2) (rest_text (is_nil es1) (map pair_text (e :: es2)) ++ str "}")
    (S (wsteps (map snd (e :: es2)))).
Proof using H0.
  intros Hp Hv Hm Hlen [Ht Hts]%Forall_cons [[Hkb Hk] Hks]%Forall_cons. pose proof (mat_len _ _ _ Hm) as Hml. rewrite map_app in Hm. cbn [map] in Hm.
  assert (Hl2 : exists x l2', l2 = x :: l2').
  { destruct l2 as [|x l2']; [|by exists x, l2']. apply at_entries, Forall2_length in Hm.
    rewrite !length_app in Hm. cbn in Hm. rewrite length_map in Hm. lia. }
  destruct Hl2 as (x & l2' & ->). change (end_of L (x :: l2')) with x.
  assert (Hlen' : length l1 = length (map entry_ptr es1)) by (by rewrite length_map).
  destruct (object_entry _ m l1 x l2' (map entry_ptr es1) (entry_ptr e) (map entry_ptr es2) Hm Hlen') as (Hx & Hkey & Hval & Hnext).
  exists ((if is_nil es1 then [] else [chr ","]) ++ quoted e.1 ++ [chr ":"]).
  exists [((jptr e.2, 0, 0), tree_text e.2, tsteps e.2);
          ((p, 1, end_of L l2'), more_text (map pair_text es2) ++ str "}", S (wsteps (map snd es2)))].
  split; [|split; [|split]].
  - constructor; [by apply (pend_value p)|]. constructor; [|constructor]. cbn [fst snd].
    pose proof (pend_object p q m (l1 ++ [x]) l2' (es1 ++ [e]) es2) as Hpo.
    replace (is_nil (es1 ++ [e])) with false in Hpo by (by destruct es1).
    rewrite <- !app_assoc in Hpo. cbn [app] in Hpo. apply Hpo; try done.
    + rewrite map_app. done.
    + rewrite !length_app, Hlen. done.
    + by destruct es1.
  - rewrite rest_text_cons. cbn [map concat fst snd]. unfold pair_text at 2, entry_text.
    by rewrite app_nil_r, <- !app_assoc.
  - unfold wsteps. cbn [map sum_list_with snd]. lia.
  - intros fuel stack y Hy. eapply top_node; [exact Hp|exact Hv|].
    eapply (work_round _ (fun b => b ← (if is_nil es1 then Some b else zbuf_put b (chr ","));
      b ← serialize_string b e.1; zbuf_put b (chr ":")) [(jptr e.2, 0, 0); (p, 1, end_of L l2')]); [| |exact Hy].
    + intros stk b. unfold object_work. rewrite Hml.
      destruct (Z.eqb_spec (zlen (es1 ++ e :: es2)) 0) as [E|_]; [by apply zlen_inv_nil in E; destruct es1|].
      rewrite (proj2 (Z.eqb_neq x 0)) by done. rewrite (object_first _ _ _ _ Hm). cbn [mbind option_bind].
      assert (Ec : negb (x =? end_of L (l1 ++ x :: l2')) = negb (is_nil es1)).
      { pose proof (at_nodup strcmp eq _ _ _ _ Hm) as [Hxl _]%nodup_mid.
        destruct l1 as [|z l1], es1 as [|e1 es1]; try done; cbn; [by rewrite Z.eqb_refl|].
        rewrite (proj2 (Z.eqb_neq x z)); [done|]. intros ->. apply Hxl. by left. }
      rewrite Ec, Hnext, Hkey, Hval. destruct (is_nil es1); cbn [negb].
      * cbn [mbind option_bind entry_ptr fst snd]. destruct (serialize_string b e.1) as [b1|]; [|done]. cbn.
        by destruct (zbuf_put b1 58).
      * destruct (zbuf_put b (chr ",")) as [b0|]; [|done]. cbn [mbind option_bind entry_ptr fst snd].
        destruct (serialize_string b0 e.1) as [b1|]; [|done]. cbn. by destruct (zbuf_put b1 58).
    + apply (appends_bind (fun b => if is_nil es1 then Some b else zbuf_put b (chr ","))).
      * destruct (is_nil es1); [apply appends_ret|by apply appends_put].
      * apply (appends_bind (fun b => serialize_string b e.1)); [by apply serialize_string_text|by apply appends_put].
Qed.

Lemma keys_array p ts : keys_ok (JT p (CArray ts)) -> Forall (fun t => keys_ok t) ts.
Proof.
  cbn. induction ts as [|t ts IH]; cbn; [constructor|]. intros [[? ?]%Forall_app [? ?]%Forall_app]. constructor; auto.
Qed.
Lemma keys_object p es : keys_ok (JT p (CObject es)) -> Forall ekeys_ok es.
Proof.
  cbn. induction es as [|e es IH]; cbn; [constructor|].
  intros [[? [? ?]%Forall_app]%Forall_cons [? ?]%Forall_app]. constructor; [by split|auto].
Qed.
Lemma value_round_ok q t : jat st q t -> keys_ok t -> round_ok (jptr t, 0, 0) (tree_text t) (tsteps t).
Proof using H0 DoublesSound0.
  intros Ht Hk. destruct t as [|p c]; [apply round_null; cbn; lia|].
  pose proof Ht as [(Hp & v & Hv & Hc) Hch]%jat_JT. pose proof (tsteps_JT p c) as Hs.
  destruct c as [| | |d| |es|ts]; try (by eapply round_leaf; [exact Hp|exact Hv|exact Hc|lia|]).
  - eapply round_leaf; [exact Hp|exact Hv|exact Hc|lia|]. by apply proj2, Forall_inv in Hk.
  - destruct v as [| | | | |m|]; try done. destruct es as [|e es]; [by eapply object_empty; [exact Hp|exact Hv|exact Hc|lia]|].
    pose proof Hc as [[l Hl] _]. eapply (object_open p q m l); [exact Hp|exact Hv| |exact Hch|by apply keys_object in Hk|done].
    unfold zlen in *. by rewrite length_map in Hl.
  - destruct v as [| | | | | |a]; try done. destruct ts as [|t ts]; [by eapply array_empty; [exact Hp|exact Hv|exact Hc|lia]|].
    eapply array_open; [exact Hp|exact Hv|exact Hc|exact Hch|by apply keys_array in Hk|done].
Qed.
Lemma pend_round_ok w x n : pend w x n -> round_ok w x n.
Proof using H0 DoublesSound0.
  intros [q t Ht Hk|p q a ts1 ts2 Hp Hv Hc Ht Hk Hne|p q m l1 l2 es1 es2 Hp Hv Hm Hlen Ht Hk Hne].
  - by eapply value_round_ok.
  - destruct ts2 as [|t ts2]; [|by eapply array_next]. rewrite app_nil_r in *.
    destruct ts1 as [|t1 ts1]; [done|]. by eapply array_close.
  - destruct es2 as [|e es2]; [|by eapply object_next_round]. rewrite (app_nil_r es1) in *.
    assert (l2 = []) as ->.
    { apply at_entries, Forall2_length in Hm. rewrite length_app, length_map in Hm. destruct l2; [done|cbn in Hm; lia]. }
    destruct es1 as [|e1 es1]; [done|]. rewrite app_nil_r in Hm. by eapply object_close.
Qed.
Lemma serialize_loop_text : forall fuel new, pending new -> (rounds new <= fuel)%nat ->
  appends (serialize_loop fuel st (works new)) (texts new).
Proof using H0 DoublesSound0.
  induction fuel as [|fuel IH]; intros [|[[w x] n] new] Hp Hf; try (apply appends_ret);
    apply Forall_cons in Hp as [Hw Hp]; cbn in Hf; destruct (pend_round_ok w x n Hw) as (out & new' & Hp' & <- & Hn & Hgo);
    [lia|].
  cbn [map concat fst snd]. rewrite <- app_assoc. apply Hgo. rewrite <- map_app, <- concat_app, <- map_app.
  apply IH; [by apply Forall_app|]. rewrite sum_list_with_app. lia.
Qed.

(** The rounds are within what the model allows. *)
Definition node_rounds (n : jnode) : nat := (2 + 2 * jval_children (jn_val n))%nat.
Definition rounds_at (s : gmap Z jnode) (y : Z) : nat := match s !! y with Some n => node_rounds n | None => 0 end.
Lemma serialize_fuel_delete (s : gmap Z jnode) y n : s !! y = Some n ->
  serialize_fuel s = (node_rounds n + serialize_fuel (delete y s))%nat.
Proof.
  intros Hy. unfold serialize_fuel. rewrite <- (insert_delete_id s y n Hy) at 1.
  rewrite map_fold_insert_L; [done| |apply lookup_delete_eq]. intros. unfold node_rounds. lia.
Qed.
Lemma serialize_fuel_sum l : forall s, NoDup l -> (2 + sum_list_with (rounds_at s) l <= serialize_fuel s)%nat.
Proof.
  induction l as [|y l IH]; intros s Hn.
  - cbn. induction s as [|y n m Hy IHm] using map_ind; [done|]. rewrite (serialize_fuel_delete _ y n) by apply lookup_insert_eq.
    rewrite delete_insert_id by done. lia.
  - apply NoDup_cons in Hn as [Hy Hn]. cbn. unfold rounds_at at 1. destruct (s !! y) as [n|] eqn:E; [|by apply IH].
    rewrite (serialize_fuel_delete _ y n E). specialize (IH (delete y s) Hn).
    enough (sum_list_with (rounds_at (delete y s)) l = sum_list_with (rounds_at s) l) by lia.
    clear -Hy. induction l as [|z l IH]; cbn; [done|]. apply not_elem_of_cons in Hy as [Hyz Hy].
    rewrite (IH Hy). f_equal. unfold rounds_at. by rewrite lookup_delete_ne.
Qed.
Lemma tsteps_bound t : forall q, jat st q t -> (tsteps t <= 1 + sum_list_with (rounds_at st) (addrs t))%nat.
Proof.
  induction t as [|p c IH] using jtree_nested_ind; intros q Ht; [cbn; lia|].
  apply jat_JT in Ht as [(_ & v & Hv & Hc) Hch]. rewrite tsteps_JT, addrs_JT. cbn [sum_list_with].
  unfold rounds_at at 1. rewrite Hv. unfold node_rounds. cbn [jn_val].
  pose proof (cval_children v c Hc) as Hz. unfold zlen in Hz.
  assert (wsteps (children c) <= 2 * length (children c) + sum_list_with (rounds_at st) (concat (map addrs (children c))))%nat; [|lia].
  clear -IH Hch. induction (children c) as [|t ts IHts]; cbn; [lia|]. apply Forall_cons in IH as [Ht IH].
  apply Forall_cons in Hch as [Htp Hch]. specialize (IHts IH Hch). specialize (Ht p Htp).
  unfold wsteps in *. cbn. rewrite sum_list_with_app. lia.
Qed.
End loop.

Lemma serialize_text_appends `{AllocatorSound} `{!Doubles} `{!DoublesSound} R q t st : jrep R q t st ->
  Forall (Forall byte_ok) (tree_keys t) /\ Forall castable (tree_doubles t) ->
  appends (zjson_serialize st (jptr t)) (tree_text t).
Proof.
  intros Hr Hk. unfold zjson_serialize.
  pose proof (serialize_loop_text st (serialize_fuel st) [((jptr t, 0, 0), tree_text t, tsteps t)]) as Hgo.
  cbn [map concat fst snd] in Hgo. rewrite app_nil_r in Hgo. apply Hgo.
  - constructor; [|constructor]. eapply pend_value; [apply Hr|done].
  - cbn. pose proof (tsteps_bound st t q (jr_at _ _ _ _ Hr)).
    pose proof (serialize_fuel_sum (addrs t) st (jr_nodup _ _ _ _ Hr)). lia.
Qed.

(** C4: [zjson_serialize] appends to the buffer exactly the text of the value:
    null, true or false, the decimal digits of an integer, the two forms of a
    double (where its cast to [ssize_t] is defined; elsewhere the C is undefined),
    strings and keys between quotes with their escapes, arrays and
    objects with their elements between commas, keys ascending, nested to any
    depth. A static buffer gets what fits, a growing one all of it; the loop ends,
    within the number of rounds the model gives it. *)
Theorem zjson_serialize_text `{AllocatorSound} `{!Doubles} `{!DoublesSound} R q t st : jrep R q t st ->
  Forall (Forall byte_ok) (tree_keys t) -> Forall castable (tree_doubles t) ->
  appends (zjson_serialize st (jptr t)) (tree_text t).
Proof. intros Hr Hk Hd. eapply serialize_text_appends; [exact Hr|by split]. Qed.

(** ** Witness *)
Section demo.
#[local] Existing Instance whole_doubles.
#[export] Instance whole_doubles_sound : DoublesSound.
Proof.
  assert (Hb : forall d, bytes_ok (fmt_zd d ++ str ".000000")).
  { intros d. apply Forall_app. split; [|by repeat constructor]. unfold fmt_zd.
    destruct (Z.ltb_spec d 0); [constructor; [by unfold byte_ok|]|]; apply decimal_digits_bytes; lia. }
  by split.
Qed.
Lemma zjson_serialize_text_witness : appends (zjson_serialize demo_store 4) (str "[7]").
Proof. apply (zjson_serialize_text demo_rest 0 demo_tree demo_store demo_jrep); constructor. Defined.
End demo.
