(* ===== verification/JsonText.v ===== *)
(** * JSON text: the reader of serialize.c as a function on texts

    [json_read] is [zjson_unserialize] without the store: a stack of the arrays
    and objects that are open around the value being read. *)
From stdpp Require Import gmap sorting.
From S2P Require Import Prelude Chars Buf Text Xml KeyedSpec Maps Json JsonSpec JsonOps JsonWrite.

(** ** Pieces of text *)

(** The bytes [___fetch_string] stores, and what is left. *)
Fixpoint read_string (begin : Z) (ps : list Z) : list Z * list Z :=
  match ps with
  | [] => ([], [])
  | ch :: ps1 =>
      let put x r := (x ++ fst r, snd r) in
      if (ch =? 34) || (ch =? chr "'") then
        if begin =? ch then ([], ps1) else put [ch] (read_string begin ps1)
      else match ps1 with
      | [] => ([], [])
      | ch2 :: ps2 =>
          if ch =? chr "\" then
            if ch2 =? chr "u" then
              match ps2 with
              | h1 :: h2 :: h3 :: h4 :: ps3 => put (zncr_decode (hex4 h1 h2 h3 h4)) (read_string begin ps3)
              | _ => ([], ps2)
              end
            else if negb (escape_char ch2 =? 0) then put [escape_char ch2] (read_string begin ps2)
            else put [chr "\"; ch2] (read_string begin ps2)
          else put [ch] (read_string begin ps1)
      end
  end.
Fixpoint read_bare (ps : list Z) : list Z * list Z :=
  match ps with
  | ch :: ps' => if json_blank ch || (ch =? chr ":") then ([], ps)
                 else let r := read_bare ps' in (ch :: fst r, snd r)
  | [] => ([], [])
  end.
Fixpoint read_number (ps : list Z) (is_double : bool) : list Z * list Z * bool :=
  match ps with
  | ch :: ps' =>
      if number_char ch then
        let r := read_number ps' (is_double || (ch =? chr ".") || (ch =? chr "e") || (ch =? chr "E")) in
        (ch :: r.1.1, r.1.2, r.2)
      else ([], ps, is_double)
  | [] => ([], [], is_double)
  end.
(** The letters in lower case, [len] before them; [None] past ten. *)
Fixpoint read_word (len : Z) (ps : list Z) : option (list Z * list Z) :=
  match ps with
  | ch :: ps' =>
      if isalpha ch then
        if 10 <? len + 1 then None else r ← read_word (len + 1) ps'; Some (ztolower ch :: fst r, snd r)
      else Some ([], ps)
  | [] => Some ([], [])
  end.
Fixpoint before_nul (x : list Z) : list Z :=
  match x with c :: x' => if c =? 0 then [] else c :: before_nul x' | [] => [] end.

(** ** What is left of a text is its end *)
Lemma suffix_cons_of {A} (l : list A) c k : l `suffix_of` k -> l `suffix_of` c :: k.
Proof. apply suffix_cons_r. Qed.
#[local] Hint Resolve suffix_cons_of suffix_nil : core.

Lemma zncr_decode_short n : bytes_ok (zncr_decode n) /\ (length (zncr_decode n) <= 4)%nat.
Proof. unfold zncr_decode. repeat case_match; (split; [repeat (constructor; [apply u8_byte|]); constructor|cbn; lia]). Qed.
Lemma escape_char_byte c : byte_ok (escape_char c).
Proof. unfold escape_char, byte_ok. repeat case_match; lia. Qed.

(** A reader returns the end of the text and stores no more bytes than it reads. *)
Definition reads (ps : list Z) (r : list Z * list Z) : Prop :=
  r.2 `suffix_of` ps /\ (length r.1 + length r.2 <= length ps)%nat /\ bytes_ok r.1.
Lemma reads_put x y ps r : reads ps r -> bytes_ok x -> (length x <= length y)%nat -> reads (y ++ ps) (x ++ r.1, r.2).
Proof.
  intros (Hs & Hl & Hb) Hx Hxl. split; [|split]; cbn [fst snd].
  - by apply suffix_app_r.
  - rewrite !length_app. lia.
  - by apply Forall_app.
Qed.
Lemma reads_stop y ps : reads (y ++ ps) ([], ps).
Proof. split; [by exists y|]. split; [cbn; rewrite length_app; lia|constructor]. Qed.
Lemma read_string_reads begin ps : bytes_ok ps -> reads ps (read_string begin ps).
Proof.
  assert (Hi : forall n ps, (length ps <= n)%nat -> bytes_ok ps -> reads ps (read_string begin ps)); [|by eapply Hi].
  induction n as [|n IH]; intros [|ch ps1] Hn Hb; cbn in Hn |- *; try apply (reads_stop []); [lia|].
  apply Forall_cons in Hb as [Hch Hb]. destruct ((ch =? 34) || (ch =? 39)).
  { destruct (begin =? ch); [apply (reads_stop [ch])|]. apply (reads_put [ch] [ch]); [apply IH; [lia|done]|by constructor|done]. }
  destruct ps1 as [|ch2 ps2]; [apply (reads_stop [ch])|]. cbn in Hn. destruct (ch =? 92).
  - apply Forall_cons in Hb as [Hch2 Hb]. destruct (ch2 =? 117).
    + destruct ps2 as [|h1 [|h2 [|h3 [|h4 ps3]]]]; cbn in Hn; try apply (reads_stop [ch; ch2]).
      destruct (zncr_decode_short (hex4 h1 h2 h3 h4)) as [Hd Hdl].
      do 4 apply Forall_cons in Hb as [_ Hb].
      apply (reads_put _ [ch; ch2; h1; h2; h3; h4]); [apply IH; [lia|done]|done|].
      etrans; [exact Hdl|]. by repeat constructor.
    + pose proof (escape_char_byte ch2). destruct (negb (escape_char ch2 =? 0)).
      * apply (reads_put [escape_char ch2] [ch; ch2]); [apply IH; [lia|done]|by constructor|cbn; lia].
      * apply (reads_put [chr "\"; ch2] [ch; ch2]); [apply IH; [lia|done]|constructor; [by unfold byte_ok|by constructor]|done].
  - apply (reads_put [ch] [ch]); [apply IH; [cbn; lia|done]|by constructor|done].
Qed.
Lemma read_bare_reads ps : bytes_ok ps -> reads ps (read_bare ps).
Proof.
  induction 1 as [|ch ps Hc Hb IH]; cbn; [apply (reads_stop [])|].
  destruct (json_blank ch || (ch =? 58)); [apply (reads_stop [])|]. by apply (reads_put [ch] [ch]); [|by constructor|].
Qed.
Lemma read_number_reads ps : bytes_ok ps -> forall d, reads ps (read_number ps d).1.
Proof.
  induction 1 as [|ch ps Hc Hb IH]; intros d; cbn; [apply (reads_stop [])|].
  destruct (number_char ch); [|apply (reads_stop [])]. apply (reads_put [ch] [ch]); [apply IH|by constructor|done].
Qed.
Lemma read_word_reads ps : bytes_ok ps -> forall len r, read_word len ps = Some r -> reads ps r.
Proof.
  induction 1 as [|ch ps Hc Hb IH]; intros len r; cbn; [intros [= <-]; apply (reads_stop [])|].
  destruct (isalpha ch); [|intros [= <-]; apply (reads_stop [])]. destruct (10 <? len + 1); [done|].
  destruct (read_word (len + 1) ps) as [r'|] eqn:E; [|done]. intros [= <-].
  apply (reads_put [ztolower ch] [ch]); [by eapply IH| |done]. constructor; [|constructor]. by apply ztolower_byte.
Qed.
Lemma ignore_blank_suffix ps : ignore_blank ps `suffix_of` ps.
Proof. induction ps as [|c ps IH]; cbn; [done|]. destruct (json_blank c); auto. Qed.
Lemma skip_commas_suffix ps : forall k ps' n, skip_commas k ps = Some (ps', n) ->
  ps' `suffix_of` ps /\ ps' <> [] /\ k <= n /\ zlen ps' + (n - k) <= zlen ps.
Proof.
  induction ps as [|c ps IH]; intros k ps' n; cbn; [done|]. rewrite zlen_cons.
  destruct (json_blank c); [|destruct (c =? 44)].
  - intros (Hs & Hne & Hk & Hl)%IH. repeat split; auto; lia.
  - intros (Hs & Hne & Hk & Hl)%IH. repeat split; auto; lia.
  - intros [= <- <-]. rewrite zlen_cons. repeat split; try done; lia.
Qed.

(** ** The functions of serialize.c on a buffer *)
Lemma writes_app {A} f (g : zbuf -> option (zbuf * A)) x y a c : appends f x -> writes g y a -> c = x ++ y ->
  writes (fun b => b' ← f b; g b') c a.
Proof. intros Hf Hg ->. by apply (appends_writes f g). Qed.
Lemma fetch_string_writes begin ps : bytes_ok ps ->
  writes (fetch_string_loop begin ps) (read_string begin ps).1 (read_string begin ps).2.
Proof.
  assert (Hi : forall n ps, (length ps <= n)%nat -> bytes_ok ps ->
    writes (fetch_string_loop begin ps) (read_string begin ps).1 (read_string begin ps).2); [|by eapply Hi].
  induction n as [|n IH]; intros [|ch ps1] Hn Hb; cbn in Hn |- *; try apply writes_ret; [lia|].
  apply Forall_cons in Hb as [Hch Hb]. destruct ((ch =? 34) || (ch =? 39)).
  { destruct (begin =? ch); [apply writes_ret|]. apply writes_put_then; [done|]. apply IH; [lia|done]. }
  destruct ps1 as [|ch2 ps2]; [apply writes_ret|]. cbn in Hn. destruct (ch =? 92).
  - apply Forall_cons in Hb as [Hch2 Hb]. destruct (ch2 =? 117).
    + destruct ps2 as [|h1 [|h2 [|h3 [|h4 ps3]]]]; cbn in Hn; try apply writes_ret.
      destruct (zncr_decode_short (hex4 h1 h2 h3 h4)) as [Hd Hdl].
      do 4 apply Forall_cons in Hb as [_ Hb].
      assert (Hmax : zlen (zncr_decode (hex4 h1 h2 h3 h4)) < int_max) by (unfold zlen, int_max; lia).
      eapply writes_app; [exact (appends_bytes _ Hd Hmax)|apply IH; [lia|done]|done].
    + pose proof (escape_char_byte ch2). destruct (negb (escape_char ch2 =? 0)).
      * apply writes_put_then; [done|]. apply IH; [lia|done].
      * apply writes_put_then; [done|]. apply writes_put_then; [done|]. apply IH; [lia|done].
  - apply writes_put_then; [done|]. apply IH; [cbn; lia|done].
Qed.
Lemma fetch_string2_writes ps : bytes_ok ps -> writes (fetch_string2 ps) (read_bare ps).1 (read_bare ps).2.
Proof.
  induction 1 as [|ch ps Hc Hb IH]; cbn; [apply writes_ret|].
  destruct (json_blank ch || (ch =? 58)); [apply writes_ret|]. by apply writes_put_then.
Qed.
Lemma put_growing b l c k : holds None l b -> byte_ok c -> zlen l + 1 + k + 1 < 2 ^ 29 -> 0 <= k ->
  runs (zbuf_put b c) (holds None (l ++ [c])).
Proof. intros [Hr _] Hc Hl Hk. apply (zbuf_put_holds None b l c Hr); [cbn; lia|done]. Qed.
Lemma fetch_number_runs ps : bytes_ok ps -> forall d b l, holds None l b -> zlen l + zlen ps + 1 < 2 ^ 29 ->
  runs (fetch_number ps d b) (fun r => holds None (l ++ (read_number ps d).1.1) r.1.1 /\
    r.1.2 = (read_number ps d).1.2 /\ r.2 = (read_number ps d).2).
Proof.
  induction 1 as [|ch ps Hc Hb IH]; intros d b l Hl Hmax; cbn [fetch_number read_number].
  { apply runs_ret. cbn. by rewrite app_nil_r. }
  rewrite zlen_cons in Hmax. pose proof (zlen_nonneg ps).
  destruct (number_char ch); [|apply runs_ret; cbn; by rewrite app_nil_r].
  eapply runs_bind; [apply (put_growing b l ch (zlen ps)); try done; lia|]. intros b' Hb'.
  eapply runs_mono; [apply (IH _ b' (l ++ [ch]) Hb'); zlia|]. intros r (Hr & ? & ?). cbn. by rewrite <- app_assoc in Hr.
Qed.
Lemma fetch_word_runs ps : bytes_ok ps -> forall b l, holds None l b -> zlen l + zlen ps + 1 < 2 ^ 29 ->
  runs (fetch_word ps b) (fun r => match read_word (zlen l) ps with
    | None => r.2 = None | Some (x, ps') => holds None (l ++ x) r.1 /\ r.2 = Some ps' end).
Proof.
  induction 1 as [|ch ps Hc Hb IH]; intros b l Hl Hmax; cbn [fetch_word read_word].
  { apply runs_ret. cbn. by rewrite app_nil_r. }
  rewrite zlen_cons in Hmax. pose proof (zlen_nonneg ps).
  destruct (isalpha ch); [|apply runs_ret; cbn; by rewrite app_nil_r].
  eapply runs_bind; [apply (put_growing b l (ztolower ch) (zlen ps)); [done|by apply ztolower_byte|lia|lia]|]. intros b' Hb'.
  rewrite (rep_len _ _ _ (proj1 Hb')), zlen_app, zlen_cons, zlen_nil, Z.add_0_r.
  destruct (10 <? zlen l + 1); [by apply runs_ret|].
  eapply runs_mono; [apply (IH b' (l ++ [ztolower ch]) Hb'); zlia|]. intros r Hr. rewrite zlen_app, zlen_cons, zlen_nil, Z.add_0_r in Hr.
  destruct (read_word (zlen l + 1) ps) as [[x ps']|]; cbn; [|done]. by rewrite <- app_assoc in Hr.
Qed.
Lemma cstr_before_nul x : cstr (x ++ [0]) = Some (before_nul x).
Proof. induction x as [|c x IH]; cbn; [done|]. destruct (c =? 0); [done|]. by rewrite IH. Qed.
Lemma zbuf_cstr_holds b x : holds None x b -> zbuf_cstr b = Some (before_nul x).
Proof. intros Hb. unfold zbuf_cstr. rewrite (holds_bytes _ _ _ Hb). apply cstr_before_nul. Qed.

Lemma number_char_pos c : number_char c = true -> 0 < c.
Proof. unfold number_char, isdigit, in_range. intros Hc. lia. Qed.
Lemma read_number_chars ps : forall d, Forall (fun c => number_char c = true) (read_number ps d).1.1.
Proof.
  induction ps as [|c ps IH]; intros d; cbn; [constructor|]. destruct (number_char c) eqn:E; [|constructor].
  cbn. constructor; [done|apply IH].
Qed.
Lemma before_nul_id x : Forall (fun c => c <> 0) x -> before_nul x = x.
Proof. induction 1 as [|c x Hc _ IH]; cbn; [done|]. rewrite (proj2 (Z.eqb_neq c 0)) by done. by rewrite IH. Qed.
Lemma read_number_no_nul ps d : before_nul (read_number ps d).1.1 = (read_number ps d).1.1.
Proof.
  apply before_nul_id. eapply Forall_impl; [apply read_number_chars|]. intros c Hc%number_char_pos. lia.
Qed.

(** ** The reader *)
Section read.
Context `{!Doubles}.

(** An array or an object that is open, the value read inside it left out. *)
Inductive jframe := InArray (vs : list json) | InObject (es : list (list Z * json)) (k : list Z).
Definition jfill (f : jframe) (v : json) : json :=
  match f with
  | InArray vs => JsArray (vs ++ [v])
  | InObject es k => JsObject (al_insert strcmp k v es)
  end.
(** The value being read with what is open around it, or the whole value. *)
Inductive rstate := Open (fs : list jframe) (v : json) | Closed (v : json).
Definition close (fs : list jframe) (v : json) : rstate :=
  match fs with [] => Closed v | f :: fs' => Open fs' (jfill f v) end.
Definition whole (s : rstate) : json :=
  match s with Open fs v => fold_left (fun v f => jfill f v) fs v | Closed v => v end.

Definition read_object (fs : list jframe) (es : list (list Z * json)) (ps : list Z) : option (rstate * list Z) :=
  match skip_commas 0 ps with
  | Some ((c :: ps1) as ps, n) =>
      if c =? chr "}" then Some (close fs (JsObject es), ps1) else
      if (0 <? zlen es) && (n =? 0) then None else
      let r := if (c =? 34) || (c =? chr "'") then read_string c ps1 else read_bare ps in
      let key := before_nul (fst r) in
      match al_find strcmp key es with
      | Some _ => None
      | None => match ignore_blank (snd r) with
                | c :: ps => if c =? chr ":" then Some (Open (InObject es key :: fs) JsNull, ps) else None
                | [] => None
                end
      end
  | _ => None
  end.
Definition read_array (fs : list jframe) (vs : list json) (ps : list Z) : option (rstate * list Z) :=
  match skip_commas 0 ps with
  | Some ((c :: ps1) as ps, n) =>
      if c =? chr "]" then Some (close fs (JsArray (vs ++ replicate (Z.to_nat n) JsNull)), ps1) else
      let vs := vs ++ replicate (Z.to_nat (n - 1)) JsNull in
      if (0 <? zlen vs) && (n <? 1) then None else Some (Open (InArray vs :: fs) JsNull, ps)
  | _ => None
  end.
Definition read_value (fs : list jframe) (ps : list Z) : option (rstate * list Z) :=
  match ps with
  | [] => None
  | c :: ps1 =>
      if c =? chr "{" then Some (Open fs (JsObject []), ps1)
      else if c =? chr "[" then Some (Open fs (JsArray []), ps1)
      else if (c =? 34) || (c =? chr "'") then
        let r := read_string c ps1 in Some (close fs (JsString (fst r)), snd r)
      else if (c =? chr "-") || isdigit c then
        let '(x, ps, is_double) := read_number ps false in
        Some (close fs (if is_double : bool then JsDouble (atof x) else JsLong (strtol10 x)), ps)
      else
        r ← read_word 0 ps;
        let x := before_nul (fst r) in
        if (strcmp x (str "null") =? 0) || (strcmp x (str "undefined") =? 0) then Some (close fs JsNull, snd r)
        else if strcmp x (str "true") =? 0 then Some (close fs (JsBool 1), snd r)
        else if strcmp x (str "false") =? 0 then Some (close fs (JsBool 0), snd r)
        else None
  end.
Definition read_round (fs : list jframe) (v : json) (ps : list Z) : option (rstate * list Z) :=
  match v with
  | JsObject es => read_object fs es ps
  | JsArray vs => read_array fs vs ps
  | _ => read_value fs ps
  end.
Fixpoint read_loop (fuel : nat) (s : rstate) (ps : list Z) : option json :=
  match fuel with
  | O => None
  | S fuel' =>
      match ignore_blank ps, s with
      | [], _ => Some (whole s)
      | _, Closed v => Some v
      | ps, Open fs v =>
          match read_round fs v ps with
          | Some (s', ps') => read_loop fuel' s' ps'
          | None => None
          end
      end
  end.
Definition json_read (text : list Z) : option json := read_loop (2 * length text + 2) (Open [] JsNull) text.
End read.

(** ** Every round reads something, or opens a value that will *)
Section progress.
Context `{!Doubles}.
Definition container (v : json) : bool := match v with JsObject _ | JsArray _ => true | _ => false end.
Definition measure (s : rstate) (ps : list Z) : nat :=
  match s with
  | Open _ v => 2 * length ps + (if container v then 2 else 1)
  | Closed _ => 1
  end.
Lemma close_measure fs v ps : (measure (close fs v) ps <= 2 * length ps + 2)%nat.
Proof. destruct fs as [|f fs]; cbn; [lia|]. by destruct f; cbn; lia. Qed.
(** What a round of the reader owes to the loop. *)
Definition shrinks (n : nat) (ps : list Z) (o : option (rstate * list Z)) : Prop :=
  forall s' ps', o = Some (s', ps') -> ps' `suffix_of` ps /\ (measure s' ps' < n)%nat.
Lemma shrinks_close n ps fs v ps' : ps' `suffix_of` ps -> (2 * length ps' + 2 < n)%nat ->
  shrinks n ps (Some (close fs v, ps')).
Proof. intros Hs Hn s' ? [= <- <-]. split; [done|]. pose proof (close_measure fs v ps'). lia. Qed.
Lemma shrinks_none n ps : shrinks n ps None.
Proof. by intros s' ps'. Qed.

Lemma read_value_shrinks fs ps : bytes_ok ps -> shrinks (2 * length ps + 1) ps (read_value fs ps).
Proof.
  intros Hb. destruct ps as [|c ps1]; [apply shrinks_none|]. unfold read_value. apply Forall_cons in Hb as Hb1.
  destruct Hb1 as [_ Hb1].
  destruct (c =? chr "{"); [intros s' ps' [= <- <-]; split; [auto|cbn; lia]|].
  destruct (c =? chr "["); [intros s' ps' [= <- <-]; split; [auto|cbn; lia]|].
  destruct ((c =? 34) || (c =? chr "'")).
  { destruct (read_string_reads c ps1 Hb1) as (Hs & Hl & _). apply shrinks_close; [auto|cbn; lia]. }
  destruct ((c =? chr "-") || isdigit c) eqn:Enum.
  { assert (Hnc : number_char c = true) by (unfold number_char; destruct (c =? 45), (isdigit c); rewrite ?orb_true_r; done).
    cbn [read_number]. rewrite Hnc. cbn [orb].
    destruct (read_number_reads ps1 Hb1 ((c =? chr ".") || (c =? chr "e") || (c =? chr "E"))) as (Hs & Hl & _).
    apply shrinks_close; cbn; [auto|lia]. }
  cbn [read_word]. destruct (isalpha c); [|apply shrinks_none].
  destruct (10 <? 0 + 1); [apply shrinks_none|]. destruct (read_word (0 + 1) ps1) as [r|] eqn:Er; [|apply shrinks_none].
  destruct (read_word_reads ps1 Hb1 _ _ Er) as (Hs & Hl & _). cbn [mbind option_bind fst snd].
  repeat case_match; try apply shrinks_none; (apply shrinks_close; [auto|cbn; lia]).
Qed.
Lemma read_object_shrinks fs es ps : bytes_ok ps -> shrinks (2 * length ps + 2) ps (read_object fs es ps).
Proof.
  intros Hb. unfold read_object. destruct (skip_commas 0 ps) as [[[|c ps1] n]|] eqn:Es; try apply shrinks_none.
  destruct (skip_commas_suffix _ _ _ _ Es) as (Hs & _ & _ & _). pose proof (suffix_length _ _ Hs) as Hl. cbn in Hl.
  assert (Hb1 : bytes_ok (c :: ps1)) by (destruct Hs as [pre ->]; by apply Forall_app in Hb as [_ ?]).
  assert (Hs1 : ps1 `suffix_of` ps) by (etrans; [|exact Hs]; auto).
  destruct (c =? chr "}"); [apply shrinks_close; [done|lia]|].
  destruct ((0 <? zlen es) && (n =? 0)); [apply shrinks_none|].
  set (r := if (c =? 34) || (c =? chr "'") then read_string c ps1 else read_bare (c :: ps1)).
  assert (Hr : r.2 `suffix_of` c :: ps1).
  { unfold r. destruct ((c =? 34) || (c =? chr "'")); [|by apply read_bare_reads].
    apply Forall_cons in Hb1 as [_ Hb1]. apply suffix_cons_of. by apply read_string_reads. }
  destruct (al_find strcmp (before_nul r.1) es); [apply shrinks_none|].
  pose proof (ignore_blank_suffix r.2) as Hib. destruct (ignore_blank r.2) as [|c2 ps3]; [apply shrinks_none|].
  destruct (c2 =? chr ":"); [|apply shrinks_none]. intros s' ps' [= <- <-].
  assert (Hs3 : c2 :: ps3 `suffix_of` ps) by (etrans; [exact Hib|]; etrans; [exact Hr|exact Hs]).
  pose proof (suffix_length _ _ Hs3) as Hl3. split; [etrans; [|exact Hs3]; auto|cbn in Hl3 |- *; lia].
Qed.
Lemma read_array_shrinks fs vs ps : bytes_ok ps -> shrinks (2 * length ps + 2) ps (read_array fs vs ps).
Proof.
  intros Hb. unfold read_array. destruct (skip_commas 0 ps) as [[[|c ps1] n]|] eqn:Es; try apply shrinks_none.
  destruct (skip_commas_suffix _ _ _ _ Es) as (Hs & _ & _ & _). pose proof (suffix_length _ _ Hs) as Hl. cbn in Hl.
  assert (Hs1 : ps1 `suffix_of` ps) by (etrans; [|exact Hs]; auto).
  destruct (c =? chr "]"); [apply shrinks_close; [done|lia]|].
  match goal with |- context [if ?b then None else _] => destruct b end; [apply shrinks_none|].
  intros s' ps' [= <- <-]. split; [done|cbn; lia].
Qed.
Lemma read_round_shrinks fs v ps : bytes_ok ps -> shrinks (measure (Open fs v) ps) ps (read_round fs v ps).
Proof.
  intros Hb. destruct v; cbn [read_round measure container];
    solve [by apply read_value_shrinks|by apply read_object_shrinks|by apply read_array_shrinks].
Qed.
End progress.
