(* ===== verification/JsonRead.v ===== *)
(** * JSON text: [zjson_unserialize] builds what the reader says

    The loop runs in step with [read_loop]: the values on [json_vec] are the
    open arrays and objects of the reader, each under the one before it. The
    loop ends on every text, and leaves nothing behind when it gives up. *)
From stdpp Require Import gmap sorting.
From S2P Require Import Prelude Chars Buf Vector Text StateMonad Rbtree RbShape Rbset Rbops RbRefine Keyed KeyedSpec KeyedRefine Maps.
From S2P Require Import Json JsonSpec JsonOps JsonWrite JsonText.

(** ** A value inside others *)
Section frames.
Context `{AllocatorSound} `{!Doubles}.
Implicit Types (st R : gmap Z jnode) (t : jtree).

Inductive frame := FArr (p : Z) (ts : list jtree) | FObj (p : Z) (es : list (list Z * jtree)) (k : list Z).
Definition fptr (f : frame) : Z := match f with FArr p _ => p | FObj p _ _ => p end.
Definition fcont (f : frame) t : jcont :=
  match f with FArr _ ts => CArray (ts ++ [t]) | FObj _ es k => CObject (al_insert strcmp k t es) end.
Definition fill (f : frame) t : jtree := JT (fptr f) (fcont f t).
Definition fothers (f : frame) : list jtree := match f with FArr _ ts => ts | FObj _ es _ => map snd es end.
Definition plug (fs : list frame) t : jtree := fold_left (fun t f => fill f t) fs t.

Lemma fill_children f t : children (fcont f t) ≡ₚ t :: fothers f.
Proof.
  destruct f as [p ts|p es k]; cbn; [by rewrite Permutation_app_comm|].
  by rewrite (al_insert_perm strcmp k t es).
Qed.
Lemma fill_cval v f t t' : jptr t' = jptr t -> cval v (fcont f t) -> cval v (fcont f t').
Proof.
  intros Hp. destruct f as [p ts|p es k], v as [| | | | |m|a]; cbn; try done.
  - by rewrite !map_app; cbn; rewrite Hp.
  - unfold entry_ptr. rewrite <- !(al_insert_vals strcmp jptr), Hp. intros [Hr Hl]. split; [done|].
    by rewrite !zlen_al_insert in *.
Qed.
Lemma fill_addrs f t : addrs (fill f t) ≡ₚ addrs t ++ fptr f :: alladdrs (fothers f).
Proof.
  unfold fill. rewrite addrs_JT. fold (alladdrs (children (fcont f t))).
  rewrite (alladdrs_perm _ _ (fill_children f t)), alladdrs_cons. by rewrite <- Permutation_middle.
Qed.

(** What is around a value is the rest of the store to it. *)
Lemma fill_focus R q f t st : jrep R q (fill f t) st -> exists R', jrep R' (fptr f) t st /\
  forall t' st', jptr t' = jptr t -> jrep R' (fptr f) t' st' -> jrep R q (fill f t') st'.
Proof.
  intros Hr. pose proof Hr as [Ht Hn HR Hst]. pose proof (fill_addrs f t) as Ea. rewrite Ea in Hn.
  apply NoDup_app in Hn as (Hnt & Hd & Hnf). pose proof Ht as [(Hp & v & Hv & Hc) Hch]%jat_JT.
  rewrite fill_children in Hch. apply Forall_cons in Hch as [Htf Hch].
  exists (without_addrs (addrs t) st). split; [by apply (jrep_of R)|].
  intros t' st' Ep Hr'. pose proof (fill_addrs f t') as Ea'.
  set (others := fptr f :: alladdrs (fothers f)) in *.
  assert (Hoth : forall y, y ∈ others -> exists n, without_addrs (addrs t) st !! y = Some n /\ st !! y = Some n).
  { intros y Hy. assert (Hyt : y ∉ addrs t) by (intros Hyt; by apply (Hd y)). rewrite lookup_without_out by done.
    destruct (jrep_dom R q (fill f t) st y Hr) as [n En]; [|by exists n]. rewrite Ea. apply elem_of_app. by right. }
  assert (Hsame : forall y, y ∈ others -> (y ∉ addrs t') /\ st' !! y = st !! y).
  { intros y Hy. destruct (Hoth y Hy) as (n & En & En'). rewrite En'. by apply (jrep_elsewhere _ _ _ _ _ _ Hr' En). }
  split.
  - apply jat_JT. split; [split; [done|]; exists v; split; [|by eapply fill_cval]|].
    + rewrite (proj2 (Hsame (fptr f) ltac:(by left))). done.
    + rewrite fill_children. constructor; [apply Hr'|]. eapply jat_all_agree; [|exact Hch].
      intros y Hy. apply Hsame. by right.
  - rewrite Ea'. apply NoDup_app. split; [apply Hr'|]. split; [|done]. intros y Hy Hy'. by apply (Hsame y).
  - intros y Hy. rewrite Ea' in Hy. apply elem_of_app in Hy as [Hy|Hy].
    + pose proof (jr_new _ _ _ _ Hr' y Hy) as Hn'. destruct (decide (y ∈ addrs t)) as [Hyt|Hyt].
      * apply HR. rewrite Ea. apply elem_of_app. by left.
      * rewrite lookup_without_out in Hn' by done. rewrite <- Hst; [done|]. rewrite Ea. intros [?|Hyo]%elem_of_app; [done|].
        by apply (Hsame y) in Hyo as [? _].
    + apply HR. rewrite Ea. apply elem_of_app. by right.
  - intros y Hy. rewrite Ea' in Hy. apply not_elem_of_app in Hy as [Hyt' Hyo].
    rewrite (jr_rest _ _ _ _ Hr') by done. destruct (decide (y ∈ addrs t)) as [Hyt|Hyt].
    + rewrite lookup_without_in by done. symmetry. apply HR. rewrite Ea. apply elem_of_app. by left.
    + rewrite lookup_without_out by done. apply Hst. rewrite Ea. by intros [?|?]%elem_of_app.
Qed.
Lemma plug_focus fs : forall R q t st, jrep R q (plug fs t) st -> exists R' q', jrep R' q' t st /\
  forall t' st', jptr t' = jptr t -> jrep R' q' t' st' -> jrep R q (plug fs t') st'.
Proof.
  induction fs as [|f fs IH]; intros R q t st Hr; [by exists R, q|].
  destruct (IH R q (fill f t) st Hr) as (R1 & q1 & Hr1 & Hback1).
  destruct (fill_focus R1 q1 f t st Hr1) as (R2 & Hr2 & Hback2). exists R2, (fptr f). split; [done|].
  intros t' st' Ep Hr'. by apply Hback1, Hback2.
Qed.
End frames.

(** ** What the functions of json.c do to a value, wherever it is *)
Section local.
Context `{AllocatorSound} `{!Doubles}.
Implicit Types (st R : gmap Z jnode) (t : jtree) (ts : list jtree).

Definition changes {A} (m : St (gmap Z jnode) A) (p : Z) (c : jcont) (P : A -> jcont -> Prop) : Prop :=
  forall R q st, jrep R q (JT p c) st -> wp m st (fun a st' => exists c', P a c' /\ jrep R q (JT p c') st').
Lemma changes_in fs {A} (m : St (gmap Z jnode) A) p c P R q st (Q : A -> gmap Z jnode -> Prop) :
  changes m p c P -> jrep R q (plug fs (JT p c)) st ->
  (forall a c' st', P a c' -> jrep R q (plug fs (JT p c')) st' -> Q a st') -> wp m st Q.
Proof.
  intros Hm Hr HQ. destruct (plug_focus fs R q (JT p c) st Hr) as (R' & q' & Hr' & Hback).
  eapply wp_mono; [by apply Hm|]. intros a st' (c' & HP & Hc'). eapply HQ; [exact HP|]. by apply Hback.
Qed.
Lemma changes_bind {A B} (m : St (gmap Z jnode) A) (f : A -> St (gmap Z jnode) B) p c P P' :
  changes m p c P -> (forall a c', P a c' -> changes (f a) p c' P') -> changes (m ≫= f) p c P'.
Proof.
  intros Hm Hf R q st Hr. apply wp_bind. eapply wp_mono; [by apply Hm|]. intros a st' (c' & HP & Hr').
  by eapply Hf.
Qed.
Lemma changes_ret {A} (a : A) p c (P : A -> jcont -> Prop) : P a c -> changes (mret a) p c P.
Proof. intros HP R q st Hr. apply wp_ret. by exists c. Qed.
Lemma changes_option {A} (o : option A) a p c (P : A -> jcont -> Prop) : o = Some a -> P a c -> changes (of_option o) p c P.
Proof. intros -> HP R q st Hr. eapply wp_of_option; [done|]. by exists c. Qed.
Lemma changes_get p c (P : jval -> jcont -> Prop) : (forall v, cval v c -> P v c) -> changes (get_jval p) p c P.
Proof.
  intros HP R q st Hr. destruct (jrep_node _ _ _ _ _ Hr) as (_ & v & Hv & Hc). eapply wp_get_jval; [exact Hv|].
  exists c. split; [by apply HP|done].
Qed.
Lemma changes_set p c v c' (P : unit -> jcont -> Prop) : cval v c' -> children c' = children c -> P tt c' ->
  changes (set_jval p v) p c P.
Proof.
  intros Hv Hch HP R q st Hr. destruct (jrep_node _ _ _ _ _ Hr) as (_ & w & Hw & _). eapply wp_set_jval; [exact Hw|].
  exists c'. split; [done|]. by eapply jrep_set.
Qed.
Lemma changes_reset p c : changes (zjson_reset p) p c (fun _ c' => c' = CNull).
Proof using H0. intros R q st Hr. eapply wp_mono; [by eapply zjson_reset_spec|]. intros [] st' Hr'. by exists CNull. Qed.
Lemma changes_array p c : changes (zjson_get_array_value p) p c (fun _ c' => c' = CArray (as_array c)).
Proof using H0. intros R q st Hr. eapply wp_mono; [by eapply get_array_spec|]. intros [] st' Hr'. by eexists. Qed.
Lemma changes_object p c : changes (zjson_get_object_value p) p c (fun _ c' => c' = CObject (as_object c)).
Proof using H0. intros R q st Hr. eapply wp_mono; [by eapply get_object_spec|]. intros [] st' Hr'. by eexists. Qed.
Lemma changes_string p c : changes (zjson_get_string_value p) p c (fun _ c' => c' = CString (as_string c)).
Proof using H0. intros R q st Hr. eapply wp_mono; [by eapply get_string_spec|]. intros [] st' Hr'. by eexists. Qed.
Lemma put_long p c l : changes (zjson_get_long_value p;; set_jval p (VLong l)) p c (fun _ c' => c' = CLong l).
Proof using H0.
  apply (changes_bind _ _ _ _ (fun _ c' => c' = CLong (as_long c))).
  - intros R q st Hr. eapply wp_mono; [by eapply get_long_spec|]. intros [] st' Hr'. by eexists.
  - intros [] c' ->. by apply (changes_set p _ (VLong l) (CLong l)).
Qed.
Lemma put_double p c d : changes (zjson_get_double_value p;; set_jval p (VDouble d)) p c (fun _ c' => c' = CDouble d).
Proof using H0.
  apply (changes_bind _ _ _ _ (fun _ c' => c' = CDouble (as_double c))).
  - intros R q st Hr. eapply wp_mono; [by eapply get_double_spec|]. intros [] st' Hr'. by eexists.
  - intros [] c' ->. by apply (changes_set p _ (VDouble d) (CDouble d)).
Qed.
Lemma put_bool p c b : changes (zjson_get_bool_value p;; set_jval p (VBool b)) p c (fun _ c' => c' = CBool b).
Proof using H0.
  apply (changes_bind _ _ _ _ (fun _ c' => c' = CBool (as_bool c))).
  - intros R q st Hr. eapply wp_mono; [by eapply get_bool_spec|]. intros [] st' Hr'. by eexists.
  - intros [] c' ->. by apply (changes_set p _ (VBool b) (CBool b)).
Qed.

(** A new node goes to the end of an array. *)
Lemma push_new p ts : size_ok (CArray (ts ++ [JNil])) ->
  changes (e ← zjson_create; zjson_array_push p e;; mret e) p (CArray ts) (fun x c' => c' = CArray (ts ++ [JT x CNull])).
Proof using H0.
  intros Hsz R q st Hr. apply wp_bind. unfold zjson_create, alloc_json. apply wp_bind, wp_gets, wp_bind, wp_modify, wp_ret.
  pose proof (jrep_new st CNull VNull ltac:(done) eq_refl) as Hx. cbn zeta in Hx. set (x := new_addr (dom st)) in *.
  destruct (jrep_swap _ _ _ _ _ _ _ Hx Hr) as (R2 & Hr2 & Hx2). apply wp_bind.
  eapply wp_mono; [apply (push_ok R R2 q 0 p (CArray ts) (JT x CNull)); [exact Hr2|exact Hx2|done|]|].
  - unfold size_ok, zlen in *. cbn [children as_array] in *. rewrite length_app in *. exact Hsz.
  - intros r st' (-> & Hr'). apply wp_ret. by eexists.
Qed.
Lemma push_new_then {B} p (k : Z -> St (gmap Z jnode) B) st (Q : B -> gmap Z jnode -> Prop) :
  wp ((e ← zjson_create; zjson_array_push p e;; mret e) ≫= k) st Q -> wp (e ← zjson_create; zjson_array_push p e;; k e) st Q.
Proof.
  unfold wp, mbind, St_bind. destruct (zjson_create st) as [[e st1]|]; [|done].
  by destruct (zjson_array_push p e st1) as [[e' st2]|].
Qed.
Definition null_node t : Prop := exists x, t = JT x CNull.
Lemma push_nulls_changes p n : forall ts, size_ok (CArray (ts ++ replicate n JNil)) ->
  changes (push_nulls_json n p) p (CArray ts) (fun _ c' => exists ts', c' = CArray (ts ++ ts') /\ Forall null_node ts' /\ length ts' = n).
Proof using H0.
  induction n as [|n IH]; intros ts Hsz; cbn [push_nulls_json].
  { apply changes_ret. exists []. by rewrite app_nil_r. }
  assert (Hsz1 : zlen ts + Z.of_nat (S n) <= JN).
  { unfold size_ok in Hsz. cbn [children] in Hsz. by rewrite zlen_app, zlen_replicate in Hsz. }
  intros R q st Hr. apply push_new_then, wp_bind. eapply wp_mono; [apply push_new; [|exact Hr]|].
  { unfold size_ok. cbn [children]. rewrite zlen_app, zlen_cons, zlen_nil. lia. }
  intros x st1 (c' & -> & Hr1). eapply wp_mono; [apply IH; [|exact Hr1]|].
  - unfold size_ok. cbn [children]. rewrite !zlen_app, zlen_cons, zlen_nil, zlen_replicate. lia.
  - intros [] st' (c' & (ts' & -> & Hts & Hl) & Hr'). exists (CArray (ts ++ JT x CNull :: ts')).
    rewrite <- app_assoc in Hr'. split; [|done]. exists (JT x CNull :: ts'). split; [done|].
    split; [constructor; [by exists x|done]|cbn; lia].
Qed.

Lemma array_len_changes p ts : changes (zjson_array_get_len p) p (CArray ts) (fun n c' => n = zlen ts /\ c' = CArray ts).
Proof using H0.
  intros R q st Hr. apply wp_bind. eapply wp_mono; [by eapply get_array_spec|]. intros [] st1 Hr1.
  destruct (jrep_node _ _ _ _ _ Hr1) as (_ & v & Hv & Hc). destruct v as [| | | | | |a]; try done.
  eapply wp_on_vec; [exact Hv|reflexivity|reflexivity|]. rewrite insert_id by done. rewrite (array_len _ _ Hc).
  by exists (CArray ts).
Qed.
Lemma object_len_changes p es : changes (zjson_object_get_len p) p (CObject es) (fun n c' => n = zlen es /\ c' = CObject es).
Proof using H0.
  intros R q st Hr. apply wp_bind. eapply wp_mono; [by eapply get_object_spec|]. intros [] st1 Hr1.
  destruct (jrep_node _ _ _ _ _ Hr1) as (_ & v & Hv & Hc). destruct v as [| | | | |m|]; try done.
  eapply wp_on_map; [exact Hv|reflexivity|reflexivity|]. rewrite insert_id by done. rewrite (object_len _ _ Hc).
  by exists (CObject es).
Qed.

(** A new node under a key; when the key was taken its old value is released. *)
Definition put_new (p : Z) (key : list Z) : St (gmap Z jnode) (option Z) :=
  new_json ← zjson_create;
  old_json ← zjson_object_update p key new_json true;
  if negb (old_json =? 0) then zjson_free old_json;; mret None else mret (Some new_json).
Lemma put_new_then {B} p key (k : Z -> St (gmap Z jnode) (option B)) st (Q : option B -> gmap Z jnode -> Prop) :
  wp (put_new p key ≫= fun o => match o with Some e => k e | None => mret None end) st Q ->
  wp (new_json ← zjson_create;
      old_json ← zjson_object_update p key new_json true;
      if negb (old_json =? 0) then zjson_free old_json;; mret None else k new_json) st Q.
Proof.
  unfold put_new, wp, mbind, St_bind. destruct (zjson_create st) as [[e st1]|]; [|done].
  destruct (zjson_object_update p key e true st1) as [[old st2]|]; [|done].
  destruct (negb (old =? 0)); [|done]. by destruct (zjson_free old st2) as [[[] st3]|].
Qed.
Lemma put_new_changes p es key : zlen es < JN -> Forall (fun t => t <> JNil) (map snd es) ->
  changes (put_new p key) p (CObject es) (fun o c' => match al_find strcmp key es with
    | Some _ => o = None
    | None => exists x, o = Some x /\ c' = CObject (al_insert strcmp key (JT x CNull) es) end).
Proof using H0.
  intros Hsz Hnn R q st Hr. unfold put_new, zjson_create, alloc_json. apply wp_bind, wp_bind, wp_gets, wp_bind, wp_modify, wp_ret.
  pose proof (jrep_new st CNull VNull ltac:(done) eq_refl) as Hx. cbn zeta in Hx. set (x := new_addr (dom st)) in *.
  destruct (jrep_swap _ _ _ _ _ _ _ Hx Hr) as (R2 & Hr2 & Hx2). apply wp_bind.
  assert (Hop : wp (zjson_object_update p key (jptr (JT x CNull)) true) (<[x:=mk_jnode VNull 0]> st) (fun r st' =>
    jop_post (ObjectUpdate key true) R q p (CObject es) (JT x CNull) (true, r) st')).
  { pose proof (object_update_ok R R2 q 0 p (CObject es) (JT x CNull) key true _ Hr2 Hx2 ltac:(done)) as Hop.
    assert (Hok : size_ok (jop_spec (ObjectUpdate key true) (CObject es) (JT x CNull)).1.1).
    { unfold size_ok, jop_spec. cbn [fst children as_object]. unfold zlen. rewrite length_map. fold (zlen (al_update strcmp key (JT x CNull) es)).
      unfold al_update. destruct (al_find strcmp key es); rewrite ?zlen_al_set, ?zlen_al_insert; lia. }
    specialize (Hop Hok). unfold jexec, wp, mbind, St_bind in Hop. unfold wp.
    destruct (zjson_object_update p key (jptr (JT x CNull)) true _) as [[r st']|]; [exact Hop|done]. }
  eapply wp_mono; [exact Hop|]. intros r st' (Er & R' & Hc' & Hfate). unfold jop_spec in Hc', Hfate, Er.
  cbn [fst snd as_object jop_loses jop_wants jop_fate jop_answer] in Hc', Hfate, Er. unfold found_in in Hfate, Er. unfold al_update in Hc'.
  destruct (al_find strcmp key es) as [[k t]|] eqn:Ef; cbn in Er, Hfate; injection Er as ->.
  - assert (Ht : t <> JNil).
    { apply al_find_key in Ef as [_ Hin]. rewrite Forall_forall in Hnn. apply Hnn. by apply (list_elem_of_fmap_2 snd _ (k, t)). }
    destruct t as [|y ct]; [done|]. cbn [jptr]. destruct (jrep_swap _ _ _ _ _ _ _ Hc' Hfate) as (R3 & Ht3 & Hc3).
    destruct (jrep_node _ _ _ _ _ Ht3) as (Hy & _). rewrite (proj2 (Z.eqb_neq y 0)) by done. cbn [negb]. apply wp_bind.
    eapply wp_mono; [apply (zjson_free_spec R3 0 (JT y ct) st' Ht3)|]. intros [] st2 ->. apply wp_ret. by eexists.
  - apply jrep_nil in Hfate as ->. cbn. eexists. split; [|exact Hc']. by exists x.
Qed.
End local.

(** ** The loop in step with the reader *)
Section rounds.
Context `{AllocatorSound} `{!Doubles} (R : gmap Z jnode) (q j : Z).
Implicit Types (st : gmap Z jnode) (t : jtree) (ts : list jtree).

Definition erase_entry (e : list Z * jtree) : list Z * json := (fst e, erase (snd e)).
Definition fabs (f : frame) : jframe :=
  match f with FArr _ ts => InArray (map erase ts) | FObj _ es k => InObject (map erase_entry es) k end.
Lemma erase_fill f t : erase (fill f t) = jfill (fabs f) (erase t).
Proof.
  destruct f as [p ts|p es k]; cbn; f_equal; [by rewrite map_app|].
  symmetry. apply (al_insert_vals strcmp erase).
Qed.
Lemma erase_plug fs : forall t, erase (plug fs t) = fold_left (fun v f => jfill f v) (map fabs fs) (erase t).
Proof. induction fs as [|f fs IH]; intros t; [done|]. cbn [map fold_left]. rewrite <- erase_fill. apply IH. Qed.
Lemma find_erased key es : al_find strcmp key (map erase_entry es) = erase_entry <$> al_find strcmp key es.
Proof. apply (al_find_vals strcmp erase). Qed.

(** Every character may still add an element to any of the open values. *)
Definition fits (ps : list Z) (ts : list jtree) : Prop := zlen ts + zlen ps <= JN /\ Forall (fun t => t <> JNil) ts.
Definition frame_fits (ps : list Z) (f : frame) : Prop := fits (0 :: ps) (fothers f).
Definition is_open (c : jcont) : Prop := match c with CNull | CArray _ | CObject _ => True | _ => False end.
Lemma fits_less ps ps' ts : fits ps ts -> zlen ps' <= zlen ps -> fits ps' ts.
Proof. intros [? ?] ?. split; [lia|done]. Qed.
Lemma frames_fit_less ps ps' fs : Forall (frame_fits ps) fs -> zlen ps' <= zlen ps -> Forall (frame_fits ps') fs.
Proof. intros Hf Hl. eapply Forall_impl; [exact Hf|]. intros f Hff. eapply fits_less; [exact Hff|]. rewrite !zlen_cons. lia. Qed.

(** The store, the text left and [json_vec], against the state of the reader. *)
Inductive in_step st (ps : list Z) : list Z -> rstate -> Prop :=
  | step_open fs p c : jrep R q (plug fs (JT p c)) st -> jptr (plug fs (JT p c)) = j -> is_open c ->
      Forall (frame_fits ps) fs -> fits ps (children c) ->
      in_step st ps (p :: map fptr fs) (Open (map fabs fs) (erase (JT p c)))
  | step_closed c : jrep R q (JT j c) st -> in_step st ps [] (Closed (erase (JT j c))).
Lemma plug_ptr fs : forall t t', jptr t = jptr t' -> jptr (plug fs t) = jptr (plug fs t').
Proof. induction fs as [|f fs IH]; intros t t' Ht; [done|]. by apply IH. Qed.
Lemma plug_same fs p c c' : jptr (plug fs (JT p c)) = jptr (plug fs (JT p c')).
Proof. by apply plug_ptr. Qed.
Lemma step_close st ps fs p c : jrep R q (plug fs (JT p c)) st -> jptr (plug fs (JT p c)) = j ->
  Forall (frame_fits ps) fs -> in_step st ps (map fptr fs) (close (map fabs fs) (erase (JT p c))).
Proof.
  intros Hr Hj Hfs. destruct fs as [|f fs]; cbn [map close].
  - cbn in Hj. subst p. by apply step_closed.
  - apply Forall_cons in Hfs as [[Hf Hnn] Hfs]. rewrite <- erase_fill.
    apply (step_open st ps fs (fptr f) (fcont f (JT p c))); [done|done|by destruct f|done|].
    pose proof (fill_children f (JT p c)) as Hch. split; [|rewrite Hch; by constructor].
    apply Permutation_length in Hch. unfold zlen in *. rewrite Hch. cbn in *. lia.
Qed.

(** What a round leaves: the next step, or a value to be thrown away. *)
Definition round_post (o : option (rstate * list Z)) (r : option round) st : Prop :=
  match o, r with
  | Some (s, ps'), Some (tmpkey, ps, vec) => ps = ps' /\ (exists x, Buf.holds None x tmpkey) /\ in_step st ps vec s
  | None, None => exists c, jrep R q (JT j c) st
  | _, _ => False
  end.
Lemma round_fail fs p c st : jrep R q (plug fs (JT p c)) st -> jptr (plug fs (JT p c)) = j -> round_post None None st.
Proof.
  intros Hr Hj. cbn. destruct (plug fs (JT p c)) as [|p' c'] eqn:Ep.
  - exfalso. clear -Ep. revert p c Ep. induction fs as [|f fs IH]; intros p c Ep; [done|]. by apply (IH _ _ Ep).
  - cbn in Hj. subst p'. by exists c'.
Qed.

Lemma wp_of_runs {A S} (o : option A) (P : A -> Prop) (s : S) (Q : A -> S -> Prop) : runs o P ->
  (forall a, P a -> Q a s) -> wp (of_option o) s Q.
Proof. intros (a & E & Ha) HQ. eapply wp_of_option; [exact E|auto]. Qed.
Lemma wp_assoc {A B C S} (m : St S A) (f : A -> St S B) (g : B -> St S C) s Q :
  wp ((m ≫= f) ≫= g) s Q -> wp (x ← m; y ← f x; g y) s Q.
Proof. unfold wp, mbind, St_bind. destruct (m s) as [[a s']|]; done. Qed.

(** A value is complete. *)
Lemma value_done {B} fs p c c1 (m : St (gmap Z jnode) B) tmpkey x ps st :
  changes m p c (fun _ c' => c' = c1) -> jrep R q (plug fs (JT p c)) st -> jptr (plug fs (JT p c)) = j ->
  Forall (frame_fits ps) fs -> Buf.holds None x tmpkey ->
  wp (m;; mret (Some (tmpkey, ps, map fptr fs))) st (round_post (Some (close (map fabs fs) (erase (JT p c1)), ps))).
Proof.
  intros Hm Hr Hj Hfs Hx. apply wp_bind. eapply (changes_in fs); [exact Hm|exact Hr|].
  intros a c' st' -> Hr'. apply wp_ret. cbn. split; [done|]. split; [by exists x|]. apply (step_close st' ps fs p c1); [done| |done].
  by rewrite (plug_same fs p c1 c).
Qed.
Lemma reads_zlen ps r : reads ps r -> zlen r.2 <= zlen ps /\ zlen r.1 <= zlen ps.
Proof. intros (_ & Hl & _). unfold zlen. lia. Qed.
Lemma frames_fit_reads ps r fs : reads ps r -> Forall (frame_fits ps) fs -> Forall (frame_fits r.2) fs.
Proof. intros Hr Hf. eapply frames_fit_less; [exact Hf|]. by destruct (reads_zlen _ _ Hr). Qed.

Section value.
Variables (fs : list frame) (p : Z) (ps : list Z) (tmpkey : zbuf) (x : list Z) (st : gmap Z jnode).
Hypothesis (Hr : jrep R q (plug fs (JT p CNull)) st) (Hj : jptr (plug fs (JT p CNull)) = j).
Hypothesis (Hfs : Forall (frame_fits ps) fs) (Hps : zlen ps < JN) (Hb : bytes_ok ps).
Hypothesis Hx : Buf.holds None x tmpkey.

Lemma null_value v : cval v CNull -> v = VNull.
Proof. by destruct v. Qed.
Lemma string_round_step c ps1 : ps = c :: ps1 ->
  let r := read_string c ps1 in
  wp (string_round tmpkey ps p (map fptr fs)) st (round_post (Some (close (map fabs fs) (JsString r.1), r.2))).
Proof using H0 Hr Hj Hfs Hps Hb Hx.
  intros Eps r. unfold string_round. pose proof Hb as Hb1. rewrite Eps in Hb1. apply Forall_cons in Hb1 as [Hc Hb1]. pose proof (read_string_reads c ps1 Hb1) as Hrd.
  fold r in Hrd. pose proof (reads_zlen _ _ Hrd) as [Hl2 Hl1]. assert (Hl : zlen ps = 1 + zlen ps1) by (by rewrite Eps, zlen_cons).
  unfold JN in Hps.
  apply wp_bind. eapply wp_of_runs; [by eapply zbuf_reset_holds, Hx|]. intros b0 Hb0. apply wp_bind.
  eapply wp_of_runs.
  { rewrite Eps. unfold fetch_string. apply (fetch_string_writes c ps1 Hb1 None b0 [] Hb0). unfold room. rewrite zlen_nil. fold r. lia. }
  intros [b1 ps2] [Hb1' E2]. cbn [fst snd] in Hb1', E2. fold r in Hb1', E2. subst ps2. cbn [app clip] in Hb1'.
  apply wp_bind. eapply (changes_in fs); [apply (changes_get p CNull (fun v c' => v = VNull /\ c' = CNull))|exact Hr|].
  { intros v Hv. by apply null_value in Hv. }
  intros v c' st1 [-> ->] Hr1. apply wp_bind. eapply (changes_in fs); [apply changes_string|exact Hr1|].
  intros [] c' st2 -> Hr2. cbn [as_string] in Hr2. apply wp_bind.
  eapply (changes_in fs); [apply (changes_get p _ (fun v c' => c' = CString [] /\ exists s, v = VString s /\ Buf.holds None [] s))|exact Hr2|].
  { intros v Hv. destruct v; try done. split; [done|]. by eexists. }
  intros v c' st3 [-> (s & -> & Hs)] Hr3. apply wp_bind.
  eapply wp_of_option; [exact (holds_bytes _ _ _ Hb1')|]. rewrite (rep_len _ _ _ (proj1 Hb1')).
  apply wp_bind. eapply wp_of_runs.
  { eapply (zbuf_memcpy_holds None s [] r.1 (zlen r.1) r.1); [apply Hs|unfold int_max; zlen_facts; lia|apply in_bytes_full|done|apply Hrd|unfold room; lia]. }
  intros s' Hs'. cbn [clip] in Hs'. apply wp_bind.
  eapply (changes_in fs); [apply (changes_set p (CString []) (VString s') (CString r.1) (fun _ c' => c' = CString r.1)); done|exact Hr3|].
  intros [] c' st4 -> Hr4. apply wp_bind. eapply wp_of_runs; [by eapply zbuf_reset_holds, Hb1'|]. intros b2 Hb2.
  apply wp_ret. cbn. split; [done|]. split; [by exists []|]. apply (step_close st4 r.2 fs p (CString r.1)); [done| |].
  - by rewrite (plug_same fs p _ CNull).
  - eapply frames_fit_less; [exact Hfs|]. lia.
Qed.

Lemma number_round_step : let r := read_number ps false in
  wp (number_round tmpkey ps p (map fptr fs)) st (round_post (Some (close (map fabs fs)
    (if r.2 then JsDouble (atof r.1.1) else JsLong (strtol10 r.1.1)), r.1.2))).
Proof using H0 Hr Hj Hfs Hps Hb Hx.
  intros r. unfold number_round. pose proof (read_number_reads ps Hb false) as Hrd. fold r in Hrd. unfold JN in Hps.
  apply wp_bind. eapply wp_of_runs; [by eapply zbuf_reset_holds, Hx|]. intros b0 Hb0. apply wp_bind.
  eapply wp_of_runs; [apply (fetch_number_runs ps Hb false b0 [] Hb0); rewrite zlen_nil; lia|].
  intros [[b1 ps2] d] (Hb1 & E2 & E3). cbn [fst snd app] in Hb1, E2, E3. fold r in Hb1, E2, E3. subst ps2 d.
  apply wp_bind. eapply wp_of_option; [exact (zbuf_cstr_holds _ _ Hb1)|].
  assert (Hnul : before_nul r.1.1 = r.1.1) by apply read_number_no_nul. rewrite Hnul.
  pose proof (frames_fit_reads ps r.1 fs Hrd Hfs) as Hfs'. destruct r.2.
  - by eapply (value_done fs p CNull (CDouble (atof r.1.1))); [apply put_double|..].
  - by eapply (value_done fs p CNull (CLong (strtol10 r.1.1))); [apply put_long|..].
Qed.
Lemma word_round_step : wp (word_round tmpkey ps p (map fptr fs)) st (round_post (
    r ← read_word 0 ps;
    let x := before_nul (fst r) in
    if (strcmp x (str "null") =? 0) || (strcmp x (str "undefined") =? 0) then Some (close (map fabs fs) JsNull, snd r)
    else if strcmp x (str "true") =? 0 then Some (close (map fabs fs) (JsBool 1), snd r)
    else if strcmp x (str "false") =? 0 then Some (close (map fabs fs) (JsBool 0), snd r)
    else None)).
Proof using H0 Hr Hj Hfs Hps Hb Hx.
  unfold word_round. unfold JN in Hps.
  apply wp_bind. eapply wp_of_runs; [by eapply zbuf_reset_holds, Hx|]. intros b0 Hb0. apply wp_bind.
  eapply wp_of_runs; [apply (fetch_word_runs ps Hb b0 [] Hb0); rewrite zlen_nil; lia|].
  intros [b1 o] Ho. cbn [zlen length] in Ho. change (zlen []) with 0 in Ho.
  destruct (read_word 0 ps) as [[y ps']|] eqn:Ew; cbn [mbind option_bind fst snd] in *.
  2:{ subst o. apply wp_ret. by eapply round_fail. }
  destruct Ho as [Hb1 ->]. cbn [app] in Hb1. apply wp_bind. eapply wp_of_option; [exact (zbuf_cstr_holds _ _ Hb1)|].
  pose proof (frames_fit_reads ps _ fs (read_word_reads ps Hb _ _ Ew) Hfs) as Hfs'. cbn [snd] in Hfs'.
  destruct ((strcmp (before_nul y) (str "null") =? 0) || (strcmp (before_nul y) (str "undefined") =? 0)).
  { by eapply (value_done fs p CNull CNull); [apply changes_reset|..]. }
  destruct (strcmp (before_nul y) (str "true") =? 0).
  { apply wp_assoc. by eapply (value_done fs p CNull (CBool 1)); [apply put_bool|..]. }
  destruct (strcmp (before_nul y) (str "false") =? 0).
  { apply wp_assoc. by eapply (value_done fs p CNull (CBool 0)); [apply put_bool|..]. }
  apply wp_ret. by eapply round_fail.
Qed.
Lemma value_round_step : ps <> [] ->
  wp (value_round tmpkey ps p (map fptr fs)) st (round_post (read_value (map fabs fs) ps)).
Proof using H0 Hr Hj Hfs Hps Hb Hx.
  intros Hne. assert (Hcons : exists c ps1, ps = c :: ps1) by (destruct ps as [|c ps1]; [done|by exists c, ps1]).
  destruct Hcons as (c & ps1 & Eps). rewrite Eps. unfold value_round, read_value.
  assert (Hl : zlen ps = 1 + zlen ps1) by (by rewrite Eps, zlen_cons).
  assert (Hopen : forall (m : St (gmap Z jnode) unit) c1, changes m p CNull (fun _ c' => c' = c1) -> is_open c1 ->
    children c1 = [] -> wp (m;; mret (Some (tmpkey, ps1, p :: map fptr fs))) st
      (round_post (Some (Open (map fabs fs) (erase (JT p c1)), ps1)))).
  { intros m c1 Hm Ho Hch. apply wp_bind. eapply (changes_in fs); [exact Hm|exact Hr|]. intros [] c' st' -> Hr'.
    apply wp_ret. cbn. split; [done|]. split; [by exists x|].
    apply (step_open st' ps1 fs p c1); [done|by rewrite (plug_same fs p c1 CNull)|done| |].
    - eapply frames_fit_less; [exact Hfs|]. lia.
    - rewrite Hch. split; [rewrite zlen_nil; lia|constructor]. }
  destruct (c =? chr "{"); [by apply (Hopen _ (CObject [])); [exact (changes_object p CNull)|..]|].
  destruct (c =? chr "["); [by apply (Hopen _ (CArray [])); [exact (changes_array p CNull)|..]|].
  destruct ((c =? 34) || (c =? chr "'")); [pose proof (string_round_step c ps1 Eps) as Hs; rewrite Eps in Hs; exact Hs|].
  destruct ((c =? chr "-") || isdigit c).
  - pose proof number_round_step as Hn. rewrite Eps in Hn. cbn zeta in Hn.
    destruct (read_number (c :: ps1) false) as [[y ps2] d]. exact Hn.
  - pose proof word_round_step as Hw. rewrite Eps in Hw. exact Hw.
Qed.
End value.

Lemma erase_nulls ts : Forall null_node ts -> map erase ts = replicate (length ts) JsNull.
Proof. induction 1 as [|t ts (x & ->) _ IH]; cbn; [done|]. by rewrite IH. Qed.
Lemma nulls_not_nil ts : Forall null_node ts -> Forall (fun t => t <> JNil) ts.
Proof. intros Hts. eapply Forall_impl; [exact Hts|]. by intros t (x & ->). Qed.

Section container.
Variables (fs : list frame) (p : Z) (c : jcont) (ps : list Z) (tmpkey : zbuf) (x : list Z) (st : gmap Z jnode).
Hypothesis (Hr : jrep R q (plug fs (JT p c)) st) (Hj : jptr (plug fs (JT p c)) = j).
Hypothesis (Hfs : Forall (frame_fits ps) fs) (Hc : fits ps (children c)) (Hps : zlen ps < JN) (Hb : bytes_ok ps).
Hypothesis Hx : Buf.holds None x tmpkey.

(** A new value is read next, inside the value at [p]. *)
Lemma enter_new f e ps' st' tmpkey' x' : fptr f = p -> jrep R q (plug fs (JT p (fcont f (JT e CNull)))) st' ->
  frame_fits ps' f -> zlen ps' <= zlen ps -> Buf.holds None x' tmpkey' ->
  round_post (Some (Open (fabs f :: map fabs fs) JsNull, ps')) (Some (tmpkey', ps', e :: p :: map fptr fs)) st'.
Proof using Hj Hfs Hps.
  intros Hp Hr' Hff Hl Hx'. cbn. split; [done|]. split; [by exists x'|].
  pose proof (step_open st' ps' (f :: fs) e CNull) as Hopen. cbn [map] in Hopen. rewrite Hp in Hopen. apply Hopen.
  - cbn [plug fold_left]. unfold fill. by rewrite Hp.
  - change (plug (f :: fs) (JT e CNull)) with (plug fs (fill f (JT e CNull))). unfold fill. rewrite Hp.
    by rewrite (plug_same fs p _ c).
  - done.
  - constructor; [done|]. by eapply frames_fit_less.
  - split; [cbn; rewrite zlen_nil; lia|constructor].
Qed.

Lemma array_round_step ts : c = CArray ts ->
  wp (array_round tmpkey ps p (map fptr fs)) st (round_post (read_array (map fabs fs) (map erase ts) ps)).
Proof using H0 Hr Hj Hfs Hc Hps Hb Hx.
  intros Ec. unfold array_round, read_array. pose proof Hr as Hra. pose proof Hc as [Hsz Hnn]. rewrite Ec in Hra, Hsz, Hnn.
  cbn [children] in Hsz, Hnn.
  destruct (skip_commas 0 ps) as [[[|ch ps1] n]|] eqn:Es; try (apply wp_ret; exact (round_fail fs p c st Hr Hj)).
  destruct (skip_commas_suffix _ _ _ _ Es) as (_ & _ & Hn & Hl). rewrite zlen_cons in Hl. pose proof (zlen_nonneg ps1).
  assert (Hpush : forall k, 0 <= k <= n -> size_ok (CArray (ts ++ replicate (Z.to_nat k) JNil))).
  { intros k Hk. unfold size_ok. cbn [children]. rewrite zlen_app, zlen_replicate. lia. }
  destruct (ch =? chr "]").
  - apply wp_bind. eapply (changes_in fs); [apply (push_nulls_changes p (Z.to_nat n) ts); apply Hpush; lia|exact Hra|].
    intros [] c' st1 (ts' & -> & Hts & Hlen) Hr1. apply wp_ret. cbn. split; [done|]. split; [by exists x|].
    replace (JsArray (map erase ts ++ replicate (Z.to_nat n) JsNull)) with (erase (JT p (CArray (ts ++ ts')))).
    + apply step_close; [done|by rewrite (plug_same fs p _ c)|]. eapply frames_fit_less; [exact Hfs|lia].
    + cbn. by rewrite map_app, (erase_nulls ts' Hts), Hlen.
  - set (k := Z.to_nat (n - 1)). apply wp_bind.
    assert (Hk : size_ok (CArray (ts ++ replicate k JNil))).
    { destruct (Z.le_gt_cases 1 n); [unfold k; apply Hpush; lia|]. replace k with (Z.to_nat 0) by (unfold k; lia). apply Hpush. lia. }
    eapply (changes_in fs); [apply (push_nulls_changes p k ts Hk)|exact Hra|].
    intros [] c' st1 (ts' & -> & Hts & Hlen) Hr1. apply wp_bind.
    eapply (changes_in fs); [apply array_len_changes|exact Hr1|]. intros len c' st2 [-> ->] Hr2.
    assert (Hvs : map erase ts ++ replicate k JsNull = map erase (ts ++ ts')) by (by rewrite map_app, (erase_nulls ts' Hts), Hlen).
    rewrite Hvs. change (map erase (ts ++ ts')) with (erase <$> (ts ++ ts')). rewrite zlen_fmap.
    destruct ((0 <? zlen (ts ++ ts')) && (n <? 1)) eqn:Echeck.
    { apply wp_ret. eapply round_fail; [exact Hr2|]. by rewrite (plug_same fs p _ c). }
    assert (Hlen' : zlen (ts ++ ts') + 1 + zlen (ch :: ps1) <= JN).
    { rewrite zlen_app in *. rewrite zlen_cons. unfold zlen in * |-. pose proof (zlen_nonneg ts). pose proof (zlen_nonneg ts').
      assert (zlen ts' = Z.of_nat k) by (unfold zlen; lia). unfold zlen in *. lia. }
    apply push_new_then, wp_bind. eapply (changes_in fs); [apply (push_new p (ts ++ ts'))|exact Hr2|].
    { unfold size_ok. cbn [children]. rewrite zlen_app, zlen_cons, zlen_nil. rewrite zlen_cons in Hlen'. lia. }
    intros e c' st3 -> Hr3. apply wp_ret.
    apply (enter_new (FArr p (ts ++ ts')) e (ch :: ps1) st3 tmpkey x); [done|exact Hr3| |rewrite zlen_cons; lia|done].
    split; [cbn [fothers]; rewrite zlen_cons; lia|]. cbn [fothers]. apply Forall_app. split; [done|by apply nulls_not_nil].
Qed.

Lemma object_round_step es : c = CObject es ->
  wp (object_round tmpkey ps p (map fptr fs)) st (round_post (read_object (map fabs fs) (map erase_entry es) ps)).
Proof using H0 Hr Hj Hfs Hc Hps Hb Hx.
  intros Ec. unfold object_round, read_object. pose proof Hr as Hra. pose proof Hc as [Hsz Hnn]. rewrite Ec in Hra, Hsz, Hnn.
  cbn [children] in Hsz, Hnn.
  destruct (skip_commas 0 ps) as [[[|ch ps1] n]|] eqn:Es; try (apply wp_ret; exact (round_fail fs p c st Hr Hj)).
  destruct (skip_commas_suffix _ _ _ _ Es) as ([pre Epre] & _ & Hn & Hl). pose proof (zlen_nonneg ps1).
  assert (Hes : zlen es + zlen (ch :: ps1) <= JN) by (unfold zlen in Hsz; rewrite length_map in Hsz; unfold zlen in *; lia).
  assert (Hb1 : bytes_ok (ch :: ps1)) by (rewrite Epre in Hb; by apply Forall_app in Hb as [_ ?]).
  assert (Hfail : forall c' st', jrep R q (plug fs (JT p c')) st' -> round_post None None st').
  { intros c' st' Hr'. eapply round_fail; [exact Hr'|]. by rewrite (plug_same fs p _ c). }
  change (map erase_entry es) with (erase_entry <$> es) at 2. rewrite zlen_fmap.
  destruct (ch =? chr "}").
  { apply wp_ret. cbn [round_post]. split; [done|]. split; [by exists x|]. apply (step_close st ps1 fs p (CObject es)).
    - done.
    - by rewrite (plug_same fs p _ c).
    - eapply frames_fit_less; [exact Hfs|]. rewrite zlen_cons in Hl. lia. }
  apply wp_bind. eapply (changes_in fs); [apply object_len_changes|exact Hra|]. intros len c' st2 [-> ->] Hr2.
  destruct ((0 <? zlen es) && (n =? 0)); [apply wp_ret; by eapply Hfail|].
  apply wp_bind. eapply wp_of_runs; [by eapply zbuf_reset_holds, Hx|]. intros b0 Hb0. apply wp_bind.
  set (r := if (ch =? 34) || (ch =? chr "'") then read_string ch ps1 else read_bare (ch :: ps1)).
  unfold JN in Hps. apply Forall_cons in Hb1 as Hb2. destruct Hb2 as [_ Hb2].
  assert (Hrd : reads (ch :: ps1) r).
  { unfold r. destruct ((ch =? 34) || (ch =? chr "'")); [|by apply read_bare_reads].
    destruct (read_string_reads ch ps1 Hb2) as (Hs & Hle & Hby). split; [by apply suffix_cons_of|]. split; [cbn; lia|done]. }
  destruct (reads_zlen _ _ Hrd) as [Hl2 Hl1].
  eapply (wp_of_runs _ (fun r' => Buf.holds None r.1 r'.1 /\ r'.2 = r.2)).
  { unfold r in Hl1 |- *. destruct ((ch =? 34) || (ch =? chr "'")).
    - apply (fetch_string_writes ch ps1 Hb2 None b0 [] Hb0). unfold room. rewrite zlen_nil. lia.
    - apply (fetch_string2_writes _ Hb1 None b0 [] Hb0). unfold room. rewrite zlen_nil. lia. }
  intros [b1 ps2] [Hb1' E2]. cbn [fst snd] in Hb1', E2. subst ps2.
  apply wp_bind. eapply wp_of_option; [exact (zbuf_cstr_holds _ _ Hb1')|]. set (key := before_nul r.1).
  apply put_new_then, wp_bind. eapply (changes_in fs); [apply (put_new_changes p es key); [rewrite zlen_cons in Hes; lia|done]|exact Hr2|].
  intros o c' st3 Ho Hr3. rewrite find_erased. destruct (al_find strcmp key es) as [e|]; cbn [fmap option_fmap option_map].
  { subst o. apply wp_ret. by eapply Hfail. }
  destruct Ho as (e & -> & ->). pose proof (ignore_blank_suffix r.2) as Hib.
  destruct (ignore_blank r.2) as [|ch2 ps3]; [apply wp_ret; by eapply Hfail|].
  destruct (ch2 =? chr ":"); apply wp_ret; [|by eapply Hfail].
  apply suffix_length in Hib. cbn [length] in Hib.
  apply (enter_new (FObj p es key) e ps3 st3 b1 r.1); [done|exact Hr3| |unfold zlen in *; lia|done].
  split; [cbn [fothers]; unfold zlen in *; cbn [length]; rewrite length_map; cbn [length] in *; lia|done].
Qed.
End container.
End rounds.

(** ** The loop and the function *)
Section unserialize.
Context `{AllocatorSound} `{!Doubles} (R : gmap Z jnode) (q j : Z).

(** The value read, or, when the text is refused, some value to be dropped. *)
Definition read_post (o : option json) (ret : bool) (st : gmap Z jnode) : Prop :=
  ret = (match o with Some _ => true | None => false end) /\
  exists c, jrep R q (JT j c) st /\ match o with Some v => erase (JT j c) = v | None => True end.

Lemma plug_root fs : forall t, t <> JNil -> jptr (plug fs t) = j -> exists c, plug fs t = JT j c.
Proof.
  induction fs as [|f fs IH]; intros t Ht Hj; [|by apply (IH (fill f t))].
  destruct t as [|p c]; [done|]. exists c. cbn in *. by rewrite Hj.
Qed.
Lemma round_step tmpkey x fs p c ps st : jrep R q (plug fs (JT p c)) st -> jptr (plug fs (JT p c)) = j -> is_open c ->
  Forall (frame_fits ps) fs -> fits ps (children c) -> zlen ps < JN -> bytes_ok ps -> Buf.holds None x tmpkey -> ps <> [] ->
  wp (v ← get_jval p;
      match v with
      | VObject _ => object_round tmpkey ps p (map fptr fs)
      | VArray _ => array_round tmpkey ps p (map fptr fs)
      | _ => value_round tmpkey ps p (map fptr fs)
      end) st (round_post R q j (read_round (map fabs fs) (erase (JT p c)) ps)).
Proof using H0.
  intros Hr Hj Ho Hfs Hc Hps Hb Hx Hne. apply wp_bind.
  eapply (changes_in fs); [apply (changes_get p c (fun v c' => cval v c /\ c' = c)); done|exact Hr|].
  intros v c' st1 [Hv ->] Hr1. destruct c as [| | | | |es|ts]; try done.
  - destruct v; try done. by eapply value_round_step.
  - destruct v; try done. by eapply object_round_step.
  - destruct v; try done. by eapply array_round_step.
Qed.
Lemma unserialize_loop_spec : forall fuel st ps vec s tmpkey x, in_step R q j st ps vec s -> zlen ps < JN -> bytes_ok ps ->
  Buf.holds None x tmpkey -> (measure s ps <= fuel)%nat ->
  wp (unserialize_loop fuel tmpkey ps vec) st (read_post (read_loop fuel s ps)).
Proof using H0.
  induction fuel as [|fuel IH]; intros st ps vec s tmpkey x Hs Hps Hb Hx Hf.
  { destruct s as [fs v|v]; cbn in Hf; [destruct (container v); lia|lia]. }
  cbn [unserialize_loop read_loop]. pose proof (ignore_blank_suffix ps) as Hib.
  destruct Hs as [fs p c Hr Hj Ho Hfs Hc|c Hr].
  2:{ destruct (ignore_blank ps); (apply wp_ret; split; [done|]; by exists c). }
  destruct (ignore_blank ps) as [|ch ps1] eqn:Eib.
  { apply wp_ret. split; [done|]. destruct (plug_root fs (JT p c)) as [c' Ec]; [done|done|]. exists c'. rewrite <- Ec.
    split; [done|]. apply erase_plug. }
  set (ps' := ch :: ps1) in *. assert (Hl : zlen ps' <= zlen ps) by (apply suffix_length in Hib; unfold zlen; lia).
  assert (Hb' : bytes_ok ps') by (destruct Hib as [pre ->]; by apply Forall_app in Hb as [_ ?]).
  pose proof (round_step tmpkey x fs p c ps' st Hr Hj Ho (frames_fit_less _ _ _ Hfs Hl) (fits_less _ _ _ Hc Hl)
    ltac:(lia) Hb' Hx ltac:(done)) as Hround.
  apply wp_assoc, wp_bind. eapply wp_mono; [exact Hround|]. intros r st1 Hpost.
  pose proof (read_round_shrinks (map fabs fs) (erase (JT p c)) ps' Hb') as Hsh.
  destruct (read_round (map fabs fs) (erase (JT p c)) ps') as [[s' ps2]|].
  - destruct r as [[[tmpkey' ps3] vec']|]; [|done]. destruct Hpost as (-> & (x' & Hx') & Hs').
    destruct (Hsh s' ps2 eq_refl) as [Hsuf Hm]. pose proof (suffix_length _ _ Hsuf) as Hl2.
    eapply IH; [exact Hs'| | |exact Hx'|].
    + unfold zlen in *. lia.
    + destruct Hsuf as [pre E]. rewrite E in Hb'. by apply Forall_app in Hb' as [_ ?].
    + apply suffix_length in Hib. cbn [measure] in Hm, Hf. fold ps' in Hib. lia.
  - destruct r as [[[? ?] ?]|]; [done|]. apply wp_ret. split; [done|]. destruct Hpost as [c' Hr']. by exists c'.
Qed.

Lemma zjson_unserialize_spec c st jstr jlen text : jrep R q (JT j c) st -> in_bytes jstr jlen = Some text ->
  bytes_ok text -> zlen text < JN ->
  wp (zjson_unserialize j jstr jlen) st (fun ret st' =>
    ret = (match json_read text with Some _ => true | None => false end) /\
    exists c', jrep R q (JT j c') st' /\ match json_read text with Some v => erase (JT j c') = v | None => c' = CNull end).
Proof using H0.
  intros Hr Ht Hb Hl. unfold zjson_unserialize, json_read. apply wp_bind. eapply wp_of_option; [exact Ht|].
  apply wp_bind. eapply wp_mono; [by eapply zjson_reset_spec|]. intros [] st1 Hr1.
  apply wp_bind. eapply wp_of_runs; [apply (zbuf_create_holds 128); lia|]. intros tmpkey Hk. apply wp_bind.
  eapply wp_mono; [apply (unserialize_loop_spec (2 * length text + 2) st1 text [j] (Open [] JsNull) tmpkey []); try done|].
  - pose proof (step_open R q j st1 text [] j CNull) as Hs. apply Hs; [done|done|done|constructor|].
    split; [cbn; rewrite zlen_nil; lia|constructor].
  - cbn. lia.
  - intros ret st2 (-> & c2 & Hr2 & Hc2). destruct (read_loop _ _ text) as [v|].
    + apply wp_bind, wp_ret, wp_ret. split; [done|]. by exists c2.
    + apply wp_bind. eapply wp_mono; [by eapply zjson_reset_spec|]. intros [] st3 Hr3. apply wp_ret.
      split; [done|]. by exists CNull.
Qed.
End unserialize.

(** C1: [zjson_unserialize] on any text below 2^25 bytes: it returns, without
    undefined behaviour and within two rounds per character, for a value [j] that
    may hold anything before. When it answers 1, [j] holds the value that
    [json_read] reads from the text, its nodes in the store under their parents;
    when it answers 0, [json_read] refuses the text and [j] is null. The old value
    and everything built on the way are released: nothing else is in the store. *)
Theorem zjson_unserialize_reads `{AllocatorSound} `{!Doubles} R q j c st jstr jlen text :
  jrep R q (JT j c) st -> in_bytes jstr jlen = Some text -> bytes_ok text -> zlen text < 2 ^ 25 ->
  exists ret st', zjson_unserialize j jstr jlen st = Some (ret, st') /\
    match json_read text with
    | Some v => ret = true /\ exists c', jrep R q (JT j c') st' /\ erase (JT j c') = v
    | None => ret = false /\ jrep R q (JT j CNull) st'
    end.
Proof.
  intros Hr Ht Hb Hl. destruct (wp_runs _ _ _ (zjson_unserialize_spec R q j c st jstr jlen text Hr Ht Hb Hl))
    as (ret & st' & E & -> & c' & Hr' & Hc'). eexists _, st'. split; [exact E|].
  destruct (json_read text); split; [done|by exists c'|done|by subst c'].
Qed.

Section demo.
#[local] Existing Instance whole_doubles.
Lemma zjson_unserialize_reads_witness : exists ret st',
  zjson_unserialize 4 (str "[1,{b:true, 'a':null}" ++ [0]) (-1) demo_store = Some (ret, st') /\
  ret = true /\ exists c', jrep demo_rest 0 (JT 4 c') st' /\
    erase (JT 4 c') = JsArray [JsLong 1; JsObject [(str "a", JsNull); (str "b", JsBool 1)]].
Proof.
  pose proof (zjson_unserialize_reads demo_rest 0 4 (CArray [JT 8 (CLong 7)]) demo_store
    (str "[1,{b:true, 'a':null}" ++ [0]) (-1) (str "[1,{b:true, 'a':null}") demo_jrep) as Hread.
  apply Hread; [reflexivity| |reflexivity]. by repeat constructor.
Defined.
End demo.
