(* ===== verification/JsonTrip.v ===== *)
(** * JSON text: the round trip

    Reading the text of a value gives the value back, and so does the code:
    [zjson_unserialize] on what [zjson_serialize] wrote. Integers must fit
    [ssize_t], and a double must be the one its text (cut to six decimals or seven
    digits) stands for. *)
From stdpp Require Import gmap sorting.
From S2P Require Import Prelude Chars Buf Text Xml StateMonad Keyed KeyedSpec KeyedRefine Maps Json JsonSpec JsonOps JsonWrite JsonText JsonRead.

Section values.
Context `{!Doubles}.

Lemma json_nested_ind (P : json -> Prop) : P JsNull -> (forall b, P (JsBool b)) -> (forall l, P (JsLong l)) ->
  (forall d, P (JsDouble d)) -> (forall x, P (JsString x)) ->
  (forall es, Forall (fun e => P (snd e)) es -> P (JsObject es)) -> (forall vs, Forall P vs -> P (JsArray vs)) -> forall v, P v.
Proof.
  intros H1 H2 H3 H4 H5 H6 H7. fix IH 1. intros [|b|l|d|x|es|vs].
  - exact H1.
  - apply H2.
  - apply H3.
  - apply H4.
  - apply H5.
  - apply H6. induction es as [|e es IHes]; constructor; [apply IH|exact IHes].
  - apply H7. induction vs as [|v vs IHvs]; constructor; [apply IH|exact IHvs].
Qed.

(** A double whose text, written by [printf], is a number with a point or an
    exponent (not [inf], nor [nan]), from which [atof] gets the double back. *)
Definition double_ok (d : dbl) : Prop :=
  castable d /\ atof (double_text d) = d /\
  (exists c x, double_text d = c :: x /\ (c = chr "-" \/ isdigit c = true)) /\
  all number_char (double_text d) /\
  Exists (fun c => (c =? chr ".") || (c =? chr "e") || (c =? chr "E") = true) (double_text d).

(** Values whose text says all: no truth value beside 0 and 1, keys that are C
    strings in [strcmp] order. *)
Fixpoint json_ok (v : json) : Prop :=
  match v with
  | JsNull => True
  | JsBool b => b = 0 \/ b = 1
  | JsLong l => - 2 ^ 63 <= l < 2 ^ 63
  | JsDouble d => double_ok d
  | JsString x => bytes_ok x
  | JsObject es => al_sorted strcmp es /\ Forall (fun e => Forall (fun c => 0 < c < 256) (fst e)) es /\
      fold_right (fun e P => json_ok (snd e) /\ P) True es
  | JsArray vs => fold_right (fun v P => json_ok v /\ P) True vs
  end.

(** ** Steps of the reader *)
Definition reaches (s : rstate) (ps : list Z) (s' : rstate) (ps' : list Z) : Prop :=
  exists n, forall fuel, read_loop (n + fuel) s ps = read_loop fuel s' ps'.
Lemma reaches_trans s1 ps1 s2 ps2 s3 ps3 : reaches s1 ps1 s2 ps2 -> reaches s2 ps2 s3 ps3 -> reaches s1 ps1 s3 ps3.
Proof.
  intros [n Hn] [m Hm]. exists (n + m)%nat. intros fuel. by rewrite <- Nat.add_assoc, Hn, Hm.
Qed.
Lemma reaches_round fs v c ps s' ps' : json_blank c = false -> read_round fs v (c :: ps) = Some (s', ps') ->
  reaches (Open fs v) (c :: ps) s' ps'.
Proof. intros Hc Hr. exists 1%nat. intros fuel. cbn [Nat.add read_loop ignore_blank]. by rewrite Hc, Hr. Qed.
(** With enough fuel, more makes no difference. *)
Lemma read_loop_fuel : forall fuel fuel' s ps, bytes_ok ps -> (measure s ps <= fuel)%nat -> (measure s ps <= fuel')%nat ->
  read_loop fuel s ps = read_loop fuel' s ps.
Proof.
  induction fuel as [|fuel IH]; intros fuel' s ps Hb Hf Hf'.
  { destruct s as [fs v|v]; cbn in Hf; [destruct (container v)|]; lia. }
  destruct fuel' as [|fuel']. { destruct s as [fs v|v]; cbn in Hf'; [destruct (container v)|]; lia. }
  cbn [read_loop]. pose proof (ignore_blank_suffix ps) as Hib. destruct (ignore_blank ps) as [|c ps1]; [done|].
  destruct s as [fs v|v]; [|done]. set (ps' := c :: ps1) in *.
  assert (Hb' : bytes_ok ps') by (destruct Hib as [pre ->]; by apply Forall_app in Hb as [_ ?]).
  pose proof (read_round_shrinks fs v ps' Hb') as Hsh. destruct (read_round fs v ps') as [[s' ps2]|]; [|done].
  destruct (Hsh s' ps2 eq_refl) as [Hs Hm]. apply suffix_length in Hib. cbn [measure] in *.
  apply IH; [|lia|lia]. destruct Hs as [pre E]. rewrite E in Hb'. by apply Forall_app in Hb' as [_ ?].
Qed.

(** What may follow a value: a comma or a bracket, or nothing. *)
Definition follows (rest : list Z) : Prop :=
  match rest with [] => True | c :: _ => c = chr "," \/ c = chr "]" \/ c = chr "}" end.

(** ** Words and numbers *)
Lemma read_word_stop len rest : follows rest -> read_word len rest = Some ([], rest).
Proof. destruct rest as [|c rest]; [done|]. cbn. by intros [->|[->| ->]]. Qed.
Lemma read_number_stop d rest : follows rest -> read_number rest d = ([], rest, d).
Proof. destruct rest as [|c rest]; [done|]. cbn. by intros [->|[->| ->]]. Qed.
Lemma read_null rest : follows rest -> read_word 0 (str "null" ++ rest) = Some (str "null", rest).
Proof. intros Hr. cbn. by rewrite read_word_stop. Qed.
Lemma read_true rest : follows rest -> read_word 0 (str "true" ++ rest) = Some (str "true", rest).
Proof. intros Hr. cbn. by rewrite read_word_stop. Qed.
Lemma read_false rest : follows rest -> read_word 0 (str "false" ++ rest) = Some (str "false", rest).
Proof. intros Hr. cbn. by rewrite read_word_stop. Qed.

Lemma read_digits ds rest : all isdigit ds -> follows rest -> read_number (ds ++ rest) false = (ds, rest, false).
Proof.
  intros Hd Hr. induction Hd as [|c ds Hc _ IH]; [by apply read_number_stop|]. cbn [app read_number].
  assert (Hn : number_char c = true) by (unfold number_char; by rewrite Hc, orb_true_r).
  assert (He : (c =? chr ".") || (c =? chr "e") || (c =? chr "E") = false) by (unfold isdigit, in_range in Hc; lia).
  rewrite Hn. cbn [orb]. rewrite He. by rewrite IH.
Qed.
Lemma read_long l rest : follows rest -> read_number (fmt_zd l ++ rest) false = (fmt_zd l, rest, false).
Proof.
  intros Hr. unfold fmt_zd. destruct (Z.ltb_spec l 0).
  - cbn [app read_number]. change (number_char 45) with true. cbn [orb Z.eqb]. change ((45 =? 46) || (45 =? 101) || (45 =? 69)) with false.
    rewrite read_digits; [done| |done]. apply decimal_digits_digits. lia.
  - apply read_digits; [|done]. apply decimal_digits_digits. lia.
Qed.
Lemma read_point x rest d : all number_char x -> follows rest ->
  read_number (x ++ rest) d =
    (x, rest, d || existsb (fun c => (c =? chr ".") || (c =? chr "e") || (c =? chr "E")) x).
Proof.
  intros Hx Hr. revert d. induction Hx as [|c x Hc _ IH]; intros d; cbn [app existsb].
  - rewrite orb_false_r. by apply read_number_stop.
  - cbn [read_number]. rewrite Hc, IH. cbn [fst snd]. by rewrite !orb_assoc.
Qed.
Lemma fmt_zd_cons l : exists c x, fmt_zd l = c :: x /\ (c = chr "-" \/ isdigit c = true).
Proof.
  unfold fmt_zd. destruct (Z.ltb_spec l 0); [by exists (chr "-"), (decimal_digits 64 (- l)); auto|].
  destruct (decimal_digits_cons l) as (c & ds & E & Hc); [lia|]. exists c, ds. auto.
Qed.

(** ** Strings *)
Lemma read_char ch ps : byte_ok ch -> ps <> [] ->
  read_string 34 (char_text ch ++ ps) = (ch :: (read_string 34 ps).1, (read_string 34 ps).2).
Proof.
  intros Hc Hps. destruct ps as [|c ps]; [done|].
  assert (Hcase : forall ch, byte_ok ch -> (
    if negb (escape_of ch =? 0) then negb (escape_of ch =? 117) && negb (escape_char (escape_of ch) =? 0) && (escape_char (escape_of ch) =? ch)
    else if ch <? 32 then (hex4 48 48 (tab json_hex_chars (Z.shiftr ch 4)) (tab json_hex_chars (Z.land ch 15)) =? ch)
    else negb (ch =? 34) && negb (ch =? 92)) = true) by (apply byte_forall; vm_compute; reflexivity).
  specialize (Hcase ch Hc). unfold char_text. destruct (negb (escape_of ch =? 0)) eqn:Ee; [|destruct (Z.ltb_spec ch 32)].
  - apply andb_true_iff in Hcase as [[Hu Hne]%andb_true_iff Heq%Z.eqb_eq]. cbn [app read_string].
    change ((92 =? 34) || (92 =? 39)) with false. change (92 =? 92) with true. cbn match.
    destruct (escape_of ch =? 117); [done|]. rewrite Hne, Heq. done.
  - apply Z.eqb_eq in Hcase. cbn [app]. cbn [read_string]. change ((92 =? 34) || (92 =? 39)) with false.
    change (92 =? 92) with true. change (117 =? 117) with true. cbn match. rewrite Hcase.
    unfold zncr_decode. destruct (Z.ltb_spec ch 128); [|lia]. by rewrite u8_id.
  - apply andb_true_iff in Hcase as [H34 H92]. cbn [app]. cbn [read_string]. apply negb_true_iff in H34, H92.
    rewrite H34, H92. cbn [orb]. destruct (Z.eqb_spec ch 39) as [->|]; [done|]. done.
Qed.
Lemma read_quoted x rest : bytes_ok x -> read_string 34 (concat (map char_text x) ++ 34 :: rest) = (x, rest).
Proof.
  induction 1 as [|ch x Hc _ IH]; [done|]. cbn [map concat]. rewrite <- app_assoc, read_char; [|done|by destruct (concat _)].
  by rewrite IH.
Qed.
End values.

(** ** Values *)
Section trip.
Context `{!Doubles}.

(** No text of a value starts like what comes between values. *)
Definition starts (c : Z) : Prop := json_blank c = false /\ c <> chr "," /\ c <> chr "]" /\ c <> chr "}".
Lemma starts_digit c : isdigit c = true -> starts c.
Proof. unfold isdigit, in_range, starts, json_blank. intros Hc. repeat split; lia. Qed.
Lemma text_starts v : json_ok v -> exists c x, json_text v = c :: x /\ starts c.
Proof.
  destruct v as [|b|l|d|x|es|vs]; cbn [json_ok json_text]; intros Hv; try done; try (eexists _, _; split; [reflexivity|done]).
  - destruct (b =? 0); (eexists _, _; split; [reflexivity|done]).
  - destruct (fmt_zd_cons l) as (c & x & E & Hc). exists c, x. split; [done|].
    destruct Hc as [->|Hc]; [done|by apply starts_digit].
  - destruct Hv as (_ & _ & (c & x & E & Hc) & _). exists c, x. split; [done|].
    destruct Hc as [->|Hc]; [done|by apply starts_digit].
Qed.
Lemma skip_commas_stop k c ps : starts c -> skip_commas k (c :: ps) = Some (c :: ps, k).
Proof. intros (Hb & Hc & _). cbn. rewrite Hb. by rewrite (proj2 (Z.eqb_neq c 44)). Qed.

Lemma skip_one_comma c ps : starts c -> skip_commas 0 (chr "," :: c :: ps) = Some (c :: ps, 1).
Proof. intros Hs. change (skip_commas 0 (44 :: c :: ps)) with (skip_commas (0 + 1) (c :: ps)). by rewrite skip_commas_stop. Qed.

(** A value is read whole, in any context. *)
Definition reads_back (v : json) : Prop := json_ok v -> forall fs rest, follows rest ->
  reaches (Open fs JsNull) (json_text v ++ rest) (close fs v) rest.

Lemma null_back : reads_back JsNull.
Proof.
  intros _ fs rest Hr. cbn [json_text]. apply reaches_round; [done|]. cbn [read_round]. unfold read_value.
  pose proof (read_null rest Hr) as E. cbn [app] in E. cbn match. rewrite E. done.
Qed.
Lemma bool_back b : reads_back (JsBool b).
Proof.
  intros Hb fs rest Hr. cbn [json_text]. destruct Hb as [->| ->]; cbn match; (apply reaches_round; [done|]);
    cbn [read_round]; unfold read_value.
  - pose proof (read_false rest Hr) as E. cbn [app] in E. cbn match. rewrite E. done.
  - pose proof (read_true rest Hr) as E. cbn [app] in E. cbn match. rewrite E. done.
Qed.
(** Numbers: a sign or a digit first, then what [read_number] reads. *)
Lemma number_back text c x d v fs rest : text = c :: x -> (c = chr "-" \/ isdigit c = true) -> 
  read_number (text ++ rest) false = (text, rest, d) ->
  (if d : bool then JsDouble (atof text) else JsLong (strtol10 text)) = v ->
  reaches (Open fs JsNull) (text ++ rest) (close fs v) rest.
Proof.
  intros E Hc Hread Hv. rewrite E in Hread |- *. cbn [app] in *.
  assert (Hs : starts c) by (destruct Hc as [->|Hc]; [done|by apply starts_digit]).
  apply reaches_round; [apply Hs|]. cbn [read_round]. unfold read_value.
  assert (Hno : (c =? chr "{") = false /\ (c =? chr "[") = false /\ (c =? 34) || (c =? chr "'") = false).
  { destruct Hc as [->|Hc]; [done|]. unfold isdigit, in_range in Hc. lia. }
  destruct Hno as (-> & -> & ->). rewrite Hread, <- E, Hv.
  assert (Hn : (c =? chr "-") || isdigit c = true) by (destruct Hc as [->| ->]; [done|apply orb_true_r]). by rewrite Hn.
Qed.
Lemma long_back l : reads_back (JsLong l).
Proof.
  intros Hl fs rest Hr. cbn [json_text]. destruct (fmt_zd_cons l) as (c & x & E & Hc).
  eapply number_back; [exact E|exact Hc|by apply read_long|]. cbn match. by rewrite strtol10_fmt.
Qed.
Lemma double_back d : reads_back (JsDouble d).
Proof.
  intros (_ & Ha & (c & x & E & Hc) & Hn & Hp) fs rest Hr. cbn [json_text].
  eapply number_back; [exact E|exact Hc|by apply read_point|].
  rewrite (proj2 (existsb_exists _ _)); [by rewrite Ha|].
  apply Exists_exists in Hp as (p & Hin & Hp). exists p. by rewrite <- list_elem_of_In.
Qed.
Lemma string_back x : reads_back (JsString x).
Proof.
  intros Hx fs rest Hr. cbn [json_text]. unfold quoted. cbn [app]. apply reaches_round; [done|].
  cbn [read_round]. unfold read_value. cbn [Z.eqb orb]. rewrite <- app_assoc. cbn [app].
  change (34 =? 123) with false. change (34 =? 91) with false. change ((34 =? 34) || (34 =? 39)) with true. cbn match.
  by rewrite read_quoted.
Qed.

(** Arrays, element by element. *)
Lemma array_close_back fs vs rest : reaches (Open fs (JsArray vs)) (str "]" ++ rest) (close fs (JsArray vs)) rest.
Proof. apply reaches_round; [done|]. cbn. by rewrite app_nil_r. Qed.
Lemma array_item fs vs v tail : json_ok v -> reads_back v -> follows tail ->
  reaches (Open fs (JsArray vs)) ((if is_nil vs then [] else [chr ","]) ++ json_text v ++ tail)
    (Open fs (JsArray (vs ++ [v]))) tail.
Proof.
  intros Hv IH Ht. eapply reaches_trans; [|exact (IH Hv (InArray vs :: fs) tail Ht)].
  destruct (text_starts v Hv) as (c & x & E & Hs). pose proof Hs as (Hb & _ & Hc & _). rewrite E. cbn [app].
  assert (Hnil : vs ++ replicate 0 JsNull = vs) by apply app_nil_r.
  destruct vs as [|w vs]; cbn [is_nil app].
  - apply reaches_round; [done|]. cbn [read_round]. unfold read_array. rewrite skip_commas_stop by done.
    by rewrite (proj2 (Z.eqb_neq c 93)).
  - apply reaches_round; [done|]. cbn [read_round]. unfold read_array. rewrite skip_one_comma by done.
    rewrite (proj2 (Z.eqb_neq c 93)) by done. change (Z.to_nat (1 - 1)) with 0%nat. rewrite Hnil. by rewrite andb_false_r.
Qed.
Lemma follows_more {A} (f : A -> list Z) l b rest : b = chr "]" \/ b = chr "}" -> follows (more_text (map f l) ++ [b] ++ rest).
Proof. intros Hb. destruct l as [|v l]; cbn; [tauto|auto]. Qed.
Lemma array_items fs rest : forall vs done, Forall (fun v => json_ok v /\ reads_back v) vs ->
  reaches (Open fs (JsArray done)) (rest_text (is_nil done) (map json_text vs) ++ str "]" ++ rest)
    (close fs (JsArray (done ++ vs))) rest.
Proof.
  induction vs as [|v vs IH]; intros dn Hvs.
  - replace (rest_text (is_nil dn) (map json_text [])) with (@nil Z) by (by destruct dn). rewrite app_nil_r. apply array_close_back.
  - apply Forall_cons in Hvs as [[Hv Hb] Hvs]. rewrite rest_text_cons, <- !app_assoc.
    eapply reaches_trans; [apply array_item; [done|done|by apply follows_more; left]|].
    specialize (IH (dn ++ [v]) Hvs). rewrite <- app_assoc in IH. cbn [app] in IH.
    replace (is_nil (dn ++ [v])) with false in IH by (by destruct dn). exact IH.
Qed.
Lemma Forall_ok vs (P : json -> Prop) : fold_right (fun v Q => json_ok v /\ Q) True vs -> Forall P vs ->
  Forall (fun v => json_ok v /\ P v) vs.
Proof. intros Hok. induction 1 as [|v vs Hv _ IH]; constructor; destruct Hok; auto. Qed.
Lemma array_back vs : Forall reads_back vs -> reads_back (JsArray vs).
Proof.
  intros Hvs Hok fs rest Hr. cbn [json_text]. cbn [app].
  eapply reaches_trans; [by apply (reaches_round fs JsNull (chr "[") _ (Open fs (JsArray [])))|].
  rewrite <- app_assoc. apply (array_items fs rest vs []). by apply Forall_ok.
Qed.

(** Objects, with keys ascending. *)
Lemma object_close_back fs es rest : reaches (Open fs (JsObject es)) (str "}" ++ rest) (close fs (JsObject es)) rest.
Proof. by apply reaches_round. Qed.
Lemma object_item fs es k v tail : json_ok v -> reads_back v -> follows tail -> Forall (fun c => 0 < c < 256) k ->
  Forall (fun e => strcmp (fst e) k < 0) es ->
  reaches (Open fs (JsObject es)) ((if is_nil es then [] else [chr ","]) ++ entry_text k (json_text v) ++ tail)
    (Open fs (JsObject (es ++ [(k, v)]))) tail.
Proof.
  intros Hv IH Ht Hk Hes. rewrite <- (al_insert_last strcmp k v es Hes).
  eapply reaches_trans; [|exact (IH Hv (InObject es k :: fs) tail Ht)].
  assert (Hkb : bytes_ok k) by (eapply Forall_impl; [exact Hk|]; intros c Hc; cbn in Hc; unfold byte_ok; lia).
  assert (Hk0 : before_nul k = k) by (apply before_nul_id; eapply Forall_impl; [exact Hk|]; intros c Hc; cbn in Hc |- *; lia).
  assert (Hread : forall n, (0 <? zlen es) && (n =? 0) = false -> forall ps,
    skip_commas 0 ps = Some (entry_text k (json_text v) ++ tail, n) ->
    read_object fs es ps = Some (Open (InObject es k :: fs) JsNull, json_text v ++ tail)).
  { intros n Hn ps Hps. unfold read_object. rewrite Hps. unfold entry_text, quoted. cbn [app].
    change (34 =? chr "}") with false. cbn match. rewrite Hn. change ((34 =? 34) || (34 =? chr "'")) with true. cbn match.
    rewrite <- !app_assoc. cbn [app]. rewrite read_quoted by done. cbn [fst snd]. rewrite Hk0, (al_find_above strcmp k es Hes). done. }
  destruct es as [|e es]; cbn [is_nil app].
  - apply reaches_round; [done|]. by apply (Hread 0).
  - apply reaches_round; [done|]. apply (Hread 1); [by rewrite andb_false_r|done].
Qed.
Definition pair_json (e : list Z * json) : list Z := entry_text (fst e) (json_text (snd e)).
Lemma object_items fs rest : forall es dn, al_sorted strcmp (dn ++ es) ->
  Forall (fun e => json_ok (snd e) /\ reads_back (snd e) /\ Forall (fun c => 0 < c < 256) (fst e)) es ->
  reaches (Open fs (JsObject dn)) (rest_text (is_nil dn) (map pair_json es) ++ str "}" ++ rest)
    (close fs (JsObject (dn ++ es))) rest.
Proof.
  induction es as [|e es IH]; intros dn Hs Hes.
  - replace (rest_text (is_nil dn) (map pair_json [])) with (@nil Z) by (by destruct dn). rewrite app_nil_r. apply object_close_back.
  - apply Forall_cons in Hes as [(Hv & Hb & Hk) Hes]. rewrite rest_text_cons, <- !app_assoc.
    assert (Hlt : Forall (fun e' => strcmp (fst e') (fst e) < 0) dn).
    { apply Forall_forall. intros e' He'. eapply (StronglySorted_app_1_elem_of _ _ _ e' e Hs); [done|by left]. }
    eapply reaches_trans; [apply (object_item fs dn (fst e) (snd e)); [done|done|by apply follows_more; right|done|done]|].
    replace (fst e, snd e) with e by (by destruct e).
    specialize (IH (dn ++ [e])). rewrite <- app_assoc in IH. cbn [app] in IH.
    replace (is_nil (dn ++ [e])) with false in IH by (by destruct dn). by apply IH.
Qed.
Lemma object_back es : Forall (fun e => reads_back (snd e)) es -> reads_back (JsObject es).
Proof.
  intros Hes (Hs & Hk & Hok) fs rest Hr. cbn [json_text]. cbn [app].
  eapply reaches_trans; [by apply (reaches_round fs JsNull (chr "{") _ (Open fs (JsObject [])))|].
  rewrite <- app_assoc. apply (object_items fs rest es []); [done|]. clear Hs.
  induction es as [|e es IH]; constructor; inversion Hes; inversion Hk; destruct Hok; auto.
Qed.
Lemma all_back v : reads_back v.
Proof.
  induction v as [|b|l|d|x|es Hes|vs Hvs] using json_nested_ind.
  - apply null_back.
  - apply bool_back.
  - apply long_back.
  - apply double_back.
  - apply string_back.
  - by apply object_back.
  - by apply array_back.
Qed.
End trip.

(** ** Results *)
Section results.
Context `{AllocatorSound} `{!Doubles}.

Lemma char_text_bytes ch : byte_ok ch -> bytes_ok (char_text ch).
Proof.
  intros Hc. assert (Hall : forallb (fun ch => forallb (fun c => (0 <=? c) && (c <? 256)) (char_text ch)) all_bytes = true)
    by (vm_compute; reflexivity).
  pose proof (byte_forall _ Hall ch Hc) as Hch. cbv beta in Hch. rewrite forallb_forall in Hch.
  apply Forall_forall. intros c Hin%list_elem_of_In%Hch. unfold byte_ok. lia.
Qed.
Lemma quoted_bytes x : bytes_ok x -> bytes_ok (quoted x).
Proof.
  intros Hx. unfold quoted. constructor; [by unfold byte_ok|]. apply Forall_app. split; [|by repeat constructor].
  induction Hx as [|ch x Hc _ IH]; cbn; [constructor|]. apply Forall_app. split; [by apply char_text_bytes|exact IH].
Qed.
Lemma commas_bytes xs : Forall (Forall byte_ok) xs -> bytes_ok (commas xs).
Proof.
  assert (Hmore : forall xs, Forall (Forall byte_ok) xs -> bytes_ok (more_text xs)).
  { induction 1 as [|y ys Hy _ IH]; cbn; [constructor|]. constructor; [by unfold byte_ok|]. by apply Forall_app. }
  destruct 1 as [|y ys Hy Hys]; cbn; [constructor|]. apply Forall_app. auto.
Qed.
Lemma key_bytes k : Forall (fun c => 0 < c < 256) k -> bytes_ok k.
Proof. intros Hk. eapply Forall_impl; [exact Hk|]. intros c Hc. cbn in Hc. unfold byte_ok. lia. Qed.
Lemma json_text_bytes v : json_ok v -> bytes_ok (json_text v).
Proof.
  assert (Hend : forall c x d, byte_ok c -> byte_ok d -> bytes_ok x -> bytes_ok (c :: x ++ [d])).
  { intros c x d Hc Hd Hx. constructor; [done|]. apply Forall_app. split; [done|by constructor]. }
  induction v as [|b|l|d|x|es Hes|vs Hvs] using json_nested_ind; cbn [json_ok json_text]; intros Hok.
  - by repeat constructor.
  - destruct (b =? 0); by repeat constructor.
  - unfold fmt_zd. destruct (Z.ltb_spec l 0); [constructor; [by unfold byte_ok|]|]; apply decimal_digits_bytes; lia.
  - destruct Hok as (_ & _ & _ & Hn & _). eapply Forall_impl; [exact Hn|]. intros c Hc. cbn in Hc.
    unfold number_char, isdigit, in_range in Hc. unfold byte_ok. lia.
  - by apply quoted_bytes.
  - apply Hend; [by unfold byte_ok..|]. apply commas_bytes. destruct Hok as (_ & Hk & Hok).
    induction es as [|e es IH]; constructor; apply Forall_cons in Hes as [He Hes]; apply Forall_cons in Hk as [Hke Hk];
      destruct Hok as [Hoe Hok]; [|by apply IH]. unfold entry_text. apply Forall_app.
    split; [by apply quoted_bytes, key_bytes|]. constructor; [by unfold byte_ok|by apply He].
  - apply Hend; [by unfold byte_ok..|]. apply commas_bytes.
    induction vs as [|v vs IH]; constructor; apply Forall_cons in Hvs as [Hv Hvs]; destruct Hok as [Hov Hok]; [by apply Hv|by apply IH].
Qed.
Lemma erased_keys t : json_ok (erase t) -> Forall (Forall byte_ok) (tree_keys t).
Proof.
  induction t as [|p c IH] using jtree_nested_ind; [constructor|]. destruct c as [| | | | |es|ts]; cbn; try constructor.
  - intros (_ & Hk & Hok). cbn in IH. induction es as [|e es IHes]; cbn in *; [constructor|].
    apply Forall_cons in IH as [He IH]. apply Forall_cons in Hk as [Hke Hk]. destruct Hok as [Hoe Hok].
    constructor; [by apply key_bytes|]. apply Forall_app. split; [by apply He|by apply IHes].
  - intros Hok. cbn in IH. induction ts as [|t ts IHts]; cbn in *; [constructor|].
    apply Forall_cons in IH as [Ht IH]. destruct Hok as [Hot Hok]. apply Forall_app. split; [by apply Ht|by apply IHts].
Qed.
Lemma erased_doubles t : json_ok (erase t) -> Forall castable (tree_doubles t).
Proof.
  induction t as [|p c IH] using jtree_nested_ind; [constructor|]. destruct c as [| | |d| |es|ts]; cbn; try (by intros; constructor).
  - intros [? _]. by constructor.
  - intros (_ & _ & Hok). cbn in IH. induction es as [|e es IHes]; cbn in *; [constructor|].
    apply Forall_cons in IH as [He IH]. destruct Hok as [Hoe Hok]. apply Forall_app. split; [by apply He|by apply IHes].
  - intros Hok. cbn in IH. induction ts as [|t ts IHts]; cbn in *; [constructor|].
    apply Forall_cons in IH as [Ht IH]. destruct Hok as [Hot Hok]. apply Forall_app. split; [by apply Ht|by apply IHts].
Qed.
Lemma json_read_text v : json_ok v -> json_read (json_text v) = Some v.
Proof.
  intros Hv. pose proof (json_text_bytes v Hv) as Hb. destruct (all_back v Hv [] [] I) as [n Hn]. rewrite app_nil_r in Hn. unfold json_read.
  rewrite (read_loop_fuel _ (n + (2 * length (json_text v) + 2))); [|done|cbn; lia|cbn; lia].
  rewrite Hn. by rewrite Nat.add_comm.
Qed.
End results.


(** The value [[7.0]], over the store of another value. *)
Section demo.
#[local] Existing Instance whole_doubles.
Definition seven : @dbl whole_doubles := 7%Z.
Definition double_tree : jtree := JT 4 (CArray [JT 8 (CDouble seven)]).
Definition double_store : gmap Z jnode :=
  <[4 := mk_jnode (VArray demo_vector) 0]> (<[8 := mk_jnode (VDouble seven) 4]> demo_rest).
Lemma double_jrep : jrep demo_rest 0 double_tree double_store.
Proof.
  split.
  - apply jat_JT. split; [split; [done|]; exists (VArray demo_vector); split; [reflexivity|apply demo_vrep]|].
    repeat constructor; [done|]. by exists (VDouble seven).
  - cbn. constructor; [by intros ?%list_elem_of_singleton|apply NoDup_singleton].
  - intros y Hy. cbn in Hy. apply elem_of_cons in Hy as [->|Hy]; [reflexivity|].
    apply elem_of_cons in Hy as [->|[]%elem_of_nil]. reflexivity.
  - intros y Hy. cbn in Hy. apply not_elem_of_cons in Hy as [Hy4 Hy]. apply not_elem_of_cons in Hy as [Hy8 _].
    unfold double_store. by rewrite !lookup_insert_ne by done.
Qed.
End demo.
