(* ===== verification/Cdb.v ===== *)
(** * Constant databases: src/cdb/builder.c and src/cdb/reader.c

    The builder keeps one hash table per key length, each bucket a chain of nodes
    ordered by key. [zcdb_builder_compile] writes the tables to a block that grows
    ([_data], with [_size] and [_cursor] as a file has them), going back to store
    the offsets of what it appends. The reader works on such a block alone: a
    pointer into it is an offset. [zfatal] ends the process: [None]. *)
From S2P Require Import Prelude Buf Crc Cint Maps StateMonad.

(** The first [n] bytes at [zbuf_data(b)]. *)
Definition zbuf_read (b : zbuf) (n : Z) : option (list Z) :=
  if n <=? zlen (bf_data b) then mapM id (take (Z.to_nat n) (bf_data b)) else None.

(** ** Hash tables *)

(** [builder_node_t]: a chain is the list of its nodes. *)
Record bnode := mk_bnode { bn_key : zbuf; bn_val : zbuf }.
(** [builder_table_t] *)
Record btable := mk_btable { bt_vec : list (list bnode); bt_size : Z; bt_count : Z; bt_klen : Z }.

(** [for (node = head; node; node_last = node, node = node->next)]: the nodes
    passed, the others, and whether the first of those has the key. *)
Fixpoint chain_walk (key : list Z) (klen : Z) (ch : list bnode) : option (list bnode * list bnode * bool) :=
  match ch with
  | [] => Some ([], [], false)
  | node :: next =>
      k ← zbuf_read (bn_key node) klen;
      r ← memcmp key k klen;
      if r =? 0 then Some ([], ch, true)
      else if r <? 0 then Some ([], ch, false)
      else w ← chain_walk key klen next;
           let '(passed, rest, found) := w in Some (node :: passed, rest, found)
  end.

(** [n1] moves to its place in [hv]. *)
Definition rehash_node (klen size : Z) (hv : list (list bnode)) (n1 : bnode) : option (list (list bnode)) :=
  key ← zbuf_read (bn_key n1) klen;
  h ← zhash_djb key klen;
  ch ← rd hv (h mod size);
  w ← chain_walk key klen ch;
  let '(passed, rest, found) := w in
  if found : bool then (* zfatal *) None else wr hv (h mod size) (passed ++ n1 :: rest).
Fixpoint rehash_chain (klen size : Z) (hv : list (list bnode)) (ch : list bnode) : option (list (list bnode)) :=
  match ch with
  | [] => Some hv
  | n1 :: n2 => hv ← rehash_node klen size hv n1; rehash_chain klen size hv n2
  end.
Fixpoint rehash_loop (klen size : Z) (hv olds : list (list bnode)) : option (list (list bnode)) :=
  match olds with
  | [] => Some hv
  | ch :: olds' => hv ← rehash_chain klen size hv ch; rehash_loop klen size hv olds'
  end.
Definition builder_table_reset_hash_node_size (table : btable) (size : Z) : option btable :=
  hv ← rehash_loop (bt_klen table) size (replicate (Z.to_nat size) []) (bt_vec table);
  Some (mk_btable hv size (bt_count table) (bt_klen table)).

Definition builder_table_create (klen : Z) : btable := mk_btable (replicate 3 []) 3 0 klen.

(** The key is new: a node between [passed] and [rest]. *)
Definition builder_table_new_node (table : btable) (thash : Z) (key : list Z) (klen : Z) (val : list Z) (vlen : Z)
    (passed rest : list bnode) : option btable :=
  count ← as_int (bt_count table + 1);
  k ← zbuf_init klen; k ← zbuf_memcpy k key klen;
  v ← zbuf_init vlen; v ← zbuf_memcpy v val vlen;
  vec ← wr (bt_vec table) thash (passed ++ mk_bnode k v :: rest);
  let table := mk_btable vec (bt_size table) count (bt_klen table) in
  if bt_size table <? count then
    size ← as_int (bt_size table * 2 + 1);
    builder_table_reset_hash_node_size table size
  else Some table.
Definition builder_table_update_token (table : btable) (key : list Z) (klen : Z) (val : list Z) (vlen : Z)
    : option btable :=
  h ← zhash_djb key klen;
  let thash := h mod bt_size table in
  ch ← rd (bt_vec table) thash;
  w ← chain_walk key klen ch;
  match w with
  | (passed, node :: rest, true) =>
      v ← zbuf_memcpy (bn_val node) val vlen;
      vec ← wr (bt_vec table) thash (passed ++ mk_bnode (bn_key node) v :: rest);
      Some (mk_btable vec (bt_size table) (bt_count table) (bt_klen table))
  | (passed, rest, _) => builder_table_new_node table thash key klen val vlen passed rest
  end.

(** ** The builder *)
Record zcdb_builder := mk_zcdb_builder {
  cb_tables : list (option btable);
  cb_max_klen : Z; cb_count : Z; cb_val_length_min : Z; cb_val_length_max : Z;
  cb_data : list cell; cb_capability : Z; cb_size : Z; cb_cursor : Z; cb_error : bool; cb_over : bool
}.
Definition zvar_zcdb_max_key_len : Z := 4096.
Definition zcdb_builder_create : zcdb_builder :=
  mk_zcdb_builder (replicate (Z.to_nat (zvar_zcdb_max_key_len + 1)) None) 0 0 0 0
    (zmalloc (1024 + 10)) 1024 0 0 false false.

(** [val_length_min] and [val_length_max] after a value of [vlen] bytes. *)
Definition length_step (mm : Z * Z) (vlen : Z) : Z * Z :=
  let '(mn, mx) := mm in
  let mn := if negb (vlen =? 0) && (mn =? 0) then vlen else mn in
  let mx := if negb (vlen =? 0) && (mx =? 0) then vlen else mx in
  (if vlen <? mn then vlen else mn, if mx <? vlen then vlen else mx).
Definition zcdb_builder_update (b : zcdb_builder) (key : list Z) (klen : Z) (val : list Z) (vlen : Z)
    : option zcdb_builder :=
  klen ← (if klen <? 0 then s32 <$> (zlen <$> cstr key) else Some klen);
  if zvar_zcdb_max_key_len <? klen then (* zfatal *) None else
  let max_klen := if cb_max_klen b <? klen then klen else cb_max_klen b in
  t ← rd (cb_tables b) klen;
  let table := default (builder_table_create klen) t in
  let count := cb_count b - bt_count table in
  vlen ← (if vlen <? 0 then s32 <$> (zlen <$> cstr val) else Some vlen);
  let '(mn, mx) := length_step (cb_val_length_min b, cb_val_length_max b) vlen in
  table ← builder_table_update_token table key klen val vlen;
  count ← as_int (count + bt_count table);
  tables ← wr (cb_tables b) klen (Some table);
  Some (mk_zcdb_builder tables max_klen count mn mx (cb_data b) (cb_capability b) (cb_size b)
          (cb_cursor b) (cb_error b) (cb_over b)).

(** ** The file in memory *)
Abbreviation CB := (St zcdb_builder).
Definition set_file (b : zcdb_builder) (data : list cell) (capability size cursor : Z) : zcdb_builder :=
  mk_zcdb_builder (cb_tables b) (cb_max_klen b) (cb_count b) (cb_val_length_min b) (cb_val_length_max b)
    data capability size cursor (cb_error b) (cb_over b).
Inductive whence := SEEK_SET | SEEK_END.
Definition _zcdb_builder_fseek (offset : Z) (wh : whence) : CB unit :=
  modify (fun b =>
    let cursor := match wh with SEEK_SET => offset | SEEK_END => cb_size b - offset end in
    let cursor := if cb_size b <? cursor then cb_size b else cursor in
    let cursor := if cursor <? 0 then 0 else cursor in
    set_file b (cb_data b) (cb_capability b) (cb_size b) cursor).
Definition _zcdb_builder_ftell : CB Z := gets cb_cursor.

(** [while (capability - cursor <= need) capability *= 2]: an [int], so that the
    loop ends or overflows within 31 rounds. *)
Fixpoint grow_loop (fuel : nat) (data : list cell) (capability cursor need : Z) : option (list cell * Z) :=
  match fuel with
  | O => None
  | S fuel' =>
      if need <? capability - cursor then Some (data, capability) else
      capability ← as_int (capability * 2);
      grow_loop fuel' (zrealloc data (capability + 10)) capability cursor need
  end.
(** [size] is 1 in every call, [nmemb] the length of [ptr]. *)
Definition _zcdb_builder_fwrite (ptr : list Z) : CB Z :=
  b ← gets id;
  if cb_error b then mret (-1) else
  let need := zlen ptr in
  r ← of_option (grow_loop 32 (cb_data b) (cb_capability b) (cb_cursor b) need);
  data ← of_option (blit (fst r) (cb_cursor b) ptr);
  let cursor := cb_cursor b + need in
  modify (fun b => set_file b data (snd r) (if cb_size b <? cursor then cursor else cb_size b) cursor);;
  mret need.

(** [zint_pack(num, intbuf + off)] *)
Definition pack_at (num : Z) (intbuf : list Z) (off : nat) : option (list Z) :=
  p ← zint_pack (u32 num) (drop off intbuf); Some (take off intbuf ++ p).
(** [zint_pack(num, intbuf)] and a write of four bytes; the rest of [intbuf] is
    not read. *)
Definition put_int (num : Z) : CB Z :=
  intbuf ← of_option (pack_at num (replicate 65 0) 0);
  _zcdb_builder_fwrite (take 4 intbuf).
Definition put_zero : CB Z := _zcdb_builder_fwrite [0; 0; 0; 0].

(** ** Compiling *)
Fixpoint for_loop (n : nat) (i : Z) (body : Z -> CB unit) : CB unit :=
  match n with O => skip | S n' => body i;; for_loop n' (i + 1) body end.
Definition put_read (b : zbuf) (n : Z) : CB unit :=
  x ← of_option (zbuf_read b n); _zcdb_builder_fwrite x;; skip.
(** A chain, values of any length: keys with room for an offset, then the values. *)
Fixpoint put_heads (tbi : Z) (ch : list bnode) : CB unit :=
  match ch with
  | [] => skip
  | node :: ch' =>
      (if negb (tbi =? 0) then put_read (bn_key node) tbi else skip);;
      put_zero;;
      put_heads tbi ch'
  end.
(** A value goes to the end, its place to [cell]. *)
Definition put_value (cell : Z) (val : zbuf) : CB unit :=
  let vlen := bf_len val in
  _zcdb_builder_fseek 0 SEEK_END;;
  offset4 ← _zcdb_builder_ftell;
  r ← of_option (zcint_put vlen (replicate 65 0));
  _zcdb_builder_fwrite (take (Z.to_nat (snd r)) (fst r));;
  put_read val vlen;;
  _zcdb_builder_fseek cell SEEK_SET;;
  put_int offset4;;
  skip.
Fixpoint put_values (tbi offset3 ni : Z) (ch : list bnode) : CB unit :=
  match ch with
  | [] => skip
  | node :: ch' =>
      (if bf_len (bn_val node) =? 0 then skip else put_value (offset3 + (tbi + 4) * ni + tbi) (bn_val node));;
      put_values tbi offset3 (ni + 1) ch'
  end.
(** A chain, values of one length. *)
Fixpoint put_pairs (tbi val_length : Z) (ch : list bnode) : CB unit :=
  match ch with
  | [] => skip
  | node :: ch' =>
      (if negb (tbi =? 0) then put_read (bn_key node) tbi else skip);;
      (if negb (val_length =? 0) then put_read (bn_val node) val_length else skip);;
      put_pairs tbi val_length ch'
  end.
(** "The length varies". *)
Definition varying : Z := 536870912.
Definition compile_bucket (val_length tbi offset1 : Z) (vec : list (list bnode)) (hi : Z) : CB unit :=
  _zcdb_builder_fseek 0 SEEK_END;;
  offset2 ← _zcdb_builder_ftell;
  _zcdb_builder_fseek (offset1 + 4 * hi) SEEK_SET;;
  ch ← of_option (rd vec hi);
  match ch with
  | [] => put_zero;; skip
  | _ =>
      put_int offset2;;
      _zcdb_builder_fseek 0 SEEK_END;;
      put_int (zlen ch);;
      if val_length =? varying then
        offset3 ← _zcdb_builder_ftell;
        put_heads tbi ch;;
        put_values tbi offset3 0 ch
      else put_pairs tbi val_length ch
  end.
Definition compile_table (val_length tbi : Z) : CB unit :=
  _zcdb_builder_fseek 0 SEEK_END;;
  offset1 ← _zcdb_builder_ftell;
  if 2147483648 - 1024 * 1024 * 100 <? offset1 then (* zfatal *) undefined else
  _zcdb_builder_fseek (24 + 4 * tbi) SEEK_SET;;
  tables ← gets cb_tables;
  t ← of_option (rd tables tbi);
  match t with
  | None => put_zero;; skip
  | Some ht =>
      put_int offset1;;
      _zcdb_builder_fseek 0 SEEK_END;;
      put_int (bt_size ht);;
      offset1 ← _zcdb_builder_ftell;
      for_loop (Z.to_nat (bt_size ht)) 0 (fun _ => put_zero;; skip);;
      for_loop (Z.to_nat (bt_size ht)) 0 (compile_bucket val_length tbi offset1 (bt_vec ht))
  end.
Definition zcdb_builder_compile : CB Z :=
  b ← gets id;
  if cb_error b then mret (-1) else
  if cb_over b then mret 1 else
  modify (fun b => mk_zcdb_builder (cb_tables b) (cb_max_klen b) (cb_count b) (cb_val_length_min b)
    (cb_val_length_max b) (cb_data b) (cb_capability b) (cb_size b) (cb_cursor b) (cb_error b) true);;
  let same := cb_val_length_min b =? cb_val_length_max b in
  let val_length := if same then cb_val_length_max b else varying in
  intbuf ← of_option (
    intbuf ← pack_at (cb_count b) (str "ZCDB" ++ str "0001" ++ replicate 57 0) 12;
    intbuf ← pack_at (cb_max_klen b) intbuf 16;
    intbuf ← pack_at (if same then cb_count b else varying) intbuf 20;
    pack_at (cb_count b) intbuf 8);
  _zcdb_builder_fwrite (take 24 intbuf);;
  for_loop (Z.to_nat (cb_max_klen b + 1)) 0 (fun _ => put_zero;; skip);;
  for_loop (Z.to_nat (cb_max_klen b + 1)) 0 (compile_table val_length);;
  _zcdb_builder_fseek 0 SEEK_END;;
  dblen ← _zcdb_builder_ftell;
  _zcdb_builder_fseek 8 SEEK_SET;;
  put_int dblen;;
  _zcdb_builder_fseek 20 SEEK_SET;;
  put_int val_length;;
  b ← gets id;
  mret (if cb_error b then -1 else 1).
(** The block behind [zcdb_builder_get_compiled_data], of
    [zcdb_builder_get_compiled_len] bytes. *)
Definition compiled (b : zcdb_builder) : option (list Z) := mapM id (take (Z.to_nat (cb_size b)) (cb_data b)).
(** [put_contents] writes a file, its result is that of [zfile_put_contents]. *)
Definition zcdb_builder_build (put_contents : list Z -> Z) : CB Z :=
  r ← zcdb_builder_compile;
  if r =? 0 then mret (-1) else
  b ← gets id;
  x ← of_option (compiled b);
  mret (if put_contents x <? 1 then -1 else 1).

(** ** The reader *)
Record zcdb := mk_zcdb { cd_data : list Z; cd_max_key_length : Z; cd_val_length : Z; cd_count : Z }.
(** [zint_unpack(data + p)] *)
Definition unpack_at (data : list Z) (p : Z) : option Z :=
  if p <? 0 then None else zint_unpack (drop (Z.to_nat p) data).
Definition int_at (data : list Z) (p : Z) : option Z := s32 <$> unpack_at data p.
Definition read_at (data : list Z) (p n : Z) : option (list Z) :=
  if p <? 0 then None else read_bytes (drop (Z.to_nat p) data) n.

(** The inner option is NULL. *)
Definition _zcdb_open (data : list Z) : option (option zcdb) :=
  r ← strncmp data (str "ZCDB" ++ [0]) 4;
  if negb (r =? 0) then Some None else
  r ← strncmp (drop 4 data) (str "0001" ++ [0]) 4;
  if negb (r =? 0) then Some None else
  count ← int_at data 12;
  max_key_length ← int_at data 16;
  val_length ← int_at data 20;
  Some (Some (mk_zcdb data max_key_length val_length count)).
Definition zcdb_open_from_data (data : list Z) : option (option zcdb) := _zcdb_open data.
(** [file]: the contents [zmmap_reader_init] maps, when the file can be mapped. *)
Definition zcdb_open (file : option (list Z)) : option (option zcdb) :=
  match file with
  | None => Some None
  | Some data =>
      if zlen data <? 12 then Some None else
      file_len ← int_at data 8;
      if zlen data <? file_len then Some None else _zcdb_open data
  end.
Definition zcdb_get_count (cdb : zcdb) : Z := cd_count cdb.

(** The length in front of a value: [size] and the pointer behind it. *)
Fixpoint read_size (fuel : nat) (m : list Z) (data size shift : Z) : option (Z * Z) :=
  match fuel with
  | O => None
  | S fuel' =>
      ch ← rd m data;
      if 31 <? shift then None else
      let size := Z.lor size (s32 (Z.shiftl (Z.land ch 127) shift)) in
      if negb (Z.land ch 128 =? 0) then Some (size, data + 1)
      else read_size fuel' m (data + 1) size (shift + 7)
  end.
(** [*val] and [*vlen]: [None] is [zblank_buffer]. *)
Definition vref : Type := option Z * Z.
Definition value_of_node (cdb : zcdb) (key_p klen : Z) : option vref :=
  if cd_val_length cdb =? varying then
    offset ← int_at (cd_data cdb) (key_p + klen);
    if offset =? 0 then Some (None, 0) else
    r ← read_size (S (length (cd_data cdb))) (cd_data cdb) offset 0 0;
    Some (Some (snd r), fst r)
  else Some (Some (key_p + klen), cd_val_length cdb).

(** [while (left <= right)]: the node with the key. *)
Fixpoint find_loop (fuel : nat) (cdb : zcdb) (key : list Z) (klen data val_length left right : Z)
    : option (option Z) :=
  match fuel with
  | O => None
  | S fuel' =>
      if right <? left then Some None else
      sum ← as_int (left + right);
      let middle := sum / 2 in
      let key_p := data + middle * (klen + val_length) in
      k ← read_at (cd_data cdb) key_p klen;
      cmp_r ← memcmp key k klen;
      if cmp_r =? 0 then Some (Some key_p)
      else if cmp_r <? 0 then find_loop fuel' cdb key klen data val_length left (middle - 1)
      else find_loop fuel' cdb key klen data val_length (middle + 1) right
  end.
Definition zcdb_find (cdb : zcdb) (key : list Z) (klen : Z) : option (option vref) :=
  klen ← (if klen <? 0 then s32 <$> (zlen <$> cstr key) else Some klen);
  if cd_max_key_length cdb <? klen then Some None else
  offset ← int_at (cd_data cdb) (24 + 4 * klen);
  if offset =? 0 then Some None else
  let data := offset in
  hash_vector_size ← int_at (cd_data cdb) data;
  h ← (if negb (klen =? 0) then zhash_djb key klen else Some 0);
  if u32 hash_vector_size =? 0 then None else
  let offset := s32 (h mod u32 hash_vector_size) in
  offset ← int_at (cd_data cdb) (data + 4 + 4 * offset);
  if offset =? 0 then Some None else
  ncount ← int_at (cd_data cdb) offset;
  if ncount <? 1 then Some None else
  let val_length := if cd_val_length cdb =? varying then 4 else cd_val_length cdb in
  key_p ← find_loop (S (Z.to_nat ncount)) cdb key klen (offset + 4) val_length 0 (ncount - 1);
  match key_p with
  | None => Some None
  | Some key_p => Some <$> value_of_node cdb key_p klen
  end.

(** ** The walker *)
Record zcdb_walker := mk_zcdb_walker {
  wk_klen : Z; wk_hash_vector_data : Z; wk_hash_vector_size : Z; wk_hash_vector_i : Z;
  wk_ndata : Z; wk_ncount : Z; wk_ni : Z
}.
Definition zcdb_walker_create : zcdb_walker := mk_zcdb_walker (-1) 0 0 0 0 0 0.
Definition zcdb_walker_reset (w : zcdb_walker) : zcdb_walker := mk_zcdb_walker (-1) 0 0 0 0 0 0.
(** [*key], [*klen], and the value. *)
Definition node_ref : Type := Z * Z * vref.
Definition zcdb_walker_get_next_ok (cdb : zcdb) (data sn key_length : Z) : option node_ref :=
  let val_length := cd_val_length cdb in
  let data := data + (key_length + (if val_length =? varying then 4 else val_length)) * sn in
  v ← value_of_node cdb data key_length;
  Some (data, key_length, v).

(** The loop over the buckets of a table; [fuel] of them are left. *)
Fixpoint walk_buckets (fuel : nat) (cdb : zcdb) (w : zcdb_walker) : option (zcdb_walker * option node_ref) :=
  let '(mk_zcdb_walker klen hvd hvs hvi nd nc ni) := w in
  if negb (hvi <? hvs) then Some (w, None) else
  match fuel with
  | O => None
  | S fuel' =>
      offset ← int_at (cd_data cdb) (hvd + 4 * hvi);
      if offset =? 0 then walk_buckets fuel' cdb (mk_zcdb_walker klen hvd hvs (hvi + 1) nd nc ni) else
      '(nd, nc, ni) ← (if ni =? -1 then n ← int_at (cd_data cdb) offset; Some (offset + 4, n, 0)
                       else Some (nd, nc, ni));
      if ni <? nc then
        e ← zcdb_walker_get_next_ok cdb nd ni klen;
        Some (mk_zcdb_walker klen hvd hvs hvi nd nc (ni + 1), Some e)
      else walk_buckets fuel' cdb (mk_zcdb_walker klen hvd hvs (hvi + 1) nd nc (-1))
  end.
(** The loop over the key lengths. *)
Fixpoint walk_tables (fuel : nat) (cdb : zcdb) (w : zcdb_walker) : option (zcdb_walker * option node_ref) :=
  let '(mk_zcdb_walker klen hvd hvs hvi nd nc ni) := w in
  if negb (klen <=? cd_max_key_length cdb) then
    Some (mk_zcdb_walker (-2) hvd hvs hvi nd nc ni, None)
  else
  match fuel with
  | O => None
  | S fuel' =>
      offset ← int_at (cd_data cdb) (24 + 4 * klen);
      if offset =? 0 then walk_tables fuel' cdb (mk_zcdb_walker (klen + 1) hvd hvs hvi nd nc ni) else
      w ← (if hvi =? -1 then
             size ← int_at (cd_data cdb) offset;
             Some (mk_zcdb_walker klen (offset + 4) size 0 nd nc (-1))
           else Some w);
      r ← walk_buckets (Z.to_nat (wk_hash_vector_size w)) cdb w;
      match r with
      | (w, Some e) => Some (w, Some e)
      | (mk_zcdb_walker klen hvd hvs hvi nd nc ni, None) =>
          walk_tables fuel' cdb (mk_zcdb_walker (klen + 1) hvd hvs (-1) nd nc ni)
      end
  end.
Definition zcdb_walker_walk (cdb : zcdb) (w : zcdb_walker) : option (zcdb_walker * option node_ref) :=
  if wk_klen w =? -2 then Some (w, None) else
  let w := if wk_klen w =? -1 then
             mk_zcdb_walker 0 (wk_hash_vector_data w) (wk_hash_vector_size w) (-1) (wk_ndata w) (wk_ncount w) (-1)
           else w in
  walk_tables (S (Z.to_nat (cd_max_key_length cdb))) cdb w.
