(* ===== verification/CdbBuild.v ===== *)
(** * Constant databases: the tables of the builder and the map they hold *)
From stdpp Require Import gmap sorting.
From S2P Require Import Prelude Buf Crc Rbset Maps StateMonad Cdb.

(** An entry: a key and its value. *)
Abbreviation entry := (list Z * list Z)%type.

Lemma elem_of_concat {A} (x : A) (ls : list (list A)) : x ∈ concat ls <-> exists l, x ∈ l /\ l ∈ ls.
Proof.
  induction ls as [|l ls IH]; simpl.
  - split; [by intros ?%elem_of_nil|by intros (l & _ & ?%elem_of_nil)].
  - rewrite elem_of_app, IH. split.
    + intros [H|(l' & ? & ?)]; [exists l; split; [done|by left]|exists l'; split; [done|by right]].
    + intros (l' & H & [->|H']%elem_of_cons); [by left|right; by exists l'].
Qed.

(** ** Nodes and chains *)
Definition node_rep (n : bnode) (e : entry) : Prop := rep None (bn_key n) e.1 /\ rep None (bn_val n) e.2.
Definition key_lt (d e : entry) : Prop := strcmp d.1 e.1 < 0.
Abbreviation chain_ok := (StronglySorted key_lt).

Lemma read_bytes_self (x : list Z) n : n = zlen x -> read_bytes x n = Some x.
Proof.
  intros ->. unfold read_bytes. destruct (Z.leb_spec (zlen x) (zlen x)); [|lia].
  by rewrite zlen_to_nat, firstn_all.
Qed.
Lemma read_bytes_len m n (x : list Z) : read_bytes m n = Some x -> 0 <= n -> zlen x = n.
Proof.
  unfold read_bytes. destruct (Z.leb_spec n (zlen m)); [|done]. intros [= <-] ?.
  by apply zlen_take.
Qed.
Lemma zbuf_read_rep b (x : list Z) n : rep None b x -> n = zlen x -> zbuf_read b n = Some x.
Proof.
  intros [_ [r E] _ _ _ _ _ _] ->. unfold zbuf_read. rewrite E, zlen_to_nat.
  destruct (Z.leb_spec (zlen x) (zlen ((Some <$> x) ++ r))); [|zlia].
  apply read_cells.
Qed.
Lemma memcmp_read a b n x y : read_bytes a n = Some x -> read_bytes b n = Some y ->
  memcmp a b n = Some (strcmp x y).
Proof. unfold memcmp. by intros -> ->. Qed.

Section chain.
Context (key k : list Z) (klen : Z).
Hypothesis Hkey : read_bytes key klen = Some k.
Hypothesis Hklen : 0 <= klen.

Lemma chain_walk_spec ch : forall b, Forall2 node_rep ch b -> Forall (fun e => zlen e.1 = klen) b -> chain_ok b ->
  exists passed rest found b1 b2, chain_walk key klen ch = Some (passed, rest, found) /\
    b = b1 ++ b2 /\ Forall2 node_rep passed b1 /\ Forall2 node_rep rest b2 /\
    Forall (fun e => strcmp e.1 k < 0) b1 /\
    if found : bool then exists v b2', b2 = (k, v) :: b2' else Forall (fun e => strcmp k e.1 < 0) b2.
Proof using Hkey Hklen.
  induction ch as [|n ch IH]; intros b Hb Hl Ho.
  { inversion_clear Hb. exists [], [], false, [], []. simpl. repeat split; constructor. }
  inversion Hb as [|? e ? b' He Hb']; subst. inversion_clear Hl as [|? ? Hle Hl'].
  apply StronglySorted_inv in Ho as [Ho' Hfst]. cbn [chain_walk]. destruct He as [Hek Hev].
  rewrite (zbuf_read_rep _ e.1 klen Hek) by done. cbn [mbind option_bind].
  rewrite (memcmp_read key e.1 klen k e.1) by (done || by apply read_bytes_self). cbn [mbind option_bind].
  destruct (Z.eqb_spec (strcmp k e.1) 0) as [Heq|Hne].
  { apply strcmp_eq_iff in Heq. exists [], (n :: ch), true, [], (e :: b').
    repeat split; try done. exists e.2, b'. rewrite Heq. by destruct e. }
  destruct (Z.ltb_spec (strcmp k e.1) 0) as [Hlt|Hge].
  - exists [], (n :: ch), false, [], (e :: b'). repeat split; try done.
    constructor; [done|]. eapply Forall_impl; [exact Hfst|]. intros d Hd. by eapply strcmp_lt_trans.
  - destruct (IH b' Hb' Hl' Ho') as (passed & rest & found & b1 & b2 & -> & -> & Hp & Hr & Hlt & Hf).
    exists (n :: passed), rest, found, (e :: b1), b2. repeat split; try done; [by constructor|].
    constructor; [|done]. rewrite (strcmp_opp k). lia.
Qed.
End chain.

Lemma chain_ok_app b1 b2 : chain_ok (b1 ++ b2) <->
  chain_ok b1 /\ chain_ok b2 /\ (forall d e, d ∈ b1 -> e ∈ b2 -> key_lt d e).
Proof.
  induction b1 as [|d b1 IH]; simpl.
  { split; [intros; repeat split; [constructor|done|by intros ? ? ?%elem_of_nil]|by intros (_ & ? & _)]. }
  split.
  - intros [Hs Hd]%StronglySorted_inv. apply IH in Hs as (H1 & H2 & H3).
    rewrite Forall_app, !Forall_forall in Hd. destruct Hd as [Hd1 Hd2].
    split; [constructor; [done|by rewrite Forall_forall]|]. split; [done|].
    intros x y [->|Hx]%elem_of_cons Hy; [by apply Hd2|by apply H3].
  - intros ([H1 Hd]%StronglySorted_inv & H2 & H3). constructor.
    + apply IH. split; [done|]. split; [done|]. intros. apply H3; [by right|done].
    + rewrite Forall_app. split; [done|]. rewrite Forall_forall. intros y Hy. apply H3; [by left|done].
Qed.
Lemma chain_insert b1 b2 k v : chain_ok (b1 ++ b2) -> Forall (fun e => strcmp e.1 k < 0) b1 ->
  Forall (fun e => strcmp k e.1 < 0) b2 -> chain_ok (b1 ++ (k, v) :: b2).
Proof.
  rewrite !chain_ok_app, !Forall_forall. intros (H1 & H2 & H12) Hb1 Hb2. split; [done|].
  split; [constructor; [done|by rewrite Forall_forall]|].
  intros d e Hd [->|He]%elem_of_cons; [by apply Hb1|by apply H12].
Qed.
Lemma chain_replace b1 b2 k v w : chain_ok (b1 ++ (k, v) :: b2) -> chain_ok (b1 ++ (k, w) :: b2).
Proof.
  rewrite !chain_ok_app. intros (H1 & [H2 Hk]%StronglySorted_inv & H12).
  split; [done|]. split; [by constructor|]. intros d e Hd [->|He]%elem_of_cons.
  - apply (H12 d (k, v)); [done|by left].
  - apply H12; [done|by right].
Qed.
Lemma chain_keys b : chain_ok b -> NoDup b.*1.
Proof.
  induction 1 as [|e b _ IH He]; simpl; constructor; [|done]. intros (d & Hd & Hin)%list_elem_of_fmap.
  rewrite Forall_forall in He. specialize (He d Hin). unfold key_lt in He. rewrite <- Hd in He.
  rewrite (proj2 (strcmp_eq_iff e.1 e.1) eq_refl) in He. lia.
Qed.

(** ** Buckets *)
Definition djb (k : list Z) : Z := foldl djb_byte 5381 k.
Lemma djb_nonneg k : bytes_ok k -> 0 <= djb k.
Proof.
  unfold djb. assert (Hgo : forall h, 0 <= h -> bytes_ok k -> 0 <= foldl djb_byte h k); [|intros; by apply Hgo].
  induction k as [|c k IH]; intros h Hh Hk; simpl; [done|]. inversion_clear Hk as [|? ? Hc Hk'].
  apply IH; [|done]. apply Z.lxor_nonneg. unfold byte_ok in Hc.
  pose proof (uwrap_range 32 (h + u32 (Z.shiftl h 5))). lia.
Qed.
Lemma zhash_djb_read key klen k : read_bytes key klen = Some k -> zhash_djb key klen = Some (djb k).
Proof. unfold zhash_djb, zhash_djb_with_initial, djb. by intros ->. Qed.

(** A vector of chains that holds the buckets [bs]; [klen] is the length of all keys. *)
Record vec_rep (klen : Z) (vec : list (list bnode)) (bs : list (list entry)) : Prop := {
  vr_nodes : Forall2 (Forall2 node_rep) vec bs;
  vr_chains : Forall chain_ok bs;
  vr_keys : Forall (Forall (fun e => zlen e.1 = klen /\ bytes_ok e.1)) bs;
  vr_place : forall i b e, bs !! i = Some b -> e ∈ b -> djb e.1 mod zlen bs = Z.of_nat i
}.

Lemma vec_rep_len klen vec bs : vec_rep klen vec bs -> zlen vec = zlen bs.
Proof. intros [H _ _ _]. unfold zlen. by rewrite (Forall2_length _ _ _ H). Qed.

(** The bucket of a key, and what a change of its chain does. *)
Lemma vec_bucket klen vec bs k : vec_rep klen vec bs -> bytes_ok k -> 0 < zlen bs ->
  exists ch b l1 l2, rd vec (djb k mod zlen bs) = Some ch /\ bs = l1 ++ b :: l2 /\
    Forall2 node_rep ch b /\ chain_ok b /\ Forall (fun e => zlen e.1 = klen /\ bytes_ok e.1) b /\
    (k ∉ (concat l1).*1) /\ (k ∉ (concat l2).*1) /\
    forall ch' b', Forall2 node_rep ch' b' -> chain_ok b' ->
      Forall (fun e => zlen e.1 = klen /\ bytes_ok e.1 /\ (e.1 = k \/ e.1 ∈ b.*1)) b' ->
      exists vec', wr vec (djb k mod zlen bs) ch' = Some vec' /\ vec_rep klen vec' (l1 ++ b' :: l2).
Proof.
  intros [Hn Hc Hk Hp] Hkb Hs. set (h := djb k mod zlen bs).
  assert (Hh : 0 <= h < zlen bs) by (apply Z.mod_pos_bound; lia).
  destruct (lookup_lt_is_Some_2 bs (Z.to_nat h)) as [b Hb]; [unfold zlen in Hh; lia|].
  destruct (Forall2_lookup_r _ _ _ _ _ Hn Hb) as (ch & Hch & Hchb).
  assert (Hrd : rd vec h = Some ch) by (unfold rd; by destruct (Z.ltb_spec h 0); [lia|]).
  apply list_elem_of_split_length in Hb as Hsplit. destruct Hsplit as (l1 & l2 & Ebs & Hl1).
  assert (Hother : forall i b' , bs !! i = Some b' -> k ∈ b'.*1 -> i = Z.to_nat h).
  { intros i b' Hi ([k' v] & -> & Hin)%list_elem_of_fmap. pose proof (Hp i b' _ Hi Hin) as E. cbn in E.
    unfold h. cbn. lia. }
  assert (Hnot : forall l1' b' l2', bs = l1' ++ b' :: l2' -> length l1' <> Z.to_nat h -> k ∉ b'.*1).
  { intros l1' b' l2' E Hne Hin. apply Hne, (Hother _ b'); [|done]. rewrite E. by apply list_lookup_middle. }
  exists ch, b, l1, l2. split; [done|]. split; [done|]. split; [done|].
  split; [by eapply (Forall_lookup_1 _ _ _ _ Hc)|]. split; [by eapply (Forall_lookup_1 _ _ _ _ Hk)|].
  split; [|split].
  - intros (e & E & (b' & Hin & Hb')%elem_of_concat)%list_elem_of_fmap.
    apply list_elem_of_split in Hb' as (x & y & ->).
    apply (Hnot x b' (y ++ b :: l2)); [by rewrite Ebs, <- app_assoc| |].
    + rewrite Hl1, length_app. simpl. lia.
    + apply list_elem_of_fmap. by exists e.
  - intros (e & E & (b' & Hin & Hb')%elem_of_concat)%list_elem_of_fmap.
    apply list_elem_of_split in Hb' as (x & y & ->).
    apply (Hnot (l1 ++ b :: x) b' y); [by rewrite Ebs, <- app_assoc| |].
    + rewrite Hl1, length_app. simpl. lia.
    + apply list_elem_of_fmap. by exists e.
  - intros ch' b' Hcb Hco Hall. exists (<[Z.to_nat h := ch']> vec).
    assert (Hlen : zlen vec = zlen bs) by (unfold zlen; by rewrite (Forall2_length _ _ _ Hn)).
    split; [apply wr_Some; lia|].
    assert (Ebs' : l1 ++ b' :: l2 = <[Z.to_nat h := b']> bs).
    { rewrite Ebs, Hl1, <- (Nat.add_0_r (length l1)), insert_app_r. done. }
    rewrite Ebs'. rewrite Forall_forall in Hall. split.
    + by apply Forall2_insert.
    + by apply Forall_insert.
    + apply Forall_insert; [done|]. rewrite Forall_forall. intros e He. by destruct (Hall e He) as (? & ? & _).
    + intros i b'' e Hi He. rewrite zlen_insert.
      apply list_lookup_insert_Some in Hi as [(<- & -> & _)|[_ Hi]]; [|by eapply Hp].
      rewrite Z2Nat.id by lia. destruct (Hall e He) as (_ & _ & [->|Hin]); [done|].
      apply list_elem_of_fmap in Hin as (d & -> & Hd).
      rewrite (Hp (Z.to_nat h) b d); [lia| |done]. rewrite Ebs. by apply list_lookup_middle.
Qed.

(** [E'] is [E] with the entry of [k] set to [v]. *)
Definition updated (k v : list Z) (E E' : list entry) : Prop :=
  exists F, (k ∉ F.*1) /\ (E ≡ₚ F \/ exists old, E ≡ₚ (k, old) :: F) /\ E' ≡ₚ (k, v) :: F.
Lemma updated_app k v A B E E' : (k ∉ A.*1) -> (k ∉ B.*1) -> updated k v E E' ->
  updated k v (A ++ E ++ B) (A ++ E' ++ B).
Proof.
  intros HA HB (F & HF & Hold & Hnew). exists (F ++ A ++ B). repeat split.
  - rewrite !fmap_app, !elem_of_app. tauto.
  - destruct Hold as [H|(old & H)]; [left|right; exists old]; rewrite H; solve_Permutation.
  - rewrite Hnew. solve_Permutation.
Qed.

(** Walking the chain of a key, and storing into it. *)
Lemma vec_store klen vec bs key k : vec_rep klen vec bs -> 0 <= klen -> 0 < zlen bs ->
  read_bytes key klen = Some k -> bytes_ok k ->
  exists ch passed rest found, zhash_djb key klen = Some (djb k) /\
    rd vec (djb k mod zlen bs) = Some ch /\ chain_walk key klen ch = Some (passed, rest, found) /\
    if found : bool then
      exists n rest' old, rest = n :: rest' /\ node_rep n (k, old) /\ (k ∈ (concat bs).*1) /\
      forall n' v, node_rep n' (k, v) -> exists vec' bs',
        wr vec (djb k mod zlen bs) (passed ++ n' :: rest') = Some vec' /\ vec_rep klen vec' bs' /\
        zlen bs' = zlen bs /\ zlen (concat bs') = zlen (concat bs) /\ updated k v (concat bs) (concat bs')
    else (k ∉ (concat bs).*1) /\ forall n' v, node_rep n' (k, v) -> exists vec' bs',
        wr vec (djb k mod zlen bs) (passed ++ n' :: rest) = Some vec' /\ vec_rep klen vec' bs' /\
        zlen bs' = zlen bs /\ concat bs' ≡ₚ (k, v) :: concat bs.
Proof.
  intros Hv Hkl Hs Hkey Hkb.
  destruct (vec_bucket klen vec bs k Hv Hkb Hs) as (ch & b & l1 & l2 & Hrd & -> & Hch & Ho & Hall & Hn1 & Hn2 & Hput).
  destruct (chain_walk_spec key k klen Hkey Hkl ch b Hch) as
    (passed & rest & found & b1 & b2 & Hw & -> & Hp & Hr & Hlt & Hf); [|done|].
  { eapply Forall_impl; [exact Hall|]. by intros ? []. }
  exists ch, passed, rest, found. split; [by apply zhash_djb_read|]. split; [done|]. split; [done|].
  pose proof (read_bytes_len _ _ _ Hkey Hkl) as Hk.
  assert (Hb1 : k ∉ b1.*1).
  { rewrite list_elem_of_fmap. intros (e & -> & He). rewrite Forall_forall in Hlt. specialize (Hlt e He).
    rewrite (proj2 (strcmp_eq_iff e.1 e.1) eq_refl) in Hlt. lia. }
  assert (Hkeep : Forall (fun e => zlen e.1 = klen /\ bytes_ok e.1 /\ (e.1 = k \/ e.1 ∈ (b1 ++ b2).*1)) (b1 ++ b2)).
  { rewrite Forall_forall in *. intros e He. destruct (Hall e He). split; [done|]. split; [done|]. right.
    apply list_elem_of_fmap. by exists e. }
  destruct found.
  - destruct Hf as (old & b2' & ->). inversion Hr as [|n ? rest' ? Hn Hr']; subst.
    exists n, rest', old. split; [done|]. split; [done|]. split.
    { rewrite concat_app. simpl. rewrite !fmap_app. simpl. set_solver. }
    intros n' v Hn'. destruct (Hput (passed ++ n' :: rest') (b1 ++ (k, v) :: b2')) as (vec' & Hwr & Hv').
    + apply Forall2_app; [done|]. by constructor.
    + by eapply chain_replace.
    + rewrite Forall_app, Forall_cons in Hkeep |- *. destruct Hkeep as (? & ? & ?).
      rewrite !fmap_app, !fmap_cons in *. cbn. split; [done|]. split; [by split; [|split; [|left]]|done].
    + exists vec', (l1 ++ (b1 ++ (k, v) :: b2') :: l2). split; [done|]. split; [done|].
      rewrite !concat_app. cbn [concat]. split; [zlia|]. split; [zlia|]. apply updated_app; [done..|].
      exists (b1 ++ b2'). split.
      * apply chain_keys in Ho. rewrite fmap_app, fmap_cons in Ho. rewrite fmap_app, elem_of_app.
        apply NoDup_app in Ho as (_ & Hd & [? _]%NoDup_cons). cbn in *. tauto.
      * split; [right; exists old|]; solve_Permutation.
  - assert (Hb2 : k ∉ b2.*1).
    { rewrite list_elem_of_fmap. intros (e & -> & He). rewrite Forall_forall in Hf. specialize (Hf e He).
      rewrite (proj2 (strcmp_eq_iff e.1 e.1) eq_refl) in Hf. lia. }
    split. { rewrite concat_app. simpl. rewrite !fmap_app, !elem_of_app. tauto. }
    intros n' v Hn'. destruct (Hput (passed ++ n' :: rest) (b1 ++ (k, v) :: b2)) as (vec' & Hwr & Hv').
    + apply Forall2_app; [done|]. by constructor.
    + by apply chain_insert.
    + rewrite Forall_app, Forall_cons in *. destruct Hkeep. split; [done|].
      split; [by split; [|split; [|left]]|done].
    + exists vec', (l1 ++ (b1 ++ (k, v) :: b2) :: l2). split; [done|]. split; [done|].
      rewrite !concat_app. cbn [concat]. split; [zlia|]. solve_Permutation.
Qed.

(** ** Growing a table *)
Lemma rehash_node_spec klen vec bs n e : vec_rep klen vec bs -> 0 <= klen -> 0 < zlen bs ->
  node_rep n e -> zlen e.1 = klen -> bytes_ok e.1 -> (e.1 ∉ (concat bs).*1) ->
  runs (rehash_node klen (zlen bs) vec n) (fun vec' => exists bs', vec_rep klen vec' bs' /\
    zlen bs' = zlen bs /\ concat bs' ≡ₚ e :: concat bs).
Proof.
  intros Hv Hkl Hs [Hk Hval] Hl Hb Hnew. unfold rehash_node. rewrite (zbuf_read_rep _ e.1) by done.
  destruct (vec_store klen vec bs e.1 e.1 Hv Hkl Hs) as (ch & passed & rest & found & Hd & Hrd & Hw & Hf);
    [by apply read_bytes_self|done|].
  cbn [mbind option_bind]. rewrite Hd. cbn [mbind option_bind]. rewrite Hrd. cbn [mbind option_bind]. rewrite Hw.
  cbn [mbind option_bind]. destruct found.
  - by destruct Hf as (? & ? & ? & _ & _ & ? & _).
  - destruct Hf as [_ Hf]. destruct (Hf n e.2) as (vec' & bs' & Hwr & ? & ? & Hp); [by split|].
    rewrite Hwr. apply runs_ret. exists bs'. split; [done|]. split; [done|]. by destruct e.
Qed.
Lemma rehash_chain_spec klen ch : forall b vec bs, Forall2 node_rep ch b -> vec_rep klen vec bs -> 0 <= klen ->
  0 < zlen bs -> Forall (fun e => zlen e.1 = klen /\ bytes_ok e.1) b -> NoDup (b ++ concat bs).*1 ->
  runs (rehash_chain klen (zlen bs) vec ch) (fun vec' => exists bs', vec_rep klen vec' bs' /\
    zlen bs' = zlen bs /\ concat bs' ≡ₚ b ++ concat bs).
Proof.
  induction ch as [|n ch IH]; intros b vec bs Hb Hv Hkl Hs Hall Hnd; inversion Hb as [|? e ? b' He Hb']; subst.
  { apply runs_ret. by exists bs. }
  cbn [rehash_chain]. inversion_clear Hall as [|? ? [Hl Hok] Hall'].
  rewrite <- app_comm_cons, fmap_cons in Hnd. apply NoDup_cons in Hnd as [Hne Hnd].
  eapply runs_bind.
  { apply (rehash_node_spec klen vec bs n e); try done. rewrite fmap_app, elem_of_app in Hne. tauto. }
  intros vec' (bs' & Hv' & Hz & Hp). rewrite <- Hz. eapply runs_mono.
  { apply (IH b'); try done; [lia|]. rewrite fmap_app in *. rewrite Hp, fmap_cons.
    rewrite (Permutation_app_comm b'.*1). cbn. rewrite (Permutation_app_comm _ b'.*1). by constructor. }
  intros vec'' (bs'' & ? & ? & Hp'). exists bs''. split; [done|]. split; [lia|]. rewrite Hp', Hp. solve_Permutation.
Qed.
Lemma rehash_loop_spec klen olds : forall obs vec bs, Forall2 (Forall2 node_rep) olds obs -> vec_rep klen vec bs ->
  0 <= klen -> 0 < zlen bs -> Forall (Forall (fun e => zlen e.1 = klen /\ bytes_ok e.1)) obs ->
  NoDup (concat obs ++ concat bs).*1 ->
  runs (rehash_loop klen (zlen bs) vec olds) (fun vec' => exists bs', vec_rep klen vec' bs' /\
    zlen bs' = zlen bs /\ concat bs' ≡ₚ concat obs ++ concat bs).
Proof.
  induction olds as [|ch olds IH]; intros obs vec bs Ho Hv Hkl Hs Hall Hnd; inversion Ho as [|? b ? obs' Hb Ho']; subst.
  { apply runs_ret. by exists bs. }
  cbn [rehash_loop concat] in *. inversion_clear Hall as [|? ? Hab Hall'].
  rewrite <- app_assoc in Hnd.
  assert (Hnd2 : NoDup (concat obs' ++ b ++ concat bs).*1).
  { by rewrite (Permutation_app_swap_app (concat obs') b). }
  eapply runs_bind.
  { apply (rehash_chain_spec klen ch b vec bs); try done. rewrite fmap_app in Hnd2. by apply NoDup_app in Hnd2 as (_ & _ & ?). }
  intros vec' (bs' & Hv' & Hz & Hp). rewrite <- Hz. eapply runs_mono.
  { apply (IH obs'); try done; [lia|]. by rewrite Hp. }
  intros vec'' (bs'' & ? & ? & Hp'). exists bs''. split; [done|]. split; [lia|]. rewrite Hp', Hp. solve_Permutation.
Qed.

(** ** Tables *)
Record table_rep (klen : Z) (t : btable) (bs : list (list entry)) : Prop := {
  tr_vec : vec_rep klen (bt_vec t) bs;
  tr_size : bt_size t = zlen bs;
  tr_klen : bt_klen t = klen;
  tr_count : bt_count t = zlen (concat bs);
  tr_nodup : NoDup (concat bs).*1;
  tr_slots : 3 <= zlen bs <= 2 * zlen (concat bs) + 3
}.

Lemma in_bytes_read m n : 0 <= n -> in_bytes m n = read_bytes m n.
Proof. unfold in_bytes, read_bytes. by destruct (Z.ltb_spec n 0); [lia|]. Qed.
Lemma updated_new k v E E' : (k ∉ E.*1) -> E' ≡ₚ (k, v) :: E -> updated k v E E'.
Proof. intros Hk HE. exists E. split; [done|]. split; [by left|done]. Qed.
Lemma updated_nodup k v E E' : updated k v E E' -> NoDup E.*1 -> NoDup E'.*1.
Proof.
  intros (F & HF & Hold & ->) Hnd. rewrite fmap_cons. constructor; [done|].
  destruct Hold as [<-|(old & Hp)]; [done|]. rewrite Hp, fmap_cons in Hnd. by apply NoDup_cons in Hnd as [_ ?].
Qed.
Lemma empty_vec_rep klen n : vec_rep klen (replicate n []) (replicate n []).
Proof.
  split.
  - apply Forall2_replicate. constructor.
  - apply Forall_replicate. constructor.
  - apply Forall_replicate. constructor.
  - intros i b e [-> _]%lookup_replicate He. by apply elem_of_nil in He.
Qed.
Lemma concat_empty {A} n : concat (replicate n (@nil A)) = [].
Proof. by induction n. Qed.

Lemma table_create_rep klen : table_rep klen (builder_table_create klen) (replicate 3 []).
Proof. split; cbn; try done; [apply (empty_vec_rep klen 3)|apply NoDup_nil_2]. Qed.

Lemma reset_hash_node_size_spec klen t bs size : vec_rep klen (bt_vec t) bs -> bt_klen t = klen -> 0 <= klen ->
  NoDup (concat bs).*1 -> 0 < size ->
  runs (builder_table_reset_hash_node_size t size) (fun t' => exists bs', vec_rep klen (bt_vec t') bs' /\
    bt_size t' = size /\ zlen bs' = size /\ bt_klen t' = klen /\ bt_count t' = bt_count t /\ concat bs' ≡ₚ concat bs).
Proof.
  intros Hv Hk Hkl Hnd Hs. unfold builder_table_reset_hash_node_size. rewrite Hk.
  assert (Hz : zlen (replicate (Z.to_nat size) (@nil entry)) = size) by (rewrite zlen_replicate; lia).
  pose proof (rehash_loop_spec klen (bt_vec t) bs (replicate (Z.to_nat size) []) (replicate (Z.to_nat size) [])) as Hr.
  rewrite Hz, concat_empty, app_nil_r in Hr. eapply runs_bind.
  { apply Hr; [apply Hv|apply empty_vec_rep|done|done|apply Hv|done]. }
  intros vec (bs' & Hv' & Hz' & Hp). apply runs_ret. exists bs'. cbn. done.
Qed.

Lemma fresh_buffer (src x : list Z) : in_bytes src (zlen x) = Some x -> bytes_ok x -> zlen x + 2 < 2 ^ 29 ->
  runs (b ← zbuf_init (zlen x); zbuf_memcpy b src (zlen x)) (fun b => rep None b x).
Proof.
  intros Hin Hb Hl. zlen_facts. eapply runs_bind; [apply (zbuf_create_holds (zlen x)); lia|]. intros b [Hb0 _].
  eapply runs_mono; [eapply (zbuf_memcpy_holds None b [] src (zlen x) x Hb0)|by intros ? []];
    unfold int_max; try done; simpl; lia.
Qed.

Lemma table_new_node_spec klen t bs key val k v thash passed rest : table_rep klen t bs -> 0 <= klen ->
  klen + 2 < 2 ^ 29 -> read_bytes key klen = Some k -> bytes_ok k -> in_bytes val (zlen v) = Some v -> bytes_ok v ->
  zlen v + 2 < 2 ^ 29 -> zlen (concat bs) < 2 ^ 29 -> (k ∉ (concat bs).*1) ->
  (forall n' v, node_rep n' (k, v) -> exists vec' bs', wr (bt_vec t) thash (passed ++ n' :: rest) = Some vec' /\
     vec_rep klen vec' bs' /\ zlen bs' = zlen bs /\ concat bs' ≡ₚ (k, v) :: concat bs) ->
  runs (builder_table_new_node t thash key klen val (zlen v) passed rest) (fun t' => exists bs', table_rep klen t' bs' /\
    updated k v (concat bs) (concat bs')).
Proof.
  intros [Hv Hsz Hkn Hcnt Hnd Hsl] Hkl Hklb Hkey Hkb Hval Hvb Hvl Hmany Hnew Hput. zlen_facts.
  pose proof (read_bytes_len _ _ _ Hkey Hkl) as <-. unfold builder_table_new_node.
  rewrite Hcnt, as_int_Some by lia. cbn [mbind option_bind].
  destruct (fresh_buffer key k) as (kb & Ek & Hk); [by rewrite in_bytes_read by lia|done|lia|].
  destruct (fresh_buffer val v) as (vb & Ev & Hvr); [done..|].
  destruct (zbuf_init (zlen k)) as [kb0|]; [|done]. cbn [mbind option_bind] in *. rewrite Ek. cbn [mbind option_bind].
  destruct (zbuf_init (zlen v)) as [vb0|]; [|done]. cbn [mbind option_bind] in *. rewrite Ev. cbn [mbind option_bind].
  destruct (Hput (mk_bnode kb vb) v) as (vec & bs' & -> & Hv' & Hz & Hp); [by split|]. cbn [mbind option_bind bt_size].
  assert (Hnd' : NoDup (concat bs').*1) by (rewrite Hp, fmap_cons; by constructor).
  assert (Hzc : zlen (concat bs') = zlen (concat bs) + 1) by (unfold zlen; rewrite Hp; cbn; lia).
  rewrite Hsz. destruct (Z.ltb_spec (zlen bs) (zlen (concat bs) + 1)).
  - rewrite as_int_Some by lia. cbn [mbind option_bind]. eapply runs_mono.
    { apply (reset_hash_node_size_spec (zlen k) _ bs'); cbn; try done; lia. }
    intros t' (bs'' & Hv'' & ? & ? & ? & Hc'' & Hp''). exists bs''.
    assert (zlen (concat bs'') = zlen (concat bs')) by (unfold zlen; by rewrite Hp'').
    split; [split; try done; cbn in *; try lia; by rewrite Hp''|]. apply updated_new; [done|by rewrite Hp'', Hp].
  - apply runs_ret. exists bs'. split; [|by apply updated_new]. split; cbn; try done; lia.
Qed.
Lemma table_update_spec klen t bs key val k v : table_rep klen t bs -> 0 <= klen -> klen + 2 < 2 ^ 29 ->
  read_bytes key klen = Some k -> bytes_ok k -> in_bytes val (zlen v) = Some v -> bytes_ok v ->
  zlen v + 2 < 2 ^ 29 -> zlen (concat bs) < 2 ^ 29 ->
  runs (builder_table_update_token t key klen val (zlen v)) (fun t' => exists bs', table_rep klen t' bs' /\
    updated k v (concat bs) (concat bs')).
Proof.
  intros Ht Hkl Hklb Hkey Hkb Hval Hvb Hvl Hmany. pose proof Ht as [Hv Hsz Hkn Hcnt Hnd Hsl].
  destruct (vec_store klen (bt_vec t) bs key k Hv Hkl) as (ch & passed & rest & found & Hd & Hrd & Hw & Hf);
    [lia|done|done|]. zlen_facts. unfold builder_table_update_token. rewrite Hd. cbn [mbind option_bind].
  rewrite Hsz, Hrd. cbn [mbind option_bind]. rewrite Hw. cbn [mbind option_bind]. destruct found.
  - destruct Hf as (n & rest' & old & -> & [Hnk Hnv] & _ & Hput). eapply runs_bind.
    { eapply (zbuf_memcpy_holds None _ old val (zlen v) v Hnv); unfold int_max; try done; simpl; lia. }
    intros vb [Hvb' _]. destruct (Hput (mk_bnode (bn_key n) vb) v) as (vec & bs' & -> & Hv' & Hz & Hzc & Hu); [by split|].
    apply runs_ret. exists bs'. split; [|done]. split; cbn; try done; try lia. by eapply updated_nodup.
  - destruct Hf as [Hnew Hput]. pose proof (table_new_node_spec klen t bs key val k v _ passed rest Ht Hkl Hklb Hkey
      Hkb Hval Hvb Hvl Hmany Hnew Hput). by destruct rest.
Qed.

(** ** The builder *)

(** [abs] holds the buckets of the tables, one list for each key length, [[]]
    where there is no table. *)
Definition table_at (klen : nat) (t : option btable) (bs : list (list entry)) : Prop :=
  match t with None => bs = [] | Some t => table_rep (Z.of_nat klen) t bs /\ concat bs <> [] end.
Definition entries (abs : list (list (list entry))) : list entry := concat (concat abs).
Record builder_rep (b : zcdb_builder) (abs : list (list (list entry))) (m : gmap (list Z) (list Z)) : Prop := {
  br_len : zlen (cb_tables b) = zvar_zcdb_max_key_len + 1;
  br_abs : zlen abs = zvar_zcdb_max_key_len + 1;
  br_tables : forall i t bs, cb_tables b !! i = Some t -> abs !! i = Some bs -> table_at i t bs;
  br_entries : entries abs ≡ₚ map_to_list m;
  br_count : cb_count b = Z.of_nat (size m);
  br_max : 0 <= cb_max_klen b <= zvar_zcdb_max_key_len;
  br_keys : map_Forall (fun k v => zlen k <= cb_max_klen b /\ bytes_ok k /\ bytes_ok v /\ zlen v + 2 < 2 ^ 29) m
}.

Lemma updated_map (k v : list Z) (E E' : list entry) (m : gmap (list Z) (list Z)) : E ≡ₚ map_to_list m -> updated k v E E' ->
  E' ≡ₚ map_to_list (<[k := v]> m).
Proof.
  intros HE (F & HF & Hold & ->). assert (HF' : F ≡ₚ map_to_list (delete k m)).
  { destruct Hold as [Hp|(old & Hp)]; rewrite HE in Hp.
    - rewrite delete_id; [done|]. apply eq_None_not_Some. intros [w Hw%elem_of_map_to_list].
      rewrite Hp in Hw. apply HF, list_elem_of_fmap. by exists (k, w).
    - assert (Hk : m !! k = Some old) by (apply elem_of_map_to_list; rewrite Hp; by left).
      apply (Permutation_cons_inv (a := (k, old))). by rewrite <- Hp, map_to_list_delete. }
  rewrite HF', <- insert_delete_eq, map_to_list_insert; [done|apply lookup_delete_eq].
Qed.
Lemma entries_app a b : entries (a ++ b) = entries a ++ entries b.
Proof. unfold entries. by rewrite !concat_app. Qed.
Lemma entries_cons bs a : entries (bs :: a) = concat bs ++ entries a.
Proof. unfold entries. cbn. by rewrite concat_app. Qed.
Lemma entries_len (abs : list (list (list entry))) (m : gmap (list Z) (list Z)) : entries abs ≡ₚ map_to_list m -> zlen (entries abs) = Z.of_nat (size m).
Proof. intros Hp%Permutation_length. unfold zlen. by rewrite Hp, length_map_to_list. Qed.
Lemma table_keys i t bs e : table_at i t bs -> e ∈ concat bs -> zlen e.1 = Z.of_nat i.
Proof.
  destruct t as [t|]; cbn; [|by intros -> ?%elem_of_nil].
  intros [Ht _] (b & He & Hb)%elem_of_concat. pose proof (vr_keys _ _ _ (tr_vec _ _ _ Ht)) as Hk.
  rewrite Forall_forall in Hk. specialize (Hk b Hb). rewrite Forall_forall in Hk. by destruct (Hk e He).
Qed.

Lemma create_rep : builder_rep zcdb_builder_create (replicate (Z.to_nat (zvar_zcdb_max_key_len + 1)) []) ∅.
Proof.
  split; try done. intros i t bs [-> _]%lookup_replicate [-> _]%lookup_replicate. done.
Qed.

Definition lengths (b : zcdb_builder) : Z * Z := (cb_val_length_min b, cb_val_length_max b).
(** The fields that hold the file. *)
Definition file_of (b : zcdb_builder) : list cell * Z * Z * Z * bool * bool :=
  (cb_data b, cb_capability b, cb_size b, cb_cursor b, cb_error b, cb_over b).

Lemma resolve_len src n x : in_bytes src n = Some x -> zlen x < 2 ^ 31 ->
  (if n <? 0 then s32 <$> (zlen <$> cstr src) else Some n) = Some (zlen x) /\ read_bytes src (zlen x) = Some x.
Proof.
  unfold in_bytes. zlen_facts. destruct (Z.ltb_spec n 0).
  - intros Hc Hx. rewrite Hc. cbn. rewrite swrap_small by lia. split; [done|].
    apply cstr_split in Hc as (rest & -> & _). unfold read_bytes.
    destruct (Z.leb_spec (zlen x) (zlen (x ++ 0 :: rest))); [|zlia]. by rewrite zlen_to_nat, take_app_length.
  - destruct (Z.leb_spec n (zlen src)); [|done]. intros [= <-] _. rewrite zlen_take by lia. split; [done|].
    unfold read_bytes. by destruct (Z.leb_spec n (zlen src)); [|lia].
Qed.

(** The table of a key: the buckets before and after hold other keys. *)
Lemma entries_split b abs m k t : builder_rep b abs m -> zlen k <= zvar_zcdb_max_key_len ->
  rd (cb_tables b) (zlen k) = Some t -> exists bs, abs !! length k = Some bs /\ table_at (length k) t bs /\
    forall bs' v, updated k v (concat bs) (concat bs') -> entries (<[length k := bs']> abs) ≡ₚ map_to_list (<[k := v]> m) /\
      zlen (entries (<[length k := bs']> abs)) = zlen (entries abs) - zlen (concat bs) + zlen (concat bs').
Proof.
  intros [Hlt Hla Htab Hent Hcnt Hmax Hkeys] Hkl Ht. unfold zvar_zcdb_max_key_len in *. zlen_facts.
  assert (Ht' : cb_tables b !! length k = Some t).
  { unfold rd in Ht. destruct (Z.ltb_spec (zlen k) 0); [lia|]. by rewrite zlen_to_nat in Ht. }
  destruct (lookup_lt_is_Some_2 abs (length k)) as [bs Hbs]; [unfold zlen in *; lia|].
  exists bs. split; [done|]. split; [by apply Htab|]. intros bs' v Hu.
  apply list_elem_of_split_length in Hbs as (l1 & l2 & Eabs & Hl1).
  assert (Hout : forall j bs0, j <> length k -> abs !! j = Some bs0 -> k ∉ (concat bs0).*1).
  { intros j bs0 Hj Hbs0 (e & Ek & He)%list_elem_of_fmap. apply Hj. destruct (lookup_lt_is_Some_2 (cb_tables b) j) as [t' Ht''].
    { apply lookup_lt_Some in Hbs0. unfold zlen in *. lia. }
    pose proof (table_keys _ _ _ _ (Htab _ _ _ Ht'' Hbs0) He). rewrite <- Ek in *. unfold zlen in *. lia. }
  assert (Hside : forall l, (forall bs0, bs0 ∈ l -> exists j, j <> length k /\ abs !! j = Some bs0) -> k ∉ (entries l).*1).
  { intros l Hl (e & E & (bk & He & (bs0 & Hb & Hbs0)%elem_of_concat)%elem_of_concat)%list_elem_of_fmap.
    destruct (Hl _ Hbs0) as (j & Hj & Hj'). apply (Hout j bs0 Hj Hj'), list_elem_of_fmap. exists e.
    split; [done|]. apply elem_of_concat. by exists bk. }
  assert (Esum : entries abs = entries l1 ++ concat bs ++ entries l2) by (by rewrite Eabs, entries_app, entries_cons).
  replace (<[length k := bs']> abs) with (l1 ++ bs' :: l2)
    by (rewrite Eabs, Hl1, <- (Nat.add_0_r (length l1)), insert_app_r; done).
  rewrite entries_app, entries_cons, Esum. split; [|zlia].
  apply (updated_map k v (entries abs)); [done|]. rewrite Esum. apply updated_app; [apply Hside..|done].
  - intros bs0 (j & Hj)%list_elem_of_lookup. exists j. pose proof (lookup_lt_Some _ _ _ Hj).
    split; [lia|]. rewrite Eabs. by apply lookup_app_l_Some.
  - intros bs0 (j & Hj)%list_elem_of_lookup. exists (S (length l1 + j)). split; [lia|].
    rewrite Eabs, lookup_app_r by lia. by replace (S (length l1 + j) - length l1)%nat with (S j) by lia.
Qed.

Lemma updated_not_nil k v E E' : updated k v E E' -> E' <> [].
Proof. intros (F & _ & _ & Hp) ->. by apply Permutation_nil_cons in Hp. Qed.
Lemma table_or_new klen t bs : table_at klen t bs ->
  exists bs0, table_rep (Z.of_nat klen) (default (builder_table_create (Z.of_nat klen)) t) bs0 /\ concat bs0 = concat bs.
Proof.
  destruct t as [t|]; cbn; [intros [? _]; by exists bs|]. intros ->. exists (replicate 3 []).
  split; [apply table_create_rep|done].
Qed.
Lemma size_insert_le (k v : list Z) (m : gmap (list Z) (list Z)) :
  Z.of_nat (size (<[k := v]> m)) <= Z.of_nat (size m) + 1.
Proof.
  destruct (m !! k) eqn:E; [rewrite (map_size_insert_Some _ _ _ (mk_is_Some _ _ E))|rewrite map_size_insert_None by done]; lia.
Qed.

Lemma zcdb_builder_update_spec b abs m key klen val vlen k v : builder_rep b abs m ->
  in_bytes key klen = Some k -> in_bytes val vlen = Some v -> bytes_ok k -> bytes_ok v ->
  zlen k <= zvar_zcdb_max_key_len -> zlen v + 2 < 2 ^ 29 -> Z.of_nat (size m) + 1 < 2 ^ 29 ->
  runs (zcdb_builder_update b key klen val vlen) (fun b' => exists abs', builder_rep b' abs' (<[k := v]> m) /\
    lengths b' = length_step (lengths b) (zlen v) /\ file_of b' = file_of b).
Proof.
  intros Hb Hkey Hval Hkb Hvb Hkl Hvl Hmany. pose proof Hb as [Hlt Hla Htab Hent Hcnt Hmax Hkeys].
  destruct (resolve_len _ _ _ Hkey) as [Ek Hkr]; [unfold zvar_zcdb_max_key_len in *; lia|].
  destruct (resolve_len _ _ _ Hval) as [Ev Hvr]; [lia|]. unfold zcdb_builder_update. rewrite Ek. cbn [mbind option_bind].
  destruct (Z.ltb_spec zvar_zcdb_max_key_len (zlen k)); [lia|]. zlen_facts.
  destruct (rd_is_Some (cb_tables b) (zlen k)) as [t Ht]; [lia|]. rewrite Ht. cbn [mbind option_bind].
  rewrite Ev. cbn [mbind option_bind].
  destruct (entries_split b abs m k t Hb Hkl Ht) as (bs & Hbs & Hat & Hnew).
  destruct (table_or_new _ _ _ Hat) as (bs0 & Htr & Ecat). fold (zlen k) in Htr.
  pose proof (entries_len _ _ Hent) as Hlen. destruct (length_step _ (zlen v)) as [mn mx] eqn:Emm.
  assert (Hfew : zlen (concat bs) <= zlen (entries abs)).
  { apply list_elem_of_split_length in Hbs as (l1 & l2 & -> & _). rewrite entries_app, entries_cons. zlia. }
  unfold zvar_zcdb_max_key_len in *.
  destruct (table_update_spec (zlen k) _ bs0 key val k v Htr) as (t' & -> & bs' & Htr' & Hu); try (done || lia).
  { by rewrite in_bytes_read by lia. }
  { rewrite Ecat. lia. }
  cbn [mbind option_bind]. rewrite Ecat in Hu. destruct (Hnew bs' v Hu) as [Hm' Hlen'].
  pose proof (entries_len _ _ Hm'). pose proof (size_insert_le k v m).
  rewrite (tr_count _ _ _ Htr), (tr_count _ _ _ Htr'), Ecat, Hcnt.
  replace (Z.of_nat (size m) - zlen (concat bs) + zlen (concat bs')) with (Z.of_nat (size (<[k := v]> m))) by lia.
  rewrite as_int_Some by lia. cbn [mbind option_bind]. rewrite wr_Some by lia. apply runs_ret.
  exists (<[length k := bs']> abs). split; [|by rewrite <- Emm]. rewrite zlen_to_nat.
  split; cbn [cb_tables cb_count cb_max_klen]; rewrite ?zlen_insert; try done.
  - intros i t0 bs1 [(<- & <- & _)|[Hne Hi]]%list_lookup_insert_Some [(? & <- & _)|[? Hi']]%list_lookup_insert_Some; try done.
    + split; [by apply Htr'|]. by eapply updated_not_nil.
    + by eapply Htab.
  - unfold zvar_zcdb_max_key_len. destruct (Z.ltb_spec (cb_max_klen b) (zlen k)); lia.
  - apply map_Forall_insert_2.
    + split; [destruct (Z.ltb_spec (cb_max_klen b) (zlen k)); lia|done].
    + eapply map_Forall_impl; [exact Hkeys|]. cbn. intros k' v' (? & ? & ? & ?). split; [|done].
      destruct (Z.ltb_spec (cb_max_klen b) (zlen k)); lia.
Qed.
