(* ===== verification/CdbFile.v ===== *)
(** * Constant databases: the file that [zcdb_builder_compile] writes

    [file b0 l cur b]: the block of [b] holds the bytes [l], the cursor is at
    [cur], and everything else is as in [b0]. The layout of the format is a family
    of predicates that say what stands where ([node_img] to [root_img]); each
    tolerates any change of the bytes below a bound, which is what going back to
    store an offset does. *)
From stdpp Require Import gmap sorting.
From S2P Require Import Prelude Buf Crc Cint Rbset Maps StateMonad Cdb CdbBuild.

(** ** Integers in the file *)
Definition be4 (n : Z) : list Z := [n / 2 ^ 24; n / 2 ^ 16 mod 256; n / 2 ^ 8 mod 256; n mod 256].

Lemma be4_bytes n : 0 <= n < 2 ^ 32 -> bytes_ok (be4 n).
Proof. intros. repeat constructor; unfold byte_ok; zdiv. Qed.
Lemma pack_at_be4 n buf off : 0 <= n < 2 ^ 32 -> (off + 4 <= length buf)%nat ->
  pack_at n buf off = Some (take off buf ++ be4 n ++ drop (off + 4) buf).
Proof.
  intros Hn Ho. destruct (zint_pack_roundtrip n (drop off buf)) as [(p & E & _ & ->) _].
  - done.
  - unfold zlen. rewrite length_drop. lia.
  - unfold pack_at. rewrite uwrap_small by done. rewrite E. cbn [mbind option_bind]. by rewrite drop_drop.
Qed.
Lemma unpack_be4 n r : 0 <= n < 2 ^ 32 -> zint_unpack (be4 n ++ r) = Some n.
Proof.
  intros Hn. unfold zint_unpack, be4. nat_index. rewrite or_byte4 by (unfold byte_ok; zdiv). f_equal. zdiv.
Qed.

Lemma cint_put_loop_spec k : forall left pre rest, 0 <= left < 128 ^ Z.of_nat k -> (0 < k)%nat ->
  zlen (cint_enc_fuel k left) <= zlen rest ->
  exists rest', cint_put_loop k left (pre ++ rest) (zlen pre) =
    Some (pre ++ cint_enc_fuel k left ++ rest', zlen pre + zlen (cint_enc_fuel k left)).
Proof.
  induction k as [|k IH]; intros left pre rest Hl Hk Hr; [lia|]. cbn [cint_put_loop]. rewrite cint_enc_S in *.
  rewrite shiftr_7, div128_0, land_127 by lia.
  destruct rest as [|x rest]; [destruct (left <? 128); zlia|]. rewrite wr_app. cbn [mbind option_bind].
  destruct (Z.ltb_spec left 128) as [|Hge].
  - exists rest. rewrite Z.mod_small, lor_128 by lia. done.
  - rewrite zlen_cons in Hr. destruct (pow128_step _ _ Hl Hge) as [Hk' Hl'].
    destruct (IH (left / 128) (pre ++ [left mod 128]) rest Hl' Hk') as (rest' & E); [zlia|].
    exists rest'. replace (pre ++ left mod 128 :: rest) with ((pre ++ [left mod 128]) ++ rest) by (by rewrite <- app_assoc).
    replace (zlen pre + 1) with (zlen (pre ++ [left mod 128])) by zlia. rewrite E. f_equal. f_equal; [|zlia].
    by rewrite <- app_assoc.
Qed.
Lemma zcint_put_enc n : 0 <= n < 2 ^ 31 ->
  exists rest', zcint_put n (replicate 65 0) = Some (cint_enc n ++ rest', zlen (cint_enc n)).
Proof.
  intros Hn. destruct (cint_enc_ok cint_fuel n) as [_ Hl]; [lia|].
  apply (cint_put_loop_spec cint_fuel n [] (replicate 65 0)); unfold cint_fuel in *; [cbn; lia|lia|].
  rewrite zlen_replicate. lia.
Qed.

(** ** What stands where *)

(** The bytes [x] stand at [p], which is at least [lo]. *)
Definition holds_at (lo : Z) (l : list Z) (p : Z) (x : list Z) : Prop :=
  lo <= p /\ 0 <= p /\ forall i y, x !! i = Some y -> l !! (Z.to_nat p + i)%nat = Some y.
(** [l'] has the bytes of [l] at the places [P]. *)
Definition keeps (P : Z -> Prop) (l l' : list Z) : Prop :=
  forall i y, P (Z.of_nat i) -> l !! i = Some y -> l' !! i = Some y.

Lemma keeps_refl P l : keeps P l l.
Proof. by intros i y _ ?. Qed.
Lemma keeps_trans P l l' l'' : keeps P l l' -> keeps P l' l'' -> keeps P l l''.
Proof. intros H1 H2 i y Hp Hi. apply H2; [done|]. by apply H1. Qed.
Lemma keeps_weaken (P Q : Z -> Prop) l l' : keeps P l l' -> (forall j, Q j -> P j) -> keeps Q l l'.
Proof. intros H HQ i y Hp. by apply H, HQ. Qed.
Lemma keeps_app P l x : keeps P l (l ++ x).
Proof. intros i y _ Hi. by apply lookup_app_l_Some. Qed.
Lemma holds_keeps P lo l l' p x : holds_at lo l p x -> keeps P l l' -> (forall j, p <= j < p + zlen x -> P j) ->
  holds_at lo l' p x.
Proof.
  intros (Hlo & H0 & Hx) Hk HP. split; [done|]. split; [done|]. intros i y Hi. apply Hk; [|by apply Hx].
  apply lookup_lt_Some in Hi. apply HP. unfold zlen. lia.
Qed.
Lemma holds_weaken lo lo' l p x : holds_at lo l p x -> lo' <= lo -> holds_at lo' l p x.
Proof. intros (? & ? & ?) ?. split; [lia|done]. Qed.
Lemma holds_app lo l p x y : holds_at lo l p (x ++ y) <-> holds_at lo l p x /\ holds_at lo l (p + zlen x) y.
Proof.
  unfold holds_at, zlen. split.
  - intros (? & ? & H). repeat split; try lia; intros i z Hi.
    + apply H. by apply lookup_app_l_Some.
    + replace (Z.to_nat (p + Z.of_nat (length x)) + i)%nat with (Z.to_nat p + (length x + i))%nat by lia.
      apply H. rewrite lookup_app_r by lia. by replace (length x + i - length x)%nat with i by lia.
  - intros [(? & ? & H1) (_ & _ & H2)]. split; [done|]. split; [done|]. intros i z.
    destruct (Nat.lt_ge_cases i (length x)).
    + rewrite lookup_app_l by done. apply H1.
    + rewrite lookup_app_r by done. intros Hi. specialize (H2 _ _ Hi).
      by replace (Z.to_nat (p + Z.of_nat (length x)) + (i - length x))%nat with (Z.to_nat p + i)%nat in H2 by lia.
Qed.
Lemma holds_end lo l x r : lo <= zlen l -> holds_at lo (l ++ x ++ r) (zlen l) x.
Proof.
  intros Hlo. zlen_facts. split; [done|]. split; [done|]. intros i y Hi. rewrite zlen_to_nat.
  rewrite lookup_app_r by lia. replace (length l + i - length l)%nat with i by lia. by apply lookup_app_l_Some.
Qed.
Lemma holds_last lo l x : lo <= zlen l -> holds_at lo (l ++ x) (zlen l) x.
Proof. intros Hlo. rewrite <- (app_nil_r x) at 1. by apply holds_end. Qed.
Lemma holds_drop lo l p x : holds_at lo l p x -> exists r, drop (Z.to_nat p) l = x ++ r.
Proof.
  intros (_ & _ & H). exists (drop (Z.to_nat p + length x) l). rewrite <- drop_drop.
  rewrite <- (take_drop (length x) (drop (Z.to_nat p) l)) at 1. f_equal. apply list_eq_same_length with (length x).
  - done.
  - apply length_take_le. rewrite length_drop. destruct x as [|a x]; [cbn; lia|].
    destruct (lookup_lt_is_Some_2 (a :: x) (length x)) as [y Hy]; [cbn; lia|]. apply H, lookup_lt_Some in Hy. cbn. lia.
  - intros i y z Hi Hy Hz. apply H in Hz. rewrite lookup_take_lt, lookup_drop in Hy by done. congruence.
Qed.
Lemma holds_unpack lo l p n : holds_at lo l p (be4 n) -> 0 <= n < 2 ^ 31 -> int_at l p = Some n.
Proof.
  intros H Hn. destruct (holds_drop _ _ _ _ H) as [r E]. destruct H as (_ & Hp & _).
  unfold int_at, unpack_at. destruct (Z.ltb_spec p 0); [lia|]. rewrite E, unpack_be4 by lia. cbn.
  by rewrite swrap_small by lia.
Qed.
Lemma holds_read lo l p x : holds_at lo l p x -> read_at l p (zlen x) = Some x.
Proof.
  intros H. destruct (holds_drop _ _ _ _ H) as [r E]. destruct H as (_ & Hp & _).
  unfold read_at, read_bytes. destruct (Z.ltb_spec p 0); [lia|]. rewrite E.
  destruct (Z.leb_spec (zlen x) (zlen (x ++ r))); [|zlia]. by rewrite zlen_to_nat, take_app_length.
Qed.

(** ** The block as a file *)
Definition file (b0 : zcdb_builder) (l : list Z) (cur : Z) (b : zcdb_builder) : Prop :=
  exists r cap j, b = set_file b0 ((Some <$> l) ++ r) cap (zlen l) cur /\ zlen ((Some <$> l) ++ r) = cap + 10 /\
    cap = 2 ^ j /\ 0 <= j <= 30 /\ 0 <= cur <= zlen l /\ zlen l < 2 ^ 30 /\ cb_error b0 = false.

Lemma file_field b0 l cur b {A} (f : zcdb_builder -> A) : file b0 l cur b ->
  (forall d c s u, f (set_file b0 d c s u) = f b0) -> f b = f b0.
Proof. intros (r & cap & j & -> & _) Hf. apply Hf. Qed.

Lemma grow_loop_spec (l : list Z) cur need fuel : forall r j, zlen ((Some <$> l) ++ r) = 2 ^ j + 10 -> 0 <= j <= 30 ->
  cur + need < 2 ^ 30 -> 31 - j <= Z.of_nat fuel -> exists r' j',
  grow_loop fuel ((Some <$> l) ++ r) (2 ^ j) cur need = Some ((Some <$> l) ++ r', 2 ^ j') /\
  zlen ((Some <$> l) ++ r') = 2 ^ j' + 10 /\ 0 <= j' <= 30 /\ cur + need < 2 ^ j'.
Proof.
  induction fuel as [|fuel IH]; intros r j Hz Hj Hc Hf; [lia|]. cbn [grow_loop].
  destruct (Z.ltb_spec need (2 ^ j - cur)); [exists r, j; repeat split; (done || lia)|].
  assert (j < 30).
  { destruct (Z.eq_dec j 30) as [->|]; lia. }
  assert (Hp : 2 ^ (j + 1) = 2 ^ j * 2) by (rewrite Z.pow_add_r by lia; done).
  assert (2 ^ (j + 1) <= 2 ^ 30) by (apply Z.pow_le_mono_r; lia).
  pose proof (Z.pow_pos_nonneg 2 j ltac:(lia) ltac:(lia)).
  rewrite as_int_Some by lia. cbn [mbind option_bind].
  destruct (zrealloc_app (Some <$> l) r (2 ^ j * 2 + 10)) as (r' & -> & Hz'); [zlia|]. rewrite <- Hp in *.
  apply IH; lia.
Qed.

Definition splice (l : list Z) (cur : Z) (p : list Z) : list Z :=
  take (Z.to_nat cur) l ++ p ++ drop (Z.to_nat (cur + zlen p)) l.

Lemma blit_splice (l p : list Z) r cur : 0 <= cur <= zlen l -> cur + zlen p <= zlen ((Some <$> l) ++ r) ->
  exists r', blit ((Some <$> l) ++ r) cur p = Some ((Some <$> splice l cur p) ++ r').
Proof.
  intros Hc Hp. zlen_facts. unfold blit.
  destruct (Z.leb_spec 0 cur); [|lia]. destruct (Z.leb_spec (cur + zlen p) (zlen ((Some <$> l) ++ r))); [|lia]. simpl.
  exists (drop (Z.to_nat (cur + zlen p) - length (Some <$> l)) r). f_equal. unfold splice.
  rewrite take_app_le by (rewrite length_fmap; unfold zlen in *; lia).
  rewrite drop_app, !fmap_app, fmap_take, fmap_drop, <- !app_assoc. done.
Qed.
Lemma splice_len l cur p : 0 <= cur <= zlen l -> zlen (splice l cur p) = Z.max (zlen l) (cur + zlen p).
Proof.
  intros Hc. unfold splice. rewrite !zlen_app, zlen_take by lia. unfold zlen. rewrite length_drop. unfold zlen in *. lia.
Qed.

Lemma fwrite_spec b0 l cur b p (Q : Z -> zcdb_builder -> Prop) : file b0 l cur b -> cur + zlen p < 2 ^ 30 ->
  (forall b', file b0 (splice l cur p) (cur + zlen p) b' -> Q (zlen p) b') -> wp (_zcdb_builder_fwrite p) b Q.
Proof.
  intros (r & cap & j & -> & Hz & -> & Hj & Hc & Hl & He) Hp HQ. unfold _zcdb_builder_fwrite.
  apply wp_bind, wp_gets. cbn [cb_error set_file id]. rewrite He. zlen_facts.
  destruct (grow_loop_spec l cur (zlen p) 32 r j Hz Hj Hp ltac:(lia)) as (r' & j' & E & Hz' & Hj' & Hfit).
  cbn [cb_data cb_capability cb_cursor set_file]. rewrite E. apply wp_bind. eapply wp_of_option; [done|].
  destruct (blit_splice l p r' cur) as (r'' & Eb); [lia|lia|]. cbn [fst snd].
  apply wp_bind. eapply wp_of_option; [exact Eb|]. apply wp_bind, wp_modify, wp_ret, HQ. cbn [cb_size set_file].
  exists r'', (2 ^ j'), j'. rewrite splice_len by lia. cbn.
  assert (Hlen : zlen ((Some <$> splice l cur p) ++ r'') = 2 ^ j' + 10).
  { unfold blit in Eb. destruct (_ && _); [|done]. injection Eb as <-.
    rewrite !zlen_app, zlen_fmap, zlen_take, zlen_drop by lia. lia. }
  split; [|repeat split; lia || done]. f_equal. destruct (Z.ltb_spec (zlen l) (cur + zlen p)); lia.
Qed.

Lemma fseek_spec b0 l cur b off wh (Q : unit -> zcdb_builder -> Prop) : file b0 l cur b ->
  (forall b', file b0 l (match wh with SEEK_SET => Z.max 0 (Z.min (zlen l) off) | SEEK_END => Z.max 0 (Z.min (zlen l) (zlen l - off)) end) b' ->
     Q tt b') -> wp (_zcdb_builder_fseek off wh) b Q.
Proof.
  intros (r & cap & j & -> & Hz & -> & Hj & Hc & Hl & He) HQ. unfold _zcdb_builder_fseek. apply wp_modify, HQ.
  exists r, (2 ^ j), j. cbn. zlen_facts. split; [|repeat split; try done; destruct wh; lia]. f_equal.
  destruct wh; [destruct (Z.ltb_spec (zlen l) off)|destruct (Z.ltb_spec (zlen l) (zlen l - off))];
    match goal with |- context [?x <? 0] => destruct (Z.ltb_spec x 0) end; lia.
Qed.
Lemma seek_end b0 l cur b (Q : unit -> zcdb_builder -> Prop) : file b0 l cur b ->
  (forall b', file b0 l (zlen l) b' -> Q tt b') -> wp (_zcdb_builder_fseek 0 SEEK_END) b Q.
Proof.
  intros Hf HQ. eapply fseek_spec; [done|]. intros b'. zlen_facts.
  replace (Z.max 0 (Z.min (zlen l) (zlen l - 0))) with (zlen l) by lia. apply HQ.
Qed.
Lemma seek_set b0 l cur b off (Q : unit -> zcdb_builder -> Prop) : file b0 l cur b -> 0 <= off <= zlen l ->
  (forall b', file b0 l off b' -> Q tt b') -> wp (_zcdb_builder_fseek off SEEK_SET) b Q.
Proof.
  intros Hf Ho HQ. eapply fseek_spec; [done|]. intros b'.
  replace (Z.max 0 (Z.min (zlen l) off)) with off by lia. apply HQ.
Qed.
Lemma ftell_spec b0 l cur b (Q : Z -> zcdb_builder -> Prop) : file b0 l cur b -> Q cur b -> wp _zcdb_builder_ftell b Q.
Proof. intros (r & cap & j & -> & _) HQ. by apply wp_gets. Qed.

(** Writing at the end, and over bytes that are there. *)
Lemma append_spec b0 l b p (Q : Z -> zcdb_builder -> Prop) : file b0 l (zlen l) b -> zlen l + zlen p < 2 ^ 30 ->
  (forall b', file b0 (l ++ p) (zlen (l ++ p)) b' -> Q (zlen p) b') -> wp (_zcdb_builder_fwrite p) b Q.
Proof.
  intros Hf Hp HQ. eapply fwrite_spec; [done|lia|]. intros b' Hf'. apply HQ. unfold splice in Hf'. zlen_facts.
  rewrite zlen_app. rewrite zlen_to_nat, firstn_all, drop_ge, app_nil_r in Hf' by (unfold zlen; lia). done.
Qed.
Lemma patch_spec b0 l cur b p (Q : Z -> zcdb_builder -> Prop) : file b0 l cur b -> cur + zlen p <= zlen l ->
  (forall b' l', file b0 l' (cur + zlen p) b' -> zlen l' = zlen l -> holds_at 0 l' cur p ->
     keeps (fun j => j < cur \/ cur + zlen p <= j) l l' -> Q (zlen p) b') ->
  wp (_zcdb_builder_fwrite p) b Q.
Proof.
  intros Hf Hp HQ. assert (Hc : 0 <= cur <= zlen l /\ zlen l < 2 ^ 30) by (destruct Hf as (? & ? & ? & _ & _ & _ & _ & ? & ? & _); done).
  zlen_facts. eapply fwrite_spec; [done|lia|]. intros b' Hf'. apply (HQ b' (splice l cur p)); [done| | |].
  - rewrite splice_len by lia. lia.
  - unfold splice. replace cur with (zlen (take (Z.to_nat cur) l)) at 3 by (apply zlen_take; lia).
    apply holds_end. rewrite zlen_take by lia. lia.
  - intros i y Hi Hy. unfold splice. destruct Hi as [Hi|Hi].
    + apply lookup_app_l_Some. rewrite lookup_take_lt by lia. done.
    + rewrite lookup_app_r by (rewrite length_take; unfold zlen in *; lia).
      rewrite lookup_app_r by (rewrite length_take; unfold zlen in *; lia). rewrite lookup_drop, length_take.
      rewrite <- Hy. f_equal. unfold zlen in *. lia.
Qed.
Lemma wp_put_int n b (Q : Z -> zcdb_builder -> Prop) : 0 <= n < 2 ^ 32 ->
  wp (_zcdb_builder_fwrite (be4 n)) b Q -> wp (put_int n) b Q.
Proof.
  intros Hn HQ. unfold put_int. apply wp_bind. eapply wp_of_option; [apply pack_at_be4; [done|cbn; lia]|]. exact HQ.
Qed.

(** ** The layout *)
Definition zsum (l : list Z) : Z := foldr Z.add 0 l.
Lemma zsum_nonneg {A} (f : A -> Z) l : (forall x, 0 <= f x) -> 0 <= zsum (f <$> l).
Proof.
  intros Hf. induction l as [|x l IH]; [done|]. change (zsum (f <$> x :: l)) with (f x + zsum (f <$> l)).
  specialize (Hf x). lia.
Qed.

Section layout.
(** [klen]: the length of the keys; [w]: that of the values, or [varying]. *)
Context (klen w : Z).

Definition stride : Z := klen + (if w =? varying then 4 else w).
Definition value_img (lo : Z) (l : list Z) (p : Z) (v : list Z) : Prop :=
  if w =? varying then
    match v with
    | [] => holds_at lo l p (be4 0)
    | _ => exists o, 0 < o < 2 ^ 30 /\ holds_at lo l p (be4 o) /\ holds_at lo l o (cint_enc (zlen v) ++ v)
    end
  else zlen v = w /\ holds_at lo l p v.
Definition node_img (lo : Z) (l : list Z) (p : Z) (e : entry) : Prop :=
  holds_at lo l p e.1 /\ value_img lo l (p + klen) e.2.
Fixpoint nodes_img (lo : Z) (l : list Z) (p : Z) (b : list entry) : Prop :=
  match b with [] => True | e :: b' => node_img lo l p e /\ nodes_img lo l (p + stride) b' end.
Definition bucket_img (lo : Z) (l : list Z) (o : Z) (b : list entry) : Prop :=
  holds_at lo l o (be4 (zlen b)) /\ nodes_img lo l (o + 4) b.
End layout.
(** A cell with the offset of something, 0 when it is empty. *)
Definition cell_img (lo : Z) (l : list Z) (s : Z) (empty : bool) (P : Z -> Prop) : Prop :=
  if empty then holds_at lo l s (be4 0) else exists o, 0 < o < 2 ^ 30 /\ holds_at lo l s (be4 o) /\ P o.
Definition is_empty {A} (l : list A) : bool := match l with [] => true | _ => false end.
Definition table_img (klen w lo : Z) (l : list Z) (o : Z) (bs : list (list entry)) : Prop :=
  holds_at lo l o (be4 (zlen bs)) /\ forall i b, bs !! i = Some b ->
    cell_img lo l (o + 4 + 4 * Z.of_nat i) (is_empty b) (fun p => bucket_img klen w lo l p b).
Definition root_img (lo w : Z) (l : list Z) (abs : list (list (list entry))) : Prop :=
  forall i bs, abs !! i = Some bs ->
    cell_img lo l (24 + 4 * Z.of_nat i) (is_empty bs) (fun p => table_img (Z.of_nat i) w lo l p bs).
(** The whole file; the tables of [abs] are those of the lengths 0, 1, ... *)
Record db_img (w count : Z) (abs : list (list (list entry))) (l : list Z) : Prop := {
  di_size : zlen l < 2 ^ 30;
  di_magic : holds_at 0 l 0 (str "ZCDB" ++ str "0001");
  di_len : holds_at 0 l 8 (be4 (zlen l));
  di_count : holds_at 0 l 12 (be4 count);
  di_max : holds_at 0 l 16 (be4 (zlen abs - 1));
  di_val : holds_at 0 l 20 (be4 w);
  di_root : root_img 0 w l abs
}.

(** What stands at [lo] and above stays when everything there is kept. *)
Abbreviation above lo := (fun j => lo <= j).
Lemma holds_above lo lo' l l' p x : holds_at lo l p x -> keeps (above lo) l l' -> lo' <= lo -> holds_at lo' l' p x.
Proof.
  intros H Hk Hlo. apply holds_weaken with lo; [|done]. eapply holds_keeps; [exact H|exact Hk|].
  destruct H as (? & _). lia.
Qed.
Lemma value_above w lo lo' l l' p v : value_img w lo l p v -> keeps (above lo) l l' -> lo' <= lo -> value_img w lo' l' p v.
Proof.
  unfold value_img. destruct (w =? varying); [|intros []; split; [done|by eapply holds_above]].
  destruct v as [|c v]; [intros; by eapply holds_above|].
  intros (o & ? & ? & ?) ? ?. exists o. split; [done|]. split; by eapply holds_above.
Qed.
Lemma node_above klen w lo lo' l l' p e : node_img klen w lo l p e -> keeps (above lo) l l' -> lo' <= lo ->
  node_img klen w lo' l' p e.
Proof. intros [? ?] ? ?. split; [by eapply holds_above|by eapply value_above]. Qed.
Lemma nodes_above klen w lo lo' l l' b : forall p, nodes_img klen w lo l p b -> keeps (above lo) l l' -> lo' <= lo ->
  nodes_img klen w lo' l' p b.
Proof.
  induction b as [|e b IH]; intros p; cbn; [done|]. intros [? ?] ? ?. split; [by eapply node_above|by apply IH].
Qed.
Lemma bucket_above klen w lo lo' l l' o b : bucket_img klen w lo l o b -> keeps (above lo) l l' -> lo' <= lo ->
  bucket_img klen w lo' l' o b.
Proof. intros [? ?] ? ?. split; [by eapply holds_above|by eapply nodes_above]. Qed.
Lemma cell_above lo lo' l l' s empty P P' : cell_img lo l s empty P -> keeps (above lo) l l' -> lo' <= lo ->
  (forall o, P o -> P' o) -> cell_img lo' l' s empty P'.
Proof.
  unfold cell_img. destruct empty; [intros; by eapply holds_above|]. intros (o & ? & ? & ?) ? ? HP.
  exists o. split; [done|]. split; [by eapply holds_above|by apply HP].
Qed.
Lemma table_above klen w lo lo' l l' o bs : table_img klen w lo l o bs -> keeps (above lo) l l' -> lo' <= lo ->
  table_img klen w lo' l' o bs.
Proof.
  intros [? Hc] Hk Hlo. split; [by eapply holds_above|]. intros i b Hb. eapply cell_above; [by apply Hc|done|done|].
  intros p Hp. exact (bucket_above _ _ _ _ _ _ _ _ Hp Hk Hlo).
Qed.

Lemma root_above lo lo' w l l' abs : root_img lo w l abs -> keeps (above lo) l l' -> lo' <= lo -> root_img lo' w l' abs.
Proof.
  intros Hr Hk Hlo i bs Hbs. eapply cell_above; [by apply Hr|done|done|].
  intros p Hp. exact (table_above _ _ _ _ _ _ _ _ Hp Hk Hlo).
Qed.

(** ** Chains *)
Definition node_cost (e : entry) : Z := zlen e.1 + zlen e.2 + 9.
Definition chain_cost (b : list entry) : Z := zsum (node_cost <$> b).
Lemma node_cost_pos e : 0 <= node_cost e.
Proof. unfold node_cost. zlia. Qed.
Lemma chain_cost_cons e b : chain_cost (e :: b) = node_cost e + chain_cost b.
Proof. done. Qed.
Lemma chain_cost_nonneg b : 0 <= chain_cost b.
Proof. apply zsum_nonneg, node_cost_pos. Qed.

Lemma put_read_end b0 l b buf (x : list Z) n (Q : unit -> zcdb_builder -> Prop) : file b0 l (zlen l) b ->
  rep None buf x -> n = zlen x -> zlen l + zlen x < 2 ^ 30 ->
  (forall b', file b0 (l ++ x) (zlen (l ++ x)) b' -> Q tt b') -> wp (put_read buf n) b Q.
Proof.
  intros Hf Hr -> Hl HQ. unfold put_read. apply wp_bind. eapply wp_of_option; [by apply zbuf_read_rep|].
  apply wp_bind. eapply append_spec; [done|done|]. intros b' Hf'. apply wp_ret, HQ, Hf'.
Qed.
(** The key of a node; nothing is written for the empty one. *)
Lemma put_opt_end b0 l b buf (x : list Z) n (Q : unit -> zcdb_builder -> Prop) : file b0 l (zlen l) b ->
  rep None buf x -> n = zlen x -> zlen l + zlen x < 2 ^ 30 ->
  (forall b', file b0 (l ++ x) (zlen (l ++ x)) b' -> Q tt b') ->
  wp (if negb (n =? 0) then put_read buf n else skip) b Q.
Proof.
  intros Hf Hr Hn Hl HQ. destruct (Z.eqb_spec n 0) as [E|]; cbn; [|by eapply put_read_end].
  assert (x = []) as -> by (apply zlen_inv_nil; lia). apply wp_ret, HQ. by rewrite app_nil_r.
Qed.

Section chains.
Context (b0 : zcdb_builder) (klen : Z).
Hypothesis Hklen : 0 <= klen.

Lemma put_pairs_spec w ch : forall b l st, Forall2 node_rep ch b ->
  Forall (fun e => zlen e.1 = klen /\ zlen e.2 = w) b -> w <> varying -> file b0 l (zlen l) st ->
  zlen l + chain_cost b < 2 ^ 30 ->
  wp (put_pairs klen w ch) st (fun _ st' => exists l', file b0 (l ++ l') (zlen (l ++ l')) st' /\
    zlen l' <= chain_cost b /\ forall lo, lo <= zlen l -> nodes_img klen w lo (l ++ l') (zlen l) b).
Proof using Hklen.
  induction ch as [|n ch IH]; intros b l st Hb Hall Hw Hf Hl; inversion Hb as [|? e ? b' [Hk Hv] Hb']; subst.
  { apply wp_ret. exists []. rewrite app_nil_r. done. }
  inversion_clear Hall as [|? ? [Hlk Hlv] Hall']. cbn [put_pairs]. rewrite chain_cost_cons in *.
  unfold node_cost in *. pose proof (chain_cost_nonneg b'). zlen_facts.
  apply wp_bind. eapply put_opt_end; [done|exact Hk|done|lia|]. intros st1 Hf1. apply wp_bind.
  eapply put_opt_end; [exact Hf1|exact Hv|done|zlia|]. intros st2 Hf2.
  eapply wp_mono; [apply (IH b' _ st2 Hb' Hall' Hw Hf2); zlia|]. intros [] st3 (l' & Hf3 & Hz & Himg).
  exists (e.1 ++ e.2 ++ l'). rewrite <- !app_assoc in *. split; [done|]. split; [zlia|].
  intros lo Hlo. split; [split|].
  - by apply holds_end.
  - unfold value_img. rewrite (proj2 (Z.eqb_neq w varying) Hw). split; [done|].
    rewrite app_assoc, <- Hlk. replace (zlen l + zlen e.1) with (zlen (l ++ e.1)) by zlia. apply holds_end. zlia.
  - specialize (Himg lo). unfold stride. rewrite (proj2 (Z.eqb_neq w varying) Hw).
    replace (zlen l + (klen + w)) with (zlen (l ++ e.1 ++ e.2)) by zlia. apply Himg. zlia.
Qed.

Definition heads (b : list entry) : list Z := concat ((fun e => e.1 ++ be4 0) <$> b).
Lemma heads_cons e b : heads (e :: b) = (e.1 ++ be4 0) ++ heads b.
Proof using. done. Qed.
Lemma heads_len b : Forall (fun e => zlen e.1 = klen) b -> zlen (heads b) = (klen + 4) * zlen b.
Proof using.
  induction 1 as [|e b He _ IH]; [rewrite Z.mul_0_r; done|]. rewrite heads_cons, !zlen_app, IH, zlen_cons.
  change (zlen (be4 0)) with 4. lia.
Qed.

Lemma put_heads_spec ch : forall b l st (Q : unit -> zcdb_builder -> Prop), Forall2 node_rep ch b -> Forall (fun e => zlen e.1 = klen) b ->
  file b0 l (zlen l) st -> zlen l + zlen (heads b) < 2 ^ 30 ->
  (forall st', file b0 (l ++ heads b) (zlen (l ++ heads b)) st' -> Q tt st') -> wp (put_heads klen ch) st Q.
Proof using Hklen.
  induction ch as [|n ch IH]; intros b l st Q Hb Hall Hf Hl HQ; inversion Hb as [|? e ? b' [Hk Hv] Hb']; subst.
  { apply wp_ret, HQ. by rewrite app_nil_r. }
  inversion_clear Hall as [|? ? Hlk Hall']. cbn [put_heads]. rewrite heads_cons in *.
  assert (zlen (be4 0) = 4) by done. zlen_facts. apply wp_bind. eapply put_opt_end; [done|exact Hk|done|zlia|].
  intros st1 Hf1. apply wp_bind. eapply (append_spec _ _ _ (be4 0)); [exact Hf1|zlia|]. intros st2 Hf2.
  eapply (IH b'); [done..|zlia|]. intros st3 Hf3. apply HQ. by rewrite <- !app_assoc in *.
Qed.

Lemma put_value_spec lo p hend l cur st buf v (Q : unit -> zcdb_builder -> Prop) : file b0 l cur st ->
  rep None buf v -> lo <= p -> 0 <= p -> p + 4 <= hend <= zlen l -> zlen l + zlen v + 5 < 2 ^ 30 ->
  (forall st' l' cur' o, file b0 l' cur' st' -> zlen l <= zlen l' <= zlen l + zlen v + 5 ->
     keeps (fun j => j < p \/ p + 4 <= j) l l' -> 0 < o < 2 ^ 30 -> hend <= o -> holds_at lo l' p (be4 o) ->
     holds_at hend l' o (cint_enc (zlen v) ++ v) -> Q tt st') ->
  wp (put_value p buf) st Q.
Proof using.
  intros Hf Hv Hlo Hp Hend Hl HQ. unfold put_value. rewrite (rep_len _ _ _ Hv). zlen_facts.
  apply wp_bind. eapply seek_end; [done|]. intros st1 Hf1. apply wp_bind. eapply ftell_spec; [done|].
  destruct (zcint_put_enc (zlen v)) as (r & E); [lia|]. apply wp_bind. eapply wp_of_option; [exact E|]. cbn [fst snd].
  destruct (cint_enc_ok cint_fuel (zlen v)) as [_ Hc]; [lia|]. fold (cint_enc (zlen v)) in Hc. unfold cint_fuel in Hc.
  rewrite zlen_to_nat, take_app_length. apply wp_bind. eapply append_spec; [exact Hf1|lia|]. intros st2 Hf2.
  apply wp_bind. eapply put_read_end; [exact Hf2|exact Hv|done|zlia|]. intros st3 Hf3.
  apply wp_bind. eapply seek_set; [exact Hf3|zlia|]. intros st4 Hf4.
  apply wp_bind. apply wp_put_int; [lia|]. eapply patch_spec; [exact Hf4|change (zlen (be4 (zlen l))) with 4; zlia|].
  change (zlen (be4 (zlen l))) with 4. intros st5 l5 Hf5 Hz5 Hcell Hk5. apply wp_ret.
  eapply (HQ st5 l5 _ (zlen l)); [exact Hf5|zlia| |lia|lia|by destruct Hcell as (_ & ? & ?)|].
  - eapply keeps_trans; [|exact Hk5]. rewrite <- app_assoc. apply keeps_app.
  - rewrite <- app_assoc in Hk5. eapply holds_keeps; [|exact Hk5|cbn; lia].
    apply holds_last. lia.
Qed.

Definition values_cost (b : list entry) : Z := zsum ((fun e => zlen e.2 + 5) <$> b).
Lemma values_cost_cons e b : values_cost (e :: b) = zlen e.2 + 5 + values_cost b.
Proof using. done. Qed.
Lemma values_cost_nonneg b : 0 <= values_cost b.
Proof using. apply zsum_nonneg. intros e. zlia. Qed.

Lemma put_values_spec lo offset3 hend ch : forall b ni l cur st, Forall2 node_rep ch b ->
  Forall (fun e => zlen e.1 = klen) b -> file b0 l cur st -> lo <= offset3 -> 0 <= offset3 -> 0 <= ni ->
  holds_at lo l (offset3 + (klen + 4) * ni) (heads b) -> offset3 + (klen + 4) * ni + zlen (heads b) <= hend ->
  hend <= zlen l -> zlen l + values_cost b < 2 ^ 30 ->
  wp (put_values klen offset3 ni ch) st (fun _ st' => exists l' cur', file b0 l' cur' st' /\
    zlen l <= zlen l' <= zlen l + values_cost b /\
    keeps (fun j => j < offset3 + (klen + 4) * ni \/ hend <= j) l l' /\
    nodes_img klen varying lo l' (offset3 + (klen + 4) * ni) b).
Proof using Hklen.
  induction ch as [|n ch IH]; intros b ni l cur st Hb Hall Hf Hlo Ho3 Hni Hheads Hh Hhend Hl;
    inversion Hb as [|? e ? b' [Hk Hv] Hb']; subst.
  { apply wp_ret. exists l, cur. split; [done|]. split; [change (values_cost []) with 0; lia|].
    split; [apply keeps_refl|done]. }
  inversion_clear Hall as [|? ? Hlk Hall']. cbn [put_values]. set (p := offset3 + (klen + 4) * ni) in *.
  rewrite values_cost_cons, heads_cons in *. pose proof (values_cost_nonneg b').
  apply holds_app in Hheads as [[Hkey Hcell]%holds_app Hrest]. rewrite Hlk in *. rewrite zlen_app in Hrest, Hh.
  assert (H4 : zlen (be4 0) = 4) by done. rewrite zlen_app, Hlk, H4 in *. zlen_facts.
  assert (Hp : 0 <= p) by (unfold p; nia).
  assert (Enext : offset3 + (klen + 4) * (ni + 1) = p + (klen + 4)) by (unfold p; lia). rewrite (rep_len _ _ _ Hv).
  assert (Hgo : forall l1 cur1 st1, file b0 l1 cur1 st1 -> zlen l <= zlen l1 <= zlen l + (zlen e.2 + 5) ->
    keeps (fun j => j < p + klen \/ p + klen + 4 <= j) l l1 ->
    (forall l', keeps (fun j => j < p + (klen + 4) \/ hend <= j) l1 l' -> value_img varying lo l' (p + klen) e.2) ->
    wp (put_values klen offset3 (ni + 1) ch) st1 (fun _ st' => exists l' cur', file b0 l' cur' st' /\
      zlen l <= zlen l' <= zlen l + (zlen e.2 + 5 + values_cost b') /\ keeps (fun j => j < p \/ hend <= j) l l' /\
      nodes_img klen varying lo l' p (e :: b'))).
  { intros l1 cur1 st1 Hf1 Hz1 Hk1 Hval. eapply wp_mono.
    { eapply (IH b'); try done; rewrite ?Enext; try lia. eapply holds_keeps; [exact Hrest|exact Hk1|cbn; lia]. }
    rewrite Enext. intros [] st2 (l2 & cur2 & Hf2 & Hz2 & Hk2 & Himg). exists l2, cur2. split; [done|]. split; [lia|]. split.
    - eapply keeps_trans; [eapply keeps_weaken; [exact Hk1|]|eapply keeps_weaken; [exact Hk2|]]; cbn; lia.
    - split; [split|].
      + eapply holds_keeps; [eapply holds_keeps; [exact Hkey|exact Hk1|]|exact Hk2|]; cbn; lia.
      + by apply Hval.
      + unfold stride. rewrite Z.eqb_refl. exact Himg. }
  apply wp_bind. destruct (Z.eqb_spec (zlen e.2) 0) as [Ev|Hne].
  - apply wp_ret, (Hgo l cur st); [done|lia|apply keeps_refl|]. intros l' Hk'. unfold value_img. rewrite Z.eqb_refl.
    apply zlen_inv_nil in Ev. rewrite Ev. eapply holds_keeps; [exact Hcell|exact Hk'|cbn; lia].
  - eapply (put_value_spec lo (p + klen) hend); [done|exact Hv|lia..|].
    intros st1 l1 cur1 o Hf1 Hz1 Hk1 Ho Hho Hpo Hvo. apply (Hgo l1 cur1 st1); [done|lia|done|].
    intros l' Hk'. unfold value_img. rewrite Z.eqb_refl. destruct e.2 as [|c v]; [done|]. exists o. split; [done|].
    split; [eapply holds_keeps; [exact Hpo|exact Hk'|change (zlen (be4 o)) with 4; cbn; lia]|].
    apply holds_weaken with hend; [|lia]. eapply holds_keeps; [exact Hvo|exact Hk'|cbn; lia].
Qed.
End chains.

(** ** Buckets *)
Definition bucket_cost (b : list entry) : Z := if is_empty b then 0 else 4 + chain_cost b.
Lemma bucket_cost_nonneg b : 0 <= bucket_cost b.
Proof. unfold bucket_cost. pose proof (chain_cost_nonneg b). destruct (is_empty b); lia. Qed.
Lemma heads_cost klen b : Forall (fun e => zlen e.1 = klen) b -> zlen (heads b) + values_cost b = chain_cost b.
Proof.
  induction 1 as [|e b He _ IH]; [done|]. rewrite heads_cons, !zlen_app, values_cost_cons, chain_cost_cons, <- IH.
  unfold node_cost. change (zlen (be4 0)) with 4. lia.
Qed.
(** The values of [b] fit the mode [w]. *)
Definition values_fit (w : Z) (b : list entry) : Prop := w = varying \/ Forall (fun e => zlen e.2 = w) b.

Section buckets.
Context (b0 : zcdb_builder) (klen w : Z).
Hypothesis Hklen : 0 <= klen.

Lemma chain_body ch b base l st : Forall2 node_rep ch b -> Forall (fun e => zlen e.1 = klen) b -> values_fit w b ->
  file b0 l (zlen l) st -> 0 <= base <= zlen l -> zlen l + chain_cost b < 2 ^ 30 ->
  wp (if w =? varying then offset3 ← _zcdb_builder_ftell; put_heads klen ch;; put_values klen offset3 0 ch
      else put_pairs klen w ch) st (fun _ st' => exists l' cur', file b0 l' cur' st' /\
    zlen l <= zlen l' <= zlen l + chain_cost b /\ keeps (fun j => j < zlen l) l l' /\ nodes_img klen w base l' (zlen l) b).
Proof using Hklen.
  intros Hb Hk Hfit Hf Hbase Hl. pose proof (heads_cost klen b Hk) as Hcost. pose proof (values_cost_nonneg b).
  destruct (Z.eqb_spec w varying) as [->|Hw].
  - apply wp_bind. eapply ftell_spec; [done|]. apply wp_bind.
    eapply (put_heads_spec b0 klen Hklen ch b); [done..|lia|]. intros st1 Hf1.
    assert (E0 : zlen l + (klen + 4) * 0 = zlen l) by lia. zlen_facts. eapply wp_mono.
    { eapply (put_values_spec b0 klen Hklen base (zlen l) (zlen (l ++ heads b)) ch b 0); try done; try lia;
        rewrite ?E0, ?zlen_app; try lia. apply holds_last. lia. }
    intros [] st2 (l2 & cur2 & Hf2 & Hz & Hk2 & Himg). rewrite E0 in *. exists l2, cur2.
    split; [done|]. rewrite zlen_app in Hz. split; [lia|]. split; [|done].
    eapply keeps_trans; [apply (keeps_app _ l (heads b))|]. eapply keeps_weaken; [exact Hk2|]. cbn. lia.
  - destruct Hfit as [?|Hval]; [done|]. eapply wp_mono.
    { eapply (put_pairs_spec b0 klen Hklen w ch b l); try done. rewrite Forall_forall in *. intros e He. split; [by apply Hk|by apply Hval]. }
    intros [] st1 (l' & Hf1 & Hz & Himg). exists (l ++ l'), (zlen (l ++ l')). split; [done|]. zlen_facts.
    rewrite zlen_app in *. split; [lia|]. split; [apply keeps_app|]. apply Himg. lia.
Qed.

Lemma compile_bucket_spec lo base o1 vec i ch b l cur st : rd vec (Z.of_nat i) = Some ch -> Forall2 node_rep ch b ->
  Forall (fun e => zlen e.1 = klen) b -> values_fit w b -> file b0 l cur st ->
  let s := o1 + 4 * Z.of_nat i in 0 <= lo <= s -> s + 4 <= base <= zlen l -> zlen l + bucket_cost b < 2 ^ 30 ->
  wp (compile_bucket w klen o1 vec (Z.of_nat i)) st (fun _ st' => exists l' cur', file b0 l' cur' st' /\
    zlen l <= zlen l' <= zlen l + bucket_cost b /\ keeps (fun j => j < s \/ s + 4 <= j) l l' /\
    cell_img lo l' s (is_empty b) (fun p => bucket_img klen w base l' p b)).
Proof using Hklen.
  intros Hrd Hb Hk Hfit Hf s Hlo Hbase Hl. unfold compile_bucket. fold s. pose proof (bucket_cost_nonneg b).
  apply wp_bind. eapply seek_end; [done|]. intros st1 Hf1. apply wp_bind. eapply ftell_spec; [done|].
  apply wp_bind. eapply seek_set; [exact Hf1|lia|]. intros st2 Hf2. apply wp_bind. eapply wp_of_option; [exact Hrd|].
  destruct Hb as [|n e ch b' Hn Hb].
  - apply wp_bind. eapply (patch_spec _ _ _ _ (be4 0)); [exact Hf2|change (zlen (be4 0)) with 4; lia|].
    change (zlen (be4 0)) with 4. intros st3 l3 Hf3 Hz3 Hc3 Hk3. apply wp_ret. exists l3, (s + 4). split; [done|].
    split; [cbn; lia|]. split; [done|]. destruct Hc3 as (_ & ? & ?). split; [lia|by split].
  - assert (Hcost : bucket_cost (e :: b') = 4 + chain_cost (e :: b')) by done.
    assert (Hn0 : zlen (e :: b') <= chain_cost (e :: b')).
    { clear. induction (e :: b') as [|d b IH]; [done|]. rewrite chain_cost_cons, zlen_cons. unfold node_cost. zlia. }
    pose proof (chain_cost_nonneg (e :: b')). zlen_facts.
    apply wp_bind. apply wp_put_int; [lia|]. eapply patch_spec; [exact Hf2|change (zlen (be4 (zlen l))) with 4; lia|].
    change (zlen (be4 (zlen l))) with 4. intros st3 l3 Hf3 Hz3 Hc3 Hk3. apply wp_bind.
    eapply seek_end; [exact Hf3|]. intros st4 Hf4. apply wp_bind.
    replace (zlen (n :: ch)) with (zlen (e :: b')) by (rewrite !zlen_cons; unfold zlen; by rewrite (Forall2_length _ _ _ Hb)).
    apply wp_put_int; [lia|]. eapply append_spec; [exact Hf4|change (zlen (be4 (zlen (e :: b')))) with 4; lia|]. intros st5 Hf5.
    assert (Hz5 : zlen (l3 ++ be4 (zlen (e :: b'))) = zlen l + 4) by (rewrite zlen_app, Hz3; done).
    eapply wp_mono; [eapply (chain_body (n :: ch) (e :: b') base _ st5); [by constructor|done|done|exact Hf5|lia|lia]|].
    rewrite Hz5. intros [] st6 (l6 & cur6 & Hf6 & Hz6 & Hk6 & Himg). exists l6, cur6. split; [done|]. split; [lia|]. split.
    + eapply keeps_trans; [exact Hk3|]. intros j y Hj Hy. apply Hk6; [apply lookup_lt_Some in Hy; unfold zlen in *; lia|].
      by apply lookup_app_l_Some.
    + exists (zlen l). split; [lia|]. split.
      * destruct Hc3 as (_ & Hs & Hc3). split; [lia|]. split; [done|]. intros j y Hj. apply Hk6.
        { apply lookup_lt_Some in Hj. cbn in Hj. lia. }
        by apply lookup_app_l_Some, Hc3.
      * split; [|done]. eapply holds_keeps; [|exact Hk6|change (zlen (be4 (zlen (e :: b')))) with 4; cbn; lia].
        rewrite <- Hz3. apply holds_last. lia.
Qed.
End buckets.

(** ** Loops over cells *)
Section cells.
Context (b0 : zcdb_builder) (body : Z -> CB unit) (start base : Z) (n : nat).
Context (C : nat -> list Z -> Prop) (cost : nat -> Z).
Hypothesis Hstart : 0 <= start.
Hypothesis Hbase : start + 4 * Z.of_nat n <= base.
Hypothesis Hcost : forall i, 0 <= cost i.
Hypothesis Hkeep : forall i l l', (i < n)%nat -> C i l ->
  keeps (fun j => base <= j \/ start + 4 * Z.of_nat i <= j < start + 4 * Z.of_nat i + 4) l l' -> C i l'.
Hypothesis Hbody : forall i l cur st, (i < n)%nat -> file b0 l cur st -> base <= zlen l -> zlen l + cost i < 2 ^ 30 ->
  wp (body (Z.of_nat i)) st (fun _ st' => exists l' cur', file b0 l' cur' st' /\
    zlen l <= zlen l' <= zlen l + cost i /\
    keeps (fun j => j < start + 4 * Z.of_nat i \/ start + 4 * Z.of_nat i + 4 <= j) l l' /\ C i l').

Lemma cells_loop m : forall i l cur st, (i + m = n)%nat -> file b0 l cur st -> base <= zlen l ->
  zlen l + zsum (cost <$> seq i m) < 2 ^ 30 ->
  wp (for_loop m (Z.of_nat i) body) st (fun _ st' => exists l' cur', file b0 l' cur' st' /\
    zlen l <= zlen l' <= zlen l + zsum (cost <$> seq i m) /\
    keeps (fun j => j < start + 4 * Z.of_nat i \/ start + 4 * Z.of_nat n <= j) l l' /\
    forall k, (i <= k < n)%nat -> C k l').
Proof using Hstart Hbase Hcost Hkeep Hbody.
  induction m as [|m IH]; intros i l cur st Hi Hf Hb Hl; cbn [for_loop seq] in *.
  { apply wp_ret. exists l, cur. split; [done|]. split; [cbn; lia|]. split; [apply keeps_refl|lia]. }
  rewrite fmap_cons in *. cbn [zsum foldr] in *. fold (zsum (cost <$> seq (S i) m)) in *.
  pose proof (zsum_nonneg cost (seq (S i) m) Hcost). apply wp_bind.
  eapply wp_mono; [apply (Hbody i l cur st); [lia|done|done|lia]|]. intros [] st1 (l1 & cur1 & Hf1 & Hz1 & Hk1 & HC1).
  replace (Z.of_nat i + 1) with (Z.of_nat (S i)) by lia.
  eapply wp_mono; [apply (IH (S i) l1 cur1 st1); [lia|done|lia|lia]|]. intros [] st2 (l2 & cur2 & Hf2 & Hz2 & Hk2 & HC2).
  exists l2, cur2. split; [done|]. split; [lia|]. split.
  - eapply keeps_trans; [eapply keeps_weaken; [exact Hk1|]|eapply keeps_weaken; [exact Hk2|]]; cbn beta; lia.
  - intros k Hk. destruct (Nat.eq_dec k i) as [->|]; [|apply HC2; lia].
    eapply Hkeep; [lia|exact HC1|]. eapply keeps_weaken; [exact Hk2|]. cbn beta. lia.
Qed.
Lemma cells_all l cur st : file b0 l cur st -> base <= zlen l -> zlen l + zsum (cost <$> seq 0 n) < 2 ^ 30 ->
  wp (for_loop n 0 body) st (fun _ st' => exists l' cur', file b0 l' cur' st' /\
    zlen l <= zlen l' <= zlen l + zsum (cost <$> seq 0 n) /\
    keeps (fun j => j < start \/ start + 4 * Z.of_nat n <= j) l l' /\ forall k, (k < n)%nat -> C k l').
Proof using Hstart Hbase Hcost Hkeep Hbody.
  intros Hf Hb Hl. eapply wp_mono; [by apply (cells_loop n 0 l cur st)|].
  intros [] st' (l' & cur' & ? & ? & Hk & HC). exists l', cur'. split; [done|]. split; [done|].
  split; [eapply keeps_weaken; [exact Hk|cbn; lia]|]. intros k Hk'. apply HC. lia.
Qed.
End cells.

Lemma cell_keep lo base l l' s empty P P' : cell_img lo l s empty P ->
  keeps (fun j => base <= j \/ s <= j < s + 4) l l' -> (forall p, P p -> keeps (above base) l l' -> P' p) ->
  cell_img lo l' s empty P'.
Proof.
  intros Hc Hk HP. unfold cell_img in *. destruct empty.
  - eapply holds_keeps; [exact Hc|exact Hk|change (zlen (be4 0)) with 4; cbn; lia].
  - destruct Hc as (o & Ho & Hs & Hp). exists o. split; [done|]. split.
    + eapply holds_keeps; [exact Hs|exact Hk|change (zlen (be4 o)) with 4; cbn; lia].
    + apply HP; [done|]. eapply keeps_weaken; [exact Hk|cbn; lia].
Qed.
Lemma zsum_take {A} (f : A -> Z) l : forall n i, (forall k, (k < n)%nat -> is_Some (l !! (i + k)%nat)) ->
  zsum ((fun k => default 0 (f <$> l !! k)) <$> seq i n) = zsum (f <$> take n (drop i l)).
Proof.
  intros n. induction n as [|n IH]; intros i Hn; [by rewrite take_0|]. cbn [seq]. rewrite fmap_cons.
  destruct (Hn 0%nat ltac:(lia)) as [x Hx]. rewrite Nat.add_0_r in Hx. rewrite Hx.
  rewrite (drop_S l x i Hx), firstn_cons, fmap_cons. cbn [zsum foldr default fmap option_fmap option_map id].
  f_equal. apply IH. intros k Hk. destruct (Hn (S k)) as [y Hy]; [lia|]. exists y.
  by replace (S i + k)%nat with (i + S k)%nat by lia.
Qed.
Lemma put_zeros_spec b0 n : forall i l st (Q : unit -> zcdb_builder -> Prop), file b0 l (zlen l) st ->
  zlen l + 4 * Z.of_nat n < 2 ^ 30 ->
  (forall st' l', file b0 (l ++ l') (zlen (l ++ l')) st' -> zlen l' = 4 * Z.of_nat n -> Q tt st') ->
  wp (for_loop n i (fun _ => put_zero;; skip)) st Q.
Proof.
  induction n as [|n IH]; intros i l st Q Hf Hl HQ; cbn [for_loop].
  { apply wp_ret, (HQ st []); [by rewrite app_nil_r|done]. }
  zlen_facts. apply wp_bind, wp_bind. eapply (append_spec _ _ _ (be4 0)); [done|change (zlen (be4 0)) with 4; lia|].
  intros st1 Hf1. apply wp_ret. apply (IH _ _ st1 _ Hf1); [rewrite zlen_app; change (zlen (be4 0)) with 4; lia|].
  intros st2 l2 Hf2 Hz2. rewrite <- app_assoc in Hf2. apply (HQ st2 _ Hf2). rewrite zlen_app, Hz2. change (zlen (be4 0)) with 4. lia.
Qed.

(** ** Tables *)
Definition table_cost (bs : list (list entry)) : Z :=
  if is_empty bs then 0 else 4 + 4 * zlen bs + zsum (bucket_cost <$> bs).
Lemma table_cost_nonneg bs : 0 <= table_cost bs.
Proof.
  unfold table_cost. pose proof (zsum_nonneg bucket_cost bs bucket_cost_nonneg). zlen_facts. destruct (is_empty bs); lia.
Qed.
Lemma default_cost_nonneg {A} (f : A -> Z) (l : list A) (k : nat) : (forall x, 0 <= f x) -> 0 <= default 0 (f <$> l !! k).
Proof. intros Hf. destruct (l !! k); cbn; [apply Hf|done]. Qed.

Section tables.
Context (b0 : zcdb_builder) (w : Z).

Lemma buckets_spec klen t bs lo l st : 0 <= klen -> table_rep klen t bs -> Forall (values_fit w) bs ->
  let n := bt_size t in let o1 := zlen l - 4 * n in
  file b0 l (zlen l) st -> 0 <= lo <= o1 -> zlen l + zsum (bucket_cost <$> bs) < 2 ^ 30 ->
  wp (for_loop (Z.to_nat n) 0 (compile_bucket w klen o1 (bt_vec t))) st (fun _ st' => exists l' cur',
    file b0 l' cur' st' /\ zlen l <= zlen l' <= zlen l + zsum (bucket_cost <$> bs) /\ keeps (fun j => j < o1) l l' /\
    forall i b, bs !! i = Some b -> cell_img lo l' (o1 + 4 * Z.of_nat i) (is_empty b) (fun p => bucket_img klen w lo l' p b)).
Proof.
  intros Hkl [Hv Hsz _ _ _ _] Hfit n o1 Hf Hlo Hl. unfold n. rewrite Hsz, zlen_to_nat. zlen_facts.
  assert (Hn : n = zlen bs) by done.
  pose proof (zsum_take bucket_cost bs (length bs) 0) as Hsum. rewrite drop_0, firstn_all in Hsum.
  rewrite <- Hsum in Hl |- * by (intros k Hk; by apply lookup_lt_is_Some_2).
  eapply wp_mono.
  { eapply (cells_all b0 (compile_bucket w klen o1 (bt_vec t)) o1 (zlen l) (length bs)
      (fun i l' => forall b, bs !! i = Some b ->
         cell_img lo l' (o1 + 4 * Z.of_nat i) (is_empty b) (fun p => bucket_img klen w (zlen l) l' p b))
      (fun k => default 0 (bucket_cost <$> bs !! k))); try done.
    - lia.
    - unfold o1, zlen in *. lia.
    - intros i. apply default_cost_nonneg, bucket_cost_nonneg.
    - intros i l1 l2 Hi HC Hk b Hb. eapply cell_keep; [by apply HC|exact Hk|].
      intros p Hp Hka. eapply bucket_above; [exact Hp|exact Hka|lia].
    - intros i l1 cur1 st1 Hi Hf1 Hb1 Hc1. destruct (lookup_lt_is_Some_2 bs i Hi) as [b Hb].
      rewrite Hb in Hc1 |- *. cbn [default fmap option_fmap option_map] in *.
      destruct (Forall2_lookup_r _ _ _ _ _ (vr_nodes _ _ _ Hv) Hb) as (ch & Hch & Hchb).
      eapply wp_mono.
      { eapply (compile_bucket_spec b0 klen w Hkl lo (zlen l) o1 (bt_vec t) i ch b l1 cur1 st1); try done.
        - unfold rd. destruct (Z.ltb_spec (Z.of_nat i) 0); [lia|]. by rewrite Nat2Z.id.
        - pose proof (Forall_lookup_1 _ _ _ _ (vr_keys _ _ _ Hv) Hb) as Hk. eapply Forall_impl; [exact Hk|]. by intros ? [].
        - by eapply (Forall_lookup_1 _ _ _ _ Hfit).
        - lia.
        - unfold o1, zlen in *. lia. }
      intros [] st2 (l2 & cur2 & ? & ? & ? & Himg). exists l2, cur2. split; [done|]. split; [done|]. split; [done|].
      intros b' [= <-]. exact Himg. }
  intros [] st1 (l1 & cur1 & Hf1 & Hz1 & Hk1 & HC). exists l1, cur1. split; [done|]. split; [done|]. split.
  - eapply keeps_weaken; [exact Hk1|cbn; lia].
  - intros i b Hb. pose proof (lookup_lt_Some _ _ _ Hb). eapply cell_above; [apply HC; [lia|done]|apply keeps_refl|lia|].
    intros p Hp. eapply bucket_above; [exact Hp|apply keeps_refl|lia].
Qed.

Lemma compile_table_spec base i t bs l cur st : rd (cb_tables b0) (Z.of_nat i) = Some t -> table_at i t bs ->
  Forall (values_fit w) bs -> file b0 l cur st -> let s := 24 + 4 * Z.of_nat i in s + 4 <= base <= zlen l ->
  zlen l + table_cost bs < 2 ^ 30 ->
  wp (compile_table w (Z.of_nat i)) st (fun _ st' => exists l' cur', file b0 l' cur' st' /\
    zlen l <= zlen l' <= zlen l + table_cost bs /\ keeps (fun j => j < s \/ s + 4 <= j) l l' /\
    cell_img 24 l' s (is_empty bs) (fun p => table_img (Z.of_nat i) w base l' p bs)).
Proof.
  intros Hrd Hat Hfit Hf s Hbase Hl. unfold compile_table. fold s. pose proof (table_cost_nonneg bs).
  assert (Hs : 24 <= s) by (unfold s; lia).
  apply wp_bind. eapply seek_end; [done|]. intros st1 Hf1. apply wp_bind. eapply ftell_spec; [done|].
  destruct (Z.ltb_spec (2147483648 - 1024 * 1024 * 100) (zlen l)); [lia|].
  apply wp_bind. eapply seek_set; [exact Hf1|lia|]. intros st2 Hf2. apply wp_bind, wp_gets. apply wp_bind.
  rewrite (file_field _ _ _ _ cb_tables Hf2) by done. eapply wp_of_option; [exact Hrd|].
  destruct t as [t|]; cbn in Hat.
  - destruct Hat as [Ht Hne]. pose proof (tr_slots _ _ _ Ht) as Hslots. pose proof (tr_size _ _ _ Ht) as Hsz.
    assert (Hcost : table_cost bs = 4 + 4 * zlen bs + zsum (bucket_cost <$> bs)) by (by destruct bs).
    pose proof (zsum_nonneg bucket_cost bs bucket_cost_nonneg). zlen_facts.
    apply wp_bind. apply wp_put_int; [lia|]. eapply patch_spec; [exact Hf2|change (zlen (be4 (zlen l))) with 4; lia|].
    change (zlen (be4 (zlen l))) with 4. intros st3 l3 Hf3 Hz3 Hc3 Hk3. apply wp_bind.
    eapply seek_end; [exact Hf3|]. intros st4 Hf4. apply wp_bind. rewrite Hsz. apply wp_put_int; [lia|].
    eapply append_spec; [exact Hf4|change (zlen (be4 (zlen bs))) with 4; lia|]. intros st5 Hf5.
    assert (Hz5 : zlen (l3 ++ be4 (zlen bs)) = zlen l + 4) by (rewrite zlen_app, Hz3; done).
    apply wp_bind. eapply ftell_spec; [exact Hf5|]. apply wp_bind. rewrite zlen_to_nat.
    eapply put_zeros_spec; [exact Hf5|unfold zlen in *; lia|]. intros st6 l6 Hf6 Hz6.
    assert (Hz7 : zlen ((l3 ++ be4 (zlen bs)) ++ l6) = zlen l + 4 + 4 * zlen bs) by (rewrite zlen_app, Hz5, Hz6; unfold zlen; lia).
    pose proof (buckets_spec (Z.of_nat i) t bs base _ st6 ltac:(lia) Ht Hfit Hf6) as Hbk. cbn zeta in Hbk.
    rewrite Hsz, Hz7, zlen_to_nat in Hbk. replace (zlen l + 4 + 4 * zlen bs - 4 * zlen bs) with (zlen l + 4) in Hbk by lia.
    rewrite Hz5. eapply wp_mono; [apply Hbk; lia|]. intros [] st7 (l7 & cur7 & Hf7 & Hz8 & Hk7 & Himg).
    exists l7, cur7. split; [done|]. split; [lia|].
    assert (Hkall : keeps (fun j => j < zlen l) l3 l7).
    { eapply keeps_trans; [|eapply keeps_weaken; [exact Hk7|cbn; lia]]. rewrite <- app_assoc. apply keeps_app. }
    split.
    + intros j y Hj Hy. apply Hkall; [apply lookup_lt_Some in Hy; unfold zlen in *; lia|by apply Hk3].
    + replace (is_empty bs) with false by (by destruct bs). exists (zlen l). split; [lia|]. split; [|split].
      * destruct Hc3 as (_ & ? & ?). eapply (holds_keeps _ 24); [by split|exact Hkall|change (zlen (be4 (zlen l))) with 4; cbn; lia].
      * eapply (holds_keeps _ base); [|exact Hk7|change (zlen (be4 (zlen bs))) with 4; cbn; lia].
        rewrite <- app_assoc, <- Hz3. apply holds_end. lia.
      * exact Himg.
  - subst bs. apply wp_bind. eapply (patch_spec _ _ _ _ (be4 0)); [exact Hf2|change (zlen (be4 0)) with 4; lia|].
    change (zlen (be4 0)) with 4. intros st3 l3 Hf3 Hz3 Hc3 Hk3. apply wp_ret. exists l3, (s + 4). split; [done|].
    split; [cbn; lia|]. split; [done|]. destruct Hc3 as (_ & ? & ?). by split.
Qed.

Lemma tables_spec abs n l st : length abs = n -> 
  (forall i bs, abs !! i = Some bs -> exists t, rd (cb_tables b0) (Z.of_nat i) = Some t /\ table_at i t bs) ->
  Forall (Forall (values_fit w)) abs -> file b0 l (zlen l) st -> zlen l = 24 + 4 * Z.of_nat n ->
  zlen l + zsum (table_cost <$> abs) < 2 ^ 30 ->
  wp (for_loop n 0 (compile_table w)) st (fun _ st' => exists l' cur', file b0 l' cur' st' /\
    zlen l <= zlen l' /\ keeps (fun j => j < 24) l l' /\ root_img 24 w l' abs).
Proof.
  intros Hn Htab Hfit Hf Hz Hl. pose proof (zsum_take table_cost abs n 0) as Hsum. rewrite drop_0, firstn_all2 in Hsum by lia.
  rewrite <- Hsum in Hl by (intros k Hk; apply lookup_lt_is_Some_2; lia).
  eapply wp_mono.
  { eapply (cells_all b0 (compile_table w) 24 (zlen l) n (fun i l' => forall bs, abs !! i = Some bs ->
       cell_img 24 l' (24 + 4 * Z.of_nat i) (is_empty bs) (fun p => table_img (Z.of_nat i) w (zlen l) l' p bs))
      (fun k => default 0 (table_cost <$> abs !! k))); try done.
    - lia.
    - intros i. apply default_cost_nonneg, table_cost_nonneg.
    - intros i l1 l2 Hi HC Hk bs Hbs. eapply cell_keep; [by apply HC|exact Hk|].
      intros p Hp Hka. eapply table_above; [exact Hp|exact Hka|lia].
    - intros i l1 cur1 st1 Hi Hf1 Hb1 Hc1. destruct (lookup_lt_is_Some_2 abs i) as [bs Hbs]; [lia|].
      rewrite Hbs in Hc1 |- *. cbn [default fmap option_fmap option_map] in *. destruct (Htab i bs Hbs) as (t & Ht & Hat).
      eapply wp_mono.
      { eapply (compile_table_spec (zlen l) i t bs l1 cur1 st1); try done; [by eapply (Forall_lookup_1 _ _ _ _ Hfit)|lia]. }
      intros [] st2 (l2 & cur2 & ? & ? & ? & Himg). exists l2, cur2. split; [done|]. split; [done|]. split; [done|].
      intros bs' [= <-]. exact Himg. }
  intros [] st1 (l1 & cur1 & Hf1 & Hz1 & Hk1 & HC). exists l1, cur1. split; [done|]. split; [lia|]. split.
  - eapply keeps_weaken; [exact Hk1|cbn; lia].
  - intros i bs Hbs. pose proof (lookup_lt_Some _ _ _ Hbs). eapply cell_above; [apply HC; [lia|done]|apply keeps_refl|lia|].
    intros p Hp. eapply table_above; [exact Hp|apply keeps_refl|lia].
Qed.
End tables.

(** ** The whole file *)
Definition cdb_weight (es : list entry) : Z := zsum ((fun e => zlen e.1 + zlen e.2 + 40) <$> es).
Lemma zsum_app a b : zsum (a ++ b) = zsum a + zsum b.
Proof. induction a as [|x a IH]; [done|]. cbn [app zsum foldr] in *. unfold zsum in *. lia. Qed.
Lemma cdb_weight_app a b : cdb_weight (a ++ b) = cdb_weight a + cdb_weight b.
Proof. unfold cdb_weight. by rewrite fmap_app, zsum_app. Qed.
#[export] Instance zsum_perm : Proper ((≡ₚ) ==> (=)) zsum.
Proof. intros a b H. unfold zsum. induction H; simpl; [done|by rewrite IHPermutation|lia|congruence]. Qed.
Lemma chain_cost_weight b : chain_cost b + 31 * zlen b = cdb_weight b.
Proof.
  induction b as [|e b IH]; [done|]. change (e :: b) with ([e] ++ b). rewrite cdb_weight_app, <- IH.
  cbn [app]. rewrite chain_cost_cons, zlen_cons. unfold cdb_weight, node_cost. cbn. lia.
Qed.
Lemma buckets_cost_weight bs : zsum (bucket_cost <$> bs) + 27 * zlen (concat bs) <= cdb_weight (concat bs).
Proof.
  induction bs as [|b bs IH]; [done|]. rewrite fmap_cons. cbn [concat]. change (bucket_cost b :: ?l) with ([bucket_cost b] ++ l).
  rewrite zsum_app, cdb_weight_app, zlen_app. pose proof (chain_cost_weight b). unfold bucket_cost at 1.
  change (zsum [?x]) with (x + 0). destruct b as [|e b]; cbn [is_empty].
  - change (cdb_weight []) with 0. zlia.
  - rewrite zlen_cons in *. zlen_facts. lia.
Qed.
Lemma table_cost_weight klen t bs : table_at klen t bs -> table_cost bs <= cdb_weight (concat bs).
Proof.
  destruct t as [t|]; cbn; [|by intros ->]. intros [Ht Hne]. pose proof (tr_slots _ _ _ Ht) as Hs.
  pose proof (buckets_cost_weight bs). unfold table_cost. replace (is_empty bs) with false by (by destruct bs).
  destruct (concat bs) as [|e es]; [done|]. rewrite zlen_cons in *. zlen_facts. lia.
Qed.
Lemma tables_cost_weight abs : (forall bs, bs ∈ abs -> exists i t, table_at i t bs) ->
  zsum (table_cost <$> abs) <= cdb_weight (entries abs).
Proof.
  induction abs as [|bs abs IH]; intros H; [done|]. rewrite fmap_cons, entries_cons, cdb_weight_app.
  change (zsum (table_cost bs :: ?l)) with (table_cost bs + zsum l).
  destruct (H bs ltac:(by left)) as (i & t & Hat). pose proof (table_cost_weight i t bs Hat).
  assert (zsum (table_cost <$> abs) <= cdb_weight (entries abs)) by (apply IH; intros; apply H; by right). lia.
Qed.

Lemma table_in b abs m i bs : builder_rep b abs m -> abs !! i = Some bs ->
  exists t, rd (cb_tables b) (Z.of_nat i) = Some t /\ table_at i t bs.
Proof.
  intros Hb Hbs. pose proof (br_len _ _ _ Hb). pose proof (br_abs _ _ _ Hb). pose proof (lookup_lt_Some _ _ _ Hbs).
  destruct (lookup_lt_is_Some_2 (cb_tables b) i) as [t Ht]; [unfold zlen in *; lia|]. exists t.
  split; [unfold rd; destruct (Z.ltb_spec (Z.of_nat i) 0); [lia|by rewrite Nat2Z.id]|]. by eapply br_tables.
Qed.
Lemma bs_in b abs m bs e : builder_rep b abs m -> bs ∈ abs -> e ∈ concat bs -> m !! e.1 = Some e.2.
Proof.
  intros Hb Hbs He. apply elem_of_map_to_list. rewrite <- (br_entries _ _ _ Hb). destruct e as [k v]; cbn.
  apply elem_of_concat in He as (bk & He & Hbk). apply elem_of_concat. exists bk. split; [done|].
  apply elem_of_concat. by exists bs.
Qed.
Lemma tables_fit b abs m w : builder_rep b abs m -> map_Forall (fun _ v => w = varying \/ zlen v = w) m ->
  Forall (Forall (values_fit w)) abs.
Proof.
  intros Hb Hm. rewrite Forall_forall. intros bs Hbs. rewrite Forall_forall. intros bk Hbk. unfold values_fit.
  destruct (Z.eq_dec w varying); [by left|right]. rewrite Forall_forall. intros e He.
  destruct (Hm e.1 e.2) as [?|?]; [|done|done]. eapply bs_in; [done|exact Hbs|]. apply elem_of_concat. by exists bk.
Qed.
Lemma cost_bound b abs m n : builder_rep b abs m ->
  zsum (table_cost <$> take n abs) <= cdb_weight (map_to_list m).
Proof.
  intros Hb. etransitivity; [apply tables_cost_weight|].
  - intros bs (i & Hi)%list_elem_of_lookup. apply lookup_take_Some in Hi as [Hi _].
    destruct (table_in _ _ _ _ _ Hb Hi) as (t & _ & Hat). by exists i, t.
  - unfold cdb_weight at 2. rewrite <- (br_entries _ _ _ Hb). fold (cdb_weight (entries abs)).
    rewrite <- (take_drop n abs) at 2. rewrite entries_app, cdb_weight_app.
    assert (0 <= cdb_weight (entries (drop n abs))) by (apply zsum_nonneg; intros; zlia). lia.
Qed.

(** The first 24 bytes. *)
Definition header (count max_klen x : Z) : list Z :=
  (str "ZCDB" ++ str "0001") ++ be4 count ++ be4 count ++ be4 max_klen ++ be4 x.
Lemma header_written count max_klen x : 0 <= count < 2 ^ 32 -> 0 <= max_klen < 2 ^ 32 -> 0 <= x < 2 ^ 32 ->
  exists buf, (intbuf ← pack_at count (str "ZCDB" ++ str "0001" ++ replicate 57 0) 12;
    intbuf ← pack_at max_klen intbuf 16; intbuf ← pack_at x intbuf 20; pack_at count intbuf 8) = Some buf /\
    take 24 buf = header count max_klen x.
Proof.
  intros Hc Hm Hx. rewrite pack_at_be4 by (done || cbn; lia). cbn [mbind option_bind].
  rewrite pack_at_be4 by (done || cbn; lia). cbn [mbind option_bind].
  rewrite pack_at_be4 by (done || cbn; lia). cbn [mbind option_bind].
  rewrite pack_at_be4 by (done || cbn; lia). eexists. split; [done|]. reflexivity.
Qed.
Lemma header_img count max_klen x l' : let l := header count max_klen x ++ l' in
  holds_at 0 l 0 (str "ZCDB" ++ str "0001") /\ holds_at 0 l 12 (be4 count) /\ holds_at 0 l 16 (be4 max_klen).
Proof.
  intros l. assert (H : holds_at 0 l 0 (header count max_klen x)) by (apply (holds_end 0 []); done).
  unfold header in H. apply holds_app in H as [H0 [_ [H1 [H2 _]%holds_app]%holds_app]%holds_app]. done.
Qed.

Lemma zcdb_builder_compile_spec b abs m w : builder_rep b abs m -> file_of b = file_of zcdb_builder_create ->
  w = (if fst (lengths b) =? snd (lengths b) then snd (lengths b) else varying) -> 0 <= w < 2 ^ 30 ->
  map_Forall (fun _ v => w = varying \/ zlen v = w) m -> cdb_weight (map_to_list m) < 2 ^ 29 ->
  wp zcdb_builder_compile b (fun r b' => r = 1 /\ exists l, compiled b' = Some l /\
    db_img w (Z.of_nat (size m)) (take (Z.to_nat (cb_max_klen b + 1)) abs) l).
Proof.
  intros Hb Hfresh Ew Hw Hval Hweight. pose proof (br_max _ _ _ Hb) as Hmax. pose proof (br_abs _ _ _ Hb) as Habs.
  pose proof (br_count _ _ _ Hb) as Hcnt. unfold zvar_zcdb_max_key_len in *.
  assert (Hsize : Z.of_nat (size m) <= cdb_weight (map_to_list m)).
  { rewrite <- length_map_to_list. pose proof (chain_cost_weight (map_to_list m)).
    pose proof (chain_cost_nonneg (map_to_list m)). unfold zlen in *. lia. }
  set (n := Z.to_nat (cb_max_klen b + 1)). assert (Hn : length (take n abs) = n) by (rewrite length_take; unfold zlen in *; lia).
  unfold zcdb_builder_compile. apply wp_bind, wp_gets. cbn [id].
  injection Hfresh as Hd Hcap Hsz Hcur Herr Hover. rewrite Herr, Hover.
  apply wp_bind, wp_modify. apply wp_bind. set (b1 := mk_zcdb_builder _ _ _ _ _ _ _ _ _ _ _).
  assert (Hf1 : file b1 [] (zlen (@nil Z)) b1).
  { exists (zmalloc (1024 + 10)), 1024, 10. unfold b1, set_file. cbn [cb_error cb_over cb_tables cb_max_klen cb_count
      cb_val_length_min cb_val_length_max]. rewrite Hd, Hcap, Hsz, Hcur, Herr. zlen_nils. repeat split; (done || lia). }
  cbn [fst snd lengths] in Ew. rewrite <- Ew.
  set (x := if cb_val_length_min b =? cb_val_length_max b then cb_count b else varying).
  destruct (header_written (cb_count b) (cb_max_klen b) x) as (buf & -> & Ebuf);
    [lia|lia|unfold x, varying; destruct (_ =? _); lia|].
  eapply wp_of_option; [done|]. apply wp_bind. rewrite Ebuf.
  eapply append_spec; [exact Hf1|change (zlen (header (cb_count b) (cb_max_klen b) x)) with 24; zlen_nils; lia|].
  intros st2 Hf2. cbn [app] in Hf2. apply wp_bind. fold n.
  assert (Hhead : zlen (header (cb_count b) (cb_max_klen b) x) = 24) by done.
  eapply put_zeros_spec; [exact Hf2|rewrite Hhead; lia|]. intros st3 l3 Hf3 Hz3.
  assert (Hz3' : zlen (header (cb_count b) (cb_max_klen b) x ++ l3) = 24 + 4 * Z.of_nat n) by (rewrite zlen_app; lia).
  pose proof (cost_bound b abs m n Hb) as Hcost. apply wp_bind. eapply wp_mono.
  { eapply (tables_spec b1 w (take n abs) n); [done| |by apply Forall_take, (tables_fit b abs m)|exact Hf3|lia|lia].
    intros i bs [Hbs _]%lookup_take_Some. by eapply (table_in b abs m). }
  intros [] st4 (l4 & cur4 & Hf4 & Hz4 & Hk4 & Hroot). apply wp_bind. eapply seek_end; [exact Hf4|]. intros st5 Hf5.
  apply wp_bind. eapply ftell_spec; [exact Hf5|]. apply wp_bind. eapply seek_set; [exact Hf5|lia|]. intros st6 Hf6.
  assert (Hl4 : zlen l4 < 2 ^ 30) by (by destruct Hf4 as (? & ? & ? & _ & _ & _ & _ & _ & ? & _)). zlen_facts.
  apply wp_bind. apply wp_put_int; [lia|]. eapply patch_spec; [exact Hf6|change (zlen (be4 (zlen l4))) with 4; lia|].
  change (zlen (be4 (zlen l4))) with 4. intros st7 l7 Hf7 Hz7 Hc7 Hk7. apply wp_bind.
  eapply seek_set; [exact Hf7|lia|]. intros st8 Hf8. apply wp_bind. apply wp_put_int; [lia|].
  eapply patch_spec; [exact Hf8|change (zlen (be4 w)) with 4; lia|].
  change (zlen (be4 w)) with 4. intros st9 l9 Hf9 Hz9 Hc9 Hk9. apply wp_bind, wp_gets, wp_ret.
  cbn [id]. rewrite (file_field _ _ _ _ cb_error Hf9) by done. split; [unfold b1; cbn; by rewrite Herr|]. exists l9. split.
  { destruct Hf9 as (r9 & cap9 & j9 & -> & _). unfold compiled. cbn. rewrite zlen_to_nat. apply read_cells. }
  assert (Hkall : keeps (fun j => j < 8 \/ 12 <= j < 20) (header (cb_count b) (cb_max_klen b) x ++ l3) l9).
  { eapply keeps_trans; [|eapply keeps_trans; [eapply keeps_weaken; [exact Hk7|cbn; lia]|eapply keeps_weaken; [exact Hk9|cbn; lia]]].
    eapply keeps_weaken; [exact Hk4|cbn; lia]. }
  destruct (header_img (cb_count b) (cb_max_klen b) x l3) as (Hi0 & Hi1 & Hi2). split.
  - lia.
  - eapply holds_keeps; [exact Hi0|exact Hkall|change (zlen (str "ZCDB" ++ str "0001")) with 8; cbn; lia].
  - rewrite Hz9, Hz7. eapply holds_keeps; [exact Hc7|exact Hk9|change (zlen (be4 (zlen l4))) with 4; cbn; lia].
  - rewrite <- Hcnt. eapply holds_keeps; [exact Hi1|exact Hkall|change (zlen (be4 (cb_count b))) with 4; cbn; lia].
  - replace (zlen (take n abs) - 1) with (cb_max_klen b) by (unfold zlen; rewrite Hn; lia).
    eapply holds_keeps; [exact Hi2|exact Hkall|change (zlen (be4 (cb_max_klen b))) with 4; cbn; lia].
  - exact Hc9.
  - eapply root_above; [exact Hroot| |lia]. eapply keeps_trans; (eapply keeps_weaken; [eassumption|cbn; lia]).
Qed.
