(* ===== verification/CdbRead.v ===== *)
(** * Constant databases: what the reader finds in the file, from updates to queries *)
From stdpp Require Import gmap sorting.
From S2P Require Import Prelude Buf Crc Cint Rbset Maps StateMonad Cdb CdbBuild CdbFile.

(** ** The file and the map *)
Record buckets_ok (klen : Z) (bs : list (list entry)) : Prop := {
  bo_len : 0 < zlen bs < 2 ^ 30;
  bo_chains : Forall chain_ok bs;
  bo_keys : Forall (Forall (fun e => zlen e.1 = klen /\ bytes_ok e.1)) bs;
  bo_place : forall i b e, bs !! i = Some b -> e ∈ b -> djb e.1 mod zlen bs = Z.of_nat i;
  bo_count : zlen (concat bs) < 2 ^ 30;
  bo_empty : klen = 0 -> 3 <= zlen bs <= 5
}.
Record db_ok (w : Z) (abs : list (list (list entry))) (m : gmap (list Z) (list Z)) (l : list Z) : Prop := {
  do_img : db_img w (Z.of_nat (size m)) abs l;
  do_len : 0 < zlen abs <= zvar_zcdb_max_key_len + 1;
  do_width : 0 <= w < 2 ^ 30;
  do_size : Z.of_nat (size m) < 2 ^ 30;
  do_tables : forall i bs, abs !! i = Some bs -> bs = [] \/ buckets_ok (Z.of_nat i) bs;
  do_entries : entries abs ≡ₚ map_to_list m
}.
(** What the reader knows of it. *)
Definition db_of (w count : Z) (abs : list (list (list entry))) (l : list Z) : zcdb :=
  mk_zcdb l (zlen abs - 1) w count.

(** ** Opening *)
Lemma strncmp_same x a b : Forall (.≠ 0) x -> strncmp (x ++ a) (x ++ b) (length x) = Some 0.
Proof.
  induction 1 as [|c x Hc _ IH]; [by destruct a|]. cbn. rewrite Z.ltb_irrefl.
  destruct (Z.eqb_spec c 0); [done|]. exact IH.
Qed.
Lemma open_ok w abs m l : db_ok w abs m l ->
  zcdb_open_from_data l = Some (Some (db_of w (Z.of_nat (size m)) abs l)) /\
  zcdb_open (Some l) = Some (Some (db_of w (Z.of_nat (size m)) abs l)).
Proof.
  intros [[Hsm Hm Hl Hc Hx Hv _] Hlen Hw Hs _ _]. unfold zvar_zcdb_max_key_len in *.
  assert (E : _zcdb_open l = Some (Some (db_of w (Z.of_nat (size m)) abs l))).
  { destruct (holds_drop _ _ _ _ Hm) as [r E]. cbn [Z.to_nat drop] in E. unfold _zcdb_open. rewrite E at 1.
    rewrite <- app_assoc. rewrite (strncmp_same (str "ZCDB")) by (by repeat constructor). cbn [mbind option_bind Z.eqb negb].
    rewrite E at 1. rewrite <- app_assoc. change (drop 4 (str "ZCDB" ++ ?x)) with x.
    rewrite (strncmp_same (str "0001")) by (by repeat constructor). cbn [mbind option_bind Z.eqb negb].
    rewrite (holds_unpack _ _ _ _ Hc) by lia. cbn [mbind option_bind].
    rewrite (holds_unpack _ _ _ _ Hx) by lia. cbn [mbind option_bind].
    rewrite (holds_unpack _ _ _ _ Hv) by lia. done. }
  split; [exact E|]. unfold zcdb_open.
  assert (Hbig : 24 <= zlen l).
  { destruct Hv as (_ & _ & Hv). specialize (Hv 3%nat (w mod 256) eq_refl). apply lookup_lt_Some in Hv. unfold zlen. lia. }
  destruct (Z.ltb_spec (zlen l) 12); [lia|]. rewrite (holds_unpack _ _ _ _ Hl) by lia. cbn [mbind option_bind].
  by destruct (Z.ltb_spec (zlen l) (zlen l)); [lia|].
Qed.

(** ** Values *)

(** What a pointer and a length stand for; the pointer may be the blank buffer. *)
Definition denotes (l : list Z) (r : vref) (v : list Z) : Prop :=
  match r with
  | (None, n) => v = [] /\ n = 0
  | (Some p, n) => n = zlen v /\ read_at l p n = Some v
  end.

Lemma read_size_unescape fuel m src : forall off i size shift size' i' off',
  unescape_len fuel m src off i size shift = Some (Some (size', i', off')) ->
  read_size fuel m off size shift = Some (size', off').
Proof.
  induction fuel as [|fuel IH]; intros off i size shift size' i' off'; cbn; [done|].
  destruct (i =? src); [done|]. destruct (rd m off) as [ch|]; [|done]. cbn [mbind option_bind].
  destruct (31 <? shift); [done|]. destruct (negb (Z.land ch 128 =? 0)); [by intros [= <- _ <-]|apply IH].
Qed.
Lemma read_size_at lo l o n v : holds_at lo l o (cint_enc n ++ v) -> 0 <= n < 2 ^ 31 -> o <= zlen l ->
  read_size (S (length l)) l o 0 0 = Some (n, o + zlen (cint_enc n)).
Proof.
  intros H Hn Ho. destruct (holds_drop _ _ _ _ H) as [r E]. destruct H as (_ & H0 & _). rewrite <- app_assoc in E.
  assert (El : l = take (Z.to_nat o) l ++ cint_enc n ++ v ++ r) by (by rewrite <- E, take_drop).
  pose proof (cint_enc_read n (v ++ r) (take (Z.to_nat o) l) (zlen (cint_enc n)) Hn ltac:(lia)) as Hu.
  rewrite <- El, zlen_take in Hu by lia. by apply read_size_unescape in Hu.
Qed.
Lemma value_of_node_spec klen w count abs l p e : node_img klen w 0 l p e -> 0 <= w -> zlen e.2 < 2 ^ 31 ->
  exists r, value_of_node (db_of w count abs l) p klen = Some r /\ denotes l r e.2.
Proof.
  intros [_ Hv] Hw Hz. unfold value_of_node. cbn [cd_val_length cd_data db_of]. unfold value_img in Hv. zlen_facts.
  destruct (Z.eqb_spec w varying) as [E|Hne].
  - destruct e.2 as [|c v].
    + rewrite (holds_unpack _ _ _ _ Hv) by lia. by eexists.
    + destruct Hv as (o & Ho & Hp & Hval). rewrite (holds_unpack _ _ _ _ Hp) by lia. cbn [mbind option_bind].
      destruct (Z.eqb_spec o 0); [lia|]. pose proof (proj1 (holds_app _ _ _ _ _) Hval) as [_ Hdata].
      assert (Hol : o <= zlen l).
      { destruct Hdata as (_ & _ & Hd). specialize (Hd 0%nat c eq_refl). apply lookup_lt_Some in Hd. unfold zlen in *. lia. }
      rewrite (read_size_at _ _ _ _ _ Hval) by lia. eexists. split; [done|]. split; [done|]. by eapply holds_read.
  - destruct Hv as [Hw' Hv]. eexists. split; [done|]. split; [done|]. rewrite <- Hw'. by eapply holds_read.
Qed.

(** ** Searching a chain *)
Lemma nodes_lookup klen w lo l b : forall p i e, nodes_img klen w lo l p b -> b !! i = Some e ->
  node_img klen w lo l (p + Z.of_nat i * stride klen w) e.
Proof.
  induction b as [|d b IH]; intros p i e; [done|]. intros [Hd Hb]. destruct i as [|i]; cbn [lookup list_lookup].
  - intros [= <-]. by rewrite Z.add_0_r.
  - intros Hi. replace (p + Z.of_nat (S i) * stride klen w) with (p + stride klen w + Z.of_nat i * stride klen w) by lia.
    by apply IH.
Qed.

Lemma sorted_lookup b i j d e : chain_ok b -> b !! i = Some d -> b !! j = Some e -> (i < j)%nat -> strcmp d.1 e.1 < 0.
Proof.
  intros Ho. revert i j. induction Ho as [|x b _ IH Hx]; intros i j; [done|].
  destruct i as [|i], j as [|j]; cbn; try lia.
  - intros [= ->] Hj _. rewrite Forall_forall in Hx. apply Hx. by eapply list_elem_of_lookup_2.
  - intros. eapply IH; [done|done|lia].
Qed.

Section search.
Context (w count : Z) (abs : list (list (list entry))) (l : list Z) (klen p : Z) (b : list entry).
Context (key k : list Z).
Hypothesis Hkey : read_bytes key klen = Some k.
Hypothesis Himg : nodes_img klen w 0 l p b.
Hypothesis Hord : chain_ok b.
Hypothesis Hkeys : Forall (fun e => zlen e.1 = klen) b.
Hypothesis Hlen : zlen b < 2 ^ 30.

Lemma chain_search_spec fuel : forall left right, 0 <= left -> right < zlen b -> left <= right + 1 ->
  right - left + 1 < Z.of_nat fuel ->
  (forall i e, b !! i = Some e -> Z.of_nat i < left -> strcmp e.1 k < 0) ->
  (forall i e, b !! i = Some e -> right < Z.of_nat i -> strcmp k e.1 < 0) ->
  exists r, find_loop fuel (db_of w count abs l) key klen p (stride klen w - klen) left right = Some r /\
    match r with
    | Some q => exists i e, b !! i = Some e /\ e.1 = k /\ q = p + Z.of_nat i * stride klen w
    | None => k ∉ b.*1
    end.
Proof using Hkey Himg Hord Hkeys Hlen.
  induction fuel as [|fuel IH]; intros left right H0 Hr Hlr Hf Hlo Hhi; [lia|]. cbn [find_loop].
  destruct (Z.ltb_spec right left).
  { exists None. split; [done|]. intros (e & -> & (i & Hi)%list_elem_of_lookup)%list_elem_of_fmap.
    pose proof (strcmp_opp e.1 e.1). destruct (Z.lt_ge_cases (Z.of_nat i) left).
    - specialize (Hlo i e Hi ltac:(lia)). lia.
    - specialize (Hhi i e Hi ltac:(lia)). lia. }
  rewrite as_int_Some by lia. cbn [mbind option_bind cd_data db_of]. set (mid := (left + right) / 2).
  assert (Hmid : left <= mid <= right) by (unfold mid; zdiv).
  destruct (lookup_lt_is_Some_2 b (Z.to_nat mid)) as [e He]; [unfold zlen in *; lia|].
  pose proof (nodes_lookup _ _ _ _ _ _ _ _ Himg He) as [Hk _]. rewrite Z2Nat.id in Hk by lia.
  replace (klen + (stride klen w - klen)) with (stride klen w) by lia.
  pose proof (Forall_lookup_1 _ _ _ _ Hkeys He) as Hle. cbn in Hle.
  pose proof (holds_read _ _ _ _ Hk) as Hrd. rewrite Hle in Hrd. rewrite Hrd. cbn [mbind option_bind].
  rewrite (memcmp_read key e.1 klen k e.1) by (done || by apply read_bytes_self). cbn [mbind option_bind]. destruct (Z.eqb_spec (strcmp k e.1) 0) as [Heq|Hne].
  { apply strcmp_eq_iff in Heq. eexists. split; [done|]. exists (Z.to_nat mid), e. by rewrite Z2Nat.id by lia. }
  destruct (Z.ltb_spec (strcmp k e.1) 0).
  - apply IH; try lia; [done|]. intros i d Hi Hgt. destruct (Nat.eq_dec i (Z.to_nat mid)) as [->|]; [congruence|].
    eapply strcmp_lt_trans; [done|]. eapply sorted_lookup; [done|exact He|exact Hi|lia].
  - apply IH; try lia; [|done]. intros i d Hi Hlt. pose proof (strcmp_opp k e.1).
    destruct (Nat.eq_dec i (Z.to_nat mid)) as [->|]; [replace d with e by congruence; lia|].
    eapply (strcmp_lt_trans _ e.1); [|lia]. eapply sorted_lookup; [done|exact Hi|exact He|lia].
Qed.
End search.

(** ** Looking up *)
Section find.
Context (w : Z) (abs : list (list (list entry))) (m : gmap (list Z) (list Z)) (l : list Z).
Hypothesis Hdb : db_ok w abs m l.
Hypothesis Hvals : map_Forall (fun k v => zlen v < 2 ^ 31 /\ bytes_ok k) m.
Abbreviation cdb := (db_of w (Z.of_nat (size m)) abs l).

Lemma in_entries k v : m !! k = Some v <-> exists bs b, bs ∈ abs /\ b ∈ bs /\ (k, v) ∈ b.
Proof using Hdb.
  rewrite <- elem_of_map_to_list, <- (do_entries _ _ _ _ Hdb). unfold entries. rewrite elem_of_concat. split.
  - intros (b & Hin & (bs & Hb & Hbs)%elem_of_concat). by exists bs, b.
  - intros (bs & b & Hbs & Hb & Hin). exists b. split; [done|]. apply elem_of_concat. by exists bs.
Qed.
(** The entries with a key are in one bucket. *)
Lemma in_bucket k v : m !! k = Some v -> exists bs b, abs !! length k = Some bs /\ buckets_ok (zlen k) bs /\
  bs !! Z.to_nat (djb k mod zlen bs) = Some b /\ (k, v) ∈ b.
Proof using Hdb.
  intros (bs & b & Hbs & Hb & Hin)%in_entries. apply list_elem_of_lookup in Hbs as [i Hi].
  destruct (do_tables _ _ _ _ Hdb i bs Hi) as [->|Hok]; [by apply elem_of_nil in Hb|].
  pose proof (bo_keys _ _ Hok) as Hk. rewrite Forall_forall in Hk. specialize (Hk b Hb).
  rewrite Forall_forall in Hk. destruct (Hk _ Hin) as [Hlen _]. cbn in Hlen.
  assert (i = length k) as -> by (unfold zlen in Hlen; lia). exists bs, b. split; [done|]. split; [done|].
  split; [|done]. apply list_elem_of_lookup in Hb as [j Hj]. pose proof (bo_place _ _ Hok j b _ Hj Hin) as E.
  cbn [fst] in E. by rewrite E, Nat2Z.id.
Qed.

Lemma root_cell (k : list Z) bs : abs !! length k = Some bs -> exists o, int_at l (24 + 4 * zlen k) = Some o /\
  (bs = [] /\ o = 0 \/ bs <> [] /\ 0 < o /\ table_img (zlen k) w 0 l o bs).
Proof using Hdb.
  intros Hbs. pose proof (di_root _ _ _ _ (do_img _ _ _ _ Hdb) _ _ Hbs) as Hc. fold (zlen k) in Hc. unfold cell_img in Hc.
  destruct bs as [|b bs]; cbn [is_empty] in Hc.
  - exists 0. split; [by eapply holds_unpack|by left].
  - destruct Hc as (o & Ho & Hp & Ht). exists o. split; [eapply holds_unpack; [exact Hp|lia]|]. right. split; [done|]. split; [lia|done].
Qed.
Lemma bucket_cell (k : list Z) o bs i b : table_img (zlen k) w 0 l o bs -> bs !! i = Some b -> exists p,
  int_at l (o + 4 + 4 * Z.of_nat i) = Some p /\ (b = [] /\ p = 0 \/ b <> [] /\ 0 < p /\ bucket_img (zlen k) w 0 l p b).
Proof using Hdb.
  intros [_ Ht] Hb. specialize (Ht i b Hb). unfold cell_img in Ht. destruct b as [|e b]; cbn [is_empty] in Ht.
  - exists 0. split; [by eapply holds_unpack|by left].
  - destruct Ht as (p & Hp & Hc & Hi). exists p. split; [eapply holds_unpack; [exact Hc|lia]|]. right. split; [done|]. split; [lia|done].
Qed.
Lemma bucket_len klen bs b : buckets_ok klen bs -> b ∈ bs -> zlen b < 2 ^ 30.
Proof using.
  intros Hok (b1 & b2 & ->)%list_elem_of_split. pose proof (bo_count _ _ Hok) as H. rewrite concat_app in H. cbn [concat] in H. zlia.
Qed.

(** The part of [zcdb_find] behind the offset of the chain. *)
Lemma find_in_bucket key k bs j b p : read_bytes key (zlen k) = Some k -> abs !! length k = Some bs ->
  buckets_ok (zlen k) bs -> bs !! j = Some b -> b <> [] -> bucket_img (zlen k) w 0 l p b ->
  (forall v, m !! k = Some v -> (k, v) ∈ b) ->
  exists r, (ncount ← int_at l p;
    if ncount <? 1 then Some None else
    key_p ← find_loop (S (Z.to_nat ncount)) cdb key (zlen k) (p + 4) (if w =? varying then 4 else w) 0 (ncount - 1);
    match key_p with
    | None => Some None
    | Some key_p => Some <$> value_of_node cdb key_p (zlen k)
    end) = Some r /\
    match m !! k with Some v => exists x, r = Some x /\ denotes l x v | None => r = None end.
Proof using Hdb Hvals.
  intros Hread Hbs Hok Hb Hne [Hcnt Hnodes] Hin. pose proof (list_elem_of_lookup_2 _ _ _ Hb) as Hbin.
  pose proof (bucket_len _ _ _ Hok Hbin) as Hbz. pose proof (zlen_nonneg b).
  rewrite (holds_unpack _ _ _ _ Hcnt) by lia. cbn [mbind option_bind].
  assert (1 <= zlen b) by (destruct b; [done|rewrite zlen_cons; zlia]).
  destruct (Z.ltb_spec (zlen b) 1); [lia|].
  replace (if w =? varying then 4 else w) with (stride (zlen k) w - zlen k) by (unfold stride; lia).
  pose proof (Forall_lookup_1 _ _ _ _ (bo_keys _ _ Hok) Hb) as Hbk. cbn [fst] in Hbk.
  destruct (chain_search_spec w (Z.of_nat (size m)) abs l (zlen k) (p + 4) b key k Hread Hnodes) with
    (fuel := S (Z.to_nat (zlen b))) (left := 0) (right := zlen b - 1) as (r & -> & Hr); try lia.
  - exact (Forall_lookup_1 _ _ _ _ (bo_chains _ _ Hok) Hb).
  - eapply Forall_impl; [exact Hbk|]. by intros ? [].
  - intros i e Hi ?. apply lookup_lt_Some in Hi. unfold zlen in *. lia.
  - cbn [mbind option_bind]. destruct r as [q|].
    + destruct Hr as (i & e & Hi & He & ->). pose proof (nodes_lookup _ _ _ _ _ _ _ _ Hnodes Hi) as Hn.
      assert (Hm : m !! k = Some e.2).
      { apply in_entries. exists bs, b. split; [by eapply list_elem_of_lookup_2|]. split; [done|].
        rewrite <- He. destruct e. by eapply list_elem_of_lookup_2. }
      destruct (value_of_node_spec (zlen k) w (Z.of_nat (size m)) abs l _ e Hn) as (x & -> & Hx).
      { apply (do_width _ _ _ _ Hdb). } { by apply (Hvals k). }
      exists (Some x). split; [done|]. rewrite Hm. by exists x.
    + exists None. split; [done|]. destruct (m !! k) as [v|] eqn:Hv; [|done]. destruct Hr.
      apply list_elem_of_fmap. exists (k, v). split; [done|by apply Hin].
Qed.

Lemma zcdb_find_spec key klen k : in_bytes key klen = Some k -> k <> [] -> bytes_ok k -> zlen k < 2 ^ 31 ->
  exists r, zcdb_find cdb key klen = Some r /\
    match m !! k with Some v => exists x, r = Some x /\ denotes l x v | None => r = None end.
Proof using Hdb Hvals.
  intros Hkey Hne Hkb Hkl. destruct (resolve_len _ _ _ Hkey Hkl) as [Ek Hread]. unfold zcdb_find. rewrite Ek.
  cbn [mbind option_bind cd_max_key_length cd_data cd_val_length db_of].
  pose proof (do_len _ _ _ _ Hdb) as Hlen. unfold zvar_zcdb_max_key_len in *. zlen_facts.
  assert (Hmiss : (forall v, m !! k = Some v -> False) -> exists r, @Some (option vref) None = Some r /\
    match m !! k with Some v => exists x, r = Some x /\ denotes l x v | None => r = None end).
  { intros Hn. exists None. split; [done|]. destruct (m !! k) eqn:E; [by destruct (Hn _ eq_refl)|done]. }
  destruct (Z.ltb_spec (zlen abs - 1) (zlen k)).
  { apply Hmiss. intros v (bs & b & Hbs & _)%in_bucket. apply lookup_lt_Some in Hbs. unfold zlen in *. lia. }
  destruct (lookup_lt_is_Some_2 abs (length k)) as [bs Hbs]; [unfold zlen in *; lia|].
  destruct (root_cell k bs Hbs) as (o & -> & Ho). cbn [mbind option_bind].
  destruct Ho as [[-> ->]|(Hbne & Hopos & Ht)].
  { apply Hmiss. intros v (bs' & b & Hbs' & Hok & _)%in_bucket. rewrite Hbs in Hbs'. injection Hbs' as <-.
    by destruct (bo_len _ _ Hok). }
  destruct (Z.eqb_spec o 0); [lia|]. destruct (do_tables _ _ _ _ Hdb _ _ Hbs) as [?|Hok]; [done|]. fold (zlen k) in Hok.
  pose proof (bo_len _ _ Hok) as Hbl. rewrite (holds_unpack _ _ _ _ (proj1 Ht)) by lia. cbn [mbind option_bind].
  destruct (Z.eqb_spec (zlen k) 0) as [E0|]; [by apply zlen_inv_nil in E0|]. cbn [negb].
  rewrite (zhash_djb_read _ _ _ Hread). cbn [mbind option_bind]. rewrite uwrap_small by lia.
  destruct (Z.eqb_spec (zlen bs) 0); [lia|]. set (h := djb k mod zlen bs).
  assert (Hh : 0 <= h < zlen bs) by (apply Z.mod_pos_bound; lia). rewrite (swrap_small 32 h) by lia.
  destruct (lookup_lt_is_Some_2 bs (Z.to_nat h)) as [b Hb]; [unfold zlen in *; lia|].
  destruct (bucket_cell k o bs _ b Ht Hb) as (p & Ep & Hp). rewrite Z2Nat.id in Ep by lia. rewrite Ep. cbn [mbind option_bind].
  assert (Hin : forall v, m !! k = Some v -> (k, v) ∈ b).
  { intros v (bs' & b' & Hbs' & _ & Hb' & Hin)%in_bucket. rewrite Hbs in Hbs'. injection Hbs' as <-. fold h in Hb'. congruence. }
  destruct Hp as [[-> ->]|(Hbn & Hppos & Hbi)].
  { apply Hmiss. intros v Hv. by apply Hin, elem_of_nil in Hv. }
  destruct (Z.eqb_spec p 0); [lia|]. by eapply find_in_bucket.
Qed.

(** The empty key goes to the bucket 5381 mod 3, 4 or 5, and is looked for in the first. *)
Lemma find_empty_key key klen : in_bytes key klen = Some [] -> zcdb_find cdb key klen = Some None.
Proof using Hdb.
  intros Hkey. destruct (resolve_len _ _ _ Hkey) as [Ek Hread]; [done|]. unfold zcdb_find. rewrite Ek.
  cbn [mbind option_bind cd_max_key_length cd_data cd_val_length db_of]. zlen_nils. cbn [Z.eqb negb].
  destruct (Z.ltb_spec (zlen abs - 1) 0); [done|]. pose proof (do_len _ _ _ _ Hdb).
  destruct (lookup_lt_is_Some_2 abs 0) as [bs Hbs]; [unfold zlen in *; lia|].
  destruct (root_cell [] bs Hbs) as (o & Eo & Ho). zlen_nils. rewrite Eo. cbn [mbind option_bind].
  destruct Ho as [[-> ->]|(Hbne & Hopos & Ht)]; [done|]. destruct (Z.eqb_spec o 0); [lia|].
  destruct (do_tables _ _ _ _ Hdb _ _ Hbs) as [?|Hok]; [done|]. pose proof (bo_empty _ _ Hok eq_refl) as Hb.
  rewrite (holds_unpack _ _ _ _ (proj1 Ht)) by lia. cbn [mbind option_bind]. rewrite uwrap_small by lia.
  destruct (Z.eqb_spec (zlen bs) 0); [lia|]. rewrite Z.mod_0_l by lia. change (s32 0) with 0.
  destruct bs as [|b bs]; [done|]. destruct (bucket_cell [] o (b :: bs) 0 b Ht eq_refl) as (p & Ep & Hp).
  change (Z.of_nat 0) with 0 in Ep. rewrite Ep. cbn [mbind option_bind]. destruct Hp as [[-> ->]|(Hne & _ & _)]; [done|].
  destruct b as [|e b]; [done|]. pose proof (bo_place _ _ Hok 0 (e :: b) e eq_refl ltac:(by left)) as Hpl.
  pose proof (bo_keys _ _ Hok) as Hk. rewrite Forall_cons in Hk. destruct Hk as [[[Hz _] _]%Forall_cons _].
  apply zlen_inv_nil in Hz. rewrite Hz in Hpl. change (djb []) with 5381 in Hpl. change (Z.of_nat 0) with 0 in Hpl.
  assert (zlen (( e :: b) :: bs) = 3 \/ zlen ((e :: b) :: bs) = 4 \/ zlen ((e :: b) :: bs) = 5) as [E|[E|E]] by lia;
    by rewrite E in Hpl.
Qed.
End find.

(** ** What the builder leaves *)
Lemma weight_size (es : list entry) : 31 * zlen es <= cdb_weight es.
Proof. rewrite <- chain_cost_weight. pose proof (chain_cost_nonneg es). lia. Qed.
Lemma entries_above b abs m : builder_rep b abs m -> entries (drop (Z.to_nat (cb_max_klen b + 1)) abs) = [].
Proof.
  intros Hb. pose proof (br_max _ _ _ Hb). set (n := Z.to_nat (cb_max_klen b + 1)).
  assert (Hin : forall e, e ∈ entries (drop n abs) -> False); [|destruct (entries _) as [|e es]; [done|destruct (Hin e); by left]].
  intros e (bk & He & (bs & Hbk & (i & Hi)%list_elem_of_lookup)%elem_of_concat)%elem_of_concat.
  rewrite lookup_drop in Hi. assert (Hec : e ∈ concat bs) by (apply elem_of_concat; by exists bk).
  destruct (table_in _ _ _ _ _ Hb Hi) as (t & _ & Hat). pose proof (table_keys _ _ _ _ Hat Hec) as Hz.
  pose proof (bs_in _ _ _ _ _ Hb (list_elem_of_lookup_2 _ _ _ Hi) Hec) as Hm.
  destruct (br_keys _ _ _ Hb _ _ Hm) as [? _]. unfold n in *. lia.
Qed.
(** There is one empty key. *)
Lemma empty_key_once klen t bs : table_rep klen t bs -> klen = 0 -> zlen (concat bs) <= 1.
Proof.
  intros [Hv _ _ _ Hnd _] ->. assert (Hk : forall e, e ∈ concat bs -> e.1 = []).
  { intros e (b & He & Hb)%elem_of_concat. pose proof (vr_keys _ _ _ Hv) as Hk. rewrite Forall_forall in Hk.
    specialize (Hk b Hb). rewrite Forall_forall in Hk. destruct (Hk e He) as [H0 _]. by apply zlen_inv_nil. }
  destruct (concat bs) as [|d [|e es]]; [done|done|]. rewrite !fmap_cons in Hnd.
  apply NoDup_cons in Hnd as [Hnd _]. destruct Hnd. rewrite (Hk d) by (by left). rewrite (Hk e) by (right; by left). by left.
Qed.
Lemma compile_db_ok b abs m w l : builder_rep b abs m -> 0 <= w < 2 ^ 30 -> cdb_weight (map_to_list m) < 2 ^ 29 ->
  db_img w (Z.of_nat (size m)) (take (Z.to_nat (cb_max_klen b + 1)) abs) l ->
  db_ok w (take (Z.to_nat (cb_max_klen b + 1)) abs) m l.
Proof.
  intros Hb Hw Hweight Himg. pose proof (br_max _ _ _ Hb). pose proof (br_abs _ _ _ Hb).
  pose proof (weight_size (map_to_list m)) as Hsz.
  set (n := Z.to_nat (cb_max_klen b + 1)) in *. unfold zvar_zcdb_max_key_len in *.
  assert (Hent : entries (take n abs) ≡ₚ map_to_list m).
  { rewrite <- (br_entries _ _ _ Hb). rewrite <- (take_drop n abs) at 2. rewrite entries_app.
    unfold n at 3. by rewrite (entries_above b abs m Hb), app_nil_r. }
  split; try done.
  - unfold zvar_zcdb_max_key_len, zlen in *. rewrite length_take. lia.
  - unfold zlen in Hsz. rewrite <- length_map_to_list. lia.
  - intros i bs [Hi _]%lookup_take_Some. destruct (table_in _ _ _ _ _ Hb Hi) as (t & _ & Hat).
    destruct t as [t|]; [|by left]. destruct Hat as [Htr _]. pose proof Htr as [Hv _ _ _ _ Hsl]. right.
    assert (Hfew : zlen (concat bs) <= zlen (map_to_list m)).
    { apply list_elem_of_split_length in Hi as (l1 & l2 & -> & _). unfold zlen. rewrite <- (br_entries _ _ _ Hb).
      rewrite entries_app, entries_cons, !length_app. lia. }
    split; try apply Hv; zlen_facts; [lia|lia|]. intros E0. pose proof (empty_key_once _ _ _ Htr E0). lia.
Qed.
