(* ===== verification/CdbWalk.v ===== *)
(** * Constant databases: the walker gives every entry once *)
From stdpp Require Import gmap sorting.
From S2P Require Import Prelude Buf Crc Cint Rbset Maps StateMonad Cdb CdbBuild CdbFile CdbRead.

(** What the walker stores through its pointers, and the entry it stands for. *)
Definition ref_of (l : list Z) (r : node_ref) (e : entry) : Prop :=
  let '(p, klen, v) := r in klen = zlen e.1 /\ read_at l p klen = Some e.1 /\ denotes l v e.2.

Lemma drop_cons_nth {A} (l : list A) i x : l !! i = Some x -> drop i l = x :: drop (S i) l.
Proof. revert i. induction l as [|y l IH]; intros [|i]; cbn; [done|done|by intros [= ->]|apply IH]. Qed.

Section walk.
Context (w : Z) (abs : list (list (list entry))) (m : gmap (list Z) (list Z)) (l : list Z).
Hypothesis Hdb : db_ok w abs m l.
Hypothesis Hvals : map_Forall (fun k v => zlen v < 2 ^ 31 /\ bytes_ok k) m.
Abbreviation cdb := (db_of w (Z.of_nat (size m)) abs l).

(** A walker inside the table [bs] of the keys of length [i], with the entries
    [t] of the table before it. *)
Inductive in_table (i : nat) (bs : list (list entry)) : zcdb_walker -> list entry -> Prop :=
  | at_bucket o j nd nc : bs <> [] -> table_img (Z.of_nat i) w 0 l o bs -> (j <= length bs)%nat ->
      in_table i bs (mk_zcdb_walker (Z.of_nat i) (o + 4) (zlen bs) (Z.of_nat j) nd nc (-1)) (concat (drop j bs))
  | at_node o j nd b k : table_img (Z.of_nat i) w 0 l o bs -> bs !! j = Some b -> b <> [] ->
      nodes_img (Z.of_nat i) w 0 l nd b -> (k <= length b)%nat ->
      in_table i bs (mk_zcdb_walker (Z.of_nat i) (o + 4) (zlen bs) (Z.of_nat j) nd (zlen b) (Z.of_nat k))
        (drop k b ++ concat (drop (S j) bs)).
(** A walker with the entries [todo] before it. *)
Inductive walking : zcdb_walker -> list entry -> Prop :=
  | at_start wk : wk_klen wk = -1 -> walking wk (entries abs)
  | at_end wk : wk_klen wk = -2 -> walking wk []
  | at_table wk i bs t : abs !! i = Some bs -> in_table i bs wk t -> walking wk (t ++ entries (drop (S i) abs)).

(** What a step gives: the next entry, or nothing when there is none. *)
Definition steps (inv : zcdb_walker -> list entry -> Prop) (fin : zcdb_walker -> Prop) (todo : list entry)
    (r : zcdb_walker * option node_ref) : Prop :=
  match r with
  | (wk, Some x) => exists e todo', todo = e :: todo' /\ ref_of l x e /\ inv wk todo'
  | (wk, None) => todo = [] /\ fin wk
  end.

Lemma get_next_ok_spec (i : nat) nd b k e : nodes_img (Z.of_nat i) w 0 l nd b -> b !! k = Some e ->
  zlen e.1 = Z.of_nat i -> zlen e.2 < 2 ^ 31 ->
  exists x, zcdb_walker_get_next_ok cdb nd (Z.of_nat k) (Z.of_nat i) = Some x /\ ref_of l x e.
Proof using Hdb.
  intros Hn Hk He Hv. pose proof (nodes_lookup _ _ _ _ _ _ _ _ Hn Hk) as Himg.
  destruct (value_of_node_spec _ _ (Z.of_nat (size m)) abs _ _ _ Himg) as (v & Ev & Hd);
    [apply (do_width _ _ _ _ Hdb)|done|]. unfold zcdb_walker_get_next_ok. cbn [cd_val_length db_of].
  unfold stride in *. rewrite (Z.mul_comm (_ + _) (Z.of_nat k)), Ev. eexists. split; [done|]. split; [done|].
  split; [|done]. destruct Himg as [Hkey%holds_read _]. by rewrite He in Hkey.
Qed.

Section table.
Context (i : nat) (bs : list (list entry)).
Hypothesis Hbs : abs !! i = Some bs.
Hypothesis Hok : buckets_ok (Z.of_nat i) bs.
Abbreviation stays := (fun wk' => wk_klen wk' = Z.of_nat i).

Lemma entry_ok j b e : bs !! j = Some b -> e ∈ b -> zlen e.1 = Z.of_nat i /\ zlen e.2 < 2 ^ 31.
Proof using Hdb Hvals Hbs Hok.
  intros Hb He. pose proof (Forall_lookup_1 _ _ _ _ (bo_keys _ _ Hok) Hb) as Hk. rewrite Forall_forall in Hk.
  split; [by destruct (Hk e He)|]. apply (Hvals e.1). apply (in_entries w abs m l Hdb). exists bs, b.
  split; [by eapply list_elem_of_lookup_2|]. split; [by eapply list_elem_of_lookup_2|]. by destruct e.
Qed.
(** At a node, or behind the last of its bucket. *)
Lemma node_step fuel o j nd b k : table_img (Z.of_nat i) w 0 l o bs -> bs !! j = Some b -> b <> [] ->
  nodes_img (Z.of_nat i) w 0 l nd b -> (k <= length b)%nat ->
  let next := mk_zcdb_walker (Z.of_nat i) (o + 4) (zlen bs) (Z.of_nat (S j)) nd (zlen b) (-1) in
  (forall t, in_table i bs next t -> runs (walk_buckets fuel cdb next) (steps (in_table i bs) stays t)) ->
  runs (if Z.of_nat k <? zlen b then
          e ← zcdb_walker_get_next_ok cdb nd (Z.of_nat k) (Z.of_nat i);
          Some (mk_zcdb_walker (Z.of_nat i) (o + 4) (zlen bs) (Z.of_nat j) nd (zlen b) (Z.of_nat k + 1), Some e)
        else walk_buckets fuel cdb (mk_zcdb_walker (Z.of_nat i) (o + 4) (zlen bs) (Z.of_nat j + 1) nd (zlen b) (-1)))
    (steps (in_table i bs) stays (drop k b ++ concat (drop (S j) bs))).
Proof using Hdb Hvals Hbs Hok.
  intros Ht Hb Hne Hn Hk next Hnext. replace (Z.of_nat j + 1) with (Z.of_nat (S j)) by lia.
  destruct (Z.ltb_spec (Z.of_nat k) (zlen b)) as [Hlt|Hge].
  - destruct (lookup_lt_is_Some_2 b k) as [e He]; [unfold zlen in *; lia|].
    destruct (entry_ok j b e Hb (list_elem_of_lookup_2 _ _ _ He)) as [H1 H2].
    destruct (get_next_ok_spec i nd b k e Hn He H1 H2) as (x & -> & Hx). apply runs_ret.
    exists e, (drop (S k) b ++ concat (drop (S j) bs)). rewrite (drop_cons_nth _ _ _ He). split; [done|]. split; [done|].
    replace (Z.of_nat k + 1) with (Z.of_nat (S k)) by lia. apply at_node; try done. apply lookup_lt_Some in He. lia.
  - rewrite drop_ge by (unfold zlen in *; lia). apply Hnext. apply at_bucket; [by intros ->|done|]. apply lookup_lt_Some in Hb. lia.
Qed.
Lemma walk_buckets_spec fuel : forall wk t, in_table i bs wk t ->
  wk_hash_vector_size wk - wk_hash_vector_i wk <= Z.of_nat fuel ->
  runs (walk_buckets fuel cdb wk) (steps (in_table i bs) stays t).
Proof using Hdb Hvals Hbs Hok.
  induction fuel as [|fuel IH]; intros wk t Hin Hfuel.
  { destruct Hin as [o j nd nc Hbn Ht Hj|o j nd b k Ht Hb Hne Hn Hk]; cbn [wk_hash_vector_size wk_hash_vector_i] in Hfuel;
      cbn [walk_buckets].
    - destruct (Z.ltb_spec (Z.of_nat j) (zlen bs)); [lia|]. apply runs_ret. split; [|done].
      by rewrite drop_ge by (unfold zlen in *; lia).
    - apply lookup_lt_Some in Hb. unfold zlen in Hfuel. lia. }
  destruct Hin as [o j nd nc Hbn Ht Hj|o j nd b k Ht Hb Hne Hn Hk]; cbn [wk_hash_vector_size wk_hash_vector_i] in Hfuel;
    cbn [walk_buckets].
  - destruct (Z.ltb_spec (Z.of_nat j) (zlen bs)) as [Hlt|Hge]; cbn [negb].
    2: { apply runs_ret. split; [|done]. by rewrite drop_ge by (unfold zlen in *; lia). }
    destruct (lookup_lt_is_Some_2 bs j) as [b Hb]; [unfold zlen in *; lia|]. rewrite (drop_cons_nth _ _ _ Hb). cbn [concat].
    destruct (bucket_cell w abs m l Hdb (replicate i 0) o bs j b) as (p & Ep & Hp);
      [unfold zlen; by rewrite length_replicate|done|]. unfold zlen in Hp. rewrite length_replicate in Hp. fold (zlen b) in Hp.
    cbn [cd_data db_of]. rewrite Ep. cbn [mbind option_bind]. destruct Hp as [[-> ->]|(Hne & Hpos & Hcnt & Hn)].
    + cbn [Z.eqb]. replace (Z.of_nat j + 1) with (Z.of_nat (S j)) by lia. apply IH; [|cbn; lia].
      apply at_bucket; [done|done|]. unfold zlen in Hlt. lia.
    + destruct (Z.eqb_spec p 0); [lia|]. cbn [Z.eqb]. pose proof (bucket_len _ _ _ Hok (list_elem_of_lookup_2 _ _ _ Hb)).
      zlen_facts. rewrite (holds_unpack _ _ _ _ Hcnt) by lia. cbn [mbind option_bind].
      apply (node_step fuel o j (p + 4) b 0%nat); try done; [lia|]. intros. apply IH; [done|cbn; lia].
  - destruct (Z.ltb_spec (Z.of_nat j) (zlen bs)) as [Hlt|Hge]; cbn [negb].
    2: { apply lookup_lt_Some in Hb. unfold zlen in Hge. lia. }
    destruct (bucket_cell w abs m l Hdb (replicate i 0) o bs j b) as (p & Ep & Hp);
      [unfold zlen; by rewrite length_replicate|done|]. destruct Hp as [[-> _]|(_ & Hpos & _)]; [done|].
    cbn [cd_data db_of]. rewrite Ep. cbn [mbind option_bind]. destruct (Z.eqb_spec p 0); [lia|].
    destruct (Z.eqb_spec (Z.of_nat k) (-1)); [lia|]. cbn [mbind option_bind].
    apply (node_step fuel o j nd b k); try done. intros. apply IH; [done|cbn; lia].
Qed.
End table.

Lemma table_ok i bs : abs !! i = Some bs -> bs <> [] -> buckets_ok (Z.of_nat i) bs.
Proof using Hdb. intros Hi Hne. by destruct (do_tables _ _ _ _ Hdb _ _ Hi). Qed.
Lemma in_table_inside i bs wk t : in_table i bs wk t ->
  bs <> [] /\ wk_klen wk = Z.of_nat i /\ 0 <= wk_hash_vector_i wk.
Proof using. intros [o j nd nc Hne|o j nd b k Ht Hb]; cbn; (split; [|lia]); [done|by intros ->]. Qed.
Lemma table_place i bs : abs !! i = Some bs -> exists o, int_at l (24 + 4 * Z.of_nat i) = Some o /\
  (bs = [] /\ o = 0 \/ bs <> [] /\ 0 < o /\ table_img (Z.of_nat i) w 0 l o bs).
Proof using Hdb.
  intros Hi. assert (E : zlen (replicate i 0) = Z.of_nat i) by (unfold zlen; by rewrite length_replicate).
  pose proof (root_cell w abs m l Hdb (replicate i 0) bs) as H. rewrite E, length_replicate in H. by apply H.
Qed.
(** The entries left when the table [i] has no more. *)
Lemma rest_of i bs : abs !! i = Some bs -> entries (drop i abs) = concat bs ++ entries (drop (S i) abs).
Proof using. intros Hi. by rewrite (drop_cons_nth _ _ _ Hi), entries_cons. Qed.

(** The part of the loop behind the buckets of a table. *)
Lemma after_buckets fuel i bs wk t todo : abs !! i = Some bs -> buckets_ok (Z.of_nat i) bs ->
  in_table i bs wk t -> todo = t ++ entries (drop (S i) abs) ->
  (forall wk', wk_klen wk' = Z.of_nat (S i) -> wk_hash_vector_i wk' = -1 ->
    runs (walk_tables fuel cdb wk') (steps walking (fun wk' => wk_klen wk' = -2) (entries (drop (S i) abs)))) ->
  runs (r ← walk_buckets (Z.to_nat (wk_hash_vector_size wk)) cdb wk;
        match r with
        | (w, Some e) => Some (w, Some e)
        | (mk_zcdb_walker klen hvd hvs hvi nd nc ni, None) =>
            walk_tables fuel cdb (mk_zcdb_walker (klen + 1) hvd hvs (-1) nd nc ni)
        end) (steps walking (fun wk' => wk_klen wk' = -2) todo).
Proof using Hdb Hvals.
  intros Hi Hok Hin -> Hnext. eapply runs_bind.
  { apply (walk_buckets_spec i bs Hi Hok _ wk t Hin). destruct Hin; cbn; unfold zlen; lia. }
  intros [[klen hvd hvs hvi nd nc ni] [x|]].
  - intros (e & t' & -> & Hx & Hin'). apply runs_ret. exists e, (t' ++ entries (drop (S i) abs)).
    split; [done|]. split; [done|]. by eapply at_table.
  - intros [-> Hk]. cbn in Hk. subst klen. apply Hnext; cbn; lia.
Qed.

Lemma walk_tables_spec fuel : forall i wk todo, (i <= length abs)%nat -> (length abs <= i + fuel)%nat ->
  (wk_klen wk = Z.of_nat i /\ wk_hash_vector_i wk = -1 /\ todo = entries (drop i abs)) \/
  (exists bs t, abs !! i = Some bs /\ in_table i bs wk t /\ todo = t ++ entries (drop (S i) abs)) ->
  runs (walk_tables fuel cdb wk) (steps walking (fun wk' => wk_klen wk' = -2) todo).
Proof using Hdb Hvals.
  induction fuel as [|fuel IH]; intros i wk todo Hle Hfuel Hwk.
  { assert (i = length abs) as -> by lia. destruct Hwk as [(Hk & _ & ->)|(bs & t & Hi & _)].
    2: { apply lookup_lt_Some in Hi. lia. }
    destruct wk. cbn in Hk |- *. subst. destruct (Z.leb_spec (Z.of_nat (length abs)) (zlen abs - 1)); [unfold zlen in *; lia|].
    rewrite drop_all. by apply runs_ret. }
  destruct Hwk as [(Hk & Hi & ->)|(bs & t & Hi & Hin & ->)].
  - destruct wk as [klen hvd hvs hvi nd nc ni]. cbn in Hk, Hi. subst klen hvi. cbn [walk_tables cd_max_key_length db_of].
    destruct (Z.leb_spec (Z.of_nat i) (zlen abs - 1)); cbn [negb].
    2: { rewrite drop_ge by (unfold zlen in *; lia). by apply runs_ret. }
    destruct (lookup_lt_is_Some_2 abs i) as [bs Hi]; [unfold zlen in *; lia|].
    destruct (table_place i bs Hi) as (o & Eo & Ho). cbn [cd_data db_of]. rewrite Eo. cbn [mbind option_bind].
    rewrite (rest_of i bs Hi). destruct Ho as [[-> ->]|(Hne & Hpos & Ht)]; [cbn [Z.eqb concat app]|].
    + apply (IH (S i)); [unfold zlen in *; lia|unfold zlen in *; lia|left; cbn; split; [lia|done]].
    + destruct (Z.eqb_spec o 0); [lia|]. cbn [Z.eqb]. pose proof (table_ok i bs Hi Hne) as Hok. pose proof (bo_len _ _ Hok).
      rewrite (holds_unpack _ _ _ _ (proj1 Ht)) by lia. cbn [mbind option_bind].
      eapply (after_buckets fuel i bs _ (concat bs)); [done|done|by apply (at_bucket i bs o 0 nd nc Hne Ht ltac:(lia))|done|].
      intros wk' Hk Hj. apply (IH (S i)); [unfold zlen in *; lia|unfold zlen in *; lia|by left].
  - destruct (in_table_inside i bs wk t Hin) as (Hne & Hk & Hpos). pose proof (table_ok i bs Hi Hne) as Hok.
    destruct (table_place i bs Hi) as (o & Eo & [[? _]|(_ & Ho & _)]); [done|]. pose proof (lookup_lt_Some _ _ _ Hi).
    destruct wk as [klen hvd hvs hvi nd nc ni] eqn:Ewk. cbn in Hk, Hpos. subst klen. cbn [walk_tables cd_max_key_length db_of].
    destruct (Z.leb_spec (Z.of_nat i) (zlen abs - 1)); cbn [negb]; [|unfold zlen in *; lia].
    cbn [cd_data db_of]. rewrite Eo. cbn [mbind option_bind].
    destruct (Z.eqb_spec o 0); [lia|]. destruct (Z.eqb_spec hvi (-1)); [lia|]. cbn [mbind option_bind].
    eapply (after_buckets fuel i bs _ t); [done|done|exact Hin|done|].
    intros wk' Hk Hj. apply (IH (S i)); [lia|lia|by left].
Qed.

(** One step of the walk: the next entry, or 0 when there is none, and then for
    ever. *)
Lemma zcdb_walker_walk_spec wk todo : walking wk todo ->
  runs (zcdb_walker_walk cdb wk) (steps walking (fun wk' => wk_klen wk' = -2) todo).
Proof using Hdb Hvals.
  pose proof (do_len _ _ _ _ Hdb) as Hlen. unfold zcdb_walker_walk. cbn [cd_max_key_length db_of].
  intros [wk' Hk|wk' Hk|wk' i bs t Hi Hin].
  - rewrite Hk. cbn [Z.eqb]. apply (walk_tables_spec _ 0); [lia|unfold zlen in *; lia|by left].
  - rewrite Hk. by apply runs_ret.
  - destruct (in_table_inside i bs wk' t Hin) as (_ & Hk & _). rewrite Hk.
    destruct (Z.eqb_spec (Z.of_nat i) (-2)); [lia|]. destruct (Z.eqb_spec (Z.of_nat i) (-1)); [lia|].
    pose proof (lookup_lt_Some _ _ _ Hi). apply (walk_tables_spec _ i); [lia|unfold zlen in *; lia|]. right. by exists bs, t.
Qed.
End walk.
