(* ===== verification/CdbTrip.v ===== *)
(** * Constant databases: from updates through the file to queries and walks *)
From stdpp Require Import gmap sorting.
From S2P Require Import Prelude Buf Crc Cint Rbset Maps StateMonad Cdb CdbBuild CdbFile CdbRead CdbWalk.

(** An update as it is called: two pointers with their lengths. *)
Record put := mk_put { pt_key : list Z; pt_klen : Z; pt_val : list Z; pt_vlen : Z }.
Fixpoint updates (b : zcdb_builder) (us : list put) : option zcdb_builder :=
  match us with
  | [] => Some b
  | u :: us' => b ← zcdb_builder_update b (pt_key u) (pt_klen u) (pt_val u) (pt_vlen u); updates b us'
  end.
(** The calls of the walker, one after the other. *)
Fixpoint walks (n : nat) (cdb : zcdb) (w : zcdb_walker) : option (list (option node_ref)) :=
  match n with
  | O => Some []
  | S n' => r ← zcdb_walker_walk cdb w; rs ← walks n' cdb (fst r); Some (snd r :: rs)
  end.

(** The entry that an update stands for, within the sizes of the format. *)
Record put_ok (u : put) (e : entry) : Prop := {
  po_key : in_bytes (pt_key u) (pt_klen u) = Some e.1;
  po_val : in_bytes (pt_val u) (pt_vlen u) = Some e.2;
  po_kbytes : bytes_ok e.1;
  po_vbytes : bytes_ok e.2;
  po_klen : zlen e.1 <= zvar_zcdb_max_key_len;
  po_vlen : zlen e.2 + 2 < 2 ^ 29
}.
Definition map_of (es : list entry) : gmap (list Z) (list Z) := foldl (fun m e => <[e.1 := e.2]> m) ∅ es.
(** The builder's record of the lengths of the values; when it says that they
    are the same, they have to be. *)
Definition lens_of (es : list entry) : Z * Z := foldl length_step (0, 0) ((fun e => zlen e.2) <$> es).
Definition lengths_ok (es : list entry) : Prop :=
  fst (lens_of es) = snd (lens_of es) -> map_Forall (fun _ v => zlen v = snd (lens_of es)) (map_of es).

(** ** The updates *)
Lemma updates_spec us : forall es b abs m, Forall2 put_ok us es -> builder_rep b abs m ->
  Z.of_nat (size m) + zlen es < 2 ^ 29 ->
  runs (updates b us) (fun b' => exists abs', builder_rep b' abs' (foldl (fun m e => <[e.1 := e.2]> m) m es) /\
    lengths b' = foldl length_step (lengths b) ((fun e => zlen e.2) <$> es) /\ file_of b' = file_of b).
Proof.
  induction us as [|u us IH]; intros es b abs m Hus Hb Hmany; inversion Hus as [|? e ? es' [] Hus']; subst.
  { apply runs_ret. by exists abs. }
  rewrite zlen_cons in Hmany. zlen_facts. cbn [updates foldl fmap list_fmap]. eapply runs_bind.
  { eapply (zcdb_builder_update_spec b abs m); try done; lia. }
  intros b1 (abs1 & Hb1 & Hl1 & Hf1). pose proof (size_insert_le e.1 e.2 m). eapply runs_mono.
  { apply (IH es' b1 abs1 _ Hus' Hb1). lia. }
  intros b2 (abs2 & Hb2 & Hl2 & Hf2). exists abs2. split; [done|]. rewrite Hl2, Hl1, Hf2, Hf1. done.
Qed.

Lemma map_of_in es : map_Forall (fun k v => (k, v) ∈ es) (map_of es).
Proof.
  unfold map_of. assert (H : forall m : gmap (list Z) (list Z), map_Forall (fun k v => (k, v) ∈ es \/ m !! k = Some v)
    (foldl (fun m e => <[e.1 := e.2]> m) m es)).
  - induction es as [|e es IH]; intros m; cbn [foldl]; [by right|]. eapply map_Forall_impl; [apply IH|]. cbn.
    intros k v [Hin|Hm]; [left; by right|]. apply lookup_insert_Some in Hm as [[<- <-]|[_ Hm]]; [|by right].
    left. destruct e. by left.
  - eapply map_Forall_impl; [apply H|]. cbn. intros k v [?|Hk]; [done|by rewrite lookup_empty in Hk].
Qed.
Lemma length_step_bounds (es : list entry) : Forall (fun e => 0 <= zlen e.2 < 2 ^ 29) es -> forall mm, 0 <= fst mm < 2 ^ 29 -> 0 <= snd mm < 2 ^ 29 ->
  let r := foldl length_step mm ((fun e => zlen e.2) <$> es) in 0 <= fst r < 2 ^ 29 /\ 0 <= snd r < 2 ^ 29.
Proof.
  induction 1 as [|e es He _ IH]; intros [mn mx] H1 H2; [done|]. cbn [fmap list_fmap foldl]. apply IH.
  all: cbn in *; destruct (Z.eqb_spec (zlen e.2) 0), (Z.eqb_spec mn 0), (Z.eqb_spec mx 0); cbn [negb andb];
    repeat case_match; lia.
Qed.

(** When no value is empty the two lengths are the least and the greatest. *)
Lemma lens_bound (es : list entry) : Forall (fun e => e.2 <> []) es -> forall mn mx, 0 <= mn <= mx -> (mn = 0 -> mx = 0) ->
  let r := foldl length_step (mn, mx) ((fun e => zlen e.2) <$> es) in
  (0 < mn -> fst r <= mn) /\ mx <= snd r /\ Forall (fun e => fst r <= zlen e.2 <= snd r) es.
Proof.
  induction 1 as [|e es He _ IH]; intros mn mx Hm Hz; [cbn; split; [lia|split; [lia|constructor]]|].
  cbn [fmap list_fmap foldl]. destruct (length_step (mn, mx) (zlen e.2)) as [mn' mx'] eqn:E.
  assert (Hpos : 0 < zlen e.2) by (destruct e.2; [done|rewrite zlen_cons; zlia]).
  cbn in E. destruct (Z.eqb_spec (zlen e.2) 0); [lia|]. cbn [negb andb] in E.
  assert (0 < mn' <= zlen e.2 /\ zlen e.2 <= mx' /\ (0 < mn -> mn' <= mn) /\ mx <= mx').
  { destruct (Z.eqb_spec mn 0), (Z.eqb_spec mx 0); repeat case_match; injection E as <- <-; lia. }
  destruct (IH mn' mx') as (H1 & H2 & H3); [lia|lia|]. split; [lia|]. split; [lia|]. constructor; [lia|done].
Qed.
Lemma lengths_ok_nonempty es : Forall (fun e => e.2 <> []) es -> lengths_ok es.
Proof.
  intros Hes Heq k v Hin%map_of_in. destruct (lens_bound es Hes 0 0) as (_ & _ & H); [lia|done|].
  rewrite Forall_forall in H. specialize (H _ Hin). cbn [snd] in H. unfold lens_of in *. lia.
Qed.
Lemma lengths_ok_empty es : Forall (fun e => e.2 = []) es -> lengths_ok es.
Proof.
  intros Hes _ k v Hin%map_of_in. assert (E : lens_of es = (0, 0)).
  { unfold lens_of. clear Hin. induction Hes as [|e es He _ IH]; [done|]. cbn [fmap list_fmap foldl]. by rewrite He. }
  rewrite E. rewrite Forall_forall in Hes. specialize (Hes _ Hin). cbn in Hes. by subst.
Qed.

(** ** The file *)
Lemma built us es : Forall2 put_ok us es -> zlen es < 2 ^ 29 -> lengths_ok es ->
  cdb_weight (map_to_list (map_of es)) < 2 ^ 29 ->
  exists b b' l w abs, updates zcdb_builder_create us = Some b /\ zcdb_builder_compile b = Some (1, b') /\
    compiled b' = Some l /\ db_ok w abs (map_of es) l /\
    map_Forall (fun k v => zlen v < 2 ^ 31 /\ bytes_ok k) (map_of es).
Proof.
  intros Hus Hmany Hlens Hweight.
  destruct (updates_spec us es _ _ _ Hus create_rep) as (b & Eb & abs & Hb & Hl & Hf); [rewrite map_size_empty; lia|].
  fold (map_of es) in Hb. change (lengths zcdb_builder_create) with (0, 0) in Hl. fold (lens_of es) in Hl.
  set (w := if fst (lengths b) =? snd (lengths b) then snd (lengths b) else varying).
  assert (Hvs : Forall (fun e => 0 <= zlen e.2 < 2 ^ 29) es).
  { eapply Forall2_Forall_r; [exact Hus|]. apply Forall_true. intros u e []. zlia. }
  assert (Hw : 0 <= w < 2 ^ 30).
  { destruct (length_step_bounds es Hvs (0, 0)) as [_ H]; [cbn [fst]; lia|cbn [snd]; lia|]. change (0 <= snd (lens_of es) < 2 ^ 29) in H.
    unfold w, varying. rewrite Hl. clear w. destruct (_ =? _); lia. }
  destruct (wp_runs _ _ _ (zcdb_builder_compile_spec b abs (map_of es) w Hb Hf eq_refl Hw ltac:(
    intros k v Hv; unfold w; rewrite Hl; destruct (Z.eqb_spec (fst (lens_of es)) (snd (lens_of es))) as [E|];
    [right; by eapply (Hlens E)|by left]) Hweight)) as (r & b' & Ec & -> & l & El & Himg).
  exists b, b', l, w, (take (Z.to_nat (cb_max_klen b + 1)) abs). split; [done|]. split; [done|]. split; [done|].
  split; [by apply compile_db_ok|]. eapply map_Forall_impl; [apply (br_keys _ _ _ Hb)|]. cbn. intros k v (_ & ? & _ & ?).
  split; [lia|done].
Qed.

Lemma walks_spec w abs m l : db_ok w abs m l -> map_Forall (fun k v => zlen v < 2 ^ 31 /\ bytes_ok k) m ->
  forall j todo wk, walking w abs l wk todo -> exists refs,
    walks (length todo + j) (db_of w (Z.of_nat (size m)) abs l) wk = Some ((Some <$> refs) ++ replicate j None) /\
    Forall2 (ref_of l) refs todo.
Proof.
  intros Hdb Hv. assert (Hend : forall j wk, walking w abs l wk [] ->
    walks j (db_of w (Z.of_nat (size m)) abs l) wk = Some (replicate j None)).
  { induction j as [|j IH]; intros wk Hwk; [done|]. cbn [walks].
    destruct (zcdb_walker_walk_spec w abs m l Hdb Hv wk [] Hwk) as ([wk' [x|]] & -> & Hs).
    - by destruct Hs as (? & ? & ? & _).
    - destruct Hs as [_ Hk]. cbn [mbind option_bind fst snd]. rewrite (IH wk') by (by apply at_end). done. }
  intros j todo. induction todo as [|e todo IH]; intros wk Hwk.
  { exists []. split; [by apply Hend|constructor]. }
  cbn [length Nat.add walks]. destruct (zcdb_walker_walk_spec w abs m l Hdb Hv wk _ Hwk) as ([wk' [x|]] & -> & Hs).
  - destruct Hs as (e' & todo' & [= <- <-] & Hx & Hwk'). destruct (IH wk' Hwk') as (refs & Er & Hr).
    cbn [mbind option_bind fst snd]. rewrite Er. exists (x :: refs). split; [done|]. by constructor.
  - by destruct Hs.
Qed.

(** C6: the life of a database. Updates with keys of at most 4096 bytes, then
    [zcdb_builder_compile]: the block it leaves is opened by the reader, from
    memory or as a file; it counts the different keys; and [zcdb_find] answers
    for every key that is not empty with the value of its last update, and with
    "not found" when there was none.

    The limits, all of them hypotheses here: fewer than 2^29 updates, keys and
    values that with 40 bytes for each entry stay below 2^29, and [lengths_ok]:
    when the least and the greatest length of a value in the builder's record are
    the same, every value that is left has that length. It holds when no update has an empty value ([lengths_ok_nonempty]) and when all
    have ([lengths_ok_empty]). It fails for mixes of empty values with others,
    since the record passes over an empty value; the code then misreads values
    ([cdb_empty_value_misread], [cdb_stale_value_misread]). The empty key is
    stored and counted, but not found ([cdb_empty_key_not_found]). *)
Theorem cdb_round_trip us es : Forall2 put_ok us es -> zlen es < 2 ^ 29 -> lengths_ok es ->
  cdb_weight (map_to_list (map_of es)) < 2 ^ 29 ->
  exists b b' l cdb, updates zcdb_builder_create us = Some b /\ zcdb_builder_compile b = Some (1, b') /\
    compiled b' = Some l /\ zcdb_open_from_data l = Some (Some cdb) /\ zcdb_open (Some l) = Some (Some cdb) /\
    zcdb_get_count cdb = Z.of_nat (size (map_of es)) /\
    forall key klen k, in_bytes key klen = Some k -> k <> [] -> bytes_ok k -> zlen k < 2 ^ 31 ->
      exists r, zcdb_find cdb key klen = Some r /\
        match map_of es !! k with Some v => exists x, r = Some x /\ denotes l x v | None => r = None end.
Proof.
  intros Hus Hmany Hlens Hweight.
  destruct (built us es Hus Hmany Hlens Hweight) as (b & b' & l & w & abs & Eb & Ec & El & Hdb & Hv).
  destruct (open_ok w abs _ l Hdb) as [Eo Eo']. exists b, b', l, (db_of w (Z.of_nat (size (map_of es))) abs l).
  do 6 (split; [done|]). intros key klen k. by apply zcdb_find_spec.
Qed.

(** C7: a walk over the compiled database, from a walker that is new or reset,
    gives every key, the empty one included, with its value exactly once, and from
    then on answers 0 however often it is called. The limits are those of the
    round trip: fewer than 2^29 updates, the sizes below 2^29, and a builder's
    record of the values' lengths that is right ([lengths_ok]: no update has an
    empty value, or all have, or the recorded least and greatest length differ);
    of the mixes with empty values where it is wrong the code misreads values
    ([cdb_empty_value_misread], [cdb_stale_value_misread]). *)
Theorem cdb_walk_visits_all us es j : Forall2 put_ok us es -> zlen es < 2 ^ 29 -> lengths_ok es ->
  cdb_weight (map_to_list (map_of es)) < 2 ^ 29 ->
  exists b b' l cdb refs order, updates zcdb_builder_create us = Some b /\ zcdb_builder_compile b = Some (1, b') /\
    compiled b' = Some l /\ zcdb_open_from_data l = Some (Some cdb) /\
    order ≡ₚ map_to_list (map_of es) /\ Forall2 (ref_of l) refs order /\
    walks (size (map_of es) + j) cdb zcdb_walker_create = Some ((Some <$> refs) ++ replicate j None) /\
    forall wk, walks (size (map_of es) + j) cdb (zcdb_walker_reset wk) = Some ((Some <$> refs) ++ replicate j None).
Proof.
  intros Hus Hmany Hlens Hweight.
  destruct (built us es Hus Hmany Hlens Hweight) as (b & b' & l & w & abs & Eb & Ec & El & Hdb & Hv).
  destruct (open_ok w abs _ l Hdb) as [Eo _].
  destruct (walks_spec w abs _ l Hdb Hv j (entries abs) zcdb_walker_create (at_start w abs l zcdb_walker_create eq_refl)) as (refs & Ew & Hr).
  exists b, b', l, (db_of w (Z.of_nat (size (map_of es))) abs l), refs, (entries abs).
  pose proof (do_entries _ _ _ _ Hdb) as Hp. rewrite (Permutation_length Hp), length_map_to_list in Ew.
  do 7 (split; [done|]). intros wk. done.
Qed.

(** The empty key. The builder stores it and counts it, under its DJB hash;
    the reader looks for it in the bucket of hash 0, and never finds it. *)
Theorem cdb_empty_key_not_found us es key klen : Forall2 put_ok us es -> zlen es < 2 ^ 29 -> lengths_ok es ->
  cdb_weight (map_to_list (map_of es)) < 2 ^ 29 -> in_bytes key klen = Some [] ->
  exists b b' l cdb, updates zcdb_builder_create us = Some b /\ zcdb_builder_compile b = Some (1, b') /\
    compiled b' = Some l /\ zcdb_open_from_data l = Some (Some cdb) /\ zcdb_find cdb key klen = Some None.
Proof.
  intros Hus Hmany Hlens Hweight Hkey.
  destruct (built us es Hus Hmany Hlens Hweight) as (b & b' & l & w & abs & Eb & Ec & El & Hdb & _).
  destruct (open_ok w abs _ l Hdb) as [Eo _]. exists b, b', l, (db_of w (Z.of_nat (size (map_of es))) abs l).
  do 4 (split; [done|]). by eapply find_empty_key.
Qed.

(** ** Examples *)
Definition ex_puts : list put :=
  [mk_put (str "a") 1 (str "one") 3; mk_put (str "bc" ++ [0]) (-1) (str "three" ++ [0]) (-1); mk_put (str "a") 1 (str "two!") 4;
   mk_put [] 0 (str "x") 1].
Definition ex_entries : list entry :=
  [(str "a", str "one"); (str "bc", str "three"); (str "a", str "two!"); ([], str "x")].
Lemma ex_ok : Forall2 put_ok ex_puts ex_entries /\ zlen ex_entries < 2 ^ 29 /\ lengths_ok ex_entries /\
  cdb_weight (map_to_list (map_of ex_entries)) < 2 ^ 29.
Proof.
  split; [|split; [done|split; [by apply lengths_ok_nonempty; repeat constructor|by vm_compute]]].
  repeat constructor; try done; try by vm_compute.
Qed.
Lemma cdb_round_trip_witness : exists b b' l cdb, updates zcdb_builder_create ex_puts = Some b /\
  zcdb_builder_compile b = Some (1, b') /\ compiled b' = Some l /\ zcdb_open_from_data l = Some (Some cdb) /\
  zcdb_open (Some l) = Some (Some cdb) /\ zcdb_get_count cdb = Z.of_nat (size (map_of ex_entries)) /\
  forall key klen k, in_bytes key klen = Some k -> k <> [] -> bytes_ok k -> zlen k < 2 ^ 31 ->
    exists r, zcdb_find cdb key klen = Some r /\
      match map_of ex_entries !! k with Some v => exists x, r = Some x /\ denotes l x v | None => r = None end.
Proof. apply (cdb_round_trip ex_puts ex_entries); apply ex_ok. Defined.
Lemma cdb_walk_visits_all_witness : exists b b' l cdb refs order, updates zcdb_builder_create ex_puts = Some b /\
  zcdb_builder_compile b = Some (1, b') /\ compiled b' = Some l /\ zcdb_open_from_data l = Some (Some cdb) /\
  order ≡ₚ map_to_list (map_of ex_entries) /\ Forall2 (ref_of l) refs order /\
  walks (size (map_of ex_entries) + 2) cdb zcdb_walker_create = Some ((Some <$> refs) ++ replicate 2 None) /\
  forall wk, walks (size (map_of ex_entries) + 2) cdb (zcdb_walker_reset wk) = Some ((Some <$> refs) ++ replicate 2 None).
Proof. apply (cdb_walk_visits_all ex_puts ex_entries 2); apply ex_ok. Defined.
Lemma cdb_empty_key_not_found_witness : map_of ex_entries !! [] = Some (str "x") /\
  exists b b' l cdb, updates zcdb_builder_create ex_puts = Some b /\ zcdb_builder_compile b = Some (1, b') /\
    compiled b' = Some l /\ zcdb_open_from_data l = Some (Some cdb) /\ zcdb_find cdb [0] (-1) = Some None.
Proof. split; [done|]. apply (cdb_empty_key_not_found ex_puts ex_entries); [apply ex_ok..|done]. Defined.

(** An empty value is not counted in the lengths: the second value fixes them at
    3, and compiling reads three bytes of the first. *)
Lemma cdb_empty_value_misread : (b ← updates zcdb_builder_create [mk_put (str "a") 1 [] 0; mk_put (str "b") 1 (str "xyz") 3];
  zcdb_builder_compile b) = None.
Proof. by vm_compute. Qed.
(** A value replaced by an empty one before another of three bytes: the key is
    found with three bytes left over in the buffer. *)
Lemma cdb_stale_value_misread : (b ← updates zcdb_builder_create [mk_put (str "a") 1 (str "xyz") 3; mk_put (str "a") 1 [] 0;
  mk_put (str "b") 1 (str "uvw") 3]; r ← zcdb_builder_compile b; l ← compiled (snd r); cdb ← zcdb_open_from_data l; cdb ← cdb;
  x ← zcdb_find cdb (str "a") 1; x ← x; p ← fst x; read_at l p (snd x)) = Some ([0] ++ str "yz").
Proof. by vm_compute. Qed.
(** The same with the empty value in between: the lengths are 5 and 7. *)
Lemma cdb_lengths_forgotten : (b ← updates zcdb_builder_create [mk_put (str "a") 1 (str "12345") 5;
  mk_put (str "b") 1 [] 0; mk_put (str "c") 1 (str "1234567") 7]; Some (lengths b)) = Some (7, 7).
Proof. by vm_compute. Qed.
