(* ===== verification/Stream.v ===== *)
(** * Streams: src/stream/stream.c and the stream part of zc.h

    A [zstream_t] buffers what it reads from and writes to an engine: a table of
    functions ([zstream_engine_t]) over the operating system. The engine is a
    class; its state [E] stands for [ioctx] and the world behind it. *)
From S2P Require Import Prelude Buf Cint StateMonad.

Definition zvar_stream_rbuf_size : Z := 4096.
Definition zvar_stream_wbuf_size : Z := 4096.

(** [zstream_engine_t]: [read_fn] also gives the bytes it stores. *)
Class Engine (E : Type) := {
  close_fn : E -> bool -> E * Z;
  read_fn : E -> Z -> E * Z * list Z;
  write_fn : E -> list Z -> E * Z;
  timed_read_wait_fn : E -> Z -> E * Z;
  timed_write_wait_fn : E -> Z -> E * Z;
  get_fd_fn : E -> Z
}.

Record zstream {E : Type} := mk_zstream {
  read_wait_timeout : Z; write_wait_timeout : Z;
  ioctx : E;
  read_buf_p1 : Z; read_buf_p2 : Z; write_buf_len : Z;
  error : bool; eof : bool;
  read_buf : list Z; write_buf : list Z
}.
Arguments zstream : clear implicits.

Section stream.
Context {E : Type} `{!Engine E}.
Abbreviation SM := (St (zstream E)).

(** ** The fields *)
Definition set_wait (fp : zstream E) (r w : Z) : zstream E :=
  mk_zstream E r w (ioctx fp) (read_buf_p1 fp) (read_buf_p2 fp) (write_buf_len fp) (error fp) (eof fp)
    (read_buf fp) (write_buf fp).
Definition set_ioctx (fp : zstream E) (e : E) : zstream E :=
  mk_zstream E (read_wait_timeout fp) (write_wait_timeout fp) e (read_buf_p1 fp) (read_buf_p2 fp) (write_buf_len fp)
    (error fp) (eof fp) (read_buf fp) (write_buf fp).
Definition set_read (fp : zstream E) (p1 p2 : Z) (buf : list Z) : zstream E :=
  mk_zstream E (read_wait_timeout fp) (write_wait_timeout fp) (ioctx fp) p1 p2 (write_buf_len fp)
    (error fp) (eof fp) buf (write_buf fp).
Definition set_write (fp : zstream E) (len : Z) (buf : list Z) : zstream E :=
  mk_zstream E (read_wait_timeout fp) (write_wait_timeout fp) (ioctx fp) (read_buf_p1 fp) (read_buf_p2 fp) len
    (error fp) (eof fp) (read_buf fp) buf.
Definition set_flags (fp : zstream E) (err fin : bool) : zstream E :=
  mk_zstream E (read_wait_timeout fp) (write_wait_timeout fp) (ioctx fp) (read_buf_p1 fp) (read_buf_p2 fp)
    (write_buf_len fp) err fin (read_buf fp) (write_buf fp).

(** A call of a function of the engine. *)
Definition engine_call {A} (f : E -> E * A) : SM A :=
  fp ← gets id;
  let '(e, r) := f (ioctx fp) in
  modify (fun fp => set_ioctx fp e);;
  mret r.

(** [zstream_open_fd_engine] and the other open functions: all fields 0. *)
Definition zstream_open (e : E) : zstream E :=
  mk_zstream E (-1) (-1) e 0 0 0 false false (replicate (Z.to_nat zvar_stream_rbuf_size) 0)
    (replicate (Z.to_nat zvar_stream_wbuf_size) 0).

Definition zstream_set_read_wait_timeout (timeout : Z) : SM unit :=
  modify (fun fp => set_wait fp timeout (write_wait_timeout fp)).
Definition zstream_set_write_wait_timeout (timeout : Z) : SM unit :=
  modify (fun fp => set_wait fp (read_wait_timeout fp) timeout).
Definition zstream_get_fd : SM Z := gets (fun fp => get_fd_fn (ioctx fp)).
Definition zstream_timed_read_wait (timeout : Z) : SM Z :=
  fp ← gets id;
  if read_buf_p1 fp <? read_buf_p2 fp then mret 1
  else engine_call (fun e => timed_read_wait_fn e timeout).
Definition zstream_timed_write_wait (timeout : Z) : SM Z := engine_call (fun e => timed_write_wait_fn e timeout).

Definition zstream_is_error : SM bool := gets error.
Definition zstream_is_eof : SM bool := gets eof.
Definition zstream_is_exception : SM bool := gets (fun fp => eof fp || error fp).
Definition zstream_get_read_cache_len : SM Z := gets (fun fp => read_buf_p2 fp - read_buf_p1 fp).
Definition zstream_get_read_cache : SM (list Z) := gets read_buf.
Definition zstream_get_write_cache_len : SM Z := gets write_buf_len.
Definition zstream_get_write_cache : SM (list Z) :=
  fp ← gets id;
  buf ← of_option (wr (write_buf fp) (write_buf_len fp) 0);
  modify (fun fp => set_write fp (write_buf_len fp) buf);;
  mret buf.

(** ** Writing out *)

(** [while (left > 0)]: [data] is [write_buf + off]. Every call writes at least
    one byte, or fails (see [Engine] laws), so that [left] bounds the rounds. *)
Fixpoint flush_loop (fuel : nat) (off left : Z) : SM Z :=
  match fuel with
  | O => undefined
  | S fuel' =>
      if 0 <? left then
        fp ← gets id;
        data ← of_option (in_bytes (drop (Z.to_nat off) (write_buf fp)) left);
        ret ← engine_call (fun e => write_fn e data);
        if ret <? 0 then mret left else flush_loop fuel' (off + ret) (left - ret)
      else mret left
  end.
Definition zstream_flush : SM Z :=
  fp ← gets id;
  if error fp then mret (-1) else
  left ← flush_loop (S (Z.to_nat (write_buf_len fp))) 0 (write_buf_len fp);
  modify (fun fp => set_write fp 0 (write_buf fp));;
  if 0 <? left then
    modify (fun fp => set_flags fp true (eof fp));;
    mret (-1)
  else mret 1.
Definition zstream_close_engine (release_ioctx : bool) : SM Z :=
  ret ← zstream_flush;
  engine_call (fun e => close_fn e release_ioctx);;
  mret ret.
(** Also releases [fp]. *)
Definition zstream_close (release_ioctx : bool) : SM Z := zstream_close_engine release_ioctx.

(** ** Reading *)

(** [fp->read_buf[fp->read_buf_p1++]] *)
Definition next_char : SM Z :=
  fp ← gets id;
  ch ← of_option (rd (read_buf fp) (read_buf_p1 fp));
  modify (fun fp => set_read fp (read_buf_p1 fp + 1) (read_buf_p2 fp) (read_buf fp));;
  mret ch.
(** [read_fn(fp, fp->read_buf, ...)] *)
Definition fill_read_buf : SM Z :=
  r ← engine_call (fun e => let '(e, ret, bytes) := read_fn e zvar_stream_rbuf_size in (e, (ret, bytes)));
  let '(ret, bytes) := r in
  fp ← gets id;
  buf ← of_option (if zlen bytes <=? zlen (read_buf fp)
                   then Some (bytes ++ drop (length bytes) (read_buf fp)) else None);
  modify (fun fp => set_read fp (read_buf_p1 fp) (read_buf_p2 fp) buf);;
  mret ret.
Definition zstream_getc_do : SM Z :=
  fp ← gets id;
  if read_buf_p1 fp <? read_buf_p2 fp then next_char else
  if error fp || eof fp then mret (-1) else
  flushed ← (if 0 <? write_buf_len fp then zstream_flush else mret 1);
  if flushed =? -1 then mret (-1) else
  modify (fun fp => set_read fp 0 0 (read_buf fp));;
  ret ← fill_read_buf;
  if ret =? 0 then
    modify (fun fp => set_flags fp (error fp) true);;
    mret (-1)
  else if ret <? 0 then
    modify (fun fp => set_flags fp true (eof fp));;
    mret (-1)
  else
    modify (fun fp => set_read fp 1 (swrap 16 ret) (read_buf fp));;
    fp ← gets id;
    of_option (rd (read_buf fp) 0).
Definition ZSTREAM_GETC : SM Z :=
  fp ← gets id;
  if read_buf_p1 fp <? read_buf_p2 fp then next_char else zstream_getc_do.
Definition zstream_getc : SM Z := ZSTREAM_GETC.
Definition zstream_ungetc : SM unit :=
  fp ← gets id;
  if 0 <? read_buf_p1 fp then modify (fun fp => set_read fp (read_buf_p1 fp - 1) (read_buf_p2 fp) (read_buf fp))
  else (* zfatal *) undefined.

(** The bytes from the cursor on, [n] of them, and the cursor behind them. *)
Definition take_cached (n : Z) : SM (list Z) :=
  fp ← gets id;
  x ← of_option (in_bytes (drop (Z.to_nat (read_buf_p1 fp)) (read_buf fp)) n);
  modify (fun fp => set_read fp (read_buf_p1 fp + n) (read_buf_p2 fp) (read_buf fp));;
  mret x.
(** The start of [zstream_read] and [zstream_read_to_mem]: a first character when
    nothing is cached, and then the number to take from the cache; or the result. *)
Definition read_first (max_len : Z) : SM (option Z * Z + Z) :=
  fp ← gets id;
  let have_len := read_buf_p2 fp - read_buf_p1 fp in
  if have_len =? 0 then
    ch ← zstream_getc_do;
    fp ← gets id;
    if ch =? -1 then mret (inr (if eof fp then 0 else -1)) else
    let have_len := read_buf_p2 fp - read_buf_p1 fp in
    let left_len := max_len - 1 in
    mret (inl (Some ch, if have_len <? left_len then have_len else left_len))
  else mret (inl (None, if have_len <? max_len then have_len else max_len)).
Definition zstream_read (bf : zbuf) (max_len : Z) : SM (zbuf * Z) :=
  if max_len <? 1 then mret (bf, 0) else
  bf ← of_option (zbuf_reset bf);
  r ← read_first max_len;
  match r with
  | inr ret => mret (bf, ret)
  | inl (ch, left_len) =>
      bf ← of_option (match ch with Some ch => ZBUF_PUT bf ch | None => Some bf end);
      bf ← of_option (zbuf_terminate bf);
      x ← take_cached left_len;
      bf ← of_option (zbuf_memcat bf x left_len);
      mret (bf, bf_len bf)
  end.
Definition zstream_read_to_mem (mem : list cell) (max_len : Z) : SM (list cell * Z) :=
  if max_len <? 1 then mret (mem, 0) else
  r ← read_first max_len;
  match r with
  | inr ret => mret (mem, ret)
  | inl (ch, left_len) =>
      m ← of_option (match ch with
                     | Some ch => mem ← wr mem 0 (Some ch); Some (mem, 1)
                     | None => Some (mem, 0)
                     end);
      x ← take_cached left_len;
      mem ← of_option (blit (fst m) (snd m) x);
      mret (mem, snd m + left_len)
  end.

(** Where characters go: [ZBUF_PUT(bf, ch)], [*ps++ = ch], or nowhere. *)
Definition to_zbuf (bf : option zbuf) (ch : Z) : option (option zbuf) :=
  match bf with Some bf => Some <$> ZBUF_PUT bf ch | None => Some None end.
Definition to_mem (ps : option (list cell) * Z) (ch : Z) : option (option (list cell) * Z) :=
  match ps with
  | (Some mem, i) => mem ← wr mem i (Some ch); Some (Some mem, i + 1)
  | (None, i) => Some ps
  end.

Section sink.
Context {B : Type} (put : B -> Z -> option B).
(** [while (left_len > 0)]: what is left at the end. *)
Fixpoint readn_loop (left_len : nat) (b : B) : SM (B * Z) :=
  match left_len with
  | O => mret (b, 0)
  | S left' =>
      ch ← ZSTREAM_GETC;
      if ch =? -1 then mret (b, Z.of_nat left_len) else
      b ← of_option (put b ch);
      readn_loop left' b
  end.
Fixpoint delimiter_loop (delimiter : Z) (left_len : nat) (b : B) : SM (B * Z) :=
  match left_len with
  | O => mret (b, 0)
  | S left' =>
      ch ← ZSTREAM_GETC;
      if ch =? -1 then mret (b, Z.of_nat left_len) else
      b ← of_option (put b ch);
      if ch =? delimiter then mret (b, Z.of_nat left') else delimiter_loop delimiter left' b
  end.
End sink.
(** The common end: the number of characters, 0 at the end, -1 after an error. *)
Definition read_result (len left_len : Z) : SM Z :=
  fp ← gets id;
  mret (if left_len <? len then len - left_len else if eof fp then 0 else -1).

Definition zstream_readn (bf : option zbuf) (strict_len : Z) : SM (option zbuf * Z) :=
  if strict_len <? 1 then mret (bf, 0) else
  bf ← of_option (match bf with Some bf => Some <$> zbuf_reset bf | None => Some None end);
  r ← readn_loop to_zbuf (Z.to_nat strict_len) bf;
  bf ← of_option (match fst r with Some bf => Some <$> zbuf_terminate bf | None => Some None end);
  ret ← read_result strict_len (snd r);
  mret (bf, ret).
Definition zstream_readn_to_mem (mem : option (list cell)) (strict_len : Z) : SM (option (list cell) * Z) :=
  if strict_len <? 1 then mret (mem, 0) else
  r ← readn_loop to_mem (Z.to_nat strict_len) (mem, 0);
  ret ← read_result strict_len (snd r);
  mret (fst (fst r), ret).
Definition zstream_read_delimiter (bf : option zbuf) (delimiter max_len : Z) : SM (option zbuf * Z) :=
  if max_len <? 1 then mret (bf, 0) else
  bf ← of_option (match bf with Some bf => Some <$> zbuf_reset bf | None => Some None end);
  r ← delimiter_loop to_zbuf delimiter (Z.to_nat max_len) bf;
  bf ← of_option (match fst r with Some bf => Some <$> zbuf_terminate bf | None => Some None end);
  ret ← read_result max_len (snd r);
  mret (bf, ret).
(** [*ps = 0] stands behind both loops: with a NULL [mem] it is undefined. *)
Definition zstream_read_delimiter_to_mem (mem : option (list cell)) (delimiter max_len : Z) :
    SM (option (list cell) * Z) :=
  if max_len <? 1 then mret (mem, 0) else
  r ← delimiter_loop to_mem delimiter (Z.to_nat max_len) (mem, 0);
  mem ← of_option (match fst r with (Some mem, i) => wr mem i (Some 0) | (None, _) => None end);
  ret ← read_result max_len (snd r);
  mret (Some mem, ret).
Definition zstream_gets (bf : option zbuf) (max_len : Z) : SM (option zbuf * Z) := zstream_read_delimiter bf 10 max_len.
Definition zstream_gets_to_mem (mem : option (list cell)) (max_len : Z) : SM (option (list cell) * Z) :=
  zstream_read_delimiter_to_mem mem 10 max_len.

(** A shift by 32 or more is undefined: six rounds. *)
Fixpoint get_cint_loop (fuel : nat) (size shift : Z) : SM Z :=
  match fuel with
  | O => undefined
  | S fuel' =>
      ch ← ZSTREAM_GETC;
      if ch =? -1 then mret (-1) else
      if 31 <? shift then undefined else
      let size := Z.lor size (s32 (Z.shiftl (Z.land ch 127) shift)) in
      if negb (Z.land ch 128 =? 0) then mret size else get_cint_loop fuel' size (shift + 7)
  end.
Definition zstream_get_cint : SM Z := get_cint_loop 6 0 0.
(** The same loop in src/stdlib/cint_and_data.c. *)
Definition zcint_data_get_from_zstream : SM Z := get_cint_loop 6 0 0.

(** ** Writing *)

(** [fp->write_buf[fp->write_buf_len++] = ch] *)
Definition store_char (ch : Z) : SM Z :=
  fp ← gets id;
  buf ← of_option (wr (write_buf fp) (write_buf_len fp) (u8 ch));
  modify (fun fp => set_write fp (write_buf_len fp + 1) buf);;
  mret ch.
Definition zstream_putc_do (ch : Z) : SM Z :=
  fp ← gets id;
  if error fp then mret (-1) else
  ret ← (if zvar_stream_rbuf_size <=? write_buf_len fp then zstream_flush else mret 1);
  if ret =? -1 then mret (-1) else store_char ch.
Definition ZSTREAM_PUTC (ch : Z) : SM Z :=
  fp ← gets id;
  if write_buf_len fp <? zvar_stream_wbuf_size then store_char ch else zstream_putc_do ch.
Definition zstream_putc (c : Z) : SM Z := ZSTREAM_PUTC c.

(** Up to the NUL, and up to [left_len] characters; the number of characters
    before, or -1. *)
Fixpoint puts_loop (len : Z) (s : list Z) : SM Z :=
  match s with
  | [] => undefined
  | ch :: s' =>
      if ch =? 0 then mret len else
      ZSTREAM_PUTC ch;;
      fp ← gets id;
      if error fp || eof fp then mret (-1) else puts_loop (len + 1) s'
  end.
Definition zstream_puts (s : option (list Z)) : SM Z := puts_loop 0 (default [0] s).
Fixpoint write_loop (left_len : nat) (len : Z) (buf : list Z) : SM Z :=
  match left_len, buf with
  | O, _ => mret len
  | S _, [] => undefined
  | S left', ch :: buf' =>
      ZSTREAM_PUTC ch;;
      fp ← gets id;
      if error fp || eof fp then mret (-1) else write_loop left' len buf'
  end.
Definition zstream_write (buf : option (list Z)) (len : Z) : SM Z :=
  if len <? 1 then mret 0 else write_loop (Z.to_nat len) len (default [0] buf).
Definition zstream_append (bf : zbuf) : SM Z :=
  x ← of_option (zbuf_bytes bf); zstream_write (Some x) (bf_len bf).
(** [out] is what the format directives produce (see [zbuf_printf_1024]). *)
Definition zstream_printf_1024 (out : list Z) : SM Z :=
  let len := if zlen out <? 1024 then zlen out else 1024 - 1 in
  zstream_write (Some (take 1023 out ++ [0])) len.

(** Five rounds for a length; for a negative one the loop never ends. *)
Fixpoint write_cint_loop (fuel : nat) (left : Z) : SM unit :=
  match fuel with
  | O => undefined
  | S fuel' =>
      let ch := Z.land left 127 in
      let left := Z.shiftr left 7 in
      let ch := if left =? 0 then Z.lor ch 128 else ch in
      ZSTREAM_PUTC ch;;
      if left =? 0 then skip else write_cint_loop fuel' left
  end.
(** [len] stays 0. *)
Definition zstream_write_cint (size : Z) : SM Z := write_cint_loop cint_fuel size;; mret 0.
Definition zstream_write_cint_and_data (buf : list Z) (len : Z) : SM Z :=
  len ← of_option (if len <? 0 then s32 <$> (zlen <$> cstr buf) else Some len);
  zstream_write_cint len;;
  zstream_write (Some buf) len;;
  mret len.
Definition zstream_write_cint_and_int (i : Z) : SM Z :=
  let buf := fmt_zd i in
  let len := zlen buf in
  zstream_write_cint len;;
  zstream_write (Some (buf ++ [0])) len;;
  mret len.
Definition zstream_write_cint_and_long (i : Z) : SM Z :=
  let buf := fmt_zd i in
  zstream_write_cint_and_data (buf ++ [0]) (zlen buf);;
  mret (zlen buf).
(** [zd] is what [ZDICT_WALK] gives (Dict.v). *)
Fixpoint zstream_write_cint_and_dict (zd : list (list Z * zbuf)) : SM Z :=
  match zd with
  | [] => mret 1
  | (k, v) :: zd' =>
      zstream_write_cint_and_data k (-1);;
      x ← of_option (zbuf_bytes v);
      zstream_write_cint_and_data x (bf_len v);;
      zstream_write_cint_and_dict zd'
  end.
Fixpoint zstream_write_cint_and_pp (pp : list (list Z)) : SM Z :=
  match pp with
  | [] => mret 1
  | p :: pp' => zstream_write_cint_and_data p (-1);; zstream_write_cint_and_pp pp'
  end.
End stream.
