(* ===== verification/StreamSpec.v ===== *)
(** * Streams: what an engine promises, and what the buffers hold *)
From stdpp Require Import relations.
From S2P Require Import Prelude Buf Cint StateMonad Stream.

(** ** The laws of an engine

    [got] and [sent] are the bytes that went in and out so far, [asked] what had
    been sent each time bytes were asked for, [closed] whether the end was
    reported, [failed] whether an error was. A read gives at most what is asked for, 0 at the end, less than 0
    after an error; a write takes some of the bytes or fails, it never takes
    none. *)
Class EngineLaws (E : Type) `{!Engine E} := {
  got : E -> list Z;
  sent : E -> list Z;
  asked : E -> list (list Z);
  closed : E -> bool;
  failed : E -> bool;
  read_law e n e' ret bytes : 0 < n -> read_fn e n = (e', ret, bytes) ->
    ret <= n /\ zlen bytes = Z.max 0 ret /\ bytes_ok bytes /\
    got e' = got e ++ bytes /\ sent e' = sent e /\ asked e' = asked e ++ [sent e] /\
    closed e' = closed e || (ret =? 0) /\ failed e' = failed e || (ret <? 0);
  write_law e data e' ret : data <> [] -> write_fn e data = (e', ret) ->
    ret <> 0 /\ ret <= zlen data /\
    got e' = got e /\ sent e' = sent e ++ take (Z.to_nat ret) data /\ asked e' = asked e /\ closed e' = closed e /\
    failed e' = failed e || (ret <? 0)
}.

(** A call of the engine. *)
Definition estep {E} `{!Engine E} (e e' : E) : Prop :=
  (exists n r bytes, read_fn e n = (e', r, bytes)) \/ (exists d r, write_fn e d = (e', r)).

Section spec.
Context {E : Type} `{!Engine E, !EngineLaws E}.
Implicit Types fp : zstream E.

(** The client has taken the bytes [inp] and put the bytes [out]. After an error
    the engine may have got less than [out]. *)
Record srep fp (inp out : list Z) : Prop := {
  sr_rlen : zlen (read_buf fp) = zvar_stream_rbuf_size;
  sr_wlen : zlen (write_buf fp) = zvar_stream_wbuf_size;
  sr_cursor : 0 <= read_buf_p1 fp <= read_buf_p2 fp /\ read_buf_p2 fp <= zvar_stream_rbuf_size;
  sr_fill : 0 <= write_buf_len fp <= zvar_stream_wbuf_size;
  sr_rbytes : bytes_ok (read_buf fp);
  sr_in : exists pre, inp = pre ++ take (Z.to_nat (read_buf_p1 fp)) (read_buf fp) /\
    got (ioctx fp) = pre ++ take (Z.to_nat (read_buf_p2 fp)) (read_buf fp);
  sr_out : if error fp then sent (ioctx fp) `prefix_of` out
    else out = sent (ioctx fp) ++ take (Z.to_nat (write_buf_len fp)) (write_buf fp);
  sr_eof : eof fp = true -> closed (ioctx fp) = true;
  sr_err : error fp = true -> failed (ioctx fp) = true
}.
(** What the reading side is made of. *)
Record reader_same fp fp' : Prop := {
  rs_p1 : read_buf_p1 fp' = read_buf_p1 fp;
  rs_p2 : read_buf_p2 fp' = read_buf_p2 fp;
  rs_buf : read_buf fp' = read_buf fp;
  rs_eof : eof fp' = eof fp;
  rs_got : got (ioctx fp') = got (ioctx fp);
  rs_asked : asked (ioctx fp') = asked (ioctx fp);
  rs_closed : closed (ioctx fp') = closed (ioctx fp);
  rs_moves : rtc estep (ioctx fp) (ioctx fp')
}.
Lemma reader_same_refl fp : reader_same fp fp.
Proof. done. Qed.
Lemma reader_same_trans fp1 fp2 fp3 : reader_same fp1 fp2 -> reader_same fp2 fp3 -> reader_same fp1 fp3.
Proof. intros [] []. split; first [congruence|by etransitivity]. Qed.

Lemma wp_call {A} (f : E -> E * A) fp (Q : A -> zstream E -> Prop) :
  (forall e r, f (ioctx fp) = (e, r) -> Q r (set_ioctx fp e)) -> wp (engine_call f) fp Q.
Proof. intros H. unfold wp, engine_call, mbind, St_bind, gets. cbn. destruct (f (ioctx fp)) as [e r] eqn:Ef. by apply H. Qed.

(** ** Flushing *)
Lemma flush_loop_spec out fuel : forall off left fp, 0 <= off -> off + left <= zlen (write_buf fp) -> 0 <= left < Z.of_nat fuel ->
  out = sent (ioctx fp) ++ take (Z.to_nat left) (drop (Z.to_nat off) (write_buf fp)) ->
  wp (flush_loop fuel off left) fp (fun left' fp' => reader_same fp fp' /\ write_buf fp' = write_buf fp /\
    write_buf_len fp' = write_buf_len fp /\ error fp' = error fp /\
    (failed (ioctx fp) = true \/ 0 < left' -> failed (ioctx fp') = true) /\
    exists tail, out = sent (ioctx fp') ++ tail /\ zlen tail = left').
Proof.
  induction fuel as [|fuel IH]; intros off left fp Hoff Hend Hleft Hout; [lia|]. cbn [flush_loop].
  destruct (Z.ltb_spec 0 left) as [Hpos|Hz].
  2: { apply wp_ret. split; [apply reader_same_refl|]. do 3 (split; [done|]). split; [by intros [?|?]; [|lia]|].
       exists (take (Z.to_nat left) (drop (Z.to_nat off) (write_buf fp))). split; [done|].
       rewrite zlen_take; [done|]. rewrite zlen_drop by lia. lia. }
  apply wp_bind, wp_gets. cbn [id]. set (data := take (Z.to_nat left) (drop (Z.to_nat off) (write_buf fp))) in *.
  assert (Hd : zlen data = left) by (unfold data; rewrite zlen_take; [done|rewrite zlen_drop by lia; lia]).
  apply wp_bind. eapply (wp_of_option _ data).
  { unfold in_bytes. destruct (Z.ltb_spec left 0); [lia|]. rewrite zlen_drop by lia.
    by destruct (Z.leb_spec left (zlen (write_buf fp) - off)); [|lia]. }
  apply wp_bind. apply wp_call. intros e ret Hw.
  destruct (write_law _ _ _ _ ltac:(by intros E0; rewrite E0 in Hd; zlen_nils; lia) Hw) as (Hne & Hle & Hg & Hs & Ha & Hc & Hfl).
  assert (Hmv : rtc estep (ioctx fp) e) by (apply rtc_once; right; eauto).
  destruct (Z.ltb_spec ret 0) as [Hneg|].
  { apply wp_ret. split; [done|]. do 3 (split; [done|]). split.
    { intros _. cbn. rewrite Hfl. destruct (Z.ltb_spec ret 0); [apply orb_true_r|lia]. }
    exists data. cbn. split; [|done].
    rewrite Hs. replace (Z.to_nat ret) with 0%nat by lia. cbn. by rewrite app_nil_r. }
  eapply wp_mono.
  { apply IH; cbn; [lia|lia|lia|]. rewrite Hs, Hout, <- app_assoc. f_equal. unfold data.
    rewrite <- (take_drop (Z.to_nat ret) (take _ _)) at 1. f_equal. rewrite skipn_firstn_comm, drop_drop. f_equal; [lia|].
    f_equal. lia. }
  intros left' fp' (Hr & Hb & Hl & He & Hfail & Htail). split; [eapply reader_same_trans; [|exact Hr]; done|].
  do 3 (split; [done|]). split; [|done]. intros Hor. apply Hfail. cbn. rewrite Hfl.
  destruct Hor as [->|?]; [by left|by right].
Qed.

Lemma flush_spec fp inp out : srep fp inp out ->
  wp zstream_flush fp (fun r fp' => srep fp' inp out /\ reader_same fp fp' /\
    if error fp' then r = -1 else r = 1 /\ error fp = false /\ write_buf_len fp' = 0 /\ sent (ioctx fp') = out).
Proof.
  intros [Hrl Hwl Hc Hf Hb Hin Hout He Herr]. unfold zvar_stream_rbuf_size, zvar_stream_wbuf_size in *.
  unfold zstream_flush. apply wp_bind, wp_gets. cbn [id].
  destruct (error fp) eqn:Eerr.
  { apply wp_ret. split; [split; try done; by rewrite Eerr|]. split; [done|]. by rewrite Eerr. }
  apply wp_bind. eapply wp_mono; [apply (flush_loop_spec out _ 0); [lia|lia|lia|exact Hout]|].
  intros left fp' (Hr & Hwb & Hwn & He' & Hfail & tail & Ht & Hl). apply wp_bind, wp_modify.
  pose proof Hr as [R1 R2 R3 R4 R5 R6 R7 R8]. zlen_facts.
  destruct (Z.ltb_spec 0 left) as [Hpos|Hz].
  - apply wp_bind, wp_modify, wp_ret. cbn. split; [|split; [by split|done]].
    split; cbn; unfold zvar_stream_rbuf_size, zvar_stream_wbuf_size; rewrite ?R1, ?R2, ?R3, ?R4, ?R5, ?R7, ?Hwb; try (done || lia).
    + by exists tail.
    + intros _. apply Hfail. by right.
  - apply wp_ret. assert (tail = []) as -> by (apply zlen_inv_nil; lia). rewrite app_nil_r in Ht. cbn. rewrite He', Eerr.
    split; [|split; [by split|done]].
    split; cbn; unfold zvar_stream_rbuf_size, zvar_stream_wbuf_size; rewrite ?R1, ?R2, ?R3, ?R4, ?R5, ?R7, ?Hwb, ?He', ?Eerr;
      try (done || lia). cbn. by rewrite app_nil_r.
Qed.

(** ** Reading a character *)

(** A read from [fp] to [fp']: the engine was asked only when it had got all of
    [out]; the flags stay. *)
Record reads (out : list Z) fp fp' : Prop := {
  rd_asked : exists n, asked (ioctx fp') = asked (ioctx fp) ++ replicate n out;
  rd_moves : rtc estep (ioctx fp) (ioctx fp');
  rd_error : error fp = true -> error fp' = true;
  rd_eof : eof fp = true -> eof fp' = true
}.
#[export] Instance reads_refl out : Reflexive (reads out).
Proof. intros fp. split; [exists 0%nat; by rewrite app_nil_r|done|done|done]. Qed.
#[export] Instance reads_trans out : Transitive (reads out).
Proof.
  intros fp1 fp2 fp3 [[n E1] ? ? ?] [[k E2] ? ? ?]. split; [|by etransitivity|auto|auto]. exists (n + k)%nat.
  by rewrite E2, E1, replicate_add, app_assoc.
Qed.

(** A character, or -1 when the engine failed or reported its end and all it
    delivered is taken. *)
Definition getc_post inp out fp (r : Z) fp' : Prop :=
  reads out fp fp' /\
  (byte_ok r /\ srep fp' (inp ++ [r]) out \/
   r = -1 /\ srep fp' inp out /\ (error fp' || eof fp') = true /\ got (ioctx fp') = inp).

Lemma take_next {A} (l : list A) i x : l !! i = Some x -> take (S i) l = take i l ++ [x].
Proof. apply take_S_r. Qed.
Lemma next_char_spec fp inp out : srep fp inp out -> read_buf_p1 fp < read_buf_p2 fp ->
  wp next_char fp (getc_post inp out fp).
Proof.
  intros [Hrl Hwl Hc Hf Hb (pre & Hinp & Hgot) Hout He Herr] Hlt. unfold next_char. apply wp_bind, wp_gets. cbn [id].
  destruct (rd_is_Some (read_buf fp) (read_buf_p1 fp)) as [c Hrd]; [lia|]. apply wp_bind. eapply wp_of_option; [exact Hrd|].
  apply wp_bind, wp_modify, wp_ret. unfold rd in Hrd. destruct (Z.ltb_spec (read_buf_p1 fp) 0); [lia|]. split.
  { split; cbn; [exists 0%nat; by rewrite app_nil_r|done|done|done]. }
  left. split; [by eapply (Forall_lookup_1 _ _ _ _ Hb)|]. split; cbn; try done; [lia|].
  exists pre. split; [|done]. replace (Z.to_nat (read_buf_p1 fp + 1)) with (S (Z.to_nat (read_buf_p1 fp))) by lia.
  by rewrite (take_next _ _ _ Hrd), Hinp, app_assoc.
Qed.
(** Asking the engine with an empty cache. *)
Lemma fill_spec fp inp out : srep fp inp out -> read_buf_p1 fp = 0 -> read_buf_p2 fp = 0 -> error fp = false ->
  sent (ioctx fp) = out ->
  wp fill_read_buf fp (fun ret fp' => ret <= zvar_stream_rbuf_size /\ reads out fp fp' /\ error fp' = false /\
    eof fp' = eof fp /\ read_buf_p1 fp' = 0 /\ read_buf_p2 fp' = 0 /\ (ret = 0 -> closed (ioctx fp') = true) /\ (ret < 0 -> failed (ioctx fp') = true) /\
    forall p1, 0 <= p1 <= Z.max 0 ret ->
      srep (set_read fp' p1 (Z.max 0 ret) (read_buf fp')) (inp ++ take (Z.to_nat p1) (read_buf fp')) out).
Proof.
  intros [Hrl Hwl Hc Hf Hb (pre & Hinp & Hgot) Hout He Herr] E1 E2 Eerr Hsent. rewrite E1, E2 in *. cbn in Hinp, Hgot.
  rewrite app_nil_r in *. subst pre. unfold fill_read_buf. apply wp_bind, wp_call. intros e [ret bytes].
  destruct (read_fn (ioctx fp) zvar_stream_rbuf_size) as [[e' ret'] bytes'] eqn:Er. intros [= <- <- <-].
  destruct (read_law _ zvar_stream_rbuf_size _ _ _ eq_refl Er) as (Hle & Hz & Hbb & Hg & Hs & Ha & Hcl & Hfl).
  apply wp_bind, wp_gets. cbn [id read_buf set_ioctx]. apply wp_bind. unfold zvar_stream_rbuf_size, zvar_stream_wbuf_size in *.
  destruct (Z.leb_spec (zlen bytes') (zlen (read_buf fp))); [|lia]. eapply wp_of_option; [done|].
  apply wp_bind, wp_modify, wp_ret. cbn. split; [done|]. split.
  { split; cbn; [|by apply rtc_once; left; eauto|done|done]. exists 1%nat. by rewrite Ha, Hsent. }
  do 4 (split; [done|]). split; [intros ->; rewrite Hcl; apply orb_true_r|].
  split; [intros Hneg; rewrite Hfl; destruct (Z.ltb_spec ret' 0); [apply orb_true_r|lia]|].
  intros p1 Hp1. split; cbn; unfold zvar_stream_rbuf_size, zvar_stream_wbuf_size; rewrite ?Eerr; try done.
  - rewrite zlen_app. unfold zlen in *. rewrite length_drop. lia.
  - lia.
  - apply Forall_app. split; [done|by apply Forall_drop].
  - exists inp. split; [done|]. rewrite Hg, Hgot. f_equal. by rewrite <- Hz, zlen_to_nat, take_app_length.
  - rewrite Eerr in Hout. rewrite Hs. done.
  - intros Hf'. rewrite Hcl, He by done. done.
Qed.

Lemma getc_do_spec fp inp out : srep fp inp out -> wp zstream_getc_do fp (getc_post inp out fp).
Proof.
  intros Hs. unfold zstream_getc_do. apply wp_bind, wp_gets. cbn [id].
  destruct (Z.ltb_spec (read_buf_p1 fp) (read_buf_p2 fp)) as [|Hge]; [by apply next_char_spec|].
  assert (Hgot : forall fp', srep fp' inp out -> read_buf_p1 fp' = read_buf_p2 fp' -> got (ioctx fp') = inp).
  { intros fp' Hs' E'. destruct (sr_in _ _ _ Hs') as (pre & -> & ->). by rewrite E'. }
  assert (Heq : read_buf_p1 fp = read_buf_p2 fp) by (destruct (sr_cursor _ _ _ Hs); lia).
  destruct (error fp || eof fp) eqn:Eflags.
  { apply wp_ret. split; [reflexivity|]. right. do 3 (split; [done|]). by apply Hgot. }
  apply orb_false_iff in Eflags as [Eerr Eeof]. apply wp_bind.
  assert (Hflush : wp (if 0 <? write_buf_len fp then zstream_flush else mret 1) fp (fun r fp' => srep fp' inp out /\
    reader_same fp fp' /\ if error fp' then r = -1 else r = 1 /\ write_buf_len fp' = 0 /\ sent (ioctx fp') = out)).
  { destruct (Z.ltb_spec 0 (write_buf_len fp)).
    - eapply wp_mono; [by apply flush_spec|]. intros r fp' (? & ? & H1). split; [done|]. split; [done|].
      destruct (error fp'); [done|]. by destruct H1 as (? & _ & ? & ?).
    - apply wp_ret. split; [done|]. split; [apply reader_same_refl|]. rewrite Eerr. split; [done|].
      destruct (sr_fill _ _ _ Hs). split; [lia|]. pose proof (sr_out _ _ _ Hs) as Ho. rewrite Eerr in Ho.
      replace (Z.to_nat (write_buf_len fp)) with 0%nat in Ho by lia. by rewrite app_nil_r in Ho. }
  eapply wp_mono; [exact Hflush|]. intros r fp1 (Hs1 & [R1 R2 R3 R4 R5 R6 R7 R8] & Hr).
  destruct (error fp1) eqn:Eerr1.
  { subst r. apply wp_ret. split; [split|]; [exists 0%nat; by rewrite app_nil_r|done|done|congruence|].
    right. rewrite Eerr1. do 3 (split; [done|]). apply Hgot; [done|congruence]. }
  destruct Hr as (-> & Hw0 & Hsent). cbn [Z.eqb]. apply wp_bind, wp_modify, wp_bind.
  pose proof (Hgot fp1 Hs1 ltac:(congruence)) as Hg1. eapply wp_mono.
  { apply (fill_spec _ inp out); [|done|done|exact Eerr1|exact Hsent]. destruct Hs1.
    split; cbn; try done. exists inp. by rewrite app_nil_r. }
  intros ret fp2 (Hle & Hrd & Eerr2 & Eeof2 & P1 & P2 & Hcl & Hfl & Hput). cbn in Eeof2.
  assert (Hreads : reads out fp fp2).
  { destruct Hrd as [[n En] Hm H1 H2]. cbn in *. split; [exists n; congruence|by etransitivity|congruence|congruence]. }
  pose proof (Hput 0 ltac:(lia)) as H0. cbn in H0. rewrite app_nil_r in H0.
  assert (Hlast : forall err fin, (err = true -> failed (ioctx fp2) = true) -> (fin = true -> closed (ioctx fp2) = true) ->
    ret <= 0 -> srep (set_flags fp2 err fin) inp out /\ got (ioctx fp2) = inp).
  { intros err fin H1 H2 Hneg. replace (Z.max 0 ret) with 0 in H0 by lia. destruct H0 as [A1 A2 A3 A4 A5 A6 A7 A8 A9].
    cbn in *. rewrite Eerr2 in A7. destruct A6 as (pre & Epre & Egot). cbn in Epre. rewrite app_nil_r in *. split; [|congruence].
    split; cbn; rewrite ?P1, ?P2; try done.
    - exists pre. cbn. by rewrite app_nil_r.
    - destruct err; [|done]. eexists. exact A7. }
  destruct (Z.eqb_spec ret 0) as [->|Hne]; [|destruct (Z.ltb_spec ret 0) as [Hneg|Hpos]].
  - apply wp_bind, wp_modify, wp_ret. destruct (Hlast (error fp2) true) as [? ?]; [by rewrite Eerr2|auto|done|].
    split; [by destruct Hreads; split|]. right. cbn. rewrite orb_true_r. done.
  - apply wp_bind, wp_modify, wp_ret. destruct (Hlast true (eof fp2)) as [? ?]; [auto|by rewrite Eeof2, R4, Eeof|lia|].
    split; [by destruct Hreads; split|]. right. done.
  - pose proof (Hput 1 ltac:(lia)) as H1. replace (Z.max 0 ret) with ret in H1 by lia.
    apply wp_bind, wp_modify. unfold zvar_stream_rbuf_size in *. rewrite (swrap_small 16 ret) by lia.
    apply wp_bind, wp_gets. cbn [id]. pose proof (sr_rlen _ _ _ H1) as Hlen. cbn in Hlen. unfold zvar_stream_rbuf_size in Hlen.
    destruct (rd_is_Some (read_buf fp2) 0) as [c Ec]; [lia|]. eapply wp_of_option; [exact Ec|].
    split; [by destruct Hreads; split|]. left. pose proof (sr_rbytes _ _ _ H1) as Hbb. cbn in Hbb.
    destruct (read_buf fp2) as [|c' buf] eqn:Ebuf; [done|]. injection Ec as ->.
    split; [by inversion Hbb|exact H1].
Qed.
Lemma GETC_spec fp inp out : srep fp inp out -> wp ZSTREAM_GETC fp (getc_post inp out fp).
Proof.
  intros Hs. unfold ZSTREAM_GETC. apply wp_bind, wp_gets. cbn [id].
  destruct (Z.ltb_spec (read_buf_p1 fp) (read_buf_p2 fp)); [by apply next_char_spec|by apply getc_do_spec].
Qed.
End spec.
