(* ===== verification/StreamRead.v ===== *)
(** * Streams: the reading functions *)
From stdpp Require Import relations.
From S2P Require Import Prelude Buf Cint StateMonad Stream StreamSpec.

Section read.
Context {E : Type} `{!Engine E, !EngineLaws E}.
Implicit Types fp : zstream E.

(** All that the engine delivered is taken, and it reported an error or its end. *)
Definition ends (inp : list Z) fp : Prop := (error fp || eof fp) = true /\ got (ioctx fp) = inp.
(** What a request for [n] characters takes, and one up to [d]. *)
Definition took_n (n : Z) (x inp : list Z) fp : Prop := zlen x <= n /\ (zlen x = n \/ ends (inp ++ x) fp).
Definition took_delimited (d n : Z) (x inp : list Z) fp : Prop :=
  zlen x <= n /\ ((exists y, x = y ++ [d] /\ d ∉ y) \/ (d ∉ x) /\ (zlen x = n \/ ends (inp ++ x) fp)).
Definition ret_of (x : list Z) fp : Z :=
  match x with [] => if eof fp then 0 else -1 | _ => zlen x end.

(** ** The loops *)
Section sink.
Context {B : Type} (put : B -> Z -> option B) (R : B -> list Z -> Prop) (N : Z).
Hypothesis put_spec : forall b l c, R b l -> zlen l < N -> byte_ok c -> runs (put b c) (fun b' => R b' (l ++ [c])).

Lemma readn_loop_spec n : forall b l fp inp out, srep fp inp out -> R b l -> zlen l + Z.of_nat n <= N ->
  wp (readn_loop put n b) fp (fun r fp' => reads out fp fp' /\ exists x, srep fp' (inp ++ x) out /\ R (fst r) (l ++ x) /\
    bytes_ok x /\ zlen x + snd r = Z.of_nat n /\ took_n (Z.of_nat n) x inp fp').
Proof using put_spec.
  induction n as [|n IH]; intros b l fp inp out Hs Hb Hn.
  { apply wp_ret. split; [reflexivity|]. exists []. cbn. rewrite !app_nil_r. do 4 (split; [done|]). split; [done|by left]. }
  cbn [readn_loop]. apply wp_bind. eapply wp_mono; [by apply GETC_spec|].
  intros ch fp1 [Hr1 [[Hch Hs1]|(-> & Hs1 & Hfl & Hg)]].
  2: { cbn [Z.eqb]. apply wp_ret. split; [done|]. exists []. cbn [fst snd]. rewrite !app_nil_r. zlen_nils.
       do 4 (split; [done|]). split; [zlia|]. right. by split; [|rewrite app_nil_r]. }
  destruct (Z.eqb_spec ch (-1)) as [->|]; [by destruct Hch|]. destruct (put_spec b l ch Hb ltac:(lia) Hch) as (b1 & Hp & Hb1).
  apply wp_bind. eapply wp_of_option; [done|]. eapply wp_mono.
  { apply (IH b1 _ fp1 _ _ Hs1 Hb1). zlia. }
  intros [b2 left] fp2 (Hr2 & x & Hs2 & Hb2 & Hxb & Hz & Ht). split; [by etransitivity|]. exists (ch :: x).
  rewrite <- !app_assoc in *. cbn [app fst snd] in *. do 2 (split; [done|]). split; [by constructor|].
  unfold took_n in *. rewrite zlen_cons, <- app_assoc in *. split; [lia|]. destruct Ht as [? [?|?]]; (split; [lia|]); [left; lia|by right].
Qed.

Lemma delimiter_loop_spec d n : forall b l fp inp out, srep fp inp out -> R b l -> zlen l + Z.of_nat n <= N ->
  wp (delimiter_loop put d n b) fp (fun r fp' => reads out fp fp' /\ exists x, srep fp' (inp ++ x) out /\ R (fst r) (l ++ x) /\
    bytes_ok x /\ zlen x + snd r = Z.of_nat n /\ took_delimited d (Z.of_nat n) x inp fp').
Proof using put_spec.
  induction n as [|n IH]; intros b l fp inp out Hs Hb Hn.
  { apply wp_ret. split; [reflexivity|]. exists []. cbn. rewrite !app_nil_r. do 4 (split; [done|]). split; [done|]. right.
    split; [apply not_elem_of_nil|by left]. }
  cbn [delimiter_loop]. apply wp_bind. eapply wp_mono; [by apply GETC_spec|].
  intros ch fp1 [Hr1 [[Hch Hs1]|(-> & Hs1 & Hfl & Hg)]].
  2: { cbn [Z.eqb]. apply wp_ret. split; [done|]. exists []. cbn [fst snd]. rewrite !app_nil_r. zlen_nils.
       do 4 (split; [done|]). split; [zlia|]. right. split; [apply not_elem_of_nil|]. right. by split; [|rewrite app_nil_r]. }
  destruct (Z.eqb_spec ch (-1)) as [->|]; [by destruct Hch|]. destruct (put_spec b l ch Hb ltac:(lia) Hch) as (b1 & Hp & Hb1).
  apply wp_bind. eapply wp_of_option; [done|]. destruct (Z.eqb_spec ch d) as [->|Hne].
  { apply wp_ret. split; [done|]. exists [d]. cbn [fst snd]. do 2 (split; [done|]). split; [by constructor|].
    change (zlen [d]) with 1. split; [lia|]. split; [change (zlen [d]) with 1; lia|]. left. exists []. split; [done|apply not_elem_of_nil]. }
  eapply wp_mono.
  { apply (IH b1 _ fp1 _ _ Hs1 Hb1). zlia. }
  intros [b2 left] fp2 (Hr2 & x & Hs2 & Hb2 & Hxb & Hz & Ht). split; [by etransitivity|]. exists (ch :: x).
  rewrite <- !app_assoc in *. cbn [app fst snd] in *. do 2 (split; [done|]). split; [by constructor|].
  unfold took_delimited in *. rewrite zlen_cons, <- app_assoc in *. split; [lia|]. destruct Ht as [? [(y & -> & Hy)|[Hd He]]]; (split; [lia|]).
  - left. exists (ch :: y). split; [done|]. rewrite elem_of_cons. intros [?|?]; congruence.
  - right. rewrite elem_of_cons. split; [intros [?|?]; congruence|]. destruct He; [left; lia|by right].
Qed.
End sink.

(** ** The sinks *)
Definition zbuf_at (cap : option Z) (b0 b : option zbuf) (l : list Z) : Prop :=
  match b0, b with Some _, Some b => rep cap b (clip cap l) | None, None => True | _, _ => False end.
Definition mem_at (m0 : option (list cell)) (ps : option (list cell) * Z) (l : list Z) : Prop :=
  match m0, fst ps with
  | Some m0, Some m => snd ps = zlen l /\ m = (Some <$> l) ++ drop (length l) m0 /\ zlen l <= zlen m0
  | None, None => True
  | _, _ => False
  end.

Lemma to_zbuf_spec cap N b0 b l c : room cap N -> zbuf_at cap b0 b l -> zlen l < N -> byte_ok c ->
  runs (to_zbuf b c) (fun b' => zbuf_at cap b0 b' (l ++ [c])).
Proof.
  intros Hr Hb Hl Hc. destruct b0 as [b0|], b as [b|]; try done; [|by apply runs_ret]. cbn [to_zbuf zbuf_at] in *.
  destruct (ZBUF_PUT_runs cap b (clip cap l) c Hb) as (b' & -> & Hb').
  { destruct cap as [cp|]; [done|]. unfold room in *. cbn [clip]. lia. }
  cbn. apply runs_ret. cbn. by rewrite clip_app, u8_id in Hb'.
Qed.
Lemma to_mem_spec m0 ps l c : mem_at m0 ps l -> (forall m, m0 = Some m -> zlen l < zlen m) -> byte_ok c ->
  runs (to_mem ps c) (fun ps' => mem_at m0 ps' (l ++ [c])).
Proof.
  intros Hm Hroom Hc. unfold mem_at in *. destruct ps as [[m|] i]; cbn [fst snd] in *; cbn [to_mem].
  - destruct m0 as [m0|]; [|done]. destruct Hm as (-> & -> & _). specialize (Hroom m0 eq_refl).
    destruct (drop (length l) m0) as [|y rest] eqn:Ed.
    { apply (f_equal length) in Ed. rewrite length_drop in Ed. unfold zlen in Hroom. cbn in Ed. lia. }
    replace (zlen l) with (zlen (Some <$> l)) at 1 by (by rewrite zlen_fmap). rewrite wr_app. cbn. apply runs_ret.
    cbn [fst snd]. split; [zlia|]. split; [|zlia]. rewrite fmap_app, <- app_assoc, length_app. cbn. do 2 f_equal.
    change (drop (length l + 1) m0) with (drop (length l + 1) m0). by rewrite <- drop_drop, Ed.
  - destruct m0; [done|]. by apply runs_ret.
Qed.

(** The buffers before and after: a [zbuf] holds what was taken, up to its
    capacity; a block of memory has it in front; NULL takes nothing. *)
Definition zbuf_arg (cap : option Z) (b0 : option zbuf) : Prop :=
  match b0 with Some b0 => exists l, rep cap b0 l | None => True end.
Definition zbuf_result (cap : option Z) (b0 b : option zbuf) (x : list Z) : Prop :=
  match b0, b with Some _, Some b => holds cap (clip cap x) b | None, None => True | _, _ => False end.
Definition mem_result (m0 m : option (list cell)) (x : list cell) : Prop :=
  match m0, m with Some m0, Some m => m = x ++ drop (length x) m0 | None, None => True | _, _ => False end.
Definition mem_room (m0 : option (list cell)) (n : Z) : Prop :=
  match m0 with Some m0 => n <= zlen m0 | None => True end.

Lemma reset_sink cap b0 : zbuf_arg cap b0 ->
  runs (match b0 with Some bf => Some <$> zbuf_reset bf | None => Some None end) (fun b => zbuf_at cap b0 b []).
Proof.
  destruct b0 as [b0|]; [|by intros; apply runs_ret]. intros [l H]. destruct (zbuf_reset_holds _ _ _ H) as (b & -> & [Hb _]).
  apply runs_ret. cbn. by destruct cap as [z|]; cbn; [rewrite take_nil|].
Qed.
Lemma terminate_sink cap b0 b x : zbuf_at cap b0 b x ->
  runs (match b with Some bf => Some <$> zbuf_terminate bf | None => Some None end) (fun b => zbuf_result cap b0 b x).
Proof.
  destruct b0 as [b0|], b as [b|]; try done; [|by intros; apply runs_ret]. cbn.
  intros H. destruct (terminate_holds _ _ _ H) as (b' & -> & Hb). by apply runs_ret.
Qed.
Lemma read_result_spec len x left fp (Q : Z -> zstream E -> Prop) : 0 < len -> zlen x + left = len ->
  Q (ret_of x fp) fp -> wp (read_result len left) fp Q.
Proof.
  intros Hl Hx HQ. unfold read_result. apply wp_bind, wp_gets, wp_ret. cbn [id]. unfold ret_of in HQ. destruct x as [|c x].
  - zlen_nils. destruct (Z.ltb_spec left len); [lia|done].
  - rewrite zlen_cons in *. zlen_facts. destruct (Z.ltb_spec left len); [|lia]. by replace (len - left) with (1 + zlen x) by lia.
Qed.

(** ** Requests *)

(** What a request that takes [x] does to the stream. *)
Definition takes inp out fp (x : list Z) fp' : Prop := reads out fp fp' /\ srep fp' (inp ++ x) out /\ bytes_ok x.

Lemma readn_spec fp inp out b0 cap n : srep fp inp out -> zbuf_arg cap b0 -> 0 < n -> room cap n ->
  wp (zstream_readn b0 n) fp (fun r fp' => exists x, takes inp out fp x fp' /\ took_n n x inp fp' /\
    snd r = ret_of x fp' /\ zbuf_result cap b0 (fst r) x).
Proof.
  intros Hs Hb Hn Hr. unfold zstream_readn. destruct (Z.ltb_spec n 1); [lia|]. destruct (reset_sink _ _ Hb) as (b1 & E1 & Hb1).
  apply wp_bind. eapply wp_of_option; [done|]. apply wp_bind. eapply wp_mono.
  { apply (readn_loop_spec to_zbuf (zbuf_at cap b0) n); [|exact Hs|exact Hb1|zlen_nils; lia].
    intros b l c Hbl Hl Hc. by eapply to_zbuf_spec. }
  intros [b2 left] fp2 (Hrd & x & Hs2 & Hb2 & Hxb & Hz & Ht). cbn [fst snd app] in *. rewrite Z2Nat.id in * by lia.
  destruct (terminate_sink _ _ _ _ Hb2) as (b3 & E3 & Hb3). apply wp_bind. eapply wp_of_option; [done|].
  apply wp_bind. eapply read_result_spec; [exact Hn|exact Hz|]. apply wp_ret. by exists x.
Qed.
Lemma read_delimiter_spec fp inp out b0 cap d n : srep fp inp out -> zbuf_arg cap b0 -> 0 < n -> room cap n ->
  wp (zstream_read_delimiter b0 d n) fp (fun r fp' => exists x, takes inp out fp x fp' /\ took_delimited d n x inp fp' /\
    snd r = ret_of x fp' /\ zbuf_result cap b0 (fst r) x).
Proof.
  intros Hs Hb Hn Hr. unfold zstream_read_delimiter. destruct (Z.ltb_spec n 1); [lia|]. destruct (reset_sink _ _ Hb) as (b1 & E1 & Hb1).
  apply wp_bind. eapply wp_of_option; [done|]. apply wp_bind. eapply wp_mono.
  { apply (delimiter_loop_spec to_zbuf (zbuf_at cap b0) n); [|exact Hs|exact Hb1|zlen_nils; lia].
    intros b l c Hbl Hl Hc. by eapply to_zbuf_spec. }
  intros [b2 left] fp2 (Hrd & x & Hs2 & Hb2 & Hxb & Hz & Ht). cbn [fst snd app] in *. rewrite Z2Nat.id in * by lia.
  destruct (terminate_sink _ _ _ _ Hb2) as (b3 & E3 & Hb3). apply wp_bind. eapply wp_of_option; [done|].
  apply wp_bind. eapply read_result_spec; [exact Hn|exact Hz|]. apply wp_ret. by exists x.
Qed.

Lemma mem_start m0 : mem_at m0 (m0, 0) [].
Proof. destruct m0 as [m0|]; [|done]. cbn. zlen_nils. split; [done|]. split; [by rewrite drop_0|zlia]. Qed.
Lemma readn_to_mem_spec fp inp out m0 n : srep fp inp out -> mem_room m0 n -> 0 < n ->
  wp (zstream_readn_to_mem m0 n) fp (fun r fp' => exists x, takes inp out fp x fp' /\ took_n n x inp fp' /\
    snd r = ret_of x fp' /\ mem_result m0 (fst r) (Some <$> x)).
Proof.
  intros Hs Hm Hn. unfold zstream_readn_to_mem. destruct (Z.ltb_spec n 1); [lia|]. apply wp_bind. eapply wp_mono.
  { apply (readn_loop_spec to_mem (mem_at m0) n); [|exact Hs|apply mem_start|zlen_nils; lia].
    intros b l c Hbl Hl Hc. eapply to_mem_spec; [done| |done]. intros m ->. cbn in Hm. lia. }
  intros [[m i] left] fp2 (Hrd & x & Hs2 & Hb2 & Hxb & Hz & Ht). cbn [fst snd app] in *. rewrite Z2Nat.id in * by lia.
  apply wp_bind. eapply read_result_spec; [exact Hn|exact Hz|]. apply wp_ret. exists x. do 3 (split; [done|]). cbn [fst].
  unfold mem_result, mem_at in *. destruct m0, m; cbn [fst snd] in *; try done. rewrite length_fmap. by destruct Hb2 as (_ & ? & _).
Qed.
(** The NUL behind the characters needs room too. *)
Lemma read_delimiter_to_mem_spec fp inp out m0 d n : srep fp inp out -> n < zlen m0 -> 0 < n ->
  wp (zstream_read_delimiter_to_mem (Some m0) d n) fp (fun r fp' => exists x, takes inp out fp x fp' /\
    took_delimited d n x inp fp' /\ snd r = ret_of x fp' /\ mem_result (Some m0) (fst r) ((Some <$> x) ++ [Some 0])).
Proof.
  intros Hs Hm Hn. unfold zstream_read_delimiter_to_mem. destruct (Z.ltb_spec n 1); [lia|]. apply wp_bind. eapply wp_mono.
  { apply (delimiter_loop_spec to_mem (mem_at (Some m0)) n); [|exact Hs|apply mem_start|zlen_nils; lia].
    intros b l c Hbl Hl Hc. eapply to_mem_spec; [done| |done]. intros m [= <-]. lia. }
  intros [[m i] left] fp2 (Hrd & x & Hs2 & Hb2 & Hxb & Hz & Ht). cbn [fst snd app] in *. rewrite Z2Nat.id in * by lia.
  unfold mem_at in Hb2. cbn [fst snd] in Hb2. destruct m as [m|]; [|done]. destruct Hb2 as (-> & -> & Hx). destruct Ht as [Hle Ht].
  apply wp_bind. destruct (drop (length x) m0) as [|y rest] eqn:Ed.
  { apply (f_equal length) in Ed. rewrite length_drop in Ed. cbn in Ed. unfold zlen in *. lia. }
  eapply wp_of_option; [rewrite <- (zlen_fmap (@Some Z) x); apply wr_app|].
  apply wp_bind. eapply read_result_spec; [exact Hn|exact Hz|]. apply wp_ret. exists x. do 3 (split; [done|]). cbn.
  rewrite <- app_assoc, length_app, length_fmap. cbn. by rewrite <- drop_drop, Ed.
Qed.

(** ** What is there already *)
Lemma take_cached_spec fp inp out n : srep fp inp out -> 0 <= n <= read_buf_p2 fp - read_buf_p1 fp ->
  wp (take_cached n) fp (fun x fp' => zlen x = n /\ takes inp out fp x fp').
Proof.
  intros [Hrl Hwl Hc Hf Hb (pre & Hinp & Hgot) Hout He Herr] Hn. unfold take_cached. apply wp_bind, wp_gets. cbn [id].
  set (x := take (Z.to_nat n) (drop (Z.to_nat (read_buf_p1 fp)) (read_buf fp))).
  unfold zvar_stream_rbuf_size in *.
  assert (Hx : zlen x = n) by (unfold x; rewrite zlen_take; [done|rewrite zlen_drop; lia]).
  apply wp_bind. eapply (wp_of_option _ x).
  { unfold in_bytes. destruct (Z.ltb_spec n 0); [lia|]. rewrite zlen_drop by lia.
    by destruct (Z.leb_spec n (zlen (read_buf fp) - read_buf_p1 fp)); [|lia]. }
  apply wp_bind, wp_modify, wp_ret. split; [done|]. split.
  { split; cbn; [exists 0%nat; by rewrite app_nil_r|done|done|done]. }
  split; [|by apply Forall_take, Forall_drop]. split; cbn; unfold zvar_stream_rbuf_size; try done; [lia|].
  exists pre. split; [|done]. rewrite Hinp, <- app_assoc. f_equal. unfold x.
  rewrite <- (take_drop (Z.to_nat (read_buf_p1 fp)) (take (Z.to_nat (read_buf_p1 fp + n)) (read_buf fp))).
  rewrite take_take, skipn_firstn_comm. f_equal; f_equal; lia.
Qed.
Lemma read_first_spec fp inp out n : srep fp inp out -> 0 < n ->
  wp (read_first n) fp (fun r fp' => match r with
    | inr ret => takes inp out fp [] fp' /\ ends inp fp' /\ ret = if eof fp' then 0 else -1
    | inl (ch, more) => exists x0, takes inp out fp x0 fp' /\ x0 = match ch with Some c => [c] | None => [] end /\
        0 <= more <= read_buf_p2 fp' - read_buf_p1 fp' /\ 0 < zlen x0 + more <= n
    end).
Proof.
  intros Hs Hn. pose proof (sr_cursor _ _ _ Hs) as Hc. unfold read_first. apply wp_bind, wp_gets. cbn [id].
  destruct (Z.eqb_spec (read_buf_p2 fp - read_buf_p1 fp) 0).
  - apply wp_bind. eapply wp_mono; [by apply getc_do_spec|]. intros ch fp1 [Hr1 Hch]. apply wp_bind, wp_gets. cbn [id].
    destruct Hch as [[Hch Hs1]|(-> & Hs1 & Hfl & Hg)].
    + destruct (Z.eqb_spec ch (-1)) as [->|]; [by destruct Hch|]. apply wp_ret. exists [ch].
      pose proof (sr_cursor _ _ _ Hs1). split; [split; [done|split; [done|by constructor]]|]. split; [done|].
      change (zlen [ch]) with 1. destruct (Z.ltb_spec (read_buf_p2 fp1 - read_buf_p1 fp1) (n - 1)); lia.
    + cbn [Z.eqb]. apply wp_ret. split; [|done]. split; [done|]. by rewrite app_nil_r.
  - apply wp_ret. exists []. split; [split; [reflexivity|split; [by rewrite app_nil_r|done]]|]. split; [done|]. zlen_nils.
    destruct (Z.ltb_spec (read_buf_p2 fp - read_buf_p1 fp) n); lia.
Qed.

(** Between one character and [n] of them, or none when there are no more. *)
Definition took_some (n : Z) (x inp : list Z) fp : Prop := zlen x <= n /\ (x <> [] \/ ends inp fp).

Lemma takes_trans inp out fp x fp' y fp'' : takes inp out fp x fp' -> takes (inp ++ x) out fp' y fp'' ->
  takes inp out fp (x ++ y) fp''.
Proof.
  intros (H1 & _ & H2) (H3 & H4 & H5). split; [by etransitivity|]. rewrite app_assoc. split; [done|by apply Forall_app].
Qed.

(** [zbuf_memcat] clips in a static buffer; the result is the length kept. *)
Lemma read_spec fp inp out b0 cap n : srep fp inp out -> zbuf_arg cap (Some b0) -> 0 < n < int_max -> room cap (n + 1) ->
  wp (zstream_read b0 n) fp (fun r fp' => exists x, takes inp out fp x fp' /\ took_some n x inp fp' /\
    holds cap (clip cap x) (fst r) /\ snd r = match x with [] => if eof fp' then 0 else -1 | _ => zlen (clip cap x) end).
Proof.
  intros Hs [l Hb] Hn Hr. unfold zstream_read. destruct (Z.ltb_spec n 1); [lia|].
  destruct (zbuf_reset_holds _ _ _ Hb) as (b1 & E1 & Hb1). apply wp_bind. eapply wp_of_option; [done|].
  apply wp_bind. eapply wp_mono; [apply (read_first_spec fp inp out n Hs); lia|].
  intros [[ch left]|ret] fp1; cbv beta iota.
  2: { intros (Ht & He & ->). apply wp_ret. exists []. split; [done|]. split; [split; [zlen_nils; lia|by right]|].
       split; [|done]. by destruct cap as [z|]; cbn; [rewrite take_nil|]. }
  intros (x0 & Ht0 & Ex0 & Hleft & Hz).
  assert (Hput : runs (match ch with Some ch => ZBUF_PUT b1 ch | None => Some b1 end) (fun b2 => rep cap b2 (clip cap x0))).
  { destruct Hb1 as [Hb1 _]. subst x0. destruct ch as [c|].
    - destruct Ht0 as (_ & _ & Hc). inversion_clear Hc.
      assert (Hp : room cap (zlen (@nil Z) + 1)) by (unfold room in *; destruct cap; [done|]; zlen_nils; lia).
      pose proof (ZBUF_PUT_runs cap b1 [] c Hb1 Hp) as Hput. by rewrite u8_id in Hput by done.
    - apply runs_ret. by destruct cap as [z|]; cbn; [rewrite take_nil|]. }
  destruct Hput as (b2 & E2 & Hb2). apply wp_bind. eapply wp_of_option; [done|].
  destruct (terminate_holds _ _ _ Hb2) as (b3 & E3 & Hb3 & _). apply wp_bind. eapply wp_of_option; [done|].
  destruct Ht0 as (Hr0 & Hs0 & Hx0). apply wp_bind. eapply wp_mono; [by apply take_cached_spec|].
  intros x fp2 [Hx Ht]. pose proof Ht as (_ & _ & Hxb).
  zlen_facts. destruct (zbuf_memcat_holds cap b3 (clip cap x0) x left x Hb3) as (b4 & E4 & Hb4); [lia| |done|done| |].
  { unfold in_bytes. destruct (Z.ltb_spec left 0); [lia|]. rewrite Hx. destruct (Z.leb_spec left left); [|lia].
    by rewrite <- Hx, zlen_to_nat, firstn_all. }
  { unfold room in *. destruct cap; [done|]. cbn [clip]. lia. }
  apply wp_bind. eapply wp_of_option; [done|]. apply wp_ret. exists (x0 ++ x). rewrite clip_app in Hb4.
  split; [eapply takes_trans; [|exact Ht]; done|]. assert (Hne : x0 ++ x <> []).
  { intros E0. apply (f_equal zlen) in E0. rewrite zlen_app in E0. zlen_nils. lia. }
  split; [split; [rewrite zlen_app; lia|by left]|]. split; [done|]. cbn. destruct Hb4 as [Hb4 _].
  rewrite (rep_len _ _ _ Hb4). by destruct (x0 ++ x).
Qed.
Lemma read_to_mem_spec fp inp out m0 n : srep fp inp out -> n <= zlen m0 -> 0 < n ->
  wp (zstream_read_to_mem m0 n) fp (fun r fp' => exists x, takes inp out fp x fp' /\ took_some n x inp fp' /\
    snd r = ret_of x fp' /\ mem_result (Some m0) (Some (fst r)) (Some <$> x)).
Proof.
  intros Hs Hm Hn. unfold zstream_read_to_mem. destruct (Z.ltb_spec n 1); [lia|].
  apply wp_bind. eapply wp_mono; [by apply (read_first_spec fp inp out n Hs)|].
  intros [[ch left]|ret] fp1; cbv beta iota.
  2: { intros (Ht & He & ->). apply wp_ret. exists []. split; [done|]. split; [split; [zlen_nils; lia|by right]|].
       split; [done|]. cbn. by rewrite drop_0. }
  intros (x0 & Ht0 & Ex0 & Hleft & Hz).
  assert (Hput : match ch with Some ch => mem ← wr m0 0 (Some ch); Some (mem, 1) | None => Some (m0, 0) end =
    Some ((Some <$> x0) ++ drop (length x0) m0, zlen x0)).
  { subst x0. destruct ch as [c|]; [|done]. destruct m0 as [|y m0]; [zlen_nils; lia|]. rewrite wr_Some by (rewrite zlen_cons; zlia). done. }
  apply wp_bind. eapply wp_of_option; [exact Hput|]. destruct Ht0 as (Hr0 & Hs0 & Hx0).
  apply wp_bind. eapply wp_mono; [by apply take_cached_spec|]. intros x fp2 [Hx Ht]. cbn [fst snd]. zlen_facts.
  assert (Hd : zlen (drop (length x0) m0) = zlen m0 - zlen x0) by (rewrite <- zlen_to_nat; apply zlen_drop; lia).
  apply wp_bind. eapply wp_of_option.
  { unfold blit. rewrite zlen_app, zlen_fmap, Hd. destruct (Z.leb_spec 0 (zlen x0)); [|lia].
    destruct (Z.leb_spec (zlen x0 + zlen x) (zlen x0 + (zlen m0 - zlen x0))); [|lia]. done. }
  apply wp_ret. exists (x0 ++ x). split; [by eapply takes_trans|]. split.
  { split; [rewrite zlen_app; lia|left]. intros E0. apply (f_equal zlen) in E0. rewrite zlen_app in E0. zlen_nils. lia. }
  cbn [fst snd]. split.
  { unfold ret_of. rewrite <- Hx, <- zlen_app. destruct (x0 ++ x) eqn:E0; [|done].
    apply (f_equal zlen) in E0. rewrite zlen_app in E0. zlen_nils. lia. }
  unfold mem_result. rewrite zlen_to_nat. rewrite take_app_length' by (by rewrite length_fmap).
  rewrite fmap_app, <- app_assoc. do 2 f_equal. rewrite length_app, !length_fmap.
  rewrite drop_app_ge by (rewrite length_fmap; unfold zlen; lia). rewrite length_fmap, drop_drop. f_equal. unfold zlen. lia.
Qed.
End read.
