(* ===== verification/StreamWrite.v ===== *)
(** * Streams: the writing functions *)
From stdpp Require Import relations.
From S2P Require Import Prelude Buf Cint StateMonad Stream StreamSpec.

Section write.
Context {E : Type} `{!Engine E, !EngineLaws E}.
Implicit Types fp : zstream E.

(** What putting bytes does: the reading side stays, [y] is put; it is all of
    [x] unless the stream is at its end or in error. *)
Record puts inp out fp (x : list Z) fp' : Prop := {
  pt_same : reader_same fp fp';
  pt_error : error fp = true -> error fp' = true;
  pt_out : exists y, srep fp' inp (out ++ y) /\ ((error fp' || eof fp') = false -> y = x)
}.
Lemma puts_nil inp out fp : srep fp inp out -> puts inp out fp [] fp.
Proof. intros Hs. split; [apply reader_same_refl|done|]. exists []. by rewrite app_nil_r. Qed.
Lemma flags_back fp fp' : (error fp = true -> error fp' = true) -> eof fp' = eof fp ->
  (error fp' || eof fp') = false -> (error fp || eof fp) = false.
Proof. destruct (error fp), (error fp'), (eof fp), (eof fp'); naive_solver. Qed.
Lemma puts_app inp out fp x fp1 y1 z fp2 : reader_same fp fp1 -> (error fp = true -> error fp1 = true) ->
  ((error fp1 || eof fp1) = false -> y1 = x) -> puts inp (out ++ y1) fp1 z fp2 -> puts inp out fp (x ++ z) fp2.
Proof.
  intros Hr1 He1 Hy1 [Hr2 He2 (y2 & Hs2 & Hy2)]. split; [by eapply reader_same_trans|auto|]. exists (y1 ++ y2).
  rewrite app_assoc. split; [done|]. intros Hf. rewrite Hy2 by done. rewrite Hy1; [done|].
  eapply flags_back; [exact He2| |exact Hf]. apply Hr2.
Qed.

(** ** A character *)
Lemma store_char_spec fp inp out ch : srep fp inp out -> write_buf_len fp < zvar_stream_wbuf_size ->
  wp (store_char ch) fp (fun r fp' => r = ch /\ reader_same fp fp' /\ error fp' = error fp /\ srep fp' inp (out ++ [u8 ch])).
Proof.
  intros [Hrl Hwl Hc Hf Hb Hin Hout He Herr] Hlt. unfold store_char. apply wp_bind, wp_gets. cbn [id].
  unfold zvar_stream_rbuf_size, zvar_stream_wbuf_size in *. apply wp_bind. eapply wp_of_option; [apply wr_Some; lia|].
  apply wp_bind, wp_modify, wp_ret. split; [done|]. split; [done|]. split; [done|].
  split; cbn; unfold zvar_stream_rbuf_size, zvar_stream_wbuf_size; rewrite ?zlen_insert; try done; [lia|].
  destruct (error fp); [by apply prefix_app_r|]. rewrite Hout, <- app_assoc. f_equal.
  replace (Z.to_nat (write_buf_len fp + 1)) with (S (Z.to_nat (write_buf_len fp))) by lia.
  erewrite take_S_r; [|apply list_lookup_insert_eq; unfold zlen in *; lia]. by rewrite take_insert_ge by lia.
Qed.
(** In error the character may be lost; nothing more is sent then. *)
Lemma lost_char fp inp out c : srep fp inp out -> error fp = true -> srep fp inp (out ++ [c]).
Proof.
  intros [? ? ? ? ? ? Hout ? ?] Herr. rewrite Herr in *. split; rewrite ?Herr; try done. by apply prefix_app_r.
Qed.
Lemma PUTC_spec fp inp out ch : srep fp inp out ->
  wp (ZSTREAM_PUTC ch) fp (fun r fp' => (r = ch \/ r = -1 /\ error fp' = true) /\ reader_same fp fp' /\
    (error fp = true -> error fp' = true) /\ srep fp' inp (out ++ [u8 ch])).
Proof.
  intros Hs. unfold ZSTREAM_PUTC. apply wp_bind, wp_gets. cbn [id].
  destruct (Z.ltb_spec (write_buf_len fp) zvar_stream_wbuf_size) as [Hlt|Hge].
  { eapply wp_mono; [by apply store_char_spec|]. intros r fp' (-> & Hr & Ee & Hs'). rewrite Ee.
    split; [by left|]. done. }
  unfold zstream_putc_do. apply wp_bind, wp_gets. cbn [id]. destruct (error fp) eqn:Eerr.
  { apply wp_ret. split; [by right|]. split; [apply reader_same_refl|]. split; [done|by apply lost_char]. }
  apply wp_bind. unfold zvar_stream_rbuf_size, zvar_stream_wbuf_size in *. destruct (Z.leb_spec 4096 (write_buf_len fp)); [|lia].
  eapply wp_mono; [by apply (flush_spec fp inp out)|]. intros r fp1 (Hs1 & Hr1 & H1). destruct (error fp1) eqn:Eerr1.
  - subst r. apply wp_ret. split; [by right|]. split; [done|]. split; [done|by apply lost_char].
  - destruct H1 as (-> & _ & Hw & _). cbn [Z.eqb]. eapply wp_mono.
    { apply (store_char_spec _ inp out); [done|]. rewrite Hw. done. }
    intros r fp2 (-> & Hr2 & Ee & Hs2). split; [by left|]. split; [by eapply reader_same_trans|done].
Qed.

Lemma putc_spec fp inp out c : srep fp inp out -> byte_ok c ->
  wp (zstream_putc c) fp (fun r fp' => puts inp out fp [c] fp' /\ (r = c \/ r = -1 /\ error fp' = true)).
Proof.
  intros Hs Hc. eapply wp_mono; [by apply PUTC_spec|]. intros r fp' (Hr & Hr' & He & Hs'). rewrite u8_id in Hs' by done.
  split; [|done]. split; [done|done|]. by exists [c].
Qed.

(** ** Strings *)
Lemma write_loop_spec x : forall len rest fp inp out, srep fp inp out -> bytes_ok x ->
  wp (write_loop (length x) len (x ++ rest)) fp (fun r fp' => puts inp out fp x fp' /\
    (r = len /\ match x with [] => fp' = fp | _ => (error fp' || eof fp') = false end \/ r = -1 /\ (error fp' || eof fp') = true)).
Proof.
  induction x as [|c x IH]; intros len rest fp inp out Hs Hb.
  - apply wp_ret. split; [by apply puts_nil|]. by left.
  - inversion_clear Hb as [|? ? Hc Hb']. cbn [write_loop length app]. apply wp_bind. eapply wp_mono; [by apply PUTC_spec|].
    intros r fp1 (_ & Hr1 & He1 & Hs1). rewrite u8_id in Hs1 by done. apply wp_bind, wp_gets. cbn [id].
    destruct (error fp1 || eof fp1) eqn:Efl.
    + apply wp_ret. split; [|by right]. split; [done|done|]. exists [c]. split; [done|]. by rewrite Efl.
    + eapply wp_mono; [by apply (IH len rest fp1 inp (out ++ [c]))|]. intros r2 fp2 [Hp2 Hres]. split.
      * by apply (puts_app inp out fp [c] fp1 [c] x fp2).
      * destruct Hres as [(-> & Hx)|?]; [|by right]. left. split; [done|]. destruct x; [by subst|done].
Qed.

(** The answer of a writing function: the length, or -1. *)
Definition wrote (x : list Z) (r : Z) fp' : Prop :=
  r = zlen x /\ (x = [] \/ (error fp' || eof fp') = false) \/ r = -1 /\ (error fp' || eof fp') = true.

Lemma write_spec fp inp out buf len x : srep fp inp out -> in_bytes buf len = Some x -> 0 <= len -> bytes_ok x ->
  wp (zstream_write (Some buf) len) fp (fun r fp' => puts inp out fp x fp' /\ wrote x r fp').
Proof.
  intros Hs Hin Hlen Hb. unfold zstream_write. destruct (in_bytes_front _ _ _ Hin Hlen) as (rest & -> & En & <-).
  destruct (Z.ltb_spec (zlen x) 1).
  - assert (x = []) as -> by (apply zlen_inv_nil; zlia). apply wp_ret. split; [by apply puts_nil|]. left. by split; [|left].
  - rewrite En. cbn [default]. eapply wp_mono; [by apply write_loop_spec|]. intros r fp' [Hp Hr]. split; [done|].
    destruct Hr as [[-> Hx]|?]; [|by right]. left. split; [done|]. destruct x; [by left|by right].
Qed.
Lemma stream_append_spec fp inp out cap x b : srep fp inp out -> holds cap x b ->
  wp (zstream_append b) fp (fun r fp' => puts inp out fp x fp' /\ wrote x r fp').
Proof.
  intros Hs Hb. pose proof Hb as [Hrep _]. unfold zstream_append. apply wp_bind.
  eapply wp_of_option; [by eapply holds_bytes|]. rewrite (rep_len _ _ _ Hrep).
  apply write_spec; [done|apply in_bytes_full|apply zlen_nonneg|apply Hrep].
Qed.
(** At the end the first byte is put, the others are refused. *)
Lemma write_at_end fp inp out c x len : srep fp inp out -> eof fp = true -> byte_ok c -> 0 < len ->
  wp (zstream_write (Some (c :: x)) len) fp (fun r fp' => r = -1 /\ reader_same fp fp' /\
    (error fp = true -> error fp' = true) /\ srep fp' inp (out ++ [c])).
Proof.
  intros Hs Heof Hc Hlen. unfold zstream_write. destruct (Z.ltb_spec len 1); [lia|].
  replace (Z.to_nat len) with (S (Z.to_nat (len - 1))) by lia. cbn [default write_loop].
  apply wp_bind. eapply wp_mono; [by apply (PUTC_spec fp inp out)|]. intros r fp1 (_ & Hr1 & He1 & Hs1).
  rewrite u8_id in Hs1 by done. apply wp_bind, wp_gets. cbn [id]. rewrite (rs_eof _ _ Hr1), Heof, orb_true_r. by apply wp_ret.
Qed.
Lemma puts_loop_spec x : forall len rest fp inp out, srep fp inp out -> bytes_ok x -> Forall (.≠ 0) x ->
  wp (puts_loop len (x ++ 0 :: rest)) fp (fun r fp' => puts inp out fp x fp' /\
    (r = len + zlen x /\ match x with [] => fp' = fp | _ => (error fp' || eof fp') = false end \/
     r = -1 /\ (error fp' || eof fp') = true)).
Proof.
  induction x as [|c x IH]; intros len rest fp inp out Hs Hb Hnz.
  - apply wp_ret. split; [by apply puts_nil|]. left. split; [zlia|done].
  - inversion_clear Hb as [|? ? Hc Hb']. inversion_clear Hnz as [|? ? Hc0 Hnz']. cbn [puts_loop app].
    destruct (Z.eqb_spec c 0); [done|]. apply wp_bind. eapply wp_mono; [by apply PUTC_spec|].
    intros r fp1 (_ & Hr1 & He1 & Hs1). rewrite u8_id in Hs1 by done. apply wp_bind, wp_gets. cbn [id].
    destruct (error fp1 || eof fp1) eqn:Efl.
    + apply wp_ret. split; [|by right]. split; [done|done|]. exists [c]. split; [done|]. by rewrite Efl.
    + eapply wp_mono; [by apply (IH (len + 1) rest fp1 inp (out ++ [c]))|]. intros r2 fp2 [Hp2 Hres]. split.
      * by apply (puts_app inp out fp [c] fp1 [c] x fp2).
      * destruct Hres as [(-> & Hx)|?]; [|by right]. left. rewrite zlen_cons. split; [lia|]. destruct x; [by subst|done].
Qed.
Lemma puts_spec fp inp out s x : srep fp inp out -> cstr s = Some x -> bytes_ok x ->
  wp (zstream_puts (Some s)) fp (fun r fp' => puts inp out fp x fp' /\ wrote x r fp').
Proof.
  intros Hs Hc Hb. destruct (cstr_split _ _ Hc) as (rest & -> & Hnz). unfold zstream_puts. cbn [default].
  eapply wp_mono; [by apply puts_loop_spec|]. intros r fp' [Hp Hr]. split; [done|].
  destruct Hr as [[-> Hx]|?]; [|by right]. left. split; [lia|]. destruct x; [by left|by right].
Qed.
Lemma printf_spec fp inp out x : srep fp inp out -> bytes_ok x ->
  wp (zstream_printf_1024 x) fp (fun r fp' => puts inp out fp (take 1023 x) fp' /\ wrote (take 1023 x) r fp').
Proof.
  intros Hs Hb. unfold zstream_printf_1024. zlen_facts. destruct (Z.ltb_spec (zlen x) 1024) as [Hlt|Hge].
  - rewrite firstn_all2 by (unfold zlen in *; lia). apply write_spec; [done| |lia|done]. apply in_bytes_app.
  - apply write_spec; [done| |lia|by apply Forall_take].
    assert (E1 : zlen (take 1023 x) = 1023) by (apply (zlen_take x 1023); lia). unfold in_bytes. cbn [Z.ltb Z.compare].
    destruct (Z.leb_spec (1024 - 1) (zlen (take 1023 x ++ [0]))); [|zlia].
    change (Z.to_nat (1024 - 1)) with 1023%nat. by rewrite take_app_length' by (unfold zlen in E1; lia).
Qed.

(** ** Lengths and data *)
Lemma write_cint_loop_spec k : forall left fp inp out, srep fp inp out -> 0 <= left < 128 ^ Z.of_nat k -> (0 < k)%nat ->
  wp (write_cint_loop k left) fp (fun _ fp' => puts inp out fp (cint_enc_fuel k left) fp').
Proof.
  induction k as [|k IH]; intros left fp inp out Hs Hl Hk; [lia|]. cbn [write_cint_loop]. rewrite cint_enc_S.
  rewrite shiftr_7, div128_0, land_127 by lia. apply wp_bind. destruct (Z.ltb_spec left 128) as [Hlt|Hge].
  - rewrite (Z.mod_small left), lor_128 by lia. eapply wp_mono; [by apply PUTC_spec|].
    intros r fp1 (_ & Hr1 & He1 & Hs1). rewrite u8_id in Hs1 by (unfold byte_ok; lia). apply wp_ret.
    split; [done|done|]. by exists [left + 128].
  - eapply wp_mono; [by apply PUTC_spec|]. intros r fp1 (_ & Hr1 & He1 & Hs1).
    rewrite u8_id in Hs1 by (unfold byte_ok; zdiv). destruct (pow128_step _ _ Hl Hge) as [Hk' Hl'].
    eapply wp_mono; [by apply (IH (left / 128) fp1 inp (out ++ [left mod 128]))|].
    intros [] fp2 Hp2. by apply (puts_app inp out fp [left mod 128] fp1 [left mod 128] _ fp2).
Qed.
Lemma write_cint_spec fp inp out n : srep fp inp out -> 0 <= n < 2 ^ 31 ->
  wp (zstream_write_cint n) fp (fun r fp' => r = 0 /\ puts inp out fp (cint_enc n) fp').
Proof.
  intros Hs Hn. unfold zstream_write_cint. apply wp_bind. eapply wp_mono.
  { apply (write_cint_loop_spec cint_fuel n fp inp out Hs); unfold cint_fuel; [cbn; lia|lia]. }
  intros [] fp' Hp. by apply wp_ret.
Qed.
Lemma cint_and_data_spec fp inp out buf len x : srep fp inp out -> in_bytes buf len = Some x -> bytes_ok x -> zlen x < 2 ^ 31 ->
  wp (zstream_write_cint_and_data buf len) fp (fun r fp' => r = zlen x /\ puts inp out fp (cint_data x) fp').
Proof.
  intros Hs Hin Hb Hx. zlen_facts. unfold zstream_write_cint_and_data.
  destruct (bytes_arg _ _ _ Hin Hx) as [E1 E2]. apply wp_bind. eapply wp_of_option; [exact E1|].
  apply wp_bind. eapply wp_mono; [by apply write_cint_spec|].
  intros r1 fp1 (_ & [Hr1 He1 (y1 & Hs1 & Hy1)]). apply wp_bind. eapply wp_mono; [by apply write_spec|].
  intros r2 fp2 [Hp2 _]. apply wp_ret. split; [done|]. by eapply puts_app.
Qed.

Lemma cint_and_int_spec fp inp out i : srep fp inp out -> int_min <= i <= int_max ->
  wp (zstream_write_cint_and_int i) fp (fun r fp' => r = zlen (fmt_zd i) /\ puts inp out fp (cint_data (fmt_zd i)) fp').
Proof.
  intros Hs Hi. unfold int_min, int_max in Hi. pose proof (fmt_zd_bytes i) as Hb. pose proof (fmt_zd_len i) as Hl. zlen_facts. unfold zstream_write_cint_and_int.
  apply wp_bind. eapply wp_mono; [apply (write_cint_spec fp inp out); [done|lia]|].
  intros r1 fp1 (_ & [Hr1 He1 (y1 & Hs1 & Hy1)]). apply wp_bind. eapply wp_mono.
  { apply (write_spec fp1 inp (out ++ y1) _ _ (fmt_zd i) Hs1); [apply in_bytes_app|lia|done]. }
  intros r2 fp2 [Hp2 _]. apply wp_ret. split; [done|]. by eapply puts_app.
Qed.
Lemma cint_and_long_spec fp inp out i : srep fp inp out -> - 2 ^ 63 <= i < 2 ^ 63 ->
  wp (zstream_write_cint_and_long i) fp (fun r fp' => r = zlen (fmt_zd i) /\ puts inp out fp (cint_data (fmt_zd i)) fp').
Proof.
  intros Hs Hi. pose proof (fmt_zd_bytes i) as Hb. pose proof (fmt_zd_len i) as Hl. zlen_facts. unfold zstream_write_cint_and_long. apply wp_bind. eapply wp_mono.
  { apply (cint_and_data_spec fp inp out _ _ (fmt_zd i) Hs); [apply in_bytes_app|done|lia]. }
  intros r fp' [_ Hp]. by apply wp_ret.
Qed.

(** The strings of an array, the keys and values of a dictionary. *)
Lemma cint_and_pp_spec pp : forall xs fp inp out, srep fp inp out ->
  Forall2 (fun p x => cstr p = Some x /\ bytes_ok x /\ zlen x < 2 ^ 31) pp xs ->
  wp (zstream_write_cint_and_pp pp) fp (fun r fp' => r = 1 /\ puts inp out fp (concat (cint_data <$> xs)) fp').
Proof.
  induction pp as [|p pp IH]; intros xs fp inp out Hs Hxs; inversion Hxs as [|? x ? xs' (Hc & Hb & Hx) Hxs']; subst.
  { apply wp_ret. split; [done|by apply puts_nil]. }
  cbn [zstream_write_cint_and_pp]. apply wp_bind. eapply wp_mono; [by apply (cint_and_data_spec fp inp out p (-1) x)|].
  intros r1 fp1 (_ & [Hr1 He1 (y1 & Hs1 & Hy1)]). eapply wp_mono; [by apply (IH xs')|].
  intros r2 fp2 [-> Hp2]. split; [done|]. rewrite fmap_cons. cbn [concat]. by eapply puts_app.
Qed.
Definition dict_data (e : list Z * list Z) : list Z := cint_data e.1 ++ cint_data e.2.
Lemma cint_and_dict_spec zd : forall es fp inp out, srep fp inp out ->
  Forall2 (fun d e => cstr d.1 = Some e.1 /\ bytes_ok e.1 /\ zlen e.1 < 2 ^ 31 /\ exists cap, holds cap e.2 d.2) zd es ->
  wp (zstream_write_cint_and_dict zd) fp (fun r fp' => r = 1 /\ puts inp out fp (concat (dict_data <$> es)) fp').
Proof.
  induction zd as [|[k v] zd IH]; intros es fp inp out Hs Hes; inversion Hes as [|? e ? es' (Hk & Hkb & Hkl & cap & Hv) Hes']; subst.
  { apply wp_ret. split; [done|by apply puts_nil]. }
  cbn [zstream_write_cint_and_dict fst snd] in *. apply wp_bind. eapply wp_mono; [by apply (cint_and_data_spec fp inp out k (-1) e.1)|].
  intros r1 fp1 (_ & [Hr1 He1 (y1 & Hs1 & Hy1)]). apply wp_bind. eapply wp_of_option; [by eapply holds_bytes|].
  pose proof Hv as [Hrep _]. pose proof (rep_fit _ _ _ Hrep). pose proof (rep_size _ _ _ Hrep). rewrite (rep_len _ _ _ Hrep).
  apply wp_bind. eapply wp_mono.
  { apply (cint_and_data_spec fp1 inp (out ++ y1) e.2 _ e.2 Hs1); [apply in_bytes_full|apply Hrep|lia]. }
  intros r2 fp2 (_ & [Hr2 He2 (y2 & Hs2 & Hy2)]). eapply wp_mono; [by apply (IH es')|].
  intros r3 fp3 [-> Hp3]. split; [done|]. rewrite fmap_cons. cbn [concat]. unfold dict_data at 1. rewrite <- app_assoc.
  eapply puts_app; [exact Hr1|exact He1|exact Hy1|]. by eapply puts_app.
Qed.

(** A negative length is written for ever: no number of rounds ends. *)
Lemma write_cint_negative fuel : forall left fp, left < 0 -> write_cint_loop fuel left fp = None.
Proof.
  induction fuel as [|fuel IH]; intros left fp Hl; [done|]. cbn [write_cint_loop]. unfold mbind, St_bind.
  destruct (ZSTREAM_PUTC _ fp) as [[r fp']|]; [|done].
  assert (Hneg : Z.shiftr left 7 < 0) by (by apply Z.shiftr_neg). destruct (Z.eqb_spec (Z.shiftr left 7) 0); [lia|]. by apply IH.
Qed.
End write.
