(* ===== verification/StreamTrip.v ===== *)
(** * Streams: what clients get, and messages through two streams *)
From stdpp Require Import relations.
From S2P Require Import Prelude Buf Cint StateMonad Stream StreamSpec StreamRead StreamWrite.

(** ** An engine that delivers

    [total] is all that the other side sends before it closes; nothing fails. *)
Class Faithful (E : Type) `{!Engine E, !EngineLaws E} := {
  total : E -> list Z;
  got_total e : got e `prefix_of` total e;
  closed_total e : closed e = true -> got e = total e;
  never_failed e : failed e = false;
  total_step e e' : estep e e' -> total e' = total e
}.

Section client.
Context {E : Type} `{!Engine E, !EngineLaws E}.
Implicit Types fp : zstream E.

Lemma open_srep e : srep (zstream_open e) (got e) (sent e).
Proof.
  split; try done.
  - apply Forall_replicate. done.
  - exists (got e). cbn. by rewrite app_nil_r.
  - cbn. by rewrite app_nil_r.
Qed.
Lemma taken_got fp inp out : srep fp inp out -> inp `prefix_of` got (ioctx fp).
Proof.
  intros [_ _ Hc _ _ (pre & -> & ->) _ _ _]. apply prefix_app.
  rewrite <- (take_drop (Z.to_nat (read_buf_p1 fp)) (take (Z.to_nat (read_buf_p2 fp)) (read_buf fp))).
  rewrite take_take, Nat.min_l by lia. by apply prefix_app_r.
Qed.
Lemma ungetc_spec fp inp c out : srep fp (inp ++ [c]) out -> 0 < read_buf_p1 fp ->
  wp zstream_ungetc fp (fun _ fp' => srep fp' inp out).
Proof.
  intros [Hrl Hwl Hc Hf Hb (pre & Hinp & Hgot) Hout He Herr] Hp. unfold zstream_ungetc. apply wp_bind, wp_gets. cbn [id].
  destruct (Z.ltb_spec 0 (read_buf_p1 fp)); [|lia]. apply wp_modify. split; cbn; try done; [lia|]. exists pre. split; [|done].
  unfold zvar_stream_rbuf_size in *. destruct (lookup_lt_is_Some_2 (read_buf fp) (Z.to_nat (read_buf_p1 fp - 1))) as [x Hx]; [unfold zlen in *; lia|].
  replace (Z.to_nat (read_buf_p1 fp)) with (S (Z.to_nat (read_buf_p1 fp - 1))) in Hinp by lia.
  rewrite (take_S_r _ _ _ Hx), app_assoc in Hinp. by apply app_inj_tail in Hinp as [-> _].
Qed.
End client.

Section faithful.
Context {E : Type} `{!Engine E, !EngineLaws E, !Faithful E}.
Implicit Types fp : zstream E.

Lemma total_moves e e' : rtc estep e e' -> total e' = total e.
Proof. induction 1 as [|e e1 e2 Hs _ IH]; [done|]. rewrite IH. by apply total_step. Qed.
(** The end is where the other side closed. *)
Lemma ends_total fp inp out : srep fp inp out -> ends inp fp -> inp = total (ioctx fp).
Proof.
  intros Hs [Hf Hg]. apply orb_prop in Hf as [Herr|Heof].
  - apply (sr_err _ _ _ Hs) in Herr. by rewrite never_failed in Herr.
  - apply (sr_eof _ _ _ Hs), closed_total in Heof. congruence.
Qed.
Lemma taken_total fp inp out : srep fp inp out -> inp `prefix_of` total (ioctx fp).
Proof. intros Hs. etransitivity; [by eapply taken_got|apply got_total]. Qed.

(** What is coming arrives. *)
Definition arrives inp out fp (x : list Z) fp' : Prop := srep fp' (inp ++ x) out /\ total (ioctx fp') = total (ioctx fp).

Lemma getc_arrives fp inp out c rest : srep fp inp out -> total (ioctx fp) = inp ++ c :: rest ->
  wp ZSTREAM_GETC fp (fun r fp' => r = c /\ arrives inp out fp [c] fp').
Proof.
  intros Hs Ht. eapply wp_mono; [by apply GETC_spec|]. intros r fp' [Hr Hres].
  pose proof (total_moves _ _ (rd_moves _ _ _ Hr)) as Et. destruct Hres as [[Hb Hs']|(-> & Hs' & Hf & Hg)].
  - pose proof (taken_total _ _ _ Hs') as Hp. rewrite Et, Ht in Hp. apply prefix_app_inv in Hp as [k Hk].
    injection Hk as -> _. done.
  - pose proof (ends_total _ _ _ Hs' (conj Hf Hg)) as E0. rewrite Et, Ht in E0. apply (f_equal length) in E0.
    rewrite length_app in E0. cbn in E0. lia.
Qed.

Lemma get_cint_arrives k : forall fuel n acc shift fp inp out rest, (0 < k)%nat -> (k <= fuel)%nat ->
  0 <= n < 128 ^ Z.of_nat k -> 0 <= shift <= 31 -> 0 <= acc < 2 ^ shift -> acc + n * 2 ^ shift < 2 ^ 31 ->
  srep fp inp out -> total (ioctx fp) = inp ++ cint_enc_fuel k n ++ rest ->
  wp (get_cint_loop fuel acc shift) fp (fun r fp' => r = acc + n * 2 ^ shift /\ arrives inp out fp (cint_enc_fuel k n) fp').
Proof.
  induction k as [|k IH]; intros fuel n acc shift fp inp out rest Hk Hfuel Hn Hs Ha Hmax Hsr Ht; [lia|].
  destruct fuel as [|fuel]; [lia|]. rewrite cint_enc_S in *. pose proof (Z.pow_pos_nonneg 2 shift ltac:(lia) ltac:(lia)) as Hp.
  assert (Hc : forall v, 0 <= v < 128 -> acc + v * 2 ^ shift < 2 ^ 31 ->
    Z.lor acc (s32 (Z.shiftl v shift)) = acc + v * 2 ^ shift).
  { intros v Hv Hb. rewrite shiftl_mul, swrap_small by nia. rewrite Z.lor_comm, lor_mul_add by lia. lia. }
  cbn [get_cint_loop]. apply wp_bind. destruct (Z.ltb_spec n 128) as [Hlt|Hge].
  - eapply wp_mono; [by apply (getc_arrives fp inp out (n + 128) rest)|]. intros ch fp1 [-> Har].
    destruct (Z.eqb_spec (n + 128) (-1)); [lia|]. destruct (Z.ltb_spec 31 shift); [lia|]. rewrite land_128_high by lia.
    replace (Z.land (n + 128) 127) with n by (rewrite land_127; zdiv). cbn [Z.eqb negb]. apply wp_ret. by rewrite Hc by lia.
  - eapply wp_mono; [by apply (getc_arrives fp inp out (n mod 128) (cint_enc_fuel k (n / 128) ++ rest))|].
    intros ch fp1 [-> [Hs1 Ht1]]. assert (Hm : 0 <= n mod 128 < 128) by zdiv. destruct (Z.eqb_spec (n mod 128) (-1)); [lia|].
    destruct (Z.ltb_spec 31 shift); [lia|]. rewrite land_128_low by lia.
    replace (Z.land (n mod 128) 127) with (n mod 128) by (rewrite land_127; zdiv). cbn [Z.eqb negb].
    assert (Hn' : n = 128 * (n / 128) + n mod 128) by (apply Z.div_mod; lia). rewrite Hc by nia.
    assert (Hpow : 2 ^ (shift + 7) = 2 ^ shift * 128) by (rewrite Z.pow_add_r by lia; done).
    assert (Hs7 : shift + 7 <= 31).
    { apply Z.nlt_ge. intros Hgt. assert (2 ^ 31 <= 2 ^ (shift + 7)) by (apply Z.pow_le_mono_r; lia).
      assert (1 <= n / 128) by zdiv. nia. }
    destruct (pow128_step _ _ Hn Hge) as [Hk' Hn'']. eapply wp_mono.
    { apply (IH fuel (n / 128) _ (shift + 7) fp1 (inp ++ [n mod 128]) out rest); try done; try lia; rewrite ?Hpow; try nia.
      rewrite Ht1, Ht, <- app_assoc. done. }
    intros r fp2 [-> [Hs2 Ht2]]. split; [rewrite Hpow; nia|]. rewrite <- app_assoc in Hs2. split; [done|congruence].
Qed.
Lemma zstream_get_cint_arrives fp inp out n rest : 0 <= n < 2 ^ 31 -> srep fp inp out ->
  total (ioctx fp) = inp ++ cint_enc n ++ rest ->
  wp zstream_get_cint fp (fun r fp' => r = n /\ arrives inp out fp (cint_enc n) fp').
Proof.
  intros Hn Hs Ht. eapply wp_mono.
  { apply (get_cint_arrives cint_fuel 6 n 0 0 fp inp out rest); try done; unfold cint_fuel; cbn; lia. }
  intros r fp' [-> Ha]. split; [lia|done].
Qed.
(** A request for as many as are coming takes exactly those. *)
Lemma took_arrived fp inp out fp' d rest x : total (ioctx fp) = inp ++ d ++ rest -> takes inp out fp x fp' ->
  took_n (zlen d) x inp fp' -> x = d /\ arrives inp out fp d fp'.
Proof.
  intros Ht (Hrd & Hs' & _) [Hle Hx]. pose proof (total_moves _ _ (rd_moves _ _ _ Hrd)) as Et.
  pose proof (taken_total _ _ _ Hs') as Hp. rewrite Et, Ht in Hp. apply prefix_app_inv in Hp as [k Hk].
  assert (x = d) as ->; [|done]. assert (Hz : length x = length d).
  - destruct Hx as [Hx|He]; [unfold zlen in Hx; lia|]. pose proof (ends_total _ _ _ Hs' He) as E0.
    rewrite Et, Ht in E0. apply app_inv_head in E0. apply (f_equal length) in E0. rewrite length_app in E0. unfold zlen in Hle. lia.
  - by apply app_inj_1 in Hk as [-> _].
Qed.
Lemma readn_to_mem_arrives fp inp out m0 d rest : srep fp inp out -> zlen d <= zlen m0 -> 0 < zlen d ->
  total (ioctx fp) = inp ++ d ++ rest ->
  wp (zstream_readn_to_mem (Some m0) (zlen d)) fp (fun r fp' => snd r = zlen d /\
    fst r = Some ((Some <$> d) ++ drop (length d) m0) /\ arrives inp out fp d fp').
Proof.
  intros Hs Hm Hd Ht. eapply wp_mono; [by apply (readn_to_mem_spec fp inp out (Some m0) (zlen d))|].
  intros [m r] fp' (x & Htk & Htn & Hret & Hres). destruct (took_arrived _ _ _ _ _ _ _ Ht Htk Htn) as [-> Ha]. cbn [fst snd] in *.
  split; [rewrite Hret; by destruct d; [zlen_nils; lia|]|]. split; [|done].
  unfold mem_result in Hres. destruct m as [m|]; [|done]. by rewrite Hres, length_fmap.
Qed.
Lemma readn_arrives fp inp out b0 cap d rest : srep fp inp out -> zbuf_arg cap b0 -> 0 < zlen d -> room cap (zlen d) ->
  total (ioctx fp) = inp ++ d ++ rest ->
  wp (zstream_readn b0 (zlen d)) fp (fun r fp' => snd r = zlen d /\ zbuf_result cap b0 (fst r) d /\ arrives inp out fp d fp').
Proof.
  intros Hs Hb Hd Hr Ht. eapply wp_mono; [by apply (readn_spec fp inp out b0 cap (zlen d))|].
  intros r fp' (x & Htk & Htn & Hret & Hres). destruct (took_arrived _ _ _ _ _ _ _ Ht Htk Htn) as [-> Ha].
  split; [|done]. rewrite Hret. by destruct d; [zlen_nils; lia|].
Qed.
End faithful.

(** ** A scripted peer

    It sends the chunks, one or less of one for each read, and takes at most
    [sc_room] bytes of each write. *)
Record script := mk_script {
  sc_chunks : list (list Z); sc_room : nat;
  sc_got : list Z; sc_sent : list Z; sc_asked : list (list Z); sc_closed : bool
}.
Fixpoint pull (n : nat) (chunks : list (list Z)) : list Z * list (list Z) :=
  match chunks with
  | [] => ([], [])
  | [] :: cs => pull n cs
  | c :: cs => (u8 <$> take n c, drop n c :: cs)
  end.
Definition script_of (chunks : list (list Z)) (room : nat) : script := mk_script chunks room [] [] [] false.
#[export] Instance script_engine : Engine script := {
  close_fn e _ := (e, 0);
  read_fn e n :=
    let '(bytes, cs) := pull (Z.to_nat n) (sc_chunks e) in
    (mk_script cs (sc_room e) (sc_got e ++ bytes) (sc_sent e) (sc_asked e ++ [sc_sent e]) (zlen bytes =? 0), zlen bytes, bytes);
  write_fn e data :=
    let x := take (S (sc_room e)) data in
    (mk_script (sc_chunks e) (sc_room e) (sc_got e) (sc_sent e ++ x) (sc_asked e) (sc_closed e), zlen x);
  timed_read_wait_fn e _ := (e, 1);
  timed_write_wait_fn e _ := (e, 1);
  get_fd_fn _ := 3
}.
Lemma pull_spec n cs : let '(bytes, cs') := pull n cs in (length bytes <= n)%nat /\ bytes_ok bytes /\
  u8 <$> concat cs = bytes ++ (u8 <$> concat cs') /\ ((0 < n)%nat -> bytes = [] -> concat cs = []).
Proof.
  induction cs as [|[|b c] cs IH]; cbn [pull]; [split; [cbn; lia|]; split; [constructor|done]|exact IH|].
  split; [rewrite length_fmap, length_take; lia|]. split.
  { apply Forall_fmap, Forall_true. intros z. apply u8_byte. }
  split; [|by destruct n; [lia|]]. change (concat ((b :: c) :: cs)) with ((b :: c) ++ concat cs).
  change (concat (drop n (b :: c) :: cs)) with (drop n (b :: c) ++ concat cs).
  transitivity (u8 <$> take n (b :: c) ++ drop n (b :: c) ++ concat cs); [by rewrite app_assoc, take_drop|].
  by rewrite !fmap_app.
Qed.
Definition sc_ended (e : script) : bool := sc_closed e && match concat (sc_chunks e) with [] => true | _ => false end.
#[export, program] Instance script_laws : EngineLaws script := {
  got := sc_got; sent := sc_sent; asked := sc_asked; closed := sc_ended; failed _ := false
}.
Next Obligation.
  intros e n e' ret bytes Hn. cbn. destruct (pull _ _) as [x cs] eqn:Ep. intros [= <- <- <-].
  pose proof (pull_spec (Z.to_nat n) (sc_chunks e)) as H. rewrite Ep in H. destruct H as (Hl & Hb & Hc & Hz). zlen_facts.
  split; [unfold zlen; lia|]. split; [lia|]. split; [done|]. do 3 (split; [done|]). split.
  - unfold sc_ended. cbn. destruct (Z.eqb_spec (zlen x) 0) as [E0|Hne]; cbn.
    + apply zlen_inv_nil in E0. subst x. cbn in Hc. rewrite (Hz ltac:(lia) eq_refl) in Hc. rewrite orb_true_r.
      destruct (concat cs); [done|done].
    + rewrite orb_false_r. destruct (concat (sc_chunks e)) eqn:E0; [|by rewrite andb_false_r].
      cbn in Hc. destruct x; [zlen_nils; lia|done].
  - by destruct (Z.ltb_spec (zlen x) 0); [lia|].
Qed.
Next Obligation.
  intros e data e' ret Hd. cbn -[take]. intros [= <- <-]. cbn -[take]. unfold zlen at 1 2.
  destruct data as [|c data]; [done|]. cbn. split; [lia|]. split; [rewrite length_take; unfold zlen; cbn; lia|].
  split; [done|]. split; [|done]. do 2 f_equal. unfold zlen. cbn. rewrite length_take, Nat2Z.id.
  cbn. by rewrite <- take_take, firstn_all.
Qed.
#[export, program] Instance script_faithful : Faithful script := {
  total e := sc_got e ++ (u8 <$> concat (sc_chunks e))
}.
Next Obligation. intros e. by apply prefix_app_r. Qed.
Next Obligation.
  intros e. cbn. unfold sc_ended. intros [_ Hc]%andb_prop. destruct (concat (sc_chunks e)); [by rewrite app_nil_r|done].
Qed.
Next Obligation. done. Qed.
Next Obligation.
  intros e e' [(n & r & bytes & Hr)|(d & r & Hw)]; cbn in *.
  - destruct (pull (Z.to_nat n) (sc_chunks e)) as [x cs] eqn:Ep. injection Hr as <- _ _. cbn.
    pose proof (pull_spec (Z.to_nat n) (sc_chunks e)) as H. rewrite Ep in H. destruct H as (_ & _ & -> & _).
    by rewrite <- app_assoc.
  - by injection Hw as <- _.
Qed.

(** ** Messages

    A protocol of the clients: each message is its length and its bytes. *)
Fixpoint send_all {E} `{!Engine E} (msgs : list (list Z)) : St (zstream E) Z :=
  match msgs with
  | [] => zstream_flush
  | x :: msgs' => zstream_write_cint_and_data x (zlen x);; send_all msgs'
  end.
Fixpoint recv_all {E} `{!Engine E} (n : nat) : St (zstream E) (list (list Z)) :=
  match n with
  | O => mret []
  | S n' =>
      len ← zstream_get_cint;
      bf ← of_option (zbuf_create len);
      r ← zstream_readn (Some bf) len;
      x ← of_option (fst r ≫= zbuf_bytes);
      xs ← recv_all n';
      mret (x :: xs)
  end.
Definition message_ok (x : list Z) : Prop := bytes_ok x /\ zlen x < 2 ^ 29.

Lemma send_all_spec {E} `{!Engine E, !EngineLaws E} msgs : forall (fp : zstream E) inp out, Forall message_ok msgs ->
  srep fp inp out -> eof fp = false ->
  wp (send_all msgs) fp (fun r fp' => (error fp = true -> error fp' = true) /\
    if error fp' then r = -1 else r = 1 /\ sent (ioctx fp') = out ++ concat (cint_data <$> msgs)).
Proof.
  induction msgs as [|x msgs IH]; intros fp inp out Hok Hs Heof.
  - eapply wp_mono; [by apply (flush_spec fp inp out)|]. intros r fp' (_ & _ & H). destruct (error fp'); [done|].
    destruct H as (-> & -> & _ & ->). split; [done|]. split; [done|]. cbn. by rewrite app_nil_r.
  - inversion_clear Hok as [|? ? [Hb Hl] Hok']. cbn [send_all]. apply wp_bind. eapply wp_mono.
    { apply (cint_and_data_spec fp inp out x (zlen x) x Hs); [apply in_bytes_full|done|lia]. }
    intros r fp1 (_ & [Hr1 He1 (y & Hs1 & Hy)]). pose proof (rs_eof _ _ Hr1) as Ee. rewrite Heof in Ee.
    eapply wp_mono; [apply (IH fp1 inp (out ++ y) Hok' Hs1 Ee)|]. intros r2 fp2 [He2 H]. split; [auto|].
    destruct (error fp2) eqn:E2; [done|]. destruct H as [-> ->]. split; [done|]. rewrite fmap_cons. cbn [concat].
    rewrite <- app_assoc, Hy; [done|]. rewrite Ee, orb_false_r. destruct (error fp1); [by rewrite He2|done].
Qed.
Lemma recv_all_spec {E} `{!Engine E, !EngineLaws E, !Faithful E} msgs : forall (fp : zstream E) inp out rest,
  Forall message_ok msgs -> srep fp inp out -> total (ioctx fp) = inp ++ concat (cint_data <$> msgs) ++ rest ->
  wp (recv_all (length msgs)) fp (fun xs fp' => xs = msgs /\ arrives inp out fp (concat (cint_data <$> msgs)) fp').
Proof.
  induction msgs as [|x msgs IH]; intros fp inp out rest Hok Hs Ht.
  { apply wp_ret. split; [done|]. split; [by rewrite app_nil_r|done]. }
  inversion_clear Hok as [|? ? [Hb Hl] Hok']. zlen_facts. rewrite fmap_cons in *. cbn [concat length recv_all] in *.
  unfold cint_data at 1 in Ht. rewrite <- !app_assoc in Ht. apply wp_bind. eapply wp_mono.
    { apply (zstream_get_cint_arrives fp inp out (zlen x) (x ++ concat (cint_data <$> msgs) ++ rest)); [lia|done|done]. }
  intros len fp1 [-> [Hs1 Ht1]]. destruct (zbuf_create_holds (zlen x) ltac:(lia)) as (b0 & Eb & Hb0).
  apply wp_bind. eapply wp_of_option; [exact Eb|].
  assert (Hread : wp (zstream_readn (Some b0) (zlen x)) fp1 (fun r fp2 => (exists b, fst r = Some b /\ zbuf_bytes b = Some x) /\
    arrives (inp ++ cint_enc (zlen x)) out fp1 x fp2)).
  { destruct (Z.eq_dec (zlen x) 0) as [E0|Hne].
    - apply zlen_inv_nil in E0 as ->. apply wp_ret. split; [|split; [by rewrite app_nil_r|done]]. exists b0.
      split; [done|]. by eapply holds_bytes.
    - eapply wp_mono.
      { apply (readn_arrives fp1 _ out (Some b0) None x (concat (cint_data <$> msgs) ++ rest) Hs1); [|lia|unfold room; lia|].
        - exists []. apply Hb0.
        - by rewrite Ht1, Ht, <- app_assoc. }
      intros [[b|] r] fp2 (_ & Hbx & Har); [|done]. split; [|done]. exists b. split; [done|]. by eapply (holds_bytes None). }
  apply wp_bind. eapply wp_mono; [exact Hread|]. intros [b1 r] fp2 [(b & -> & Ebx) [Hs2 Ht2]]. cbn [fst mbind option_bind].
  apply wp_bind. eapply wp_of_option; [exact Ebx|]. apply wp_bind. rewrite <- app_assoc in Hs2. eapply wp_mono.
  { apply (IH fp2 (inp ++ cint_data x) out rest Hok'); [exact Hs2|]. rewrite Ht2, Ht1, Ht. unfold cint_data. by rewrite <- !app_assoc. }
  intros xs fp3 [-> [Hs3 Ht3]]. apply wp_ret. split; [done|]. split; [by rewrite app_assoc|congruence].
Qed.

(** ** The theorems *)
Section theorems.
Context {E : Type} `{!Engine E, !EngineLaws E}.
Implicit Types fp : zstream E.

(** C9: reading. Every function gives bytes in the order the engine delivered them,
    each byte once: it takes [x] and says so, into a buffer, into memory, or to
    nowhere. [zstream_getc] gives one byte; [zstream_readn] exactly as many as it is
    asked for, unless the stream fails or ends before; [zstream_read_delimiter]
    stops behind the first delimiter; [zstream_read] gives at least one. -1 and 0
    come only after the bytes delivered are all taken. The engine is never asked
    while bytes put into the stream are unsent ([reads]). *)
Theorem zstream_reads fp inp out : srep fp inp out ->
  wp zstream_getc fp (getc_post inp out fp) /\
  (forall b0 cap n, zbuf_arg cap b0 -> 0 < n -> room cap n ->
    wp (zstream_readn b0 n) fp (fun r fp' => exists x, takes inp out fp x fp' /\ took_n n x inp fp' /\
      snd r = ret_of x fp' /\ zbuf_result cap b0 (fst r) x)) /\
  (forall b0 cap d n, zbuf_arg cap b0 -> 0 < n -> room cap n ->
    wp (zstream_read_delimiter b0 d n) fp (fun r fp' => exists x, takes inp out fp x fp' /\ took_delimited d n x inp fp' /\
      snd r = ret_of x fp' /\ zbuf_result cap b0 (fst r) x)) /\
  (forall b0 cap n, zbuf_arg cap (Some b0) -> 0 < n < int_max -> room cap (n + 1) ->
    wp (zstream_read b0 n) fp (fun r fp' => exists x, takes inp out fp x fp' /\ took_some n x inp fp' /\
      holds cap (clip cap x) (fst r) /\ snd r = match x with [] => if eof fp' then 0 else -1 | _ => zlen (clip cap x) end)) /\
  (forall m0 n, mem_room m0 n -> 0 < n ->
    wp (zstream_readn_to_mem m0 n) fp (fun r fp' => exists x, takes inp out fp x fp' /\ took_n n x inp fp' /\
      snd r = ret_of x fp' /\ mem_result m0 (fst r) (Some <$> x))) /\
  (forall m0 d n, n < zlen m0 -> 0 < n ->
    wp (zstream_read_delimiter_to_mem (Some m0) d n) fp (fun r fp' => exists x, takes inp out fp x fp' /\
      took_delimited d n x inp fp' /\ snd r = ret_of x fp' /\ mem_result (Some m0) (fst r) ((Some <$> x) ++ [Some 0]))) /\
  (forall m0 n, n <= zlen m0 -> 0 < n ->
    wp (zstream_read_to_mem m0 n) fp (fun r fp' => exists x, takes inp out fp x fp' /\ took_some n x inp fp' /\
      snd r = ret_of x fp' /\ mem_result (Some m0) (Some (fst r)) (Some <$> x))).
Proof.
  intros Hs. split; [by apply GETC_spec|]. split; [intros; by apply readn_spec|]. split; [intros; by apply read_delimiter_spec|].
  split; [intros; by apply read_spec|]. split; [intros; by apply readn_to_mem_spec|].
  split; [intros; by apply read_delimiter_to_mem_spec|]. intros. by apply read_to_mem_spec.
Qed.


(** C40: at the end of its input a stream refuses to write, and yet: the first byte
    of what [zstream_write] refuses stays in the buffer, and the next flush sends it. *)
Theorem zstream_write_at_end fp inp out c x : srep fp inp out -> eof fp = true -> bytes_ok (c :: x) ->
  wp (r ← zstream_write (Some (c :: x)) (zlen (c :: x)); r' ← zstream_flush; mret (r, r')) fp (fun r fp' =>
    fst r = -1 /\ (snd r = -1 \/ snd r = 1 /\ sent (ioctx fp') = out ++ [c])).
Proof.
  intros Hs Heof Hb. inversion_clear Hb. zlen_facts. apply wp_bind. eapply wp_mono; [apply (write_at_end fp inp out c x _ Hs); [done|done|zlia]|].
  intros r fp1 (-> & _ & _ & Hs1). apply wp_bind. eapply wp_mono; [by apply (flush_spec fp1 inp (out ++ [c]))|].
  intros r' fp2 (_ & _ & Hfl). apply wp_ret. cbn [fst snd].
  split; [done|]. destruct (error fp2); [by left|]. right. by destruct Hfl as (-> & _ & _ & ->).
Qed.

(** What goes out of bounds. With a full write buffer [zstream_get_write_cache]
    stores its NUL one byte behind the stream; [zstream_read_delimiter_to_mem] with a NULL
    block, which the loops allow, stores its NUL there; and a negative length makes
    [zstream_write_cint] write for ever. *)
Theorem zstream_overruns fp inp out : srep fp inp out ->
  (write_buf_len fp = zvar_stream_wbuf_size -> zstream_get_write_cache fp = None) /\
  (forall d n, 0 < n -> zstream_read_delimiter_to_mem None d n fp = None) /\
  (forall fuel left, left < 0 -> write_cint_loop fuel left fp = None).
Proof.
  intros Hs. split; [|split; [|intros; by apply write_cint_negative]].
  - intros Hw. pose proof (sr_wlen _ _ _ Hs) as Hl. unfold zstream_get_write_cache, mbind, St_bind, gets, of_option. cbn.
    unfold wr. rewrite Hw, Hl, Z.ltb_irrefl, andb_false_r. done.
  - intros d n Hn. unfold zstream_read_delimiter_to_mem. destruct (Z.ltb_spec n 1); [lia|].
    assert (Hp : forall b l c, mem_at None b l -> zlen l < n -> byte_ok c -> runs (to_mem b c) (fun b' => mem_at None b' (l ++ [c]))).
    { intros. by apply to_mem_spec. }
    pose proof (delimiter_loop_spec to_mem (mem_at None) n Hp d (Z.to_nat n) (None, 0) [] fp inp out Hs (mem_start None)) as Hw.
    apply wp_runs in Hw; [|zlen_nils; lia]. destruct Hw as ([[m i] left] & fp' & El & _ & x & _ & Hm & _).
    unfold mbind, St_bind. rewrite El. unfold mem_at in Hm. cbn [fst snd] in *. by destruct m.
Qed.
End theorems.

(** C8: messages through two streams. Lengths and data are written on one stream
    and flushed; if the flush answers 1, then a stream at whose engine just these bytes
    arrive, in pieces of any sizes and with anything behind them, reads the messages back. *)
Theorem zstream_messages {E1 E2} `{!Engine E1, !EngineLaws E1, !Engine E2, !EngineLaws E2, !Faithful E2}
    (msgs : list (list Z)) (e1 : E1) : Forall message_ok msgs -> sent e1 = [] ->
  wp (send_all msgs) (zstream_open e1) (fun r w => (r = 1 \/ r = -1 /\ error w = true) /\
    (r = 1 -> forall (e2 : E2) rest, got e2 = [] -> total e2 = sent (ioctx w) ++ rest ->
       wp (recv_all (length msgs)) (zstream_open e2) (fun xs _ => xs = msgs))).
Proof.
  intros Hok He1. pose proof (open_srep e1) as Hs. rewrite He1 in Hs.
  eapply wp_mono; [by apply (send_all_spec msgs (zstream_open e1) (got e1) [])|].
  intros r w [_ H]. destruct (error w).
  { subst r. split; [by right|done]. }
  destruct H as [-> Hsent]. split; [by left|]. intros _ e2 rest Hg Ht. rewrite Hsent in Ht. pose proof (open_srep e2) as Hs2.
  rewrite Hg in Hs2. eapply wp_mono; [by apply (recv_all_spec msgs (zstream_open e2) [] (sent e2) rest)|]. by intros xs fp' [-> _].
Qed.

(** ** Examples *)
Lemma script_srep chunks room : srep (zstream_open (script_of chunks room)) [] [].
Proof. exact (open_srep (script_of chunks room)). Qed.
Definition ex_chunks : list (list Z) := [str "ab"; []; str "c;d"].
Lemma zstream_reads_witness : wp (zstream_readn None 4) (zstream_open (script_of ex_chunks 0)) (fun r fp' => exists x,
  takes [] [] (zstream_open (script_of ex_chunks 0)) x fp' /\ took_n 4 x [] fp' /\ snd r = ret_of x fp' /\ zbuf_result None None (fst r) x).
Proof.
  pose proof (zstream_reads (zstream_open (script_of ex_chunks 0)) [] [] (script_srep ex_chunks 0)) as (_ & H & _). by apply H.
Defined.
Definition ended : zstream script := set_flags (zstream_open (mk_script [] 1 [] [] [[]] true)) false true.
Lemma ended_srep : srep ended [] [].
Proof. destruct (open_srep (mk_script [] 1 [] [] [[]] true)). split; done. Qed.
Lemma zstream_write_at_end_witness :
  wp (r ← zstream_write (Some (str "no")) 2; r' ← zstream_flush; mret (r, r')) ended (fun r fp' =>
    fst r = -1 /\ (snd r = -1 \/ snd r = 1 /\ sent (ioctx fp') = str "n")).
Proof. apply (zstream_write_at_end ended [] [] (chr "n") (str "o") ended_srep); [done|by repeat constructor]. Defined.
Lemma zstream_overruns_witness : zstream_read_delimiter_to_mem None 59 4 (zstream_open (script_of ex_chunks 0)) = None.
Proof.
  pose proof (zstream_overruns (zstream_open (script_of ex_chunks 0)) [] [] (script_srep ex_chunks 0)) as (_ & H & _). by apply H.
Defined.
Definition ex_msgs : list (list Z) := [str "ping"; []; str "a longer message"].
Lemma zstream_messages_witness :
  wp (send_all ex_msgs) (zstream_open (script_of [] 2)) (fun r w => (r = 1 \/ r = -1 /\ error w = true) /\
    (r = 1 -> forall (e2 : script) rest, got e2 = [] -> total e2 = sent (ioctx w) ++ rest ->
       wp (recv_all (length ex_msgs)) (zstream_open e2) (fun xs _ => xs = ex_msgs))).
Proof. apply (zstream_messages (E2 := script) ex_msgs (script_of [] 2)); [repeat constructor; by vm_compute|done]. Defined.
