(* ===== verification/Websocket.v ===== *)
(** * Websocket frames: src/http/websocketd.c

    The server side of RFC 6455 over a stream (Stream.v). The handshake, which
    builds a HTTP response, is not part of the model. *)
From S2P Require Import Prelude Buf StateMonad Stream.

(** [zwebsocketd_t]; [fp] is the stream. *)
Record zwebsocketd {E : Type} := mk_zwebsocketd {
  ws_fin : Z; ws_rsv1 : Z; ws_rsv2 : Z; ws_rsv3 : Z; ws_opcode : Z; ws_mask : Z; ws_opcode_for_continue : Z;
  ws_payload_len : Z; ws_masking_key : list cell; ws_readed_len : Z; ws_fp : zstream E
}.
Arguments zwebsocketd : clear implicits.

Definition zvar_websocketd_type_continue : Z := 0.
Definition zvar_websocketd_type_text : Z := 1.
Definition zvar_websocketd_type_binary : Z := 2.
Definition zvar_websocketd_type_close : Z := 8.
Definition zvar_websocketd_type_ping : Z := 9.
Definition zvar_websocketd_type_pong : Z := 10.

(** A [long]: overflow is undefined. *)
Definition as_long (z : Z) : option Z := if (- 2 ^ 63 <=? z) && (z <? 2 ^ 63) then Some z else None.
(** [ps[i]] of a byte array. *)
Definition cell_at (m : list cell) (i : Z) : option Z := mjoin (rd m i).

Section websocket.
Context {E : Type} `{!Engine E}.
Abbreviation WM := (St (zwebsocketd E)).

Definition set_fp (ws : zwebsocketd E) (fp : zstream E) : zwebsocketd E :=
  mk_zwebsocketd E (ws_fin ws) (ws_rsv1 ws) (ws_rsv2 ws) (ws_rsv3 ws) (ws_opcode ws) (ws_mask ws)
    (ws_opcode_for_continue ws) (ws_payload_len ws) (ws_masking_key ws) (ws_readed_len ws) fp.
Definition set_head (ws : zwebsocketd E) (fin rsv1 rsv2 rsv3 opcode mask cont payload_len : Z) : zwebsocketd E :=
  mk_zwebsocketd E fin rsv1 rsv2 rsv3 opcode mask cont payload_len (ws_masking_key ws) 0 (ws_fp ws).
Definition set_payload_len (ws : zwebsocketd E) (n : Z) : zwebsocketd E :=
  mk_zwebsocketd E (ws_fin ws) (ws_rsv1 ws) (ws_rsv2 ws) (ws_rsv3 ws) (ws_opcode ws) (ws_mask ws)
    (ws_opcode_for_continue ws) n (ws_masking_key ws) (ws_readed_len ws) (ws_fp ws).
Definition set_masking_key (ws : zwebsocketd E) (key : list cell) : zwebsocketd E :=
  mk_zwebsocketd E (ws_fin ws) (ws_rsv1 ws) (ws_rsv2 ws) (ws_rsv3 ws) (ws_opcode ws) (ws_mask ws)
    (ws_opcode_for_continue ws) (ws_payload_len ws) key (ws_readed_len ws) (ws_fp ws).
Definition set_readed_len (ws : zwebsocketd E) (n : Z) : zwebsocketd E :=
  mk_zwebsocketd E (ws_fin ws) (ws_rsv1 ws) (ws_rsv2 ws) (ws_rsv3 ws) (ws_opcode ws) (ws_mask ws)
    (ws_opcode_for_continue ws) (ws_payload_len ws) (ws_masking_key ws) n (ws_fp ws).
(** A function of the stream. *)
Definition on_fp {A} (m : St (zstream E) A) : WM A := focus ws_fp set_fp m.

Definition zwebsocketd_open (fp : zstream E) : zwebsocketd E :=
  mk_zwebsocketd E 0 0 0 0 0 0 0 0 (replicate 4 (Some 0)) 0 fp.
(** Also releases [ws]. *)
Definition zwebsocketd_close (close_fd_and_release_ssl : bool) : WM unit :=
  on_fp (zstream_close close_fd_and_release_ssl);; skip.
Definition zwebsocketd_get_header_pin : WM bool := gets (fun ws => negb (ws_fin ws =? 0)).
Definition zwebsocketd_get_header_opcode : WM Z := gets ws_opcode.

(** ** Reading *)

(** [for (i = 0; i < pcount; i++)] *)
Fixpoint payload_loop (pcount : nat) (i payload_len : Z) (buf : list cell) : option Z :=
  match pcount with
  | O => Some payload_len
  | S pcount' =>
      c ← cell_at buf i;
      n ← as_long (payload_len * 256);
      n ← as_long (n + c);
      payload_loop pcount' (i + 1) n buf
  end.
(** The extended length: [false] stands for the [return -1]. *)
Definition read_payload_len (buf : list cell) : WM bool :=
  ws ← gets id;
  let pcount := if ws_payload_len ws =? 126 then 2 else if ws_payload_len ws =? 127 then 8 else 0 in
  if 0 <? pcount then
    r ← on_fp (zstream_readn_to_mem (Some buf) pcount);
    if negb (snd r =? pcount) then mret false else
    n ← of_option (buf ← fst r; payload_loop (Z.to_nat pcount) 0 0 buf);
    modify (fun ws => set_payload_len ws n);;
    mret true
  else mret true.
Definition read_masking_key : WM bool :=
  ws ← gets id;
  if ws_mask ws =? 1 then
    r ← on_fp (zstream_readn_to_mem (Some (ws_masking_key ws)) 4);
    key ← of_option (fst r);
    modify (fun ws => set_masking_key ws key);;
    mret (snd r =? 4)
  else mret true.
Definition zwebsocketd_read_frame_header : WM Z :=
  r ← on_fp (zstream_readn_to_mem (Some (zmalloc (128 + 1))) 2);
  if negb (snd r =? 2) then mret (-1) else
  buf ← of_option (fst r);
  ch1 ← of_option (cell_at buf 0);
  ch2 ← of_option (cell_at buf 1);
  let opcode := swrap 5 (Z.land ch1 15) in
  modify (fun ws => set_head ws (swrap 2 (Z.land (Z.shiftr ch1 7) 1)) (swrap 2 (Z.land (Z.shiftr ch1 6) 1))
    (swrap 2 (Z.land (Z.shiftr ch1 5) 1)) (swrap 2 (Z.land (Z.shiftr ch1 4) 1))
    (if negb (opcode =? 0) then opcode else ws_opcode_for_continue ws)
    (swrap 2 (Z.land (Z.shiftr ch2 7) 1))
    (if negb (opcode =? 0) then opcode else ws_opcode_for_continue ws)
    (Z.land ch2 127));;
  ok ← read_payload_len buf;
  if negb ok then mret (-1) else
  ok ← read_masking_key;
  if negb ok then mret (-1) else
  ws ← gets id;
  mret (if ws_mask ws =? 0 then 0 else 1).

(** [ps[i] ^= mk[(ws->readed_len + i) % 4]] for the [r] bytes read. *)
Fixpoint unmask_loop (r : nat) (i : Z) (readed_len : Z) (mk : list cell) (ps : list cell) : option (list cell) :=
  match r with
  | O => Some ps
  | S r' =>
      c ← cell_at ps i;
      k ← cell_at mk ((readed_len + i) mod 4);
      ps ← wr ps i (Some (Z.lxor c k));
      unmask_loop r' (i + 1) readed_len mk ps
  end.
Definition zwebsocketd_read_frame_data (data : list cell) (len : Z) : WM (list cell * Z) :=
  ws ← gets id;
  if ws_payload_len ws <=? ws_readed_len ws then mret (data, 0) else
  let len := if ws_payload_len ws - ws_readed_len ws <? len then s32 (ws_payload_len ws - ws_readed_len ws) else len in
  r ← on_fp (zstream_readn_to_mem (Some data) len);
  data ← of_option (fst r);
  if 0 <? snd r then
    data ← of_option (if negb (ws_mask ws =? 0)
                      then unmask_loop (Z.to_nat (snd r)) 0 (ws_readed_len ws) (ws_masking_key ws) data
                      else Some data);
    modify (fun ws => set_readed_len ws (ws_readed_len ws + snd r));;
    mret (data, snd r)
  else mret (data, snd r).

(** ** Writing *)

(** [for (; i > 0; i--) { end[-1] = tmplen & 0XFF; tmplen >>= 8; end--; }] *)
Fixpoint put_len (i : nat) (end_ tmplen : Z) (header : list Z) : option (list Z) :=
  match i with
  | O => Some header
  | S i' =>
      header ← wr header (end_ - 1) (Z.land tmplen 255);
      put_len i' (end_ - 1) (Z.shiftr tmplen 8) header
  end.
(** [pin_flag] is not used. *)
Definition zwebsocketd_write_frame_head_with_flags (len : Z) (pin_flag : bool) (opcode : Z) : WM Z :=
  if len <? 0 then mret (-1) else
  let header := replicate 11 0 in
  let '(hlen, b1) := if len <? 126 then (2, Z.land len 127) else if len <? 65536 then (4, 126) else (10, 127) in
  header ← of_option (
    header ← wr header 0 (Z.lor (Z.lor 0 128) (Z.land opcode 15));
    header ← wr header 1 b1;
    if 2 <? hlen then put_len (if hlen =? 4 then 2 else 4) hlen (u32 len) header else Some header);
  on_fp (zstream_write (Some header) hlen);;
  r ← on_fp zstream_flush;
  mret (if r <? 1 then -1 else 1).
Definition zwebsocketd_write_frame_head_text (len : Z) : WM Z :=
  zwebsocketd_write_frame_head_with_flags len true zvar_websocketd_type_text.
Definition zwebsocketd_write_frame_head_binary (len : Z) : WM Z :=
  zwebsocketd_write_frame_head_with_flags len true zvar_websocketd_type_binary.
Definition zwebsocketd_write_frame_data (data : list Z) (len : Z) : WM Z :=
  len ← of_option (if len <? 0 then s32 <$> (zlen <$> cstr data) else Some len);
  on_fp (zstream_write (Some data) len).
Definition zwebsocketd_write_frame_flush : WM Z := on_fp zstream_flush.
(** The second test for a ping was meant for a pong. *)
Definition zwebsocketd_send_data_with_opcode (data : list Z) (len opcode : Z) : WM Z :=
  len ← of_option (if len <? 0 then s32 <$> (zlen <$> cstr data) else Some len);
  if (125 <? len) && ((opcode =? zvar_websocketd_type_ping) || (opcode =? zvar_websocketd_type_ping)) then mret 0 else
  r ← zwebsocketd_write_frame_head_with_flags len true opcode;
  if r <? 1 then mret (-1) else
  zwebsocketd_write_frame_data data len;;
  zwebsocketd_write_frame_flush.
Definition zwebsocketd_send_ping (data : list Z) (len : Z) : WM Z :=
  zwebsocketd_send_data_with_opcode data len zvar_websocketd_type_ping.
Definition zwebsocketd_send_pong (data : list Z) (len : Z) : WM Z :=
  zwebsocketd_send_data_with_opcode data len zvar_websocketd_type_pong.
Definition zwebsocketd_send_binary (data : list Z) (len : Z) : WM Z :=
  zwebsocketd_send_data_with_opcode data len zvar_websocketd_type_binary.
Definition zwebsocketd_send_text (data : list Z) (len : Z) : WM Z :=
  zwebsocketd_send_data_with_opcode data len zvar_websocketd_type_text.
(** [out] is what the format directives produce (see [zbuf_printf_1024]). *)
Definition send_printf_1024 (out : list Z) (opcode : Z) : WM Z :=
  let len := if zlen out <? 1024 then zlen out else 1024 - 1 in
  zwebsocketd_send_data_with_opcode (take 1023 out ++ [0]) len opcode.
Definition zwebsocketd_send_binary_printf_1024 (out : list Z) : WM Z := send_printf_1024 out zvar_websocketd_type_binary.
Definition zwebsocketd_send_text_printf_1024 (out : list Z) : WM Z := send_printf_1024 out zvar_websocketd_type_text.
End websocket.
