(* ===== verification/WebsocketTrip.v ===== *)
(** * Websocket frames: what is read of a frame, and what is written *)
From stdpp Require Import relations.
From S2P Require Import Prelude Buf Cint StateMonad Stream StreamSpec StreamRead StreamWrite StreamTrip Websocket.

(** ** Frames *)

(** [k] digits of [n], the most significant first. *)
Fixpoint be (k : nat) (n : Z) : list Z :=
  match k with O => [] | S k' => be k' (n / 256) ++ [n mod 256] end.
(** The length of the payload, [m] being the bit of the mask. *)
Definition len_bytes (m n : Z) : list Z :=
  if n <? 126 then [m + n] else if n <? 65536 then (m + 126) :: be 2 n else (m + 127) :: be 8 n.
(** The bytes [p] from position [k] of the payload on. *)
Fixpoint masked (key : list Z) (k : Z) (p : list Z) : list Z :=
  match p with [] => [] | c :: p' => Z.lxor c (nth (Z.to_nat (k mod 4)) key 0) :: masked key (k + 1) p' end.
(** A frame: its first byte, and a masking key of four bytes when there is one. *)
Definition frame_head (b0 : Z) (key : option (list Z)) (n : Z) : list Z :=
  match key with None => b0 :: len_bytes 0 n | Some key => (b0 :: len_bytes 128 n) ++ key end.
Definition frame_body (key : option (list Z)) (k : Z) (p : list Z) : list Z :=
  match key with None => p | Some key => masked key k p end.
Definition key_ok (key : option (list Z)) : Prop :=
  match key with None => True | Some key => zlen key = 4 /\ bytes_ok key end.

Lemma be_len k : forall n, zlen (be k n) = Z.of_nat k.
Proof. induction k as [|k IH]; intros n; [done|]. cbn [be]. rewrite zlen_app, IH. unfold zlen. cbn. lia. Qed.
Lemma be_bytes k : forall n, 0 <= n -> bytes_ok (be k n).
Proof.
  induction k as [|k IH]; intros n Hn; [constructor|]. cbn [be]. apply Forall_app. split; [apply IH; zdiv|].
  constructor; [|constructor]. unfold byte_ok. zdiv.
Qed.
Lemma as_long_Some z : - 2 ^ 63 <= z < 2 ^ 63 -> as_long z = Some z.
Proof. intros ?. unfold as_long. destruct (Z.leb_spec (- 2 ^ 63) z), (Z.ltb_spec z (2 ^ 63)); (done || lia). Qed.

Lemma cell_at_app (a b : list Z) r i c : i = zlen a -> cell_at (Some <$> (a ++ c :: b)) i = Some c /\
  cell_at ((Some <$> (a ++ c :: b)) ++ r) i = Some c.
Proof.
  intros ->. unfold cell_at. assert (E : (Some <$> (a ++ c :: b)) !! length a = Some (Some c)).
  { rewrite list_lookup_fmap, lookup_app_r, Nat.sub_diag by lia. done. }
  zlen_facts. unfold rd. destruct (Z.ltb_spec (zlen a) 0); [lia|]. rewrite zlen_to_nat, E. split; [done|].
  rewrite lookup_app_l, E; [done|]. rewrite length_fmap, length_app. cbn. lia.
Qed.

(** Reading digits: Horner's rule, which stays in a [long] when the result does. *)
Definition horner (acc c : Z) : Z := acc * 256 + c.
Lemma horner_be k : forall acc n, 0 <= n < 256 ^ Z.of_nat k -> foldl horner acc (be k n) = acc * 256 ^ Z.of_nat k + n.
Proof.
  induction k as [|k IH]; intros acc n Hn; [cbn in *; lia|]. rewrite Nat2Z.inj_succ, Z.pow_succ_r in * by lia.
  cbn [be]. rewrite foldl_app, IH by zdiv. unfold horner. cbn. zdiv.
Qed.
Lemma horner_mono x : forall acc, bytes_ok x -> 0 <= acc -> acc <= foldl horner acc x.
Proof.
  induction x as [|c x IH]; intros acc Hb Ha; [done|]. inversion_clear Hb as [|? ? Hc Hb']. unfold byte_ok in Hc. cbn [foldl].
  etransitivity; [|apply IH; [done|unfold horner; lia]]. unfold horner. lia.
Qed.
Lemma payload_loop_horner x : forall a r acc, bytes_ok x -> 0 <= acc -> foldl horner acc x < 2 ^ 63 ->
  payload_loop (length x) (zlen a) acc ((Some <$> (a ++ x)) ++ r) = Some (foldl horner acc x).
Proof.
  induction x as [|c x IH]; intros a r acc Hb Ha Hmax; [done|]. inversion_clear Hb as [|? ? Hc Hb'].
  cbn [length payload_loop foldl] in *. destruct (cell_at_app a x r (zlen a) c eq_refl) as [_ ->]. cbn [mbind option_bind].
  unfold byte_ok in Hc. pose proof (horner_mono x (horner acc c) Hb' ltac:(unfold horner; lia)) as Hm. unfold horner in Hm at 1.
  rewrite as_long_Some by lia. cbn [mbind option_bind]. rewrite as_long_Some by lia. cbn [mbind option_bind].
  replace (zlen a + 1) with (zlen (a ++ [c])) by zlia. replace (a ++ c :: x) with ((a ++ [c]) ++ x) by (by rewrite <- app_assoc).
  apply IH; [done|unfold horner; lia|done].
Qed.

(** ** Reading a frame *)
Section read.
Context {E : Type} `{!Engine E, !EngineLaws E, !Faithful E}.
Implicit Types ws : zwebsocketd E.

Lemma wp_on_fp {A} (m : St (zstream E) A) ws (Q : A -> zwebsocketd E -> Prop) :
  wp m (ws_fp ws) (fun a fp => Q a (set_fp ws fp)) -> wp (on_fp m) ws Q.
Proof. apply wp_focus. Qed.

(** [true], and the length in the field. *)
Lemma read_payload_len_spec ws inp out n b rest buf0 : 8 <= zlen buf0 -> srep (ws_fp ws) inp out -> ws_payload_len ws = b ->
  (if b =? 126 then 126 <= n < 65536 else if b =? 127 then 0 <= n < 2 ^ 63 else n = b) ->
  total (ioctx (ws_fp ws)) = inp ++ (if b =? 126 then be 2 n else if b =? 127 then be 8 n else []) ++ rest ->
  wp (read_payload_len buf0) ws (fun ok ws' => ok = true /\ exists fp',
    ws' = set_payload_len (set_fp ws fp') n /\ 
    arrives inp out (ws_fp ws) (if b =? 126 then be 2 n else if b =? 127 then be 8 n else []) fp').
Proof.
  intros Hbuf Hs Eb Hn Ht. unfold read_payload_len. apply wp_bind, wp_gets. cbn [id]. rewrite Eb.
  assert (Hext : forall k, (k = 2%nat \/ k = 8%nat) -> 0 <= n < 256 ^ Z.of_nat k -> n < 2 ^ 63 ->
    total (ioctx (ws_fp ws)) = inp ++ be k n ++ rest ->
    wp (r ← on_fp (zstream_readn_to_mem (Some buf0) (Z.of_nat k));
        if negb (snd r =? Z.of_nat k) then mret false else
        n ← of_option (buf ← fst r; payload_loop (Z.to_nat (Z.of_nat k)) 0 0 buf);
        modify (fun ws => set_payload_len ws n);; mret true) ws (fun ok ws' => ok = true /\ exists fp',
      ws' = set_payload_len (set_fp ws fp') n /\ arrives inp out (ws_fp ws) (be k n) fp')).
  { intros k Hk Hnk Hmax Htk. pose proof (be_len k n) as Hl. pose proof (be_bytes k n ltac:(lia)) as Hbb.
    apply wp_bind, wp_on_fp. rewrite <- Hl. eapply wp_mono.
    { apply (readn_to_mem_arrives _ inp out buf0 (be k n) rest Hs); [lia|lia|exact Htk]. }
    intros [m r] fp1 (Er & Em & Ha). cbn [fst snd] in *. subst r m. rewrite Z.eqb_refl. cbn [negb mbind option_bind].
    apply wp_bind. eapply wp_of_option.
    { rewrite zlen_to_nat. apply (payload_loop_horner (be k n) []); [done|done|]. rewrite horner_be by done. lia. }
    apply wp_bind, wp_modify, wp_ret. split; [done|]. rewrite horner_be by done. by exists fp1. }
  destruct (Z.eqb_spec b 126); [|destruct (Z.eqb_spec b 127)].
  - apply (Hext 2%nat); [by left|cbn; lia|lia|done].
  - apply (Hext 8%nat); [by right|cbn; lia|lia|done].
  - apply wp_ret. split; [done|]. exists (ws_fp ws). split; [|split; [by rewrite app_nil_r|done]].
    destruct ws. cbn in *. by subst.
Qed.

(** What a header says. *)
Record head_read ws (b0 : Z) (key : option (list Z)) (n : Z) ws' : Prop := {
  hr_fin : ws_fin ws' = Z.land (Z.shiftr b0 7) 1;
  hr_opcode : ws_opcode ws' = if Z.land b0 15 =? 0 then ws_opcode_for_continue ws else Z.land b0 15;
  hr_cont : ws_opcode_for_continue ws' = ws_opcode ws';
  hr_len : ws_payload_len ws' = n;
  hr_readed : ws_readed_len ws' = 0;
  hr_mask : ws_mask ws' = match key with None => 0 | Some _ => 1 end;
  hr_key : match key with None => True | Some key => ws_masking_key ws' = Some <$> key end
}.
Lemma land_bit n : 0 <= Z.land n 1 < 2.
Proof. change (Z.land n 1) with (Z.land n (Z.ones 1)). rewrite Z.land_ones by lia. apply Z.mod_pos_bound. done. Qed.
Lemma land_nibble n : 0 <= Z.land n 15 < 16.
Proof. change 15 with (Z.ones 4). rewrite Z.land_ones by lia. apply Z.mod_pos_bound. done. Qed.
Lemma len_bits m l : m = 0 \/ m = 128 -> 0 <= l < 128 -> Z.land (m + l) 127 = l /\ Z.land (Z.shiftr (m + l) 7) 1 = m / 128.
Proof.
  intros Hm Hl. rewrite land_127, shiftr_7. change 1 with (Z.ones 1). rewrite Z.land_ones by lia. change (2 ^ 1) with 2.
  destruct Hm as [-> | ->]; split; zdiv.
Qed.

Lemma read_masking_key_spec ws inp out key rest : srep (ws_fp ws) inp out -> zlen (ws_masking_key ws) = 4 -> key_ok key ->
  ws_mask ws = (match key with None => 0 | Some _ => 1 end) ->
  total (ioctx (ws_fp ws)) = inp ++ default [] key ++ rest ->
  wp read_masking_key ws (fun ok ws' => ok = true /\ exists fp',
    ws' = set_masking_key (set_fp ws fp') (match key with None => ws_masking_key ws | Some key => Some <$> key end) /\
    arrives inp out (ws_fp ws) (default [] key) fp').
Proof.
  intros Hs Hk4 Hk Em Ht. unfold read_masking_key. apply wp_bind, wp_gets. cbn [id]. rewrite Em. destruct key as [key|].
  - destruct Hk as [Hk Hkb]. cbn [Z.eqb default] in *. apply wp_bind, wp_on_fp. rewrite <- Hk. eapply wp_mono.
    { by apply (readn_to_mem_arrives _ inp out (ws_masking_key ws) key rest Hs); [lia|lia|]. }
    intros [m r] fp1 (Er & Em' & Ha). cbn [fst snd] in *. subst r m. apply wp_bind. eapply wp_of_option; [done|].
    apply wp_bind, wp_modify, wp_ret. rewrite Z.eqb_refl. split; [done|]. exists fp1. split; [|done].
    rewrite drop_ge, app_nil_r by (unfold zlen in *; lia). done.
  - cbn [Z.eqb]. apply wp_ret. split; [done|]. exists (ws_fp ws). split; [by destruct ws|]. split; [by rewrite app_nil_r|done].
Qed.
Lemma read_frame_header_spec ws inp out b0 key n rest : srep (ws_fp ws) inp out -> zlen (ws_masking_key ws) = 4 ->
  byte_ok b0 -> key_ok key -> 0 <= n < 2 ^ 63 -> total (ioctx (ws_fp ws)) = inp ++ frame_head b0 key n ++ rest ->
  wp zwebsocketd_read_frame_header ws (fun r ws' => r = (match key with None => 0 | Some _ => 1 end) /\
    head_read ws b0 key n ws' /\ zlen (ws_masking_key ws') = 4 /\
    arrives inp out (ws_fp ws) (frame_head b0 key n) (ws_fp ws')).
Proof.
  intros Hs Hk4 Hb0 Hk Hn Ht. set (m := match key with None => 0 | Some _ => 128 end).
  set (L := if n <? 126 then n else if n <? 65536 then 126 else 127).
  set (ext := if L =? 126 then be 2 n else if L =? 127 then be 8 n else []).
  assert (HL : 0 <= L < 128 /\ (if L =? 126 then 126 <= n < 65536 else if L =? 127 then 0 <= n < 2 ^ 63 else n = L)).
  { unfold L. destruct (Z.ltb_spec n 126); [|destruct (Z.ltb_spec n 65536); cbn [Z.eqb Pos.eqb]; lia].
    destruct (Z.eqb_spec n 126), (Z.eqb_spec n 127); lia. }
  assert (Hhead : frame_head b0 key n = [b0; m + L] ++ ext ++ default [] key).
  { assert (E1 : len_bytes m n = (m + L) :: ext).
    { unfold len_bytes, ext, L. destruct (Z.ltb_spec n 126); [|destruct (Z.ltb_spec n 65536)]; [|done|done].
      destruct (Z.eqb_spec n 126), (Z.eqb_spec n 127); (done || lia). }
    unfold frame_head. destruct key; unfold m in *; rewrite E1; cbn; by rewrite ?app_nil_r. }
  assert (Hm : m = 0 \/ m = 128) by (unfold m; destruct key; auto). destruct (len_bits m L Hm) as [El Eb]; [lia|].
  rewrite Hhead in Ht |- *. rewrite <- !app_assoc in Ht. unfold zwebsocketd_read_frame_header.
  apply wp_bind, wp_on_fp. eapply wp_mono.
  { apply (readn_to_mem_arrives _ inp out (zmalloc 129) [b0; m + L] (ext ++ default [] key ++ rest) Hs); [|done|done].
    unfold zmalloc. rewrite zlen_replicate. done. }
  intros [bufo r] fp1 (Er & Em & [Hs1 Ht1]). cbn [fst snd] in *. subst r bufo. change (zlen [b0; m + L]) with 2. cbn [Z.eqb Pos.eqb negb].
  apply wp_bind. eapply wp_of_option; [done|]. apply wp_bind. eapply wp_of_option; [done|]. apply wp_bind. eapply wp_of_option; [done|].
  rewrite El, Eb. apply wp_bind, wp_modify, wp_bind. eapply wp_mono.
  { apply (read_payload_len_spec _ (inp ++ [b0; m + L]) out n L (default [] key ++ rest)); [|exact Hs1|done|by apply HL|].
    - rewrite zlen_app, zlen_fmap. unfold zmalloc. change (zlen [b0; m + L]) with 2. unfold zlen. rewrite length_drop, length_replicate. cbn. lia.
    - cbn [ws_fp set_head set_fp]. fold ext. by rewrite Ht1, Ht, <- app_assoc. }
  intros ok ws1 (-> & fp2 & -> & [Hs2 Ht2]). cbn [negb]. cbn [ws_fp set_head set_fp set_payload_len] in Hs2, Ht2. fold ext in Hs2.
  apply wp_bind. eapply wp_mono.
  { apply (read_masking_key_spec _ ((inp ++ [b0; m + L]) ++ ext) out key rest); [exact Hs2|exact Hk4|exact Hk| |].
    - cbn. unfold m. destruct key; done.
    - cbn. rewrite Ht2, Ht1, Ht. by rewrite <- !app_assoc. }
  intros ok ws2 (-> & fp3 & -> & [Hs3 Ht3]). cbn [negb]. apply wp_bind, wp_gets, wp_ret. cbn [id].
  pose proof (land_bit (Z.shiftr b0 7)) as Hfin. pose proof (land_nibble b0) as Hop. rewrite (swrap_small 5) by (cbn; lia).
  rewrite (swrap_small 2 (Z.land (Z.shiftr b0 7) 1)) by (cbn; lia). rewrite (swrap_small 2 (m / 128)) by (unfold m; destruct key; done).
  split; [unfold m; by destruct key|]. split.
  { split; cbn; try done; [by destruct (Z.land b0 15 =? 0)|unfold m; by destruct key|by destruct key]. }
  split; [destruct key as [key|]; cbn; [rewrite zlen_fmap; by destruct Hk|done]|].
  split; cbn in *; [by rewrite <- !app_assoc in Hs3|congruence].
Qed.

(** ** The payload *)
Lemma masked_len key p : forall k, length (masked key k p) = length p.
Proof. induction p as [|c p IH]; intros k; [done|]. cbn. by rewrite IH. Qed.
Lemma masked_app key x y : forall k, masked key k (x ++ y) = masked key k x ++ masked key (k + zlen x) y.
Proof.
  induction x as [|c x IH]; intros k; cbn [app masked]; [by rewrite Z.add_0_r|]. rewrite IH, zlen_cons. cbn. do 2 f_equal.
  f_equal. lia.
Qed.
Lemma masked_twice key p : forall k, masked key k (masked key k p) = p.
Proof.
  induction p as [|c p IH]; intros k; [done|]. cbn. by rewrite IH, Z.lxor_assoc, Z.lxor_nilpotent, Z.lxor_0_r.
Qed.
Lemma unmask_loop_masked key k x : zlen key = 4 -> forall a r, 
  unmask_loop (length x) (zlen a) k (Some <$> key) ((Some <$> (a ++ x)) ++ r) = 
  Some ((Some <$> (a ++ masked key (k + zlen a) x)) ++ r).
Proof.
  intros Hk. induction x as [|c x IH]; intros a r; [done|]. cbn [length unmask_loop masked].
  destruct (cell_at_app a x r (zlen a) c eq_refl) as [_ ->]. cbn [mbind option_bind].
  assert (Hm : 0 <= (k + zlen a) mod 4 < 4) by (apply Z.mod_pos_bound; lia).
  assert (Hkey : cell_at (Some <$> key) ((k + zlen a) mod 4) = Some (nth (Z.to_nat ((k + zlen a) mod 4)) key 0)).
  { unfold cell_at, rd. destruct (Z.ltb_spec ((k + zlen a) mod 4) 0); [lia|]. rewrite list_lookup_fmap.
    destruct (lookup_lt_is_Some_2 key (Z.to_nat ((k + zlen a) mod 4))) as [v Hv]; [unfold zlen in Hk; lia|].
    by rewrite Hv, (nth_lookup_Some _ _ _ _ Hv). }
  rewrite Hkey. cbn [mbind option_bind]. rewrite fmap_app, fmap_cons, <- app_assoc. cbn [app].
  rewrite <- (zlen_fmap Some a), wr_app. cbn [mbind option_bind]. rewrite zlen_fmap.
  match goal with |- context [Z.lxor c ?v] => set (d := Z.lxor c v) end.
  replace (zlen a + 1) with (zlen (a ++ [d])) by zlia.
  replace ((Some <$> a) ++ Some d :: (Some <$> x) ++ r) with ((Some <$> ((a ++ [d]) ++ x)) ++ r)
    by (rewrite !fmap_app, <- !app_assoc; done).
  rewrite IH. replace (k + zlen (a ++ [d])) with (k + zlen a + 1) by zlia. by rewrite <- app_assoc.
Qed.

Lemma drop_taken (p : list Z) k len : 0 <= k ->
  let x := take (Z.to_nat len) (drop (Z.to_nat k) p) in drop (Z.to_nat len) (drop (Z.to_nat k) p) = drop (Z.to_nat (k + zlen x)) p.
Proof.
  intros Hk x. rewrite <- (drop_app_length x (drop (Z.to_nat len) (drop (Z.to_nat k) p))). unfold x at 2.
  rewrite take_drop, drop_drop. f_equal. unfold zlen. lia.
Qed.

(** In the middle of a frame: [k] bytes of [p] are read. *)
Record in_frame ws inp out (key : option (list Z)) (p : list Z) (k : Z) (rest : list Z) : Prop := {
  if_srep : srep (ws_fp ws) inp out;
  if_len : ws_payload_len ws = zlen p;
  if_readed : ws_readed_len ws = k;
  if_mask : ws_mask ws = match key with None => 0 | Some _ => 1 end;
  if_key : match key with None => True | Some key => zlen key = 4 /\ ws_masking_key ws = Some <$> key end;
  if_k : 0 <= k <= zlen p;
  if_total : total (ioctx (ws_fp ws)) = inp ++ frame_body key k (drop (Z.to_nat k) p) ++ rest
}.
Lemma frame_body_len key k p : length (frame_body key k p) = length p.
Proof. destruct key; [apply masked_len|done]. Qed.
Lemma frame_body_app key k x y : frame_body key k (x ++ y) = frame_body key k x ++ frame_body key (k + zlen x) y.
Proof. destruct key; [apply masked_app|done]. Qed.

(** As many bytes as there is room for, or as are left. *)
Lemma read_frame_data_spec ws inp out key p k rest data len : in_frame ws inp out key p k rest ->
  0 < len <= zlen data -> len < int_max ->
  let x := take (Z.to_nat len) (drop (Z.to_nat k) p) in
  wp (zwebsocketd_read_frame_data data len) ws (fun r ws' => r = ((Some <$> x) ++ drop (length x) data, zlen x) /\
    in_frame ws' (inp ++ frame_body key k x) out key p (k + zlen x) rest /\ 
    ws_opcode ws' = ws_opcode ws /\ ws_opcode_for_continue ws' = ws_opcode_for_continue ws /\ zlen (ws_masking_key ws') = zlen (ws_masking_key ws)).
Proof.
  intros [Hs El Er Em Hkey Hk Ht] Hlen Hmax x. unfold zwebsocketd_read_frame_data. apply wp_bind, wp_gets. cbn [id]. rewrite El, Er.
  assert (Hx : zlen x = Z.min len (zlen p - k)).
  { unfold x, zlen in *. rewrite length_take, length_drop. lia. }
  destruct (Z.leb_spec (zlen p) k).
  { assert (x = []) as Ex by (apply zlen_inv_nil; lia). rewrite Ex. apply wp_ret. rewrite Z.add_0_r.
    split; [done|]. split; [|done]. replace (frame_body key k []) with (@nil Z) by (by destruct key). by rewrite app_nil_r. }
  assert (Hxl : zlen (frame_body key k x) = zlen x) by (unfold zlen; by rewrite frame_body_len).
  assert (Elen : (if zlen p - k <? len then s32 (zlen p - k) else len) = zlen (frame_body key k x)).
  { destruct (Z.ltb_spec (zlen p - k) len); [rewrite s32_small by lia|]; lia. }
  rewrite Elen.
  pose proof (take_drop (Z.to_nat len) (drop (Z.to_nat k) p)) as Esplit. fold x in Esplit.
  pose proof (drop_taken p k len ltac:(lia)) as Ed. cbn zeta in Ed. fold x in Ed.
  rewrite <- Esplit, frame_body_app, <- app_assoc, Ed in Ht. apply wp_bind, wp_on_fp. eapply wp_mono.
  { eapply (readn_to_mem_arrives _ inp out data (frame_body key k x)); [done|lia|lia|exact Ht]. }
  intros [m r] fp1 (E1 & E2 & [Hs1 Ht1]). cbn [fst snd] in *. subst m r. apply wp_bind. eapply wp_of_option; [done|].
  rewrite Hxl. destruct (Z.ltb_spec 0 (zlen x)); [|lia]. rewrite Em. apply wp_bind.
  apply (wp_of_option _ ((Some <$> x) ++ drop (length x) data)).
  { rewrite frame_body_len, zlen_to_nat. destruct key as [key|]; [|done]. destruct Hkey as [Hkl ->]. cbn [Z.eqb negb frame_body].
    rewrite <- (masked_len key x k). rewrite (unmask_loop_masked key k (masked key k x) Hkl []). cbn [app].
    change (zlen (@nil Z)) with 0. by rewrite Z.add_0_r, masked_twice. }
  apply wp_bind, wp_modify, wp_ret. split; [done|]. split; [|done].
  split; try done; cbn; [by rewrite Er|lia|]. by rewrite Ht1, Ht, <- app_assoc.
Qed.

(** ** Clients *)

(** The whole payload, through a buffer of [size] bytes. *)
Fixpoint recv_payload (fuel : nat) (size : Z) : St (zwebsocketd E) (list Z) :=
  match fuel with
  | O => fun _ => None
  | S fuel' =>
      r ← zwebsocketd_read_frame_data (zmalloc size) size;
      if snd r <? 1 then mret [] else
      x ← of_option (mapM id (take (Z.to_nat (snd r)) (fst r)));
      y ← recv_payload fuel' size;
      mret (x ++ y)
  end.
(** A frame: its opcode and its payload. *)
Definition recv_frame (fuel : nat) (size : Z) : St (zwebsocketd E) (Z * list Z) :=
  r ← zwebsocketd_read_frame_header;
  if r <? 0 then mret (-1, []) else
  op ← zwebsocketd_get_header_opcode;
  p ← recv_payload fuel size;
  mret (op, p).
Fixpoint recv_frames (n fuel : nat) (size : Z) : St (zwebsocketd E) (list (Z * list Z)) :=
  match n with
  | O => mret []
  | S n' => x ← recv_frame fuel size; xs ← recv_frames n' fuel size; mret (x :: xs)
  end.

Lemma recv_payload_spec size key p rest : 0 < size < int_max -> forall fuel ws inp out k, in_frame ws inp out key p k rest ->
  zlen p - k < Z.of_nat fuel ->
  wp (recv_payload fuel size) ws (fun y ws' => y = drop (Z.to_nat k) p /\
    in_frame ws' (inp ++ frame_body key k y) out key p (zlen p) rest /\ ws_opcode ws' = ws_opcode ws /\
    ws_opcode_for_continue ws' = ws_opcode_for_continue ws /\ zlen (ws_masking_key ws') = zlen (ws_masking_key ws)).
Proof.
  intros Hsize. induction fuel as [|fuel IH]; intros ws inp out k Hin Hf; pose proof (if_k _ _ _ _ _ _ _ Hin) as Hk; [lia|].
  cbn [recv_payload]. assert (Hroom : zlen (zmalloc size) = size) by (unfold zmalloc; rewrite zlen_replicate; lia).
  apply wp_bind. eapply wp_mono; [apply (read_frame_data_spec _ _ _ _ _ _ _ _ size Hin); [lia|lia]|].
  set (x := take (Z.to_nat size) (drop (Z.to_nat k) p)). intros r ws1 (-> & Hin1 & Eop & Ec & Em). cbn [fst snd].
  assert (Hx : zlen x = Z.min size (zlen p - k)) by (unfold x, zlen in *; rewrite length_take, length_drop; lia).
  destruct (Z.ltb_spec (zlen x) 1).
  { assert (x = []) as Ex by (apply zlen_inv_nil; lia). apply wp_ret. replace (zlen x) with 0 in * by lia. rewrite Ex in Hin1.
    assert (k = zlen p) as -> by lia. rewrite Z.add_0_r in Hin1. rewrite drop_ge by (unfold zlen; lia). done. }
  apply wp_bind. eapply wp_of_option; [rewrite zlen_to_nat; apply read_cells|]. apply wp_bind. eapply wp_mono; [apply (IH _ _ _ _ Hin1); lia|].
  intros y ws2 (-> & Hin2 & Eop2 & Ec2 & Em2). apply wp_ret. assert (E1 : x ++ drop (Z.to_nat (k + zlen x)) p = drop (Z.to_nat k) p).
  { rewrite <- (take_drop (Z.to_nat size) (drop (Z.to_nat k) p)). fold x. f_equal. symmetry. apply drop_taken. lia. }
  split; [done|]. rewrite <- app_assoc, <- frame_body_app, E1 in Hin2. split; [by rewrite E1|]. split; [congruence|]. split; congruence.
Qed.
End read.

(** What frames stand for; a frame with opcode 0 continues the frame before. *)
Fixpoint decode (cont : Z) (frames : list (Z * option (list Z) * list Z)) : list (Z * list Z) :=
  match frames with
  | [] => []
  | (b0, _, p) :: fs => let op := if Z.land b0 15 =? 0 then cont else Z.land b0 15 in (op, p) :: decode op fs
  end.
Definition frame_data (f : Z * option (list Z) * list Z) : list Z :=
  let '(b0, key, p) := f in frame_head b0 key (zlen p) ++ frame_body key 0 p.
Definition frame_ok (f : Z * option (list Z) * list Z) : Prop :=
  let '(b0, key, p) := f in byte_ok b0 /\ key_ok key /\ zlen p < 2 ^ 63.

Section frames.
Context {E : Type} `{!Engine E, !EngineLaws E, !Faithful E}.

Lemma recv_frame_spec (ws : zwebsocketd E) inp out b0 key p rest fuel size : srep (ws_fp ws) inp out ->
  zlen (ws_masking_key ws) = 4 -> frame_ok (b0, key, p) -> 0 < size < int_max -> zlen p < Z.of_nat fuel ->
  total (ioctx (ws_fp ws)) = inp ++ frame_data (b0, key, p) ++ rest ->
  wp (recv_frame fuel size) ws (fun r ws' => [r] = decode (ws_opcode_for_continue ws) [(b0, key, p)] /\ 
    ws_opcode_for_continue ws' = fst r /\ zlen (ws_masking_key ws') = 4 /\
    arrives inp out (ws_fp ws) (frame_data (b0, key, p)) (ws_fp ws')).
Proof.
  intros Hs Hk4 (Hb0 & Hk & Hp) Hsize Hfuel Ht. zlen_facts. unfold frame_data in *. rewrite <- app_assoc in Ht. unfold recv_frame.
  apply wp_bind. eapply wp_mono; [by eapply (read_frame_header_spec ws inp out b0 key (zlen p))|].
  intros r ws1 (-> & [] & Hk1 & [Hs1 Ht1]). destruct (Z.ltb_spec (match key with None => 0 | Some _ => 1 end) 0); [by destruct key|].
  apply wp_bind, wp_gets, wp_bind. eapply wp_mono.
  { apply (recv_payload_spec size key p rest Hsize fuel ws1 (inp ++ frame_head b0 key (zlen p)) out 0); [|lia].
    split; [done|done|done|done| |lia|].
    - destruct key as [key|]; [|done]. split; [by destruct Hk|done].
    - rewrite Ht1, Ht. cbn [Z.to_nat drop]. by rewrite <- app_assoc. }
  intros y ws2 (-> & [Hs2 _ _ _ _ _ Ht2] & Eop & Ec & Em). apply wp_ret. change (drop (Z.to_nat 0) p) with p in *. cbn [decode fst].
  rewrite hr_opcode0 in *. split; [done|]. split; [congruence|]. split; [congruence|].
  rewrite <- app_assoc in Hs2. split; [done|]. rewrite Ht2, drop_ge by (unfold zlen; lia).
  replace (frame_body key (zlen p) []) with (@nil Z) by (by destruct key). by rewrite <- !app_assoc.
Qed.
Lemma recv_frames_spec frames rest fuel size : 0 < size < int_max -> forall (ws : zwebsocketd E) inp out, 
  srep (ws_fp ws) inp out -> zlen (ws_masking_key ws) = 4 ->
  Forall (fun f => frame_ok f /\ zlen f.2 < Z.of_nat fuel) frames ->
  total (ioctx (ws_fp ws)) = inp ++ concat (frame_data <$> frames) ++ rest ->
  wp (recv_frames (length frames) fuel size) ws (fun xs ws' => xs = decode (ws_opcode_for_continue ws) frames /\
    arrives inp out (ws_fp ws) (concat (frame_data <$> frames)) (ws_fp ws')).
Proof.
  intros Hsize. induction frames as [|[[b0 key] p] frames IH]; intros ws inp out Hs Hk Hok Ht.
  { apply wp_ret. split; [done|]. split; [by rewrite app_nil_r|done]. }
  inversion_clear Hok as [|? ? [Hf Hl] Hok']. rewrite fmap_cons in *. cbn [concat length recv_frames] in *.
  rewrite <- app_assoc in Ht. apply wp_bind. eapply wp_mono; [by eapply (recv_frame_spec ws inp out b0 key p)|].
  intros [op y] ws1 (E1 & Ec & Hk1 & [Hs1 Ht1]). apply wp_bind. eapply wp_mono.
  { apply (IH ws1 _ out Hs1 Hk1 Hok'). by rewrite Ht1, Ht, <- app_assoc. }
  intros xs ws2 (-> & [Hs2 Ht2]). apply wp_ret. cbn [decode fst] in *. injection E1 as -> ->. rewrite Ec.
  split; [done|]. rewrite <- app_assoc in Hs2. split; [done|congruence].
Qed.
End frames.

(** ** Writing a frame *)
Lemma put_len_be z : forall a b n, 0 <= n ->
  put_len (length z) (zlen a + zlen z) n (a ++ z ++ b) = Some (a ++ be (length z) n ++ b).
Proof.
  induction z as [|c z IH] using rev_ind; intros a b n Hn; [done|]. rewrite length_app, zlen_app, Nat.add_comm. cbn [length Nat.add put_len be].
  rewrite <- !app_assoc. cbn [app]. replace (zlen a + (zlen z + zlen [c]) - 1) with (zlen (a ++ z)) by zlia. rewrite app_assoc, wr_app.
  cbn [mbind option_bind]. rewrite <- app_assoc, zlen_app, land_255. rewrite Z.shiftr_div_pow2 by lia. by rewrite IH by zdiv.
Qed.
Lemma be_8 n : 0 <= n < 2 ^ 32 -> be 8 n = [0; 0; 0; 0] ++ be 4 n.
Proof.
  intros Hn. change 8%nat with (4 + 4)%nat. cbn [be Nat.add]. replace (n / 256 / 256 / 256 / 256) with 0 by zdiv. done.
Qed.
Lemma frame_head_bytes len op : 0 <= len < 2 ^ 31 -> 0 <= op < 16 -> bytes_ok (frame_head (128 + op) None len).
Proof.
  intros Hlen Hop. unfold frame_head, len_bytes. constructor; [unfold byte_ok; lia|].
  destruct (Z.ltb_spec len 126); [|destruct (Z.ltb_spec len 65536)].
  - constructor; [unfold byte_ok; lia|constructor].
  - constructor; [done|]. apply be_bytes. lia.
  - constructor; [done|]. apply be_bytes. lia.
Qed.
(** The bytes put into [header]. *)
Lemma header_bytes len op : 0 <= len < 2 ^ 31 -> 0 <= op < 16 ->
  exists hlen b1 header tail, 
    (if len <? 126 then (2, Z.land len 127) else if len <? 65536 then (4, 126) else (10, 127)) = (hlen, b1) /\
    (header ← wr (replicate 11 0) 0 (Z.lor (Z.lor 0 128) (Z.land op 15));
     header ← wr header 1 b1;
     if 2 <? hlen then put_len (if hlen =? 4 then 2 else 4) hlen (u32 len) header else Some header) = Some header /\
    header = frame_head (128 + op) None len ++ tail /\ zlen (frame_head (128 + op) None len) = hlen.
Proof.
  intros Hlen Hop. assert (E0 : Z.lor (Z.lor 0 128) (Z.land op 15) = 128 + op).
  { change 15 with (Z.ones 4). rewrite Z.land_ones, Z.mod_small by lia. change (Z.lor 0 128) with (1 * 2 ^ 7). rewrite lor_mul_add by lia. lia. }
  rewrite E0. rewrite uwrap_small by lia. unfold frame_head, len_bytes.
  destruct (Z.ltb_spec len 126); [|destruct (Z.ltb_spec len 65536)]; do 4 eexists; (split; [reflexivity|]).
  - rewrite land_127, Z.mod_small by lia. split; [reflexivity|]. split; [reflexivity|done].
  - cbn [mbind option_bind replicate wr]. split; [apply (put_len_be [0; 0] [128 + op; 126] (replicate 7 0)); lia|].
    split; [reflexivity|]. rewrite !zlen_cons, be_len. done.
  - split; [apply (put_len_be [0; 0; 0; 0] [128 + op; 127; 0; 0; 0; 0] [0]); lia|].
    split; [rewrite be_8 by lia; reflexivity|]. rewrite !zlen_cons, be_len. done.
Qed.

Section write.
Context {E : Type} `{!Engine E, !EngineLaws E}.
Implicit Types ws : zwebsocketd E.

(** [x] is put and sent, or the stream is in error. *)
Definition pushed inp out (fp : zstream E) (x : list Z) (r : Z) fp' : Prop :=
  puts inp out fp x fp' /\ if error fp' then r = -1 else r = 1 /\ sent (ioctx fp') = out ++ x.
Lemma flush_pushed inp out fp fp1 x : eof fp = false -> puts inp out fp x fp1 ->
  wp zstream_flush fp1 (fun r fp' => pushed inp out fp x r fp').
Proof.
  intros Heof [Hr He (y & Hs & Hy)]. eapply wp_mono; [by apply flush_spec|]. intros r fp2 (Hs2 & Hr2 & Hfl).
  pose proof (rs_eof _ _ Hr) as E1. pose proof (rs_eof _ _ Hr2) as E2. rewrite Heof in E1. split.
  - split; [by eapply reader_same_trans|intros Ee|]. 
    + destruct (error fp2); [done|]. destruct Hfl as (_ & Hf & _). rewrite He in Hf by done. done.
    + exists y. split; [done|]. intros Hf. apply Hy. rewrite E1, orb_false_r. destruct (error fp2); [done|]. by destruct Hfl as (_ & -> & _).
  - destruct (error fp2); [done|]. destruct Hfl as (-> & Hf & _ & ->). split; [done|]. by rewrite Hy by (by rewrite Hf, E1).
Qed.

Lemma write_frame_head_spec ws inp out len pin op : srep (ws_fp ws) inp out -> eof (ws_fp ws) = false ->
  0 <= len < 2 ^ 31 -> 0 <= op < 16 ->
  wp (zwebsocketd_write_frame_head_with_flags len pin op) ws (fun r ws' => exists fp', ws' = set_fp ws fp' /\
    pushed inp out (ws_fp ws) (frame_head (128 + op) None len) (if r =? 1 then 1 else -1) fp' /\ (r = 1 \/ r = -1)).
Proof.
  intros Hs Heof Hlen Hop. unfold zwebsocketd_write_frame_head_with_flags. destruct (Z.ltb_spec len 0); [lia|].
  destruct (header_bytes len op Hlen Hop) as (hlen & b1 & header & tail & -> & Eh & -> & Ehl).
  apply wp_bind. eapply wp_of_option; [exact Eh|]. apply wp_bind, wp_on_fp. eapply wp_mono.
  { apply (write_spec _ inp out _ hlen (frame_head (128 + op) None len) Hs); [rewrite <- Ehl; apply in_bytes_app|zlia|].
    by apply frame_head_bytes. }
  intros r1 fp1 [Hp _]. apply wp_bind, wp_on_fp. eapply wp_mono; [by eapply flush_pushed|].
  intros r fp2 Hpu. apply wp_ret. exists fp2. split; [done|]. destruct Hpu as [Hpu Hr]. destruct (error fp2) eqn:Ee.
  - subst r. cbn. split; [|by right]. split; [done|]. by rewrite Ee.
  - destruct Hr as [-> Hse]. cbn. split; [|by left]. split; [done|]. by rewrite Ee.
Qed.

(** 1, and the whole frame is sent, or -1. *)
Lemma send_data_spec ws inp out data len p op : srep (ws_fp ws) inp out -> eof (ws_fp ws) = false ->
  in_bytes data len = Some p -> bytes_ok p -> zlen p < 2 ^ 31 -> 0 <= op < 16 -> (op = zvar_websocketd_type_ping -> zlen p <= 125) ->
  wp (zwebsocketd_send_data_with_opcode data len op) ws (fun r ws' => exists fp', ws' = set_fp ws fp' /\
    pushed inp out (ws_fp ws) (frame_data (128 + op, None, p)) r fp').
Proof.
  intros Hs Heof Hin Hb Hp Hop Hping. zlen_facts. unfold zwebsocketd_send_data_with_opcode. destruct (bytes_arg _ _ _ Hin Hp) as [E1 E2].
  apply wp_bind. eapply wp_of_option; [exact E1|].
  assert ((125 <? zlen p) && ((op =? zvar_websocketd_type_ping) || (op =? zvar_websocketd_type_ping)) = false) as ->.
  { destruct (Z.eqb_spec op zvar_websocketd_type_ping); [|by rewrite andb_false_r].
    by destruct (Z.ltb_spec 125 (zlen p)); [specialize (Hping ltac:(done)); lia|]. }
  apply wp_bind. eapply wp_mono; [by apply (write_frame_head_spec ws inp out)|].
  intros r ws1 (fp1 & -> & [[Hr1 He1 (y & Hs1 & Hy)] Hsent] & Hr). pose proof (rs_eof _ _ Hr1) as Ee. rewrite Heof in Ee.
  destruct (Z.ltb_spec r 1).
  { apply wp_ret. exists fp1. split; [done|]. destruct Hr as [->| ->]; [lia|]. cbn [Z.eqb] in Hsent.
    destruct (error fp1) eqn:Eerr; [|by destruct Hsent]. split; [|by rewrite Eerr]. split; [done|done|]. exists y. by rewrite Eerr. }
  destruct Hr as [->| ->]; [|lia]. cbn [Z.eqb Pos.eqb] in Hsent. destruct (error fp1) eqn:Eerr1; [done|].
  rewrite Hy in Hs1 by (by rewrite Ee). unfold zwebsocketd_write_frame_data.
  destruct (Z.ltb_spec (zlen p) 0); [lia|]. apply wp_bind, wp_bind. eapply wp_of_option; [done|]. apply wp_on_fp.
  cbn [ws_fp set_fp]. eapply wp_mono; [by apply (write_spec fp1 inp _ data (zlen p) p Hs1)|]. intros r2 fp2 [Hpu _].
  unfold zwebsocketd_write_frame_flush. apply wp_on_fp. cbn [ws_fp set_fp]. eapply wp_mono.
  { eapply (flush_pushed inp out (ws_fp ws) fp2); [exact Heof|]. eapply puts_app; [exact Hr1| |by intros _|exact Hpu].
    by rewrite Eerr1. }
  intros r3 fp3 Hp3. exists fp3. by split.
Qed.
(** What reaches the other side of a stream whose reader is at its end. *)
Definition cut_short out (x : list Z) (r : Z) (fp' : zstream E) : Prop :=
  if error fp' then r = -1 else r = 1 /\ sent (ioctx fp') = out ++ x.
Lemma send_at_end_spec ws inp out data len p op : srep (ws_fp ws) inp out -> eof (ws_fp ws) = true ->
  in_bytes data len = Some p -> bytes_ok p -> zlen p < 2 ^ 31 -> 0 <= op < 16 -> (op = zvar_websocketd_type_ping -> zlen p <= 125) ->
  wp (zwebsocketd_send_data_with_opcode data len op) ws (fun r ws' => exists fp', ws' = set_fp ws fp' /\
    cut_short out (128 + op :: take 1 p) r fp').
Proof.
  intros Hs Heof Hin Hb Hp Hop Hping. unfold zwebsocketd_send_data_with_opcode. destruct (bytes_arg _ _ _ Hin Hp) as [E1 E2].
  apply wp_bind. eapply wp_of_option; [exact E1|]. zlen_facts.
  assert ((125 <? zlen p) && ((op =? zvar_websocketd_type_ping) || (op =? zvar_websocketd_type_ping)) = false) as ->.
  { destruct (Z.eqb_spec op zvar_websocketd_type_ping); [|by rewrite andb_false_r].
    by destruct (Z.ltb_spec 125 (zlen p)); [specialize (Hping ltac:(done)); lia|]. }
  unfold zwebsocketd_write_frame_head_with_flags. destruct (Z.ltb_spec (zlen p) 0); [lia|].
  destruct (header_bytes (zlen p) op ltac:(lia) Hop) as (hlen & b1 & header & tail & -> & Eh & -> & Ehl).
  apply wp_bind, wp_bind. eapply wp_of_option; [exact Eh|]. apply wp_bind, wp_on_fp. unfold frame_head in *. cbn [app]. eapply wp_mono.
  { apply (write_at_end _ inp out (128 + op) _ hlen Hs); [done|unfold byte_ok; lia|]. rewrite <- Ehl. zlia. }
  intros r1 fp1 (_ & Hr1 & _ & Hs1). apply wp_bind, wp_on_fp. eapply wp_mono; [by apply (flush_spec fp1 inp (out ++ [128 + op]))|].
  intros r2 fp2 (Hs2 & Hr2 & Hfl). apply wp_ret. destruct (error fp2) eqn:Ee2.
  { subst r2. apply wp_ret. eexists. split; [done|]. unfold cut_short. by rewrite Ee2. }
  destruct Hfl as (-> & _). cbn [Z.ltb Z.compare Pos.compare Pos.compare_cont]. unfold zwebsocketd_write_frame_data.
  destruct (Z.ltb_spec (zlen p) 0); [lia|]. apply wp_bind, wp_bind. eapply wp_of_option; [done|]. apply wp_on_fp. cbn [ws_fp set_fp].
  assert (Hflush : forall fp3, srep fp3 inp (out ++ 128 + op :: take 1 p) ->
    wp zwebsocketd_write_frame_flush (set_fp (set_fp ws fp2) fp3) (fun r ws' => exists fp', ws' = set_fp ws fp' /\
      cut_short out (128 + op :: take 1 p) r fp')).
  { intros fp3 Hs3. apply wp_on_fp. cbn [ws_fp set_fp]. eapply wp_mono; [by apply (flush_spec fp3 inp)|].
    intros r4 fp4 (_ & _ & Hfl4). exists fp4. split; [done|]. unfold cut_short. destruct (error fp4); [done|].
    by destruct Hfl4 as (-> & _ & _ & ->). }
  destruct p as [|c x].
  - apply wp_ret. by apply Hflush.
  - inversion_clear Hb as [|? ? Hc _]. pose proof (in_bytes_front _ _ _ E2 ltac:(lia)) as (rest & -> & _ & _). cbn [app]. eapply wp_mono.
    { apply (write_at_end fp2 inp _ c _ _ Hs2); [|done|zlia]. by rewrite (rs_eof _ _ Hr2), (rs_eof _ _ Hr1). }
    intros r3 fp3 (_ & _ & _ & Hs3). rewrite <- app_assoc in Hs3. by apply Hflush.
Qed.
End write.

(** ** The theorems *)
Section theorems.
Context {E : Type} `{!Engine E, !EngineLaws E}.
Implicit Types ws : zwebsocketd E.

(** C12: reading frames. Whatever frames of whatever lengths, masked or not, arrive in
    whatever pieces, the server gets their opcodes (a continuation that of the frame
    before it, a control frame in between included, where RFC 6455 means that of its
    message) and their payloads, unmasked, through a buffer of any size. *)
Theorem zwebsocketd_reads_frames `{!Faithful E} ws inp out frames rest fuel size : srep (ws_fp ws) inp out ->
  zlen (ws_masking_key ws) = 4 -> Forall (fun f => frame_ok f /\ zlen f.2 < Z.of_nat fuel) frames -> 0 < size < int_max ->
  total (ioctx (ws_fp ws)) = inp ++ concat (frame_data <$> frames) ++ rest ->
  wp (recv_frames (length frames) fuel size) ws (fun xs ws' => xs = decode (ws_opcode_for_continue ws) frames /\
    srep (ws_fp ws') (inp ++ concat (frame_data <$> frames)) out).
Proof.
  intros Hs Hk Hok Hsize Ht. eapply wp_mono; [by eapply (recv_frames_spec frames rest fuel size Hsize ws inp out)|].
  by intros xs ws' (-> & [Hs' _]).
Qed.

(** C13: sending. One unmasked frame with the final bit, the opcode, the shortest form of the
    length and the data is put and sent; the answer is 1 then, and -1 when the stream is
    in error. For more than 125 bytes a ping is not sent at all: the answer is 0. All that
    while the other side has not closed its half: once a read has met the end, only the first
    byte of the header and the first byte of the data are sent, and the answer is 1 all the
    same unless the stream is in error (a bug of the writing functions of the stream). *)
Theorem zwebsocketd_sends ws inp out data len p op : srep (ws_fp ws) inp out ->
  in_bytes data len = Some p -> bytes_ok p -> zlen p < 2 ^ 31 -> 0 <= op < 16 ->
  wp (zwebsocketd_send_data_with_opcode data len op) ws (fun r ws' =>
    if (op =? zvar_websocketd_type_ping) && (125 <? zlen p) then r = 0 /\ ws' = ws
    else exists fp', ws' = set_fp ws fp' /\
      if eof (ws_fp ws) then cut_short out (128 + op :: take 1 p) r fp'
      else pushed inp out (ws_fp ws) (frame_data (128 + op, None, p)) r fp').
Proof.
  intros Hs Hin Hb Hp Hop. destruct ((op =? zvar_websocketd_type_ping) && (125 <? zlen p)) eqn:Eping.
  - apply andb_true_iff in Eping as [->%Z.eqb_eq Hlen%Z.ltb_lt].
    unfold zwebsocketd_send_data_with_opcode. destruct (bytes_arg _ _ _ Hin Hp) as [E1 E2]. apply wp_bind. eapply wp_of_option; [exact E1|].
    destruct (Z.ltb_spec 125 (zlen p)); [|lia]. rewrite Z.eqb_refl. by apply wp_ret.
  - assert (Hping : op = zvar_websocketd_type_ping -> zlen p <= 125) by lia.
    destruct (eof (ws_fp ws)) eqn:Heof; [by eapply send_at_end_spec|by apply (send_data_spec ws inp out data len p)].
Qed.
End theorems.

(** Sending messages, each with its opcode, and stopping at a failure. *)
Fixpoint send_frames {E} `{!Engine E} (msgs : list (Z * list Z)) : St (zwebsocketd E) Z :=
  match msgs with
  | [] => mret 1
  | (op, p) :: msgs' => r ← zwebsocketd_send_data_with_opcode p (zlen p) op; if r <? 1 then mret (-1) else send_frames msgs'
  end.
Definition ws_message_ok (fuel : nat) (m : Z * list Z) : Prop :=
  1 <= m.1 < 16 /\ bytes_ok m.2 /\ zlen m.2 < 2 ^ 31 /\ zlen m.2 < Z.of_nat fuel /\ (m.1 = zvar_websocketd_type_ping -> zlen m.2 <= 125).
Definition frame_of (m : Z * list Z) : Z * option (list Z) * list Z := (128 + m.1, None, m.2).

Lemma land_opcode op : 0 <= op < 16 -> Z.land (128 + op) 15 = op.
Proof. intros Hop. change 15 with (Z.ones 4). rewrite Z.land_ones by lia. zdiv. Qed.
Lemma decode_frame_of fuel msgs : Forall (ws_message_ok fuel) msgs -> forall cont, decode cont (frame_of <$> msgs) = msgs.
Proof.
  induction 1 as [|[op p] msgs (Hop & _) _ IH]; intros cont; [done|]. rewrite fmap_cons. cbn [frame_of decode fst snd] in *.
  rewrite land_opcode by lia. destruct (Z.eqb_spec op 0); [lia|]. by rewrite IH.
Qed.
Lemma frame_of_ok fuel m : ws_message_ok fuel m -> frame_ok (frame_of m) /\ zlen (frame_of m).2 < Z.of_nat fuel.
Proof. intros (? & ? & ? & ? & _). cbn. unfold byte_ok. split; [split; [lia|split; [done|lia]]|done]. Qed.
Lemma send_frames_spec {E} `{!Engine E, !EngineLaws E} fuel msgs : Forall (ws_message_ok fuel) msgs ->
  forall (ws : zwebsocketd E) inp out, srep (ws_fp ws) inp out -> eof (ws_fp ws) = false -> sent (ioctx (ws_fp ws)) = out ->
  wp (send_frames msgs) ws (fun r ws' => r = -1 /\ error (ws_fp ws') = true \/
    r = 1 /\ sent (ioctx (ws_fp ws')) = out ++ concat (frame_data <$> (frame_of <$> msgs))).
Proof.
  induction 1 as [|[op p] msgs (Hop & Hb & Hp & _ & Hping) _ IH]; intros ws inp out Hs Heof Hsent.
  { apply wp_ret. right. split; [done|]. cbn. by rewrite app_nil_r. }
  cbn [send_frames fst snd] in *. apply wp_bind. eapply wp_mono.
  { apply (send_data_spec ws inp out p (zlen p) p op Hs Heof); [apply in_bytes_full|done|done|lia|done]. }
  intros r ws1 (fp1 & -> & [[Hr1 _ (y & Hs1 & Hy)] Hse]). pose proof (rs_eof _ _ Hr1) as Ee. rewrite Heof in Ee.
  destruct (error fp1) eqn:Eerr.
  { subst r. cbn [Z.ltb Z.compare]. apply wp_ret. by left. }
  destruct Hse as [-> Hse]. cbn [Z.ltb Z.compare Pos.compare Pos.compare_cont]. rewrite Hy in Hs1 by (by rewrite Ee).
  eapply wp_mono; [by apply (IH (set_fp ws fp1) inp (out ++ frame_data (128 + op, None, p)))|].
  intros r ws2 [?|[-> E2]]; [by left|]. right. split; [done|]. rewrite !fmap_cons. cbn [concat]. by rewrite E2, <- app_assoc.
Qed.

(** C11: messages through two websockets. If the answer is 1, then at a server at whose engine
    just the bytes sent arrive, in pieces of any sizes and with anything behind them, the messages
    come back with their opcodes. *)
Theorem zwebsocketd_round_trip {E1 E2} `{!Engine E1, !EngineLaws E1, !Engine E2, !EngineLaws E2, !Faithful E2}
    (msgs : list (Z * list Z)) (e1 : E1) (fuel : nat) (size : Z) :
  Forall (ws_message_ok fuel) msgs -> sent e1 = [] -> 0 < size < int_max ->
  wp (send_frames msgs) (zwebsocketd_open (zstream_open e1)) (fun r w => (r = 1 \/ r = -1 /\ error (ws_fp w) = true) /\
    (r = 1 -> forall (e2 : E2) rest, got e2 = [] -> total e2 = sent (ioctx (ws_fp w)) ++ rest ->
       wp (recv_frames (length msgs) fuel size) (zwebsocketd_open (zstream_open e2)) (fun xs _ => xs = msgs))).
Proof.
  intros Hok He1 Hsize. pose proof (open_srep e1) as Hs. rewrite He1 in Hs. eapply wp_mono.
  { by apply (send_frames_spec fuel msgs Hok (zwebsocketd_open (zstream_open e1)) (got e1) []). }
  intros r w H. split; [destruct H as [[-> ?]|[-> _]]; [by right|by left]|]. intros -> e2 rest Hg Ht. destruct H as [[? _]|[_ Hse]]; [done|]. rewrite Hse in Ht.
  pose proof (open_srep e2) as Hs2. rewrite Hg in Hs2. rewrite <- (length_fmap frame_of msgs). eapply wp_mono.
  { apply (recv_frames_spec (frame_of <$> msgs) rest fuel size Hsize (zwebsocketd_open (zstream_open e2)) [] (sent e2) Hs2); [done| |exact Ht].
    apply Forall_fmap. eapply Forall_impl; [exact Hok|]. intros m. apply frame_of_ok. }
  intros xs ws' [-> _]. by eapply decode_frame_of.
Qed.

(** ** Examples *)

(** A length of 2^63 or more leaves the range of a [long]. *)
Example payload_len_overflow : payload_loop 8 0 0 (Some <$> replicate 8 255) = None.
Proof. reflexivity. Qed.
(** A masked text in two frames, in four pieces. *)
Definition ex_key : list Z := [55; 250; 33; 61].
Definition ex_frames : list (Z * option (list Z) * list Z) := [(1, Some ex_key, str "Hel"); (128, Some ex_key, str "lo")].
Definition ex_wire : list Z := concat (frame_data <$> ex_frames).
Definition ex_server : zwebsocketd script :=
  zwebsocketd_open (zstream_open (script_of [take 1 ex_wire; take 8 (drop 1 ex_wire); []; drop 9 ex_wire] 0)).
Lemma zwebsocketd_reads_frames_witness : wp (recv_frames 2 5 2) ex_server (fun xs ws' =>
  xs = [(1, str "Hel"); (1, str "lo")] /\ srep (ws_fp ws') ex_wire []).
Proof.
  apply (zwebsocketd_reads_frames ex_server [] [] ex_frames [] 5 2); [apply script_srep|done| |done|by vm_compute].
  repeat constructor; by vm_compute.
Defined.
Lemma zwebsocketd_sends_witness :
  wp (zwebsocketd_send_data_with_opcode (str "hi") 2 1) (zwebsocketd_open (zstream_open (script_of [] 1)))
    (fun r ws' => exists fp', ws' = set_fp (zwebsocketd_open (zstream_open (script_of [] 1))) fp' /\
      pushed [] [] (zstream_open (script_of [] 1)) [129; 2; 104; 105] r fp') /\
  wp (zwebsocketd_send_data_with_opcode (str "hi") 2 1) (zwebsocketd_open ended)
    (fun r ws' => exists fp', ws' = set_fp (zwebsocketd_open ended) fp' /\ cut_short [] [129; 104] r fp').
Proof.
  split.
  - apply (zwebsocketd_sends (zwebsocketd_open (zstream_open (script_of [] 1))) [] [] (str "hi") 2 (str "hi") 1);
      [apply script_srep|done|by repeat constructor|done|done].
  - apply (zwebsocketd_sends (zwebsocketd_open ended) [] [] (str "hi") 2 (str "hi") 1);
      [exact ended_srep|done|by repeat constructor|done|done].
Defined.
Definition ex_ws_msgs : list (Z * list Z) := [(1, str "ping"); (2, []); (9, str "x")].
Lemma zwebsocketd_round_trip_witness :
  wp (send_frames ex_ws_msgs) (zwebsocketd_open (zstream_open (script_of [] 2))) (fun r w => (r = 1 \/ r = -1 /\ error (ws_fp w) = true) /\
    (r = 1 -> forall (e2 : script) rest, got e2 = [] -> total e2 = sent (ioctx (ws_fp w)) ++ rest ->
       wp (recv_frames 3 5 4) (zwebsocketd_open (zstream_open e2)) (fun xs _ => xs = ex_ws_msgs))).
Proof.
  apply (zwebsocketd_round_trip (E2 := script) ex_ws_msgs (script_of [] 2) 5 4); [|done|done].
  repeat constructor; by vm_compute.
Defined.
