(* ===== verification/Msearch.v ===== *)
(** * Search for many words at once: src/search/msearch.c

    The builder collects words in two maps and in flags per byte; then it writes
    tables into a block that grows, which becomes the engine: what a search and
    a walk read, and what a file holds. A pointer into a block is an offset.
    Numbers in the block are those of the machine, little-endian; that they need
    not be aligned is left to the processor. [zfatal] ends the process: [None]. *)
From S2P Require Import Prelude Text StateMonad Keyed Maps.

(** ** Blocks *)
Fixpoint le_bytes (k : nat) (n : Z) : list Z :=
  match k with O => [] | S k' => n mod 256 :: le_bytes k' (n / 256) end.
Fixpoint le_value (x : list Z) : Z := match x with [] => 0 | c :: x' => c + 256 * le_value x' end.
Definition get_bytes (m : list Z) (p n : Z) : option (list Z) :=
  if (0 <=? p) && (0 <=? n) && (p + n <=? zlen m) then Some (take (Z.to_nat n) (drop (Z.to_nat p) m)) else None.
Definition set_bytes (m : list Z) (p : Z) (x : list Z) : option (list Z) :=
  if (0 <=? p) && (p + zlen x <=? zlen m)
  then Some (take (Z.to_nat p) m ++ x ++ drop (Z.to_nat (p + zlen x)) m) else None.
(** A number of [k] bytes: a [short] or an [int]. *)
Definition get_num (k : nat) (m : list Z) (p : Z) : option Z :=
  x ← get_bytes m p (Z.of_nat k); Some (swrap (8 * Z.of_nat k) (le_value x)).
Definition set_num (k : nat) (m : list Z) (p v : Z) : option (list Z) :=
  set_bytes m p (le_bytes k (uwrap (8 * Z.of_nat k) v)).
Abbreviation get_int := (get_num 4).
Abbreviation get_short := (get_num 2).
Abbreviation set_int := (set_num 4).
Abbreviation set_short := (set_num 2).

(** ** The structures *)
Definition _MAX_LINE_SIZE : Z := 4096.
Definition _CODE_ID : list Z := str "ZMSH".
Definition _CODE_VERSION : list Z := [0; 1; 0; 1].

(** [zmsearch_engine_t]: where its fields are. *)
Definition at_data_len : Z := 8.
Definition at_a_data : Z := 12.
Definition at_ab_data_offset : Z := 268.
Definition at_ab_size : Z := 272.
Definition at_abc_data_offset : Z := 276.
Definition at_abc_size : Z := 280.
Definition engine_size : Z := 284.

Section msearch.
Context `{!Allocator}.
Abbreviation zmap_t := (kvstate (list Z) Z).

(** [zmsearch_builder_t]; [bl_mem] are the [mem_len] bytes in use of [mem_data],
    those behind are never read. [tmpkey] is written before each use. *)
Record zmsearch_builder := mk_zmsearch_builder {
  bl_a_data : list Z; bl_ab : zmap_t; bl_abc : zmap_t; bl_mem : list Z; bl_capability : Z
}.
(** [builder]: NULL, a structure, or the marks -1 and -2 for an engine from memory
    or from a file. *)
Inductive ms_builder := BNull | BOwn (b : zmsearch_builder) | BData | BFile.
Record zmsearch := mk_zmsearch { ms_engine : option (list Z); ms_build : ms_builder }.

Definition zmsearch_create : zmsearch :=
  mk_zmsearch None (BOwn (mk_zmsearch_builder (replicate 256 0) zmap_create zmap_create [] 0)).

Abbreviation BM := (St zmsearch_builder).
Definition on_ab {A} : St zmap_t A -> BM A :=
  focus bl_ab (fun b s => mk_zmsearch_builder (bl_a_data b) s (bl_abc b) (bl_mem b) (bl_capability b)).
Definition on_abc {A} : St zmap_t A -> BM A :=
  focus bl_abc (fun b s => mk_zmsearch_builder (bl_a_data b) (bl_ab b) s (bl_mem b) (bl_capability b)).
Definition set_mem (b : zmsearch_builder) (m : list Z) (capability : Z) : zmsearch_builder :=
  mk_zmsearch_builder (bl_a_data b) (bl_ab b) (bl_abc b) m capability.
Definition mem_get {A} (f : list Z -> option A) : BM A := b ← gets id; of_option (f (bl_mem b)).
Definition mem_set (f : list Z -> option (list Z)) : BM unit :=
  m ← mem_get f; modify (fun b => set_mem b m (bl_capability b)).
(** With the builder of [ms]; the marks are no addresses. *)
Definition with_builder {A} (m : BM A) : St zmsearch A :=
  ms ← gets id;
  match ms_build ms with
  | BOwn b => r ← of_option (m b); modify (fun ms => mk_zmsearch (ms_engine ms) (BOwn (snd r)));; mret (fst r)
  | _ => undefined
  end.

(** ** Words *)

(** [builder->a_data[c] |= bit] *)
Definition a_data_or (c bit : Z) : BM unit :=
  b ← gets id;
  a ← of_option (x ← rd (bl_a_data b) c; wr (bl_a_data b) c (Z.lor x bit));
  modify (fun b => mk_zmsearch_builder a (bl_ab b) (bl_abc b) (bl_mem b) (bl_capability b)).
Definition zmsearch_add_token (word : list Z) (len : Z) : St zmsearch unit :=
  with_builder (
    len ← of_option (if len <? 0 then s32 <$> (zlen <$> cstr word) else Some len);
    if len <? 1 then skip else
    if _MAX_LINE_SIZE <? len then skip else
    data ← of_option (get_bytes word 0 len);
    if len =? 1 then
      c0 ← of_option (rd data 0); a_data_or c0 1
    else if len =? 2 then
      c0 ← of_option (rd data 0); a_data_or c0 2;;
      c1 ← of_option (rd data 1); a_data_or c1 4;;
      key ← of_option (cstr (data ++ [0])); on_ab (zmap_update key 0);; skip
    else
      c0 ← of_option (rd data 0); a_data_or c0 8;;
      c1 ← of_option (rd data 1); a_data_or c1 16;;
      c2 ← of_option (rd data 2); a_data_or c2 32;;
      key ← of_option (cstr (data ++ [0])); on_abc (zmap_update key 0);; skip).

(** ** Building the engine *)

(** [while (mem_capability - mem_len < len)] *)
Fixpoint grow_capability (fuel : nat) (capability mem_len len : Z) : option Z :=
  match fuel with
  | O => None
  | S fuel' =>
      if len <=? capability - mem_len then Some capability else
      capability ← as_int (2 * capability + 1); grow_capability fuel' capability mem_len len
  end.
(** The offset, and whether the block may have moved. *)
Definition _mem_malloc (len : Z) : BM (Z * bool) :=
  b ← gets id;
  let mem_len := zlen (bl_mem b) in
  capability ← of_option (grow_capability 32 (bl_capability b) mem_len len);
  let changed := negb (capability =? bl_capability b) in
  (if changed then of_option (as_int (capability + 1));; skip else skip : BM unit);;
  if len <? 0 then undefined else
  of_option (as_int (mem_len + len));;
  modify (fun b => set_mem b (bl_mem b ++ replicate (Z.to_nat len) 0) capability);;
  mret (mem_len, changed).

(** [word[i]] as an [unsigned char], and the hashes. *)
Definition word_at (word : list Z) (i : Z) : option Z := rd (word ++ [0]) i.
Definition hash2 (word : list Z) : option Z :=
  c0 ← word_at word 0; c1 ← word_at word 1; Some (Z.shiftl c0 8 + c1).
Definition hash3 (word : list Z) : option Z :=
  c0 ← word_at word 0; c1 ← word_at word 1; c2 ← word_at word 2; Some (Z.shiftl (Z.shiftl c0 8 + c1) 8 + c2).

(** The passes over the tables of pairs and of longer words: [field] holds the
    offset of the table, [hw] is the size of a bucket's counter, [iw] of its items. *)
Definition slot (field size i : Z) : BM Z :=
  if size =? 0 then undefined else base ← mem_get (fun m => get_int m field); mret (base + 4 * (i mod size)).
Fixpoint count_walk (hash : list Z -> option Z) (field size : Z) (words : list (list Z * Z)) : BM unit :=
  match words with
  | [] => skip
  | (word, _) :: words' =>
      hv ← of_option (hash word);
      p ← slot field size hv;
      c ← mem_get (fun m => get_int m p);
      c ← of_option (as_int (c + 1));
      mem_set (fun m => set_int m p c);;
      count_walk hash field size words'
  end.
(** The table is written through a pointer taken before the block may move. *)
Fixpoint alloc_loop (n : nat) (hw iw field i : Z) : BM unit :=
  match n with
  | O => skip
  | S n' =>
      base ← mem_get (fun m => get_int m field);
      let p := base + 4 * i in
      c ← mem_get (fun m => get_int m p);
      (if c =? 0 then skip else
       r ← _mem_malloc (s32 (hw + iw * c));
       if (snd r : bool) then undefined else
       mem_set (fun m => set_int m p (fst r));;
       mem_set (fun m => set_num (Z.to_nat hw) m (fst r) 0) : BM unit);;
      alloc_loop n' hw iw field (i + 1)
  end.
Fixpoint fill_pairs (size : Z) (words : list (list Z * Z)) : BM unit :=
  match words with
  | [] => skip
  | (word, _) :: words' =>
      hv ← of_option (hash2 word);
      p ← slot at_ab_data_offset size hv;
      s ← mem_get (fun m => get_int m p);
      i ← mem_get (fun m => get_short m s);
      c0 ← of_option (word_at word 0);
      c1 ← of_option (word_at word 1);
      mem_set (fun m => set_bytes m (s + 2 + 2 * i) [c0; c1]);;
      mem_set (fun m => set_short m s (i + 1));;
      fill_pairs size words'
  end.
Fixpoint fill_long (size : Z) (words : list (list Z * Z)) : BM unit :=
  match words with
  | [] => skip
  | (word, _) :: words' =>
      hv ← of_option (hash3 word);
      let len := s32 (zlen word) in
      r ← _mem_malloc (s32 (2 + len));
      let offset := fst r in
      p ← slot at_abc_data_offset size hv;
      s ← mem_get (fun m => get_int m p);
      i ← mem_get (fun m => get_int m s);
      mem_set (fun m => set_int m (s + 4 + 4 * i) offset);;
      mem_set (fun m => set_short m offset len);;
      x ← of_option (get_bytes (word ++ [0]) 0 len);
      mem_set (fun m => set_bytes m (offset + 2) x);;
      s ← mem_get (fun m => get_int m p);
      i ← mem_get (fun m => get_int m s);
      i ← of_option (as_int (i + 1));
      mem_set (fun m => set_int m s i);;
      fill_long size words'
  end.

Definition zmsearch_add_over_1 : BM unit :=
  modify (fun b => set_mem b [] (1024 * 1024));;
  _mem_malloc engine_size;;
  b ← gets id;
  mem_set (fun m => set_bytes m at_a_data (bl_a_data b)).
Definition zmsearch_add_over_2 : BM unit :=
  size ← on_ab zmap_len;
  if size =? 0 then skip else
  size ← of_option (as_int (2 * size + 1));
  mem_set (fun m => set_int m at_ab_size size);;
  r ← _mem_malloc (s32 (4 * size));
  if (snd r : bool) then undefined else
  mem_set (fun m => set_int m at_ab_data_offset (fst r));;
  words ← on_ab ZMAP_NODE_WALK;
  count_walk hash2 at_ab_data_offset size words;;
  alloc_loop (Z.to_nat size) 2 2 at_ab_data_offset 0;;
  words ← on_ab ZMAP_NODE_WALK;
  fill_pairs size words.
(** Words that begin with another go to [del_keys_map]. *)
Fixpoint clear_walk (last : option (list Z)) (words : list (list Z * Z)) : St zmap_t unit :=
  match words with
  | [] => skip
  | (word, _) :: words' =>
      match last with
      | None => clear_walk (Some word) words'
      | Some l =>
          r ← of_option (strncmp (l ++ [0]) (word ++ [0]) (length l));
          if r =? 0 then zmap_update word 0;; clear_walk last words' else clear_walk (Some word) words'
      end
  end.
Fixpoint delete_walk (words : list (list Z * Z)) : BM unit :=
  match words with
  | [] => skip
  | (word, _) :: words' => on_abc (zmap_delete word);; delete_walk words'
  end.
Definition zmsearch_add_over_3_clear : BM unit :=
  size ← on_abc zmap_len;
  if size =? 0 then skip else
  words ← on_abc ZMAP_NODE_WALK;
  del ← of_option (clear_walk None words zmap_create);
  dels ← of_option (ZMAP_NODE_WALK (snd del));
  delete_walk (fst dels);;
  of_option (zmap_free (snd dels));;
  skip.
Definition zmsearch_add_over_3 : BM unit :=
  size ← on_abc zmap_len;
  if size =? 0 then skip else
  size ← of_option (as_int (2 * size + 1));
  mem_set (fun m => set_int m at_abc_size size);;
  r ← _mem_malloc (s32 (4 * size));
  mem_set (fun m => set_int m at_abc_data_offset (fst r));;
  words ← on_abc ZMAP_NODE_WALK;
  count_walk hash3 at_abc_data_offset size words;;
  alloc_loop (Z.to_nat size) 4 4 at_abc_data_offset 0;;
  words ← on_abc ZMAP_NODE_WALK;
  fill_long size words.
(** The engine is a copy, with a NUL behind it ([zmemdupnull]). *)
Definition zmsearch_add_over_finished : BM (list Z) :=
  b ← gets id;
  on_ab zmap_free;; on_abc zmap_free;;
  of_option (
    m ← set_int (bl_mem b ++ [0]) at_data_len (zlen (bl_mem b));
    m ← set_bytes m 0 _CODE_ID;
    set_bytes m 4 _CODE_VERSION).
Definition zmsearch_add_over : St zmsearch unit :=
  engine ← with_builder (zmsearch_add_over_1;; zmsearch_add_over_2;; zmsearch_add_over_3_clear;; zmsearch_add_over_3;;
    zmsearch_add_over_finished);
  modify (fun _ => mk_zmsearch (Some engine) BNull).

(** ** Searching *)
Definition a_data (engine : list Z) (c : Z) : option Z := rd engine (at_a_data + c).
(** [while (sti < edi)]: the ends move by one. *)
Fixpoint search_pair (fuel : nat) (engine : list Z) (the_data hv sti edi : Z) : option bool :=
  match fuel with
  | O => None
  | S fuel' =>
      if edi <=? sti then Some false else
      let mdi := (sti + edi) / 2 in
      v0 ← rd engine (the_data + 2 * mdi);
      v1 ← rd engine (the_data + (2 * mdi + 1));
      let v := Z.shiftl v0 8 + v1 in
      if hv =? v then Some true
      else if hv <? v then search_pair fuel' engine the_data hv sti (edi - 1)
      else search_pair fuel' engine the_data hv (sti + 1) edi
  end.
(** [memcmp(ps, tdata, n)] of two blocks. *)
Definition memcmp_at (a : list Z) (p : Z) (b : list Z) (q n : Z) : option Z :=
  x ← get_bytes a p n; y ← get_bytes b q n; Some (strcmp x y).
Fixpoint search_long (fuel : nat) (engine text : list Z) (i plen the_int_data sti edi : Z) : option (option Z) :=
  match fuel with
  | O => None
  | S fuel' =>
      if edi <=? sti then Some None else
      let mdi := (sti + edi) / 2 in
      token ← get_int engine (the_int_data + 4 * mdi);
      tlen ← get_short engine token;
      if plen <? tlen then
        r ← memcmp_at text i engine (token + 2) plen;
        if r <=? 0 then search_long fuel' engine text i plen the_int_data sti mdi
        else search_long fuel' engine text i plen the_int_data (mdi + 1) edi
      else
        r ← memcmp_at text i engine (token + 2) tlen;
        if r =? 0 then Some (Some tlen)
        else if r <? 0 then search_long fuel' engine text i plen the_int_data sti mdi
        else search_long fuel' engine text i plen the_int_data (mdi + 1) edi
  end.
Definition bit (x b : Z) : bool := negb (Z.land x b =? 0).
(** The first loop of a position: a pair. *)
Definition match_pair (engine text : list Z) (i plen firstch : Z) : option bool :=
  if negb ((1 <? plen) && bit firstch 2) then Some false else
  c0 ← rd text i;
  c1 ← rd text (i + 1);
  x ← a_data engine c1;
  if negb (bit x 4) then Some false else
  let hv := Z.shiftl c0 8 + c1 in
  ab_offset ← get_int engine at_ab_data_offset;
  ab_size ← get_int engine at_ab_size;
  if ab_size =? 0 then None else
  off ← get_int engine (ab_offset + 4 * (hv mod ab_size));
  if off =? 0 then Some false else
  edi ← get_short engine off;
  search_pair (S (Z.to_nat edi)) engine (off + 2) hv 0 edi.
(** The second: a longer word, its length. *)
Definition match_long (engine text : list Z) (i plen firstch : Z) : option (option Z) :=
  if negb ((2 <? plen) && bit firstch 8) then Some None else
  c0 ← rd text i;
  c1 ← rd text (i + 1);
  x ← a_data engine c1;
  if negb (bit x 16) then Some None else
  c2 ← rd text (i + 2);
  x ← a_data engine c2;
  if negb (bit x 32) then Some None else
  let hv := Z.shiftl (Z.shiftl c0 8 + c1) 8 + c2 in
  abc_offset ← get_int engine at_abc_data_offset;
  abc_size ← get_int engine at_abc_size;
  if abc_size =? 0 then None else
  off ← get_int engine (abc_offset + 4 * (hv mod abc_size));
  if off =? 0 then Some None else
  edi ← get_int engine off;
  search_long (S (Z.to_nat edi)) engine text i plen (off + 4) 0 edi.
(** The answer, and [*matched_len] when it is written. *)
Definition match_here (engine text : list Z) (i len : Z) : option (option (Z * Z)) :=
  let plen := len - i in
  c0 ← rd text i;
  firstch ← a_data engine c0;
  if bit firstch 1 then Some (Some (1, 1)) else
  found ← match_pair engine text i plen firstch;
  if found : bool then Some (Some (2, 2)) else
  long ← match_long engine text i plen firstch;
  Some (match long with Some n => Some (1, n) | None => None end).
(** [matched_ptr] is an offset in [text]; it is written at every position. *)
Fixpoint match_loop (n : nat) (engine text : list Z) (i len : Z) (matched_ptr : option Z) :
    option (Z * option Z * option Z) :=
  match n with
  | O => Some (0, matched_ptr, None)
  | S n' =>
      r ← match_here engine text i len;
      match r with
      | Some (ret, tlen) => Some (ret, Some i, Some tlen)
      | None => match_loop n' engine text (i + 1) len (Some i)
      end
  end.
Definition zmsearch_match (ms : zmsearch) (text : list Z) (len : Z) : option (Z * option Z * option Z) :=
  len ← (if len <? 0 then s32 <$> (zlen <$> cstr text) else Some len);
  if len <? 1 then Some (0, None, None) else
  engine ← ms_engine ms;
  match_loop (Z.to_nat len) engine text 0 len None.

(** ** Files and blocks *)

(** [fgets(buf, n + 1, fp)]: what is read, and the rest. *)
Fixpoint fgets (n : nat) (x : list Z) : list Z * list Z :=
  match n, x with
  | O, _ => ([], x)
  | _, [] => ([], [])
  | S n', c :: x' => if c =? 10 then ([c], x') else let '(l, rest) := fgets n' x' in (c :: l, rest)
  end.
Fixpoint add_lines (fuel : nat) (x : list Z) : St zmsearch unit :=
  match fuel with
  | O => undefined
  | S fuel' =>
      match fgets 4095 x with
      | ([], _) => skip
      | (line, rest) =>
          r ← of_option (ztrim (line ++ [0]) 0);
          let ps := drop (Z.to_nat (snd r)) (fst r) in
          c ← of_option (rd ps 0);
          (if c =? 0 then skip else
           h ← of_option (strncmp ps [35; 35; 35; 0] 3);
           if h =? 0 then skip else zmsearch_add_token ps (-1));;
          add_lines fuel' rest
      end
  end.
(** [file]: the contents, when it can be opened. *)
Definition zmsearch_add_token_from_pathname (file : option (list Z)) : St zmsearch Z :=
  match file with
  | None => mret (-1)
  | Some x => add_lines (S (length x)) x;; mret 1
  end.
Definition code_ok (data : list Z) : option bool :=
  id ← get_bytes data 0 4;
  if negb (bool_decide (id = _CODE_ID)) then Some false else
  v ← get_bytes data 4 4;
  Some (bool_decide (v = _CODE_VERSION)).
(** The inner option is NULL. *)
Definition zmsearch_create_from_data (data : list Z) : option (option zmsearch) :=
  ok ← code_ok data;
  Some (if ok : bool then Some (mk_zmsearch (Some data) BData) else None).
(** [file]: the contents [zmmap_reader_init] maps, when the file can be mapped. *)
Definition zmsearch_create_from_pathname (file : option (list Z)) : option (option zmsearch) :=
  match file with
  | None => Some None
  | Some data =>
      if zlen data <? 8 then Some None else
      ok ← code_ok data;
      Some (if ok : bool then Some (mk_zmsearch (Some data) BFile) else None)
  end.
Definition zmsearch_get_compiled_data (ms : zmsearch) : option (list Z) := ms_engine ms.
Definition zmsearch_get_compiled_len (ms : zmsearch) : option Z :=
  match ms_engine ms with None => Some 0 | Some engine => get_int engine at_data_len end.
(** [put_contents] writes a file, its result is that of [zfile_put_contents]. *)
Definition zmsearch_build (put_contents : list Z -> Z) (ms : zmsearch) : option Z :=
  engine ← ms_engine ms;
  len ← get_int engine at_data_len;
  x ← get_bytes engine 0 len;
  Some (put_contents x).

(** ** Walking *)

(** [zmsearch_walker_t] beside its [ms]; [abc[c]] is [c]. *)
Record zmsearch_walker := mk_zmsearch_walker { wk_stage : Z; wk_hv : Z; wk_idx : Z }.
Definition zmsearch_walker_create : zmsearch_walker := mk_zmsearch_walker 0 0 0.
Definition zmsearch_walker_reset (_ : zmsearch_walker) : zmsearch_walker := mk_zmsearch_walker 0 0 0.

(** A token and the walker after it; [None]: the stage is over. *)
Fixpoint walk_bytes (n : nat) (engine : list Z) (hv : Z) : option (option (Z * Z)) :=
  match n with
  | O => Some None
  | S n' => x ← a_data engine hv; if bit x 1 then Some (Some (hv, hv + 1)) else walk_bytes n' engine (hv + 1)
  end.
(** The token, the bucket, and the index of the next. The index starts anew behind an
    empty bucket, and not behind another. *)
Fixpoint walk_pairs (n : nat) (engine : list Z) (base hv idx : Z) : option (option (list Z * Z * Z)) :=
  match n with
  | O => Some None
  | S n' =>
      off ← get_int engine (base + 4 * hv);
      if off =? 0 then walk_pairs n' engine base (hv + 1) 0 else
      edi ← get_short engine off;
      if idx <? edi then t ← get_bytes engine (off + 2 + 2 * idx) 2; Some (Some (t, hv, idx + 1))
      else walk_pairs n' engine base (hv + 1) idx
  end.
Fixpoint walk_long (n : nat) (engine : list Z) (base hv idx : Z) : option (option (list Z * Z * Z)) :=
  match n with
  | O => Some None
  | S n' =>
      off ← get_int engine (base + 4 * hv);
      if off =? 0 then walk_long n' engine base (hv + 1) 0 else
      edi ← get_int engine off;
      if idx <? edi then
        p ← get_int engine (off + 4 + 4 * idx);
        tlen ← get_short engine p;
        t ← get_bytes engine (p + 2) tlen;
        Some (Some (t, hv, idx + 1))
      else walk_long n' engine base (hv + 1) 0
  end.
(** The token, when the answer is 1. *)
Definition walk_stage3 (engine : list Z) (w : zmsearch_walker) : option (option (list Z) * zmsearch_walker) :=
  if negb (wk_stage w =? 3) then Some (None, w) else
  abc_offset ← get_int engine at_abc_data_offset;
  abc_size ← get_int engine at_abc_size;
  r ← walk_long (Z.to_nat (abc_size - wk_hv w)) engine abc_offset (wk_hv w) (wk_idx w);
  Some (match r with
        | Some (t, hv, idx) => (Some t, mk_zmsearch_walker 3 hv idx)
        | None => (None, mk_zmsearch_walker (-1) (wk_hv w) 0)
        end).
Definition walk_stage1 (engine : list Z) (w : zmsearch_walker) : option (option (list Z) * zmsearch_walker) :=
  if negb (wk_stage w =? 1) then walk_stage3 engine w else
  ab_offset ← get_int engine at_ab_data_offset;
  ab_size ← get_int engine at_ab_size;
  r ← walk_pairs (Z.to_nat (ab_size - wk_hv w)) engine ab_offset (wk_hv w) (wk_idx w);
  match r with
  | Some (t, hv, idx) => Some (Some t, mk_zmsearch_walker 1 hv idx)
  | None => walk_stage3 engine (mk_zmsearch_walker 3 0 0)
  end.
Definition zmsearch_walker_walk (ms : zmsearch) (w : zmsearch_walker) : option (option (list Z) * zmsearch_walker) :=
  engine ← ms_engine ms;
  if negb (wk_stage w =? 0) then walk_stage1 engine w else
  r ← walk_bytes (Z.to_nat (256 - wk_hv w)) engine (wk_hv w);
  match r with
  | Some (c, hv) => Some (Some [c], mk_zmsearch_walker 0 hv (wk_idx w))
  | None => walk_stage1 engine (mk_zmsearch_walker 1 0 0)
  end.
End msearch.
