(* ===== verification/MsearchMem.v ===== *)
(** * Search for many words: numbers, tables and buckets in a block *)
From stdpp Require Import sorting.
From S2P Require Import Prelude StateMonad Keyed Maps Msearch.

(** ** Numbers *)
Lemma le_len k : forall n, length (le_bytes k n) = k.
Proof. induction k as [|k IH]; intros n; [done|]. cbn. by rewrite IH. Qed.
Lemma zlen_le k n : zlen (le_bytes k n) = Z.of_nat k.
Proof. unfold zlen. by rewrite le_len. Qed.
Lemma le_value_bytes k : forall n, 0 <= n < 256 ^ Z.of_nat k -> le_value (le_bytes k n) = n.
Proof.
  induction k as [|k IH]; intros n Hn; [cbn in *; lia|]. rewrite Nat2Z.inj_succ, Z.pow_succ_r in Hn by lia.
  cbn [le_bytes le_value]. rewrite IH by zdiv. zdiv.
Qed.
Lemma pow_256 k : 256 ^ Z.of_nat k = 2 ^ (8 * Z.of_nat k).
Proof. rewrite Z.pow_mul_r by lia. done. Qed.
Lemma le_zeros k : le_bytes k 0 = replicate k 0.
Proof. induction k as [|k IH]; [done|]. cbn [le_bytes replicate]. change (0 / 256) with 0. by rewrite IH. Qed.

(** The bytes [x] at [p], with [a] in front of them and [b] behind. *)
Lemma get_bytes_at a x b p n : p = zlen a -> n = zlen x -> get_bytes (a ++ x ++ b) p n = Some x.
Proof.
  intros -> ->. zlen_facts. unfold get_bytes. destruct (Z.leb_spec 0 (zlen a)), (Z.leb_spec 0 (zlen x)); [|lia..].
  destruct (Z.leb_spec (zlen a + zlen x) (zlen (a ++ x ++ b))); [|zlia]. cbn [andb].
  by rewrite !zlen_to_nat, drop_app_length, take_app_length.
Qed.
Lemma set_bytes_at a x y b p : p = zlen a -> zlen y = zlen x -> set_bytes (a ++ x ++ b) p y = Some (a ++ y ++ b).
Proof.
  intros -> Hy. zlen_facts. unfold set_bytes. destruct (Z.leb_spec 0 (zlen a)); [|lia].
  destruct (Z.leb_spec (zlen a + zlen y) (zlen (a ++ x ++ b))); [|zlia]. cbn [andb].
  assert (E : drop (Z.to_nat (zlen a + zlen x)) (a ++ x ++ b) = b).
  { rewrite <- zlen_app, zlen_to_nat, app_assoc. apply drop_app_length. }
  by rewrite Hy, E, zlen_to_nat, take_app_length.
Qed.
Lemma get_num_at k a n b p : p = zlen a -> (0 < k)%nat -> 0 <= n < 2 ^ (8 * Z.of_nat k - 1) ->
  get_num k (a ++ le_bytes k n ++ b) p = Some n.
Proof.
  intros Hp Hk Hn. unfold get_num. rewrite get_bytes_at by (done || by rewrite zlen_le). cbn [mbind option_bind].
  assert (2 ^ (8 * Z.of_nat k) = 2 * 2 ^ (8 * Z.of_nat k - 1)).
  { rewrite <- Z.pow_succ_r by lia. f_equal. lia. }
  rewrite le_value_bytes by (rewrite pow_256; lia). by rewrite swrap_small by lia.
Qed.
Lemma set_num_at k a x b p v : p = zlen a -> length x = k -> 0 <= v < 2 ^ (8 * Z.of_nat k) ->
  set_num k (a ++ x ++ b) p v = Some (a ++ le_bytes k v ++ b).
Proof.
  intros Hp Hx Hv. unfold set_num. rewrite uwrap_small by done. apply set_bytes_at; [done|]. unfold zlen. by rewrite le_len, Hx.
Qed.
Lemma get_bytes_front m r p n x : get_bytes m p n = Some x -> get_bytes (m ++ r) p n = Some x.
Proof.
  unfold get_bytes. destruct (Z.leb_spec 0 p), (Z.leb_spec 0 n), (Z.leb_spec (p + n) (zlen m)); try done. cbn [andb]. intros [= <-].
  zlen_facts. destruct (Z.leb_spec (p + n) (zlen (m ++ r))); [|zlia]. f_equal.
  rewrite drop_app_le by (unfold zlen in *; lia). rewrite take_app_le; [done|]. rewrite length_drop. unfold zlen in *. lia.
Qed.
Lemma get_num_front k m r p v : get_num k m p = Some v -> get_num k (m ++ r) p = Some v.
Proof.
  unfold get_num. destruct (get_bytes m p (Z.of_nat k)) as [x|] eqn:E; [|done]. by rewrite (get_bytes_front _ _ _ _ _ E).
Qed.

(** ** Tables of integers *)
Definition ints (T : list Z) : list Z := concat (le_bytes 4 <$> T).
Lemma zlen_ints T : zlen (ints T) = 4 * zlen T.
Proof. induction T as [|v T IH]; [done|]. unfold ints in *. rewrite fmap_cons. cbn [concat]. rewrite zlen_app, IH, zlen_le, zlen_cons. lia. Qed.
Lemma ints_app T U : ints (T ++ U) = ints T ++ ints U.
Proof. unfold ints. by rewrite fmap_app, concat_app. Qed.
Lemma ints_zeros n : ints (replicate n 0) = replicate (4 * n) 0.
Proof.
  induction n as [|n IH]; [done|]. replace (4 * S n)%nat with (4 + 4 * n)%nat by lia. rewrite replicate_add, <- IH.
  cbn [replicate]. unfold ints. by rewrite fmap_cons.
Qed.
Lemma ints_mid (a b T : list Z) i v : T !! i = Some v -> exists x y, zlen x = 4 * Z.of_nat i /\
  a ++ ints T ++ b = (a ++ x) ++ le_bytes 4 v ++ (y ++ b) /\
  forall v', a ++ ints (<[i := v']> T) ++ b = (a ++ x) ++ le_bytes 4 v' ++ (y ++ b).
Proof.
  intros Hi. destruct (list_elem_of_split_length _ _ _ Hi) as (T1 & T2 & -> & ->). exists (ints T1), (ints T2).
  split; [by rewrite zlen_ints|]. split.
  - rewrite ints_app. unfold ints at 2. rewrite fmap_cons. cbn [concat]. fold (ints T2). by rewrite <- !app_assoc.
  - intros v'. rewrite insert_app_r_alt, Nat.sub_diag by lia. cbn. rewrite ints_app. unfold ints at 2. rewrite fmap_cons.
    cbn [concat]. fold (ints T2). by rewrite <- !app_assoc.
Qed.
Lemma ints_get a T b p i v : T !! i = Some v -> p = zlen a + 4 * Z.of_nat i -> 0 <= v < 2 ^ 31 ->
  get_int (a ++ ints T ++ b) p = Some v.
Proof.
  intros Hi -> Hv. destruct (ints_mid a b T i v Hi) as (x & y & Hx & -> & _). apply get_num_at; [zlia|lia|done].
Qed.
Lemma ints_set a T b p i v v' : T !! i = Some v -> p = zlen a + 4 * Z.of_nat i -> 0 <= v' < 2 ^ 32 ->
  set_int (a ++ ints T ++ b) p v' = Some (a ++ ints (<[i := v']> T) ++ b).
Proof.
  intros Hi -> Hv. destruct (ints_mid a b T i v Hi) as (x & y & Hx & -> & ->). apply set_num_at; [zlia|by rewrite le_len|done].
Qed.

(** ** Buckets: a counter, and items with room for more *)
Section buckets.
Context (hw iw : nat).
Record bucket := mk_bucket { bk_count : Z; bk_items : list (list Z); bk_cap : Z }.
Definition bucket_ok (k : bucket) : Prop :=
  Forall (fun x => length x = iw) (bk_items k) /\ zlen (bk_items k) <= bk_cap k /\ 0 <= bk_count k < 2 ^ 15 * 2 ^ (8 * Z.of_nat hw - 16).
Definition img (k : bucket) : list Z :=
  if bk_cap k =? 0 then []
  else le_bytes hw (bk_count k) ++ concat (bk_items k) ++ replicate (iw * Z.to_nat (bk_cap k - zlen (bk_items k))) 0.
Definition img_len (c : Z) : Z := if c =? 0 then 0 else Z.of_nat hw + Z.of_nat iw * c.
Definition imgs (P : list bucket) : list Z := concat (img <$> P).
(** Where the buckets stand, from [p] on; 0 for an empty one. *)
Fixpoint offsets (p : Z) (caps : list Z) : list Z :=
  match caps with [] => [] | c :: cs => (if c =? 0 then 0 else p) :: offsets (p + img_len c) cs end.

Lemma concat_len (l : list (list Z)) : Forall (fun x => length x = iw) l -> zlen (concat l) = Z.of_nat iw * zlen l.
Proof. induction 1 as [|x l Hx _ IH]; [change (0 = Z.of_nat iw * 0); lia|]. cbn [concat]. rewrite zlen_app, zlen_cons, IH. unfold zlen at 1. rewrite Hx. ring. Qed.
Lemma zlen_img k : bucket_ok k -> zlen (img k) = img_len (bk_cap k).
Proof.
  intros (Hi & Hl & _). unfold img, img_len. destruct (Z.eqb_spec (bk_cap k) 0); [done|]. zlen_facts.
  rewrite !zlen_app, zlen_le, concat_len, zlen_replicate by done.
  rewrite Nat2Z.inj_mul, Z2Nat.id by lia. ring.
Qed.
Lemma zlen_offsets caps : forall p, zlen (offsets p caps) = zlen caps.
Proof. induction caps as [|c caps IH]; intros p; [done|]. cbn [offsets]. rewrite !zlen_cons. by rewrite IH. Qed.
Definition total_len (caps : list Z) : Z := foldr (fun c n => img_len c + n) 0 caps.
Lemma total_cons c cs : total_len (c :: cs) = img_len c + total_len cs.
Proof. done. Qed.
Lemma total_app a b : total_len (a ++ b) = total_len a + total_len b.
Proof. unfold total_len. induction a as [|c a IH]; [done|]. cbn. rewrite IH. lia. Qed.
Lemma total_nonneg caps : Forall (Z.le 0) caps -> 0 <= total_len caps.
Proof. induction 1 as [|c caps Hc _ IH]; [done|]. unfold total_len in *. cbn. unfold img_len at 1. destruct (Z.eqb_spec c 0); nia. Qed.
Lemma zlen_imgs P : Forall bucket_ok P -> zlen (imgs P) = total_len (bk_cap <$> P).
Proof. induction 1 as [|k P Hk _ IH]; [done|]. unfold imgs in *. rewrite !fmap_cons. cbn. rewrite zlen_app, zlen_img by done. by rewrite IH. Qed.
Lemma offsets_app a b : forall p, offsets p (a ++ b) = offsets p a ++ offsets (p + total_len a) b.
Proof.
  induction a as [|c a IH]; intros p; [cbn; by rewrite Z.add_0_r|]. cbn [offsets app]. rewrite IH, total_cons. by replace (p + img_len c + total_len a) with (p + (img_len c + total_len a)) by lia.
Qed.

(** A bucket that is not empty, in its place. *)
Lemma imgs_mid (a b : list Z) P i k : Forall bucket_ok P -> P !! i = Some k -> bk_cap k <> 0 -> exists x y,
  a ++ imgs P ++ b = (a ++ x) ++ img k ++ (y ++ b) /\
  (forall p, offsets p (bk_cap <$> P) !! i = Some (p + zlen x)) /\
  forall k', a ++ imgs (<[i := k']> P) ++ b = (a ++ x) ++ img k' ++ (y ++ b).
Proof.
  intros Hok Hi Hc. destruct (list_elem_of_split_length _ _ _ Hi) as (P1 & P2 & -> & ->). apply Forall_app in Hok as [Hok _].
  exists (imgs P1), (imgs P2). unfold imgs. split; [|split].
  - rewrite fmap_app, fmap_cons, concat_app. cbn [concat]. by rewrite <- !app_assoc.
  - intros p. rewrite fmap_app, fmap_cons, offsets_app. cbn [offsets]. rewrite (proj2 (Z.eqb_neq _ _) Hc).
    rewrite lookup_app_r by (pose proof (zlen_offsets (bk_cap <$> P1) p) as E; unfold zlen in E; rewrite length_fmap in E; lia).
    pose proof (zlen_offsets (bk_cap <$> P1) p) as E. unfold zlen in E. rewrite length_fmap in E.
    replace (length P1 - length (offsets p (bk_cap <$> P1)))%nat with 0%nat by lia. cbn. f_equal. fold (imgs P1). by rewrite zlen_imgs.
  - intros k'. rewrite insert_app_r_alt, Nat.sub_diag by lia. cbn. rewrite fmap_app, fmap_cons, concat_app. cbn [concat].
    by rewrite <- !app_assoc.
Qed.
Lemma offsets_zero p caps i : caps !! i = Some 0 -> offsets p caps !! i = Some 0.
Proof. revert p i. induction caps as [|c caps IH]; intros p [|i] Hi; [done..| |]; cbn in *; [by injection Hi as ->|by apply IH]. Qed.

(** Reading the counter, storing an item behind the others, setting the counter. *)
Lemma bucket_count (a b : list Z) P i k s : Forall bucket_ok P -> P !! i = Some k -> bk_cap k <> 0 -> (2 <= hw)%nat ->
  offsets (zlen a) (bk_cap <$> P) !! i = Some s -> get_num hw (a ++ imgs P ++ b) s = Some (bk_count k).
Proof.
  intros Hok Hi Hc Hhw Hs. destruct (imgs_mid a b P i k Hok Hi Hc) as (x & y & -> & Ho & _). rewrite Ho in Hs. injection Hs as <-.
  unfold img. rewrite (proj2 (Z.eqb_neq _ _) Hc), <- (app_assoc (le_bytes hw (bk_count k))). pose proof (Forall_lookup_1 _ _ _ _ Hok Hi) as (_ & _ & Hn).
  apply get_num_at; [zlia|lia|]. rewrite <- Z.pow_add_r in Hn by lia. replace (8 * Z.of_nat hw - 1) with (15 + (8 * Z.of_nat hw - 16)) by lia. done.
Qed.
Lemma bucket_store (a b : list Z) P i k s v : Forall bucket_ok P -> P !! i = Some k -> length v = iw ->
  zlen (bk_items k) < bk_cap k -> offsets (zlen a) (bk_cap <$> P) !! i = Some s ->
  set_bytes (a ++ imgs P ++ b) (s + Z.of_nat hw + Z.of_nat iw * zlen (bk_items k)) v =
    Some (a ++ imgs (<[i := mk_bucket (bk_count k) (bk_items k ++ [v]) (bk_cap k)]> P) ++ b).
Proof.
  intros Hok Hi Hv Hlt Hs. zlen_facts. assert (Hc : bk_cap k <> 0) by lia.
  destruct (imgs_mid a b P i k Hok Hi Hc) as (x & y & -> & Ho & ->). rewrite Ho in Hs. injection Hs as <-.
  pose proof (Forall_lookup_1 _ _ _ _ Hok Hi) as (Hit & _ & _). unfold img. cbn [bk_cap bk_count bk_items].
  rewrite (proj2 (Z.eqb_neq _ _) Hc).
  replace (iw * Z.to_nat (bk_cap k - zlen (bk_items k)))%nat with (iw + iw * Z.to_nat (bk_cap k - zlen (bk_items k ++ [v])))%nat
    by (rewrite zlen_app; change (zlen [v]) with 1; nia).
  rewrite replicate_add, concat_app. cbn [concat]. rewrite app_nil_r.
  set (pre := (a ++ x) ++ le_bytes hw (bk_count k) ++ concat (bk_items k)).
  transitivity (set_bytes (pre ++ replicate iw 0 ++ (replicate (iw * Z.to_nat (bk_cap k - zlen (bk_items k ++ [v]))) 0 ++ y ++ b))
    (zlen a + zlen x + Z.of_nat hw + Z.of_nat iw * zlen (bk_items k)) v).
  { f_equal. unfold pre. by rewrite <- !app_assoc. }
  rewrite set_bytes_at.
  - unfold pre. by rewrite <- !app_assoc.
  - unfold pre. rewrite !zlen_app, zlen_le, concat_len by done. lia.
  - rewrite zlen_replicate. unfold zlen. lia.
Qed.
Lemma bucket_set_count (a b : list Z) P i k s n : Forall bucket_ok P -> P !! i = Some k -> bk_cap k <> 0 ->
  offsets (zlen a) (bk_cap <$> P) !! i = Some s -> 0 <= n < 2 ^ (8 * Z.of_nat hw) ->
  set_num hw (a ++ imgs P ++ b) s n = Some (a ++ imgs (<[i := mk_bucket n (bk_items k) (bk_cap k)]> P) ++ b).
Proof.
  intros Hok Hi Hc Hs Hn. destruct (imgs_mid a b P i k Hok Hi Hc) as (x & y & -> & Ho & ->). rewrite Ho in Hs. injection Hs as <-.
  unfold img. cbn [bk_cap bk_count bk_items]. rewrite (proj2 (Z.eqb_neq _ _) Hc), <- !app_assoc.
  rewrite app_assoc. rewrite set_num_at; [by rewrite <- !app_assoc|zlia|by rewrite le_len|done].
Qed.
(** Reading an item. *)
Lemma bucket_item (a b : list Z) P i k s j v : Forall bucket_ok P -> P !! i = Some k -> bk_items k !! j = Some v ->
  offsets (zlen a) (bk_cap <$> P) !! i = Some s ->
  exists x y, a ++ imgs P ++ b = x ++ v ++ y /\ zlen x = s + Z.of_nat hw + Z.of_nat iw * Z.of_nat j.
Proof.
  intros Hok Hi Hj Hs. pose proof (Forall_lookup_1 _ _ _ _ Hok Hi) as (Hit & Hle & _).
  apply list_elem_of_split_length in Hj as (I1 & I2 & Ei & ->). rewrite Ei in Hit. apply Forall_app in Hit as [Hit _].
  assert (Hc : bk_cap k <> 0) by (rewrite Ei in Hle; zlen_facts; revert Hle; rewrite zlen_app, zlen_cons; zlen_facts; lia).
  destruct (imgs_mid a b P i k Hok Hi Hc) as (x & y & -> & Ho & _). rewrite Ho in Hs. injection Hs as <-.
  unfold img. rewrite (proj2 (Z.eqb_neq _ _) Hc), Ei, concat_app. cbn [concat].
  exists ((a ++ x) ++ le_bytes hw (bk_count k) ++ concat I1). eexists. split; [by rewrite <- !app_assoc|].
  rewrite !zlen_app, zlen_le, concat_len by done. unfold zlen. lia.
Qed.
End buckets.
