(* ===== verification/MsearchBuild.v ===== *)
(** * Search for many words: the passes that fill the tables *)
From stdpp Require Import sorting.
From S2P Require Import Prelude StateMonad Keyed Maps Msearch MsearchMem.

(** ** Tables of [size] entries *)
Section table.
Context {A : Type} (size : Z).
Definition table (f : Z -> A) : list A := f <$> seqZ 0 size.
Lemma table_lookup f i : 0 <= i < size -> table f !! Z.to_nat i = Some (f i).
Proof. intros Hi. unfold table. rewrite list_lookup_fmap, lookup_seqZ_lt by lia. cbn. do 2 f_equal. lia. Qed.
Lemma zlen_table f : 0 <= size -> zlen (table f) = size.
Proof. intros ?. unfold table, zlen. rewrite length_fmap, length_seqZ. lia. Qed.
Lemma table_insert f g i : 0 <= i < size -> (forall j, 0 <= j < size -> j <> i -> f j = g j) ->
  <[Z.to_nat i := g i]> (table f) = table g.
Proof.
  intros Hi Hfg. apply list_eq. intros k. destruct (decide (k = Z.to_nat i)) as [->|Hne].
  - rewrite list_lookup_insert_eq, table_lookup; [done|lia|]. unfold table. rewrite length_fmap, length_seqZ. lia.
  - rewrite list_lookup_insert_ne by done. unfold table. rewrite !list_lookup_fmap.
    destruct (seqZ 0 size !! k) as [j|] eqn:E; [|done]. apply lookup_seqZ in E as [-> ?]. cbn. f_equal. apply Hfg; lia.
Qed.
Lemma table_all f (P : A -> Prop) : (forall i, 0 <= i < size -> P (f i)) -> Forall P (table f).
Proof. intros H. apply Forall_fmap, Forall_forall. intros i Hi%elem_of_seqZ. apply H. lia. Qed.
Lemma table_ext f g : (forall i, 0 <= i < size -> f i = g i) -> table f = table g.
Proof. intros H. apply list_fmap_ext. intros k i Hi%list_elem_of_lookup_2%elem_of_seqZ. apply H. lia. Qed.
End table.
Lemma table_fmap {A B} size (f : Z -> A) (g : A -> B) : g <$> table size f = table size (fun i => g (f i)).
Proof. unfold table. by rewrite <- list_fmap_compose. Qed.

Section build.
Context `{!Allocator}.

(** ** The memory of the builder *)
Lemma wp_mem_get {A} (f : list Z -> option A) v b (Q : A -> zmsearch_builder -> Prop) :
  f (bl_mem b) = Some v -> Q v b -> wp (mem_get f) b Q.
Proof. intros Hf HQ. unfold mem_get. apply wp_bind, wp_gets. by eapply wp_of_option. Qed.
Lemma wp_mem_set f m b (Q : unit -> zmsearch_builder -> Prop) :
  f (bl_mem b) = Some m -> Q tt (set_mem b m (bl_capability b)) -> wp (mem_set f) b Q.
Proof. intros Hf HQ. unfold mem_set. apply wp_bind. eapply wp_mem_get; [exact Hf|]. by apply wp_modify. Qed.
Lemma set_mem_same b m : bl_mem b = m -> set_mem b m (bl_capability b) = b.
Proof. intros <-. by destruct b. Qed.

(** The block never needs more than half a gigabyte. *)
Definition cap_ok (b : zmsearch_builder) : Prop := 2 ^ 20 <= bl_capability b <= 2 ^ 30 /\ zlen (bl_mem b) <= bl_capability b.
Lemma grow_capability_spec need len fuel : forall c, need + len <= 2 ^ 29 -> 0 <= need -> 0 < c <= 2 ^ 30 ->
  2 ^ 29 <= c * 2 ^ (Z.of_nat fuel - 1) -> 0 < Z.of_nat fuel ->
  exists c', grow_capability fuel c need len = Some c' /\ c <= c' <= 2 ^ 30 /\ need + len <= c' /\
    (need + len <= c -> c' = c).
Proof.
  induction fuel as [|fuel IH]; intros c Hn H0 Hc Hf Hp; [lia|]. cbn [grow_capability].
  destruct (Z.leb_spec len (c - need)); [exists c; repeat split; lia|].
  assert (0 < Z.of_nat fuel).
  { destruct fuel; [|lia]. cbn in Hf. lia. }
  rewrite as_int_Some by lia.
  cbn [mbind option_bind]. destruct (IH (2 * c + 1)) as (c' & -> & Hc' & Hl & _); [done|done|lia| |done|].
  - replace (Z.of_nat (S fuel) - 1) with (Z.succ (Z.of_nat fuel - 1)) in Hf by lia. rewrite Z.pow_succ_r in Hf by lia.
    pose proof (Z.pow_pos_nonneg 2 (Z.of_nat fuel - 1) ltac:(lia) ltac:(lia)). nia.
  - exists c'. split; [done|]. split; [lia|]. split; [done|lia].
Qed.
Lemma malloc_spec len b : cap_ok b -> 0 <= len -> zlen (bl_mem b) + len <= 2 ^ 29 ->
  wp (_mem_malloc len) b (fun r b' => fst r = zlen (bl_mem b) /\ (zlen (bl_mem b) + len <= bl_capability b -> snd r = false /\ bl_capability b' = bl_capability b) /\
    cap_ok b' /\ bl_capability b <= bl_capability b' /\ b' = set_mem b (bl_mem b ++ replicate (Z.to_nat len) 0) (bl_capability b')).
Proof.
  intros [Hc Hm] Hlen Hmax. zlen_facts. unfold _mem_malloc. apply wp_bind, wp_gets. cbn [id].
  destruct (grow_capability_spec (zlen (bl_mem b)) len 32 (bl_capability b)) as (c' & E & Hc' & Hl & Hsame); [lia|lia|lia|cbn; lia|lia|].
  apply wp_bind. eapply wp_of_option; [exact E|].
  apply wp_bind. apply (wp_mono _ _ (fun _ b' => b' = b)).
  { destruct (negb (c' =? bl_capability b)); [|by apply wp_ret]. apply wp_bind. eapply wp_of_option; [apply as_int_Some; lia|]. by apply wp_ret. }
  intros [] b1 ->. destruct (Z.ltb_spec len 0); [lia|]. apply wp_bind. eapply wp_of_option; [apply as_int_Some; lia|].
  apply wp_bind, wp_modify, wp_ret. cbn. split; [done|]. split.
  - intros Hfit. rewrite (Hsame Hfit), Z.eqb_refl. done.
  - split; [|split; [lia|done]]. split; cbn; [lia|]. rewrite zlen_app, zlen_replicate. lia.
Qed.

(** ** A table of buckets and its words *)
Section pass.
Context (hash : list Z -> option Z) (h : list Z -> Z) (size field : Z) (hw iw : nat).
Hypothesis Hsize : 0 < size.
Definition sel (i : Z) (ws : list (list Z)) : list (list Z) := filter (fun w => h w mod size = i) ws.
Definition counts (ws : list (list Z)) : list Z := table size (fun i => zlen (sel i ws)).
(** [e.1] is the item that stands for the word [e.2]. *)
Definition pick (i : Z) (pl : list (list Z * list Z)) : list (list Z) := (filter (fun e => h e.2 mod size = i) pl).*1.
(** The items of [pl] are stored, the words of [cs] are counted, there is room for [ws]. *)
Definition buckets (cs : list (list Z)) (pl : list (list Z * list Z)) (ws : list (list Z)) : list bucket :=
  table size (fun i => mk_bucket (zlen (sel i cs)) (pick i pl) (zlen (sel i ws))).

Lemma sel_snoc i ws w : sel i (ws ++ [w]) = sel i ws ++ (if decide (h w mod size = i) then [w] else []).
Proof. unfold sel. rewrite filter_app, filter_cons, filter_nil. by destruct (decide _). Qed.
Lemma pick_snoc i pl e : pick i (pl ++ [e]) = pick i pl ++ (if decide (h e.2 mod size = i) then [e.1] else []).
Proof. unfold pick. rewrite filter_app, filter_cons, filter_nil, fmap_app. by destruct (decide _). Qed.
Lemma pick_sel i pl : zlen (pick i pl) = zlen (sel i pl.*2).
Proof.
  induction pl as [|e pl IH]; [done|]. unfold pick, sel in *. rewrite fmap_cons, !filter_cons.
  destruct (decide _); [|done]. rewrite fmap_cons, !zlen_cons. by rewrite IH.
Qed.
Lemma hash_slot w : 0 <= h w mod size < size.
Proof. by apply Z.mod_pos_bound. Qed.
Lemma sel_le i ws : zlen (sel i ws) <= zlen ws.
Proof. unfold sel, zlen. pose proof (length_filter (fun w => h w mod size = i) ws). lia. Qed.
Lemma counts_snoc ws w : counts (ws ++ [w]) = <[Z.to_nat (h w mod size) := zlen (sel (h w mod size) ws) + 1]> (counts ws).
Proof.
  pose proof (hash_slot w) as Hs. unfold counts. symmetry.
  set (g := fun i => zlen (sel i (ws ++ [w]))). replace (zlen (sel (h w mod size) ws) + 1) with (g (h w mod size)).
  - apply table_insert; [done|]. intros j _ Hj. unfold g. rewrite sel_snoc, decide_False by done. by rewrite app_nil_r.
  - unfold g. rewrite sel_snoc, decide_True by done. by rewrite zlen_app.
Qed.
Lemma caps_buckets cs pl ws : bk_cap <$> buckets cs pl ws = counts ws.
Proof. unfold buckets. by rewrite table_fmap. Qed.
Lemma buckets_at cs pl ws i : 0 <= i < size ->
  buckets cs pl ws !! Z.to_nat i = Some (mk_bucket (zlen (sel i cs)) (pick i pl) (zlen (sel i ws))).
Proof. intros Hi. unfold buckets. by rewrite table_lookup. Qed.
Lemma buckets_store cs pl ws x w : 
  <[Z.to_nat (h w mod size) := mk_bucket (zlen (sel (h w mod size) cs)) (pick (h w mod size) pl ++ [x]) (zlen (sel (h w mod size) ws))]> 
    (buckets cs pl ws) = buckets cs (pl ++ [(x, w)]) ws.
Proof.
  pose proof (hash_slot w) as Hs. unfold buckets.
  set (g := fun i => mk_bucket (zlen (sel i cs)) (pick i (pl ++ [(x, w)])) (zlen (sel i ws))).
  replace (mk_bucket _ (pick (h w mod size) pl ++ [x]) _) with (g (h w mod size)).
  - apply table_insert; [done|]. intros j _ Hj. unfold g. rewrite pick_snoc, decide_False by done. by rewrite app_nil_r.
  - unfold g. by rewrite pick_snoc, decide_True by done.
Qed.
Lemma buckets_count cs pl ws w : 
  <[Z.to_nat (h w mod size) := mk_bucket (zlen (sel (h w mod size) cs) + 1) (pick (h w mod size) pl) (zlen (sel (h w mod size) ws))]> 
    (buckets cs pl ws) = buckets (cs ++ [w]) pl ws.
Proof.
  pose proof (hash_slot w) as Hs. unfold buckets.
  set (g := fun i => mk_bucket (zlen (sel i (cs ++ [w]))) (pick i pl) (zlen (sel i ws))).
  replace (mk_bucket (zlen (sel (h w mod size) cs) + 1) _ _) with (g (h w mod size)).
  - apply table_insert; [done|]. intros j _ Hj. unfold g. rewrite sel_snoc, decide_False by done. by rewrite app_nil_r.
  - unfold g. rewrite sel_snoc, decide_True by done. by rewrite zlen_app.
Qed.

(** The offset of the table stands in a field in front of it. *)
Lemma slot_spec hv pre r b : bl_mem b = pre ++ r -> get_int pre field = Some (zlen pre) ->
  wp (slot field size hv) b (fun p b' => p = zlen pre + 4 * (hv mod size) /\ b' = b).
Proof.
  intros Hm Hf. unfold slot. destruct (Z.eqb_spec size 0); [lia|]. apply wp_bind.
  eapply wp_mem_get; [rewrite Hm; by apply get_num_front|]. by apply wp_ret.
Qed.
Lemma count_walk_spec pre post words : get_int pre field = Some (zlen pre) -> Forall (fun e => hash e.1 = Some (h e.1)) words ->
  forall b ws, bl_mem b = pre ++ ints (counts ws) ++ post -> zlen ws + zlen words < 2 ^ 31 ->
  wp (count_walk hash field size words) b (fun _ b' =>
    b' = set_mem b (pre ++ ints (counts (ws ++ words.*1)) ++ post) (bl_capability b)).
Proof.
  intros Hf Hh. induction Hh as [|[w v] words Hw _ IH]; intros b ws Hm Hlen.
  { apply wp_ret. rewrite app_nil_r. symmetry. by apply set_mem_same. }
  cbn [count_walk fst] in *. rewrite zlen_cons in Hlen. zlen_facts. pose proof (hash_slot w) as Hs.
  apply wp_bind. eapply wp_of_option; [exact Hw|]. apply wp_bind. eapply wp_mono; [by eapply slot_spec|]. intros p b1 (-> & ->).
  pose proof (sel_le (h w mod size) ws) as Hle. zlen_facts.
  assert (Hat : counts ws !! Z.to_nat (h w mod size) = Some (zlen (sel (h w mod size) ws))) by (unfold counts; by rewrite table_lookup).
  apply wp_bind. eapply wp_mem_get; [rewrite Hm; eapply ints_get; [exact Hat|lia|lia]|].
  apply wp_bind. eapply (wp_of_option _ (zlen (sel (h w mod size) ws) + 1)).
  { apply as_int_Some. lia. }
  apply wp_bind. eapply wp_mem_set; [rewrite Hm; eapply ints_set; [exact Hat|lia|lia]|]. rewrite <- counts_snoc. eapply wp_mono.
  { apply (IH _ (ws ++ [w])); [done|]. rewrite zlen_app. change (zlen [w]) with 1. lia. }
  intros [] b2 ->. rewrite fmap_cons, <- app_assoc. done.
Qed.

(** ** Allocating buckets *)
Definition blank (c : Z) : bucket := mk_bucket 0 [] c.
Lemma img_blank c : 0 < c -> img hw iw (blank c) = replicate (Z.to_nat (Z.of_nat hw + Z.of_nat iw * c)) 0.
Proof.
  intros Hc. unfold img, blank. cbn [bk_cap bk_count bk_items]. destruct (Z.eqb_spec c 0); [lia|]. rewrite le_zeros. cbn [concat app].
  rewrite <- replicate_add. f_equal. change (zlen (@nil (list Z))) with 0. nia.
Qed.
Lemma blank_ok c : 0 <= c -> (2 <= hw)%nat -> bucket_ok hw iw (blank c).
Proof. intros Hc Hhw. split; [constructor|]. cbn. split; [done|]. split; [done|]. pose proof (Z.pow_pos_nonneg 2 (8 * Z.of_nat hw - 16)). nia. Qed.
Lemma blank_caps (d : list Z) : bk_cap <$> (blank <$> d) = d.
Proof. rewrite <- list_fmap_compose. apply list_fmap_id. Qed.
Lemma blanks_ok (d : list Z) : (2 <= hw)%nat -> Forall (Z.le 0) d -> Forall (bucket_ok hw iw) (blank <$> d).
Proof. intros Hhw Hd. apply Forall_fmap. eapply Forall_impl; [exact Hd|]. intros. by apply blank_ok. Qed.
(** The block when the buckets [d] have their room and the counters [r] wait. *)
Definition partly_alloc (pre : list Z) (p : Z) (d r : list Z) : list Z :=
  pre ++ ints (offsets hw iw p d ++ r) ++ imgs hw iw (blank <$> d).
Lemma zlen_partly pre p d r : (2 <= hw)%nat -> Forall (Z.le 0) d -> p = zlen pre + 4 * (zlen d + zlen r) ->
  zlen (partly_alloc pre p d r) = p + total_len hw iw d.
Proof.
  intros Hhw Hd ->. unfold partly_alloc. rewrite !zlen_app, zlen_ints, zlen_imgs, blank_caps by (by apply blanks_ok).
  rewrite zlen_app, zlen_offsets. lia.
Qed.
Lemma partly_next pre p d c r : 0 < c -> partly_alloc pre p (d ++ [c]) r =
  pre ++ ints (<[length d := p + total_len hw iw d]> (offsets hw iw p d ++ c :: r)) ++ imgs hw iw (blank <$> d) ++ replicate (Z.to_nat (img_len hw iw c)) 0.
Proof.
  intros Hc. unfold partly_alloc. f_equal. f_equal.
  - pose proof (zlen_offsets hw iw d p) as Hol. f_equal.
    assert (El : length d = (length (offsets hw iw p d) + 0)%nat) by (unfold zlen in Hol; lia). rewrite El, insert_app_r. cbn.
    rewrite offsets_app, <- app_assoc. cbn. by rewrite (proj2 (Z.eqb_neq c 0)) by lia.
  - unfold imgs. rewrite !fmap_app, concat_app. f_equal. cbn. rewrite app_nil_r, img_blank by lia. unfold img_len.
    by rewrite (proj2 (Z.eqb_neq c 0)) by lia.
Qed.
(** One bucket: its offset, and a counter of 0. *)
Lemma alloc_bucket_spec pre p d c r b : (2 <= hw)%nat -> (1 <= iw)%nat -> 0 < c < 2 ^ 29 -> Forall (Z.le 0) d ->
  p = zlen pre + 4 * (zlen d + zlen (c :: r)) -> bl_mem b = partly_alloc pre p d (c :: r) -> cap_ok b ->
  p + total_len hw iw d + img_len hw iw c <= Z.min (2 ^ 29) (bl_capability b) ->
  wp (x ← _mem_malloc (s32 (Z.of_nat hw + Z.of_nat iw * c));
      if (snd x : bool) then undefined else
      mem_set (fun m => set_int m (zlen pre + 4 * zlen d) (fst x));;
      mem_set (fun m => set_num (Z.to_nat (Z.of_nat hw)) m (fst x) 0)) b
    (fun _ b' => b' = set_mem b (partly_alloc pre p (d ++ [c]) r) (bl_capability b)).
Proof.
  intros Hhw Hiw Hc Hd Ep Hm Hcap Hfit. zlen_facts. pose proof (total_nonneg hw iw d Hd).
  assert (Hil : img_len hw iw c = Z.of_nat hw + Z.of_nat iw * c) by (unfold img_len; by rewrite (proj2 (Z.eqb_neq c 0)) by lia).
  pose proof (zlen_partly pre p d (c :: r) Hhw Hd Ep) as Hzm. rewrite <- Hm in Hzm.
  rewrite swrap_small by nia. rewrite <- Hil. apply wp_bind. eapply wp_mono; [apply malloc_spec; [done|nia|lia]|].
  intros [r1 ch] b1 (E1 & Hsame & _ & _ & Hb1). cbn [fst snd] in *. destruct Hsame as [-> Ecap]; [lia|]. subst r1.
  set (z := replicate (Z.to_nat (img_len hw iw c)) 0) in *.
  assert (Hm1 : bl_mem b1 = pre ++ ints (offsets hw iw p d ++ c :: r) ++ (imgs hw iw (blank <$> d) ++ z)).
  { rewrite Hb1. cbn [bl_mem set_mem]. rewrite Hm. unfold partly_alloc. by rewrite <- !app_assoc. }
  assert (Hat : (offsets hw iw p d ++ c :: r) !! length d = Some c).
  { pose proof (zlen_offsets hw iw d p) as Hol. unfold zlen in Hol.
    rewrite lookup_app_r by lia. by replace (length d - _)%nat with 0%nat by lia. }
  assert (Hins : forall v, zlen (<[length d := v]> (offsets hw iw p d ++ c :: r)) = zlen d + zlen (c :: r)).
  { intros v. unfold zlen at 1. rewrite length_insert. fold (zlen (offsets hw iw p d ++ c :: r)). by rewrite zlen_app, zlen_offsets. }
  apply wp_bind. eapply wp_mem_set; [rewrite Hm1; eapply ints_set; [exact Hat|unfold zlen; lia|unfold cap_ok in Hcap; lia]|].
  rewrite Hzm, Nat2Z.id. unfold z. rewrite <- partly_next by lia. eapply wp_mem_set.
  { cbn [bl_mem set_mem]. rewrite partly_next by lia. rewrite Hil. replace (Z.to_nat (Z.of_nat hw + Z.of_nat iw * c)) with (hw + Z.to_nat (Z.of_nat iw * c))%nat by nia.
    rewrite replicate_add, !app_assoc. rewrite <- (app_assoc _ (replicate hw 0)).
    apply set_num_at; [|by rewrite length_replicate|pose proof (Z.pow_pos_nonneg 2 (8 * Z.of_nat hw)); lia].
    rewrite !zlen_app, zlen_ints, zlen_imgs, blank_caps by (by apply blanks_ok). rewrite Hins. lia. }
  cbn [bl_capability set_mem]. rewrite Ecap. rewrite Hb1. unfold set_mem. cbn. f_equal.
  rewrite le_zeros, <- !app_assoc, <- replicate_add, partly_next by lia. do 4 f_equal. rewrite Hil. nia.
Qed.
Lemma alloc_loop_spec pre r : (2 <= hw)%nat -> (1 <= iw)%nat -> get_int pre field = Some (zlen pre) -> forall b d p,
  p = zlen pre + 4 * (zlen d + zlen r) -> bl_mem b = partly_alloc pre p d r -> Forall (Z.le 0) (d ++ r) ->
  cap_ok b -> p + total_len hw iw (d ++ r) <= Z.min (2 ^ 29) (bl_capability b) ->
  wp (alloc_loop (length r) (Z.of_nat hw) (Z.of_nat iw) field (zlen d)) b (fun _ b' =>
    b' = set_mem b (partly_alloc pre p (d ++ r) []) (bl_capability b)).
Proof.
  intros Hhw Hiw Hf. induction r as [|c r IH]; intros b d p Ep Hm Hnn Hcap Hfit.
  { cbn [length alloc_loop]. apply wp_ret. rewrite app_nil_r in *. symmetry. by apply set_mem_same. }
  cbn [length alloc_loop]. zlen_facts. pose proof Hnn as [Hnd Hnr]%Forall_app. inversion_clear Hnr as [|? ? Hc Hnr'].
  apply wp_bind. eapply wp_mem_get; [rewrite Hm; by apply get_num_front|].
  pose proof (zlen_offsets hw iw d p) as Hol.
  assert (Hat : (offsets hw iw p d ++ c :: r) !! length d = Some c).
  { unfold zlen in Hol. rewrite lookup_app_r by lia. by replace (length d - _)%nat with 0%nat by lia. }
  rewrite total_app, total_cons in Hfit. pose proof (total_nonneg hw iw d Hnd). pose proof (total_nonneg hw iw r Hnr').
  assert (Hil : 0 <= img_len hw iw c /\ c < 2 ^ 29) by (unfold img_len in *; destruct (Z.eqb_spec c 0); nia).
  apply wp_bind. eapply wp_mem_get; [rewrite Hm; eapply ints_get; [exact Hat|unfold zlen; lia|lia]|].
  assert (Hp : p = zlen pre + 4 * (zlen (d ++ [c]) + zlen r)) by (rewrite zlen_cons in Ep; rewrite zlen_app; change (zlen [c]) with 1; lia).
  apply wp_bind. apply (wp_mono _ _ (fun _ b1 => b1 = set_mem b (partly_alloc pre p (d ++ [c]) r) (bl_capability b))).
  { destruct (Z.eqb_spec c 0) as [->|Hne].
    - apply wp_ret. symmetry. apply set_mem_same. rewrite Hm. unfold partly_alloc. rewrite offsets_app, fmap_app, <- app_assoc.
      unfold imgs. rewrite fmap_app, concat_app. cbn. by rewrite app_nil_r.
    - apply alloc_bucket_spec; try done; lia. }
  intros [] b1 ->. replace (zlen d + 1) with (zlen (d ++ [c])) by (rewrite zlen_app; done). eapply wp_mono.
  { apply (IH _ (d ++ [c]) p Hp); [done|by rewrite <- app_assoc| |].
    - destruct Hcap as [Hc1 Hc2]. split; cbn [bl_mem bl_capability set_mem]; [done|]. rewrite zlen_partly, total_app, total_cons; [|done| |done].
      + change (total_len hw iw []) with 0. lia.
      + apply Forall_app. by repeat constructor.
    - rewrite <- app_assoc. cbn [app bl_capability set_mem]. rewrite total_app, total_cons. lia. }
  intros [] b2 ->. by rewrite <- app_assoc.
Qed.

(** ** Filling buckets *)
Lemma sel_app i a b : sel i (a ++ b) = sel i a ++ sel i b.
Proof. apply filter_app. Qed.
Lemma offsets_bound p caps i s : Forall (Z.le 0) caps -> 0 <= p -> offsets hw iw p caps !! i = Some s -> 0 <= s <= p + total_len hw iw caps.
Proof.
  intros Hnn. revert p i. induction Hnn as [|c caps Hc Hcs IH]; intros p i Hp; [done|].
  pose proof (total_nonneg hw iw caps Hcs). assert (0 <= img_len hw iw c) by (unfold img_len; destruct (c =? 0); nia).
  cbn [offsets]. rewrite total_cons. destruct i as [|i]; cbn.
  - intros [= <-]. destruct (c =? 0); lia.
  - intros Hi. apply IH in Hi; lia.
Qed.
Lemma counts_nonneg ws : Forall (Z.le 0) (counts ws).
Proof. apply table_all. intros. apply zlen_nonneg. Qed.
(** Counters that fit. *)
Definition small (ws : list (list Z)) : Prop := forall i, zlen (sel i ws) < 2 ^ 15 * 2 ^ (8 * Z.of_nat hw - 16).
Lemma buckets_ok cs pl ws rest : ws = pl.*2 ++ rest -> (exists rest', ws = cs ++ rest') -> Forall (fun e => length e.1 = iw) pl -> small ws ->
  Forall (bucket_ok hw iw) (buckets cs pl ws).
Proof.
  intros E1 [rest' E2] Hl Hs. apply table_all. intros i _. split; [|split]; cbn [bk_items bk_cap bk_count].
  - unfold pick. apply Forall_fmap, Forall_forall. intros e [_ He]%list_elem_of_filter. rewrite Forall_forall in Hl. by apply Hl.
  - rewrite pick_sel, E1, sel_app, zlen_app. zlen_facts. lia.
  - specialize (Hs i). rewrite E2, sel_app, zlen_app in Hs. zlen_facts. lia.
Qed.
(** The bucket of the next word [w]: it has room. *)
Lemma next_bucket (a : list Z) pl w rest : let ws := pl.*2 ++ w :: rest in
  Forall (fun e => length e.1 = iw) pl -> small ws -> (2 <= hw)%nat -> 
  exists s, offsets hw iw (zlen a) (counts ws) !! Z.to_nat (h w mod size) = Some s /\ zlen a <= s /\
  forall x, length x = iw -> forall post,
    let n := zlen (sel (h w mod size) pl.*2) in
    get_num hw (a ++ imgs hw iw (buckets pl.*2 pl ws) ++ post) s = Some n /\
    set_bytes (a ++ imgs hw iw (buckets pl.*2 pl ws) ++ post) (s + Z.of_nat hw + Z.of_nat iw * n) x = 
      Some (a ++ imgs hw iw (buckets pl.*2 (pl ++ [(x, w)]) ws) ++ post) /\
    get_num hw (a ++ imgs hw iw (buckets pl.*2 (pl ++ [(x, w)]) ws) ++ post) s = Some n /\
    set_num hw (a ++ imgs hw iw (buckets pl.*2 (pl ++ [(x, w)]) ws) ++ post) s (n + 1) = 
      Some (a ++ imgs hw iw (buckets (pl ++ [(x, w)]).*2 (pl ++ [(x, w)]) ws) ++ post).
Proof.
  intros ws Hl Hsm Hhw. pose proof (hash_slot w) as Hi. set (i := h w mod size) in *.
  assert (Hcap : zlen (sel i ws) = zlen (sel i pl.*2) + 1 + zlen (sel i rest)).
  { unfold ws. rewrite sel_app, zlen_app. unfold sel at 2. rewrite filter_cons_True by done. rewrite zlen_cons. unfold sel at 3. lia. }
  pose proof (zlen_nonneg (sel i rest)). pose proof (zlen_nonneg (sel i pl.*2)).
  assert (Hok : Forall (bucket_ok hw iw) (buckets pl.*2 pl ws)) by (eapply buckets_ok; eauto).
  pose proof (buckets_at pl.*2 pl ws i Hi) as Hat.
  destruct (imgs_mid hw iw a [] _ _ _ Hok Hat) as (x0 & y0 & _ & Ho & _); [cbn; lia|].
  specialize (Ho (zlen a)). rewrite caps_buckets in Ho. exists (zlen a + zlen x0). split; [done|]. split; [zlen_facts; lia|].
  intros x Hx post n.
  assert (Hok2 : Forall (bucket_ok hw iw) (buckets pl.*2 (pl ++ [(x, w)]) ws)).
  { apply (buckets_ok _ _ _ rest).
    - rewrite fmap_app, <- app_assoc. done.
    - by exists (w :: rest).
    - apply Forall_app. split; [done|]. by repeat constructor.
    - done. }
  pose proof (buckets_at pl.*2 (pl ++ [(x, w)]) ws i Hi) as Hat2. 
  assert (Hp : zlen (pick i pl) = n) by apply pick_sel.
  split; [|split; [|split]].
  - rewrite (bucket_count hw iw a post _ _ _ (zlen a + zlen x0) Hok Hat); [done|cbn; lia|done|by rewrite caps_buckets].
  - rewrite <- Hp. change (pick i pl) with (bk_items (mk_bucket (zlen (sel i pl.*2)) (pick i pl) (zlen (sel i ws)))).
    rewrite (bucket_store hw iw a post _ _ _ (zlen a + zlen x0) x Hok Hat); [|done|cbn; lia|by rewrite caps_buckets].
    cbn [bk_items bk_count bk_cap]. unfold i. by rewrite buckets_store.
  - rewrite (bucket_count hw iw a post _ _ _ (zlen a + zlen x0) Hok2 Hat2); [done|cbn; lia|done|by rewrite caps_buckets].
  - rewrite (bucket_set_count hw iw a post _ _ _ (zlen a + zlen x0) (n + 1) Hok2 Hat2); [|cbn; lia|by rewrite caps_buckets|].
    + cbn [bk_items bk_cap]. rewrite fmap_app. cbn [fmap list_fmap snd]. unfold i, n. by rewrite buckets_count.
    + specialize (Hsm i). replace (8 * Z.of_nat hw) with (16 + (8 * Z.of_nat hw - 16)) by lia. rewrite Z.pow_add_r by lia.
      pose proof (Z.pow_pos_nonneg 2 (8 * Z.of_nat hw - 16)). change (2 ^ 16) with (2 * 2 ^ 15). nia.
Qed.
End pass.

(** ** The passes of [fill_pairs] and [fill_long] *)
Definition h2 (w : list Z) : Z := nth 0 w 0 * 256 + nth 1 w 0.
Definition h3 (w : list Z) : Z := h2 w * 256 + nth 2 w 0.
Lemma word_at_nth w i : (i < length w)%nat -> word_at w (Z.of_nat i) = Some (nth i w 0).
Proof.
  intros Hi. unfold word_at. rewrite rd_app_l by (unfold zlen; lia). unfold rd. destruct (Z.ltb_spec (Z.of_nat i) 0); [lia|].
  rewrite Nat2Z.id. destruct (lookup_lt_is_Some_2 w i Hi) as [c Hc]. by rewrite Hc, (nth_lookup_Some _ _ _ _ Hc).
Qed.
Lemma hash2_h2 w : (2 <= length w)%nat -> hash2 w = Some (h2 w).
Proof.
  intros Hw. unfold hash2. rewrite (word_at_nth w 0 : _ -> word_at w 0 = _), (word_at_nth w 1 : _ -> word_at w 1 = _) by lia. cbn [mbind option_bind].
  by rewrite Z.shiftl_mul_pow2.
Qed.
Lemma hash3_h3 w : (3 <= length w)%nat -> hash3 w = Some (h3 w).
Proof.
  intros Hw. unfold hash3. rewrite (word_at_nth w 0 : _ -> word_at w 0 = _), (word_at_nth w 1 : _ -> word_at w 1 = _), (word_at_nth w 2 : _ -> word_at w 2 = _) by lia.
  cbn [mbind option_bind].
  by rewrite !Z.shiftl_mul_pow2.
Qed.
Definition pairs (ws : list (list Z)) : list (list Z * list Z) := (fun w => (w, w)) <$> ws.
Lemma pairs_snd ws : (pairs ws).*2 = ws.
Proof. unfold pairs. rewrite <- list_fmap_compose. apply list_fmap_id. Qed.

Lemma fill_pairs_spec size pre W words : 0 < size -> get_int pre at_ab_data_offset = Some (zlen pre) -> forall b D,
  let p := zlen pre + 4 * size in let cs := counts h2 size W in
  W = D ++ words.*1 -> Forall (fun w => length w = 2%nat) W -> small h2 size 2 W -> p + total_len 2 2 cs < 2 ^ 31 ->
  bl_mem b = pre ++ ints (offsets 2 2 p cs) ++ imgs 2 2 (buckets h2 size D (pairs D) W) ->
  wp (fill_pairs size words) b (fun _ b' =>
    b' = set_mem b (pre ++ ints (offsets 2 2 p cs) ++ imgs 2 2 (buckets h2 size W (pairs W) W)) (bl_capability b)).
Proof.
  intros Hsize Hf. induction words as [|[w v] words IH]; intros b D p cs HW Hlen Hsm Hmax Hm.
  { apply wp_ret. cbn in HW. rewrite app_nil_r in HW. subst D. symmetry. by apply set_mem_same. }
  rewrite fmap_cons in HW. cbn [fst fill_pairs] in *. pose proof Hlen as Hlen'. rewrite HW in Hlen'. apply Forall_app in Hlen' as [HD Hw].
  inversion_clear Hw as [|? ? Hw2 _]. apply wp_bind. eapply wp_of_option; [apply hash2_h2; lia|].
  apply wp_bind. eapply wp_mono; [by eapply slot_spec|]. intros sl b1 (-> & ->). zlen_facts.
  assert (Hp0 : 0 <= p) by (unfold p; zlen_facts; lia).
  set (a := pre ++ ints (offsets 2 2 p cs)). assert (Ha : zlen a = p).
  { unfold a. rewrite zlen_app, zlen_ints, zlen_offsets. unfold cs, counts. rewrite zlen_table by lia. done. }
  destruct (next_bucket h2 size 2 2 Hsize a (pairs D) w words.*1) as (s & Hs & Hsa & Hstep); rewrite ?pairs_snd in *; rewrite <- ?HW in *; [|done|lia|].
  { unfold pairs. by apply Forall_fmap. }
  assert (Hsb : 0 <= s < 2 ^ 31).
  { rewrite Ha in Hs. apply offsets_bound in Hs; [fold cs in Hs; lia|apply counts_nonneg|done]. }
  pose proof (hash_slot h2 size Hsize w) as Hi. fold cs in Hs. rewrite Ha in Hs.
  assert (Hm' : bl_mem b = a ++ imgs 2 2 (buckets h2 size D (pairs D) W) ++ []) by (rewrite Hm; unfold a; by rewrite app_nil_r, <- app_assoc).
  destruct (Hstep w Hw2 []) as (E1 & E2 & _ & E4). set (n := zlen (sel h2 size (h2 w mod size) D)) in *.
  apply wp_bind. eapply wp_mem_get; [rewrite Hm; eapply ints_get; [exact Hs|lia|lia]|].
  apply wp_bind. eapply wp_mem_get; [rewrite Hm'; exact E1|].
  destruct w as [|c0 [|c1 [|? ?]]]; try done. apply wp_bind. eapply wp_of_option; [done|]. apply wp_bind. eapply wp_of_option; [done|].
  apply wp_bind. eapply wp_mem_set; [rewrite Hm'; exact E2|]. apply wp_bind. eapply wp_mem_set; [exact E4|].
  assert (Ep : pairs D ++ [([c0; c1], [c0; c1])] = pairs (D ++ [[c0; c1]])) by (unfold pairs; by rewrite fmap_app). rewrite Ep, pairs_snd.
  eapply wp_mono; [apply (IH _ (D ++ [[c0; c1]])); try done|].
  - by rewrite <- app_assoc.
  - cbn. unfold a. by rewrite app_nil_r, <- app_assoc.
  - intros [] b2 ->. done.
Qed.

(** The tokens, from [q] on, with the bytes of their offsets. *)
Definition token_img (w : list Z) : list Z := le_bytes 2 (zlen w) ++ w.
Definition toks (ws : list (list Z)) : list Z := concat (token_img <$> ws).
Fixpoint place (q : Z) (ws : list (list Z)) : list (list Z * list Z) :=
  match ws with [] => [] | w :: ws' => (le_bytes 4 q, w) :: place (q + zlen (token_img w)) ws' end.
Lemma place_snd ws : forall q, (place q ws).*2 = ws.
Proof. induction ws as [|w ws IH]; intros q; [done|]. cbn [place]. rewrite fmap_cons. by rewrite IH. Qed.
Lemma place_snoc ws w : forall q, place q (ws ++ [w]) = place q ws ++ [(le_bytes 4 (q + zlen (toks ws)), w)].
Proof.
  induction ws as [|x ws IH]; intros q; cbn [place app]; [by rewrite Z.add_0_r|]. rewrite IH. unfold toks. rewrite fmap_cons. cbn [concat].
  rewrite zlen_app. by rewrite Z.add_assoc.
Qed.
Lemma place_len ws : forall q, Forall (fun e => length e.1 = 4%nat) (place q ws).
Proof. induction ws as [|w ws IH]; intros q; constructor; [done|apply IH]. Qed.
Lemma toks_snoc ws w : toks (ws ++ [w]) = toks ws ++ token_img w.
Proof. unfold toks. rewrite fmap_app, concat_app. cbn. by rewrite app_nil_r. Qed.

Lemma zlen_token w : zlen (token_img w) = 2 + zlen w.
Proof. unfold token_img. by rewrite zlen_app, zlen_le. Qed.
(** A token is written at the end of the block. *)
Lemma token_written a (w : list Z) : zlen w < 2 ^ 15 -> 
  set_short (a ++ replicate (Z.to_nat (2 + zlen w)) 0) (zlen a) (zlen w) = Some (a ++ le_bytes 2 (zlen w) ++ replicate (length w) 0) /\
  set_bytes (a ++ le_bytes 2 (zlen w) ++ replicate (length w) 0) (zlen a + 2) w = Some (a ++ token_img w).
Proof.
  intros Hw. zlen_facts. replace (Z.to_nat (2 + zlen w)) with (2 + length w)%nat by (unfold zlen; lia). rewrite replicate_add. split.
  - apply set_num_at; [done|done|lia].
  - rewrite <- (app_nil_r (replicate (length w) 0)), app_assoc. rewrite set_bytes_at.
    + by rewrite app_nil_r, <- app_assoc.
    + by rewrite zlen_app, zlen_le.
    + by rewrite zlen_replicate.
Qed.
(** The block when the words [D] of [W] are stored, behind [pre]. *)
Definition filled (size : Z) (pre : list Z) (W D : list (list Z)) : list Z :=
  let p := zlen pre + 4 * size in let cs := counts h3 size W in let q := p + total_len 4 4 cs in
  pre ++ ints (offsets 4 4 p cs) ++ imgs 4 4 (buckets h3 size D (place q D) W) ++ toks D.
(** Up to the tokens. *)
Lemma zlen_filled size pre W cs' D rest : 0 < size -> W = D ++ rest -> (exists r, W = cs' ++ r) -> small h3 size 4 W ->
  let p := zlen pre + 4 * size in let cs := counts h3 size W in let q := p + total_len 4 4 cs in
  zlen ((pre ++ ints (offsets 4 4 p cs)) ++ imgs 4 4 (buckets h3 size cs' (place q D) W)) = q.
Proof.
  intros Hsize HW Hcs Hsm p cs q. rewrite !zlen_app, zlen_ints, zlen_offsets, zlen_imgs, caps_buckets.
  - unfold cs at 1, counts. rewrite zlen_table by lia. done.
  - eapply (buckets_ok _ _ _ _ _ _ _ rest); [by rewrite place_snd|done|apply place_len|done].
Qed.
Lemma fill_long_step {A} size pre W D w rest b (k : St zmsearch_builder A) Q : 0 < size -> get_int pre at_abc_data_offset = Some (zlen pre) ->
  let q := zlen pre + 4 * size + total_len 4 4 (counts h3 size W) in
  W = D ++ w :: rest -> 3 <= zlen w <= 4096 -> small h3 size 4 W -> q + zlen (toks W) <= 2 ^ 29 -> cap_ok b -> bl_mem b = filled size pre W D ->
  (forall cap, cap_ok (set_mem b (filled size pre W (D ++ [w])) cap) -> wp k (set_mem b (filled size pre W (D ++ [w])) cap) Q) ->
  wp (hv ← of_option (hash3 w);
      let len := s32 (zlen w) in
      r ← _mem_malloc (s32 (2 + len));
      let offset := fst r in
      p ← slot at_abc_data_offset size hv;
      s ← mem_get (fun m => get_int m p);
      i ← mem_get (fun m => get_int m s);
      mem_set (fun m => set_int m (s + 4 + 4 * i) offset);;
      mem_set (fun m => set_short m offset len);;
      x ← of_option (get_bytes (w ++ [0]) 0 len);
      mem_set (fun m => set_bytes m (offset + 2) x);;
      s ← mem_get (fun m => get_int m p);
      i ← mem_get (fun m => get_int m s);
      i ← of_option (as_int (i + 1));
      mem_set (fun m => set_int m s i);; k) b Q.
Proof.
  intros Hsize Hf q HW Hw3 Hsm Hmax Hcap Hm HQ. set (p := zlen pre + 4 * size) in *. set (cs := counts h3 size W) in *.
  apply wp_bind. eapply wp_of_option; [apply hash3_h3; unfold zlen in Hw3; lia|]. zlen_facts.
  cbv zeta. rewrite (swrap_small 32 (zlen w)), (swrap_small 32 (2 + zlen w)) by lia.
  set (a := pre ++ ints (offsets 4 4 p cs)). assert (Ha : zlen a = p).
  { unfold a. rewrite zlen_app, zlen_ints, zlen_offsets. unfold cs, counts. rewrite zlen_table by lia. done. }
  destruct (next_bucket h3 size 4 4 Hsize a (place q D) w rest) as (s & Hs & Hsa & Hstep); rewrite ?place_snd in *; rewrite <- ?HW in *; [apply place_len|done|lia|].
  pose proof (total_nonneg 4 4 cs (counts_nonneg h3 size W)) as Htot. fold cs in Hs. rewrite Ha in Hs.
  assert (Hsb : 0 <= s < 2 ^ 31).
  { pose proof Hs as Hb. apply offsets_bound in Hb; [unfold q in Hmax; zlen_facts; lia|apply counts_nonneg|unfold p; lia]. }
  pose proof (hash_slot h3 size Hsize w) as Hi.
  assert (HD : exists r, W = D ++ r) by (by eexists). assert (HW' : W = (D ++ [w]) ++ rest) by (by rewrite <- app_assoc).
  pose proof (zlen_filled size pre W D D _ Hsize HW HD Hsm) as Hq0. cbn zeta in Hq0. fold p cs q a in Hq0.
  assert (Hzm : zlen (bl_mem b) = q + zlen (toks D)) by (rewrite Hm; unfold filled; fold p cs q; rewrite app_assoc, app_assoc, zlen_app; fold a; by rewrite Hq0).
  assert (HtW : zlen (toks D) + (2 + zlen w) <= zlen (toks W)).
  { rewrite HW. unfold toks. rewrite fmap_app, concat_app, fmap_cons. cbn [concat]. rewrite !zlen_app, zlen_token. zlen_facts. lia. }
  apply wp_bind. eapply wp_mono; [apply malloc_spec; [done|lia|lia]|]. intros [r1 ch] b1 (E1 & _ & Hcap1 & _ & Hb1). cbn [fst] in *.
  rewrite Hzm in E1. set (off := q + zlen (toks D)) in *. subst r1. set (z := replicate (Z.to_nat (2 + zlen w)) 0) in *.
  assert (Hm1 : bl_mem b1 = a ++ imgs 4 4 (buckets h3 size D (place q D) W) ++ toks D ++ z).
  { rewrite Hb1. cbn [bl_mem set_mem]. rewrite Hm. unfold filled, a. by rewrite <- !app_assoc. }
  apply wp_bind. eapply wp_mono; [eapply (slot_spec size _ Hsize _ pre); [rewrite Hm1; unfold a; rewrite <- !app_assoc; reflexivity|done]|]. intros sl b2 (-> & ->).
  assert (Hget : forall r m, m = a ++ r -> get_int m (zlen pre + 4 * (h3 w mod size)) = Some s).
  { intros r m ->. unfold a. rewrite <- app_assoc. eapply ints_get; [exact Hs|lia|lia]. }
  destruct (Hstep (le_bytes 4 off) eq_refl (toks D ++ z)) as (F1 & F2 & _ & _). set (n := zlen (sel h3 size (h3 w mod size) D)) in *.
  set (im := imgs 4 4 (buckets h3 size D (place q D ++ [(le_bytes 4 off, w)]) W)) in *.
  assert (Him : zlen (a ++ im) = q) by (unfold im, off; rewrite <- place_snoc; by apply (zlen_filled size pre W D _ rest)).
  apply wp_bind. eapply wp_mem_get; [eapply Hget; exact Hm1|]. apply wp_bind. eapply wp_mem_get; [rewrite Hm1; exact F1|].
  apply wp_bind. eapply wp_mem_set.
  { rewrite Hm1. unfold set_num. rewrite uwrap_small by (unfold off; zlen_facts; cbn; lia). exact F2. }
  destruct (token_written ((a ++ im) ++ toks D) w ltac:(lia)) as [G1 G2]. rewrite zlen_app, Him in G1, G2. fold off z in G1, G2.
  assert (E0 : a ++ im ++ toks D ++ z = ((a ++ im) ++ toks D) ++ z) by (by rewrite <- !app_assoc).
  apply wp_bind. eapply wp_mem_set; [cbn [bl_mem set_mem]; rewrite E0; exact G1|].
  apply wp_bind. eapply wp_of_option; [apply (get_bytes_at [] w [0] 0 (zlen w)); done|].
  apply wp_bind. eapply wp_mem_set; [exact G2|]. assert (E3 : ((a ++ im) ++ toks D) ++ token_img w = a ++ im ++ toks (D ++ [w])).
  { rewrite toks_snoc. by rewrite <- !app_assoc. }
  rewrite E3. destruct (Hstep (le_bytes 4 off) eq_refl (toks (D ++ [w]))) as (_ & _ & F3 & F4).
  apply wp_bind. eapply wp_mem_get; [eapply Hget; reflexivity|]. apply wp_bind. eapply wp_mem_get; [exact F3|].
  apply wp_bind. eapply (wp_of_option _ (n + 1)).
  { apply as_int_Some. assert (n <= zlen D) by apply sel_le. assert (0 <= n) by apply zlen_nonneg. assert (Hp0 : 0 <= q) by (rewrite <- Hq0; apply zlen_nonneg).
    enough (zlen D <= zlen (toks D)) by lia. clear. induction D as [|x D IH]; [done|]. unfold toks in *. rewrite fmap_cons. cbn [concat].
    rewrite zlen_app, zlen_token, zlen_cons. zlen_facts. lia. }
  apply wp_bind. eapply wp_mem_set; [exact F4|]. rewrite <- place_snoc, place_snd. cbn [bl_capability set_mem].
  assert (Efin : forall X, a ++ imgs 4 4 (buckets h3 size (D ++ [w]) (place q (D ++ [w])) W) ++ X = pre ++ ints (offsets 4 4 p cs) ++ imgs 4 4 (buckets h3 size (D ++ [w]) (place q (D ++ [w])) W) ++ X).
  { intros X. unfold a. by rewrite <- app_assoc. }
  rewrite Efin. rewrite Hb1. apply HQ. destruct Hcap1 as [Hca Hcb]. split; cbn [bl_capability bl_mem set_mem]; [done|].
  etransitivity; [|exact Hcb]. rewrite Hm1, app_assoc, app_assoc, (zlen_app _ z), (zlen_app _ (toks D)), Hq0.
  unfold filled. rewrite app_assoc, app_assoc, zlen_app. rewrite (zlen_filled size pre W _ _ rest) by (done || by eexists). fold p cs q.
  rewrite toks_snoc, zlen_app, zlen_token. unfold z. rewrite zlen_replicate. lia.
Qed.
Lemma fill_long_spec size pre W words : 0 < size -> get_int pre at_abc_data_offset = Some (zlen pre) -> forall b D,
  W = D ++ words.*1 -> Forall (fun w => 3 <= zlen w <= 4096) W -> small h3 size 4 W ->
  zlen pre + 4 * size + total_len 4 4 (counts h3 size W) + zlen (toks W) <= 2 ^ 29 -> cap_ok b -> bl_mem b = filled size pre W D ->
  wp (fill_long size words) b (fun _ b' => exists cap, b' = set_mem b (filled size pre W W) cap).
Proof.
  intros Hsize Hf. induction words as [|[w v] words IH]; intros b D HW Hlen Hsm Hmax Hcap Hm.
  { apply wp_ret. cbn in HW. rewrite app_nil_r in HW. subst D. exists (bl_capability b). symmetry. by apply set_mem_same. }
  rewrite fmap_cons in HW. cbn [fst] in HW. pose proof Hlen as Hlen'. rewrite HW in Hlen'. apply Forall_app in Hlen' as [_ Hw].
  inversion_clear Hw as [|? ? Hw3 _]. cbn [fill_long fst]. apply (fill_long_step size pre W D w words.*1); try done.
  intros cap Hcap'. eapply wp_mono; [apply (IH _ (D ++ [w])); try done; by rewrite <- app_assoc|]. intros [] b3 [cap' ->]. by exists cap'.
Qed.
End build.
