(* ===== verification/MsearchWords.v ===== *)
(** * Search for many words: the words of the builder

    The flags per byte and the two maps stand for a list of words; of the longer
    words those stay that begin with no other. *)
From stdpp Require Import gmap sorting.
From S2P Require Import Prelude StateMonad Rbset Keyed KeyedSpec KeyedRefine Maps Msearch MsearchBuild.

(** ** Words in order, and prefixes *)
Definition slt (a b : list Z) : Prop := strcmp a b < 0.
Lemma slt_irrefl a : ~ slt a a.
Proof. unfold slt. rewrite (proj2 (strcmp_eq_iff a a)); [lia|done]. Qed.
Lemma sorted_nodup ws : StronglySorted slt ws -> NoDup ws.
Proof.
  induction 1 as [|w ws _ IH Hw]; constructor; [|done]. intros Hin. rewrite Forall_forall in Hw. by apply (slt_irrefl w), Hw.
Qed.
Lemma prefix_between l : forall w1 w2, l `prefix_of` w2 -> strcmp l w1 <= 0 -> strcmp w1 w2 <= 0 -> l `prefix_of` w1.
Proof.
  induction l as [|x l IH]; intros w1 w2 Hp H1 H2; [apply prefix_nil|]. destruct w2 as [|y w2]; [by apply prefix_nil_not in Hp|].
  pose proof (prefix_cons_inv_1 _ _ _ _ Hp) as <-. apply prefix_cons_inv_2 in Hp. destruct w1 as [|z w1]; [done|]. cbn in H1, H2.
  revert H1 H2. cmp_cases; try lia. intros H1 H2. assert (x = z) as <- by lia. by apply prefix_cons, (IH w1 w2).
Qed.
Lemma prefix_le l w : l `prefix_of` w -> strcmp l w <= 0.
Proof.
  intros [r ->]. induction l as [|x l IH]; [by destruct r|]. cbn. rewrite !Z.ltb_irrefl. done.
Qed.

(** [strncmp] with the length of the first. *)
Lemma strncmp_prefix l : forall w, Forall (.≠ 0) l -> exists r, strncmp (l ++ [0]) (w ++ [0]) (length l) = Some r /\ (r = 0 <-> l `prefix_of` w).
Proof.
  induction l as [|x l IH]; intros w Hl; [exists 0; split; [done|]; split; [intros; apply prefix_nil|done]|].
  inversion_clear Hl as [|? ? Hx Hl']. destruct w as [|y w]; cbn [app length strncmp].
  - destruct (Z.ltb_spec x 0); [exists (-1)|destruct (Z.ltb_spec 0 x); [exists 1|lia]];
      (split; [done|]; split; [done|]; by intros ?%prefix_nil_not).
  - destruct (Z.ltb_spec x y); [exists (-1); split; [done|]; split; [done|]; intros ?%prefix_cons_inv_1; lia|].
    destruct (Z.ltb_spec y x); [exists 1; split; [done|]; split; [done|]; intros ?%prefix_cons_inv_1; lia|].
    destruct (Z.eqb_spec x 0); [lia|]. destruct (IH w Hl') as (r & -> & Hr). exists r. split; [done|]. rewrite Hr.
    assert (x = y) as -> by lia. split; [apply prefix_cons|apply prefix_cons_inv_2].
Qed.

Lemma filter_ext_in {A} (P Q : A -> Prop) `{!forall x, Decision (P x), !forall x, Decision (Q x)} (l : list A) :
  (forall x, x ∈ l -> P x <-> Q x) -> filter P l = filter Q l.
Proof.
  induction l as [|x l IH]; intros HPQ; [done|]. rewrite !filter_cons, IH by (intros; apply HPQ; by right).
  pose proof (HPQ x (list_elem_of_here x l)). destruct (decide (P x)), (decide (Q x)); tauto.
Qed.

(** ** What is deleted, and what stays *)
Fixpoint dups (last : option (list Z)) (ws : list (list Z)) : list (list Z) :=
  match ws with
  | [] => []
  | w :: ws' =>
      match last with
      | None => dups (Some w) ws'
      | Some l => if decide (l `prefix_of` w) then w :: dups last ws' else dups (Some w) ws'
      end
  end.
Fixpoint kept (last : option (list Z)) (ws : list (list Z)) : list (list Z) :=
  match ws with
  | [] => []
  | w :: ws' =>
      match last with
      | None => w :: kept (Some w) ws'
      | Some l => if decide (l `prefix_of` w) then kept last ws' else w :: kept (Some w) ws'
      end
  end.
Lemma dups_in last ws w : w ∈ dups last ws -> w ∈ ws.
Proof.
  revert last. induction ws as [|x ws IH]; intros last; [done|]. cbn [dups]. destruct last as [l|]; [destruct (decide _)|];
    [intros [->|?]%elem_of_cons; [by left|]|intros ?|intros ?]; right; by eapply IH.
Qed.
Lemma kept_in last ws w : w ∈ kept last ws -> w ∈ ws.
Proof.
  revert last. induction ws as [|x ws IH]; intros last; [done|]. cbn [kept]. destruct last as [l|]; [destruct (decide _)|];
    [intros ?|intros [->|?]%elem_of_cons; [by left|]|intros [->|?]%elem_of_cons; [by left|]]; right; by eapply IH.
Qed.
Lemma kept_filter last ws : NoDup ws -> kept last ws = filter (fun w => w ∉ dups last ws) ws.
Proof.
  intros Hnd. revert last. induction Hnd as [|w ws Hw _ IH]; intros last; [done|]. cbn [kept dups].
  assert (Hnew : w :: kept (Some w) ws = filter (fun x => x ∉ dups (Some w) ws) (w :: ws)).
  { rewrite filter_cons_True by (by intros ?%dups_in). by rewrite <- IH. }
  destruct last as [l|]; [destruct (decide _)|]; [|done|done]. rewrite filter_cons_False by set_solver. rewrite IH.
  apply filter_ext_in. intros x Hx. set_solver.
Qed.
Definition opt_cons (last : option (list Z)) (ws : list (list Z)) : list (list Z) :=
  match last with Some l => l :: ws | None => ws end.
Lemma dups_covered last ws w : w ∈ ws -> exists k, k ∈ opt_cons last (kept last ws) /\ k `prefix_of` w.
Proof.
  revert last. induction ws as [|x ws IH]; intros last; [by intros ?%elem_of_nil|]. cbn [kept].
  assert (Hx : forall K, exists k, k ∈ x :: K /\ k `prefix_of` x) by (intros K; exists x; split; [by left|done]).
  destruct last as [l|]; [destruct (decide _) as [Hl|_]|]; intros [->|Hw]%elem_of_cons; cbn [opt_cons].
  - exists l. split; [by left|done].
  - by apply (IH (Some l)).
  - destruct (Hx (kept (Some x) ws)) as (k & ? & ?). exists k. split; [by right|done].
  - destruct (IH (Some x) Hw) as (k & ? & ?). exists k. split; [by right|done].
  - apply Hx.
  - by apply (IH (Some x)).
Qed.
Lemma kept_free last ws : StronglySorted slt (opt_cons last ws) ->
  StronglySorted (fun a b => slt a b /\ ~ a `prefix_of` b) (opt_cons last (kept last ws)).
Proof.
  revert last. induction ws as [|w ws IH]; intros last Hs.
  { destruct last as [l|]; [|constructor]. repeat constructor. }
  cbn [kept]. destruct last as [l|]; cbn [opt_cons] in *; [|by apply (IH (Some w))].
  apply StronglySorted_inv in Hs as [Hs Hl]. inversion_clear Hl as [|? ? Hlw Hl'].
  destruct (decide _) as [Hp|Hp].
  - apply (IH (Some l)). cbn. apply StronglySorted_inv in Hs as [Hs _]. by constructor.
  - pose proof (IH (Some w) Hs) as Hw. cbn in Hw. constructor; [done|].
    apply Forall_forall. intros k Hk. assert (Hwk : k = w \/ slt w k).
    { apply elem_of_cons in Hk as [->|Hk]; [by left|right]. apply StronglySorted_inv in Hw as [_ Hw]. rewrite Forall_forall in Hw. by apply Hw. }
    unfold slt in *. destruct Hwk as [->|Hwk]; [done|]. split; [by eapply strcmp_lt_trans|].
    intros Hlk. apply Hp. by apply (prefix_between l w k); [|lia|lia].
Qed.

Section maps.
Context `{AllocatorSound}.
Abbreviation smap := (kv_rep (K := list Z) (V := Z) (W := Z) strcmp eq).

(** ** Maps as sets of words *)
Lemma smap_len_spec s al : smap s al -> wp (zmap_len : St (kvstate (list Z) Z) Z) s (fun n s' => n = zlen al /\ s' = s).
Proof. intros [l Hs]. apply wp_gets. split; [|done]. by destruct Hs. Qed.
Lemma smap_walk_spec s al : smap s al -> wp ZMAP_NODE_WALK s (fun out s' => smap s' al /\ out.*1 = al.*1).
Proof.
  intros Hs. eapply wp_mono; [by apply (kv_walk_spec strcmp eq)|]. intros out s' [Hs' Ho]. split; [done|].
  clear -Ho. induction Ho as [|[k v] [k' v'] out al [Hk _] _ IH]; [done|]. cbn in *. by rewrite Hk, IH.
Qed.
Lemma smap_sorted s al : smap s al -> StronglySorted slt al.*1.
Proof.
  intros Hs%(kv_rep_sorted strcmp eq). unfold al_sorted in Hs. induction Hs as [|e al _ IH He]; [constructor|].
  rewrite fmap_cons. constructor; [done|]. by apply Forall_fmap.
Qed.
Lemma al_update_keys k v (al : list (list Z * Z)) w : w ∈ (al_update strcmp k v al).*1 <-> w = k \/ w ∈ al.*1.
Proof.
  unfold al_update. destruct (al_find strcmp k al) as [e|] eqn:E.
  - apply al_find_key in E as [Hk He]. apply strcmp_eq_iff in Hk. subst k.
    assert ((al_set strcmp e.1 v al).*1 = al.*1) as ->.
    { unfold al_set. rewrite <- list_fmap_compose. apply list_fmap_ext. intros i x _. cbn. by destruct (strcmp e.1 x.1 =? 0). }
    split; [by right|]. intros [->|?]; [by apply list_elem_of_fmap_2|done].
  - clear E. induction al as [|e al IH]; cbn [al_insert]; [set_solver|].
    destruct (strcmp k e.1 <? 0); rewrite !fmap_cons; set_solver.
Qed.
Lemma smap_update_spec k s al : smap s al -> zlen al < int_max ->
  wp (zmap_update k 0) s (fun _ s' => exists al', smap s' al' /\ (forall w, w ∈ al'.*1 <-> w = k \/ w ∈ al.*1) /\ zlen al' <= zlen al + 1).
Proof.
  intros Hs Hl. eapply wp_mono; [apply (kv_update_spec strcmp eq (fun _ => Some 0) 0 k s al Hs); [|done]|].
  { split; [by exists 0|]. intros v w _. by exists 0. }
  intros r s' (l' & Hs' & _ & _). exists (al_update strcmp k 0 al). split; [by exists l'|]. split; [apply al_update_keys|].
  unfold al_update. destruct (al_find strcmp k al); [rewrite zlen_al_set|rewrite zlen_al_insert]; lia.
Qed.
Lemma smap_delete_spec k s al : smap s al -> zlen al <= int_max ->
  wp (zmap_delete k) s (fun _ s' => exists al', smap s' al' /\ al'.*1 = filter (fun w => w <> k) al.*1 /\ zlen al' <= zlen al).
Proof.
  intros Hs Hl. eapply wp_mono; [by apply (kv_delete_spec strcmp eq k s al Hs)|]. intros o s' [_ Hs']. exists (al_remove strcmp k al).
  split; [done|]. unfold al_remove. split; [|unfold zlen; pose proof (length_filter (fun e : list Z * Z => strcmp k e.1 <> 0) al); lia].
  clear. induction al as [|e al IH]; [done|]. rewrite fmap_cons, !filter_cons. pose proof (strcmp_eq_iff k e.1) as Hk.
  destruct (decide _), (decide _); [by rewrite fmap_cons, IH|naive_solver..|done].
Qed.

(** ** Clearing *)
Lemma clear_walk_spec words : forall last s al, Forall (fun e => Forall (.≠ 0) e.1) words ->
  (match last with Some l => Forall (.≠ 0) l | None => True end) -> smap s al -> zlen al + zlen words < int_max ->
  wp (clear_walk last words) s (fun _ s' => exists al', smap s' al' /\
    (forall w, w ∈ al'.*1 <-> w ∈ al.*1 \/ w ∈ dups last words.*1) /\ zlen al' <= zlen al + zlen words).
Proof.
  induction words as [|[w v] words IH]; intros last s al Hw Hl Hs Hlen.
  { apply wp_ret. exists al. split; [done|]. split; [intros w; set_solver|]. change (zlen (@nil (list Z * Z))) with 0. lia. }
  inversion_clear Hw as [|? ? Hw1 Hw2]. rewrite zlen_cons in *. zlen_facts. cbn [clear_walk fst fmap list_fmap dups] in *.
  assert (Hnew : wp (clear_walk (Some w) words) s (fun _ s' => exists al', smap s' al' /\
    (forall x, x ∈ al'.*1 <-> x ∈ al.*1 \/ x ∈ dups (Some w) words.*1) /\ zlen al' <= zlen al + (1 + zlen words))).
  { eapply wp_mono; [apply (IH (Some w) s al Hw2 Hw1 Hs); lia|]. intros [] s' (al' & ? & ? & ?). exists al'. split; [done|]. split; [done|lia]. }
  destruct last as [l|]; [|exact Hnew]. destruct (strncmp_prefix l w Hl) as (r & E & Hr).
  apply wp_bind. eapply wp_of_option; [exact E|]. destruct (Z.eqb_spec r 0) as [Hr0|Hr0].
  - rewrite decide_True by (by apply Hr). apply wp_bind. eapply wp_mono; [by apply (smap_update_spec w s al Hs); lia|].
    intros u s1 (al1 & Hs1 & Hk & Hl1). eapply wp_mono; [apply (IH (Some l) s1 al1 Hw2 Hl Hs1); lia|].
    intros [] s' (al' & Hs' & Hk' & Hl'). exists al'. split; [done|]. split; [|lia].
    intros x. rewrite Hk', Hk. set_solver.
  - rewrite decide_False by (by rewrite <- Hr). exact Hnew.
Qed.
Lemma delete_walk_spec (dels : list (list Z * Z)) : forall b al, smap (bl_abc b) al -> zlen al <= int_max ->
  wp (delete_walk dels) b (fun _ b' => exists s al', b' = mk_zmsearch_builder (bl_a_data b) (bl_ab b) s (bl_mem b) (bl_capability b) /\
    smap s al' /\ al'.*1 = filter (fun w => w ∉ dels.*1) al.*1 /\ zlen al' <= zlen al).
Proof.
  induction dels as [|[w v] dels IH]; intros b al Hs Hl.
  { apply wp_ret. exists (bl_abc b), al. split; [by destruct b|]. split; [done|]. split; [|done]. symmetry. apply filter_every. set_solver. }
  cbn [delete_walk]. apply wp_bind. unfold on_abc. apply wp_focus. eapply wp_mono; [by apply (smap_delete_spec w)|].
  intros o s1 (al1 & Hs1 & Hk1 & Hl1). eapply wp_mono; [apply (IH _ al1); [done|lia]|].
  intros [] b2 (s2 & al2 & -> & Hs2 & Hk2 & Hl2). exists s2, al2. cbn. split; [done|]. split; [done|]. split; [|lia].
  rewrite Hk2, Hk1. rewrite list_filter_filter. apply list_filter_iff. intros x. set_solver.
Qed.
End maps.
