(* ===== verification/MsearchEngine.v ===== *)
(** * Search for many words: adding words, and the engine that is built *)
From stdpp Require Import gmap sorting.
From S2P Require Import Prelude StateMonad Rbset Keyed KeyedSpec KeyedRefine Maps Msearch MsearchMem MsearchBuild MsearchWords.

(** ** Flags *)

(** What a word adds to the flags of the byte [c]. *)
Definition marks (t : list Z) (c : Z) : Z :=
  match t with
  | [] => 0
  | [x] => if c =? x then 1 else 0
  | [x; y] => Z.lor (if c =? x then 2 else 0) (if c =? y then 4 else 0)
  | x :: y :: z :: _ => Z.lor (Z.lor (if c =? x then 8 else 0) (if c =? y then 16 else 0)) (if c =? z then 32 else 0)
  end.
Definition flags (ts : list (list Z)) (c : Z) : Z := foldl (fun acc t => Z.lor acc (marks t c)) 0 ts.
Lemma flags_snoc ts t c : flags (ts ++ [t]) c = Z.lor (flags ts c) (marks t c).
Proof. unfold flags. by rewrite foldl_app. Qed.
Lemma bit_lor x y b : bit (Z.lor x y) b = bit x b || bit y b.
Proof.
  unfold bit. rewrite Z.land_lor_distr_l. destruct (Z.eqb_spec (Z.lor (Z.land x b) (Z.land y b)) 0) as [E|E].
  - apply Z.lor_eq_0_iff in E as [-> ->]. done.
  - destruct (Z.eqb_spec (Z.land x b) 0), (Z.eqb_spec (Z.land y b) 0); try done. exfalso. apply E. by rewrite e, e0.
Qed.
Lemma bit_flags ts c b : bit (flags ts c) b = true <-> exists t, t ∈ ts /\ bit (marks t c) b = true.
Proof.
  induction ts as [|t ts IH] using rev_ind; [split; [done|]; by intros (? & ?%elem_of_nil & _)|].
  rewrite flags_snoc, bit_lor, orb_true_iff, IH. split.
  - intros [(x & ? & ?)|?]; [exists x|exists t]; (split; [apply elem_of_app|done]); [by left|right; by left].
  - intros (x & [?|Hx]%elem_of_app & ?); [left; by exists x|right]. by apply list_elem_of_singleton in Hx as ->.
Qed.

(** ** Adding words *)
Definition token_ok (t : list Z) : Prop := Forall (fun c => 0 < c < 256) t.
Definition accepted (t : list Z) : Prop := 1 <= zlen t <= _MAX_LINE_SIZE.
#[export] Instance accepted_dec t : Decision (accepted t).
Proof. unfold accepted. apply _. Defined.
Lemma token_bytes t : token_ok t -> bytes_ok t /\ Forall (.≠ 0) t.
Proof. intros Ht. split; (eapply Forall_impl; [exact Ht|]); unfold byte_ok; cbn; lia. Qed.

Section engine.
Context `{AllocatorSound}.
Abbreviation smap := (kv_rep (K := list Z) (V := Z) (W := Z) strcmp eq).

(** A map holds the words of [ts] with a length of [P]. *)
Definition holds_words (s : kvstate (list Z) Z) (P : Z -> Prop) (ts : list (list Z)) : Prop :=
  exists al, smap s al /\ (forall w, w ∈ al.*1 <-> w ∈ ts /\ P (zlen w)) /\ zlen al <= zlen ts.
Record builder_rep (b : zmsearch_builder) (ts : list (list Z)) : Prop := {
  br_a : bl_a_data b = table 256 (flags ts);
  br_ab : holds_words (bl_ab b) (fun n => n = 2) ts;
  br_abc : holds_words (bl_abc b) (fun n => 3 <= n) ts
}.

Lemma wp_with_builder {A} (m : St zmsearch_builder A) ms b (Q : A -> zmsearch -> Prop) : ms_build ms = BOwn b ->
  wp m b (fun a b' => Q a (mk_zmsearch (ms_engine ms) (BOwn b'))) -> wp (with_builder m) ms Q.
Proof.
  intros Hb Hm. unfold with_builder. apply wp_bind, wp_gets. cbn [id]. rewrite Hb.
  apply wp_runs in Hm as (a & b' & E & HQ). apply wp_bind. eapply wp_of_option; [exact E|]. by apply wp_bind, wp_modify, wp_ret.
Qed.
Lemma a_data_or_spec f c v b : bl_a_data b = table 256 f -> 0 <= c < 256 ->
  wp (a_data_or c v) b (fun _ b' => b' = mk_zmsearch_builder (table 256 (fun i => Z.lor (f i) (if i =? c then v else 0)))
    (bl_ab b) (bl_abc b) (bl_mem b) (bl_capability b)).
Proof.
  intros Ha Hc. unfold a_data_or. apply wp_bind, wp_gets. cbn [id]. rewrite Ha.
  assert (Hr : rd (table 256 f) c = Some (f c)) by (unfold rd; destruct (Z.ltb_spec c 0); [lia|]; by rewrite table_lookup).
  apply wp_bind. eapply wp_of_option.
  { rewrite Hr. cbn [mbind option_bind]. apply wr_Some. rewrite zlen_table by lia. lia. }
  apply wp_modify. f_equal. set (g := fun i => Z.lor (f i) (if i =? c then v else 0)).
  replace (Z.lor (f c) v) with (g c) by (unfold g; by rewrite Z.eqb_refl). apply table_insert; [lia|].
  intros j _ Hj. unfold g. rewrite (proj2 (Z.eqb_neq _ _) Hj). by rewrite Z.lor_0_r.
Qed.
Lemma holds_other s P ts t : ~ P (zlen t) -> holds_words s P ts -> holds_words s P (ts ++ [t]).
Proof.
  intros Hp (al & Hs & Hk & Hl). exists al. split; [done|]. split; [|rewrite zlen_app; zlen_facts; lia].
  intros w. rewrite Hk, elem_of_app, list_elem_of_singleton. split; [tauto|]. intros [[?| ->] ?]; [done|done].
Qed.
Lemma holds_new s (P : Z -> Prop) ts t : P (zlen t) -> zlen ts < int_max -> holds_words s P ts ->
  wp (zmap_update t 0) s (fun _ s' => holds_words s' P (ts ++ [t])).
Proof.
  intros Hp Hlen (al & Hs & Hk & Hl). eapply wp_mono; [by apply (smap_update_spec t s al Hs); lia|].
  intros o s' (al' & Hs' & Hk' & Hl'). exists al'. split; [done|]. split; [|rewrite zlen_app; change (zlen [t]) with 1; lia].
  intros w. rewrite Hk', Hk, elem_of_app, list_elem_of_singleton. split; [intros [->|[? ?]]; tauto|tauto].
Qed.

Lemma add_token_spec ms b ts word len t : ms_build ms = BOwn b -> builder_rep b ts -> in_bytes word len = Some t ->
  token_ok t -> zlen t < 2 ^ 31 -> zlen ts < int_max ->
  wp (zmsearch_add_token word len) ms (fun _ ms' => ms_engine ms' = ms_engine ms /\
    exists b', ms_build ms' = BOwn b' /\ builder_rep b' (if decide (accepted t) then ts ++ [t] else ts)).
Proof.
  intros Hb [Ha Hab Habc] Hin Ht Hl Hts. zlen_facts. eapply wp_with_builder; [exact Hb|]. destruct (bytes_arg _ _ _ Hin Hl) as [E1 E2].
  destruct (token_bytes t Ht) as [Hbytes Hnul]. apply wp_bind. eapply wp_of_option; [exact E1|]. unfold accepted, _MAX_LINE_SIZE.
  assert (Hno : ~ (1 <= zlen t <= 4096) -> wp (skip : St zmsearch_builder unit) b (fun _ b' => ms_engine (mk_zmsearch (ms_engine ms) (BOwn b')) = ms_engine ms /\
    exists b'0, ms_build (mk_zmsearch (ms_engine ms) (BOwn b')) = BOwn b'0 /\
    builder_rep b'0 (if decide (1 <= zlen t <= 4096) then ts ++ [t] else ts))).
  { intros Hn. rewrite decide_False by done. apply wp_ret. split; [done|]. by exists b. }
  destruct (Z.ltb_spec (zlen t) 1); [apply Hno; lia|]. destruct (Z.ltb_spec 4096 (zlen t)); [apply Hno; lia|].
  rewrite decide_True by lia. clear Hno. apply in_bytes_front in E2 as (rest & -> & _ & _); [|lia].
  apply wp_bind. eapply wp_of_option; [by apply (get_bytes_at [] t rest)|].
  assert (Hcs : cstr (t ++ [0]) = Some t) by by apply cstr_app.
  destruct t as [|c0 [|c1 [|c2 t]]]; [zlen_nils; lia| | |]; rewrite !zlen_cons; zlen_nils; inversion_clear Hbytes as [|? ? B0 Hb0].
  - cbn [Z.eqb Z.add Pos.eqb]. apply wp_bind. eapply wp_of_option; [done|]. eapply wp_mono; [by apply (a_data_or_spec (flags ts))|].
    intros [] b1 ->. split; [done|]. eexists. split; [done|]. split; cbn.
    + apply table_ext. intros i _. by rewrite flags_snoc.
    + apply holds_other; [unfold zlen; cbn; lia|done].
    + apply holds_other; [unfold zlen; cbn; lia|done].
  - inversion_clear Hb0 as [|? ? B1 _]. cbn [Z.eqb Z.add Pos.eqb Pos.add]. apply wp_bind. eapply wp_of_option; [done|].
    apply wp_bind. eapply wp_mono; [by apply (a_data_or_spec (flags ts))|]. intros [] b1 ->.
    apply wp_bind. eapply wp_of_option; [done|]. apply wp_bind. eapply wp_mono; [by eapply a_data_or_spec|]. intros [] b2 ->.
    apply wp_bind. eapply wp_of_option; [exact Hcs|]. apply wp_bind. unfold on_ab. apply wp_focus. cbn [bl_ab].
    eapply wp_mono; [by apply (holds_new _ (fun n => n = 2) ts [c0; c1])|]. intros o s1 Hs1. apply wp_ret.
    split; [done|]. eexists. split; [done|]. split; cbn.
    + apply table_ext. intros i _. rewrite flags_snoc. by rewrite <- Z.lor_assoc.
    + done.
    + apply holds_other; [unfold zlen; cbn; lia|done].
  - inversion_clear Hb0 as [|? ? B1 Hb1]. inversion_clear Hb1 as [|? ? B2 _]. zlen_facts.
    destruct (Z.eqb_spec (1 + (1 + (1 + zlen t))) 1); [lia|]. destruct (Z.eqb_spec (1 + (1 + (1 + zlen t))) 2); [lia|].
    apply wp_bind. eapply wp_of_option; [done|].
    apply wp_bind. eapply wp_mono; [by apply (a_data_or_spec (flags ts))|]. intros [] b1 ->.
    apply wp_bind. eapply wp_of_option; [done|]. apply wp_bind. eapply wp_mono; [by eapply a_data_or_spec|]. intros [] b2 ->.
    apply wp_bind. eapply wp_of_option; [done|]. apply wp_bind. eapply wp_mono; [by eapply a_data_or_spec|]. intros [] b3 ->.
    apply wp_bind. eapply wp_of_option; [exact Hcs|]. apply wp_bind. unfold on_abc. apply wp_focus. cbn [bl_abc].
    eapply wp_mono; [apply (holds_new _ (fun n => 3 <= n) ts (c0 :: c1 :: c2 :: t)); [rewrite !zlen_cons; lia|done|done]|]. intros o s1 Hs1. apply wp_ret.
    split; [done|]. eexists. split; [done|]. split; cbn.
    + apply table_ext. intros i _. rewrite flags_snoc. unfold marks. by rewrite !Z.lor_assoc.
    + apply holds_other; [cbn beta; rewrite !zlen_cons; lia|done].
    + done.
Qed.
End engine.
