(* ===== verification/MsearchOver.v ===== *)
(** * Search for many words: the engine that [zmsearch_add_over] builds *)
From stdpp Require Import gmap sorting.
From S2P Require Import Prelude StateMonad Rbset Keyed KeyedSpec KeyedRefine Maps Msearch MsearchMem MsearchBuild MsearchWords MsearchEngine.

(** ** The layout *)
Definition size_of (ws : list (list Z)) : Z := match ws with [] => 0 | _ => 2 * zlen ws + 1 end.
Definition at_of (ws : list (list Z)) (p : Z) : Z := match ws with [] => 0 | _ => p end.
Definition table_img (hw iw : nat) (h : list Z -> Z) (p : Z) (ws : list (list Z)) (pl : list (list Z * list Z)) : list Z :=
  ints (offsets hw iw (p + 4 * size_of ws) (counts h (size_of ws) ws)) ++ imgs hw iw (buckets h (size_of ws) ws pl ws).
Definition pair_table (p : Z) (ws : list (list Z)) : list Z :=
  match ws with [] => [] | _ => table_img 2 2 h2 p ws (pairs ws) end.
(** Where the tokens begin. *)
Definition tokens_at (p : Z) (ws : list (list Z)) : Z := p + 4 * size_of ws + total_len 4 4 (counts h3 (size_of ws) ws).
Definition long_table (p : Z) (ws : list (list Z)) : list Z :=
  match ws with [] => [] | _ => table_img 4 4 h3 p ws (place (tokens_at p ws) ws) ++ toks ws end.
Definition long_at (ws2 : list (list Z)) : Z := engine_size + zlen (pair_table engine_size ws2).
Definition fields (ws2 ws3 : list (list Z)) : list Z :=
  [at_of ws2 engine_size; size_of ws2; at_of ws3 (long_at ws2); size_of ws3].
Definition layout (top : list Z) (ws2 ws3 : list (list Z)) : list Z :=
  top ++ ints (fields ws2 ws3) ++ pair_table engine_size ws2 ++ long_table (long_at ws2) ws3.

(** ** Sizes *)
Section sizes.
Context (hw iw : nat) (h : list Z -> Z) (size : Z).
Hypothesis Hsize : 0 < size.
Lemma counts_nil : counts h size [] = replicate (Z.to_nat size) 0.
Proof using Hsize.
  apply list_eq. intros i. unfold counts, table. rewrite list_lookup_fmap. destruct (decide (i < Z.to_nat size)%nat).
  - rewrite lookup_replicate_2 by done. by rewrite lookup_seqZ_lt by lia.
  - rewrite (lookup_ge_None_2 (replicate _ _)) by (rewrite length_replicate; lia). by rewrite lookup_seqZ_ge by lia.
Qed.
Lemma total_counts ws : total_len hw iw (counts h size ws) <= (Z.of_nat hw + Z.of_nat iw) * zlen ws.
Proof using Hsize.
  induction ws as [|w ws IH] using rev_ind.
  { rewrite counts_nil. change (zlen (@nil (list Z))) with 0. rewrite Z.mul_0_r. induction (Z.to_nat size); [done|]. cbn. done. }
  rewrite (counts_snoc h size Hsize), zlen_app. change (zlen [w]) with 1. pose proof (hash_slot h size Hsize w) as Hi.
  assert (Hat : counts h size ws !! Z.to_nat (h w mod size) = Some (zlen (sel h size (h w mod size) ws))) by (unfold counts; by rewrite table_lookup).
  destruct (list_elem_of_split_length _ _ _ Hat) as (T1 & T2 & E & El). rewrite E in *. rewrite El.
  rewrite insert_app_r_alt, Nat.sub_diag by lia. cbn [list_insert insert]. rewrite !total_app, !total_cons in *.
  assert (img_len hw iw (zlen (sel h size (h w mod size) ws) + 1) <= img_len hw iw (zlen (sel h size (h w mod size) ws)) + Z.of_nat hw + Z.of_nat iw).
  { zlen_facts. unfold img_len. destruct (Z.eqb_spec (zlen (sel h size (h w mod size) ws) + 1) 0), (Z.eqb_spec (zlen (sel h size (h w mod size) ws)) 0); nia. }
  lia.
Qed.
Lemma buckets_nil ws : buckets h size [] [] ws = blank <$> counts h size ws.
Proof using Hsize. unfold buckets, counts. by rewrite table_fmap. Qed.
End sizes.
Lemma small_len h size ws : zlen ws < 2 ^ 15 -> small h size 2 ws.
Proof. intros Hl i. pose proof (sel_le h size i ws). cbn. lia. Qed.
Lemma h2_inj a b : length a = 2%nat -> length b = 2%nat -> token_ok a -> token_ok b -> h2 a = h2 b -> a = b.
Proof.
  intros Ha Hb Ta Tb. destruct a as [|a0 [|a1 [|? ?]]], b as [|b0 [|b1 [|? ?]]]; try done.
  inversion_clear Ta as [|? ? A0 Ta']. inversion_clear Ta' as [|? ? A1 _]. inversion_clear Tb as [|? ? B0 Tb']. inversion_clear Tb' as [|? ? B1 _].
  unfold h2. cbn. intros E. assert (a0 = b0 /\ a1 = b1) as [-> ->] by lia. done.
Qed.
(** A counter of pairs is a [short]: many words have a large table. *)
Lemma small_pairs ws : NoDup ws -> Forall (fun w => length w = 2%nat) ws -> Forall token_ok ws -> small h2 (size_of ws) 2 ws.
Proof.
  intros Hnd Hl Ht. destruct (Z.lt_ge_cases (zlen ws) (2 ^ 15)); [by apply small_len|]. intros i.
  assert (Hs : size_of ws = 2 * zlen ws + 1) by (by destruct ws). change (2 ^ 15 * 2 ^ (8 * Z.of_nat 2 - 16)) with (2 ^ 15).
  enough (zlen (sel h2 (size_of ws) i ws) <= 1) by lia.
  assert (Hall : forall w, w ∈ sel h2 (size_of ws) i ws -> h2 w = i /\ length w = 2%nat /\ token_ok w).
  { intros w [Hw Hin]%list_elem_of_filter. rewrite Forall_forall in Hl, Ht. specialize (Hl w Hin). specialize (Ht w Hin). split; [|done].
    rewrite Z.mod_small in Hw; [done|]. destruct w as [|c0 [|c1 [|? ?]]]; try done. inversion_clear Ht as [|? ? A0 Ht']. inversion_clear Ht' as [|? ? A1 _].
    unfold h2. cbn. lia. }
  pose proof (NoDup_filter (fun w => h2 w mod size_of ws = i) _ Hnd) as Hnd'. fold (sel h2 (size_of ws) i ws) in Hnd'.
  destruct (sel h2 (size_of ws) i ws) as [|a [|b l]]; [done|done|]. exfalso.
  destruct (Hall a ltac:(set_solver)) as (? & ? & ?), (Hall b ltac:(set_solver)) as (? & ? & ?).
  apply NoDup_cons in Hnd' as [Hn _]. apply Hn. rewrite (h2_inj a b) by (done || congruence). set_solver.
Qed.

Section over.
Context `{AllocatorSound}.
Abbreviation smap := (kv_rep (K := list Z) (V := Z) (W := Z) strcmp eq).

(** ** Counting and allocating *)
Lemma malloc_fit len b : cap_ok b -> 0 <= len -> zlen (bl_mem b) + len <= 2 ^ 20 ->
  wp (_mem_malloc len) b (fun r b' => r = (zlen (bl_mem b), false) /\
    b' = set_mem b (bl_mem b ++ replicate (Z.to_nat len) 0) (bl_capability b)).
Proof.
  intros Hcap Hlen Hfit. pose proof Hcap as [? ?]. eapply wp_mono; [apply malloc_spec; [done|done|lia]|].
  intros [r ch] b' (Er & Hsame & _ & _ & Hb). destruct Hsame as [Ech Ecap]; [lia|]. cbn in Er, Ech. subst r ch. rewrite <- Ecap. by split.
Qed.
Lemma prepare_spec {A} hw iw hash h field pre W words b (k : St zmsearch_builder A) Q : let size := size_of W in let p := zlen pre + 4 * size in
  W <> [] -> (2 <= hw)%nat -> (1 <= iw)%nat -> get_int pre field = Some (zlen pre) -> words.*1 = W -> Forall (fun w => hash w = Some (h w)) W ->
  bl_mem b = pre ++ replicate (Z.to_nat (4 * size)) 0 -> cap_ok b -> p + (Z.of_nat hw + Z.of_nat iw) * zlen W <= 2 ^ 20 -> 
  wp k (set_mem b (pre ++ ints (offsets hw iw p (counts h size W)) ++ imgs hw iw (buckets h size [] [] W)) (bl_capability b)) Q ->
  wp (count_walk hash field size words;; alloc_loop (Z.to_nat size) (Z.of_nat hw) (Z.of_nat iw) field 0;; k) b Q.
Proof.
  intros size p HW Hhw Hiw Hf Hwords Hh Hm Hcap Hfit HQ. zlen_facts. pose proof Hcap as [Hc1 Hc2].
  assert (Hsize : 0 < size) by (unfold size; destruct W; [done|cbn; zlen_facts; lia]).
  assert (Hlen : zlen W < 2 ^ 20) by (unfold p in Hfit; nia).
  assert (Hz : replicate (Z.to_nat (4 * size)) 0 = ints (counts h size []) ++ []).
  { rewrite counts_nil, ints_zeros, app_nil_r by done. f_equal. lia. }
  assert (Hwl : zlen words = zlen W) by (rewrite <- Hwords; by rewrite zlen_fmap).
  apply wp_bind. eapply wp_mono.
  { eapply (count_walk_spec hash h size field Hsize pre [] words Hf).
    - apply (Forall_fmap fst (fun w => hash w = Some (h w))). by rewrite Hwords.
    - by rewrite Hm, Hz.
    - change (zlen (@nil (list Z))) with 0. lia. }
  intros [] b1 ->. cbn [app]. rewrite Hwords.
  assert (Hcl : zlen (counts h size W) = size) by (unfold counts; rewrite zlen_table; lia).
  replace (Z.to_nat size) with (length (counts h size W)) by (unfold zlen in Hcl; lia). pose proof (total_counts hw iw h size Hsize W).
  apply wp_bind. eapply wp_mono.
  { apply (alloc_loop_spec field hw iw pre (counts h size W) Hhw Hiw Hf _ [] p).
    - rewrite Hcl. change (zlen (@nil Z)) with 0. done.
    - done.
    - apply counts_nonneg.
    - split; cbn; [done|]. rewrite !zlen_app, zlen_ints, Hcl. change (zlen (@nil Z)) with 0. unfold p in *. nia.
    - cbn [app bl_capability set_mem]. lia. }
  intros [] b2 ->. unfold partly_alloc. cbn [app]. rewrite !app_nil_r. by rewrite <- (buckets_nil h size Hsize).
Qed.

(** The fields of the header behind [a_data]. *)
Lemma field_set top F r i off v : zlen top = 268 -> off = 268 + 4 * Z.of_nat i -> (i < length F)%nat -> 0 <= v < 2 ^ 32 ->
  set_int (top ++ ints F ++ r) off v = Some (top ++ ints (<[i := v]> F) ++ r).
Proof. intros Ht -> Hi Hv. destruct (lookup_lt_is_Some_2 F i Hi) as [x Hx]. by eapply ints_set; [exact Hx|rewrite Ht|]. Qed.
Lemma field_get top F r i off v : zlen top = 268 -> off = 268 + 4 * Z.of_nat i -> F !! i = Some v -> 0 <= v < 2 ^ 31 ->
  get_int (top ++ ints F ++ r) off = Some v.
Proof. intros Ht -> Hi Hv. by eapply ints_get; [exact Hi|rewrite Ht|]. Qed.
Lemma zlen_head top F r : zlen top = 268 -> length F = 4%nat -> zlen (top ++ ints F ++ r) = engine_size + zlen r.
Proof. intros Ht HF. rewrite !zlen_app, zlen_ints, Ht. unfold zlen at 1. rewrite HF. unfold engine_size. lia. Qed.

(** ** The first stages *)
Definition top_of (a : list Z) : list Z := replicate 12 0 ++ a.
Lemma add_over_1_spec b : zlen (bl_a_data b) = 256 ->
  wp zmsearch_add_over_1 b (fun _ b' => b' = set_mem b (top_of (bl_a_data b) ++ ints [0; 0; 0; 0] ++ []) (2 ^ 20)).
Proof.
  intros Ha. unfold zmsearch_add_over_1. apply wp_bind, wp_modify. apply wp_bind. eapply wp_mono.
  { apply malloc_fit; [by split|done|done]. }
  intros r b1 [_ ->]. apply wp_bind, wp_gets. cbn [id].
  eapply wp_mem_set; [|done]. cbn [bl_mem set_mem bl_a_data app].
  change (replicate (Z.to_nat engine_size) 0) with (replicate 12 0 ++ replicate 256 0 ++ replicate 16 0).
  rewrite set_bytes_at; [unfold top_of; rewrite <- app_assoc; done|done|by rewrite Ha].
Qed.
Lemma add_over_2_spec b al top : let W := al.*1 in smap (bl_ab b) al -> zlen top = 268 -> bl_mem b = top ++ ints [0; 0; 0; 0] ++ [] ->
  bl_capability b = 2 ^ 20 -> zlen W <= 65000 -> Forall (fun w => length w = 2%nat) W -> Forall token_ok W ->
  wp zmsearch_add_over_2 b (fun _ b' => exists s, smap s al /\ b' = mk_zmsearch_builder (bl_a_data b) s (bl_abc b)
    (top ++ ints [at_of W engine_size; size_of W; 0; 0] ++ pair_table engine_size W) (2 ^ 20)).
Proof.
  intros W Hs Htop Hm Hcap Hlen Hl Ht. pose proof (sorted_nodup _ (smap_sorted _ _ Hs)) as Hnd. fold W in Hnd.
  destruct b as [a s0 abc m cap]. cbn [bl_a_data bl_ab bl_abc bl_mem bl_capability] in *. subst m cap.
  unfold zmsearch_add_over_2, on_ab. apply wp_bind, wp_focus. cbn [bl_ab].
  eapply wp_mono; [by apply smap_len_spec|]. intros n s1 [-> ->]. assert (Hal : zlen al = zlen W) by (unfold W; by rewrite zlen_fmap). rewrite Hal. zlen_facts.
  destruct (Z.eqb_spec (zlen W) 0) as [E0|Hne].
  { apply zlen_inv_nil in E0. rewrite E0. apply wp_ret. by exists s0. }
  assert (HW : W <> []) by (intros E; rewrite E in Hne; done). assert (Hsz : size_of W = 2 * zlen W + 1) by (by destruct W).
  apply wp_bind. eapply wp_of_option; [apply as_int_Some; lia|]. rewrite <- Hsz. apply wp_bind. eapply wp_mem_set.
  { apply (field_set top _ _ 1); [done|done|cbn; lia|lia]. }
  apply wp_bind. rewrite swrap_small by lia. eapply wp_mono.
  { apply malloc_fit; [split; cbn [bl_mem bl_capability set_mem]; [lia|]| |]; cbn [bl_mem set_mem]; rewrite ?zlen_head by done; unfold engine_size; zlen_nils; lia. }
  intros r b1 [-> ->]. cbn [snd fst set_mem bl_mem bl_a_data bl_ab bl_abc bl_capability]. rewrite zlen_head by done. zlen_nils. rewrite <- !app_assoc. cbn [app].
  apply wp_bind. eapply wp_mem_set; [apply (field_set top _ _ 0); [done|done|cbn; lia|done]|].
  cbn [list_insert insert set_mem bl_mem bl_a_data bl_ab bl_abc bl_capability].
  apply wp_bind, wp_focus. cbn [bl_ab]. eapply wp_mono; [by apply smap_walk_spec|]. intros words s2 [Hs2 Hwords].
  assert (Hf : forall r, get_int (top ++ ints [engine_size; size_of W; 0; 0] ++ r) at_ab_data_offset = Some engine_size) by (intros; by apply (field_get top _ _ 0)).
  pose proof (zlen_head top [engine_size; size_of W; 0; 0] [] Htop eq_refl) as Hzp. rewrite app_nil_r in Hzp. zlen_nils.
  specialize (Hf []) as Hf0. rewrite app_nil_r in Hf0. rewrite (app_assoc top (ints [engine_size; size_of W; 0; 0])). set (pre := top ++ ints [engine_size; size_of W; 0; 0]) in *.
  replace engine_size with (zlen pre) in Hf0 by lia.
  apply (prepare_spec 2 2 hash2 h2 at_ab_data_offset pre W words); [done|lia|lia|exact Hf0|done| |done| |unfold engine_size in *; lia|].
  { eapply Forall_impl; [exact Hl|]. intros w Hw. apply hash2_h2. by rewrite Hw. }
  { split; cbn; [lia|]. rewrite zlen_app, Hzp, zlen_replicate. unfold engine_size. lia. }
  apply wp_bind, wp_focus. cbn [bl_ab set_mem]. eapply wp_mono; [by apply smap_walk_spec|]. intros words2 s3 [Hs3 Hwords2].
  pose proof (total_counts 2 2 h2 (size_of W) ltac:(lia) W). eapply wp_mono.
  { apply (fill_pairs_spec (size_of W) pre W words2 ltac:(lia) Hf0 _ []); [by rewrite Hwords2|done|by apply small_pairs|unfold engine_size in *; lia|done]. }
  intros [] b3 ->. exists s3. split; [done|]. cbn [set_mem bl_a_data bl_ab bl_abc bl_capability]. f_equal. rewrite (app_assoc top).
  replace (at_of W engine_size) with engine_size by (by destruct W). fold pre. f_equal. rewrite Hzp. replace (engine_size + 0) with engine_size by lia. by destruct W.
Qed.

(** ** Clearing and the last stages *)
Lemma clear_spec b al : let W := al.*1 in smap (bl_abc b) al -> zlen W < 2 ^ 30 -> Forall (Forall (.≠ 0)) W ->
  wp zmsearch_add_over_3_clear b (fun _ b' => exists s al', smap s al' /\ al'.*1 = kept None W /\
    b' = mk_zmsearch_builder (bl_a_data b) (bl_ab b) s (bl_mem b) (bl_capability b)).
Proof.
  intros W Hs Hlen Hnul. pose proof (smap_sorted _ _ Hs) as Hsorted. fold W in Hsorted. destruct b as [a ab s0 m cap]. cbn [bl_a_data bl_ab bl_abc bl_mem bl_capability] in *.
  assert (Hal : zlen al = zlen W) by (unfold W; by rewrite zlen_fmap).  zlen_facts.
  unfold zmsearch_add_over_3_clear, on_abc. apply wp_bind, wp_focus. cbn [bl_abc].
  eapply wp_mono; [by apply smap_len_spec|]. intros n s1 [-> ->]. rewrite Hal. destruct (Z.eqb_spec (zlen W) 0) as [E0|Hne].
  { apply zlen_inv_nil in E0. apply wp_ret. exists s0, al. fold W. by rewrite E0. }
  apply wp_bind, wp_focus. cbn [bl_abc]. eapply wp_mono; [by apply smap_walk_spec|]. intros words s2 [Hs2 Hwords]. fold W in Hwords.
  assert (Hwl : zlen words = zlen W) by (rewrite <- Hwords; by rewrite zlen_fmap).
  pose proof (clear_walk_spec words None zmap_create []) as Hc. apply wp_runs in Hc as ([] & del & Ec & dl & Hdel & Hk & Hdl).
  2: { apply (Forall_fmap fst). by rewrite Hwords. }
  2: done. 2: apply kv_rep_create. 2: { zlen_nils. unfold int_max. lia. }
  rewrite Hwords in Hk. zlen_nils. apply wp_bind. eapply wp_of_option; [exact Ec|]. cbn [snd].
  pose proof (smap_walk_spec _ _ Hdel) as Hd. apply wp_runs in Hd as (dels & del2 & Ed & Hdel2 & Hdels).
  apply wp_bind. eapply wp_of_option; [exact Ed|]. cbn [fst snd]. apply wp_bind. eapply wp_mono.
  { apply (delete_walk_spec dels _ al); [exact Hs2|unfold int_max; lia]. }
  intros [] b3 (s3 & al3 & -> & Hs3 & Hk3 & Hl3). pose proof (kv_free_spec strcmp eq _ _ Hdel2) as Hfree.
  apply wp_runs in Hfree as ([] & del3 & Ef & _); [|unfold int_max; lia]. apply wp_bind. eapply wp_of_option; [exact Ef|]. apply wp_ret.
  exists s3, al3. split; [done|]. split; [|done]. rewrite Hk3, kept_filter by (by apply sorted_nodup). fold W.
  apply list_filter_iff. intros w. rewrite Hdels, Hk. set_solver.
Qed.

Lemma toks_len ws : Forall (fun w => zlen w <= 4096) ws -> zlen (toks ws) <= 4098 * zlen ws.
Proof.
  induction 1 as [|w ws Hw _ IH]; [done|]. unfold toks in *. rewrite fmap_cons. cbn [concat].
  rewrite zlen_app, zlen_cons, zlen_token. lia.
Qed.
Lemma add_over_3_spec b al top o2 n2 body : let W := al.*1 in let base := engine_size + zlen body in
  smap (bl_abc b) al -> zlen top = 268 -> bl_mem b = top ++ ints [o2; n2; 0; 0] ++ body ->
  bl_capability b = 2 ^ 20 -> zlen W <= 65000 -> base + 4 * size_of W + 8 * zlen W <= 2 ^ 20 -> Forall (fun w => 3 <= zlen w <= 4096) W ->
  wp zmsearch_add_over_3 b (fun _ b' => exists s cap, smap s al /\ b' = mk_zmsearch_builder (bl_a_data b) (bl_ab b) s
    (top ++ ints [o2; n2; at_of W base; size_of W] ++ body ++ long_table base W) cap).
Proof.
  intros W base Hs Htop Hm Hcap Hlen Hfit Hl. destruct b as [a ab s0 m cap]. cbn [bl_a_data bl_ab bl_abc bl_mem bl_capability] in *. subst m cap.
  unfold zmsearch_add_over_3, on_abc. apply wp_bind, wp_focus. cbn [bl_abc].
  eapply wp_mono; [by apply smap_len_spec|]. intros n s1 [-> ->]. assert (Hal : zlen al = zlen W) by (unfold W; by rewrite zlen_fmap). rewrite Hal. zlen_facts.
  destruct (Z.eqb_spec (zlen W) 0) as [E0|Hne].
  { apply zlen_inv_nil in E0. rewrite E0. apply wp_ret. exists s0, (2 ^ 20). split; [done|]. cbn [at_of size_of long_table]. by rewrite app_nil_r. }
  assert (HW : W <> []) by (intros E; rewrite E in Hne; done). assert (Hsz : size_of W = 2 * zlen W + 1) by (by destruct W).
  assert (Hbase : 284 <= base) by (pose proof (zlen_nonneg body); unfold base, engine_size; lia).
  apply wp_bind. eapply wp_of_option; [apply as_int_Some; lia|]. rewrite <- Hsz. apply wp_bind. eapply wp_mem_set.
  { apply (field_set top _ _ 3); [done|done|cbn; lia|lia]. }
  apply wp_bind. rewrite swrap_small by lia. eapply wp_mono.
  { apply malloc_fit; [split; cbn [bl_mem bl_capability set_mem]; [lia|]| |]; cbn [bl_mem set_mem]; rewrite ?zlen_head by done; fold base; lia. }
  intros r b1 [-> ->]. cbn [snd fst set_mem bl_mem bl_a_data bl_ab bl_abc bl_capability]. rewrite zlen_head by done. fold base. rewrite <- !app_assoc.
  apply wp_bind. eapply wp_mem_set; [apply (field_set top _ _ 2); [done|done|cbn; lia|lia]|].
  cbn [list_insert insert set_mem bl_mem bl_a_data bl_ab bl_abc bl_capability].
  apply wp_bind, wp_focus. cbn [bl_abc]. eapply wp_mono; [by apply smap_walk_spec|]. intros words s2 [Hs2 Hwords].
  set (F := [o2; n2; base; size_of W]). set (pre := top ++ ints F ++ body).
  assert (Hzp : zlen pre = base) by (unfold pre; by rewrite zlen_head).
  assert (Hf : get_int pre at_abc_data_offset = Some (zlen pre)) by (rewrite Hzp; unfold pre; apply (field_get top F _ 2); (done || lia)).
  assert (Em : forall x, top ++ ints F ++ body ++ x = pre ++ x) by (intros; unfold pre; by rewrite <- !app_assoc). rewrite Em.
  apply (prepare_spec 4 4 hash3 h3 at_abc_data_offset pre W words); [done|lia|lia|exact Hf|done| |done| |lia|].
  { eapply Forall_impl; [exact Hl|]. intros w [Hw _]. apply hash3_h3. unfold zlen in Hw. lia. }
  { split; cbn [bl_mem bl_capability set_mem]; [lia|]. rewrite zlen_app, Hzp, zlen_replicate. lia. }
  apply wp_bind, wp_focus. cbn [bl_abc set_mem]. eapply wp_mono; [by apply smap_walk_spec|]. intros words2 s3 [Hs3 Hwords2].
  pose proof (total_counts 4 4 h3 (size_of W) ltac:(lia) W).
  assert (Hu : Forall (fun w => zlen w <= 4096) W) by (eapply Forall_impl; [exact Hl|]; by intros w [_ ?]). pose proof (toks_len W Hu). eapply wp_mono.
  { apply (fill_long_spec (size_of W) pre W words2 ltac:(lia) Hf _ []); [by rewrite Hwords2|done| |rewrite Hzp; lia| |].
    - intros i. pose proof (sel_le h3 (size_of W) i W). cbn. lia.
    - split; cbn [bl_mem bl_capability set_mem]; [lia|]. rewrite !zlen_app, Hzp, zlen_ints, zlen_offsets. unfold counts at 1. rewrite zlen_table by lia.
      rewrite zlen_imgs, caps_buckets; [lia|]. apply (buckets_ok _ _ _ _ _ _ _ W); [done|by exists W|constructor|].
      intros i. pose proof (sel_le h3 (size_of W) i W). cbn. lia.
    - cbn [bl_mem set_mem]. unfold filled. cbn [place]. change (toks []) with (@nil Z). by rewrite app_nil_r. }
  intros [] b3 [cap ->]. exists s3, cap. split; [done|]. cbn [set_mem bl_a_data bl_ab bl_abc bl_capability]. f_equal.
  replace (at_of W base) with base by (by destruct W). fold F. rewrite Em. unfold filled. f_equal. rewrite Hzp. unfold long_table, table_img, tokens_at. destruct W; [done|by rewrite <- !app_assoc].
Qed.

(** The engine: the image with its header, and a NUL. *)
Definition final_top (a : list Z) (len : Z) : list Z := _CODE_ID ++ _CODE_VERSION ++ le_bytes 4 len ++ a.
Lemma finished_spec b al2 al3 a m : smap (bl_ab b) al2 -> smap (bl_abc b) al3 -> zlen al2 <= int_max -> zlen al3 <= int_max ->
  bl_mem b = top_of a ++ m -> zlen (bl_mem b) < 2 ^ 32 ->
  wp zmsearch_add_over_finished b (fun e _ => e = final_top a (zlen (bl_mem b)) ++ m ++ [0]).
Proof.
  intros H2 H3 L2 L3 Hm Hlen. zlen_facts. destruct b as [a0 ab abc m0 cap]. cbn [bl_a_data bl_ab bl_abc bl_mem bl_capability] in *. subst m0.
  unfold zmsearch_add_over_finished, on_ab, on_abc. apply wp_bind, wp_gets. cbn [id bl_mem].
  apply wp_bind, wp_focus. cbn [bl_ab]. eapply wp_mono; [by apply (kv_free_spec strcmp eq _ _ H2)|]. intros _ s2 _.
  apply wp_bind, wp_focus. cbn [bl_abc]. eapply wp_mono; [by apply (kv_free_spec strcmp eq _ _ H3)|]. intros _ s3 _.
  set (len := zlen (top_of a ++ m)) in *. eapply wp_of_option; [|done].
  assert (E : (top_of a ++ m) ++ [0] = replicate 8 0 ++ replicate 4 0 ++ (a ++ m ++ [0])) by (unfold top_of; by rewrite <- !app_assoc).
  rewrite E, set_num_at by (done || lia). cbn [mbind option_bind].
  rewrite (set_bytes_at [] (replicate 4 0) _CODE_ID (replicate 4 0 ++ le_bytes 4 len ++ a ++ m ++ [0])) by done. cbn [mbind option_bind app].
  rewrite (set_bytes_at _CODE_ID (replicate 4 0) _CODE_VERSION (le_bytes 4 len ++ a ++ m ++ [0])) by done.
  unfold final_top. by rewrite <- !app_assoc.
Qed.
End over.
