(* ===== verification/MsearchView.v ===== *)
(** * Search for many words: what a search reads in the engine *)
From stdpp Require Import gmap sorting.
From S2P Require Import Prelude StateMonad Rbset Keyed KeyedSpec KeyedRefine Maps Msearch MsearchMem MsearchBuild MsearchWords MsearchEngine MsearchOver.

(** ** The whole of [zmsearch_add_over] *)

(** The words of two bytes and the longer ones, both in order. *)
Definition sorted_words (P : Z -> Prop) (ts ws : list (list Z)) : Prop :=
  StronglySorted slt ws /\ forall w, w ∈ ws <-> w ∈ ts /\ P (zlen w).
Definition engine_bytes (ts ws2 ws3 : list (list Z)) : list Z :=
  let a := table 256 (flags ts) in layout (final_top a (zlen (layout (top_of a) ws2 (kept None ws3)))) ws2 (kept None ws3).

Lemma words_count ts ws2 ws3 : sorted_words (fun n => n = 2) ts ws2 -> sorted_words (fun n => 3 <= n) ts ws3 -> zlen ws2 + zlen ws3 <= zlen ts.
Proof.
  intros [S2 H2] [S3 H3]. rewrite <- zlen_app. unfold zlen. apply inj_le, submseteq_length, NoDup_submseteq.
  - apply NoDup_app. split; [by apply sorted_nodup|]. split; [|by apply sorted_nodup].
    intros w [_ E]%H2 [_ E']%H3. cbn beta in *. lia.
  - intros w [[? _]%H2|[? _]%H3]%elem_of_app; done.
Qed.
Lemma zlen_kept ws : zlen (kept None ws) <= zlen ws.
Proof.
  generalize (@None (list Z)). induction ws as [|w ws IH]; intros last; [done|]. cbn [kept]. pose proof (IH last). pose proof (IH (Some w)).
  destruct last as [l|]; [destruct (decide _)|]; rewrite ?zlen_cons; lia.
Qed.
Lemma zlen_final a n : zlen a = 256 -> zlen (final_top a n) = 268.
Proof. intros Ha. unfold final_top. rewrite !zlen_app, zlen_le, Ha. done. Qed.

Lemma table_len hw iw h p ws pl : (2 <= hw)%nat -> pl.*2 = ws -> Forall (fun e => length e.1 = iw) pl -> small h (size_of ws) hw ws -> ws <> [] ->
  zlen (table_img hw iw h p ws pl) = 4 * size_of ws + total_len hw iw (counts h (size_of ws) ws).
Proof.
  intros Hhw Hpl Hi Hsm Hne. zlen_facts. assert (0 < size_of ws) by (destruct ws; [done|cbn; zlen_facts; lia]).
  unfold table_img. rewrite zlen_app, zlen_ints, zlen_offsets, zlen_imgs, caps_buckets.
  - unfold counts at 1. rewrite zlen_table; lia.
  - apply (buckets_ok _ _ _ _ _ _ _ []); [by rewrite Hpl, app_nil_r|exists []; by rewrite app_nil_r|done|done].
Qed.
Lemma pair_table_len p ws : NoDup ws -> Forall (fun w => length w = 2%nat) ws -> Forall token_ok ws -> zlen (pair_table p ws) <= 12 * zlen ws + 4.
Proof.
  intros Hnd Hl Ht. destruct (decide (ws = [])) as [->|Hne]; [done|].
  replace (pair_table p ws) with (table_img 2 2 h2 p ws (pairs ws)) by (by destruct ws).
  rewrite table_len; [|lia|apply pairs_snd|by apply Forall_fmap|by apply small_pairs|done].
  assert (Hs : size_of ws = 2 * zlen ws + 1) by (by destruct ws). zlen_facts.
  pose proof (total_counts 2 2 h2 (size_of ws) ltac:(lia) ws). lia.
Qed.

Lemma size_of_le ws : size_of ws <= 2 * zlen ws + 1.
Proof. zlen_facts. destruct ws; cbn [size_of]; lia. Qed.
Lemma long_table_len p ws : Forall (fun w => 3 <= zlen w <= 4096) ws -> zlen ws <= 65000 -> zlen (long_table p ws) <= 4114 * zlen ws + 4.
Proof.
  intros Hq Hlen. destruct (decide (ws = [])) as [->|Hne]; [done|].
  replace (long_table p ws) with (table_img 4 4 h3 p ws (place (tokens_at p ws) ws) ++ toks ws) by (by destruct ws).
  rewrite zlen_app, table_len; [|lia|apply place_snd|apply place_len| |done].
  - assert (Hs : size_of ws = 2 * zlen ws + 1) by (by destruct ws). zlen_facts.
    assert (Hu : Forall (fun w => zlen w <= 4096) ws) by (eapply Forall_impl; [exact Hq|]; by intros w [_ ?]).
    pose proof (total_counts 4 4 h3 (size_of ws) ltac:(lia) ws). pose proof (toks_len ws Hu). lia.
  - intros i. pose proof (sel_le h3 (size_of ws) i ws). cbn. lia.
Qed.

Section over.
Context `{AllocatorSound}.
Definition max_words : Z := 65000.
Lemma add_over_spec ms b ts : ms_build ms = BOwn b -> builder_rep b ts -> Forall token_ok ts -> Forall accepted ts -> zlen ts <= max_words ->
  wp zmsearch_add_over ms (fun _ ms' => ms_build ms' = BNull /\ exists ws2 ws3,
    sorted_words (fun n => n = 2) ts ws2 /\ sorted_words (fun n => 3 <= n) ts ws3 /\
    ms_engine ms' = Some (engine_bytes ts ws2 ws3 ++ [0])).
Proof.
  intros Hb [Ha (al2 & Hs2 & Hk2 & Hl2) (al3 & Hs3 & Hk3 & Hl3)] Hok Hacc Hlen. unfold max_words in Hlen.
  pose proof (smap_sorted _ _ Hs2) as So2. pose proof (smap_sorted _ _ Hs3) as So3.
  assert (W2 : sorted_words (fun n => n = 2) ts al2.*1) by done. assert (W3 : sorted_words (fun n => 3 <= n) ts al3.*1) by done.
  pose proof (words_count _ _ _ W2 W3) as Hn. set (w2 := al2.*1) in *. set (w3 := al3.*1) in *. zlen_facts.
  pose proof (zlen_kept w3) as Hkept. pose proof (sorted_nodup _ So2) as Hnd2.
  rewrite Forall_forall in Hok, Hacc.
  assert (Hp : Forall (fun w => length w = 2%nat) w2).
  { apply Forall_forall. intros w [_ Hw]%Hk2. cbn in Hw. unfold zlen in Hw. lia. }
  assert (Hp' : Forall token_ok w2) by (apply Forall_forall; intros w [Hw _]%Hk2; by apply Hok).
  assert (Hq : Forall (fun w => 3 <= zlen w <= 4096) w3).
  { apply Forall_forall. intros w [Hw ?]%Hk3. specialize (Hacc w Hw). unfold accepted, _MAX_LINE_SIZE in Hacc. cbn in *. lia. }
  assert (Hq' : Forall (Forall (.≠ 0)) w3).
  { apply Forall_forall. intros w [Hw _]%Hk3. apply token_bytes, Hok, Hw. }
  pose proof (pair_table_len engine_size w2 Hnd2 Hp Hp') as Hpl.
  set (a := table 256 (flags ts)) in *. assert (Hza : zlen a = 256) by (by apply zlen_table).
  assert (Hzt : zlen (top_of a) = 268) by (unfold top_of; rewrite zlen_app, Hza; done).
  unfold zmsearch_add_over. apply wp_bind. eapply wp_with_builder; [exact Hb|].
  apply wp_bind. eapply wp_mono; [apply add_over_1_spec; by rewrite Ha|]. intros [] b1 ->.
  apply wp_bind. eapply wp_mono.
  { apply (add_over_2_spec _ al2 (top_of (bl_a_data b))); rewrite ?Ha; try done. fold w2. lia. }
  intros [] b2 (s2 & Hs2' & ->). cbn [set_mem bl_a_data bl_ab bl_abc bl_mem bl_capability]. fold w2. rewrite Ha.
  apply wp_bind. eapply wp_mono; [apply (clear_spec _ al3); [exact Hs3|fold w3; lia|done]|].
  intros [] b3 (s3 & al3' & Hs3' & Hk' & ->). fold w3 in Hk'. cbn [set_mem bl_a_data bl_ab bl_abc bl_mem bl_capability].
  set (k3 := kept None w3) in *.
  assert (Hk3q : Forall (fun w => 3 <= zlen w <= 4096) k3).
  { apply Forall_forall. intros w Hw%kept_in. rewrite Forall_forall in Hq. by apply Hq. }
  apply wp_bind. eapply wp_mono.
  { eapply (add_over_3_spec _ al3' (top_of a)); rewrite ?Hk'; try done; [lia|].
    pose proof (size_of_le k3). change engine_size with 284 in *. lia. }
  intros [] b4 (s4 & cap & Hs4 & ->). cbn [set_mem bl_a_data bl_ab bl_abc bl_mem bl_capability]. rewrite Hk'.
  assert (Hal2 : zlen al2 = zlen w2) by (unfold w2; by rewrite zlen_fmap).
  assert (Hal3 : zlen al3' = zlen k3) by (rewrite <- Hk'; by rewrite zlen_fmap).
  change (top_of a ++ ints [at_of w2 engine_size; size_of w2; at_of k3 (engine_size + zlen (pair_table engine_size w2)); size_of k3] ++
    pair_table engine_size w2 ++ long_table (engine_size + zlen (pair_table engine_size w2)) k3) with (layout (top_of a) w2 k3).
  eapply wp_mono.
  { eapply (finished_spec _ al2 al3' a); [exact Hs2'|exact Hs4|unfold int_max; lia|unfold int_max; lia|reflexivity|].
    cbn [bl_mem]. pose proof (long_table_len (engine_size + zlen (pair_table engine_size w2)) k3 Hk3q ltac:(lia)).
    unfold layout, fields, long_at. rewrite !zlen_app, Hzt, zlen_ints. cbn -[zlen Z.mul Z.pow]. rewrite !zlen_cons. zlen_nils. lia. }
  intros e b5 ->. apply wp_modify. split; [done|]. exists w2, w3. split; [done|]. split; [done|]. cbn [ms_engine bl_mem].
  unfold engine_bytes. fold a k3. done.
Qed.
End over.

(** ** Views *)

(** A bucket at [off]: its items. *)
Definition bucket_view (e : list Z) (hw iw : nat) (off : Z) (items : list (list Z)) : Prop :=
  match items with
  | [] => off = 0
  | _ => off <> 0 /\ get_num hw e off = Some (zlen items) /\
      forall j x, items !! j = Some x -> exists u v, e = u ++ x ++ v /\ zlen u = off + Z.of_nat hw + Z.of_nat iw * Z.of_nat j
  end.
(** A table whose offset and size stand in two fields. *)
Definition table_view (e : list Z) (hw iw : nat) (h : list Z -> Z) (f_off f_size : Z) (ws : list (list Z)) (pl : list (list Z * list Z)) : Prop :=
  let size := size_of ws in exists p, get_int e f_off = Some p /\ get_int e f_size = Some size /\ 0 < size /\
  forall i, 0 <= i < size -> exists off, get_int e (p + 4 * i) = Some off /\ bucket_view e hw iw off (pick h size i pl).

Lemma table_view_of (e pre post : list Z) hw iw h f_off f_size ws pl : (2 <= hw)%nat -> ws <> [] -> pl.*2 = ws ->
  Forall (fun x => length x.1 = iw) pl -> small h (size_of ws) hw ws -> get_int e f_off = Some (zlen pre) -> get_int e f_size = Some (size_of ws) ->
  e = pre ++ table_img hw iw h (zlen pre) ws pl ++ post -> zlen e < 2 ^ 31 -> 0 < zlen pre -> table_view e hw iw h f_off f_size ws pl.
Proof.
  intros Hhw Hne Hpl Hi Hsm Hoff Hsize He Hlen Hpre. zlen_facts.
  assert (Hs : 0 < size_of ws) by (destruct ws; [done|cbn; zlen_facts; lia]). exists (zlen pre). split; [done|]. split; [done|]. split; [done|].
  intros i Hi'. set (size := size_of ws) in *. unfold table_img in He. fold size in He.
  set (P := buckets h size ws pl ws) in *. assert (Hok : Forall (bucket_ok hw iw) P).
  { apply (buckets_ok _ _ _ _ _ _ _ []); [by rewrite Hpl, app_nil_r|exists []; by rewrite app_nil_r|done|done]. }
  assert (Hcaps : bk_cap <$> P = counts h size ws) by apply caps_buckets.
  pose proof (buckets_at h size ws pl ws i Hi') as Hat. fold P in Hat. set (k := mk_bucket _ _ _) in Hat.
  set (p := zlen pre + 4 * size) in *. set (O := offsets hw iw p (counts h size ws)) in *.
  assert (HzO : zlen O = size) by (unfold O, counts; rewrite zlen_offsets, zlen_table; lia).
  destruct (lookup_lt_is_Some_2 O (Z.to_nat i) ltac:(unfold zlen in HzO; lia)) as [off Hoff'].
  rewrite <- app_assoc in He. assert (Hpz : zlen (pre ++ ints O) = p) by (rewrite zlen_app, zlen_ints, HzO; done).
  assert (He' : e = (pre ++ ints O) ++ imgs hw iw P ++ post) by (rewrite He; by rewrite <- !app_assoc).
  assert (Htot : p + total_len hw iw (counts h size ws) <= zlen e).
  { rewrite He', zlen_app, Hpz, zlen_app, zlen_imgs, Hcaps by done. zlen_facts. lia. }
  assert (Hb : 0 <= off < 2 ^ 31).
  { pose proof Hoff' as Hb. apply offsets_bound in Hb; [lia|apply counts_nonneg|unfold p; lia]. }
  exists off. split; [rewrite He; eapply ints_get; [exact Hoff'|lia|done]|].
  assert (Hzk : zlen (pick h size i pl) = zlen (sel h size i ws)) by (rewrite <- Hpl; apply pick_sel).
  unfold bucket_view. destruct (pick h size i pl) as [|x0 items] eqn:Ep.
  - cbn in Hzk. assert (Hz : counts h size ws !! Z.to_nat i = Some 0) by (unfold counts; rewrite table_lookup by done; by rewrite <- Hzk).
    apply (offsets_zero hw iw p) in Hz. fold O in Hz. congruence.
  - rewrite zlen_cons in Hzk. zlen_facts. assert (Hc : bk_cap k <> 0) by (unfold k; cbn; lia).
    assert (Ho : offsets hw iw (zlen (pre ++ ints O)) (bk_cap <$> P) !! Z.to_nat i = Some off) by (by rewrite Hpz, Hcaps).
    destruct (imgs_mid hw iw (pre ++ ints O) post P _ k Hok Hat Hc) as (x & y & _ & Hx & _). rewrite Hx, Hpz in Ho. injection Ho as Ho.
    split; [zlen_facts; unfold p in *; lia|]. assert (Ho' : offsets hw iw (zlen (pre ++ ints O)) (bk_cap <$> P) !! Z.to_nat i = Some off) by (by rewrite Hpz, Hcaps).
    split.
    + rewrite He', (bucket_count hw iw _ _ P _ k off Hok Hat Hc Hhw Ho'). cbn. by rewrite zlen_cons, Hzk.
    + intros j v Hj. change (x0 :: items) with (bk_items k) in Hj.
      destruct (bucket_item hw iw (pre ++ ints O) post P _ k off j v Hok Hat Hj Ho') as (u & u' & E & Hu). exists u, u'. by rewrite He'.
Qed.

(** The token of an entry of [place]. *)
Lemma place_token ws q x w : (x, w) ∈ place q ws -> 0 <= q -> exists u v, toks ws = u ++ token_img w ++ v /\ x = le_bytes 4 (q + zlen u).
Proof.
  revert q. induction ws as [|w0 ws IH]; intros q; [by intros ?%elem_of_nil|]. zlen_facts. cbn [place]. intros [[= -> ->]|Hin]%elem_of_cons Hq.
  - exists [], (toks ws). split; [done|]. change (zlen (@nil Z)) with 0. by rewrite Z.add_0_r.
  - destruct (IH _ Hin) as (u & v & E & ->); [zlen_facts; lia|]. exists (token_img w0 ++ u), v. split.
    + unfold toks in *. rewrite fmap_cons. cbn [concat]. rewrite E. by rewrite <- !app_assoc.
    + rewrite zlen_app. f_equal. lia.
Qed.
Record engine_view (e : list Z) (ts ws2 ws3 : list (list Z)) : Prop := {
  ev_a : forall c, 0 <= c < 256 -> a_data e c = Some (flags ts c);
  ev_fields : (exists p q, get_int e at_ab_data_offset = Some p /\ get_int e at_abc_data_offset = Some q) /\
    get_int e at_ab_size = Some (size_of ws2) /\ get_int e at_abc_size = Some (size_of ws3);
  ev_pair : ws2 <> [] -> table_view e 2 2 h2 at_ab_data_offset at_ab_size ws2 (pairs ws2);
  ev_long : ws3 <> [] -> exists q, table_view e 4 4 h3 at_abc_data_offset at_abc_size ws3 (place q ws3) /\
    forall x w, (x, w) ∈ place q ws3 -> exists u v, e = u ++ token_img w ++ v /\ x = le_bytes 4 (zlen u) /\ zlen u < 2 ^ 31
}.
Lemma layout_view top ws2 ws3 r e ts len : let a := table 256 (flags ts) in top = final_top a len ->
  NoDup ws2 -> Forall (fun w => length w = 2%nat) ws2 -> Forall token_ok ws2 -> zlen ws2 <= max_words -> zlen ws3 <= max_words ->
  e = layout top ws2 ws3 ++ r -> zlen e < 2 ^ 31 -> engine_view e ts ws2 ws3.
Proof.
  intros a Htop Hnd Hl Ht Hw2 Hw3 He Hlen. unfold max_words in *. assert (Hza : zlen a = 256) by (by apply zlen_table).
  assert (Hzt : zlen top = 268) by (rewrite Htop; by apply zlen_final). zlen_facts.
  unfold layout in He. rewrite <- !app_assoc in He.
  assert (Hzh : zlen (top ++ ints (fields ws2 ws3)) = engine_size) by (rewrite zlen_app, Hzt, zlen_ints; done).
  assert (Hsz : zlen e = engine_size + zlen (pair_table engine_size ws2) + zlen (long_table (long_at ws2) ws3) + zlen r).
  { rewrite He, (app_assoc top), !zlen_app, <- zlen_app, Hzh. lia. }
  pose proof (size_of_le ws2) as Hs2. pose proof (size_of_le ws3) as Hs3.
  assert (Hlp : 284 <= long_at ws2) by (unfold long_at, engine_size; pose proof (zlen_nonneg (pair_table 284 ws2)); lia).
  assert (Hnn : 0 <= size_of ws2 /\ 0 <= size_of ws3) by (clear -ws2; split; destruct ws2, ws3; cbn; zlen_facts; lia).
  assert (Hfield : forall k off v, fields ws2 ws3 !! k = Some v -> off = 268 + 4 * Z.of_nat k -> 0 <= v < 2 ^ 31 -> get_int e off = Some v).
  { intros k off v Hk Hoff Hv. rewrite He. by apply (field_get top (fields ws2 ws3) _ k). }
  assert (Hat : 0 <= at_of ws3 (long_at ws2) < 2 ^ 31).
  { zlen_facts. unfold at_of. destruct ws3; [done|]. unfold long_at in *. pose proof (zlen_nonneg (long_table (engine_size + zlen (pair_table engine_size ws2)) (l :: ws3))). lia. }
  split.
  - intros c Hc. unfold a_data, at_a_data. rewrite He, Htop. unfold final_top. rewrite <- !app_assoc.
    rewrite (app_assoc _CODE_VERSION), (app_assoc _CODE_ID).
    rewrite rd_app_r by (rewrite !zlen_app, zlen_le; change (zlen _CODE_ID) with 4; change (zlen _CODE_VERSION) with 4; lia).
    rewrite !zlen_app, zlen_le. change (zlen _CODE_ID) with 4. change (zlen _CODE_VERSION) with 4.
    rewrite rd_app_l by lia. replace (12 + c - (4 + (4 + Z.of_nat 4))) with c by lia. unfold rd. destruct (Z.ltb_spec c 0); [lia|].
    by apply table_lookup.
  - split; [exists (at_of ws2 engine_size), (at_of ws3 (long_at ws2)); split|split].
    + apply (Hfield 0%nat); [done|done|by destruct ws2].
    + by apply (Hfield 2%nat).
    + apply (Hfield 1%nat); [done|done|lia].
    + apply (Hfield 3%nat); [done|done|lia].
  - intros Hne. eapply (table_view_of e (top ++ ints (fields ws2 ws3)) (long_table (long_at ws2) ws3 ++ r)); rewrite ?Hzh; try done.
    + apply pairs_snd.
    + by apply Forall_fmap.
    + by apply small_pairs.
    + apply (Hfield 0%nat); [by destruct ws2|done|done].
    + apply (Hfield 1%nat); [done|done|lia].
    + rewrite He, <- !app_assoc. do 2 f_equal. by destruct ws2.
  - intros Hne. set (pre := top ++ ints (fields ws2 ws3) ++ pair_table engine_size ws2).
    assert (Hpre : zlen pre = long_at ws2) by (unfold pre, long_at; by rewrite app_assoc, zlen_app, Hzh).
    set (q := tokens_at (long_at ws2) ws3). assert (Hlong : long_table (long_at ws2) ws3 = table_img 4 4 h3 (long_at ws2) ws3 (place q ws3) ++ toks ws3) by (by destruct ws3).
    assert (Hsm : small h3 (size_of ws3) 4 ws3) by (intros i; pose proof (sel_le h3 (size_of ws3) i ws3); cbn; lia).
    assert (He' : e = pre ++ table_img 4 4 h3 (long_at ws2) ws3 (place q ws3) ++ toks ws3 ++ r).
    { rewrite He, Hlong. unfold pre. by rewrite <- !app_assoc. }
    assert (Hss : 0 < size_of ws3) by (destruct ws3; [done|cbn; zlen_facts; lia]).
    exists q. split.
    + eapply (table_view_of e pre (toks ws3 ++ r)); rewrite ?Hpre; try done.
      * lia.
      * apply place_snd.
      * apply place_len.
      * apply (Hfield 2%nat); [by destruct ws3|done|by destruct ws3].
      * apply (Hfield 3%nat); [done|done|lia].
      * lia.
    + intros x w Hin. set (im := table_img 4 4 h3 (long_at ws2) ws3 (place q ws3)) in *.
      assert (Hq : zlen (pre ++ im) = q).
      { unfold im. rewrite zlen_app, Hpre, table_len; [unfold q, tokens_at; lia|lia|apply place_snd|apply place_len|done|done]. }
      destruct (place_token _ _ _ _ Hin) as (u & v & E & ->); [rewrite <- Hq; apply zlen_nonneg|]. exists (pre ++ im ++ u), (v ++ r). split; [|split].
      * rewrite He', E. by rewrite <- !app_assoc.
      * f_equal. rewrite app_assoc, zlen_app. lia.
      * assert (zlen e = zlen (pre ++ im ++ u) + (zlen (token_img w) + zlen v + zlen r)).
        { rewrite He', E, <- !app_assoc. rewrite !zlen_app. lia. }
        zlen_facts. lia.
Qed.

(** The words are fit for an engine. *)
Record words_ok (ts : list (list Z)) : Prop := {
  wo_bytes : Forall token_ok ts; wo_len : Forall accepted ts; wo_many : zlen ts <= max_words
}.
Section built.
Context (ts ws2 ws3 : list (list Z)).
Hypotheses (Hok : words_ok ts) (H2 : sorted_words (fun n => n = 2) ts ws2) (H3 : sorted_words (fun n => 3 <= n) ts ws3).
Lemma pairs_words : NoDup ws2 /\ Forall (fun w => length w = 2%nat) ws2 /\ Forall token_ok ws2.
Proof using Hok H2.
  destruct Hok as [Hb _ _], H2 as [So2 Hk2]. rewrite Forall_forall in Hb. split; [by apply sorted_nodup|].
  split; apply Forall_forall; intros w [Hw Hl]%Hk2; [cbn in Hl; unfold zlen in Hl; lia|by apply Hb].
Qed.
Lemma long_words : Forall (fun w => 3 <= zlen w <= 4096) (kept None ws3).
Proof using Hok H3.
  destruct Hok as [_ Ha _], H3 as [_ Hk3]. rewrite Forall_forall in Ha. apply Forall_forall. intros w [Hw Hl]%kept_in%Hk3.
  specialize (Ha w Hw). unfold accepted, _MAX_LINE_SIZE in Ha. cbn in Hl. lia.
Qed.
Lemma few_words : zlen ws2 <= max_words /\ zlen (kept None ws3) <= max_words.
Proof using Hok H2 H3.
  destruct Hok as [_ _ Hm]. pose proof (words_count _ _ _ H2 H3). pose proof (zlen_kept ws3). zlen_facts. lia.
Qed.
Lemma engine_len : zlen (engine_bytes ts ws2 ws3) = zlen (layout (top_of (table 256 (flags ts))) ws2 (kept None ws3)) /\
  zlen (engine_bytes ts ws2 ws3) < 2 ^ 29.
Proof using Hok H2 H3.
  destruct pairs_words as (P1 & P2 & P3). destruct few_words as [F2 F3]. unfold max_words in *.
  pose proof (pair_table_len engine_size ws2 P1 P2 P3). pose proof (long_table_len (long_at ws2) _ long_words F3).
  assert (Hza : zlen (table 256 (flags ts)) = 256) by (by apply zlen_table). unfold engine_bytes, layout.
  rewrite !(zlen_app _ (ints _ ++ _)), zlen_final by done. unfold top_of. rewrite ?(zlen_app (replicate 12 0)), Hza. split; [done|].
  rewrite !zlen_app, zlen_ints. change (zlen (fields _ _)) with 4. lia.
Qed.
Lemma engine_bytes_view r : zlen (engine_bytes ts ws2 ws3 ++ r) < 2 ^ 31 -> engine_view (engine_bytes ts ws2 ws3 ++ r) ts ws2 (kept None ws3).
Proof using Hok H2 H3.
  intros Hlen. destruct pairs_words as (P1 & P2 & P3), few_words as [F2 F3]. by eapply layout_view.
Qed.
Lemma engine_bytes_len r : get_int (engine_bytes ts ws2 ws3 ++ r) at_data_len = Some (zlen (engine_bytes ts ws2 ws3)).
Proof using Hok H2 H3.
  destruct engine_len as [E Hl]. unfold engine_bytes at 1, layout at 1, final_top at 1. rewrite <- E, <- !app_assoc.
  rewrite (app_assoc _CODE_ID). apply get_num_at; [done|lia|]. zlen_facts. lia.
Qed.
End built.
