(* ===== verification/MsearchFind.v ===== *)
(** * Search for many words: what a search finds *)
From stdpp Require Import gmap sorting.
From S2P Require Import Prelude StateMonad Rbset Keyed KeyedSpec KeyedRefine Maps Msearch MsearchMem MsearchBuild MsearchWords MsearchEngine MsearchOver MsearchView.

(** ** Reading *)
Lemma rd_inside (u x v : list Z) (i : nat) (c : Z) : x !! i = Some c -> rd (u ++ x ++ v) (zlen u + Z.of_nat i) = Some c.
Proof.
  intros Hi. zlen_facts. pose proof (lookup_lt_Some _ _ _ Hi). rewrite rd_app_r, rd_app_l by (unfold zlen in *; lia).
  unfold rd. destruct (Z.ltb_spec (zlen u + Z.of_nat i - zlen u) 0); [lia|].
  by replace (Z.to_nat (zlen u + Z.of_nat i - zlen u)) with i by lia.
Qed.
Lemma sorted_at {A} (R : A -> A -> Prop) l : StronglySorted R l -> forall i j x y, l !! i = Some x -> l !! j = Some y -> (i < j)%nat -> R x y.
Proof.
  induction 1 as [|z l _ IH Hz]; intros [|i] [|j] x y Hx Hy Hij; try (done || lia); cbn in *.
  - injection Hx as ->. rewrite Forall_forall in Hz. apply Hz. by eapply list_elem_of_lookup_2.
  - by eapply (IH i j); [| |lia].
Qed.

(** ** The search among pairs *)
Section pairs.
Context (e : list Z) (D hv : Z) (items : list (list Z)).
Hypothesis Hitems : forall j w, items !! j = Some w -> length w = 2%nat /\
  rd e (D + 2 * Z.of_nat j) = Some (nth 0 w 0) /\ rd e (D + (2 * Z.of_nat j + 1)) = Some (nth 1 w 0).
Hypothesis Hsorted : StronglySorted (fun a b => h2 a < h2 b) items.
Lemma search_pair_spec fuel : forall sti edi, 0 <= sti <= edi -> edi <= zlen items -> (Z.to_nat (edi - sti) < fuel)%nat ->
  (forall j w, items !! j = Some w -> h2 w = hv -> sti <= Z.of_nat j < edi) ->
  exists r, search_pair fuel e D hv sti edi = Some r /\ (r = true <-> exists w, w ∈ items /\ h2 w = hv).
Proof using Hitems Hsorted.
  induction fuel as [|fuel IH]; intros sti edi H0 H1 Hf Hin; [lia|]. cbn [search_pair]. destruct (Z.leb_spec edi sti).
  { exists false. split; [done|]. split; [done|]. intros (w & [j Hj]%list_elem_of_lookup & Hw). specialize (Hin j w Hj Hw). lia. }
  set (mdi := (sti + edi) / 2). assert (Hm : sti <= mdi < edi) by (unfold mdi; zdiv).
  destruct (lookup_lt_is_Some_2 items (Z.to_nat mdi) ltac:(unfold zlen in H1; lia)) as [m Hmid].
  destruct (Hitems _ _ Hmid) as (Hl & E0 & E1). rewrite Z2Nat.id in E0, E1 by lia. rewrite E0, E1. cbn [mbind option_bind].
  rewrite Z.shiftl_mul_pow2 by lia. change (nth 0 m 0 * 2 ^ 8 + nth 1 m 0) with (h2 m).
  destruct (Z.eqb_spec hv (h2 m)) as [E|Hne].
  { exists true. split; [done|]. split; [|done]. intros _. exists m. split; [by eapply list_elem_of_lookup_2|done]. }
  destruct (Z.ltb_spec hv (h2 m)); apply IH; try lia; intros j w Hj Hw; specialize (Hin j w Hj Hw).
  - split; [lia|]. enough (Z.of_nat j <> edi - 1) by lia. intros Ej.
    destruct (decide (j = Z.to_nat mdi)) as [->|]; [by simplify_eq|]. pose proof (sorted_at _ _ Hsorted (Z.to_nat mdi) j _ _ Hmid Hj ltac:(lia)) as Hs. cbn beta in Hs. lia.
  - split; [|lia]. enough (Z.of_nat j <> sti) by lia. intros Ej.
    destruct (decide (j = Z.to_nat mdi)) as [->|]; [by simplify_eq|]. pose proof (sorted_at _ _ Hsorted j (Z.to_nat mdi) _ _ Hj Hmid ltac:(lia)) as Hs. cbn beta in Hs. lia.
Qed.
End pairs.

(** ** The search among longer words *)

(** A token [w] at the offset [o] of [e]. *)
Definition token_at (e : list Z) (o : Z) (w : list Z) : Prop := 0 <= o < 2 ^ 31 /\ zlen w < 2 ^ 15 /\ exists u v, e = u ++ token_img w ++ v /\ zlen u = o.
Lemma token_len e o w : token_at e o w -> get_short e o = Some (zlen w).
Proof.
  intros (Ho & Hw & u & v & -> & <-). zlen_facts. unfold token_img. rewrite <- app_assoc. apply get_num_at; [done|lia|lia].
Qed.
Lemma token_take e o w n : token_at e o w -> 0 <= n <= zlen w -> get_bytes e (o + 2) n = Some (take (Z.to_nat n) w).
Proof.
  intros (Ho & Hw & u & v & -> & <-) Hn. unfold token_img.
  assert (E : u ++ (le_bytes 2 (zlen w) ++ w) ++ v = (u ++ le_bytes 2 (zlen w)) ++ take (Z.to_nat n) w ++ (drop (Z.to_nat n) w ++ v)).
  { rewrite (app_assoc (take _ _)), take_drop. by rewrite <- !app_assoc. }
  rewrite E. apply get_bytes_at; [by rewrite zlen_app, zlen_le|]. unfold zlen in *. rewrite length_take. lia.
Qed.
Lemma text_take (text s : list Z) i n : get_bytes text i (zlen s) = Some s -> 0 <= n <= zlen s -> get_bytes text i n = Some (take (Z.to_nat n) s).
Proof.
  unfold get_bytes. intros E Hn. destruct (Z.leb_spec 0 i), (Z.leb_spec 0 (zlen s)), (Z.leb_spec (i + zlen s) (zlen text)); try done. cbn [andb] in E.
  injection E as E. destruct (Z.leb_spec 0 n), (Z.leb_spec (i + n) (zlen text)); [|lia..]. cbn [andb]. f_equal. rewrite <- E at 1. rewrite take_take. f_equal. lia.
Qed.

(** Where a token that begins [x] stands, when [w] is another. *)
Lemma compare_front t : forall x w, t `prefix_of` x -> ~ t `prefix_of` w -> ~ w `prefix_of` t ->
  let n := Nat.min (length x) (length w) in let r := strcmp (take n x) (take n w) in r <> 0 /\ (r < 0 -> slt t w) /\ (0 < r -> slt w t).
Proof.
  induction t as [|c t IH]; intros x w Hx H1 H2; [by destruct H1; apply prefix_nil|]. destruct w as [|d w]; [by destruct H2; apply prefix_nil|].
  destruct x as [|c' x]; [by apply prefix_nil_not in Hx|]. pose proof (prefix_cons_inv_1 _ _ _ _ Hx) as <-. apply prefix_cons_inv_2 in Hx.
  unfold slt in *. cbn [length Nat.min take strcmp]. cmp_cases; try (split; [done|]; split; intros; (done || lia)).
  assert (c = d) as <- by lia. apply (IH x w Hx); intros Hp; [apply H1|apply H2]; by apply prefix_cons.
Qed.

Section long.
Context (e text : list Z) (i D : Z) (s : list Z) (items : list (list Z)).
Hypothesis Hitems : forall j w, items !! j = Some w -> exists o, get_int e (D + 4 * Z.of_nat j) = Some o /\ token_at e o w.
Hypothesis Hsorted : StronglySorted slt items.
Hypothesis Hfree : forall a b, a ∈ items -> b ∈ items -> a `prefix_of` b -> a = b.
Hypothesis Htext : get_bytes text i (zlen s) = Some s.
Lemma search_long_spec fuel : forall sti edi, 0 <= sti <= edi -> edi <= zlen items -> (Z.to_nat (edi - sti) < fuel)%nat ->
  (forall j w, items !! j = Some w -> w `prefix_of` s -> sti <= Z.of_nat j < edi) ->
  exists r, search_long fuel e text i (zlen s) D sti edi = Some r /\
    match r with Some n => exists w, w ∈ items /\ w `prefix_of` s /\ n = zlen w | None => forall w, w ∈ items -> ~ w `prefix_of` s end.
Proof using Hitems Hsorted Hfree Htext.
  induction fuel as [|fuel IH]; intros sti edi H0 H1 Hf Hin; [lia|]. cbn [search_long]. destruct (Z.leb_spec edi sti).
  { exists None. split; [done|]. intros w [j Hj]%list_elem_of_lookup Hw. specialize (Hin j w Hj Hw). lia. }
  set (mdi := (sti + edi) / 2). assert (Hm : sti <= mdi < edi) by (unfold mdi; zdiv).
  destruct (lookup_lt_is_Some_2 items (Z.to_nat mdi) ltac:(unfold zlen in H1; lia)) as [m Hmid].
  destruct (Hitems _ _ Hmid) as (o & Eo & Ht). rewrite Z2Nat.id in Eo by lia. rewrite Eo. cbn [mbind option_bind].
  rewrite (token_len _ _ _ Ht). cbn [mbind option_bind]. zlen_facts.
  set (n := Z.min (zlen s) (zlen m)). set (r := strcmp (take (Z.to_nat n) s) (take (Z.to_nat n) m)).
  assert (Hcmp : memcmp_at text i e (o + 2) n = Some r).
  { unfold memcmp_at. rewrite (text_take _ _ _ _ Htext), (token_take _ _ _ _ Ht) by lia. done. }
  assert (Hn : Z.to_nat n = Nat.min (length s) (length m)) by (unfold n, zlen; lia).
  assert (Hside : forall j w, items !! j = Some w -> w `prefix_of` s -> w <> m -> r <> 0 /\ (r < 0 -> (j < Z.to_nat mdi)%nat) /\ (0 < r -> (Z.to_nat mdi < j)%nat)).
  { intros j w Hj Hw Hne. assert (w ∈ items /\ m ∈ items) as [Iw Im] by (split; by eapply list_elem_of_lookup_2).
    destruct (compare_front w s m) as (C0 & C1 & C2); [done|intros ?%Hfree; done|intros ?%Hfree; [by subst|done..]|].
    rewrite <- Hn in C0, C1, C2. fold r in C0, C1, C2. split; [done|].
    assert (j <> Z.to_nat mdi) by (intros ->; congruence).
    split; intros Hr; [specialize (C1 Hr)|specialize (C2 Hr)]; destruct (decide (j < Z.to_nat mdi)%nat); try lia; exfalso.
    - pose proof (sorted_at _ _ Hsorted _ _ _ _ Hmid Hj ltac:(lia)) as Hs. unfold slt in *. pose proof (strcmp_lt_trans _ _ _ C1 Hs). apply (slt_irrefl w). done.
    - pose proof (sorted_at _ _ Hsorted _ _ _ _ Hj Hmid ltac:(lia)) as Hs. unfold slt in *. pose proof (strcmp_lt_trans _ _ _ C2 Hs). apply (slt_irrefl m). done. }
  destruct (Z.ltb_spec (zlen s) (zlen m)) as [Hlt|Hge].
  - assert (En : n = zlen s) by lia. rewrite En in Hcmp. rewrite Hcmp. cbn [mbind option_bind].
    assert (Hnm : forall w, w `prefix_of` s -> w <> m) by (intros w ?%prefix_length ->; unfold zlen in *; lia).
    destruct (Z.leb_spec r 0); apply IH; try lia; intros j w Hj Hw; specialize (Hin j w Hj Hw); destruct (Hside j w Hj Hw (Hnm w Hw)) as (? & ? & ?); lia.
  - assert (En : n = zlen m) by lia. rewrite En in Hcmp. rewrite Hcmp. cbn [mbind option_bind].
    assert (Hnm : zlen m = n) by lia. assert (Em : take (Z.to_nat n) m = m) by (apply take_ge; unfold zlen in *; lia).
    assert (Hr : r = 0 <-> m `prefix_of` s).
    { unfold r. rewrite Em, strcmp_eq_iff. assert (El : Z.to_nat n = length m) by (unfold zlen in *; lia). rewrite El. split.
      - intros Ex. rewrite <- Ex. apply prefix_take.
      - intros [v ->]. by rewrite take_app_length. }
    destruct (Z.eqb_spec r 0) as [E|E].
    { exists (Some (zlen m)). split; [done|]. exists m. split; [by eapply list_elem_of_lookup_2|]. split; [by apply Hr|done]. }
    assert (Hne : forall w, w `prefix_of` s -> w <> m) by (intros w Hw ->; tauto).
    destruct (Z.ltb_spec r 0); apply IH; try lia; intros j w Hj Hw; specialize (Hin j w Hj Hw); destruct (Hside j w Hj Hw (Hne w Hw)) as (? & ? & ?); lia.
Qed.
End long.

(** ** Flags and buckets *)
Lemma bit_one t c : bit (marks t c) 1 = true <-> t = [c].
Proof.
  split; [|intros ->; cbn; by rewrite Z.eqb_refl].
  destruct t as [|x [|y [|z t]]]; [done| | |]; cbn; repeat match goal with |- context [?a =? ?b] => destruct (Z.eqb_spec a b) end; cbn; by subst.
Qed.
Lemma bit_two t c : bit (marks t c) 2 = true <-> exists y, t = [c; y].
Proof.
  split; [|intros [y ->]; cbn; rewrite Z.eqb_refl; by destruct (c =? y)].
  destruct t as [|x [|y [|z t]]]; [done| | |]; cbn; repeat match goal with |- context [?a =? ?b] => destruct (Z.eqb_spec a b) end; cbn; subst; try done; by eexists.
Qed.
Lemma bit_four x y : bit (marks [x; y] y) 4 = true.
Proof. cbn. rewrite Z.eqb_refl. by destruct (y =? x). Qed.
Lemma bit_eight t c : bit (marks t c) 8 = true <-> exists y z t', t = c :: y :: z :: t'.
Proof.
  split; [|intros (y & z & t' & ->); cbn; rewrite Z.eqb_refl; by destruct (c =? y), (c =? z)].
  destruct t as [|x [|y [|z t]]]; [done| | |]; cbn; repeat match goal with |- context [?a =? ?b] => destruct (Z.eqb_spec a b) end; cbn; subst; try done; by do 3 eexists.
Qed.
Lemma bit_more x y z t : bit (marks (x :: y :: z :: t) y) 16 = true /\ bit (marks (x :: y :: z :: t) z) 32 = true.
Proof. cbn. rewrite !Z.eqb_refl. split; [by destruct (y =? x), (y =? z)|by destruct (z =? x), (z =? y)]. Qed.

Lemma pick_pairs h size i ws : pick h size i (pairs ws) = sel h size i ws.
Proof.
  unfold pick, sel, pairs. induction ws as [|w ws IH]; [done|]. rewrite fmap_cons, !filter_cons. cbn [snd].
  destruct (decide _); [by rewrite fmap_cons, IH|done].
Qed.
Lemma sel_pl h size i (pl : list (list Z * list Z)) : sel h size i pl.*2 = (filter (fun e => h e.2 mod size = i) pl).*2.
Proof.
  unfold sel. induction pl as [|e pl IH]; [done|]. rewrite fmap_cons, !filter_cons. destruct (decide _); [by rewrite fmap_cons, IH|done].
Qed.
Lemma sorted_filter {A} (R : A -> A -> Prop) (P : A -> Prop) `{!forall x, Decision (P x)} l : StronglySorted R l -> StronglySorted R (filter P l).
Proof.
  induction 1 as [|x l _ IH Hx]; [constructor|]. rewrite filter_cons. destruct (decide _); [|done]. constructor; [done|].
  apply Forall_forall. intros y [_ Hy]%list_elem_of_filter. rewrite Forall_forall in Hx. by apply Hx.
Qed.
Lemma sorted_weaken {A} (R S : A -> A -> Prop) l : (forall x y, R x y -> S x y) -> StronglySorted R l -> StronglySorted S l.
Proof. intros HRS. induction 1 as [|x l _ IH Hx]; constructor; [done|]. eapply Forall_impl; [exact Hx|]. apply HRS. Qed.
Lemma sorted_h2 ws : StronglySorted slt ws -> Forall (fun w => length w = 2%nat) ws -> Forall token_ok ws -> StronglySorted (fun a b => h2 a < h2 b) ws.
Proof.
  induction 1 as [|w ws _ IH Hw]; intros Hl Ht; constructor; inversion_clear Hl; inversion_clear Ht; [by apply IH|].
  rewrite Forall_forall in *. intros x Hx. specialize (Hw x Hx). specialize (H0 x Hx). specialize (H2 x Hx). cbn beta in *.
  destruct w as [|a0 [|a1 [|? ?]]], x as [|b0 [|b1 [|? ?]]]; try done. unfold slt in Hw. cbn in Hw. unfold h2. cbn.
  repeat match goal with H : token_ok (_ :: _) |- _ => inversion_clear H | H : Forall _ (_ :: _) |- _ => inversion_clear H end. revert Hw. cmp_cases; lia.
Qed.
Lemma get_bytes_split m p n x : get_bytes m p n = Some x -> exists u v, m = u ++ x ++ v /\ zlen u = p /\ zlen x = n.
Proof.
  unfold get_bytes. destruct (Z.leb_spec 0 p), (Z.leb_spec 0 n), (Z.leb_spec (p + n) (zlen m)); try done. cbn [andb]. intros [= <-].
  exists (take (Z.to_nat p) m), (drop (Z.to_nat n) (drop (Z.to_nat p) m)). split; [by rewrite !take_drop|].
  unfold zlen in *. rewrite !length_take, length_drop. lia.
Qed.
Lemma rd_text text i s j c : get_bytes text i (zlen s) = Some s -> s !! j = Some c -> rd text (i + Z.of_nat j) = Some c.
Proof. intros (u & v & -> & <- & _)%get_bytes_split Hj. by apply rd_inside. Qed.
