(* ===== verification/MsearchMatch.v ===== *)
(** * Search for many words: the answer at a position, and of a search *)
From stdpp Require Import gmap sorting.
From S2P Require Import Prelude StateMonad Rbset Keyed KeyedSpec KeyedRefine Maps Msearch MsearchMem MsearchBuild MsearchWords MsearchEngine MsearchOver MsearchView MsearchFind.

(** ** The reference *)

(** The words of [ts] at the beginning of [s], and the length of the shortest. *)
Definition hits (ts : list (list Z)) (s : list Z) : list (list Z) := filter (fun t => t `prefix_of` s) ts.
Definition shortest (ts : list (list Z)) (s : list Z) : option Z :=
  match hits ts s with [] => None | t :: l => Some (foldr Z.min (zlen t) (zlen <$> l)) end.
(** The leftmost position with a word, from [i] on. *)
Fixpoint leftmost (ts : list (list Z)) (s : list Z) (i : Z) : option (Z * Z) :=
  match s with
  | [] => None
  | _ :: s' => match shortest ts s with Some n => Some (i, n) | None => leftmost ts s' (i + 1) end
  end.
(** The number of matched bytes when it is two, 1 otherwise, 0 without a match; the
    position, the last one without a match; the length. *)
Definition ret_of (n : Z) : Z := if n =? 2 then 2 else 1.
Definition answer (ts : list (list Z)) (s : list Z) : Z * option Z * option Z :=
  match leftmost ts s 0 with
  | Some (i, n) => (ret_of n, Some i, Some n)
  | None => (0, if zlen s =? 0 then None else Some (zlen s - 1), None)
  end.

Lemma foldr_min (l : list Z) m : foldr Z.min m l <= m /\ Forall (fun x => foldr Z.min m l <= x) l /\ (foldr Z.min m l = m \/ foldr Z.min m l ∈ l).
Proof.
  induction l as [|x l (H1 & H2 & H3)]; [cbn; split; [lia|]; split; [constructor|by left]|]. cbn [foldr]. split; [lia|]. split.
  - constructor; [lia|]. eapply Forall_impl; [exact H2|]. cbn. intros. lia.
  - destruct (Z.min_spec x (foldr Z.min m l)) as [[_ ->]|[_ ->]]; [right; by left|]. destruct H3 as [?|?]; [by left|right; by right].
Qed.
Lemma shortest_some ts s n : shortest ts s = Some n <->
  (exists t, t ∈ ts /\ t `prefix_of` s /\ zlen t = n) /\ forall t, t ∈ ts -> t `prefix_of` s -> n <= zlen t.
Proof.
  unfold shortest. assert (Hh : forall t, t ∈ hits ts s <-> t ∈ ts /\ t `prefix_of` s) by (intros t; unfold hits; rewrite list_elem_of_filter; tauto).
  destruct (hits ts s) as [|t0 l]; [split; [done|]; intros [(t & H1 & H2 & _) _]; by pose proof (proj2 (Hh t) (conj H1 H2)) as ?%elem_of_nil|].
  destruct (foldr_min (zlen <$> l) (zlen t0)) as (M1 & M2 & M3). set (m := foldr _ _ _) in *. rewrite Forall_forall in M2.
  assert (Hmin : forall t, t ∈ ts -> t `prefix_of` s -> m <= zlen t).
  { intros t H1 H2. pose proof (proj2 (Hh t) (conj H1 H2)) as [->|Hl]%elem_of_cons; [done|]. by apply M2, list_elem_of_fmap_2. }
  assert (Hex : exists t, t ∈ ts /\ t `prefix_of` s /\ zlen t = m).
  { destruct M3 as [->|(t & E & Ht)%list_elem_of_fmap].
    - destruct (proj1 (Hh t0) ltac:(by left)) as [? ?]. by exists t0.
    - destruct (proj1 (Hh t) ltac:(by right)) as [? ?]. by exists t. }
  split; [intros [= <-]; by split|]. intros [(t & H1 & H2 & <-) H3]. f_equal. destruct Hex as (t' & ? & ? & E).
  specialize (H3 t' ltac:(done) ltac:(done)). specialize (Hmin t H1 H2). lia.
Qed.
Lemma shortest_none ts s : shortest ts s = None <-> forall t, t ∈ ts -> ~ t `prefix_of` s.
Proof.
  unfold shortest. assert (Hh : forall t, t ∈ hits ts s <-> t ∈ ts /\ t `prefix_of` s) by (intros t; unfold hits; rewrite list_elem_of_filter; tauto).
  destruct (hits ts s) as [|t0 l].
  - split; [|done]. intros _ t H1 H2. by pose proof (proj2 (Hh t) (conj H1 H2)) as ?%elem_of_nil.
  - split; [done|]. intros H. destruct (proj1 (Hh t0) ltac:(by left)) as [? Hp]. by destruct (H t0).
Qed.

(** A word of three bytes or more at the beginning. *)
Lemma long_front (s t : list Z) : 3 <= zlen t -> t `prefix_of` s -> exists c0 c1 c2 t' s', t = c0 :: c1 :: c2 :: t' /\ s = c0 :: c1 :: c2 :: s'.
Proof.
  intros Hl [r ->]. destruct t as [|c0 [|c1 [|c2 t]]]; try (rewrite ?zlen_cons in Hl; zlen_nils; lia). by exists c0, c1, c2, t, (t ++ r).
Qed.

(** No kept word begins another. *)
Lemma kept_unique ws a b : StronglySorted slt ws -> a ∈ kept None ws -> b ∈ kept None ws -> a `prefix_of` b \/ b `prefix_of` a -> a = b.
Proof.
  intros Hs Ha Hb Hp. pose proof (kept_free None ws Hs) as Hfree. cbn [opt_cons] in Hfree.
  assert (Hone : forall x y, x ∈ kept None ws -> y ∈ kept None ws -> x `prefix_of` y -> x = y); [|by destruct Hp; [|symmetry]; apply Hone].
  clear a b Ha Hb Hp. intros a b Ha Hb Hp. apply list_elem_of_lookup in Ha as [ja Ea], Hb as [jb Eb].
  destruct (lt_eq_lt_dec ja jb) as [[Hlt|E]|Hlt]; [|subst; congruence|]; exfalso.
  - by destruct (sorted_at _ _ Hfree ja jb _ _ Ea Eb Hlt).
  - destruct (sorted_at _ _ Hfree jb ja _ _ Eb Ea Hlt) as [Hlt' _]. apply prefix_le in Hp. unfold slt in Hlt'.
    destruct (Z.eq_dec (strcmp a b) 0) as [E%strcmp_eq_iff|]; [subst; by apply (slt_irrefl b)|].
    apply (slt_irrefl b). unfold slt. eapply strcmp_lt_trans; [exact Hlt'|lia].
Qed.

(** The bucket of a pair. *)
Lemma probe_pair (e : list Z) ws off hv : StronglySorted slt ws -> Forall (fun w => length w = 2%nat) ws -> Forall token_ok ws -> let size := size_of ws in
  bucket_view e 2 2 off (sel h2 size (hv mod size) ws) ->
  exists r, (if off =? 0 then Some false else edi ← get_short e off; search_pair (S (Z.to_nat edi)) e (off + 2) hv 0 edi) = Some r /\
    (r = true <-> exists w, w ∈ ws /\ h2 w = hv).
Proof.
  intros So P2 P3 size Hb. assert (Hhit : (exists w, w ∈ ws /\ h2 w = hv) <-> exists w, w ∈ sel h2 size (hv mod size) ws /\ h2 w = hv).
  { split; intros (w & Hw & E); exists w; (split; [|done]); [by apply list_elem_of_filter; rewrite E|by apply list_elem_of_filter in Hw as [_ ?]]. }
  setoid_rewrite Hhit. set (items := sel h2 size (hv mod size) ws) in *.
  assert (Hit : forall w, w ∈ items -> length w = 2%nat) by (intros w [_ Hw]%list_elem_of_filter; rewrite Forall_forall in P2; by apply P2).
  destruct (decide (items = [])) as [E0|Hne].
  { rewrite E0 in *. cbn in Hb. subst off. exists false. split; [done|]. split; [done|]. by intros (w & ?%elem_of_nil & _). }
  assert (Hb' : off <> 0 /\ get_num 2 e off = Some (zlen items) /\
      forall j x, items !! j = Some x -> exists u v, e = u ++ x ++ v /\ zlen u = off + Z.of_nat 2 + Z.of_nat 2 * Z.of_nat j) by (by destruct items).
  clear Hb. destruct Hb' as (Hoff & En & Hread). rewrite (proj2 (Z.eqb_neq off 0)) by done. rewrite En. cbn [mbind option_bind].
  pose proof (zlen_nonneg items). apply search_pair_spec with (items := items); try lia.
  - intros j w Hj. pose proof (Hit w (list_elem_of_lookup_2 _ _ _ Hj)) as Hw. split; [done|]. destruct w as [|x0 [|x1 [|? ?]]]; try done.
    destruct (Hread _ _ Hj) as (u & v & -> & Hu). split.
    + replace (off + 2 + 2 * Z.of_nat j) with (zlen u + Z.of_nat 0) by lia. by apply rd_inside.
    + replace (off + 2 + (2 * Z.of_nat j + 1)) with (zlen u + Z.of_nat 1) by lia. by apply rd_inside.
  - apply sorted_filter. by apply sorted_h2.
  - intros j w Hj _. apply lookup_lt_Some in Hj. unfold zlen. lia.
Qed.
(** The bucket of three bytes. *)
Lemma probe_long (e text s : list Z) i q K off hv : get_bytes text i (zlen s) = Some s ->
  StronglySorted slt K -> (forall a b, a ∈ K -> b ∈ K -> a `prefix_of` b -> a = b) -> Forall (fun w => 3 <= zlen w <= 4096) K ->
  (forall x w, (x, w) ∈ place q K -> exists u v, e = u ++ token_img w ++ v /\ x = le_bytes 4 (zlen u) /\ zlen u < 2 ^ 31) ->
  (forall w, w ∈ K -> w `prefix_of` s -> h3 w = hv) -> bucket_view e 4 4 off (pick h3 (size_of K) (hv mod size_of K) (place q K)) ->
  exists r, (if off =? 0 then Some None else edi ← get_int e off; search_long (S (Z.to_nat edi)) e text i (zlen s) (off + 4) 0 edi) = Some r /\
    match r with Some n => exists w, w ∈ K /\ w `prefix_of` s /\ n = zlen w | None => forall w, w ∈ K -> ~ w `prefix_of` s end.
Proof.
  intros Htext So Hfree Hlong Htok Hhash Hbk. rewrite Forall_forall in Hlong.
  set (pl := filter (fun x : list Z * list Z => h3 x.2 mod size_of K = hv mod size_of K) (place q K)).
  assert (Hitems : sel h3 (size_of K) (hv mod size_of K) K = pl.*2) by (unfold pl; rewrite <- sel_pl; by rewrite place_snd).
  assert (Hin : forall w, w ∈ K -> w `prefix_of` s -> w ∈ pl.*2).
  { intros w Hw Hp. rewrite <- Hitems. apply list_elem_of_filter. split; [|done]. by rewrite (Hhash w Hw Hp). }
  assert (Hsub : forall w, w ∈ pl.*2 -> w ∈ K) by (intros w; rewrite <- Hitems; by intros [_ ?]%list_elem_of_filter).
  unfold bucket_view, pick in Hbk. fold pl in Hbk.
  destruct (decide (pl = [])) as [E0|Hne].
  { rewrite E0 in *. cbn in Hbk. subst off. exists None. split; [done|]. intros w Hw Hp. specialize (Hin w Hw Hp). by apply elem_of_nil in Hin. }
  assert (Hbk' : off <> 0 /\ get_num 4 e off = Some (zlen pl.*1) /\
      forall j x, pl.*1 !! j = Some x -> exists u v, e = u ++ x ++ v /\ zlen u = off + Z.of_nat 4 + Z.of_nat 4 * Z.of_nat j) by (by destruct pl).
  clear Hbk. destruct Hbk' as (Hoff & En & Hread). rewrite (proj2 (Z.eqb_neq off 0)) by done. rewrite En. cbn [mbind option_bind].
  rewrite zlen_fmap. assert (Hzp : zlen pl.*2 = zlen pl) by apply zlen_fmap. pose proof (zlen_nonneg pl).
  destruct (search_long_spec e text i (off + 4) s pl.*2) with (fuel := S (Z.to_nat (zlen pl))) (sti := 0) (edi := zlen pl) as (r & Er & Hr); try lia; try done.
  - intros j w Hj. rewrite list_lookup_fmap in Hj. destruct (pl !! j) as [[x w']|] eqn:Ej; [|done]. injection Hj as ->.
    destruct (Hread j x) as (u & v & E & Hu); [by rewrite list_lookup_fmap, Ej|].
    assert (Hxw : (x, w) ∈ place q K) by (apply list_elem_of_lookup_2 in Ej; by apply list_elem_of_filter in Ej as [_ ?]).
    destruct (Htok x w Hxw) as (u' & v' & E' & -> & Hu'). exists (zlen u'). pose proof (zlen_nonneg u'). split.
    + rewrite E. replace (off + 4 + 4 * Z.of_nat j) with (zlen u) by lia. apply get_num_at; [done|lia|lia].
    + split; [lia|]. split; [|by exists u', v'].
      assert (HwK : w ∈ K) by (apply Hsub, list_elem_of_fmap; exists (le_bytes 4 (zlen u'), w); split; [done|by eapply list_elem_of_lookup_2]).
      specialize (Hlong w HwK). cbn in Hlong. lia.
  - rewrite <- Hitems. by apply sorted_filter.
  - intros a b Ha%Hsub Hb'%Hsub Hp. by apply Hfree.
  - intros j w Hj _. apply lookup_lt_Some in Hj. rewrite length_fmap in Hj. unfold zlen. lia.
  - exists r. split; [exact Er|]. destruct r as [n|]; [destruct Hr as (w & Hw & ? & ?); exists w; split; [by apply Hsub|done]|].
    intros w Hw Hp. by apply (Hr w (Hin w Hw Hp)).
Qed.

(** ** One position *)
Section position.
Context (e : list Z) (ts ws2 ws3 : list (list Z)).
Hypotheses (Hok : words_ok ts) (H2 : sorted_words (fun n => n = 2) ts ws2) (H3 : sorted_words (fun n => 3 <= n) ts ws3).
Hypothesis Hview : engine_view e ts ws2 (kept None ws3).
Context (text : list Z) (i : Z) (s : list Z).
Hypotheses (Htext : get_bytes text i (zlen s) = Some s) (Hbytes : bytes_ok s).

Lemma read_flags j c : s !! j = Some c -> rd text (i + Z.of_nat j) = Some c /\ a_data e c = Some (flags ts c).
Proof using Hview Htext Hbytes.
  intros Hj. split; [by eapply rd_text|]. apply (ev_a _ _ _ _ Hview). by apply (Forall_lookup_1 _ _ _ _ Hbytes) in Hj.
Qed.
Lemma match_pair_spec c : s !! 0%nat = Some c ->
  exists r, match_pair e text i (zlen s) (flags ts c) = Some r /\ (r = true <-> exists t, t ∈ ts /\ zlen t = 2 /\ t `prefix_of` s).
Proof using Hok H2 Hview Htext Hbytes.
  intros Hc. unfold match_pair. assert (Hs : s = [c] \/ exists c1 s', s = c :: c1 :: s').
  { clear -Hc. destruct s as [|c0 [|c1 s']]; [done|left|right]; injection Hc as ->; [done|by do 2 eexists]. }
  destruct Hs as [Es|(c1 & s' & Es)].
  { rewrite Es. exists false. split; [done|]. split; [done|]. intros (t & _ & Hl & Hp%prefix_length). unfold zlen in Hl. cbn in *. lia. }
  assert (Hpre : forall t, t ∈ ts -> zlen t = 2 -> t `prefix_of` s <-> t = [c; c1]).
  { intros t _ Hl. rewrite Es. split; [|intros ->; by exists s'].
    destruct t as [|x [|y [|? t]]]; try (rewrite ?zlen_cons in Hl; zlen_facts; lia || done). intros Hp.
    pose proof (prefix_cons_inv_1 _ _ _ _ Hp) as ->. apply prefix_cons_inv_2 in Hp. by pose proof (prefix_cons_inv_1 _ _ _ _ Hp) as ->. }
  assert (Hiff : (exists t, t ∈ ts /\ zlen t = 2 /\ t `prefix_of` s) <-> [c; c1] ∈ ts).
  { split; [intros (t & Ht & Hl & Hp); by apply Hpre in Hp as <-|]. intros Hin. exists [c; c1]. split; [done|]. split; [done|]. by apply Hpre. }
  setoid_rewrite Hiff. assert (Hlen : 1 <? zlen s = true) by (rewrite Es, !zlen_cons; zlen_facts; lia). rewrite Hlen. cbn [andb].
  destruct (bit (flags ts c) 2) eqn:Eb; cbn [negb].
  2: { exists false. split; [done|]. split; [done|]. intros Hin. rewrite <- Eb. apply bit_flags. exists [c; c1]. split; [done|]. apply bit_two. by exists c1. }
  destruct (read_flags 0 c) as [R0 _]; [by rewrite Es|]. destruct (read_flags 1 c1) as [R1 A1]; [by rewrite Es|].
  rewrite Z.add_0_r in R0. change (Z.of_nat 1) with 1 in R1. rewrite R0, R1. cbn [mbind option_bind]. rewrite A1. cbn [mbind option_bind].
  destruct (bit (flags ts c1) 4) eqn:Eb1; cbn [negb].
  2: { exists false. split; [done|]. split; [done|]. intros Hin. rewrite <- Eb1. apply bit_flags. exists [c; c1]. split; [done|]. apply bit_four. }
  apply bit_flags in Eb as (t & Hin & [y ->]%bit_two). destruct (pairs_words ts ws2 Hok H2) as (P1 & P2 & P3). destruct H2 as [So2 Hk2].
  destruct (ev_pair _ _ _ _ Hview) as (p & Eoff & Esize & Hsize & Hslot).
  { intros E0. assert (Hy : [c; y] ∈ ws2) by (by apply Hk2). rewrite E0 in Hy. by apply elem_of_nil in Hy. }
  rewrite Eoff. cbn [mbind option_bind]. rewrite Esize. cbn [mbind option_bind]. rewrite (proj2 (Z.eqb_neq (size_of ws2) 0)) by lia. rewrite Z.shiftl_mul_pow2 by lia.
  set (hv := c * 2 ^ 8 + c1). destruct (Hslot (hv mod size_of ws2)) as (off & Eo & Hb); [by apply Z.mod_pos_bound|]. rewrite Eo. cbn [mbind option_bind].
  assert (Bc : byte_ok c /\ byte_ok c1).
  { pose proof Hbytes as Hb0. rewrite Es in Hb0. inversion_clear Hb0 as [|? ? B0 Hb']. by inversion_clear Hb' as [|? ? B1 _]. }
  assert (Hhit : [c; c1] ∈ ts <-> exists w, w ∈ ws2 /\ h2 w = hv).
  { split; [intros Hw; exists [c; c1]; split; [by apply Hk2|done]|]. intros (w & Hw & E).
    rewrite Forall_forall in P2, P3. specialize (P2 w Hw). specialize (P3 w Hw).
    destruct w as [|x0 [|x1 [|? ?]]]; try done. inversion_clear P3 as [|? ? B0 P3']. inversion_clear P3' as [|? ? B1 _].
    unfold h2, hv in E. cbn in E. unfold byte_ok in Bc. assert (x0 = c /\ x1 = c1) as [-> ->] by lia. by apply Hk2 in Hw as [Hw _]. }
  setoid_rewrite Hhit. rewrite pick_pairs in Hb. by apply probe_pair.
Qed.

Lemma match_long_spec c : s !! 0%nat = Some c ->
  exists r, match_long e text i (zlen s) (flags ts c) = Some r /\
    match r with Some n => exists w, w ∈ kept None ws3 /\ w `prefix_of` s /\ n = zlen w | None => forall w, w ∈ kept None ws3 -> ~ w `prefix_of` s end.
Proof using Hok H3 Hview Htext Hbytes.
  intros Hc. unfold match_long. set (K := kept None ws3) in *. pose proof (long_words ts ws3 Hok H3) as Hlong. fold K in Hlong. rewrite Forall_forall in Hlong.
  destruct H3 as [So3 Hk3]. pose proof (kept_free None ws3 So3) as Hfree. cbn [opt_cons] in Hfree. fold K in Hfree.
  assert (Hts : forall w, w ∈ K -> w ∈ ts) by (by intros w [? _]%kept_in%Hk3).
  pose proof (wo_bytes _ Hok) as Hb. rewrite Forall_forall in Hb.
  assert (Hnone : forall b : bool, b = false -> (forall w, w ∈ K -> w `prefix_of` s -> b = true) ->
    exists r : option Z, Some None = Some r /\ match r with Some n => exists w, w ∈ K /\ w `prefix_of` s /\ n = zlen w | None => forall w, w ∈ K -> ~ w `prefix_of` s end).
  { intros b -> Hw. exists None. split; [done|]. intros w Hk Hp. by specialize (Hw w Hk Hp). }
  assert (Hfront : forall w, w ∈ K -> w `prefix_of` s -> exists c1 c2 w' s', w = c :: c1 :: c2 :: w' /\ s = c :: c1 :: c2 :: s').
  { intros w Hw Hp. destruct (long_front s w (proj1 (Hlong w Hw)) Hp) as (c0 & c1 & c2 & w' & s' & -> & Es).
    pose proof Hc as Hc'. rewrite Es in Hc'. injection Hc' as ->. by exists c1, c2, w', s'. }
  destruct ((2 <? zlen s) && bit (flags ts c) 8) eqn:Eb; cbn [negb].
  2: { apply (Hnone _ Eb). intros w Hw Hp. destruct (Hfront w Hw Hp) as (c1 & c2 & w' & s' & -> & Es).
       apply andb_true_iff. split; [rewrite Es, !zlen_cons; zlen_facts; lia|]. apply bit_flags. exists (c :: c1 :: c2 :: w'). split; [by apply Hts|].
       apply bit_eight. by exists c1, c2, w'. }
  apply andb_true_iff in Eb as [Elen Eb].
  assert (Hs : exists c1 c2 s', s = c :: c1 :: c2 :: s').
  { clear -Hc Elen. destruct s as [|c0 [|c1 [|c2 s']]]; [done..|]. injection Hc as ->. by exists c1, c2, s'. }
  destruct Hs as (c1 & c2 & s' & Es).
  destruct (read_flags 0 c) as [R0 _]; [by rewrite Es|]. destruct (read_flags 1 c1) as [R1 A1]; [by rewrite Es|]. destruct (read_flags 2 c2) as [R2 A2]; [by rewrite Es|].
  rewrite Z.add_0_r in R0. change (Z.of_nat 1) with 1 in R1. change (Z.of_nat 2) with 2 in R2.
  assert (Hsame : forall w, w ∈ K -> w `prefix_of` s -> exists w', w = c :: c1 :: c2 :: w').
  { intros w Hw Hp. destruct (Hfront w Hw Hp) as (d1 & d2 & w' & s'' & -> & Es'). rewrite Es in Es'. simplify_eq. by exists w'. }
  rewrite R0. cbn [mbind option_bind]. rewrite R1. cbn [mbind option_bind]. rewrite A1. cbn [mbind option_bind].
  destruct (bit (flags ts c1) 16) eqn:Eb1; cbn [negb].
  2: { apply (Hnone _ Eb1). intros w Hw Hp. destruct (Hsame w Hw Hp) as (w' & ->). apply bit_flags. eexists. split; [by apply Hts|]. apply bit_more. }
  rewrite R2. cbn [mbind option_bind]. rewrite A2. cbn [mbind option_bind].
  destruct (bit (flags ts c2) 32) eqn:Eb2; cbn [negb].
  2: { apply (Hnone _ Eb2). intros w Hw Hp. destruct (Hsame w Hw Hp) as (w' & ->). apply bit_flags. eexists. split; [by apply Hts|]. apply bit_more. }
  destruct (ev_long _ _ _ _ Hview) as (q & (p & Eoff & Esize & Hsize & Hslot) & Htok).
  { apply bit_flags in Eb as (t & Hin & (y & z & t' & ->)%bit_eight). intros E0.
    destruct (dups_covered None ws3 (c :: y :: z :: t')) as (k & Hk & _).
    - apply Hk3. split; [done|]. cbn beta. rewrite !zlen_cons. zlen_facts. lia.
    - cbn [opt_cons] in Hk. fold K in Hk. rewrite E0 in Hk. by apply elem_of_nil in Hk. }
  fold K in Eoff, Esize, Hsize, Hslot, Htok.
  rewrite Eoff. cbn [mbind option_bind]. rewrite Esize. cbn [mbind option_bind]. rewrite (proj2 (Z.eqb_neq (size_of K) 0)) by lia.
  rewrite !Z.shiftl_mul_pow2 by lia. set (hv := (c * 2 ^ 8 + c1) * 2 ^ 8 + c2).
  destruct (Hslot (hv mod size_of K)) as (off & Eo & Hbk); [by apply Z.mod_pos_bound|]. rewrite Eo. cbn [mbind option_bind].
  apply (probe_long e text s i q K off hv); try done.
  - eapply sorted_weaken; [|exact Hfree]. by intros a b [? _].
  - intros a b Ha Hb' Hp. apply (kept_unique ws3); [done..|by left].
  - by apply Forall_forall.
  - intros w Hw Hp. by destruct (Hsame w Hw Hp) as (w' & ->).
Qed.

Lemma match_here_spec len : s <> [] -> len = i + zlen s ->
  match_here e text i len = Some (match shortest ts s with Some n => Some (ret_of n, n) | None => None end).
Proof using Hok H2 H3 Hview Htext Hbytes.
  intros Hs ->. assert (Hc : exists c, s !! 0%nat = Some c) by (clear -Hs; destruct s as [|c s']; [done|by exists c]). destruct Hc as [c Hc].
  destruct (read_flags 0 c Hc) as [R0 A0]. rewrite Z.add_0_r in R0. unfold match_here. replace (i + zlen s - i) with (zlen s) by lia.
  rewrite R0. cbn [mbind option_bind]. rewrite A0. cbn [mbind option_bind].
  pose proof (wo_len _ Hok) as Hacc. rewrite Forall_forall in Hacc. unfold accepted in Hacc.
  assert (H1 : bit (flags ts c) 1 = true <-> exists t, t ∈ ts /\ zlen t = 1 /\ t `prefix_of` s).
  { assert (Hone : forall t, zlen t = 1 -> t `prefix_of` s <-> t = [c]).
    { intros t Hl. destruct t as [|x [|y t]]; try (rewrite ?zlen_cons in Hl; zlen_facts; lia || done). clear -Hc.
      destruct s as [|c' s']; [done|]. injection Hc as ->. split; [by intros ->%prefix_cons_inv_1|]. intros [= ->]. by exists s'. }
    rewrite bit_flags. split; intros (t & Ht & Hb).
    - apply bit_one in Hb as ->. exists [c]. split; [done|]. split; [done|]. by apply Hone.
    - destruct Hb as [Hl Hp]. exists t. split; [done|]. apply bit_one. by apply Hone. }
  destruct (bit (flags ts c) 1) eqn:Eb.
  { destruct (proj1 H1 eq_refl) as (t & Ht & Hl & Hp). replace (shortest ts s) with (Some 1); [done|]. symmetry. apply shortest_some.
    split; [by exists t|]. intros t' Ht' _. specialize (Hacc t' Ht'). lia. }
  assert (N1 : forall t, t ∈ ts -> t `prefix_of` s -> zlen t <> 1) by (intros t Ht Hp Hl; destruct H1 as [_ H1]; discriminate (H1 (ex_intro _ t (conj Ht (conj Hl Hp))))).
  destruct (match_pair_spec c Hc) as (r & -> & Hr). cbn [mbind option_bind]. destruct r.
  { destruct (proj1 Hr eq_refl) as (t & Ht & Hl & Hp). replace (shortest ts s) with (Some 2); [done|]. symmetry. apply shortest_some.
    split; [by exists t|]. intros t' Ht' Hp'. specialize (Hacc t' Ht'). specialize (N1 t' Ht' Hp'). lia. }
  assert (N2 : forall t, t ∈ ts -> t `prefix_of` s -> zlen t <> 2) by (intros t Ht Hp Hl; destruct Hr as [_ Hr]; discriminate (Hr (ex_intro _ t (conj Ht (conj Hl Hp))))).
  assert (N3 : forall t, t ∈ ts -> t `prefix_of` s -> exists k, k ∈ kept None ws3 /\ k `prefix_of` t).
  { intros t Ht Hp. apply (dups_covered None). apply H3. split; [done|]. specialize (N1 t Ht Hp). specialize (N2 t Ht Hp). specialize (Hacc t Ht). lia. }
  destruct (match_long_spec c Hc) as (r & -> & Hl). cbn [mbind option_bind]. destruct r as [n|].
  - destruct Hl as (w & Hw & Hp & ->). pose proof Hw as Hwt. apply kept_in in Hwt. apply H3 in Hwt as [Hwt Hw3]. cbn beta in Hw3.
    replace (shortest ts s) with (Some (zlen w)); [unfold ret_of; by destruct (Z.eqb_spec (zlen w) 2); [lia|]|]. symmetry. apply shortest_some.
    split; [by exists w|]. intros t Ht Hpt. destruct (N3 t Ht Hpt) as (k & Hk & Hkt).
    assert (k = w) as <-; [|by apply prefix_length in Hkt; unfold zlen; lia].
    assert (Hks : k `prefix_of` s) by (by etrans). apply (kept_unique ws3 k w (proj1 H3) Hk Hw).
    by apply (prefix_weak_total _ _ s).
  - replace (shortest ts s) with (@None Z); [done|]. symmetry. apply shortest_none. intros t Ht Hp.
    destruct (N3 t Ht Hp) as (k & Hk & Hkt). apply (Hl k Hk). by etrans.
Qed.
End position.

(** ** The search *)
Lemma get_bytes_next (text : list Z) i c s : get_bytes text i (zlen (c :: s)) = Some (c :: s) -> get_bytes text (i + 1) (zlen s) = Some s.
Proof.
  intros (u & v & -> & <- & _)%get_bytes_split. replace (u ++ (c :: s) ++ v) with ((u ++ [c]) ++ s ++ v) by (by rewrite <- app_assoc).
  apply get_bytes_at; [|done]. by rewrite zlen_app.
Qed.
Section search.
Context (e : list Z) (ts ws2 ws3 : list (list Z)).
Hypotheses (Hok : words_ok ts) (H2 : sorted_words (fun n => n = 2) ts ws2) (H3 : sorted_words (fun n => 3 <= n) ts ws3).
Hypothesis Hview : engine_view e ts ws2 (kept None ws3).
Lemma match_loop_spec text len s : forall i mp, get_bytes text i (zlen s) = Some s -> bytes_ok s -> len = i + zlen s ->
  match_loop (length s) e text i len mp = Some (
    match leftmost ts s i with
    | Some (j, n) => (ret_of n, Some j, Some n)
    | None => (0, if zlen s =? 0 then mp else Some (len - 1), None)
    end).
Proof using Hok H2 H3 Hview.
  induction s as [|c s IH]; intros i mp Ht Hb Hl; [done|]. cbn [length match_loop leftmost].
  rewrite (match_here_spec e ts ws2 ws3 Hok H2 H3 Hview text i (c :: s) Ht Hb len) by done. cbn [mbind option_bind].
  destruct (shortest ts (c :: s)); [done|]. inversion_clear Hb as [|? ? _ Hb']. rewrite zlen_cons in *. zlen_facts.
  rewrite IH; [|by apply (get_bytes_next _ _ c); rewrite zlen_cons|done|lia].
  destruct (leftmost ts s (i + 1)) as [[j n]|]; [done|]. rewrite (proj2 (Z.eqb_neq (1 + zlen s) 0)) by lia.
  destruct (Z.eqb_spec (zlen s) 0); [|done]. do 4 f_equal. lia.
Qed.
Lemma match_spec `{!Allocator} ms text len s : ms_engine ms = Some e -> in_bytes text len = Some s -> bytes_ok s -> zlen s < 2 ^ 31 ->
  zmsearch_match ms text len = Some (answer ts s).
Proof using Hok H2 H3 Hview.
  intros He Hin Hb Hl. destruct (bytes_arg _ _ _ Hin Hl) as [E1 E2]. unfold zmsearch_match. rewrite E1. cbn [mbind option_bind].
  unfold answer. destruct (Z.ltb_spec (zlen s) 1).
  { destruct s as [|c s]; [done|]. rewrite zlen_cons in *. zlen_facts. lia. }
  rewrite He. cbn [mbind option_bind]. apply in_bytes_front in E2 as (rest & -> & _ & _); [|lia].
  rewrite zlen_to_nat. rewrite (match_loop_spec _ _ s 0); [|by apply (get_bytes_at [] s rest)|done|done]. done.
Qed.
End search.
