(* ===== verification/MsearchWalk.v ===== *)
(** * Search for many words: the walker *)
From stdpp Require Import gmap sorting.
From S2P Require Import Prelude StateMonad Rbset Keyed KeyedSpec KeyedRefine Maps Msearch MsearchMem MsearchBuild MsearchWords MsearchEngine MsearchOver MsearchView MsearchFind MsearchMatch.

(** ** What each stage gives *)

(** The buckets from [hv] on. *)
Definition words_from (h : list Z -> Z) (size : Z) (ws : list (list Z)) (hv : Z) : list (list (list Z)) :=
  (fun i => sel h size i ws) <$> seqZ hv (size - hv).
Definition byte_words (ts : list (list Z)) (hv : Z) : list (list Z) :=
  (fun c => [c]) <$> filter (fun c => bit (flags ts c) 1 = true) (seqZ hv (256 - hv)).
(** The stage of pairs keeps its index from one bucket to the next: it gives the
    words behind the length of the longest bucket since the last empty one. *)
Fixpoint pair_walk (B : list (list (list Z))) (idx : Z) : list (list Z) :=
  match B with
  | [] => []
  | b :: B' => match b with [] => pair_walk B' 0 | _ => drop (Z.to_nat idx) b ++ pair_walk B' (Z.max idx (zlen b)) end
  end.
(** The stage of longer words begins each bucket at its front. *)
Definition long_walk (B : list (list (list Z))) (idx : Z) : list (list Z) :=
  match B with [] => [] | b :: B' => drop (Z.to_nat idx) b ++ concat B' end.

Lemma words_from_cons h size ws hv : hv < size -> words_from h size ws hv = sel h size hv ws :: words_from h size ws (hv + 1).
Proof. intros Hlt. unfold words_from. rewrite seqZ_cons by lia. rewrite fmap_cons. do 3 f_equal; lia. Qed.
Lemma words_from_nil h size ws hv : size <= hv -> words_from h size ws hv = [].
Proof. intros Hge. unfold words_from. rewrite seqZ_nil by lia. done. Qed.
Lemma drop_at {A} (l : list A) (idx : Z) : 0 <= idx < zlen l -> exists x, l !! Z.to_nat idx = Some x /\ drop (Z.to_nat idx) l = x :: drop (Z.to_nat (idx + 1)) l.
Proof.
  intros Hi. destruct (lookup_lt_is_Some_2 l (Z.to_nat idx) ltac:(unfold zlen in Hi; lia)) as [x Hx]. exists x. split; [done|].
  rewrite (drop_S _ _ _ Hx). do 2 f_equal. lia.
Qed.
Lemma drop_all {A} (l : list A) (idx : Z) : zlen l <= idx -> drop (Z.to_nat idx) l = [].
Proof. intros Hi. apply drop_ge. unfold zlen in Hi. lia. Qed.

Section stages.
Context (e : list Z) (ts ws2 ws3 : list (list Z)).
Hypothesis Hview : engine_view e ts ws2 ws3.

Lemma walk_bytes_spec n : forall hv, 0 <= hv -> n = Z.to_nat (256 - hv) ->
  match byte_words ts hv with
  | [] => walk_bytes n e hv = Some None
  | t :: L => exists c, walk_bytes n e hv = Some (Some (c, c + 1)) /\ t = [c] /\ L = byte_words ts (c + 1) /\ 0 <= c
  end.
Proof using Hview.
  induction n as [|n IH]; intros hv H0 Hn.
  { unfold byte_words. by rewrite seqZ_nil by lia. }
  unfold byte_words. rewrite seqZ_cons by lia. replace (Z.pred (256 - hv)) with (256 - Z.succ hv) by lia. rewrite filter_cons.
  cbn [walk_bytes]. rewrite (ev_a _ _ _ _ Hview) by lia. cbn [mbind option_bind]. destruct (decide _) as [E|E].
  - rewrite E, fmap_cons. by exists hv.
  - apply not_true_is_false in E. rewrite E. apply (IH (hv + 1)); lia.
Qed.
(** [base] is the offset of the table. *)
Lemma walk_pairs_spec base : (ws2 <> [] -> get_int e at_ab_data_offset = Some base) -> Forall (fun w => length w = 2%nat) ws2 ->
  forall n hv idx, 0 <= hv -> 0 <= idx -> n = Z.to_nat (size_of ws2 - hv) ->
  match pair_walk (words_from h2 (size_of ws2) ws2 hv) idx with
  | [] => walk_pairs n e base hv idx = Some None
  | t :: L => exists hv' idx', walk_pairs n e base hv idx = Some (Some (t, hv', idx')) /\ 0 <= hv' /\ 0 <= idx' /\
      L = pair_walk (words_from h2 (size_of ws2) ws2 hv') idx'
  end.
Proof using Hview.
  intros Hbase P2 n. induction n as [|n IH]; intros hv idx H0 Hi Hn.
  { by rewrite words_from_nil by lia. }
  assert (Hne : ws2 <> []) by (intros E; rewrite E in Hn; cbn in Hn; lia). 
  destruct (ev_pair _ _ _ _ Hview Hne) as (p & Ep & _ & Hsize & Hslot). rewrite (Hbase Hne) in Ep. injection Ep as ->.
  rewrite words_from_cons by lia. destruct (Hslot hv ltac:(lia)) as (off & Eo & Hb). rewrite pick_pairs in Hb.
  cbn [walk_pairs pair_walk]. rewrite Eo. cbn [mbind option_bind]. set (b := sel h2 (size_of ws2) hv ws2) in *.
  assert (Hlen : forall w, w ∈ b -> length w = 2%nat) by (intros w [_ Hw]%list_elem_of_filter; rewrite Forall_forall in P2; by apply P2).
  destruct (decide (b = [])) as [E0|Hb0].
  { rewrite E0 in *. cbn in Hb. rewrite Hb. cbn [Z.eqb]. apply IH; lia. }
  assert (Hb' : off <> 0 /\ get_num 2 e off = Some (zlen b) /\
      forall j x, b !! j = Some x -> exists u v, e = u ++ x ++ v /\ zlen u = off + Z.of_nat 2 + Z.of_nat 2 * Z.of_nat j) by (by destruct b).
  destruct Hb' as (Hoff & En & Hread). rewrite (proj2 (Z.eqb_neq off 0)) by done. rewrite En. cbn [mbind option_bind].
  replace (match b with [] => _ | _ => drop (Z.to_nat idx) b ++ pair_walk (words_from h2 (size_of ws2) ws2 (hv + 1)) (Z.max idx (zlen b)) end)
    with (drop (Z.to_nat idx) b ++ pair_walk (words_from h2 (size_of ws2) ws2 (hv + 1)) (Z.max idx (zlen b))) by (by destruct b).
  destruct (Z.ltb_spec idx (zlen b)) as [Hlt|Hge].
  - destruct (drop_at b idx ltac:(lia)) as (x & Hx & ->). cbn [app]. destruct (Hread _ _ Hx) as (u & v & E & Hu).
    exists hv, (idx + 1). rewrite E. rewrite (get_bytes_at u x v); [|lia|unfold zlen; by rewrite (Hlen x (list_elem_of_lookup_2 _ _ _ Hx))].
    cbn [mbind option_bind]. split; [done|]. split; [done|]. split; [lia|]. rewrite (words_from_cons _ _ _ hv) by lia. fold b.
    cbn [pair_walk]. destruct b; [done|]. f_equal. f_equal. lia.
  - rewrite drop_all by lia. rewrite Z.max_l by lia. apply IH; lia.
Qed.
Lemma walk_long_spec base : (ws3 <> [] -> get_int e at_abc_data_offset = Some base) -> Forall (fun w => 3 <= zlen w <= 4096) ws3 ->
  forall n hv idx, 0 <= hv -> 0 <= idx -> n = Z.to_nat (size_of ws3 - hv) ->
  match long_walk (words_from h3 (size_of ws3) ws3 hv) idx with
  | [] => walk_long n e base hv idx = Some None
  | t :: L => exists hv' idx', walk_long n e base hv idx = Some (Some (t, hv', idx')) /\ 0 <= hv' /\ 0 <= idx' /\
      L = long_walk (words_from h3 (size_of ws3) ws3 hv') idx'
  end.
Proof using Hview.
  intros Hbase P3 n. induction n as [|n IH]; intros hv idx H0 Hi Hn.
  { by rewrite words_from_nil by lia. }
  assert (Hne : ws3 <> []) by (intros E; rewrite E in Hn; cbn in Hn; lia).
  destruct (ev_long _ _ _ _ Hview Hne) as (q & (p & Ep & _ & Hsize & Hslot) & Htok). rewrite (Hbase Hne) in Ep. injection Ep as ->.
  rewrite words_from_cons by lia. destruct (Hslot hv ltac:(lia)) as (off & Eo & Hb).
  cbn [walk_long long_walk]. rewrite Eo. cbn [mbind option_bind]. set (size := size_of ws3) in *.
  set (pl := filter (fun x : list Z * list Z => h3 x.2 mod size = hv) (place q ws3)).
  assert (Hitems : sel h3 size hv ws3 = pl.*2) by (unfold pl; rewrite <- sel_pl; by rewrite place_snd).
  unfold bucket_view, pick in Hb. fold pl in Hb. rewrite Hitems.
  assert (Hnext : concat (words_from h3 size ws3 (hv + 1)) = long_walk (words_from h3 size ws3 (hv + 1)) 0).
  { by destruct (words_from h3 size ws3 (hv + 1)). }
  destruct (decide (pl = [])) as [E0|Hp0].
  { rewrite E0 in *. cbn in Hb. rewrite Hb. cbn [Z.eqb]. rewrite fmap_nil, drop_nil. cbn [app]. rewrite Hnext. apply IH; lia. }
  assert (Hb' : off <> 0 /\ get_num 4 e off = Some (zlen pl.*1) /\
      forall j x, pl.*1 !! j = Some x -> exists u v, e = u ++ x ++ v /\ zlen u = off + Z.of_nat 4 + Z.of_nat 4 * Z.of_nat j) by (by destruct pl).
  destruct Hb' as (Hoff & En & Hread). rewrite (proj2 (Z.eqb_neq off 0)) by done. rewrite En. cbn [mbind option_bind]. rewrite zlen_fmap.
  assert (Hzp : zlen pl.*2 = zlen pl) by apply zlen_fmap.
  destruct (Z.ltb_spec idx (zlen pl)) as [Hlt|Hge].
  - destruct (drop_at pl.*2 idx ltac:(rewrite Hzp; lia)) as (w & Hw & ->). cbn [app].
    assert (Hx : exists x, pl !! Z.to_nat idx = Some (x, w)).
    { rewrite list_lookup_fmap in Hw. destruct (pl !! Z.to_nat idx) as [[x w']|] eqn:Ej; [|done]. injection Hw as ->. by exists x. }
    destruct Hx as [x Hx]. destruct (Hread (Z.to_nat idx) x) as (u & v & E & Hu); [by rewrite list_lookup_fmap, Hx|].
    pose proof Hx as Hin. apply list_elem_of_lookup_2, list_elem_of_filter in Hin as [_ Hin].
    assert (HwK : w ∈ ws3) by (rewrite <- (place_snd ws3 q); apply list_elem_of_fmap; by exists (x, w)).
    destruct (Htok x w Hin) as (u' & v' & E' & -> & Hu'). rewrite Forall_forall in P3. specialize (P3 w HwK). pose proof (zlen_nonneg u').
    assert (Ht : token_at e (zlen u') w) by (split; [lia|]; split; [lia|]; by exists u', v').
    exists hv, (idx + 1). assert (G1 : get_int e (off + 4 + 4 * idx) = Some (zlen u')) by (rewrite E; apply get_num_at; lia).
    rewrite G1. cbn [mbind option_bind]. rewrite (token_len _ _ _ Ht). cbn [mbind option_bind].
    rewrite (token_take _ _ _ _ Ht) by lia. cbn [mbind option_bind]. rewrite zlen_to_nat, firstn_all. split; [done|].
    split; [done|]. split; [lia|]. rewrite (words_from_cons _ _ _ hv) by lia. cbn [long_walk]. by rewrite Hitems.
  - rewrite drop_all by lia. cbn [app]. rewrite Hnext. apply IH; lia.
Qed.
End stages.

(** ** The walker *)

(** What is still to come. *)
Definition remaining (ts ws2 ws3 : list (list Z)) (w : zmsearch_walker) : list (list Z) :=
  let longs hv idx := long_walk (words_from h3 (size_of ws3) ws3 hv) idx in
  let two hv idx := pair_walk (words_from h2 (size_of ws2) ws2 hv) idx in
  if wk_stage w =? 0 then byte_words ts (wk_hv w) ++ two 0 0 ++ longs 0 0
  else if wk_stage w =? 1 then two (wk_hv w) (wk_idx w) ++ longs 0 0
  else if wk_stage w =? 3 then longs (wk_hv w) (wk_idx w) else [].
Definition walker_ok (w : zmsearch_walker) : Prop := 0 <= wk_hv w /\ 0 <= wk_idx w.

Section walker.
Context `{!Allocator} (e : list Z) (ts ws2 ws3 : list (list Z)).
Hypothesis Hview : engine_view e ts ws2 ws3.
Hypotheses (P2 : Forall (fun w => length w = 2%nat) ws2) (P3 : Forall (fun w => 3 <= zlen w <= 4096) ws3).
Abbreviation rem := (remaining ts ws2 ws3).
Definition steps (r : option (option (list Z) * zmsearch_walker)) (w : zmsearch_walker) : Prop :=
  exists o w', r = Some (o, w') /\ walker_ok w' /\ o = head (rem w) /\ rem w' = tail (rem w).
Lemma stage3_steps w : wk_stage w <> 0 -> wk_stage w <> 1 -> walker_ok w -> steps (walk_stage3 e w) w.
Proof using Hview P3.
  intros N0 N1 [Hv Hi]. unfold steps, walk_stage3, remaining. rewrite (proj2 (Z.eqb_neq _ _) N0), (proj2 (Z.eqb_neq _ _) N1).
  destruct (Z.eqb_spec (wk_stage w) 3) as [E|E]; cbn [negb].
  2: { exists None, w. split; [done|]. split; [done|]. rewrite (proj2 (Z.eqb_neq _ _) N0), (proj2 (Z.eqb_neq _ _) N1), (proj2 (Z.eqb_neq _ _) E). done. }
  destruct (ev_fields _ _ _ _ Hview) as ((p & q & _ & Eq) & _ & Esz). rewrite Eq. cbn [mbind option_bind]. rewrite Esz. cbn [mbind option_bind].
  pose proof (walk_long_spec e ts ws2 ws3 Hview q (fun _ => Eq) P3 _ (wk_hv w) (wk_idx w) Hv Hi eq_refl) as Hl.
  destruct (long_walk _ _) as [|t L].
  - rewrite Hl. cbn [mbind option_bind]. exists None, (mk_zmsearch_walker (-1) (wk_hv w) 0). done.
  - destruct Hl as (hv' & idx' & -> & ? & ? & ->). cbn [mbind option_bind]. exists (Some t), (mk_zmsearch_walker 3 hv' idx'). done.
Qed.
Lemma stage1_steps w : wk_stage w <> 0 -> walker_ok w -> steps (walk_stage1 e w) w.
Proof using Hview P2 P3.
  intros N0 Hw. unfold walk_stage1. destruct (Z.eqb_spec (wk_stage w) 1) as [E|E]; cbn [negb]; [|by apply stage3_steps].
  destruct (ev_fields _ _ _ _ Hview) as ((p & q & Ep & _) & Esz & _). rewrite Ep. cbn [mbind option_bind]. rewrite Esz. cbn [mbind option_bind].
  destruct Hw as [Hv Hi]. pose proof (walk_pairs_spec e ts ws2 ws3 Hview p (fun _ => Ep) P2 _ (wk_hv w) (wk_idx w) Hv Hi eq_refl) as Hl.
  assert (Er : rem w = pair_walk (words_from h2 (size_of ws2) ws2 (wk_hv w)) (wk_idx w) ++ long_walk (words_from h3 (size_of ws3) ws3 0) 0) by (unfold remaining; by rewrite E).
  destruct (pair_walk _ _) as [|t L].
  - rewrite Hl. cbn [mbind option_bind]. destruct (stage3_steps (mk_zmsearch_walker 3 0 0)) as (o & w' & E3 & Hw' & Ho & Hr); [done..|].
    exists o, w'. rewrite Er. done.
  - destruct Hl as (hv' & idx' & -> & ? & ? & ->). cbn [mbind option_bind]. exists (Some t), (mk_zmsearch_walker 1 hv' idx'). rewrite Er. done.
Qed.
Lemma walk_step w : walker_ok w -> steps (if negb (wk_stage w =? 0) then walk_stage1 e w else
  r ← walk_bytes (Z.to_nat (256 - wk_hv w)) e (wk_hv w);
  match r with
  | Some (c, hv) => Some (Some [c], mk_zmsearch_walker 0 hv (wk_idx w))
  | None => walk_stage1 e (mk_zmsearch_walker 1 0 0)
  end) w.
Proof using Hview P2 P3.
  intros Hw. destruct (Z.eqb_spec (wk_stage w) 0) as [E|E]; cbn [negb]; [|by apply stage1_steps].
  destruct Hw as [Hv Hi]. pose proof (walk_bytes_spec e ts ws2 ws3 Hview _ (wk_hv w) Hv eq_refl) as Hl.
  assert (Er : rem w = byte_words ts (wk_hv w) ++ pair_walk (words_from h2 (size_of ws2) ws2 0) 0 ++ long_walk (words_from h3 (size_of ws3) ws3 0) 0) by (unfold remaining; by rewrite E).
  destruct (byte_words ts (wk_hv w)) as [|t L].
  - rewrite Hl. cbn [mbind option_bind]. destruct (stage1_steps (mk_zmsearch_walker 1 0 0)) as (o & w' & E3 & Hw' & Ho & Hr); [done..|].
    exists o, w'. rewrite Er. done.
  - destruct Hl as (c & -> & -> & -> & ?). cbn [mbind option_bind]. exists (Some [c]), (mk_zmsearch_walker 0 (c + 1) (wk_idx w)). rewrite Er.
    split; [done|]. split; [split; cbn; lia|]. done.
Qed.
End walker.

(** ** Every word once *)
Lemma pair_walk_sublist B : forall idx, pair_walk B idx `sublist_of` concat B.
Proof.
  induction B as [|b B IH]; intros idx; [done|]. cbn [pair_walk concat]. destruct b as [|w b]; [apply IH|].
  apply sublist_app; [apply sublist_drop|apply IH].
Qed.
Lemma long_walk_all B : long_walk B 0 = concat B.
Proof. by destruct B. Qed.
Section words.
Context (h : list Z -> Z) (size : Z) (ws : list (list Z)).
Lemma words_in (I : list Z) w : w ∈ concat ((fun i => sel h size i ws) <$> I) <-> w ∈ ws /\ h w mod size ∈ I.
Proof using Type.
  induction I as [|i I IH]; [split; [by intros ?%elem_of_nil|by intros [_ ?%elem_of_nil]]|]. rewrite fmap_cons. cbn [concat].
  rewrite elem_of_app, IH, elem_of_cons. unfold sel. rewrite list_elem_of_filter. naive_solver.
Qed.
Lemma words_nodup (I : list Z) : NoDup ws -> NoDup I -> NoDup (concat ((fun i => sel h size i ws) <$> I)).
Proof using Type.
  intros Hws. induction 1 as [|i I Hi _ IH]; [constructor|]. rewrite fmap_cons. cbn [concat]. apply NoDup_app.
  split; [by apply NoDup_filter|]. split; [|done]. intros w [E _]%list_elem_of_filter [_ Hin]%words_in. by rewrite E in Hin.
Qed.
Lemma words_from_nodup : NoDup ws -> NoDup (concat (words_from h size ws 0)).
Proof using Type. intros Hws. apply words_nodup; [done|]. apply NoDup_seqZ. Qed.
Lemma words_from_in w : 0 < size \/ ws = [] -> w ∈ concat (words_from h size ws 0) <-> w ∈ ws.
Proof using Type.
  intros Hs. unfold words_from. rewrite words_in, elem_of_seqZ, Z.sub_0_r. split; [by intros [? _]|]. intros Hw. split; [done|].
  destruct Hs as [Hs| ->]; [|by apply elem_of_nil in Hw]. pose proof (Z.mod_pos_bound (h w) size Hs). lia.
Qed.
End words.
Lemma size_of_pos ws : 0 < size_of ws \/ ws = [].
Proof. destruct ws; [by right|left]. cbn. zlen_facts. lia. Qed.
Lemma byte_words_nodup ts : NoDup (byte_words ts 0).
Proof. unfold byte_words. apply NoDup_fmap_2; [by intros ? ? [= ->]|]. apply NoDup_filter, NoDup_seqZ. Qed.
Lemma byte_words_in ts w : Forall token_ok ts -> w ∈ byte_words ts 0 <-> w ∈ ts /\ zlen w = 1.
Proof.
  intros Hok. rewrite Forall_forall in Hok. unfold byte_words. rewrite list_elem_of_fmap. split.
  - intros (c & -> & [Hb _]%list_elem_of_filter). split; [|done]. by apply bit_flags in Hb as (t & Ht & ->%bit_one).
  - intros [Hw Hl]. destruct w as [|c [|? ?]]; try (rewrite ?zlen_cons in Hl; zlen_facts; lia || done).
    exists c. split; [done|]. apply list_elem_of_filter. split; [apply bit_flags; exists [c]; split; [done|]; by apply bit_one|].
    apply elem_of_seqZ. specialize (Hok _ Hw). inversion_clear Hok as [|? ? Hc _]. lia.
Qed.
(** The words that stay are those that begin with no other. *)
Lemma kept_iff ws w : StronglySorted slt ws -> w ∈ kept None ws <-> w ∈ ws /\ forall v, v ∈ ws -> v `prefix_of` w -> v = w.
Proof.
  intros Hs. assert (Hcov : forall v, v ∈ ws -> exists k, k ∈ kept None ws /\ k `prefix_of` v) by (apply (dups_covered None)). split.
  - intros Hw. split; [by eapply kept_in|]. intros v Hv Hp. destruct (Hcov v Hv) as (k & Hk & Hkv).
    assert (k = w) as -> by (apply (kept_unique ws); [done..|left; by etrans]).
    apply (anti_symm prefix); done.
  - intros [Hw Hmin]. destruct (Hcov w Hw) as (k & Hk & Hkw). rewrite <- (Hmin k); [done| |done]. by eapply kept_in.
Qed.
Lemma kept_nodup ws : NoDup ws -> NoDup (kept None ws).
Proof. intros Hnd. rewrite kept_filter by done. by apply NoDup_filter. Qed.
