(* ===== verification/MsearchTrip.v ===== *)
(** * Search for many words: from the words to the answers *)
From stdpp Require Import gmap sorting.
From S2P Require Import Prelude StateMonad Rbset Keyed KeyedSpec KeyedRefine Maps Msearch MsearchMem MsearchBuild MsearchWords MsearchEngine MsearchOver MsearchView MsearchFind MsearchMatch MsearchWalk.

Section trip.
Context `{AllocatorSound}.
Abbreviation smap := (kv_rep (K := list Z) (V := Z) (W := Z) strcmp eq).

(** [zmsearch_add_token] for each word, given by a block and a length. *)
Fixpoint add_words (ws : list (list Z * Z)) : St zmsearch unit :=
  match ws with
  | [] => skip
  | (word, len) :: ws' => zmsearch_add_token word len;; add_words ws'
  end.
Definition given (w : list Z * Z) (t : list Z) : Prop := in_bytes w.1 w.2 = Some t /\ token_ok t /\ zlen t < 2 ^ 31.

Lemma builder_rep_create : builder_rep (mk_zmsearch_builder (replicate 256 0) zmap_create zmap_create [] 0) [].
Proof.
  assert (Hnone : forall P, holds_words zmap_create P []).
  { intros P. exists []. split; [apply kv_rep_create|]. split; [|done]. intros w. split; [by intros ?%elem_of_nil|by intros [?%elem_of_nil _]]. }
  split; [|apply Hnone..]. done.
Qed.
Lemma add_words_spec ws all : Forall2 given ws all -> forall ms b ts, ms_build ms = BOwn b -> builder_rep b ts -> zlen ts + zlen ws < int_max ->
  wp (add_words ws) ms (fun _ ms' => exists b', ms_build ms' = BOwn b' /\ builder_rep b' (ts ++ filter accepted all)).
Proof.
  induction 1 as [|[word len] t ws all (Hin & Hok & Hl) _ IH]; intros ms b ts Hb Hr Hlen.
  { apply wp_ret. exists b. by rewrite app_nil_r. }
  cbn [add_words fst snd] in *. rewrite zlen_cons in Hlen. zlen_facts. apply wp_bind. eapply wp_mono.
  { eapply (add_token_spec ms b ts); [done|done|done|done|done|lia]. }
  intros [] ms1 (_ & b1 & Hb1 & Hr1). rewrite filter_cons. destruct (decide (accepted t)).
  - eapply wp_mono; [apply (IH ms1 b1 _ Hb1 Hr1); rewrite zlen_app; change (zlen [t]) with 1; lia|].
    intros [] ms2 (b2 & Hb2 & Hr2). exists b2. by rewrite <- app_assoc in Hr2.
  - apply (IH ms1 b1 ts Hb1 Hr1). lia.
Qed.
Lemma given_words ws all : Forall2 given ws all -> zlen all <= max_words -> words_ok (filter accepted all) /\ zlen ws = zlen all.
Proof.
  intros Hg Hm. assert (Hok : Forall token_ok all) by (clear Hm; induction Hg as [|w t ws all (_ & ? & _) _ IH]; by constructor).
  split; [|unfold zlen; by rewrite (Forall2_length _ _ _ Hg)]. rewrite Forall_forall in Hok. split.
  - apply Forall_forall. intros t [_ Ht]%list_elem_of_filter. by apply Hok.
  - apply Forall_forall. by intros t [? _]%list_elem_of_filter.
  - etransitivity; [|exact Hm]. unfold zlen. pose proof (length_filter accepted all). lia.
Qed.
(** The engine that is built answers searches. *)
Lemma ms_built ws all : Forall2 given ws all -> zlen all <= max_words -> 
  wp (add_words ws;; zmsearch_add_over) zmsearch_create (fun _ ms => exists x, ms_engine ms = Some (x ++ [0]) /\
    take 8 x = _CODE_ID ++ _CODE_VERSION /\ get_int (x ++ [0]) at_data_len = Some (zlen x) /\ zlen x < 2 ^ 29 /\
    (exists ws2 ws3, sorted_words (fun n => n = 2) (filter accepted all) ws2 /\ sorted_words (fun n => 3 <= n) (filter accepted all) ws3 /\
      words_ok (filter accepted all) /\ engine_view (x ++ [0]) (filter accepted all) ws2 (kept None ws3)) /\
    forall r ms' text len s, zlen r <= 1 -> ms_engine ms' = Some (x ++ r) -> in_bytes text len = Some s -> bytes_ok s -> zlen s < 2 ^ 31 ->
      zmsearch_match ms' text len = Some (answer (filter accepted all) s)).
Proof.
  intros Hg Hm. destruct (given_words _ _ Hg Hm) as [Hok Hlen]. unfold max_words in Hm. zlen_facts. apply wp_bind. eapply wp_mono.
  { apply (add_words_spec ws all Hg zmsearch_create _ [] eq_refl builder_rep_create). change (zlen (@nil (list Z))) with 0. unfold int_max. lia. }
  intros [] ms1 (b & Hb & Hr). cbn [app] in Hr. pose proof Hok as [O1 O2 O3].
  eapply wp_mono; [by apply (add_over_spec ms1 b (filter accepted all))|]. intros [] ms2 (_ & ws2 & ws3 & S2 & S3 & He).
  destruct (engine_len _ ws2 ws3 Hok S2 S3) as [_ Hl]. exists (engine_bytes (filter accepted all) ws2 ws3).
  split; [done|]. split; [done|]. split; [by apply engine_bytes_len|]. split; [done|].
  split; [exists ws2, ws3; do 3 (split; [done|]); apply engine_bytes_view; [done..|]; rewrite zlen_app; change (zlen [0]) with 1; lia|].
  intros r ms' text len s Hr1 He' Hin Hbs Hs. assert (Hv : engine_view (engine_bytes (filter accepted all) ws2 ws3 ++ r) (filter accepted all) ws2 (kept None ws3)).
  { apply engine_bytes_view; [done..|]. rewrite zlen_app. lia. }
  by apply (match_spec _ _ ws2 ws3 Hok S2 S3 Hv ms').
Qed.

(** C14: words are added to a new [zmsearch], each by a block and a length, at most
    65000 of them and without NUL bytes; those that are empty or longer than 4096
    bytes are dropped. Then [zmsearch_add_over] builds the engine, and every search
    of it for a text answers what a search by hand finds: the leftmost position at
    which one of the words stands, the shortest such word there, and the answer 2
    for a word of two bytes and 1 for the others; without any word 0, with
    [matched_ptr] at the last byte. *)
Theorem zmsearch_finds ws all : Forall2 given ws all -> zlen all <= max_words -> exists ms,
  (add_words ws;; zmsearch_add_over) zmsearch_create = Some (tt, ms) /\
  forall text len s, in_bytes text len = Some s -> bytes_ok s -> zlen s < 2 ^ 31 ->
    zmsearch_match ms text len = Some (answer (filter accepted all) s).
Proof.
  intros Hg Hm. pose proof (ms_built ws all Hg Hm) as Hb. apply wp_runs in Hb as ([] & ms & E & x & He & _ & _ & _ & _ & Hs).
  exists ms. split; [done|]. intros text len s Hin Hbs Hl. by apply (Hs [0]).
Qed.
(** C15: the bytes that [zmsearch_build] writes for these words, as many as
    [zmsearch_get_compiled_len] says, are a file that [zmsearch_create_from_pathname]
    accepts, and the engine read from it gives the same answers. *)
Theorem zmsearch_reopened ws all : Forall2 given ws all -> zlen all <= max_words -> exists ms data ms',
  (add_words ws;; zmsearch_add_over) zmsearch_create = Some (tt, ms) /\
  (forall put_contents, zmsearch_build put_contents ms = Some (put_contents data)) /\
  zmsearch_get_compiled_len ms = Some (zlen data) /\
  zmsearch_create_from_pathname (Some data) = Some (Some ms') /\
  forall text len s, in_bytes text len = Some s -> bytes_ok s -> zlen s < 2 ^ 31 ->
    zmsearch_match ms' text len = Some (answer (filter accepted all) s).
Proof.
  intros Hg Hm. pose proof (ms_built ws all Hg Hm) as Hb. apply wp_runs in Hb as ([] & ms & E & x & He & Hid & Hlen & Hx & _ & Hs).
  exists ms, x, (mk_zmsearch (Some x) BFile). split; [done|]. split; [|split; [|split]].
  - intros put. unfold zmsearch_build. rewrite He. cbn [mbind option_bind]. rewrite Hlen. cbn [mbind option_bind].
    by rewrite (get_bytes_at [] x [0]).
  - unfold zmsearch_get_compiled_len. by rewrite He.
  - unfold zmsearch_create_from_pathname, code_ok. assert (Hx8 : x = _CODE_ID ++ _CODE_VERSION ++ drop 8 x) by (by rewrite app_assoc, <- Hid, take_drop).
    destruct (Z.ltb_spec (zlen x) 8). { rewrite Hx8, !zlen_app in H1. change (zlen _CODE_ID) with 4 in H1. change (zlen _CODE_VERSION) with 4 in H1. zlen_facts. lia. }
    assert (E1 : get_bytes x 0 4 = Some _CODE_ID) by (rewrite Hx8; by apply (get_bytes_at [] _CODE_ID)).
    assert (E2 : get_bytes x 4 4 = Some _CODE_VERSION) by (rewrite Hx8; by apply (get_bytes_at _CODE_ID _CODE_VERSION)).
    rewrite E1. cbn [mbind option_bind]. rewrite bool_decide_true by done. cbn [negb]. rewrite E2. cbn [mbind option_bind]. by rewrite bool_decide_true.
  - intros text len s Hin Hbs Hl. apply (Hs []); [done|by rewrite app_nil_r|done..].
Qed.

(** ** The walk *)

(** The answers of [n] calls of the walker: a token for 1, [None] for 0. *)
Fixpoint ms_walks (n : nat) (ms : zmsearch) (w : zmsearch_walker) : option (list (option (list Z))) :=
  match n with
  | O => Some []
  | S n' => r ← zmsearch_walker_walk ms w; l ← ms_walks n' ms (snd r); Some (fst r :: l)
  end.
Lemma walk_stops e ts ws2 ws3 ms w : engine_view e ts ws2 ws3 -> ms_engine ms = Some e -> Forall (fun w => length w = 2%nat) ws2 ->
  Forall (fun w => 3 <= zlen w <= 4096) ws3 -> walker_ok w -> 
  exists r w', zmsearch_walker_walk ms w = Some (r, w') /\ walker_ok w' /\ r = head (remaining ts ws2 ws3 w) /\ remaining ts ws2 ws3 w' = tail (remaining ts ws2 ws3 w).
Proof.
  intros Hv He P2 P3 Hw. unfold zmsearch_walker_walk. rewrite He. cbn [mbind option_bind]. by apply walk_step.
Qed.
Lemma walks_all e ts ws2 ws3 ms k : engine_view e ts ws2 ws3 -> ms_engine ms = Some e -> Forall (fun w => length w = 2%nat) ws2 ->
  Forall (fun w => 3 <= zlen w <= 4096) ws3 -> forall L w, walker_ok w -> remaining ts ws2 ws3 w = L ->
  ms_walks (length L + k) ms w = Some ((Some <$> L) ++ replicate k None).
Proof.
  intros Hv He P2 P3. assert (Hstep := fun w => walk_stops e ts ws2 ws3 ms w Hv He P2 P3). 
  induction L as [|t L IH]; intros w Hw HL.
  - cbn [length fmap list_fmap app Nat.add]. clear P2 P3. revert w Hw HL. induction k as [|k IHk]; intros w Hw HL; [done|]. cbn [ms_walks replicate].
    destruct (Hstep w Hw) as (r & w' & -> & Hw' & -> & Hr). rewrite HL in *. cbn [mbind option_bind fst snd]. by rewrite IHk.
  - cbn [length Nat.add ms_walks]. destruct (Hstep w Hw) as (r & w' & -> & Hw' & -> & Hr). rewrite HL in *. cbn [mbind option_bind fst snd head tail] in *.
    by rewrite IH.
Qed.
(** C16: a walk over the engine of such words gives, once each, every word of one
    byte, some words of two bytes, and every longer word that begins with no other
    longer one; then it answers 0 for good. Some words of two bytes: the walk keeps
    its index from one bucket to the next, so words can be missing. *)
Theorem zmsearch_walker_walks ws all k : Forall2 given ws all -> zlen all <= max_words -> let ts := filter accepted all in exists ms A P K,
  (add_words ws;; zmsearch_add_over) zmsearch_create = Some (tt, ms) /\
  ms_walks (length (A ++ P ++ K) + k) ms zmsearch_walker_create = Some ((Some <$> A ++ P ++ K) ++ replicate k None) /\
  NoDup A /\ NoDup P /\ NoDup K /\
  (forall w, w ∈ A <-> w ∈ ts /\ zlen w = 1) /\
  (forall w, w ∈ P -> w ∈ ts /\ zlen w = 2) /\
  (forall w, w ∈ K <-> (w ∈ ts /\ 3 <= zlen w) /\ forall v, v ∈ ts -> 3 <= zlen v -> v `prefix_of` w -> v = w).
Proof.
  intros Hg Hm ts. pose proof (ms_built ws all Hg Hm) as Hb. apply wp_runs in Hb as ([] & ms & E & x & He & _ & _ & _ & (ws2 & ws3 & S2 & S3 & Hok & Hv) & _).
  fold ts in S2, S3, Hok, Hv. destruct (pairs_words ts ws2 Hok S2) as (P1 & P2 & P3). pose proof (long_words ts ws3 Hok S3) as P4.
  exists ms, (byte_words ts 0), (pair_walk (words_from h2 (size_of ws2) ws2 0) 0), (long_walk (words_from h3 (size_of (kept None ws3)) (kept None ws3) 0) 0).
  split; [done|]. split; [by apply (walks_all (x ++ [0]) ts ws2 (kept None ws3))|].
  split; [apply byte_words_nodup|]. split; [eapply sublist_NoDup; [by apply words_from_nodup|apply pair_walk_sublist]|].
  split; [rewrite long_walk_all; apply words_from_nodup, kept_nodup, sorted_nodup, S3|].
  split; [intros w; apply byte_words_in; apply Hok|]. split.
  - intros w Hw. apply S2, (words_from_in h2 (size_of ws2) ws2); [apply size_of_pos|]. eapply elem_of_sublist; [exact Hw|apply pair_walk_sublist].
  - intros w. rewrite long_walk_all, words_from_in by apply size_of_pos. rewrite kept_iff by apply S3. destruct S3 as [_ Hk3]. rewrite Hk3.
    split; (intros [? Hmin]; split; [done|]); [intros v ? ?|intros v [? ?]%Hk3]; apply Hmin; [by apply Hk3|done..].
Qed.
End trip.

(** ** Examples *)
Definition ex_words : list (list Z * Z) :=
  [(str "ab" ++ [0], -1); (str "ac", 2); (str "abcde" ++ [0], 5); (str "abcd", 4); (str "bcd" ++ [0], -1); (str "x", 1); ([], 0)].
Definition ex_all : list (list Z) := [str "ab"; str "ac"; str "abcde"; str "abcd"; str "bcd"; str "x"; []].
Lemma ex_given : Forall2 given ex_words ex_all.
Proof. repeat constructor. Qed.
Lemma zmsearch_finds_witness : 
  answer (filter accepted ex_all) (str "zzabx") = (2, Some 2, Some 2) /\ answer (filter accepted ex_all) (str "zbcde") = (1, Some 1, Some 3) /\
  answer (filter accepted ex_all) (str "zcba") = (0, Some 3, None) /\ exists ms,
  (add_words ex_words;; zmsearch_add_over) zmsearch_create = Some (tt, ms) /\
  forall text len s, in_bytes text len = Some s -> bytes_ok s -> zlen s < 2 ^ 31 ->
    zmsearch_match ms text len = Some (answer (filter accepted ex_all) s).
Proof. do 3 (split; [by vm_compute|]). apply (zmsearch_finds ex_words ex_all ex_given). vm_compute. discriminate. Defined.
Lemma zmsearch_reopened_witness : exists ms data ms',
  (add_words ex_words;; zmsearch_add_over) zmsearch_create = Some (tt, ms) /\
  (forall put_contents, zmsearch_build put_contents ms = Some (put_contents data)) /\
  zmsearch_get_compiled_len ms = Some (zlen data) /\
  zmsearch_create_from_pathname (Some data) = Some (Some ms') /\
  forall text len s, in_bytes text len = Some s -> bytes_ok s -> zlen s < 2 ^ 31 ->
    zmsearch_match ms' text len = Some (answer (filter accepted ex_all) s).
Proof. apply (zmsearch_reopened ex_words ex_all ex_given). vm_compute. discriminate. Defined.
Lemma zmsearch_walker_walks_witness : exists ms A P K,
  (add_words ex_words;; zmsearch_add_over) zmsearch_create = Some (tt, ms) /\
  ms_walks (length (A ++ P ++ K) + 2) ms zmsearch_walker_create = Some ((Some <$> A ++ P ++ K) ++ replicate 2 None) /\
  NoDup A /\ NoDup P /\ NoDup K /\
  (forall w, w ∈ A <-> w ∈ filter accepted ex_all /\ zlen w = 1) /\
  (forall w, w ∈ P -> w ∈ filter accepted ex_all /\ zlen w = 2) /\
  (forall w, w ∈ K <-> (w ∈ filter accepted ex_all /\ 3 <= zlen w) /\ 
    forall v, v ∈ filter accepted ex_all -> 3 <= zlen v -> v `prefix_of` w -> v = w).
Proof. apply (zmsearch_walker_walks ex_words ex_all 2 ex_given). vm_compute. discriminate. Defined.
(** Here the word "ac" is missing: the bucket of "ab" is in front of its own. *)
Lemma zmsearch_walker_skips : (r ← (add_words ex_words;; zmsearch_add_over) zmsearch_create; ms_walks 6 (snd r) zmsearch_walker_create) =
  Some [Some (str "x"); Some (str "ab"); Some (str "bcd"); Some (str "abcd"); None; None].
Proof. by vm_compute. Qed.
