(* ===== verification/Scan.v ===== *)
(** * Scanning a text up to a byte

    A [char *] that walks over a text is the rest of the text. [until] is the loop
    that advances it, [None] when it runs out of the text; [break_at] is the same
    cut of a text that may end first. *)
From S2P Require Import Prelude Text.

(** [p++] until a byte stops: the bytes passed, and [p]. *)
Fixpoint until (stop : Z -> bool) (ps : list Z) : option (list Z * list Z) :=
  match ps with
  | [] => None
  | c :: ps' => if stop c then Some ([], ps) else r ← until stop ps'; Some (c :: fst r, snd r)
  end.
Definition stops (set : list Z) (c : Z) : bool := (c =? 0) || in_set set c.
Fixpoint break_at (stop : Z -> bool) (l : list Z) : list Z * list Z :=
  match l with
  | [] => ([], [])
  | c :: l' => if stop c then ([], l) else let r := break_at stop l' in (c :: r.1, r.2)
  end.

Lemma break_at_app (stop : Z -> bool) l : (break_at stop l).1 ++ (break_at stop l).2 = l.
Proof. induction l as [|c l IH]; [done|]. cbn. destruct (stop c); cbn; [done|]. by rewrite IH. Qed.
Lemma break_at_stop (stop : Z -> bool) l c r : (break_at stop l).2 = c :: r -> stop c.
Proof.
  induction l as [|d l IH]; [done|]. cbn. destruct (stop d) eqn:E; cbn; [|done]. intros [= -> ->]. by rewrite E.
Qed.
Lemma break_at_pre (stop : Z -> bool) l : Forall (fun c => stop c = false) (break_at stop l).1.
Proof. induction l as [|c l IH]; cbn; [done|]. destruct (stop c) eqn:E; cbn; by constructor. Qed.
Lemma break_at_mid (stop : Z -> bool) x c r : Forall (fun c => stop c = false) x -> stop c -> break_at stop (x ++ c :: r) = (x, c :: r).
Proof.
  intros Hx Hc. induction Hx as [|d x Hd _ IH]; cbn; [by destruct (stop c)|]. by rewrite Hd, IH.
Qed.
Lemma break_at_end (stop : Z -> bool) x : Forall (fun c => stop c = false) x -> break_at stop x = (x, []).
Proof. induction 1 as [|d x Hd _ IH]; cbn; [done|]. by rewrite Hd, IH. Qed.

Lemma until_break (stop : Z -> bool) l : stop 0 -> until stop (l ++ [0]) = Some ((break_at stop l).1, (break_at stop l).2 ++ [0]).
Proof.
  intros H0. induction l as [|c l IH]; cbn; [by destruct (stop 0)|]. destruct (stop c); cbn; [done|]. by rewrite IH.
Qed.
Lemma until_item (stop : Z -> bool) l :
  until stop l = match (break_at stop l).2 with [] => None | _ => Some (break_at stop l) end.
Proof.
  induction l as [|c l IH]; cbn; [done|]. destruct (stop c); cbn; [done|]. rewrite IH.
  destruct (break_at stop l) as [x [|d r]]; done.
Qed.
Lemma stops_break set l : Forall (.≠ 0) l -> break_at (stops set) l = break_at (in_set set) l.
Proof.
  induction 1 as [|c l Hc _ IH]; cbn; [done|]. unfold stops at 1. rewrite (proj2 (Z.eqb_neq c 0)) by done. cbn. by rewrite IH.
Qed.
Lemma until_app stop x c r : Forall (fun c => stop c = false) x -> stop c = true -> until stop (x ++ c :: r) = Some (x, c :: r).
Proof. intros Hx Hc. induction Hx as [|d x Hd _ IH]; cbn; [by rewrite Hc|]. by rewrite Hd, IH. Qed.
Lemma read_bytes_app (l extra : list Z) : read_bytes (l ++ extra) (zlen l) = Some l.
Proof.
  unfold read_bytes. rewrite zlen_app. pose proof (zlen_nonneg extra). rewrite (proj2 (Z.leb_le _ _)) by lia.
  by rewrite zlen_to_nat, take_app_length.
Qed.
