(* ===== verification/Url.v ===== *)
(** * URLs, queries and cookies: src/http/url.c and cookie.c

    A [char *] that walks over a C string is the rest of the string, its NUL
    included. Queries and cookies are read into a dictionary of Dict.v and written
    from one, names and values through the buffers of Buf.v and the escapes of
    Hex.v. *)
From S2P Require Import Prelude Chars Buf Hex Text Scan StateMonad Keyed Maps Dict.

(** ** Scanning *)

(** [strstr]: what stands before the first [pat], and the pointer to it. *)
Fixpoint strstr (pat ps : list Z) : option (option (list Z * list Z)) :=
  match ps with
  | [] => None
  | c :: ps' =>
      if bool_decide (take (length pat) ps = pat) then Some (Some ([], ps)) else
      if c =? 0 then Some None else
      r ← strstr pat ps'; Some (match r with Some (x, p) => Some (c :: x, p) | None => None end)
  end.

(** ** URLs *)

(** [zurl_t]: its strings without the NUL. *)
Record zurl := mk_zurl {
  url_scheme : list Z; url_destination : list Z; url_host : list Z; url_path : list Z;
  url_query : list Z; url_fragment : list Z; url_port : Z
}.
Definition url_blank : zurl := mk_zurl [] [] [] [] [] [] (-1).
Definition set_scheme (u : zurl) (x : list Z) := mk_zurl x (url_destination u) (url_host u) (url_path u) (url_query u) (url_fragment u) (url_port u).
Definition set_destination (u : zurl) (x : list Z) := mk_zurl (url_scheme u) x (url_host u) (url_path u) (url_query u) (url_fragment u) (url_port u).
Definition set_host (u : zurl) (x : list Z) := mk_zurl (url_scheme u) (url_destination u) x (url_path u) (url_query u) (url_fragment u) (url_port u).
Definition set_path (u : zurl) (x : list Z) := mk_zurl (url_scheme u) (url_destination u) (url_host u) x (url_query u) (url_fragment u) (url_port u).
Definition set_query (u : zurl) (x : list Z) := mk_zurl (url_scheme u) (url_destination u) (url_host u) (url_path u) x (url_fragment u) (url_port u).
Definition set_fragment (u : zurl) (x : list Z) := mk_zurl (url_scheme u) (url_destination u) (url_host u) (url_path u) (url_query u) x (url_port u).
Definition set_port (u : zurl) (x : Z) := mk_zurl (url_scheme u) (url_destination u) (url_host u) (url_path u) (url_query u) (url_fragment u) x.

(** The labels of [zurl_parse]. *)
Definition parse_fragment (u : zurl) (ps : list Z) : option zurl := f ← cstr ps; Some (set_fragment u f).
Definition parse_query (u : zurl) (ps : list Z) : option zurl :=
  r ← until (stops (str "#")) ps;
  let u := set_query u (fst r) in
  c ← rd (snd r) 0;
  if c =? chr "#" then parse_fragment u (tail (snd r)) else Some u.
Definition parse_path (u : zurl) (ps : list Z) : option zurl :=
  r ← until (stops (str "?#")) ps;
  let u := set_path u (fst r) in
  c ← rd (snd r) 0;
  if c =? chr "?" then parse_query u (tail (snd r))
  else if c =? chr "#" then parse_fragment u (tail (snd r)) else Some u.
Definition parse_port (u : zurl) (tmp_destination ps : list Z) : option zurl :=
  r ← until (stops (str "?#/")) ps;
  let u := set_destination u (take (length tmp_destination - length (snd r)) tmp_destination) in
  n ← atoi ps;
  let u := set_port u n in
  c ← rd (snd r) 0;
  if c =? chr "?" then parse_query u (tail (snd r))
  else if c =? chr "#" then parse_fragment u (tail (snd r))
  else if c =? chr "/" then parse_path u (tail (snd r)) else Some u.
Definition parse_local (u : zurl) (ps : list Z) : option zurl :=
  let u := set_host u (str "local") in
  r ← until (stops (str "?#")) (drop 6 ps);
  let u := set_destination (set_path u (fst r)) (take (length ps - length (snd r)) ps) in
  c ← rd (snd r) 0;
  if c =? chr "?" then parse_query u (tail (snd r))
  else if c =? chr "#" then parse_fragment u (tail (snd r)) else Some u.
Definition parse_host (u : zurl) (ps : list Z) : option zurl :=
  r ← until (stops (str "?#/:")) ps;
  c ← rd (snd r) 0;
  let u := if c =? chr ":" then u else set_destination u (fst r) in
  let u := set_host u (fst r) in
  if c =? chr "?" then parse_query u (tail (snd r))
  else if c =? chr "#" then parse_fragment u (tail (snd r))
  else if c =? chr "/" then parse_path u (tail (snd r))
  else if c =? chr ":" then parse_port u ps (tail (snd r)) else Some u.
Definition zurl_parse (url_string : list Z) : option zurl :=
  p ← strstr (str "://") url_string;
  r ← match p with
      | None =>
          c0 ← rd url_string 0;
          (if c0 =? chr "/" then
             c1 ← rd url_string 1;
             Some (if c1 =? chr "/" then (set_scheme url_blank (str "http"), drop 2 url_string) else (url_blank, url_string))
           else Some (url_blank, url_string))
      | Some (scheme, p) =>
          s ← zstr_tolower (scheme ++ [0]); s ← cstr s; Some (set_scheme url_blank s, drop 3 p)
      end;
  let '(u, ps) := r in
  l ← strncmp ps (str "local:" ++ [0]) 6;
  if l =? 0 then parse_local u ps else parse_host u ps.

(** ** Queries and cookies *)
Section vars.
Context `{!Allocator}.
Abbreviation zdict_t := (kvstate (list Z) zbuf).

(** [zstr_tolower(zbuf_data(name))], and [zbuf_data(name)] as a key. *)
Definition tolower_data (b : zbuf) : option zbuf :=
  s ← zbuf_data_z b; s ← zstr_tolower s; d ← blit (bf_data b) 0 s; Some (set_data b d).
Definition key_data (b : zbuf) : option (list Z) := s ← zbuf_data_z b; cstr s.

(** The [do ... while(0)]: the item [ps] up to [p], with a name and a value. *)
Definition var_item (item : list Z) (name value : zbuf) : option (zbuf * zbuf) :=
  match until (fun c => c =? chr "=") item with
  | None => Some (name, value)
  | Some (n, q) =>
      name ← zbuf_memcpy name n (zlen n);
      name ← tolower_data name;
      value ← zbuf_reset value;
      value ← zurl_hex_decode (tail q) (zlen (tail q)) value;
      Some (name, value)
  end.
(** [skip]: the blanks in front of an item of a cookie. *)
Fixpoint vars_loop (fuel : nat) (sep : Z) (skip_blank : bool) (ps : list Z) (name value : zbuf) : St zdict_t unit :=
  match fuel with
  | O => undefined
  | S fuel' =>
      ps ← of_option (if skip_blank then snd <$> until (fun c => negb ((c =? 32) || (c =? 9))) ps else Some ps);
      r ← of_option (until (stops [sep]) ps);
      nv ← of_option (var_item (fst r) name value);
      key ← of_option (key_data (fst nv));
      zdict_update key (snd nv);;
      c ← of_option (rd (snd r) 0);
      if c =? 0 then skip else vars_loop fuel' sep skip_blank (tail (snd r)) (fst nv) (snd nv)
  end.
(** NULL for the dictionary makes a new one. *)
Definition vars_parse (sep : Z) (skip_blank : bool) (text : list Z) (vars : option zdict_t) : option zdict_t :=
  name ← zbuf_create 32;
  value ← zbuf_create 128;
  r ← vars_loop (S (length text)) sep skip_blank text name value (default zdict_create vars);
  Some (snd r).
Definition zurl_query_parse (query : list Z) (query_vars : option zdict_t) : option zdict_t :=
  vars_parse (chr "&") false query query_vars.
Definition zhttp_cookie_parse (raw_cookie : list Z) (cookies : option zdict_t) : option zdict_t :=
  vars_parse (chr ";") true raw_cookie cookies.

Fixpoint query_build_loop (first strict : bool) (items : list (list Z * zbuf)) (query_buf : zbuf) : option zbuf :=
  match items with
  | [] => Some query_buf
  | (key, val) :: items' =>
      b ← (if first then Some query_buf else zbuf_put query_buf (chr "&"));
      b ← zurl_hex_encode (key ++ [0]) (s32 (zlen key)) b strict;
      b ← zbuf_put b (chr "=");
      d ← zbuf_data_z val;
      b ← zurl_hex_encode d (bf_len val) b strict;
      query_build_loop false strict items' b
  end.
Definition zurl_query_build (query_buf : zbuf) (strict : bool) : St zdict_t zbuf :=
  items ← ZDICT_WALK; of_option (query_build_loop true strict items query_buf).

(** [ch] is a [char]: negative from 128 on. *)
Definition put_nibbles (b : zbuf) (ch : Z) : option zbuf :=
  b ← zbuf_put b (chr "%"); b ← zbuf_put b (Z.shiftl ch 4); zbuf_put b (Z.land ch 15).
Fixpoint cookie_chars (slash : bool) (x : list Z) (b : zbuf) : option zbuf :=
  match x with
  | [] => Some b
  | c :: x' =>
      let ch := s8 c in
      b ← (if ch =? 32 then zbuf_put b (chr "+")
           else if isalnum ch || (slash && (ch =? chr "/")) then zbuf_put b ch
           else put_nibbles b ch);
      cookie_chars slash x' b
  end.
(** The arguments may be NULL; [date] is the text of [strftime] for [expires], and
    [now] the result of [time(0)]. *)
Definition nonempty (x : option (list Z)) : option (option (list Z)) :=
  match x with None => Some None | Some m => x ← cstr m; Some (if bool_decide (x = []) then None else Some x) end.
Definition zhttp_cookie_build_item (date : Z -> list Z) (now : Z) (name : list Z) (value : option (list Z)) (expires : Z)
    (path domain : option (list Z)) (secure httponly : bool) (b : zbuf) : option zbuf :=
  b ← zbuf_strcat b (Some name);
  b ← zbuf_put b (chr "=");
  value ← nonempty value;
  match value with
  | None => zbuf_puts b (str "deleted; expires=Thu, 01-Jan-1970 00:00:01 GMT; Max-Age=0;")
  | Some value =>
      b ← cookie_chars false value b;
      b ← (if 0 <? expires then
             b ← zbuf_puts b (str "; expires=");
             b ← zbuf_strcat b (Some (date expires ++ [0]));
             b ← zbuf_puts b (str "; Max-Age=");
             zbuf_printf_1024 b (fmt_zd (expires - now))
           else Some b);
      path ← nonempty path;
      b ← match path with None => Some b | Some x => b ← zbuf_puts b (str "; path="); cookie_chars true x b end;
      domain ← nonempty domain;
      b ← match domain with None => Some b | Some x => b ← zbuf_puts b (str "; domain="); cookie_chars false x b end;
      b ← (if secure then zbuf_puts b (str "; secure") else Some b);
      if httponly then zbuf_puts b (str "; httponly") else Some b
  end.
End vars.

(** ** A few runs *)
Lemma zurl_parse_example : zurl_parse (str "HTTP://www.example.org:8080/a/b?x=1#top" ++ [0]) =
  Some (mk_zurl (str "http") (str "www.example.org:8080") (str "www.example.org") (str "a/b") (str "x=1") (str "top") 8080).
Proof. by vm_compute. Qed.
(** The first "://" counts, wherever it stands. *)
Lemma zurl_parse_nested : zurl_parse (str "/go?to=http://b/c" ++ [0]) =
  Some (mk_zurl (str "/go?to=http") (str "b") (str "b") (str "c") [] [] (-1)).
Proof. by vm_compute. Qed.
