(* ===== verification/UrlVars.v ===== *)
(** * Queries and cookies: what the parsers put into the dictionary

    The text is cut at the separators; each item updates the dictionary with its
    name in lower case and its decoded value. An item without '=' has no name and
    no value of its own: the buffers still hold those of the item before it. *)
From stdpp Require Import gmap sorting.
From S2P Require Import Prelude Chars Buf Hex Text Scan StateMonad Keyed KeyedSpec KeyedRefine Maps Dict Url.

(** ** Cutting a text *)
Fixpoint split_on (sep : Z) (l : list Z) : list (list Z) :=
  match l with
  | [] => [[]]
  | c :: l' =>
      if c =? sep then [] :: split_on sep l'
      else match split_on sep l' with [] => [[c]] | x :: xs => (c :: x) :: xs end
  end.
Definition blank (c : Z) : bool := (c =? 32) || (c =? 9).
Definition skip_blanks (l : list Z) : list Z := (break_at (fun c => negb (blank c)) l).2.

Lemma split_on_break sep l : split_on sep l =
  match break_at (in_set [sep]) l with (x, []) => [x] | (x, _ :: r) => x :: split_on sep r end.
Proof.
  induction l as [|c l IH]; [done|]. cbn [split_on break_at]. unfold in_set at 1. cbn [existsb]. rewrite orb_false_r.
  destruct (c =? sep); [done|]. rewrite IH. destruct (break_at _ l) as [x [|d r]]; done.
Qed.
Lemma split_on_skip sep l : blank sep = false -> Forall (.≠ 0) l ->
  split_on sep (skip_blanks l) = match split_on sep l with x :: r => skip_blanks x :: r | [] => [] end.
Proof.
  intros Hs. unfold skip_blanks. induction 1 as [|c l Hc _ IH]; [done|]. cbn. destruct (blank c) eqn:Eb; cbn [negb].
  - destruct (Z.eqb_spec c sep) as [->|]; [congruence|]. cbn. rewrite IH. destruct (split_on sep l) as [|x r] eqn:E; cbn; [|by rewrite Eb].
    rewrite split_on_break in E. by destruct (break_at _ l) as [? []].
  - destruct (c =? sep) eqn:E; cbn; rewrite E; [done|].
    destruct (split_on sep l) as [|x r]; cbn; by rewrite Eb.
Qed.

(** ** The dictionary afterwards *)
(** The name and the value in the buffers after an item; [None]: an escape with a
    byte above 127. *)
Definition var_spec (item : list Z) (nv : list Z * list Z) : option (list Z * list Z) :=
  match break_at (fun c => c =? chr "=") item with
  | (_, []) => Some nv
  | (n, _ :: v) => v ← url_dec v; Some (ztolower <$> n, v)
  end.
Fixpoint vars_spec (items : list (list Z)) (nv : list Z * list Z) (al : list (list Z * list Z)) : option (list (list Z * list Z)) :=
  match items with
  | [] => Some al
  | item :: items' => nv ← var_spec item nv; vars_spec items' nv (al_update strcmp nv.1 nv.2 al)
  end.
Definition vars_items (sep : Z) (skip_blank : bool) (text : list Z) : list (list Z) :=
  (if skip_blank then skip_blanks else id) <$> split_on sep text.

(** ** The buffers *)
Lemma url_dec_shape l : forall x, bytes_ok l -> url_dec l = Some x -> bytes_ok x /\ zlen x <= zlen l.
Proof.
  induction l as [l IH] using (induction_ltof1 _ (@length Z)). unfold ltof in IH.
  destruct l as [|c l]; intros x Hl Hx; simpl in Hx; [by simplify_eq|]. apply Forall_cons in Hl as [Hc Hl].
  destruct (c =? 37).
  - destruct l as [|c1 [|c2 l]]; [simplify_eq; split; [done|zlia]..|].
    repeat (apply Forall_cons in Hl as [? Hl]). destruct (_ && _); [|done]. apply fmap_Some in Hx as (y & Hy & ->).
    destruct (IH l ltac:(simpl; lia) y Hl Hy). split; [constructor; [apply u8_byte|done]|zlia].
  - apply fmap_Some in Hx as (y & Hy & ->). destruct (IH l ltac:(simpl; lia) y Hl Hy). split; [by constructor|zlia].
Qed.

Lemma tolower_data_holds b n : holds None n b -> text_ok n ->
  runs (tolower_data b) (holds None (ztolower <$> n)).
Proof.
  intros Hb Hn. unfold tolower_data. rewrite (zbuf_data_z_rep b n Hb). cbn.
  rewrite zstr_tolower_text by by apply text_nonzero. cbn.
  destruct Hb as [Hr Ht]. destruct (cells_split _ _ _ Hr) as (y & rest & E).
  pose proof (blit_app [] ((ztolower <$> n) ++ [0]) [] (bf_data b) (bf_data b) eq_refl) as Hd.
  change (zlen []) with 0 in Hd. rewrite Hd by (rewrite E; autorewrite with zlen; zlia). cbn.
  assert (Hd' : drop (length ((ztolower <$> n) ++ [0])) (bf_data b) = rest).
  { rewrite E. change (y :: rest) with ([y] ++ rest). rewrite app_assoc. apply drop_app_length'.
    by rewrite !length_app, !length_fmap. }
  rewrite Hd'. apply runs_ret.
  destruct Hr. rewrite E in rep_alloc. split; [split|]; cbn; try done.
  - exists (Some 0 :: rest). by rewrite fmap_app, <- app_assoc.
  - by rewrite zlen_fmap.
  - by rewrite zlen_fmap.
  - revert rep_alloc. unfold zlen. rewrite !length_app, !length_fmap, length_app, length_fmap. cbn [length app]. lia.
  - apply text_bytes, ztolower_text, Hn.
  - unfold terminated. cbn. rewrite rep_len, fmap_app, <- app_assoc. rewrite <- (zlen_fmap ztolower n), <- (zlen_fmap Some (ztolower <$> n)).
    rewrite rd_app_r, Z.sub_diag by lia. done.
Qed.
Lemma key_data_holds b n : holds None n b -> text_ok n -> key_data b = Some n.
Proof.
  intros Hb Hn. unfold key_data. rewrite (zbuf_data_z_rep b n Hb). cbn. by apply cstr_app, text_nonzero.
Qed.
Lemma var_item_holds item name value nv nv' : text_ok item -> zlen item + 1 < 2 ^ 29 ->
  holds None nv.1 name -> holds None nv.2 value -> var_spec item nv = Some nv' ->
  text_ok nv.1 -> bytes_ok nv.2 -> zlen nv.2 + 1 < 2 ^ 29 ->
  runs (var_item item name value) (fun r => holds None nv'.1 r.1 /\ holds None nv'.2 r.2 /\
    text_ok nv'.1 /\ bytes_ok nv'.2 /\ zlen nv'.2 + 1 < 2 ^ 29).
Proof.
  intros Hi Hl Hn Hv Hs Hn0 Hv0 Hvl. unfold var_item, var_spec in *. rewrite until_item.
  pose proof (break_at_app (fun c => c =? chr "=") item) as E. pose proof (break_at_pre (fun c => c =? chr "=") item) as _.
  destruct (break_at _ item) as [n [|c v]]; cbn in *.
  { injection Hs as <-. by apply runs_ret. }
  destruct (url_dec v) as [x|] eqn:Ex; [|done]. injection Hs as <-. subst item. cbn [fst snd].
  apply Forall_app in Hi as [Hin [_ Hiv]%Forall_cons]. revert Hl. autorewrite with zlen. intros Hl. zlen_facts.
  destruct (url_dec_shape v x (text_bytes v Hiv) Ex) as [Hx Hxl].
  eapply runs_bind.
  { apply (zbuf_memcpy_holds None name nv.1 n (zlen n) n); [apply Hn|unfold int_max; lia|apply in_bytes_full|done|by apply text_bytes|cbn; lia]. }
  intros name1 Hn1. eapply runs_bind; [by apply tolower_data_holds|]. intros name2 Hn2.
  eapply runs_bind; [apply (zbuf_reset_holds None value nv.2), Hv|]. intros value1 Hv1.
  eapply runs_bind.
  { apply (zurl_hex_decode_appends v (zlen v) v x (in_bytes_full v) (text_bytes v Hiv) Ex None value1 [] Hv1). unfold room. rewrite zlen_nil. lia. }
  intros value2 Hv2. apply runs_ret. cbn. split; [done|]. split; [done|]. split; [by apply ztolower_text|]. split; [done|]. lia.
Qed.

(** ** The loop *)
Lemma zdict_update_rep `{AllocatorSound} key b x s al : kv_rep strcmp dict_rep s al -> dict_rep b x ->
  bytes_ok x -> zlen x + 1 < 2 ^ 29 -> zlen al < int_max ->
  wp (zdict_update key b) s (fun _ s' => kv_rep strcmp dict_rep s' (al_update strcmp key x al)).
Proof.
  intros Hs Hb Hx Hl Hal. pose proof (holds_bytes _ _ _ Hb) as E.
  assert (Ha : value_ok (DBuf b)) by (exists x; split; [exact E|]; split; [done|]; split; [done|]; apply (rep_len _ _ _ (proj1 Hb))).
  eapply wp_mono; [apply (kv_update_spec strcmp dict_rep _ _ key s al Hs (assign_of_ok _ Ha) Hal)|].
  unfold value_abs. cbn [value_bytes]. rewrite E. intros r s' (l' & Hs' & _). by exists l'.
Qed.
Lemma zlen_al_update {W} key (x : W) al : zlen (al_update strcmp key x al) <= zlen al + 1.
Proof. unfold al_update. destruct (al_find strcmp key al); rewrite ?zlen_al_set, ?zlen_al_insert; lia. Qed.
Lemma split_on_nonempty sep l : split_on sep l <> [].
Proof. rewrite split_on_break. by destruct (break_at _ l) as [? []]. Qed.
Lemma skip_blanks_suffix l : exists x, l = x ++ skip_blanks l.
Proof. unfold skip_blanks. eexists. symmetry. apply break_at_app. Qed.

(** The items from the first of a text on. *)
Lemma vars_items_break sep skip_blank l : blank sep = false -> Forall (.≠ 0) l ->
  vars_items sep skip_blank l = match break_at (in_set [sep]) (if skip_blank then skip_blanks l else l) with
    | (x, []) => [x] | (x, _ :: r) => x :: vars_items sep skip_blank r end.
Proof.
  intros Hs Hl. unfold vars_items. destruct skip_blank.
  2: { rewrite list_fmap_id, split_on_break. destruct (break_at _ l) as [x [|? r]]; by rewrite ?list_fmap_id. }
  pose proof (split_on_skip sep l Hs Hl) as E. rewrite split_on_break in E.
  destruct (split_on sep l) as [|x r] eqn:El; [by apply split_on_nonempty in El|].
  cbn [fmap list_fmap]. destruct (break_at _ _) as [y [|c z]]; injection E as -> <-; done.
Qed.

Lemma vars_loop_spec `{AllocatorSound} sep skip_blank : blank sep = false -> forall fuel text name value nv s al al',
  (length text < fuel)%nat -> text_ok text -> zlen text + 1 < 2 ^ 29 ->
  holds None nv.1 name -> holds None nv.2 value -> text_ok nv.1 -> bytes_ok nv.2 -> zlen nv.2 + 1 < 2 ^ 29 ->
  kv_rep strcmp dict_rep s al -> zlen al + zlen text < int_max ->
  vars_spec (vars_items sep skip_blank text) nv al = Some al' ->
  wp (vars_loop fuel sep skip_blank (text ++ [0]) name value) s (fun _ s' => kv_rep strcmp dict_rep s' al').
Proof.
  intros Hsep. induction fuel as [|fuel IH]; [lia|]. intros text name value nv s al al' Hf Ht Hl Hn Hv Hn0 Hv0 Hvl Hs Hal.
  rewrite vars_items_break by (done || by apply text_nonzero). cbn [vars_loop].
  set (t := if skip_blank then skip_blanks text else text).
  assert (Hsuf : exists x, text = x ++ t) by (unfold t; destruct skip_blank; [apply skip_blanks_suffix|by exists []]).
  assert (Hpre : (if skip_blank then snd <$> until (fun c => negb ((c =? 32) || (c =? 9))) (text ++ [0]) else Some (text ++ [0])) = Some (t ++ [0])).
  { unfold t. destruct skip_blank; [|done]. by rewrite until_break. }
  clearbody t. destruct Hsuf as [x0 ->]. apply Forall_app in Ht as [_ Ht]. zlen_facts. revert Hl Hal. rewrite zlen_app. intros Hl Hal.
  rewrite length_app in Hf.
  intros Hspec. apply wp_bind. eapply wp_of_option; [exact Hpre|]. clear Hpre.
  apply wp_bind. eapply wp_of_option; [by apply until_break|]. rewrite stops_break by by apply text_nonzero. cbn [fst snd]. revert Hspec.
  pose proof (break_at_app (in_set [sep]) t) as Et. destruct (break_at _ t) as [item rest]. cbn [fst snd] in *. subst t.
  apply Forall_app in Ht as [Hi Hr]. revert Hl Hal. rewrite zlen_app. intros Hl Hal. zlen_facts. rewrite length_app in Hf.
  intros Hspec. assert (exists nv', var_spec item nv = Some nv' /\
    match rest with [] => Some (al_update strcmp nv'.1 nv'.2 al)
    | _ :: r => vars_spec (vars_items sep skip_blank r) nv' (al_update strcmp nv'.1 nv'.2 al) end = Some al') as (nv' & Ev & Hspec').
  { destruct rest; cbn in Hspec; destruct (var_spec item nv) as [nv'|]; try done; by exists nv'. }
  clear Hspec.
  destruct (var_item_holds item name value nv nv' Hi ltac:(lia) Hn Hv Ev Hn0 Hv0 Hvl) as ([name' value'] & Er & Hn' & Hv' & Hn1 & Hv1 & Hvl1).
  apply wp_bind. eapply wp_of_option; [exact Er|]. cbn [fst snd] in *.
  apply wp_bind. eapply wp_of_option; [by eapply key_data_holds|].
  apply wp_bind. eapply wp_mono; [by apply (zdict_update_rep nv'.1 value' nv'.2 s al); [..|lia]|].
  intros r s1 Hs1. pose proof (zlen_al_update nv'.1 nv'.2 al).
  destruct rest as [|c rest]; cbn [app rd] in *.
  - apply wp_bind. eapply wp_of_option; [by apply rd_0|]. apply wp_ret. by injection Hspec' as <-.
  - apply wp_bind. eapply wp_of_option; [by apply rd_0|]. apply Forall_cons in Hr as [Hc Hr].
    rewrite (proj2 (Z.eqb_neq c 0)) by lia. cbn [tail]. revert Hl Hal. rewrite zlen_cons. intros Hl Hal. zlen_facts.
    cbn [length] in Hf. apply (IH rest name' value' nv' s1 (al_update strcmp nv'.1 nv'.2 al) al'); try done; lia.
Qed.

Lemma vars_parse_spec `{AllocatorSound} sep skip_blank text vars al al' : blank sep = false ->
  text_ok text -> zlen text + 1 < 2 ^ 29 ->
  kv_rep strcmp dict_rep (default zdict_create vars) al -> zlen al + zlen text < int_max ->
  vars_spec (vars_items sep skip_blank text) ([], []) al = Some al' ->
  runs (vars_parse sep skip_blank (text ++ [0]) vars) (fun s' => kv_rep strcmp dict_rep s' al').
Proof.
  intros Hsep Ht Hl Hs Hal Hspec. unfold vars_parse.
  eapply runs_bind; [by apply (zbuf_create_holds 32)|]. intros name Hn.
  eapply runs_bind; [by apply (zbuf_create_holds 128)|]. intros value Hv.
  pose proof (vars_loop_spec sep skip_blank Hsep (S (length (text ++ [0]))) text name value ([], []) (default zdict_create vars) al al') as H1.
  apply wp_runs in H1; try done; [|rewrite length_app; cbn; lia|constructor..].
  destruct H1 as (u & s' & E & Hs'). rewrite E. by apply runs_ret.
Qed.

(** An escape the code cannot decode: nothing is defined. *)
Lemma bind_of_option {S A B} (o : option A) x (f : A -> St S B) s : o = Some x -> (of_option o ≫= f) s = f x s.
Proof. by intros ->. Qed.
Lemma bind_undefined {S A B} (m : St S A) (f : A -> St S B) s : (forall a s', f a s' = None) -> (m ≫= f) s = None.
Proof. intros Hf. unfold mbind, St_bind. destruct (m s) as [[a s']|]; auto. Qed.
Lemma var_item_undefined item name value nv : text_ok item -> var_spec item nv = None -> var_item item name value = None.
Proof.
  intros Hi. unfold var_item, var_spec. rewrite until_item. pose proof (break_at_app (fun c => c =? chr "=") item) as E.
  destruct (break_at _ item) as [n [|c v]]; cbn in *; [done|]. subst item. apply Forall_app in Hi as [_ [_ Hiv]%Forall_cons].
  destruct (url_dec v) as [x|] eqn:Ex; [done|]. intros _. cbn [fst snd tail].
  destruct (zbuf_memcpy name n (zlen n)) as [b1|]; [|done]. cbn. destruct (tolower_data b1) as [b2|]; [|done]. cbn.
  destruct (zbuf_reset value) as [b3|]; [|done]. cbn.
  by rewrite (zurl_hex_decode_undefined v (zlen v) v b3 (in_bytes_full v) (text_bytes v Hiv) Ex).
Qed.
Lemma vars_loop_undefined `{!Allocator} sep skip_blank : blank sep = false -> forall fuel text name value nv al s,
  (length text < fuel)%nat -> text_ok text -> vars_spec (vars_items sep skip_blank text) nv al = None ->
  vars_loop fuel sep skip_blank (text ++ [0]) name value s = None.
Proof.
  intros Hsep. induction fuel as [|fuel IH]; [lia|]. intros text name value nv al s Hf Ht.
  rewrite vars_items_break by (done || by apply text_nonzero). cbn [vars_loop].
  set (t := if skip_blank then skip_blanks text else text).
  assert (Hsuf : exists x, text = x ++ t) by (unfold t; destruct skip_blank; [apply skip_blanks_suffix|by exists []]).
  assert (Hpre : (if skip_blank then snd <$> until (fun c => negb ((c =? 32) || (c =? 9))) (text ++ [0]) else Some (text ++ [0])) = Some (t ++ [0])).
  { unfold t. destruct skip_blank; [|done]. by rewrite until_break. }
  clearbody t. destruct Hsuf as [x0 ->]. apply Forall_app in Ht as [_ Ht]. rewrite length_app in Hf.
  intros Hspec. rewrite (bind_of_option _ _ _ _ Hpre).
  erewrite bind_of_option by by apply until_break. rewrite stops_break by by apply text_nonzero.
  cbn [fst snd]. revert Hspec. pose proof (break_at_app (in_set [sep]) t) as Et. destruct (break_at _ t) as [item rest].
  cbn [fst snd] in *. subst t. apply Forall_app in Ht as [Hi Hr]. rewrite length_app in Hf.
  destruct (var_spec item nv) as [nv'|] eqn:Ev.
  2: { intros _. by rewrite (var_item_undefined item name value nv Hi Ev). }
  destruct rest as [|c rest]; cbn [vars_spec]; rewrite Ev; [done|]. cbn [mbind option_bind]. intros Hspec.
  apply bind_undefined. intros [name' value'] s1. apply bind_undefined. intros key s2. apply bind_undefined. intros r s3.
  cbn [app]. rewrite (bind_of_option _ c) by by apply rd_0. apply Forall_cons in Hr as [Hc Hr].
  rewrite (proj2 (Z.eqb_neq c 0)) by lia. cbn [tail length] in *. eapply IH; [lia|done|exact Hspec].
Qed.

(** ** Theorems *)
(** C19: [zurl_query_parse] and [zhttp_cookie_parse] read a query or a raw cookie
    into a dictionary, a new one or the caller's: the text is cut at every '&'
    (every ';', and the blanks in front of an item are skipped), and item by item
    the name in lower case gets the value with its escapes decoded, a later item
    replacing an earlier one of the same name. An item without '=' stores the name
    and the value of the item before it again, under the empty name when it is the
    first. On a text (it holds no NUL) in one of whose values a byte above 127 stands
    where '%' wants a hexadecimal digit, the specification has no answer and the C is
    undefined: it reads outside its table (a bug). *)
Theorem vars_parse_items `{AllocatorSound} (cookie : bool) (text : list Z) (vars : option (kvstate (list Z) zbuf))
    (al : list (list Z * list Z)) :
  text_ok text -> zlen text + 1 < 2 ^ 29 ->
  kv_rep strcmp dict_rep (default zdict_create vars) al -> zlen al + zlen text < int_max ->
  match vars_spec (if cookie then skip_blanks <$> split_on (chr ";") text else split_on (chr "&") text) ([], []) al with
  | Some al' => runs ((if cookie then zhttp_cookie_parse else zurl_query_parse) (text ++ [0]) vars)
      (fun s' => kv_rep strcmp dict_rep s' al')
  | None => (if cookie then zhttp_cookie_parse else zurl_query_parse) (text ++ [0]) vars = None
  end.
Proof.
  intros Ht Hl Hs Hal.
  assert (Hsep : forall sep skip_blank, blank sep = false -> match vars_spec (vars_items sep skip_blank text) ([], []) al with
    | Some al' => runs (vars_parse sep skip_blank (text ++ [0]) vars) (fun s' => kv_rep strcmp dict_rep s' al')
    | None => vars_parse sep skip_blank (text ++ [0]) vars = None end).
  { intros sep skip_blank Hb. destruct (vars_spec _ _ _) as [al'|] eqn:E; [by eapply vars_parse_spec|].
    unfold vars_parse. destruct (zbuf_create 32) as [name|]; [|done]. destruct (zbuf_create 128) as [value|]; [|done].
    cbn [mbind option_bind]. rewrite (vars_loop_undefined sep skip_blank Hb _ text name value ([], []) al); [done| |done..].
    rewrite length_app. cbn. lia. }
  destruct cookie; [exact (Hsep (chr ";") true eq_refl)|]. specialize (Hsep (chr "&") false eq_refl).
  unfold vars_items in Hsep. by rewrite list_fmap_id in Hsep.
Qed.

(** ** Building a query *)
Definition query_item (strict : bool) (e : list Z * list Z) : list Z := url_enc strict e.1 ++ chr "=" :: url_enc strict e.2.
Fixpoint query_text (first strict : bool) (al : list (list Z * list Z)) : list Z :=
  match al with
  | [] => []
  | e :: al' => (if first then [] else [chr "&"]) ++ query_item strict e ++ query_text false strict al'
  end.
(** What [zdict_t] entries can be written. *)
Definition entry_ok (e : list Z * list Z) : Prop := text_ok e.1 /\ bytes_ok e.2 /\ zlen e.1 + 1 < 2 ^ 29.

Lemma zurl_hex_encode_key key strict : text_ok key -> zlen key + 1 < 2 ^ 29 ->
  appends (fun b => zurl_hex_encode (key ++ [0]) (s32 (zlen key)) b strict) (url_enc strict key).
Proof.
  intros Hk Hl. zlen_facts. rewrite s32_small by (unfold int_max; lia).
  apply zurl_hex_encode_appends; [apply in_bytes_app|by apply text_bytes].
Qed.
Lemma query_item_appends (first strict : bool) key val x : text_ok key -> zlen key + 1 < 2 ^ 29 -> bytes_ok x -> dict_rep val x ->
  appends (fun b => b ← (if first then Some b else zbuf_put b (chr "&"));
      b ← zurl_hex_encode (key ++ [0]) (s32 (zlen key)) b strict;
      b ← zbuf_put b (chr "=");
      d ← zbuf_data_z val;
      zurl_hex_encode d (bf_len val) b strict)
    ((if first then [] else [chr "&"]) ++ query_item strict (key, x)).
Proof.
  intros Hk Hl Hx Hv. unfold query_item. cbn [fst snd].
  apply appends_bind; [destruct first; [apply appends_ret|by apply appends_put]|].
  apply appends_bind; [by apply zurl_hex_encode_key|].
  apply (appends_bind _ _ [chr "="]); [by apply appends_put|].
  rewrite (zbuf_data_z_rep val x Hv), (rep_len _ _ _ (proj1 Hv)). cbn [mbind option_bind].
  apply zurl_hex_encode_appends; [apply in_bytes_app|done].
Qed.
Lemma query_build_loop_appends strict items : forall first al, Forall2 (entry_rel dict_rep) items al -> Forall entry_ok al ->
  appends (query_build_loop first strict items) (query_text first strict al).
Proof.
  induction items as [|[key val] items IH]; intros first al He Ha; inversion He as [|? [k x] ? al' [Hk Hv] He']; subst; clear He.
  { apply appends_ret. }
  cbn [fst snd] in *. subst key. apply Forall_cons in Ha as [(Hk & Hx & Hl) Ha]. cbn [fst snd query_text] in *. rewrite app_assoc.
  eapply appends_ext; [|eapply appends_bind; [by apply (query_item_appends first strict k val x)|by apply (IH false)]].
  intros b. cbn [query_build_loop]. destruct (if first then _ else _) as [b1|]; [|done]. cbn [mbind option_bind].
  destruct (zurl_hex_encode _ _ b1 strict) as [b2|]; [|done]. cbn [mbind option_bind]. destruct (zbuf_put b2 _) as [b3|]; [|done].
  cbn [mbind option_bind]. by destruct (zbuf_data_z val).
Qed.
Lemma zurl_query_build_spec `{AllocatorSound} strict b l s al : kv_rep strcmp dict_rep s al -> Forall entry_ok al -> holds None l b ->
  zlen l + zlen (query_text true strict al) + 1 < 2 ^ 29 ->
  wp (zurl_query_build b strict) s (fun b' s' => kv_rep strcmp dict_rep s' al /\ holds None (l ++ query_text true strict al) b').
Proof.
  intros Hs Ha Hb Hl. unfold zurl_query_build. apply wp_bind. eapply wp_mono; [by apply (kv_walk_spec strcmp dict_rep)|].
  intros items s' [Hs' Hi].
  destruct (query_build_loop_appends strict items true al Hi Ha None b l Hb Hl) as (b' & E & Hb').
  by eapply wp_of_option.
Qed.

(** ** Reading it back *)
Definition key_plain (strict : bool) (c : Z) : Prop := 0 < c < 256 /\ url_plain strict c /\ isupper c = false.
Definition value_plain (strict : bool) (x : list Z) : Prop := bytes_ok x /\ (strict \/ Forall (.≠ 0) x).
Definition sep_free (l : list Z) : Prop := Forall (fun c => 0 < c < 256 /\ c <> chr "&") l.

Lemma url_plain_not_sep strict c : byte_ok c -> url_plain strict c -> c <> chr "&" /\ c <> chr "=".
Proof. intros Hc Hp. split; intros ->; by destruct strict. Qed.
Lemma url_enc_plain strict k : Forall (fun c => url_plain strict c) k -> url_enc strict k = k.
Proof.
  induction 1 as [|c k Hc _ IH]; [done|]. change (url_enc strict (c :: k)) with (url_char strict c ++ url_enc strict k).
  rewrite IH. unfold url_char. by destruct (url_plain strict c).
Qed.
Lemma hex_digit_sep v : 0 <= v < 16 -> 0 < hex_digit v < 256 /\ hex_digit v <> chr "&".
Proof. unfold hex_digit. intros Hv. destruct (Z.ltb_spec v 10); lia. Qed.
Lemma url_enc_sep strict x : value_plain strict x -> sep_free (url_enc strict x).
Proof.
  intros [Hb Hz]. unfold sep_free. induction x as [|c x IH]; [constructor|].
  change (url_enc strict (c :: x)) with (url_char strict c ++ url_enc strict x).
  apply Forall_cons in Hb as [Hc Hb]. apply Forall_app. split.
  - unfold url_char. destruct (url_plain strict c) eqn:E.
    + constructor; [|constructor]. unfold byte_ok in Hc. split.
      * destruct (Z.eq_dec c 0) as [->|]; [|lia]. destruct Hz as [Hz|Hz]; [by destruct strict|]. by apply Forall_cons in Hz as [? _].
      * apply (url_plain_not_sep strict c); [unfold byte_ok; lia|by rewrite E].
    + unfold byte_ok in Hc. assert (0 <= c / 16 < 16) by (split; [apply Z.div_pos; lia|apply Z.div_lt_upper_bound; lia]).
      unfold hex_byte. constructor; [cbn; lia|]. constructor; [by apply hex_digit_sep|]. constructor; [|done].
      apply hex_digit_sep, Z.mod_pos_bound. lia.
  - apply IH; [done|]. destruct Hz as [Hz|Hz]; [by left|right]. by apply Forall_cons in Hz as [_ ?].
Qed.

Lemma split_on_sep_free x : sep_free x -> split_on (chr "&") x = [x].
Proof.
  intros H. rewrite split_on_break, break_at_end; [done|]. eapply Forall_impl; [exact H|]. intros c [_ Hc].
  unfold in_set. cbn [existsb]. by rewrite orb_false_r, (proj2 (Z.eqb_neq _ _)).
Qed.
Lemma split_on_sep_app x r : sep_free x -> split_on (chr "&") (x ++ chr "&" :: r) = x :: split_on (chr "&") r.
Proof.
  intros H. rewrite split_on_break, break_at_mid; [done| |done]. eapply Forall_impl; [exact H|]. intros c [_ Hc].
  unfold in_set. cbn [existsb]. by rewrite orb_false_r, (proj2 (Z.eqb_neq _ _)).
Qed.
Lemma query_item_sep strict e : Forall (key_plain strict) e.1 -> value_plain strict e.2 -> sep_free (query_item strict e).
Proof.
  intros Hk Hv. unfold query_item. rewrite url_enc_plain by (eapply Forall_impl; [exact Hk|]; by intros c (_ & ? & _)).
  apply Forall_app. split; [|constructor; [cbn; lia|by apply url_enc_sep]].
  eapply Forall_impl; [exact Hk|]. intros c (Hc & Hp & _). split; [done|]. apply (url_plain_not_sep strict c); [unfold byte_ok; lia|done].
Qed.
Lemma split_query_text strict al : Forall (fun e => Forall (key_plain strict) e.1 /\ value_plain strict e.2) al -> al <> [] ->
  split_on (chr "&") (query_text true strict al) = query_item strict <$> al /\ Forall (fun c => 0 < c < 256) (query_text true strict al).
Proof.
  induction al as [|e al IH]; [done|]. intros [[Hk Hv] Ha]%Forall_cons _.
  pose proof (query_item_sep strict e Hk Hv) as Hi. cbn [query_text app fmap list_fmap].
  assert (Hi0 : text_ok (query_item strict e)) by (eapply Forall_impl; [exact Hi|]; by intros c [? _]).
  destruct al as [|e' al]; cbn [query_text].
  - rewrite app_nil_r. split; [by apply split_on_sep_free|done].
  - destruct (IH Ha) as [E Hb]; [done|]. cbn [query_text app] in *. rewrite split_on_sep_app, E by done.
    split; [done|]. apply Forall_app. split; [done|]. by constructor; [cbn; lia|].
Qed.
Lemma var_spec_query_item strict e nv : Forall (key_plain strict) e.1 -> bytes_ok e.2 ->
  var_spec (query_item strict e) nv = Some e.
Proof.
  intros Hk Hv. unfold query_item, var_spec. rewrite url_enc_plain by (eapply Forall_impl; [exact Hk|]; by intros c (_ & ? & _)).
  rewrite break_at_mid; [|eapply Forall_impl; [exact Hk|]|done].
  - rewrite url_dec_enc by done. cbn. f_equal. destruct e as [k x]. cbn in *. f_equal. clear Hv.
    induction Hk as [|c k (Hc & _ & Hu) _ IH]; [done|]. rewrite fmap_cons, IH, ztolower_spec, Hu; [done|unfold byte_ok; lia].
  - intros c (Hc & Hp & _). apply Z.eqb_neq. apply (url_plain_not_sep strict c); [unfold byte_ok; lia|done].
Qed.
Lemma vars_spec_sorted strict al : forall al0 nv, Forall (fun e => Forall (key_plain strict) e.1 /\ value_plain strict e.2) al ->
  al_sorted strcmp (al0 ++ al) -> vars_spec (query_item strict <$> al) nv al0 = Some (al0 ++ al).
Proof.
  induction al as [|e al IH]; intros al0 nv Ha Hs; [by rewrite app_nil_r|]. apply Forall_cons in Ha as [[Hk [Hv _]] Ha].
  cbn [fmap list_fmap vars_spec]. rewrite var_spec_query_item by done. cbn [mbind option_bind].
  rewrite (al_update_last strcmp). 2: { apply Forall_forall. intros e0 He0. eapply (StronglySorted_app_1_elem_of _ _ _ e0 e Hs); [done|by left]. }
  replace (e.1, e.2) with e by by destruct e. change (e :: al) with ([e] ++ al) in *. rewrite app_assoc in *. by apply IH.
Qed.

(** The query of a dictionary in a new buffer, and a new dictionary from it. *)
Definition query_through `{Allocator} (size : Z) (strict : bool) (s : kvstate (list Z) zbuf) :
    option (list Z * kvstate (list Z) zbuf) :=
  b ← zbuf_create size;
  r ← zurl_query_build b strict s;
  t ← zbuf_data_z (fst r);
  s' ← zurl_query_parse t None;
  Some (t, s').

(** C18: what [zurl_query_build] writes, [zurl_query_parse] reads: a dictionary
    that is not empty, with names of characters that need no escape and no capital
    letters, comes back with the same entries, whatever bytes the values hold (no
    NUL where the strict flag is off: it is not escaped then and ends the query). *)
Theorem zurl_query_roundtrip `{AllocatorSound} (size : Z) (strict : bool) (s : kvstate (list Z) zbuf) (al : list (list Z * list Z)) :
  kv_rep strcmp dict_rep s al -> al <> [] ->
  Forall (fun e => Forall (key_plain strict) e.1 /\ value_plain strict e.2 /\ zlen e.1 + 1 < 2 ^ 29) al ->
  size < 2 ^ 29 -> zlen (query_text true strict al) + 1 < 2 ^ 29 ->
  runs (query_through size strict s) (fun '(t, s') => t = query_text true strict al ++ [0] /\ kv_rep strcmp dict_rep s' al).
Proof.
  intros Hs Hne Ha Hsz Hl. unfold query_through.
  assert (Ha' : Forall (fun e => Forall (key_plain strict) e.1 /\ value_plain strict e.2) al) by (eapply Forall_impl; [exact Ha|]; by intros e (? & ? & _)).
  assert (He : Forall entry_ok al).
  { eapply Forall_impl; [exact Ha|]. intros e (Hk & [Hv _] & Hkl). split; [|done]. eapply Forall_impl; [exact Hk|]. by intros c (? & _). }
  eapply runs_bind; [by apply zbuf_create_holds|]. intros b Hb.
  pose proof (zurl_query_build_spec strict b [] s al Hs He Hb Hl) as H1. apply wp_runs in H1 as (b' & s1 & E & _ & Hb').
  rewrite E. cbn [fst mbind option_bind]. rewrite (zbuf_data_z_rep b' _ Hb'). cbn [mbind option_bind app].
  destruct (split_query_text strict al Ha' Hne) as [Esp Ht].
  eapply runs_bind.
  { apply (vars_parse_spec (chr "&") false _ None [] al); try done; [apply kv_rep_create|unfold int_max; rewrite zlen_nil; lia|].
    unfold vars_items. rewrite list_fmap_id, Esp. apply (vars_spec_sorted strict al [] ([], []) Ha'). by eapply kv_rep_sorted. }
  intros s' Hs'. by apply runs_ret.
Qed.

(** ** A cookie for the answer *)
(** A blank is '+'; a byte that is neither a letter nor a digit ('/' in a path
    apart) is '%' and two raw bytes, its high bits dropped in the first. *)
Definition cookie_char (slash : bool) (c : Z) : list Z :=
  if c =? 32 then [chr "+"]
  else if isalnum c || (slash && (c =? chr "/")) then [c] else [chr "%"; c mod 16 * 16; c mod 16].
Definition cookie_esc (slash : bool) (x : list Z) : list Z := x ≫= cookie_char slash.
Definition cookie_attr (name : list Z) (slash : bool) (x : option (list Z)) : list Z :=
  match x with None | Some [] => [] | Some x => name ++ cookie_esc slash x end.
Definition cookie_text (date : Z -> list Z) (now : Z) (name : list Z) (value : option (list Z)) (expires : Z)
    (path domain : option (list Z)) (secure httponly : bool) : list Z :=
  name ++ str "=" ++
  match value with
  | None | Some [] => str "deleted; expires=Thu, 01-Jan-1970 00:00:01 GMT; Max-Age=0;"
  | Some value =>
      cookie_esc false value ++
      (if 0 <? expires then str "; expires=" ++ date expires ++ str "; Max-Age=" ++ fmt_zd (expires - now) else []) ++
      cookie_attr (str "; path=") true path ++ cookie_attr (str "; domain=") false domain ++
      (if secure then str "; secure" else []) ++ (if httponly then str "; httponly" else [])
  end.

Lemma cookie_char_cases (slash : bool) c : byte_ok c ->
  (s8 c =? 32) = (c =? 32) /\ isalnum (s8 c) || (slash && (s8 c =? chr "/")) = isalnum c || (slash && (c =? chr "/")) /\
  u8 (s8 c) = c /\ u8 (Z.shiftl (s8 c) 4) = c mod 16 * 16 /\ u8 (Z.land (s8 c) 15) = c mod 16.
Proof.
  intros Hc. rewrite !s8_eqb by (done || lia). split; [done|]. split; [f_equal|].
  - apply eqb_prop. by apply (byte_forall (fun c => Bool.eqb (isalnum (s8 c)) (isalnum c))).
  - split; [by rewrite u8_s8, u8_id|].
    assert (H : (u8 (Z.shiftl (s8 c) 4) =? c mod 16 * 16) && (u8 (Z.land (s8 c) 15) =? c mod 16) = true); [|lia].
    by apply (byte_forall (fun c => (u8 (Z.shiftl (s8 c) 4) =? c mod 16 * 16) && (u8 (Z.land (s8 c) 15) =? c mod 16))).
Qed.
Lemma cookie_chars_appends slash x : bytes_ok x -> appends (cookie_chars slash x) (cookie_esc slash x).
Proof.
  induction 1 as [|c x Hc _ IH]; [apply appends_ret|].
  change (cookie_esc slash (c :: x)) with (cookie_char slash c ++ cookie_esc slash x).
  apply appends_bind; [|done]. destruct (cookie_char_cases slash c Hc) as (E1 & E2 & E3 & E4 & E5). unfold cookie_char.
  rewrite E1, E2. destruct (c =? 32); [by apply appends_put|]. destruct (isalnum c || _); [apply appends_put; by rewrite E3|].
  apply (appends_bind _ _ [chr "%"]); [by apply appends_put|]. apply (appends_bind _ _ [c mod 16 * 16] [c mod 16]).
  - apply appends_put. by rewrite E4.
  - apply appends_put. by rewrite E5.
Qed.
Definition given (m : option (list Z)) : option (list Z) := match m with Some [] => None | _ => m end.
Lemma nonempty_ok m : (forall l, m = Some l -> text_ok l) -> nonempty ((fun l => l ++ [0]) <$> m) = Some (given m).
Proof.
  intros Hm. unfold nonempty. destruct m as [l|]; cbn; [|done]. rewrite cstr_app by by apply text_nonzero, Hm.
  by destruct l.
Qed.
Lemma appends_strcat x : text_ok x -> zlen x < int_max -> appends (fun b => zbuf_strcat b (Some (x ++ [0]))) x.
Proof. intros Hx Hl. apply appends_puts; [by apply text_bytes|by apply text_nonzero|done]. Qed.
Lemma cookie_attr_appends slash text m : text_ok text -> zlen text < int_max -> (forall l, m = Some l -> text_ok l) ->
  appends (fun b => match given m with None => Some b | Some x => b ← zbuf_puts b text; cookie_chars slash x b end)
    (cookie_attr text slash m).
Proof.
  intros Ht Hl Hm. unfold cookie_attr.
  destruct m as [[|c l]|]; try apply appends_ret. apply appends_bind; [by apply appends_strcat|].
  apply cookie_chars_appends, text_bytes. by apply Hm.
Qed.
Lemma appends_when (c : bool) f x : appends f x -> appends (fun b => if c then f b else Some b) (if c then x else []).
Proof. destruct c; [done|]. intros _. apply appends_ret. Qed.
Lemma expires_appends date now expires : text_ok (date expires) -> zlen (date expires) < int_max ->
  appends (fun b => b ← zbuf_puts b (str "; expires="); b ← zbuf_strcat b (Some (date expires ++ [0]));
             b ← zbuf_puts b (str "; Max-Age="); zbuf_printf_1024 b (fmt_zd (expires - now)))
    (str "; expires=" ++ date expires ++ str "; Max-Age=" ++ fmt_zd (expires - now)).
Proof.
  intros Hd Hl. pose proof (fmt_zd_len (expires - now)).
  apply appends_bind; [apply appends_strcat; [by repeat constructor|done]|].
  apply appends_bind; [by apply appends_strcat|].
  apply appends_bind; [apply appends_strcat; [by repeat constructor|done]|].
  intros cap b l [Hb _] Hr. pose proof (fmt_zd_bytes (expires - now)).
  assert (E : take 1023 (fmt_zd (expires - now)) = fmt_zd (expires - now)) by (apply firstn_all2; unfold zlen in *; lia).
  eapply runs_mono; [apply (zbuf_printf_holds cap b l); rewrite ?E; try done|]. by rewrite E.
Qed.

(** [zhttp_cookie_build_item] appends the text of a cookie: the name, '=', the
    escaped value with [expires] and [Max-Age] when [expires] is positive, the
    [path], the [domain], [secure] and [httponly]; an empty or NULL value asks for
    the deletion of the cookie and writes none of the attributes; an empty or NULL
    path or domain is left out. The escape of a byte is '%' and two raw bytes. *)
Theorem zhttp_cookie_build_item_text (date : Z -> list Z) (now : Z) (name : list Z) (value : option (list Z)) (expires : Z)
    (path domain : option (list Z)) (secure httponly : bool) :
  text_ok name -> zlen name < int_max -> (0 < expires -> text_ok (date expires) /\ zlen (date expires) < int_max) ->
  (forall x, value = Some x \/ path = Some x \/ domain = Some x -> text_ok x) ->
  appends (zhttp_cookie_build_item date now (name ++ [0]) ((fun l => l ++ [0]) <$> value) expires
      ((fun l => l ++ [0]) <$> path) ((fun l => l ++ [0]) <$> domain) secure httponly)
    (cookie_text date now name value expires path domain secure httponly).
Proof.
  intros Hn Hnl Hd Hx. unfold zhttp_cookie_build_item, cookie_text.
  apply appends_bind; [by apply appends_strcat|]. apply (appends_bind _ _ (str "=")); [by apply appends_put|].
  rewrite (nonempty_ok value), (nonempty_ok path), (nonempty_ok domain) by (intros; apply Hx; auto). cbn [mbind option_bind].
  assert (Hdel : appends (fun b => zbuf_puts b (str "deleted; expires=Thu, 01-Jan-1970 00:00:01 GMT; Max-Age=0;"))
    (str "deleted; expires=Thu, 01-Jan-1970 00:00:01 GMT; Max-Age=0;")) by (apply appends_strcat; [by repeat constructor|done]).
  destruct value as [[|c v]|]; [done| |done].
  apply appends_bind; [apply cookie_chars_appends, text_bytes, Hx; auto|].
  apply appends_bind.
  { destruct (Z.ltb_spec 0 expires) as [He|]; [apply expires_appends; by apply Hd|apply appends_ret]. }
  apply appends_bind; [apply cookie_attr_appends; [by repeat constructor|done|intros; apply Hx; auto]|].
  apply appends_bind; [apply cookie_attr_appends; [by repeat constructor|done|intros; apply Hx; auto]|].
  apply appends_bind; apply appends_when, appends_strcat; by repeat constructor.
Qed.
(** ** Runs *)
Lemma vars_parse_items_witness :
  runs (zhttp_cookie_parse (str "SID=31%64; lang=c++;secure" ++ [0]) None)
    (fun s' => kv_rep strcmp dict_rep s' [(str "lang", str "c++"); (str "sid", str "31d")]).
Proof.
  apply (vars_parse_items true (str "SID=31%64; lang=c++;secure") None []); try done; try apply kv_rep_create.
  by repeat constructor.
Defined.
Example vars_parse_undefined : zurl_query_parse (str "a=%" ++ [200; 48; 0]) None = None.
Proof. reflexivity. Qed.
(** No item at all is the empty name with the empty value. *)
Lemma vars_parse_empty : runs (zurl_query_parse [0] None) (fun s' => kv_rep strcmp dict_rep s' [([], [])]).
Proof. apply (vars_parse_spec (chr "&") false [] None []); try done. apply kv_rep_create. Qed.
Lemma zurl_query_roundtrip_witness :
  exists s, runs (query_through 0 true s)
    (fun '(t, s') => t = str "idle=3m&port=25" ++ [0] /\ kv_rep strcmp dict_rep s' [(str "idle", str "3m"); (str "port", str "25")]).
Proof.
  destruct (zdict_run dict_demo dict_demo_ok ltac:(vm_compute; discriminate)) as (rs & s & s' & _ & _ & Hs & _).
  exists s. apply (zurl_query_roundtrip 0 true s _ Hs); try done.
  repeat constructor; try done; by left.
Defined.
Lemma zhttp_cookie_build_item_text_witness :
  appends (zhttp_cookie_build_item (fun _ => []) 100 (str "id" ++ [0]) (Some (str "a b=" ++ [0])) 0 (Some (str "/x" ++ [0])) None true false)
    (str "id=a+b%" ++ [208; 13] ++ str "; path=/x; secure").
Proof.
  apply (zhttp_cookie_build_item_text (fun _ => []) 100 (str "id") (Some (str "a b=")) 0 (Some (str "/x")) None true false); try done.
  - by repeat constructor.
  - intros x [[= <-]|[[= <-]|[=]]]; by repeat constructor.
Defined.
