(* ===== verification/UrlTrip.v ===== *)
(** * URLs: the parts written are the parts read

    A URL is put together from its parts; parsing the text gives them back, and
    the destination ([host] or [host:port]). *)
From S2P Require Import Prelude Chars Text Scan Maps Url UrlVars.

(** The parts of an absolute URL, [None] for one that is left out; the port in
    digits. *)
Record url_parts := mk_url_parts {
  up_scheme : list Z; up_host : list Z; up_port : option (list Z);
  up_path : option (list Z); up_query : option (list Z); up_fragment : option (list Z)
}.
Definition part (c : Z) (x : option (list Z)) : list Z := match x with Some x => c :: x | None => [] end.
Definition tail_text (path query fragment : option (list Z)) : list Z :=
  part (chr "/") path ++ part (chr "?") query ++ part (chr "#") fragment.
Definition url_tail (u : url_parts) : list Z :=
  tail_text (up_path u) (up_query u) (up_fragment u).
Definition url_text (u : url_parts) : list Z :=
  up_scheme u ++ str "://" ++ up_host u ++ part (chr ":") (up_port u) ++ url_tail u.
(** The record read from it. *)
Definition url_of_parts (u : url_parts) : zurl :=
  mk_zurl (ztolower <$> up_scheme u) (up_host u ++ part (chr ":") (up_port u)) (up_host u) (default [] (up_path u))
    (default [] (up_query u)) (default [] (up_fragment u)) (default (-1) (digits_value <$> up_port u)).

(** Which parts can be written: none has a NUL or the delimiters that would end
    it, the port fits an [int], and the URL is not one of a local service. *)
Definition free_of (set l : list Z) : Prop := Forall (fun c => stops set c = false) l.
Record parts_ok (u : url_parts) : Prop := {
  ok_scheme : text_ok (up_scheme u) /\ free_of (str ":") (up_scheme u);
  ok_host : free_of (str "?#/:") (up_host u);
  ok_port : forall p, up_port u = Some p -> all isdigit p /\ p <> [] /\ digits_value p < 2 ^ 31;
  ok_path : forall p, up_path u = Some p -> free_of (str "?#") p;
  ok_query : forall q, up_query u = Some q -> free_of (str "#") q;
  ok_fragment : forall f, up_fragment u = Some f -> Forall (.≠ 0) f;
  ok_local : up_host u = str "local" -> up_port u = None
}.

Definition opt {A} (f : A -> list Z -> A) (u : A) (x : option (list Z)) : A := match x with Some x => f u x | None => u end.

Lemma free_of_nonzero set l : free_of set l -> Forall (.≠ 0) l.
Proof. intros H. eapply Forall_impl; [exact H|]. intros c Hc ->. done. Qed.
Lemma part_nonzero c x : c <> 0 -> (forall y, x = Some y -> Forall (.≠ 0) y) -> Forall (.≠ 0) (part c x).
Proof. intros Hc Hx. destruct x as [x|]; constructor; [done|]. by apply Hx. Qed.

(** ** The labels *)
Definition path_ok (path : option (list Z)) : Prop := forall p, path = Some p -> free_of (str "?#") p.
Definition query_ok (query : option (list Z)) : Prop := forall q, query = Some q -> free_of (str "#") q.
Definition fragment_ok (fragment : option (list Z)) : Prop := forall f, fragment = Some f -> Forall (.≠ 0) f.
Lemma parse_fragment_ok u f : fragment_ok (Some f) -> parse_fragment u (f ++ [0]) = Some (set_fragment u f).
Proof. intros E. unfold parse_fragment. by rewrite cstr_app by by apply E. Qed.
Lemma parse_query_ok u q fragment : query_ok (Some q) -> fragment_ok fragment ->
  parse_query u (q ++ part (chr "#") fragment ++ [0]) = Some (opt set_fragment (set_query u q) fragment).
Proof.
  intros E Hf. specialize (E q eq_refl). unfold parse_query. destruct fragment as [f|]; cbn [part app].
  - rewrite until_app by done. cbn [mbind option_bind fst snd]. by apply parse_fragment_ok.
  - by rewrite until_app.
Qed.
Lemma parse_path_ok u p query fragment : path_ok (Some p) -> query_ok query -> fragment_ok fragment ->
  parse_path u (p ++ part (chr "?") query ++ part (chr "#") fragment ++ [0]) =
    Some (opt set_fragment (opt set_query (set_path u p) query) fragment).
Proof.
  intros E Hq Hf. specialize (E p eq_refl). unfold parse_path. destruct query as [q|]; cbn [part app].
  - rewrite until_app by done. cbn [mbind option_bind fst snd]. by apply parse_query_ok.
  - destruct fragment as [f|]; cbn [part app]; rewrite until_app by done; [|done]. by apply parse_fragment_ok.
Qed.
Lemma tail_nonzero path query fragment : path_ok path -> query_ok query -> fragment_ok fragment ->
  Forall (.≠ 0) (tail_text path query fragment).
Proof.
  intros Hp Hq Hf. unfold tail_text. repeat (apply Forall_app; split); apply part_nonzero; try done; intros y E.
  - eapply free_of_nonzero. by apply Hp.
  - eapply free_of_nonzero. by apply Hq.
Qed.
Lemma tail_head path query fragment : exists c r, tail_text path query fragment ++ [0] = c :: r /\ stops (str "?#/") c = true /\ c <> chr ":" /\ isdigit c = false.
Proof. unfold tail_text. destruct path, query, fragment; cbn; eauto 10. Qed.
(** Where the host or the port ends. *)
Lemma tail_parse path query fragment u c r : path_ok path -> query_ok query -> fragment_ok fragment ->
  tail_text path query fragment ++ [0] = c :: r ->
  (if c =? chr "?" then parse_query u r
   else if c =? chr "#" then parse_fragment u r
   else if c =? chr "/" then parse_path u r else Some u) =
  Some (opt set_fragment (opt set_query (opt set_path u path) query) fragment).
Proof.
  intros Hp Hq Hf. unfold tail_text. rewrite <- !app_assoc. destruct path as [p|]; cbn [part app].
  { intros [= <- <-]. cbn. by apply parse_path_ok. }
  destruct query as [q|]; cbn [part app].
  { intros [= <- <-]. cbn. by apply parse_query_ok. }
  destruct fragment as [f|]; cbn [part app].
  { intros [= <- <-]. cbn. by apply parse_fragment_ok. }
  by intros [= <- <-].
Qed.

(** ** The port *)
Lemma digits_free ds : all isdigit ds -> free_of (str "?#/") ds.
Proof.
  intros H. eapply Forall_impl; [exact H|]. intros c Hc%isdigit_range. unfold stops, in_set. cbn. lia.
Qed.

(** ** The front *)
Lemma strstr_at x r : Forall (fun c => c <> 0 /\ c <> chr ":") x -> take 3 r = str "://" ->
  strstr (str "://") (x ++ r) = Some (Some (x, r)).
Proof.
  intros Hx Hr. induction Hx as [|c x [H0 Hc] _ IH]; cbn [app strstr].
  - destruct r as [|c r]; [done|]. cbn [strstr]. by rewrite bool_decide_eq_true_2.
  - rewrite bool_decide_eq_false_2 by (by intros [= E _]). by rewrite (proj2 (Z.eqb_neq c 0)), IH by done.
Qed.
(** [strncmp(l, s, strlen(s))] *)
Lemma strncmp_front s : forall l, Forall (.≠ 0) s ->
  exists r, strncmp (l ++ [0]) (s ++ [0]) (length s) = Some r /\ (r = 0 -> s `prefix_of` l).
Proof.
  induction s as [|y s IH]; intros l Hs; [exists 0; split; [by destruct l|intros _; apply prefix_nil]|].
  apply Forall_cons in Hs as [Hy Hs]. cbn beta in Hy.
  assert (Hlt : forall x (a : option Z) Q, (x = y -> exists r, a = Some r /\ (r = 0 -> Q)) ->
    exists r, (if x <? y then Some (-1) else if y <? x then Some 1 else a) = Some r /\ (r = 0 -> Q)).
  { intros x a Q Ha. destruct (Z.ltb_spec x y); [by eexists|]. destruct (Z.ltb_spec y x); [by eexists|]. apply Ha. lia. }
  destruct l as [|x l]; cbn [app length strncmp]; apply Hlt; intros E; [congruence|]. subst x.
  rewrite (proj2 (Z.eqb_neq y 0)) by done. destruct (IH l Hs) as (r & -> & Hr). exists r. split; [done|].
  intros E. by apply prefix_cons, Hr.
Qed.

Section url.
Context (u : url_parts).
Hypothesis Hu : parts_ok u.
(** What follows the scheme. *)
Definition url_rest : list Z := up_host u ++ part (chr ":") (up_port u) ++ url_tail u.

Lemma url_tail_nonzero : Forall (.≠ 0) (url_tail u).
Proof using Hu. destruct Hu. by apply tail_nonzero. Qed.
Lemma port_nonzero : Forall (.≠ 0) (part (chr ":") (up_port u)).
Proof using Hu.
  apply part_nonzero; [done|]. intros p Hp. eapply free_of_nonzero, digits_free. by apply (ok_port u Hu).
Qed.
(** It is no local service. *)
Lemma url_not_local : ~ str "local:" `prefix_of` url_rest.
Proof using Hu.
  intros [k E]. unfold url_rest in E. destruct (tail_head (up_path u) (up_query u) (up_fragment u)) as (c & r & Ht & Hc & Hc' & _).
  assert (Hh : forall c r, part (chr ":") (up_port u) ++ url_tail u ++ [0] = c :: r -> stops (str "?#/:") c = true ->
    up_host u = str "local" /\ c = chr ":").
  { intros d r' Er Hd. apply (f_equal (fun l => until (stops (str "?#/:")) (l ++ [0]))) in E.
    rewrite <- !app_assoc, Er, until_app in E by (done || apply (ok_host u Hu)). cbn in E. by injection E as -> -> _. }
  destruct (up_port u) as [p|] eqn:Ep; cbn [part app] in Hh.
  - destruct (Hh _ _ eq_refl eq_refl) as [Hl _]. by rewrite (ok_local u Hu Hl) in Ep.
  - unfold url_tail in Hh. destruct (Hh _ _ Ht) as [_ ->]; [|done]. unfold stops, in_set in *. cbn in *. lia.
Qed.

Lemma parse_port_ok v p : up_port u = Some p ->
  parse_port v ((up_host u ++ chr ":" :: p ++ url_tail u) ++ [0]) ((p ++ url_tail u) ++ [0]) =
  Some (opt set_fragment (opt set_query (opt set_path
    (set_port (set_destination v (up_host u ++ chr ":" :: p)) (digits_value p)) (up_path u)) (up_query u)) (up_fragment u)).
Proof using Hu.
  intros Hp. destruct (ok_port u Hu p Hp) as (Hd & Hne & Hv). unfold parse_port.
  destruct (tail_head (up_path u) (up_query u) (up_fragment u)) as (c & r & Ht & Hc & _ & Hc').
  rewrite (atoi_digits p (url_tail u)); try done; [|apply url_tail_nonzero|].
  2: { intros d Hd'. unfold url_tail in *. destruct (tail_text _ _ _); [done|]. cbn in *. by simplify_eq. }
  assert (Hpt : (p ++ url_tail u) ++ [0] = p ++ c :: r) by (rewrite <- app_assoc; unfold url_tail; by rewrite Ht).
  rewrite Hpt. unfold url_tail in *. rewrite until_app by (done || by apply digits_free). cbn [mbind option_bind fst snd].
  rewrite rd_0. cbn [tail].
  assert (Ed : take (length ((up_host u ++ chr ":" :: p ++ tail_text (up_path u) (up_query u) (up_fragment u)) ++ [0]) - length (c :: r))
    ((up_host u ++ chr ":" :: p ++ tail_text (up_path u) (up_query u) (up_fragment u)) ++ [0]) = up_host u ++ chr ":" :: p).
  { replace (_ ++ [0]) with ((up_host u ++ chr ":" :: p) ++ c :: r) by (rewrite <- Ht, <- !app_assoc; cbn; by rewrite <- app_assoc).
    apply take_app_length'. rewrite (length_app _ (c :: r)). lia. }
  rewrite Ed. destruct Hu. by apply tail_parse.
Qed.
Lemma parse_host_ok v : url_path v = [] -> url_query v = [] -> url_fragment v = [] -> url_port v = -1 -> 
  parse_host v (url_rest ++ [0]) = Some (set_scheme (url_of_parts u) (url_scheme v)).
Proof using Hu.
  intros E1 E2 E3 E4. unfold parse_host, url_rest, url_of_parts.
  pose proof (ok_host u Hu) as Hh. destruct (up_port u) as [p|] eqn:Ep; cbn [part app].
  - replace ((up_host u ++ chr ":" :: p ++ url_tail u) ++ [0]) with (up_host u ++ chr ":" :: (p ++ url_tail u) ++ [0]) at 1
      by (rewrite <- !app_assoc; cbn; by rewrite <- app_assoc).
    rewrite until_app by done. cbn [mbind option_bind fst snd]. rewrite rd_0. cbn [mbind option_bind tail].
    change (parse_port ?v ?a ?b) with (parse_port v a b).
    rewrite !(proj2 (Z.eqb_neq (chr ":") _)) by done. rewrite Z.eqb_refl.
    rewrite (parse_port_ok _ p Ep). destruct v; cbn in *; subst. by destruct (up_path u), (up_query u), (up_fragment u).
  - destruct (tail_head (up_path u) (up_query u) (up_fragment u)) as (c & r & Ht & Hc & Hc' & _).
    rewrite <- app_assoc. unfold url_tail. rewrite Ht.
    rewrite until_app by (done || (unfold stops, in_set in *; cbn in *; lia)). cbn [mbind option_bind fst snd]. rewrite rd_0.
    cbn [mbind option_bind tail]. rewrite (proj2 (Z.eqb_neq c (chr ":"))) by done.
    destruct Hu. rewrite (tail_parse (up_path u) (up_query u) (up_fragment u)) by done.
    destruct v; cbn in *; subst. rewrite app_nil_r. by destruct (up_path u), (up_query u), (up_fragment u).
Qed.
End url.

(** C17: an absolute URL is read back into its parts: for a scheme, a host, and
    possibly a port, a path, a query and a fragment, none holding a NUL or a
    delimiter that ends it (and no port after a host called "local"),
    [zurl_parse] of [scheme://host:port/path?query#fragment] stores the scheme in
    lower case, the host, [host:port] as the destination, the number of the port
    (-1 without one), and the path, the query and the fragment without their
    delimiters, empty where they are left out. *)
Theorem zurl_parse_roundtrip (u : url_parts) : parts_ok u -> zurl_parse (url_text u ++ [0]) = Some (url_of_parts u).
Proof.
  intros Hu. unfold zurl_parse, url_text. fold (url_rest u).
  assert (Hs : Forall (fun c => c <> 0 /\ c <> chr ":") (up_scheme u)).
  { eapply Forall_impl; [exact (proj2 (ok_scheme u Hu))|]. intros c Hc. split; intros ->; done. }
  rewrite <- !app_assoc, strstr_at by done. cbn [mbind option_bind].
  rewrite zstr_tolower_text by by apply text_nonzero, (ok_scheme u Hu). cbn [mbind option_bind].
  rewrite cstr_app. 2: { apply text_nonzero, ztolower_text, (ok_scheme u Hu). }
  cbn [mbind option_bind].
  change (drop 3 _) with (url_rest u ++ [0]).
  destruct (strncmp_front (str "local:") (url_rest u)) as (r & E & Hr); [by repeat constructor|].
  change (length (str "local:")) with 6%nat in E. rewrite E. cbn [mbind option_bind].
  destruct (Z.eqb_spec r 0) as [->|Hn]; [by destruct (url_not_local u Hu); apply Hr|].
  rewrite parse_host_ok by done. done.
Qed.

Definition parts_demo : url_parts :=
  mk_url_parts (str "HTTPS") (str "example.org") (Some (str "8443")) (Some (str "a/b:c")) None (Some (str "top?")).
Lemma zurl_parse_roundtrip_witness :
  zurl_parse (str "HTTPS://example.org:8443/a/b:c#top?" ++ [0]) =
  Some (mk_zurl (str "https") (str "example.org:8443") (str "example.org") (str "a/b:c") [] (str "top?") 8443).
Proof.
  apply (zurl_parse_roundtrip parts_demo). split; cbn [parts_demo up_scheme up_host up_port up_path up_query up_fragment];
    try done; try (intros ? [= <-]); repeat split; try done; by repeat constructor.
Defined.

(** ** Any text *)
(** A [zurl_t] that is well formed: C strings, the host, the path and the query
    without what ends them, the port an [int]. *)
Record url_wf (u : zurl) : Prop := {
  wf_scheme : Forall (.≠ 0) (url_scheme u);
  wf_destination : Forall (.≠ 0) (url_destination u);
  wf_host : free_of (str "?#/:") (url_host u);
  wf_path : free_of (str "?#") (url_path u);
  wf_query : free_of (str "#") (url_query u);
  wf_fragment : Forall (.≠ 0) (url_fragment u);
  wf_port : - 2 ^ 31 <= url_port u < 2 ^ 31
}.
Abbreviation nonzero := (Forall (.≠ 0)).

Lemma break_free set l : free_of set (break_at (stops set) l).1.
Proof. apply break_at_pre. Qed.
Lemma break_rest stop l : nonzero l -> nonzero (break_at stop l).2.
Proof. intros H. rewrite <- (break_at_app stop l) in H. by apply Forall_app in H as [_ ?]. Qed.
(** A scan, and the switch on the byte it stops at. *)
Lemma until_wf set l (k : list Z * list Z -> option zurl) : nonzero l ->
  (forall x c r, free_of set x -> nonzero r -> l = x ++ c :: r -> runs (k (x, c :: r ++ [0])) url_wf) ->
  (free_of set l -> runs (k (l, [0])) url_wf) -> runs (until (stops set) (l ++ [0]) ≫= k) url_wf.
Proof.
  intros Hl Hc H0. rewrite until_break by done. cbn [mbind option_bind]. pose proof (break_rest (stops set) l Hl) as Hr.
  pose proof (break_free set l) as Hx. pose proof (break_at_app (stops set) l) as E.
  destruct (break_at _ l) as [x [|c r]]; cbn [fst snd app] in *.
  - rewrite app_nil_r in E. subst x. by apply H0.
  - apply Forall_cons in Hr as [_ Hr]. by apply Hc.
Qed.
Lemma parse_fragment_wf u l : url_wf u -> nonzero l -> runs (parse_fragment u (l ++ [0])) url_wf.
Proof. intros [] Hl. unfold parse_fragment. rewrite cstr_app by done. apply runs_ret. by split. Qed.
Lemma parse_query_wf u l : url_wf u -> nonzero l -> runs (parse_query u (l ++ [0])) url_wf.
Proof.
  intros Hu Hl. unfold parse_query. apply until_wf; [done|intros x c r Hx Hr _|intros Hx]; cbn [fst snd tail]; rewrite rd_0; cbn [mbind option_bind].
  - destruct (c =? _); [apply parse_fragment_wf; [|done]|apply runs_ret]; destruct Hu; by split.
  - apply runs_ret. destruct Hu; by split.
Qed.
Lemma parse_path_wf u l : url_wf u -> nonzero l -> runs (parse_path u (l ++ [0])) url_wf.
Proof.
  intros Hu Hl. unfold parse_path. apply until_wf; [done|intros x c r Hx Hr _|intros Hx]; cbn [fst snd tail]; rewrite rd_0; cbn [mbind option_bind].
  - assert (url_wf (set_path u x)) by (destruct Hu; by split).
    destruct (c =? chr "?"); [by apply parse_query_wf|]. destruct (c =? chr "#"); [by apply parse_fragment_wf|by apply runs_ret].
  - apply runs_ret. destruct Hu; by split.
Qed.
Lemma parse_rest_wf u c r : url_wf u -> nonzero r ->
  runs (if c =? chr "?" then parse_query u (r ++ [0])
   else if c =? chr "#" then parse_fragment u (r ++ [0])
   else if c =? chr "/" then parse_path u (r ++ [0]) else Some u) url_wf.
Proof.
  intros Hu Hr. destruct (c =? chr "?"); [by apply parse_query_wf|]. destruct (c =? chr "#"); [by apply parse_fragment_wf|].
  destruct (c =? chr "/"); [by apply parse_path_wf|by apply runs_ret].
Qed.
Lemma s32_range z : - 2 ^ 31 <= s32 z < 2 ^ 31.
Proof. unfold swrap. change (32 - 1) with 31. pose proof (Z.mod_pos_bound (z + 2 ^ 31) (2 ^ 32)). lia. Qed.
Lemma atoi_range l : nonzero l -> exists n, atoi (l ++ [0]) = Some n /\ - 2 ^ 31 <= n < 2 ^ 31.
Proof.
  intros Hl. unfold atoi, atol. rewrite cstr_app by done. eexists. split; [done|]. apply s32_range.
Qed.
Lemma parse_port_wf u h l : url_wf u -> nonzero h -> nonzero l -> runs (parse_port u (h ++ chr ":" :: l ++ [0]) (l ++ [0])) url_wf.
Proof.
  intros Hu Hh Hl. unfold parse_port. destruct (atoi_range l Hl) as (n & En & Hn).
  assert (Hd : forall x r, l ++ [0] = x ++ r -> nonzero x ->
    url_wf (set_port (set_destination u (take (length (h ++ chr ":" :: l ++ [0]) - length r) (h ++ chr ":" :: l ++ [0]))) n)).
  { intros x r E Hx. rewrite E, app_comm_cons, app_assoc, take_app_length' by (rewrite (length_app _ r); lia).
    destruct Hu. split; try done. apply Forall_app. split; [done|]. by constructor. }
  apply until_wf; [done|intros x c r Hx Hr ->|intros Hx]; cbn [fst snd tail]; rewrite En; cbn [mbind option_bind]; rewrite rd_0;
    cbn [mbind option_bind].
  - apply parse_rest_wf; [|done]. apply (Hd x). { by rewrite <- app_assoc. } by eapply free_of_nonzero.
  - apply runs_ret. by apply (Hd l).
Qed.

Lemma parse_local_wf u l : url_wf u -> nonzero l -> str "local:" `prefix_of` l -> runs (parse_local u (l ++ [0])) url_wf.
Proof.
  intros Hu Hl [t ->]. unfold parse_local. change (drop 6 _) with (t ++ [0]).
  apply Forall_app in Hl as [Hl Ht].
  assert (Hd : forall x r, t ++ [0] = x ++ r -> free_of (str "?#") x ->
    url_wf (set_destination (set_path (set_host u (str "local")) x)
      (take (length ((str "local:" ++ t) ++ [0]) - length r) ((str "local:" ++ t) ++ [0])))).
  { intros x r E Hx. rewrite <- app_assoc, E, app_assoc, take_app_length' by (rewrite (length_app _ r); lia).
    destruct Hu. split; try done; [|by repeat constructor]. apply Forall_app. split; [done|]. by eapply free_of_nonzero. }
  apply until_wf; [done|intros x c r Hx Hr ->|intros Hx]; cbn [fst snd tail]; rewrite rd_0; cbn [mbind option_bind].
  - assert (Hw := Hd x (c :: r ++ [0]) ltac:(by rewrite <- app_assoc) Hx).
    destruct (c =? chr "?"); [by apply parse_query_wf|]. destruct (c =? chr "#"); [by apply parse_fragment_wf|by apply runs_ret].
  - apply runs_ret. by apply (Hd t).
Qed.
Lemma parse_host_wf u l : url_wf u -> nonzero l -> runs (parse_host u (l ++ [0])) url_wf.
Proof.
  intros Hu Hl. unfold parse_host.
  apply until_wf; [done|intros x c r Hx Hr ->|intros Hx]; cbn [fst snd tail]; rewrite rd_0; cbn [mbind option_bind].
  - destruct (Z.eqb_spec c (chr ":")) as [->|Hc].
    + change (runs (parse_port (set_host u x) ((x ++ chr ":" :: r) ++ [0]) (r ++ [0])) url_wf). rewrite <- app_assoc.
      apply parse_port_wf; [destruct Hu; by split|by eapply free_of_nonzero|done].
    + apply parse_rest_wf; [|done]. destruct Hu; split; try done. by eapply free_of_nonzero.
  - apply runs_ret. destruct Hu; split; try done; by eapply free_of_nonzero.
Qed.
Lemma strstr_front l : nonzero l -> strstr (str "://") (l ++ [0]) = Some None \/
  exists x r, strstr (str "://") (l ++ [0]) = Some (Some (x, str "://" ++ r ++ [0])) /\ l = x ++ str "://" ++ r.
Proof.
  induction 1 as [|c l Hc _ IH]; [by left|]. cbn [app strstr]. destruct (bool_decide_reflect (take (length (str "://")) (c :: l ++ [0]) = str "://")) as [E|_].
  - right. destruct l as [|c1 [|c2 l]]; try done. injection E as -> -> ->. by exists [], l.
  - rewrite (proj2 (Z.eqb_neq c 0)) by done. destruct IH as [->|(x & r & -> & ->)]; [by left|]. right. by exists (c :: x), r.
Qed.

(** C20: [zurl_parse] takes any C string and answers a well-formed [zurl_t]: it
    reads no byte past the NUL, its strings hold no NUL, the host, the path and the
    query none of the delimiters that end them, and the port is an [int]. *)
Theorem zurl_parse_wf (url_string : list Z) : text_ok url_string -> runs (zurl_parse (url_string ++ [0])) url_wf.
Proof.
  intros Ht. pose proof (text_nonzero _ Ht) as Hz. unfold zurl_parse.
  assert (Hk : forall u l, url_wf u -> nonzero l -> runs (r ← strncmp (l ++ [0]) (str "local:" ++ [0]) 6;
    if r =? 0 then parse_local u (l ++ [0]) else parse_host u (l ++ [0])) url_wf).
  { intros u l Hu Hl. destruct (strncmp_front (str "local:") l) as (r & E & Hr); [by repeat constructor|].
    change (length (str "local:")) with 6%nat in E. rewrite E. cbn [mbind option_bind].
    destruct (Z.eqb_spec r 0) as [->|]; [|by apply parse_host_wf]. apply parse_local_wf; auto. }
  assert (Hb : forall x, nonzero x -> url_wf (set_scheme url_blank x)) by (intros x Hx; split; cbn; try constructor; done || lia).
  destruct (strstr_front url_string Hz) as [->|(x & r & -> & ->)]; cbn [mbind option_bind].
  - assert (Hblank : url_wf url_blank) by by apply (Hb []).
    destruct url_string as [|c [|c1 l]]; cbn [app]; rewrite rd_0; cbn [mbind option_bind].
    + apply (Hk url_blank []); done.
    + destruct (c =? chr "/"); cbn; by apply (Hk url_blank [c]).
    + change (rd (c :: c1 :: l ++ [0]) 1) with (Some c1). cbn [mbind option_bind].
      apply Forall_cons in Hz as [? Hz]. pose proof Hz as [? Hl]%Forall_cons.
      destruct (c =? chr "/"); [destruct (c1 =? chr "/")|]; cbn [mbind option_bind].
      * apply Hk; [by apply Hb; repeat constructor|done].
      * apply (Hk url_blank (c :: c1 :: l)); [done|by constructor].
      * apply (Hk url_blank (c :: c1 :: l)); [done|by constructor].
  - apply Forall_app in Ht as [Ht _]. rewrite zstr_tolower_text by by apply text_nonzero. cbn [mbind option_bind].
    rewrite cstr_app by by apply text_nonzero, ztolower_text. cbn [mbind option_bind].
    change (drop 3 _) with (r ++ [0]). apply Hk; [apply Hb; by apply text_nonzero, ztolower_text|].
    apply Forall_app in Hz as [_ Hz]. by apply Forall_app in Hz as [_ ?].
Qed.
Lemma zurl_parse_wf_witness : runs (zurl_parse (str "//a:b:99/?%" ++ [0])) url_wf.
Proof. apply zurl_parse_wf. by repeat constructor. Defined.
