(* ===== verification/Uu.v ===== *)
(** * uuencoded bodies: src/encode/uu.c *)
From S2P Require Import Prelude Buf.

(** One group: four characters, three bytes. *)
Definition uu_value (c0 c1 c2 c3 : Z) : Z :=
  let v := Z.lor (Z.shiftl 0 6) (Z.land (c0 - 32) 63) in
  let v := Z.lor (Z.shiftl v 6) (Z.land (c1 - 32) 63) in
  let v := Z.lor (Z.shiftl v 6) (Z.land (c2 - 32) 63) in
  Z.lor (Z.shiftl v 6) (Z.land (c3 - 32) 63).
Fixpoint uu_copy (s : list Z) (b : zbuf) : option zbuf :=
  match s with [] => Some b | c :: s' => b ← zbuf_put b c; uu_copy s' b end.
(** [while (s < e - 4)], and the copy of what is left. *)
Fixpoint uu_loop (s : list Z) (b : zbuf) : option zbuf :=
  match s with
  | c0 :: c1 :: c2 :: c3 :: ((_ :: _) as s') =>
      let v := uu_value c0 c1 c2 c3 in
      b ← zbuf_put b (Z.land v 255);
      b ← zbuf_put b (Z.land (Z.shiftr v 8) 255);
      b ← zbuf_put b (Z.land (Z.shiftr (Z.shiftr v 8) 8) 255);
      uu_loop s' b
  | _ => uu_copy s b
  end.
Definition zuudecode (src : list Z) (src_size : Z) (b : zbuf) : option zbuf :=
  s ← in_bytes src src_size; b ← uu_loop s b; zbuf_terminate b.

(** ** What it writes *)
(** The text uuencode writes for three bytes. *)
Definition uu_char (v : Z) : Z := v + 32.
Definition uu_group (a b c : Z) : list Z :=
  [uu_char (a / 4); uu_char (a mod 4 * 16 + b / 16); uu_char (b mod 16 * 4 + c / 64); uu_char (c mod 64)].
Definition uu_text (gs : list (Z * Z * Z)) : list Z := gs ≫= (fun g => uu_group g.1.1 g.1.2 g.2).
Definition group_ok (g : Z * Z * Z) : Prop := byte_ok g.1.1 /\ byte_ok g.1.2 /\ byte_ok g.2.

Lemma uu_step v c : 0 <= v -> Z.lor (Z.shiftl v 6) (Z.land (uu_char c - 32) 63) = v * 64 + c mod 64.
Proof.
  intros Hv. unfold uu_char. replace (c + 32 - 32) with c by lia. rewrite land_63. rewrite lor_shiftl_add; [lia|lia|]. 
  change (2 ^ 6) with 64. apply Z.mod_pos_bound. lia.
Qed.
Lemma uu_value_group a b c : byte_ok a -> byte_ok b -> byte_ok c ->
  uu_value (uu_char (a / 4)) (uu_char (a mod 4 * 16 + b / 16)) (uu_char (b mod 16 * 4 + c / 64)) (uu_char (c mod 64)) = a * 65536 + b * 256 + c.
Proof.
  unfold byte_ok, uu_value. intros Ha Hb Hc.
  rewrite (uu_step 0) by lia. replace (0 * 64 + (a / 4) mod 64) with (a / 4) by zdiv.
  rewrite (uu_step (a / 4)) by zdiv. replace (a / 4 * 64 + _) with (a * 16 + b / 16) by zdiv.
  rewrite (uu_step (a * 16 + b / 16)) by zdiv. replace ((a * 16 + b / 16) * 64 + _) with (a * 1024 + b * 4 + c / 64) by zdiv.
  rewrite (uu_step (a * 1024 + b * 4 + c / 64)) by zdiv. zdiv.
Qed.
Lemma uu_copy_appends s : bytes_ok s -> appends (uu_copy s) s.
Proof. induction 1 as [|c s Hc _ IH]; [apply appends_ret|]. by apply appends_put_then. Qed.
Lemma uu_loop_text g gs : Forall group_ok (gs ++ [g]) ->
  appends (uu_loop (uu_text (gs ++ [g]))) ((gs ≫= (fun g => [g.2; g.1.2; g.1.1])) ++ uu_group g.1.1 g.1.2 g.2).
Proof.
  induction gs as [|h gs IH]; intros Hg.
  - apply Forall_cons in Hg as [(Ha & Hb & Hc) _]. cbn [app]. unfold uu_text. cbn [mbind list_bind]. rewrite app_nil_r. cbn [uu_group uu_loop].
    apply uu_copy_appends. unfold byte_ok in *. unfold uu_group, uu_char. repeat constructor; unfold byte_ok; zdiv.
  - cbn [app] in Hg |- *. apply Forall_cons in Hg as [(Ha & Hb & Hc) Hg].
    change (uu_text (h :: gs ++ [g])) with (uu_group h.1.1 h.1.2 h.2 ++ uu_text (gs ++ [g])).
    change ((h :: gs) ≫= (fun g => [g.2; g.1.2; g.1.1])) with ([h.2; h.1.2; h.1.1] ++ (gs ≫= (fun g => [g.2; g.1.2; g.1.1]))).
    destruct (uu_text (gs ++ [g])) as [|t ts] eqn:Et; [by destruct gs|].
    unfold uu_group at 1. cbn [app uu_loop]. rewrite uu_value_group by done. specialize (IH Hg).
    unfold byte_ok in *.
    rewrite !land_255, !shiftr_div by lia. change (2 ^ 8) with 256.
    replace ((h.1.1 * 65536 + h.1.2 * 256 + h.2) mod 256) with h.2 by zdiv.
    replace ((h.1.1 * 65536 + h.1.2 * 256 + h.2) / 256 mod 256) with h.1.2 by zdiv.
    replace ((h.1.1 * 65536 + h.1.2 * 256 + h.2) / 256 / 256 mod 256) with h.1.1 by zdiv.
    by do 3 (apply appends_put_then; [done|]).
Qed.

(** [zuudecode] does not undo uuencode: the three bytes of a group come out in
    reverse, and the last group is copied as it stands. *)
Theorem zuudecode_reverses (gs : list (Z * Z * Z)) (g : Z * Z * Z) :
  Forall group_ok (gs ++ [g]) ->
  appends (zuudecode (uu_text (gs ++ [g])) (zlen (uu_text (gs ++ [g]))))
    ((gs ≫= (fun g => [g.2; g.1.2; g.1.1])) ++ uu_group g.1.1 g.1.2 g.2).
Proof.
  intros Hg. unfold zuudecode. rewrite in_bytes_full. cbn [mbind option_bind].
  by apply appends_terminate_end, uu_loop_text.
Qed.
Lemma zuudecode_reverses_witness :
  appends (zuudecode (str "0V%T0V%T") 8) (str "taC" ++ str "0V%T").
Proof. apply (zuudecode_reverses [(67, 97, 116)] (67, 97, 116)). repeat constructor; unfold byte_ok; cbn; lia. Defined.
