(* ===== verification/Mime.v ===== *)
(** * Header lines of mail: src/mime/header_line.c, 2231.c, util.c and iconv.c

    A pointer into a line is what is left of the line, a length the number of its
    bytes. Texts are decoded through the buffers of Buf.v, Base64.v and
    QuotedPrintable.v; the conversion to UTF-8 behind [zmime_iconv] (iconv and its
    tables) is a parameter. *)
From S2P Require Import Prelude Chars Buf Hex Base64 QuotedPrintable Text Scan.

(** [memmem]: what stands before the first [pat], and the pointer to it. *)
Fixpoint memmem (pat l : list Z) : option (list Z * list Z) :=
  match l with
  | [] => None
  | c :: l' =>
      if bool_decide (take (length pat) l = pat) then Some ([], l)
      else r ← memmem pat l'; Some (c :: r.1, r.2)
  end.
Definition memchr (c : Z) (l : list Z) : option (list Z * list Z) := until (Z.eqb c) l.
(** [strncasecmp(a, b, n) == 0] *)
Fixpoint strncaseeq (a b : list Z) (n : nat) : option bool :=
  match n, a, b with
  | O, _, _ => Some true
  | S n', x :: a', y :: b' =>
      if ztolower x =? ztolower y then if x =? 0 then Some true else strncaseeq a' b' n' else Some false
  | _, _, _ => None
  end.

(** ** Unfolding *)
Fixpoint unescape_loop (src : list Z) (result : zbuf) : option zbuf :=
  match src with
  | [] => Some result
  | ch :: src' =>
      if (ch =? 0) || (ch =? 13) then unescape_loop src' result
      else if ch =? 10 then
        match src' with
        | [] => Some result
        | ch :: src' =>
            if (ch =? 9) || (ch =? 32) then unescape_loop src' result
            else
              result ← ZBUF_PUT result 10;
              result ← ZBUF_PUT result (s8 ch);
              unescape_loop src' result
        end
      else result ← ZBUF_PUT result (s8 ch); unescape_loop src' result
  end.
Definition zmime_raw_header_line_unescape (in_line : list Z) (in_len : Z) (result : zbuf) : option zbuf :=
  result ← zbuf_reset result;
  src ← read_bytes in_line in_len;
  result ← unescape_loop src result;
  zbuf_terminate result.

Fixpoint unescape_inner_loop (src : list Z) (dest : list cell) (rlen : Z) : option (list cell * Z) :=
  match src with
  | [] => Some (dest, rlen)
  | ch :: src' =>
      if (ch =? 0) || (ch =? 13) then unescape_inner_loop src' dest rlen
      else if ch =? 10 then
        match src' with
        | [] => Some (dest, rlen)
        | ch :: src' =>
            if (ch =? 9) || (ch =? 32) then unescape_inner_loop src' dest rlen
            else
              dest ← wr dest rlen (Some 10);
              dest ← wr dest (rlen + 1) (Some ch);
              unescape_inner_loop src' dest (rlen + 2)
        end
      else dest ← wr dest rlen (Some ch); unescape_inner_loop src' dest (rlen + 1)
  end.
Definition zmime_raw_header_line_unescape_inner (data : list Z) (size : Z) (dest : list cell) (dest_size : Z) :
    option (list cell * Z) :=
  let size := if dest_size <? size then dest_size else size in
  src ← read_bytes data size;
  unescape_inner_loop src dest 0.

(** ** The first token *)
Definition token_left (ch : Z) : bool := in_set [32; 9; 13; 10; chr "<"] ch.
Definition token_right (ch : Z) : bool := in_set [32; 9; 13; 10; chr ">"] ch.
(** The pointer [*val] and the length. *)
Definition zmime_header_line_get_first_token_inner (line : list Z) (in_len : Z) : option (list Z * Z) :=
  l ← read_bytes line in_len;
  let ps := drop_while token_left l in
  if bool_decide (ps = []) then Some (line, 0)
  else
    let v := rev (drop_while token_right (rev ps)) in
    if bool_decide (v = []) then Some (line, 0)
    else Some (drop (length l - length ps) line, zlen v).
Definition zmime_header_line_get_first_token (in_line : list Z) (in_len : Z) (result : zbuf) : option zbuf :=
  v ← zmime_header_line_get_first_token_inner in_line in_len;
  result ← zbuf_reset result;
  if 0 <? v.2 then zbuf_memcat result v.1 v.2 else Some result.

(** ** Encoded words *)
(** [zmime_header_line_element2_t]: the bytes the pointers and lengths delimit;
    a plain piece has no charset and the encoding 0. *)
Record element2 := mk_element2 { e2_charset : list Z; e2_data : list Z; e2_encode : Z }.
Definition plain_piece (data : list Z) : element2 := mk_element2 [] data 0.

(** The inner loop, from [p_s]: the encoded word, its start and [ps_next]. *)
Fixpoint find_word (fuel : nat) (p_s : list Z) : option (option (list Z * element2 * list Z)) :=
  match fuel with
  | O => None
  | S fuel' =>
      if negb (6 <? zlen p_s) then Some None else
      match memmem (str "=?") p_s with
      | None => Some None
      | Some (_, p_s) =>
          if zlen p_s <? 6 then Some None else
          match memchr (chr "?") (drop 2 p_s) with
          | None => Some None
          | Some (charset, p_encode) =>
              if zlen p_encode <? 3 then Some None else
              e0 ← rd p_encode 1;
              e1 ← rd p_encode 2;
              let encode := ztoupper e0 in
              if (negb (encode =? chr "B") && negb (encode =? chr "Q")) || negb (e1 =? chr "?")
              then find_word fuel' p_encode
              else
                let p_data := drop 3 p_encode in
                if bool_decide (p_data = []) then Some None else
                match memmem (str "?=") p_data with
                | Some (data, p) => Some (Some (p_s, mk_element2 charset data encode, drop 2 p))
                | None => Some (Some (p_s, mk_element2 charset p_data encode, []))
                end
          end
      end
  end.
(** [mt_vec + count++], in an array of [max_count]. *)
Definition put_element (max_count : Z) (mt_vec : list element2) (e : element2) : option (list element2) :=
  if zlen mt_vec <? max_count then Some (mt_vec ++ [e]) else None.
Fixpoint words_loop (fuel : nat) (max_count : Z) (ps : list Z) (mt_vec : list element2) : option (list element2) :=
  match fuel with
  | O => None
  | S fuel' =>
      let last := if bool_decide (ps = []) then Some mt_vec else put_element max_count mt_vec (plain_piece ps) in
      if negb (6 <? zlen ps) then last else
      w ← find_word (S (length ps)) ps;
      match w with
      | None => last
      | Some (p_s, mt, ps_next) =>
          let front := take (length ps - length p_s) ps in
          mt_vec ← (if bool_decide (front = []) then Some mt_vec else put_element max_count mt_vec (plain_piece front));
          mt_vec ← put_element max_count mt_vec mt;
          words_loop fuel' max_count ps_next mt_vec
      end
  end.
Definition zmime_header_line_get_element_vector_inner (in_line : list Z) (in_len max_count : Z) : option (list element2) :=
  l ← in_bytes in_line in_len;
  if zlen l <? 1 then Some [] else words_loop (S (length l)) max_count l [].

(** The loop that counts "=?": [n] rounds are left; it reads [p[1]]. *)
Fixpoint count_words (n : nat) (p : list Z) : option Z :=
  match n with
  | O => Some 0
  | S n' =>
      match p with
      | [] => None
      | c :: p' =>
          if negb (c =? chr "=") then count_words n' p' else
          c1 ← rd p' 0;
          if negb (c1 =? chr "?") then count_words n' p' else
          match n', p' with
          | S n'', _ :: p'' => c ← count_words n'' p''; Some (1 + c)
          | _, _ => Some 1
          end
      end
  end.
(** [zmime_header_line_element_t] *)
Record header_element := mk_header_element { he_charset : option (list Z); he_data : list Z; he_encode : Z }.
Definition header_element_of (mt : element2) : option header_element :=
  charset ← (if zlen (e2_charset mt) =? 0 then Some None
             else c ← zstr_tolower (e2_charset mt ++ [0]); c ← cstr c; Some (Some c));
  Some (mk_header_element charset (e2_data mt) (e2_encode mt)).
Definition zmime_header_line_get_element_vector (in_line : list Z) (in_len : Z) : option (list header_element) :=
  l ← in_bytes in_line in_len;
  let in_len := if in_len <? 0 then zlen l else in_len in
  mt_count ← count_words (Z.to_nat in_len) in_line;
  mt_vec ← zmime_header_line_get_element_vector_inner in_line in_len (mt_count * 2 + 10);
  mapM header_element_of mt_vec.

(** ** Decoding *)
(** [zmime_iconv(from_charset, data, size, result)]; the charset is a C string,
    NULL allowed. *)
Class Charsets := zmime_iconv : option (list Z) -> list Z -> Z -> zbuf -> option zbuf.

Section decode.
Context `{!Charsets}.

(** [j == mtn->dlen]: nothing but blanks. *)
Definition blank_piece (mtn : element2) : bool := forallb (Z.eqb 32) (e2_data mtn).
Definition same_charset (mt mtn : element2) : option bool :=
  if negb ((0 <? zlen (e2_charset mt)) && (e2_encode mt =? e2_encode mtn)) then Some false else
  c ← rd (e2_charset mt) 0;
  if c =? 0 then Some false else
  if negb (zlen (e2_charset mt) =? zlen (e2_charset mtn)) then Some false else
  c ← rd (e2_charset mtn) 0;
  if c =? 0 then Some false else
  strncaseeq (e2_charset mt) (e2_charset mtn) (length (e2_charset mt)).
(** The words that go on with the one before, and what follows them. *)
Fixpoint join_words (mt : element2) (mtns : list element2) (bq_join : zbuf) : option (zbuf * list element2) :=
  match mtns with
  | [] => Some (bq_join, [])
  | mtn :: mtns' =>
      if e2_encode mtn =? 0 then
        if blank_piece mtn then join_words mt mtns' bq_join else Some (bq_join, mtns)
      else
        same ← same_charset mt mtn;
        if same : bool then
          bq_join ← zbuf_memcat bq_join (e2_data mtn) (zlen (e2_data mtn));
          join_words mt mtns' bq_join
        else Some (bq_join, mtns)
  end.
Definition zvar_charset_name_max_size : Z := 32.
Fixpoint utf8_loop (fuel : nat) (src_charset_def : option (list Z)) (mts : list element2) (result bq_join out_string : zbuf) :
    option (zbuf * zbuf * zbuf) :=
  match fuel, mts with
  | O, _ => None
  | _, [] => Some (result, bq_join, out_string)
  | S fuel', mt :: mtns =>
      if zlen (e2_data mt) =? 0 then utf8_loop fuel' src_charset_def mtns result bq_join out_string
      else if negb (e2_encode mt =? chr "B") && negb (e2_encode mt =? chr "Q") then
        out_string ← zbuf_reset out_string;
        out_string ← zmime_iconv src_charset_def (e2_data mt) (zlen (e2_data mt)) out_string;
        result ← zbuf_append result out_string;
        utf8_loop fuel' src_charset_def mtns result bq_join out_string
      else
        bq_join ← zbuf_memcpy bq_join (e2_data mt) (zlen (e2_data mt));
        r ← join_words mt mtns bq_join;
        let '(bq_join, mtns) := r in
        bq_join ← zbuf_terminate bq_join;
        p ← zbuf_bytes bq_join;
        out_string ← zbuf_reset out_string;
        out_string ← (if e2_encode mt =? chr "B" then zbase64_decode p (bf_len bq_join) out_string
                      else zqp_decode_2047 p (bf_len bq_join) out_string);
        if bf_len out_string <? 1 then utf8_loop fuel' src_charset_def mtns result bq_join out_string else
        o ← zbuf_bytes out_string;
        bq_join ← zbuf_memcpy bq_join o (bf_len out_string);
        out_string ← zbuf_reset out_string;
        let charset := take (Z.to_nat zvar_charset_name_max_size) (e2_charset mt) ++ [0] in
        p ← zbuf_bytes bq_join;
        out_string ← zmime_iconv (Some charset) p (bf_len bq_join) out_string;
        result ← zbuf_append result out_string;
        utf8_loop fuel' src_charset_def mtns result bq_join out_string
  end.
(** The three buffers are handed back. *)
Definition zmime_header_line_get_utf8_engine (src_charset_def : option (list Z)) (in_line : list Z) (in_len : Z)
    (result bq_join out_string : zbuf) : option (zbuf * zbuf * zbuf) :=
  result ← zbuf_reset result;
  in_len ← (if in_len =? -1 then zlen <$> cstr in_line else Some in_len);
  if in_len <? 1 then Some (result, bq_join, out_string) else
  mt_count ← count_words (Z.to_nat (in_len - 1)) in_line;
  mt_vec ← zmime_header_line_get_element_vector_inner in_line in_len (mt_count * 2 + 10);
  utf8_loop (S (length mt_vec)) src_charset_def mt_vec result bq_join out_string.
Definition zmime_header_line_get_utf8 (src_charset_def : option (list Z)) (in_line : list Z) (in_len : Z) (result : zbuf) :
    option zbuf :=
  in_len ← (if in_len <? 0 then zlen <$> cstr in_line else Some in_len);
  bq_join ← zbuf_create (in_len + 16);
  out_string ← zbuf_create (in_len + 16);
  r ← zmime_header_line_get_utf8_engine src_charset_def in_line in_len result bq_join out_string;
  Some (r.1.1).

(** ** RFC 2231 *)
(** [start_len - i] bytes are left; the digits of an escape are read wherever
    they stand. *)
Fixpoint decode_2231 (n : nat) (start : list Z) (tmps : zbuf) : option zbuf :=
  match n, start with
  | O, _ => Some tmps
  | S n', ch :: start' =>
      if negb (ch =? chr "%") then tmps ← ZBUF_PUT tmps (s8 ch); decode_2231 n' start' tmps
      else
        c1 ← rd start' 0;
        c2 ← rd start' 1;
        h ← rd zchar_xdigitval_vector (s8 c1);
        l ← rd zchar_xdigitval_vector (s8 c2);
        tmps ← ZBUF_PUT tmps (Z.lor (Z.shiftl h 4) l);
        match n', start' with
        | S (S n'), _ :: _ :: start' => decode_2231 n' start' tmps
        | _, _ => Some tmps
        end
  | S _, [] => None
  end.
Definition zmime_header_line_get_utf8_2231 (src_charset_def : option (list Z)) (in_line : list Z) (in_len : Z) (result : zbuf)
    (with_charset_flag : bool) : option zbuf :=
  in_len ← (if in_len =? -1 then zlen <$> cstr in_line else Some in_len);
  if in_len <? 1 then Some result else
  charset_buf ← ZSTACK_BUF (zvar_charset_name_max_size + 1);
  result ← zbuf_reset result;
  l ← read_bytes in_line in_len;
  let err := zbuf_memcpy result l in_len in
  if with_charset_flag then
    match memchr (chr "'") l with
    | None => err
    | Some (charset, p) =>
        charset_buf ← zbuf_memcpy charset_buf l (zlen charset + 1);
        match memchr (chr "'") (tail p) with
        | None => err
        | Some (_, p) =>
            charset ← zbuf_bytes charset_buf;
            charset ← cstr (charset ++ [0]);
            let charset := match memchr (chr "*") charset with Some (c, _) => c | None => charset end in
            let start_len := zlen p - 1 in
            tmps ← zbuf_create in_len;
            tmps ← zbuf_reset tmps;
            tmps ← decode_2231 (Z.to_nat start_len) (drop (Z.to_nat (in_len - start_len)) in_line) tmps;
            d ← zbuf_bytes tmps;
            zmime_iconv (Some (charset ++ [0])) d (bf_len tmps) result
        end
    end
  else zmime_header_line_get_utf8 src_charset_def in_line in_len result.
End decode.

(** ** The cache of buffers of a parser *)
Definition zmail_zbuf_cache_require (cache : list zbuf) (len : Z) : option (zbuf * list zbuf) :=
  match last cache with
  | Some b => b ← zbuf_reset b; Some (b, removelast cache)
  | None => b ← zbuf_init len; b ← zbuf_reset b; Some (b, cache)
  end.
Definition zmail_zbuf_cache_release (cache : list zbuf) (bf : zbuf) : option (list zbuf) :=
  bf ← zbuf_reset bf; Some (cache ++ [bf]).
