(* ===== verification/MimeParam.v ===== *)
(** * The parameters of header lines: src/mime/param.c

    A value and its parameters, [text/plain; charset=utf-8; name="a b"]. The line
    is the bytes from [ps] to [pend]. *)
From S2P Require Import Prelude Chars Buf Text Scan StateMonad Keyed Maps Dict Url Mime.

(** [ignore_chs] and [find_delim], NULL being [None]. *)
Fixpoint ignore_chs (ignore p : list Z) : list Z :=
  match p with
  | [] => []
  | c :: p' => if in_set ignore c then ignore_chs ignore p' else p
  end.
Definition find_delim (delim p : list Z) : option (list Z * list Z) := until (in_set delim) p.

(** After the opening quotation mark: what is left of the line, and the value. *)
Fixpoint quoted_value (ps : list Z) (value : zbuf) : option (list Z * zbuf) :=
  match ps with
  | [] => Some ([], value)
  | ch :: ps' =>
      if ch =? 34 then Some (ps', value)
      else if ch =? 92 then
        match ps' with
        | [] => Some ([], value)
        | ch2 :: ps' =>
            value ← (if negb (ch2 =? chr "*") && negb (ch2 =? 92) then zbuf_put value ch else Some value);
            value ← zbuf_put value (s8 ch2);
            quoted_value ps' value
        end
      else value ← zbuf_put value (s8 ch); quoted_value ps' value
  end.
(** [None] for [*nbuf] is the result -1. *)
Definition find_value (buf : list Z) (value : zbuf) : option (option (list Z) * zbuf) :=
  value ← zbuf_reset value;
  match ignore_chs [32; 9] buf with
  | [] => Some (None, value)
  | (c :: ps') as ps =>
      if c =? 34 then r ← quoted_value ps' value; Some (Some r.1, r.2)
      else
        match find_delim [32; 9; chr ";"] ps with
        | None => value ← zbuf_memcat value ps (zlen ps); Some (Some [], value)
        | Some (v, p) => value ← zbuf_memcat value v (zlen v); Some (Some (tail p), value)
        end
  end.
(** The end of [find_next_kv]; [is_filename] is passed on and not used. *)
Definition value_after (ps : list Z) (key value : zbuf) : option (option (list Z) * (zbuf * zbuf)) :=
  r ← find_value ps value; Some (Some (default [] r.1), (key, r.2)).
Definition find_next_kv (buf : list Z) (key value : zbuf) : option (option (list Z) * (zbuf * zbuf)) :=
  key ← zbuf_reset key;
  value ← zbuf_reset value;
  match ignore_chs [32; 9; chr ";"] buf with
  | [] => Some (None, (key, value))
  | (_ :: _) as ps =>
      match find_delim [chr "="; 32; 9] ps with
      | None => key ← zbuf_memcat key ps (zlen ps); Some (Some [], (key, value))
      | Some (k, p) =>
          key ← zbuf_memcat key k (zlen k);
          c ← rd p 0;
          if c =? chr "=" then value_after (tail p) key value
          else
            match ignore_chs [32; 9] p with
            | [] => Some (Some [], (key, value))
            | c :: ps => if negb (c =? chr "=") then Some (Some (c :: ps), (key, value)) else value_after ps key value
            end
      end
  end.

(** The [while (ps < pend)] loops: every parameter in turn goes to the body. *)
Fixpoint params_loop {A} (fuel : nat) (body : A -> zbuf -> zbuf -> option A) (ps : list Z) (param_key param_value : zbuf) (a : A) :
    option A :=
  match fuel with
  | O => None
  | S fuel' =>
      if bool_decide (ps = []) then Some a else
      r ← find_next_kv ps param_key param_value;
      let '(nbuf, (param_key, param_value)) := r in
      match nbuf with
      | None => Some a
      | Some ps => a ← body a param_key param_value; params_loop fuel' body ps param_key param_value a
      end
  end.

Definition zmime_header_line_get_params `{!Allocator} (in_line : list Z) (in_len : Z) (val : zbuf)
    (params : kvstate (list Z) zbuf) : option (zbuf * kvstate (list Z) zbuf) :=
  l ← read_bytes in_line in_len;
  r ← find_value l val;
  match r with
  | (None, val) => Some (val, params)
  | (Some ps, val) =>
      param_key ← zbuf_create 64;
      param_value ← zbuf_create 128;
      params ← params_loop (S (length ps)) (fun params k v => key ← key_data k; r ← zdict_update key v params; Some r.2)
        ps param_key param_value params;
      Some (val, params)
  end.

(** [zmemdupnull(zbuf_data(b), zbuf_len(b))] *)
Definition dup_buf (b : zbuf) : option (list Z) := d ← zbuf_bytes b; Some (d ++ [0]).
(** [key_len == n && ZSTR_N_CASE_EQ(key, name, n)] *)
Definition key_is (key : zbuf) (name : list Z) : option bool :=
  if bf_len key =? zlen name then k ← zbuf_data_z key; strncaseeq k (name ++ [0]) (length name) else Some false.

(** ** Content-Type *)
(** What the caller's pointers hold. *)
Record content_type := mk_content_type {
  ct_value : list Z; ct_boundary : list Z; ct_boundary_len : Z; ct_charset : list Z; ct_name : list Z
}.
Definition content_type_param (ct : content_type) (key value : zbuf) : option content_type :=
  b ← key_is key (str "boundary");
  if b : bool then v ← dup_buf value; Some (mk_content_type (ct_value ct) v (bf_len value) (ct_charset ct) (ct_name ct)) else
  b ← key_is key (str "charset");
  if b : bool then v ← dup_buf value; Some (mk_content_type (ct_value ct) (ct_boundary ct) (ct_boundary_len ct) v (ct_name ct)) else
  b ← key_is key (str "name");
  if b : bool then v ← dup_buf value; Some (mk_content_type (ct_value ct) (ct_boundary ct) (ct_boundary_len ct) (ct_charset ct) v)
  else Some ct.
Definition zmime_header_line_decode_content_type_inner (data : list Z) (len : Z) (ct : content_type) : option content_type :=
  l ← read_bytes data len;
  param_key ← zbuf_create 64;
  param_value ← zbuf_create 128;
  r ← find_value l param_value;
  match r with
  | (None, _) => Some ct
  | (Some ps, param_value) =>
      v ← dup_buf param_value;
      params_loop (S (length ps)) content_type_param ps param_key param_value
        (mk_content_type v (ct_boundary ct) (ct_boundary_len ct) (ct_charset ct) (ct_name ct))
  end.

(** ** Content-Disposition *)
Record disposition := mk_disposition {
  cd_value : list Z; cd_filename : list Z; cd_filename_2231 : list Z; cd_with_charset_flag : Z
}.
(** The locals of the loop: [*filename], [filename2231_tmpbf], [flag_2231],
    [charset_2231], and the cache the buffer comes from. *)
Record disposition_st := mk_disposition_st {
  ds_filename : list Z; ds_tmpbf : option zbuf; ds_flag_2231 : bool; ds_charset_2231 : Z; ds_cache : list zbuf
}.
Definition charset_2231_of (key_len old : Z) (value : list Z) : Z :=
  if key_len =? 9 then if 1 <? zlen (List.filter (Z.eqb (chr "'")) value) then 1 else 0
  else if key_len =? 10 then 0 else if key_len =? 11 then 1 else old.
Definition disposition_param (st : disposition_st) (key value : zbuf) : option disposition_st :=
  b ← key_is key (str "filename");
  if b : bool then v ← dup_buf value; Some (mk_disposition_st v (ds_tmpbf st) (ds_flag_2231 st) (ds_charset_2231 st) (ds_cache st)) else
  if negb (8 <? bf_len key) then Some st else
  k ← zbuf_data_z key;
  b ← strncaseeq k (str "filename*" ++ [0]) 9;
  if negb b then Some st else
  r ← match ds_tmpbf st with
      | Some bf => Some (bf, ds_cache st)
      | None => zmail_zbuf_cache_require (ds_cache st) 1024
      end;
  v ← zbuf_bytes value;
  bf ← zbuf_memcat r.1 v (bf_len value);
  let c := if ds_flag_2231 st then ds_charset_2231 st else charset_2231_of (bf_len key) (ds_charset_2231 st) v in
  Some (mk_disposition_st (ds_filename st) (Some bf) true c r.2).
Definition zmime_header_line_decode_content_disposition_inner (cache : list zbuf) (data : list Z) (len : Z) (cd : disposition) :
    option (disposition * list zbuf) :=
  l ← read_bytes data len;
  param_key ← zbuf_create 64;
  param_value ← zbuf_create 128;
  r ← find_value l param_value;
  match r with
  | (None, _) => Some (cd, cache)
  | (Some ps, param_value) =>
      v ← dup_buf param_value;
      v ← zstr_tolower v;
      st ← params_loop (S (length ps)) disposition_param ps param_key param_value
        (mk_disposition_st (cd_filename cd) None false 0 cache);
      match ds_tmpbf st with
      | None => Some (mk_disposition v (ds_filename st) (cd_filename_2231 cd) (ds_charset_2231 st), ds_cache st)
      | Some bf =>
          f ← dup_buf bf;
          cache ← zmail_zbuf_cache_release (ds_cache st) bf;
          Some (mk_disposition v (ds_filename st) f (ds_charset_2231 st), cache)
      end
  end.

(** ** Content-Transfer-Encoding *)
Definition zmime_header_line_decode_content_transfer_encoding_inner (data : list Z) (len : Z) (value : list Z) : option (list Z) :=
  l ← read_bytes data len;
  param_value ← zbuf_create 128;
  r ← find_value l param_value;
  match r with (None, _) => Some value | (Some _, param_value) => dup_buf param_value end.
