(* ===== verification/MimeTrip.v ===== *)
(** * The parameters of header lines: what is read

    The value and the parameters of a line, read without buffers
    ([params_of]), are what the loops of param.c give their callers, for every
    line; a line that is put together from a value and parameters is read back. *)
From stdpp Require Import gmap sorting.
From S2P Require Import Prelude Chars Buf Text Scan StateMonad Keyed KeyedSpec Maps Dict Url UrlVars Mime MimeParam.

(** ** Reading without buffers *)
Fixpoint quoted (ps : list Z) : list Z * list Z :=
  match ps with
  | [] => ([], [])
  | ch :: ps' =>
      if ch =? 34 then ([], ps')
      else if ch =? 92 then
        match ps' with
        | [] => ([], [])
        | ch2 :: ps' =>
            let r := quoted ps' in
            ((if negb (ch2 =? chr "*") && negb (ch2 =? 92) then [ch] else []) ++ ch2 :: r.1, r.2)
        end
      else let r := quoted ps' in (ch :: r.1, r.2)
  end.
(** The value and what follows it. *)
Definition value_of (l : list Z) : option (list Z * list Z) :=
  match ignore_chs [32; 9] l with
  | [] => None
  | (c :: ps') as ps =>
      if c =? 34 then Some (quoted ps')
      else match find_delim [32; 9; chr ";"] ps with None => Some (ps, []) | Some (v, p) => Some (v, tail p) end
  end.
(** A name without a value gets the empty one. *)
Definition value_or_empty (l : list Z) : list Z * list Z := default ([], []) (value_of l).
Definition kv_of (l : list Z) : option (list Z * (list Z * list Z)) :=
  match ignore_chs [32; 9; chr ";"] l with
  | [] => None
  | (_ :: _) as ps =>
      match find_delim [chr "="; 32; 9] ps with
      | None => Some (ps, ([], []))
      | Some (k, p) =>
          match ignore_chs [32; 9] p with
          | [] => Some (k, ([], []))
          | c :: ps => Some (k, if c =? chr "=" then value_or_empty ps else ([], c :: ps))
          end
      end
  end.
Fixpoint params_from (fuel : nat) (l : list Z) : list (list Z * list Z) :=
  match fuel with
  | O => []
  | S fuel' => match kv_of l with None => [] | Some (k, (v, r)) => (k, v) :: params_from fuel' r end
  end.
Definition params_of (l : list Z) : list (list Z * list Z) := params_from (S (length l)) l.

(** ** The pieces of a line *)
Definition piece (x l : list Z) : Prop := (bytes_ok l -> bytes_ok x) /\ zlen x <= zlen l.
Lemma piece_refl l : piece l l.
Proof. by split. Qed.
Lemma piece_trans x y z : piece x y -> piece y z -> piece x z.
Proof. intros [A1 A2] [B1 B2]. split; [auto|lia]. Qed.
Lemma piece_nil l : piece [] l.
Proof. split; [constructor|]. rewrite zlen_nil. apply zlen_nonneg. Qed.
Lemma piece_tail c l : piece l (c :: l).
Proof. split; [by intros [_ ?]%Forall_cons|]. rewrite zlen_cons. lia. Qed.
Lemma piece_cons c x l : piece x l -> piece (c :: x) (c :: l).
Proof. intros [H1 H2]. split; [intros [? ?]%Forall_cons; constructor; auto|]. rewrite !zlen_cons. lia. Qed.
Lemma piece_skip c x l : piece x l -> piece x (c :: l).
Proof. intros H. eapply piece_trans; [exact H|apply piece_tail]. Qed.
Create HintDb pieces.
#[local] Hint Resolve piece_trans piece_tail piece_nil piece_refl : pieces.
Ltac pieces := solve [eauto 8 with pieces].
Lemma ignore_chs_piece s l : piece (ignore_chs s l) l.
Proof. induction l as [|c l IH]; cbn; [apply piece_refl|]. destruct (in_set s c); [by apply piece_skip|apply piece_refl]. Qed.
Lemma ignore_chs_head s l c r : ignore_chs s l = c :: r -> in_set s c = false.
Proof. induction l as [|d l IH]; cbn; [done|]. destruct (in_set s d) eqn:E; [done|]. by intros [= <- <-]. Qed.
Lemma find_delim_piece s l v p : find_delim s l = Some (v, p) -> piece v l /\ piece p l /\ exists c r, p = c :: r /\ in_set s c.
Proof.
  unfold find_delim. revert v p. induction l as [|c l IH]; intros v p; cbn; [done|]. destruct (in_set s c) eqn:E.
  - intros [= <- <-]. split; [apply piece_nil|]. split; [apply piece_refl|]. exists c, l. by rewrite E.
  - destruct (until _ l) as [[v' p']|]; [|done]. intros [= <- <-]. destruct (IH _ _ eq_refl) as (H1 & H2 & H3).
    split; [by apply piece_cons|]. split; [by apply piece_skip|done].
Qed.
Lemma quoted_piece l : piece (quoted l).1 l /\ piece (quoted l).2 l.
Proof.
  induction l as [l IH] using (induction_ltof1 _ (@length Z)). unfold ltof in IH.
  destruct l as [|c l]; cbn; [split; apply piece_refl|]. destruct (c =? 34); cbn; [split; [apply piece_nil|apply piece_tail]|].
  destruct (c =? 92).
  - destruct l as [|c2 l]; cbn; [split; apply piece_nil|]. destruct (IH l ltac:(cbn; lia)) as [H1 H2].
    split; [|by apply piece_skip, piece_skip]. destruct (_ && _); cbn; [by apply piece_cons, piece_cons|by apply piece_skip, piece_cons].
  - cbn. destruct (IH l ltac:(cbn; lia)) as [H1 H2]. split; [by apply piece_cons|by apply piece_skip].
Qed.
Lemma value_of_piece l v r : value_of l = Some (v, r) -> piece v l /\ piece r l.
Proof.
  unfold value_of. intros H. pose proof (ignore_chs_piece [32; 9] l) as Hp. destruct (ignore_chs _ l) as [|c ps]; [done|].
  destruct (c =? 34).
  - injection H as E. pose proof (quoted_piece ps) as [H1 H2]. rewrite E in H1, H2.
    split; pieces.
  - destruct (find_delim _ _) as [[v' p]|] eqn:E; injection H as <- <-.
    + apply find_delim_piece in E as (H1 & H2 & d & q & -> & _). cbn [tail].
      split; pieces.
    + split; [exact Hp|apply piece_nil].
Qed.
Lemma value_or_empty_piece l : piece (value_or_empty l).1 l /\ piece (value_or_empty l).2 l.
Proof.
  unfold value_or_empty. destruct (value_of l) as [[v r]|] eqn:E; cbn; [by apply value_of_piece|split; apply piece_nil].
Qed.
(** A round takes at least a byte of the line. *)
Lemma kv_of_piece l k v r : kv_of l = Some (k, (v, r)) -> piece k l /\ piece v l /\ piece r l /\ zlen r < zlen l.
Proof.
  unfold kv_of. intros H. pose proof (ignore_chs_piece [32; 9; chr ";"] l) as Hp. pose proof (ignore_chs_head [32; 9; chr ";"] l) as Hh.
  destruct (ignore_chs _ l) as [|c0 ps]; [done|]. specialize (Hh _ _ eq_refl).
  assert (Hl : 0 < zlen l) by (destruct Hp as [_ Hp]; rewrite zlen_cons in Hp; pose proof (zlen_nonneg ps); lia).
  destruct (find_delim _ _) as [[k' p]|] eqn:E.
  2: { injection H as <- <- <-. split; [done|]. split; [apply piece_nil|]. split; [apply piece_nil|]. by rewrite zlen_nil. }
  pose proof (find_delim_piece _ _ _ _ E) as (H1 & H2 & d & q & Eq & Hd).
  pose proof (ignore_chs_piece [32; 9] p) as Hq. pose proof (ignore_chs_head [32; 9] p) as Hh2.
  destruct (ignore_chs [32; 9] p) as [|c ps'] eqn:Eg.
  { injection H as <- <- <-. split; [pieces|]. split; [apply piece_nil|]. split; [apply piece_nil|]. by rewrite zlen_nil. }
  destruct (Z.eqb_spec c (chr "=")) as [->|Hc].
  - injection H as <- Ev. pose proof (value_or_empty_piece ps') as [V1 V2]. rewrite Ev in V1, V2. cbn in V1, V2.
    assert (Hps : piece ps' l) by pieces.
    split; [pieces|]. split; [pieces|]. split; [pieces|].
    destruct V2 as [_ V2], Hq as [_ Hq], H2 as [_ H2], Hp as [_ Hp]. rewrite zlen_cons in Hq. lia.
  - injection H as <- <- <-. split; [pieces|]. split; [apply piece_nil|].
    split; [pieces|].
    specialize (Hh2 _ _ eq_refl).
    (* the line did not begin at the delimiter *)
    assert (Hlt : zlen p < zlen (c0 :: ps)).
    { unfold find_delim in E. cbn [until] in E. destruct (in_set [chr "="; 32; 9] c0) eqn:E0.
      - injection E as <- <-. exfalso. apply Hc. unfold in_set in E0, Hh. cbn [existsb] in E0, Hh.
        assert (c0 = chr "=") as -> by lia. cbn in Eg. by injection Eg as <- _.
      - destruct (until _ ps) as [[x y]|] eqn:Eu; [|done]. injection E as <- <-.
        apply (find_delim_piece [chr "="; 32; 9]) in Eu as (_ & [_ Hu] & _). rewrite zlen_cons. lia. }
    destruct Hq as [_ Hq], Hp as [_ Hp]. lia.
Qed.

(** What is read and what is left share the line. *)
Lemma find_delim_len s l v p : find_delim s l = Some (v, p) -> zlen v + zlen p = zlen l.
Proof.
  unfold find_delim. revert v p. induction l as [|c l IH]; intros v p; cbn; [done|]. destruct (in_set s c).
  - intros [= <- <-]. by rewrite zlen_nil.
  - destruct (until _ l) as [[v' p']|]; [|done]. intros [= <- <-]. cbn. rewrite !zlen_cons. specialize (IH _ _ eq_refl). lia.
Qed.
Lemma quoted_len l : zlen (quoted l).1 + zlen (quoted l).2 <= zlen l.
Proof.
  induction l as [l IH] using (induction_ltof1 _ (@length Z)). unfold ltof in IH.
  destruct l as [|c l]; cbn [quoted]; [done|]. destruct (c =? 34); cbn [fst snd]; [rewrite zlen_nil, zlen_cons; lia|].
  destruct (c =? 92).
  - destruct l as [|c2 l]; [done|]. specialize (IH l ltac:(cbn; lia)). cbn [fst snd]. destruct (_ && _); cbn [app]; rewrite !zlen_cons; lia.
  - specialize (IH l ltac:(cbn; lia)). cbn [fst snd]. rewrite !zlen_cons. lia.
Qed.
Lemma value_or_empty_len l : zlen (value_or_empty l).1 + zlen (value_or_empty l).2 <= zlen l.
Proof.
  unfold value_or_empty, value_of. pose proof (ignore_chs_piece [32; 9] l) as [_ Hp]. zlen_facts.
  destruct (ignore_chs _ l) as [|c ps]; [done|]. rewrite zlen_cons in Hp. destruct (c =? 34).
  - change (zlen (quoted ps).1 + zlen (quoted ps).2 <= zlen l). pose proof (quoted_len ps). lia.
  - destruct (find_delim _ _) as [[v p]|] eqn:E.
    + change (zlen v + zlen (tail p) <= zlen l). pose proof (find_delim_len _ _ _ _ E) as El. apply find_delim_piece in E as (_ & _ & d & q & -> & _). cbn [tail].
      rewrite !zlen_cons in El. lia.
    + change (zlen (c :: ps) + zlen (@nil Z) <= zlen l). rewrite zlen_cons, zlen_nil. lia.
Qed.
Lemma kv_of_len l k v r : kv_of l = Some (k, (v, r)) -> zlen v + zlen r + 1 <= zlen l.
Proof.
  intros H. pose proof (kv_of_piece _ _ _ _ H) as (_ & _ & _ & Hlt). revert H.
  unfold kv_of. pose proof (ignore_chs_piece [32; 9; chr ";"] l) as [_ Hp].
  destruct (ignore_chs [32; 9; chr ";"] l) as [|c0 ps]; [done|].
  destruct (find_delim _ _) as [[k' p]|] eqn:E; [|intros [= _ <- <-]; rewrite !zlen_nil in *; lia].
  apply find_delim_len in E. pose proof (ignore_chs_piece [32; 9] p) as [_ Hq]. zlen_facts.
  destruct (ignore_chs [32; 9] p) as [|c ps']; [intros [= _ <- <-]; rewrite !zlen_nil in *; lia|].
  destruct (c =? chr "="); [|intros [= _ <- <-]; rewrite !zlen_nil in *; lia].
  intros [= _ Ev]. pose proof (value_or_empty_len ps') as Hv. rewrite Ev in Hv. cbn in Hv. rewrite zlen_cons in Hq. lia.
Qed.

(** ** The program reads the same *)
Abbreviation fits l := (bytes_ok l /\ zlen l + 1 < 2 ^ 29).
Lemma piece_fits x l : piece x l -> fits l -> fits x.
Proof. intros [H1 H2] [Hb Hl]. split; [auto|lia]. Qed.

Lemma quoted_value_runs l : forall b x, holds None x b -> bytes_ok l -> zlen x + zlen l + 1 < 2 ^ 29 ->
  runs (quoted_value l b) (fun r => r.1 = (quoted l).2 /\ holds None (x ++ (quoted l).1) r.2).
Proof.
  induction l as [l IH] using (induction_ltof1 _ (@length Z)). unfold ltof in IH. intros b x Hb Hl Hn.
  destruct l as [|c l]; cbn [quoted_value quoted]; [apply runs_ret; by rewrite app_nil_r|].
  apply Forall_cons in Hl as [Hc Hl]. rewrite zlen_cons in Hn. zlen_facts.
  destruct (c =? 34); [apply runs_ret; by rewrite app_nil_r|].
  assert (Hput : forall b x d, holds None x b -> byte_ok d -> zlen x + 2 < 2 ^ 29 -> runs (zbuf_put b (s8 d)) (holds None (x ++ [d]))).
  { intros b' x' d Hb' Hd Hx. apply (appends_put (s8 d) [d] ltac:(by rewrite u8_s8, u8_id) None b' x' Hb').
    cbn. rewrite zlen_cons, zlen_nil. lia. }
  destruct (Z.eqb_spec c 92) as [->|Hc92].
  - destruct l as [|c2 l]; [apply runs_ret; by rewrite app_nil_r|]. apply Forall_cons in Hl as [Hc2 Hl]. rewrite zlen_cons in Hn. zlen_facts.
    cbn [fst snd]. destruct (_ && _); cbn [app].
    + eapply runs_bind; [by apply (Hput b x 92 Hb); [|lia]|]. intros b1 Hb1.
      eapply runs_bind; [by apply (Hput b1 _ c2 Hb1); [|rewrite zlen_app, zlen_cons, zlen_nil; lia]|]. intros b2 Hb2.
      eapply runs_mono; [apply (IH l ltac:(cbn; lia) b2 _ Hb2 Hl); rewrite !zlen_app, !zlen_cons, !zlen_nil; lia|].
      cbn. intros r. by rewrite <- !app_assoc.
    + cbn [mbind option_bind]. eapply runs_bind; [by apply (Hput b x c2 Hb); [|lia]|]. intros b2 Hb2.
      eapply runs_mono; [apply (IH l ltac:(cbn; lia) b2 _ Hb2 Hl); rewrite !zlen_app, !zlen_cons, !zlen_nil; lia|].
      cbn. intros r. by rewrite <- !app_assoc.
  - eapply runs_bind; [by apply (Hput b x c Hb); [|lia]|]. intros b2 Hb2.
    eapply runs_mono; [apply (IH l ltac:(cbn; lia) b2 _ Hb2 Hl); rewrite !zlen_app, !zlen_cons, !zlen_nil; lia|].
    cbn. intros r. by rewrite <- !app_assoc.
Qed.
Lemma memcat_runs b x : holds None [] b -> fits x -> runs (zbuf_memcat b x (zlen x)) (holds None x).
Proof.
  intros Hb [Hx Hl]. apply (appends_bytes x Hx ltac:(unfold int_max; lia) None b [] Hb). cbn. rewrite zlen_nil. lia.
Qed.
Lemma find_value_runs l b x : holds None x b -> fits l ->
  runs (find_value l b) (fun r => match value_of l with
    | None => r.1 = None /\ holds None [] r.2 | Some (v, rest) => r.1 = Some rest /\ holds None v r.2 end).
Proof.
  intros Hb Hl. unfold find_value, value_of. pose proof (ignore_chs_piece [32; 9] l) as Hp.
  eapply runs_bind; [apply (zbuf_reset_holds None b x), Hb|]. intros b1 Hb1.
  destruct (ignore_chs _ l) as [|c ps]; [by apply runs_ret|]. pose proof (piece_fits _ _ Hp Hl) as Hf.
  destruct (c =? 34).
  - destruct Hf as [[_ Hps]%Forall_cons Hf]. rewrite zlen_cons in Hf.
    eapply runs_bind; [apply (quoted_value_runs ps b1 [] Hb1 Hps); rewrite zlen_nil; lia|]. intros [r1 r2] [-> Hr].
    apply runs_ret. cbn in *. by destruct (quoted ps).
  - destruct (find_delim _ _) as [[v p]|] eqn:E.
    + apply find_delim_piece in E as (Hv & _). eapply runs_bind; [by apply memcat_runs; [|pieces || eapply piece_fits]|].
      intros b2 Hb2. by apply runs_ret.
    + eapply runs_bind; [by apply memcat_runs|]. intros b2 Hb2. by apply runs_ret.
Qed.
Lemma value_after_runs ps key k value v : holds None k key -> holds None v value -> fits ps ->
  runs (value_after ps key value) (fun r => exists kb vb, r = (Some (value_or_empty ps).2, (kb, vb)) /\
    holds None k kb /\ holds None (value_or_empty ps).1 vb).
Proof.
  intros Hk Hv Hf. unfold value_after, value_or_empty. eapply runs_bind; [by apply (find_value_runs ps value v)|].
  intros [n b] Hr. apply runs_ret. exists key, b. destruct (value_of ps) as [[w r]|]; cbn in *; destruct Hr as [-> Hr]; done.
Qed.
Lemma find_next_kv_runs l key value k0 v0 : holds None k0 key -> holds None v0 value -> fits l ->
  runs (find_next_kv l key value) (fun r => match kv_of l with
    | None => exists kb vb, r = (None, (kb, vb))
    | Some (k, (v, rest)) => exists kb vb, r = (Some rest, (kb, vb)) /\ holds None k kb /\ holds None v vb end).
Proof.
  intros Hk Hv Hl. unfold find_next_kv, kv_of. pose proof (ignore_chs_piece [32; 9; chr ";"] l) as Hp.
  eapply runs_bind; [apply (zbuf_reset_holds None key k0), Hk|]. intros key1 Hk1.
  eapply runs_bind; [apply (zbuf_reset_holds None value v0), Hv|]. intros value1 Hv1.
  destruct (ignore_chs _ l) as [|c0 ps]; [apply runs_ret; eauto|]. pose proof (piece_fits _ _ Hp Hl) as Hf.
  destruct (find_delim _ _) as [[k p]|] eqn:E.
  2: { eapply runs_bind; [by apply memcat_runs|]. intros b2 Hb2. apply runs_ret. eauto. }
  apply find_delim_piece in E as (Hkp & Hpp & d & q & -> & Hd).
  eapply runs_bind; [apply memcat_runs; [done|by eapply piece_fits]|]. intros key2 Hk2. rewrite rd_0. cbn [mbind option_bind].
  assert (Hafter : forall ps', piece ps' (d :: q) -> runs (value_after ps' key2 value1) (fun r =>
    let '(v, rest) := value_or_empty ps' in exists kb vb, r = (Some rest, (kb, vb)) /\ holds None k kb /\ holds None v vb)).
  { intros ps' Hps. eapply runs_mono; [apply (value_after_runs ps' key2 k value1 []); [done..|]; eapply piece_fits; [|exact Hl]; pieces|].
    intros r. by destruct (value_or_empty ps'). }
  destruct (Z.eqb_spec d (chr "=")) as [->|Hne].
  - cbn [tail ignore_chs in_set existsb]. change ((chr "=" =? 32) || ((chr "=" =? 9) || false)) with false. cbn match.
    eapply runs_mono; [apply Hafter, piece_tail|]. rewrite Z.eqb_refl. intros r. by destruct (value_or_empty q).
  - pose proof (ignore_chs_piece [32; 9] (d :: q)) as Hq. destruct (ignore_chs [32; 9] (d :: q)) as [|c ps']; [apply runs_ret; eauto|].
    destruct (c =? chr "="); cbn [negb]; [|apply runs_ret; eauto].
    eapply runs_mono; [apply Hafter; pieces|]. intros r. by destruct (value_or_empty ps').
Qed.

(** The loop hands every parameter to its body. *)
Section loop.
Context {A W : Type} (body : A -> zbuf -> zbuf -> option A) (R : A -> W -> Prop) (f : W -> list Z * list Z -> W).
(** [cost]: what a parameter may add to the state, up to [lim]. *)
Context (cost : W -> Z) (lim : Z).
Hypothesis Hbody : forall a w kb vb k v, R a w -> cost w + zlen v + 1 <= lim -> holds None k kb -> holds None v vb -> fits k -> fits v ->
  runs (body a kb vb) (fun a' => R a' (f w (k, v))).
Hypothesis Hcost : forall w e, cost (f w e) <= cost w + zlen e.2 + 1.

Lemma params_loop_runs fuel : forall ps key value k0 v0 a w, (length ps < fuel)%nat -> fits ps -> cost w + zlen ps <= lim ->
  holds None k0 key -> holds None v0 value -> R a w ->
  runs (params_loop fuel body ps key value a) (fun a' => R a' (fold_left f (params_from fuel ps) w)).
Proof using Hbody Hcost.
  induction fuel as [|fuel IH]; [lia|]. intros ps key value k0 v0 a w Hfu Hf Hc Hk Hv Ha. cbn [params_loop params_from].
  destruct (bool_decide_reflect (ps = [])) as [->|Hne]; [by apply runs_ret|].
  eapply runs_bind; [by apply (find_next_kv_runs ps key value k0 v0)|]. intros [nbuf [kb vb]] Hr.
  destruct (kv_of ps) as [[k [v rest]]|] eqn:E.
  - destruct Hr as (kb' & vb' & [= -> -> ->] & Hkb & Hvb). pose proof (kv_of_len _ _ _ _ E). apply kv_of_piece in E as (P1 & P2 & P3 & Hlt). zlen_facts.
    eapply runs_bind; [apply (Hbody a w kb' vb' k v); try done; [lia|by eapply piece_fits..]|]. intros a' Ha'. cbn [fold_left].
    specialize (Hcost w (k, v)). cbn in Hcost. eapply IH; try done; [unfold zlen in *; lia|by eapply piece_fits|lia].
  - destruct Hr as (kb' & vb' & [= -> _ _]). by apply runs_ret.
Qed.
End loop.

(** ** The dictionary of the parameters *)
Definition line_params (l : list Z) : list (list Z * list Z) := match value_of l with None => [] | Some (_, r) => params_of r end.
(** A name ends at its NUL. *)
Definition name_of (k : list Z) : list Z := take_while (fun c => negb (c =? 0)) k.
Definition put_param (al : list (list Z * list Z)) (e : list Z * list Z) : list (list Z * list Z) :=
  al_update strcmp (name_of e.1) e.2 al.

Lemma key_data_name b k : holds None k b -> key_data b = Some (name_of k).
Proof.
  intros Hb. unfold key_data. rewrite (zbuf_data_z_rep b k Hb). cbn [mbind option_bind]. clear.
  unfold name_of. induction k as [|c k IH]; [done|]. cbn [app cstr take_while]. destruct (c =? 0); cbn; [done|]. by rewrite IH.
Qed.
Lemma line_rest l v r : value_of l = Some (v, r) -> fits l -> fits r /\ zlen r <= zlen l.
Proof. intros [_ Hr]%value_of_piece Hl. split; [by eapply piece_fits|apply Hr]. Qed.

Theorem get_params_reads `{AllocatorSound} (in_line : list Z) (in_len : Z) (l x : list Z) (val : zbuf)
    (params : kvstate (list Z) zbuf) (al : list (list Z * list Z)) :
  read_bytes in_line in_len = Some l -> fits l -> holds None x val -> kv_rep strcmp dict_rep params al ->
  zlen al + zlen l < int_max ->
  runs (zmime_header_line_get_params in_line in_len val params) (fun r =>
    holds None (value_or_empty l).1 r.1 /\ kv_rep strcmp dict_rep r.2 (fold_left put_param (line_params l) al)).
Proof.
  intros Hin Hl Hv Hp Hal. unfold zmime_header_line_get_params, line_params, value_or_empty. rewrite Hin. cbn [mbind option_bind].
  eapply runs_bind; [by apply (find_value_runs l val x)|]. intros [n v'] Hr. cbn [fst snd] in Hr.
  destruct (value_of l) as [[v r]|] eqn:E; destruct Hr as [-> Hr]; [|by apply runs_ret].
  destruct (line_rest l v r E Hl) as [Hfr Hlr].
  eapply runs_bind; [by apply (zbuf_create_holds 64)|]. intros kb Hkb.
  eapply runs_bind; [by apply (zbuf_create_holds 128)|]. intros vb Hvb.
  eapply runs_bind.
  - apply (params_loop_runs _ (kv_rep strcmp dict_rep) put_param zlen (int_max - 1)) with (k0 := []) (v0 := []) (w := al); try done; try lia.
    + intros a w kb' vb' k v0 Ha Hc Hk Hv0 _ [Hb0 Hl0]. rewrite (key_data_name kb' k Hk). cbn [mbind option_bind]. zlen_facts.
      pose proof (zdict_update_rep (name_of k) vb' v0 a w Ha Hv0 Hb0 Hl0 ltac:(lia)) as Hw. apply wp_runs in Hw as (u & s' & E1 & Hs').
      rewrite E1. by apply runs_ret.
    + intros w e. unfold put_param. pose proof (zlen_al_update (name_of e.1) e.2 w). zlen_facts. lia.
  - intros s' Hs'. by apply runs_ret.
Qed.

(** ** Words without regard to case *)
Definition same_word (k name : list Z) : bool := bool_decide (ztolower <$> k = ztolower <$> name).
Lemma strncaseeq_word name : forall k, text_ok name -> (length name <= length k)%nat ->
  strncaseeq (k ++ [0]) (name ++ [0]) (length name) = Some (same_word (take (length name) k) name).
Proof.
  induction name as [|y name IH]; intros k Hn Hl; [by destruct k|]. destruct k as [|x k]; [cbn in Hl; lia|].
  apply Forall_cons in Hn as [Hy Hn]. cbn [app length strncaseeq take]. unfold same_word. rewrite !fmap_cons.
  destruct (Z.eqb_spec (ztolower x) (ztolower y)) as [E|Hne].
  - assert (x <> 0).
    { intros ->. change (ztolower 0) with 0 in E. assert (text_ok (ztolower <$> [y])) as [H _]%Forall_cons by (apply ztolower_text; by constructor). lia. }
    rewrite (proj2 (Z.eqb_neq x 0)), IH by (done || (cbn in Hl; lia)). unfold same_word. f_equal. rewrite E. apply bool_decide_ext.
    split; [by intros ->|by intros [=]].
  - rewrite bool_decide_eq_false_2; [done|]. by intros [=].
Qed.
Lemma key_is_word key k name : holds None k key -> text_ok name -> key_is key name = Some (same_word k name).
Proof.
  intros Hk Hn. unfold key_is. rewrite (rep_len _ _ _ (proj1 Hk)), (zbuf_data_z_rep key k Hk). cbn [mbind option_bind].
  destruct (Z.eqb_spec (zlen k) (zlen name)) as [E|Hne].
  - unfold zlen in E. rewrite strncaseeq_word by (done || lia). by rewrite take_ge by lia.
  - unfold same_word. rewrite bool_decide_eq_false_2; [done|]. intros E%(f_equal length). rewrite !length_fmap in E. unfold zlen in Hne. lia.
Qed.
Lemma dup_buf_holds b x : holds None x b -> dup_buf b = Some (x ++ [0]).
Proof. intros H. unfold dup_buf. by rewrite (holds_bytes _ _ _ H). Qed.

(** ** Content-Type *)
(** The value of the last parameter of a name. *)
Definition last_param (name : list Z) (ps : list (list Z * list Z)) : option (list Z) :=
  snd <$> last (List.filter (fun e => same_word e.1 name) ps).
Definition or_param (old : list Z) (v : option (list Z)) : list Z := match v with Some v => v ++ [0] | None => old end.
Definition content_type_of (l : list Z) (ct : content_type) : content_type :=
  match value_of l with
  | None => ct
  | Some (v, r) =>
      let p name := last_param (str name) (params_of r) in
      mk_content_type (v ++ [0]) (or_param (ct_boundary ct) (last_param (str "boundary") (params_of r)))
        (default (ct_boundary_len ct) (zlen <$> last_param (str "boundary") (params_of r)))
        (or_param (ct_charset ct) (last_param (str "charset") (params_of r)))
        (or_param (ct_name ct) (last_param (str "name") (params_of r)))
  end.
Definition ct_put (ct : content_type) (e : list Z * list Z) : content_type :=
  if same_word e.1 (str "boundary") then mk_content_type (ct_value ct) (e.2 ++ [0]) (zlen e.2) (ct_charset ct) (ct_name ct)
  else if same_word e.1 (str "charset") then mk_content_type (ct_value ct) (ct_boundary ct) (ct_boundary_len ct) (e.2 ++ [0]) (ct_name ct)
  else if same_word e.1 (str "name") then mk_content_type (ct_value ct) (ct_boundary ct) (ct_boundary_len ct) (ct_charset ct) (e.2 ++ [0])
  else ct.

Lemma last_param_snoc name ps e : last_param name (ps ++ [e]) = if same_word e.1 name then Some e.2 else last_param name ps.
Proof.
  unfold last_param. rewrite List.filter_app. cbn. destruct (same_word e.1 name); [by rewrite last_snoc|by rewrite app_nil_r].
Qed.
Lemma same_word_other k a b : same_word k a = true -> same_word a b = false -> same_word k b = false.
Proof. unfold same_word. rewrite bool_decide_eq_true, !bool_decide_eq_false. by intros ->. Qed.
Lemma ct_put_all ps : forall ct, fold_left ct_put ps ct =
  mk_content_type (ct_value ct) (or_param (ct_boundary ct) (last_param (str "boundary") ps))
    (default (ct_boundary_len ct) (zlen <$> last_param (str "boundary") ps))
    (or_param (ct_charset ct) (last_param (str "charset") ps)) (or_param (ct_name ct) (last_param (str "name") ps)).
Proof.
  induction ps as [|e ps IH] using rev_ind; intros ct; [by destruct ct|].
  rewrite fold_left_app, IH. cbn [fold_left]. unfold ct_put. rewrite !last_param_snoc.
  destruct (same_word e.1 (str "boundary")) eqn:E1.
  { by rewrite (same_word_other _ _ (str "charset") E1 eq_refl), (same_word_other _ _ (str "name") E1 eq_refl). }
  destruct (same_word e.1 (str "charset")) eqn:E2; [by rewrite (same_word_other _ _ (str "name") E2 eq_refl)|].
  by destruct (same_word e.1 (str "name")).
Qed.
Lemma content_type_param_runs ct kb vb k v : holds None k kb -> holds None v vb ->
  content_type_param ct kb vb = Some (ct_put ct (k, v)).
Proof.
  intros Hk Hv. unfold content_type_param, ct_put. cbn [fst snd].
  rewrite !(key_is_word kb k) by (done || by repeat constructor). cbn [mbind option_bind].
  rewrite (dup_buf_holds vb v Hv), (rep_len _ _ _ (proj1 Hv)). cbn [mbind option_bind].
  by destruct (same_word k (str "boundary")), (same_word k (str "charset")), (same_word k (str "name")).
Qed.
Lemma content_type_reads data len l ct : read_bytes data len = Some l -> fits l ->
  zmime_header_line_decode_content_type_inner data len ct = Some (content_type_of l ct).
Proof.
  intros Hin Hl. unfold zmime_header_line_decode_content_type_inner, content_type_of. rewrite Hin. cbn [mbind option_bind].
  destruct (zbuf_create_holds 64 ltac:(done)) as (kb & -> & Hkb), (zbuf_create_holds 128 ltac:(done)) as (vb & -> & Hvb). cbn [mbind option_bind].
  destruct (find_value_runs l vb [] Hvb Hl) as ([n v'] & -> & Hr). cbn [mbind option_bind fst snd] in *.
  destruct (value_of l) as [[v r]|] eqn:E; destruct Hr as [-> Hr]; [|done]. destruct (line_rest l v r E Hl) as [Hfr _].
  rewrite (dup_buf_holds v' v Hr). cbn [mbind option_bind].
  set (ct0 := mk_content_type _ _ _ _ _).
  destruct (params_loop_runs content_type_param eq ct_put (fun _ => 0) (zlen r + 2)) with (fuel := S (length r)) (ps := r)
    (key := kb) (value := v') (k0 := @nil Z) (v0 := v) (a := ct0) (w := ct0) as (ct' & -> & ->); try done; try lia.
  - intros a w kb' vb' k v0 -> _ Hk Hv0 _ _. rewrite (content_type_param_runs w kb' vb' k v0 Hk Hv0). by apply runs_ret.
  - intros w e. zlen_facts. lia.
  - by rewrite ct_put_all.
Qed.

(** ** Content-Disposition *)
(** The parameters [filename*], [filename*0], [filename*1*] and so on. *)
Definition star_params (ps : list (list Z * list Z)) : list (list Z * list Z) :=
  List.filter (fun e => negb (same_word e.1 (str "filename")) && (8 <? zlen e.1) && same_word (take 9 e.1) (str "filename*")) ps.
(** The first of them says whether a charset stands in front of the text: as
    [filename*] when its value holds two apostrophes, in parts when its name has two
    characters behind the star, as [filename*0*] has. *)
Definition names_charset (e : list Z * list Z) : Prop :=
  length e.1 = 9%nat /\ (2 <= count_occ Z.eq_dec e.2 39%Z)%nat \/ length e.1 = 11%nat.
#[export] Instance names_charset_dec e : Decision (names_charset e) := ltac:(unfold names_charset; apply _).
Lemma charset_2231_flag e : charset_2231_of (zlen e.1) 0 e.2 = if decide (names_charset e) then 1 else 0.
Proof.
  assert (Ha : zlen (List.filter (Z.eqb 39) e.2) = Z.of_nat (count_occ Z.eq_dec e.2 39)).
  { induction e.2 as [|x v IH]; [done|]. cbn [List.filter count_occ].
    destruct (Z.eqb_spec 39 x), (Z.eq_dec x 39); rewrite ?zlen_cons, ?IH; congruence || lia. }
  unfold charset_2231_of, names_charset. change (chr "'") with 39. rewrite Ha. unfold zlen.
  repeat case_match; lia.
Qed.
Definition disposition_of (l : list Z) (cd : disposition) : disposition :=
  match value_of l with
  | None => cd
  | Some (v, r) =>
      let stars := star_params (params_of r) in
      mk_disposition ((ztolower <$> name_of v) ++ drop (length (name_of v)) v ++ [0])
        (or_param (cd_filename cd) (last_param (str "filename") (params_of r)))
        (match stars with [] => cd_filename_2231 cd | _ => concat stars.*2 ++ [0] end)
        (match stars with [] => 0 | e :: _ => if decide (names_charset e) then 1 else 0 end)
  end.
(** The state of the loop after some parameters. *)
Definition ds_rep (old : list Z) (st : disposition_st) (ps : list (list Z * list Z)) : Prop :=
  ds_filename st = or_param old (last_param (str "filename") ps) /\
  ds_flag_2231 st = negb (bool_decide (star_params ps = [])) /\
  match star_params ps with
  | [] => ds_tmpbf st = None /\ ds_charset_2231 st = 0
  | e :: _ => ds_charset_2231 st = (if decide (names_charset e) then 1 else 0) /\
      exists bf, ds_tmpbf st = Some bf /\ holds None (concat (star_params ps).*2) bf
  end /\ Forall (fun b => exists x, holds None x b) (ds_cache st).
Definition values_len (ps : list (list Z * list Z)) : Z := zlen (concat ps.*2).

Lemma star_params_snoc ps e : star_params (ps ++ [e]) = star_params ps ++
  if negb (same_word e.1 (str "filename")) && (8 <? zlen e.1) && same_word (take 9 e.1) (str "filename*") then [e] else [].
Proof. unfold star_params. rewrite List.filter_app. cbn. by destruct (_ && _). Qed.
Lemma values_len_snoc ps e : values_len (ps ++ [e]) = values_len ps + zlen e.2.
Proof. unfold values_len. rewrite fmap_app, concat_app, zlen_app. cbn. by rewrite app_nil_r. Qed.
Lemma values_len_stars ps : values_len (star_params ps) <= values_len ps.
Proof.
  induction ps as [|e ps IH] using rev_ind; [done|]. rewrite star_params_snoc, values_len_snoc. zlen_facts.
  destruct (_ && _); [rewrite values_len_snoc|rewrite app_nil_r]; lia.
Qed.
Lemma cache_require_runs cache n : Forall (fun b => exists x, holds None x b) cache -> n < 2 ^ 29 ->
  runs (zmail_zbuf_cache_require cache n) (fun r => holds None [] r.1 /\ Forall (fun b => exists x, holds None x b) r.2).
Proof.
  intros Hc Hn. unfold zmail_zbuf_cache_require. destruct (last cache) as [b|] eqn:E.
  - apply last_Some in E as [l' ->]. apply Forall_app in Hc as [Hc [[x [Hb _]] _]%Forall_cons].
    eapply runs_bind; [by apply (zbuf_reset_holds None b x)|]. intros b' Hb'. apply runs_ret. cbn. by rewrite removelast_last.
  - eapply runs_bind; [by apply zbuf_create_holds|]. intros b Hb. eapply runs_bind; [apply (zbuf_reset_holds None b []), Hb|].
    intros b' Hb'. by apply runs_ret.
Qed.
Lemma disposition_param_runs old st ps kb vb k v : ds_rep old st ps -> holds None k kb -> holds None v vb -> fits v ->
  values_len ps + zlen v + 1 < 2 ^ 29 ->
  runs (disposition_param st kb vb) (fun st' => ds_rep old st' (ps ++ [(k, v)])).
Proof.
  intros (Hf & Hfl & Hs & Hc) Hk Hv [Hvb Hvl] Hn. unfold disposition_param.
  rewrite (key_is_word kb k) by (done || by repeat constructor). cbn [mbind option_bind].
  assert (Hrep : forall stars, star_params (ps ++ [(k, v)]) = star_params ps ++ stars -> stars = [] -> same_word k (str "filename") = false ->
    ds_rep old st (ps ++ [(k, v)])).
  { intros stars Es -> Hw. rewrite app_nil_r in Es. unfold ds_rep. rewrite Es, last_param_snoc. cbn [fst]. by rewrite Hw. }
  pose proof (star_params_snoc ps (k, v)) as Es. cbn [fst] in Es.
  destruct (same_word k (str "filename")) eqn:Ew; cbn [negb andb] in Es.
  { rewrite (dup_buf_holds vb v Hv). apply runs_ret. unfold ds_rep. rewrite Es, app_nil_r, last_param_snoc. cbn [fst]. by rewrite Ew. }
  rewrite (rep_len _ _ _ (proj1 Hk)).
  destruct (Z.ltb_spec 8 (zlen k)) as [Hlk|]; cbn [negb andb] in *; [|apply runs_ret; by eapply Hrep].
  rewrite (zbuf_data_z_rep kb k Hk). cbn [mbind option_bind].
  pose proof (strncaseeq_word (str "filename*") k ltac:(by repeat constructor) ltac:(unfold zlen in Hlk; cbn; lia)) as E9.
  change (length (str "filename*")) with 9%nat in E9. rewrite E9. cbn [mbind option_bind].
  destruct (same_word (take 9 k) (str "filename*")) eqn:Ew9; cbn [negb] in *; [|apply runs_ret; by eapply Hrep].
  assert (Hreq : runs (match ds_tmpbf st with Some bf => Some (bf, ds_cache st) | None => zmail_zbuf_cache_require (ds_cache st) 1024 end)
    (fun r => holds None (concat (star_params ps).*2) r.1 /\ Forall (fun b => exists x, holds None x b) r.2)).
  { destruct (star_params ps) as [|e stars].
    - destruct Hs as [-> _]. by apply cache_require_runs.
    - destruct Hs as (_ & bf & -> & Hbf). by apply runs_ret. }
  eapply runs_bind; [exact Hreq|]. intros [bf cache] [Hbf Hcache]. cbn [fst snd] in *.
  rewrite (holds_bytes _ _ _ Hv), (rep_len _ _ _ (proj1 Hv)). cbn [mbind option_bind].
  pose proof (values_len_stars ps) as Hvs. unfold values_len at 1 in Hvs.
  destruct (appends_bytes v Hvb ltac:(unfold int_max; lia) None bf _ Hbf) as (bf' & -> & Hbf'); [cbn; lia|]. apply runs_ret.
  unfold ds_rep. cbn [ds_filename ds_flag_2231 ds_charset_2231 ds_tmpbf ds_cache]. rewrite Es, last_param_snoc. cbn [fst]. rewrite Ew.
  split; [done|]. split; [by destruct (star_params ps)|]. split; [|done].
  rewrite fmap_app, concat_app. cbn [fmap list_fmap concat]. rewrite app_nil_r. rewrite Hfl.
  destruct (star_params ps) as [|e stars]; cbn [app].
  - destruct Hs as [_ ->]. rewrite bool_decide_eq_true_2 by done. cbn [negb]. rewrite <- charset_2231_flag.
    split; [done|]. by exists bf'.
  - destruct Hs as [Hs _]. rewrite bool_decide_eq_false_2 by done. cbn [negb]. split; [done|]. by exists bf'.
Qed.

Lemma tolower_block v : bytes_ok v ->
  zstr_tolower (v ++ [0]) = Some ((ztolower <$> name_of v) ++ drop (length (name_of v)) v ++ [0]).
Proof.
  intros Hv. unfold name_of, zstr_tolower. induction Hv as [|c v Hc _ IH]; [done|]. cbn [app map_string take_while].
  destruct (Z.eqb_spec c 0) as [->|]; cbn [negb]; [done|]. rewrite IH. done.
Qed.
Lemma disposition_reads cache data len l cd : read_bytes data len = Some l -> fits l ->
  Forall (fun b => exists x, holds None x b) cache ->
  runs (zmime_header_line_decode_content_disposition_inner cache data len cd) (fun r =>
    r.1 = disposition_of l cd /\ Forall (fun b => exists x, holds None x b) r.2).
Proof.
  intros Hin Hl Hc. unfold zmime_header_line_decode_content_disposition_inner, disposition_of. rewrite Hin. cbn [mbind option_bind].
  destruct (zbuf_create_holds 64 ltac:(done)) as (kb & -> & Hkb), (zbuf_create_holds 128 ltac:(done)) as (vb & -> & Hvb). cbn [mbind option_bind].
  destruct (find_value_runs l vb [] Hvb Hl) as ([n v'] & -> & Hr). cbn [mbind option_bind fst snd] in *.
  destruct (value_of l) as [[v r]|] eqn:E; destruct Hr as [-> Hr]; [|by apply runs_ret].
  destruct (line_rest l v r E Hl) as [Hfr _]. apply value_of_piece in E as [Hvp _].
  rewrite (dup_buf_holds v' v Hr). cbn [mbind option_bind]. rewrite tolower_block by apply (piece_fits _ _ Hvp Hl). cbn [mbind option_bind].
  eapply runs_bind.
  { apply (params_loop_runs disposition_param (ds_rep (cd_filename cd)) (fun ps e => ps ++ [e]) values_len (2 ^ 29 - 1))
      with (k0 := []) (v0 := v) (w := []); try done; try lia.
    - intros a w kb' vb' k v0 Ha Hcost Hk Hv0 _ Hfv. apply (disposition_param_runs _ a w kb' vb' k v0); try done. lia.
    - intros w e. rewrite values_len_snoc. lia.
    - unfold values_len. cbn. destruct Hfr. rewrite zlen_nil. lia. }
  intros st Hst. assert (Hfold : forall ps0 ps : list (list Z * list Z), fold_left (fun ps e => ps ++ [e]) ps ps0 = ps0 ++ ps).
  { intros ps0 ps. revert ps0. induction ps as [|e ps IH]; intros ps0; cbn; [by rewrite app_nil_r|]. by rewrite IH, <- app_assoc. }
  rewrite Hfold in Hst. cbn [app] in Hst. fold (params_of r) in Hst. destruct Hst as (Hf & _ & Hs & Hca).
  destruct (star_params (params_of r)) as [|e stars].
  - destruct Hs as [-> ->]. apply runs_ret. cbn. by rewrite Hf.
  - destruct Hs as (Hch & bf & -> & Hbf). rewrite (dup_buf_holds bf _ Hbf). cbn [mbind option_bind].
    unfold zmail_zbuf_cache_release. destruct (zbuf_reset_holds None bf _ (proj1 Hbf)) as (bf' & -> & Hbf'). cbn [mbind option_bind].
    apply runs_ret. cbn. rewrite Hf, Hch. split; [done|]. apply Forall_app. split; [done|]. constructor; [by exists []|done].
Qed.

(** ** A line from its parts *)
Definition quote_esc (v : list Z) : list Z := v ≫= (fun c => if c =? 92 then [92; 92] else [c]).
Definition param_text (e : list Z * list Z) : list Z := str "; " ++ e.1 ++ chr "=" :: 34 :: quote_esc e.2 ++ [34].
Definition params_text (ps : list (list Z * list Z)) : list Z := ps ≫= param_text.
Definition key_fits (k : list Z) : Prop := k <> [] /\ Forall (fun c => in_set [32; 9; chr ";"; chr "="] c = false) k.
Definition value_fits (v : list Z) : Prop := v <> [] /\ Forall (fun c => in_set [32; 9; chr ";"; 34] c = false) v.
Definition no_quote (v : list Z) : Prop := Forall (.≠ 34) v.

Lemma quoted_esc v r : no_quote v -> quoted (quote_esc v ++ 34 :: r) = (v, r).
Proof.
  induction 1 as [|c v Hc _ IH]; [done|].
  change (quote_esc (c :: v)) with ((if c =? 92 then [92; 92] else [c]) ++ quote_esc v).
  destruct (Z.eqb_spec c 92) as [->|Hne]; cbn [app quoted].
  - change (92 =? 34) with false. cbn match. change (92 =? 92) with true. cbn match. by rewrite IH.
  - rewrite (proj2 (Z.eqb_neq c 34)), (proj2 (Z.eqb_neq c 92)) by done. by rewrite IH.
Qed.
Lemma ignore_chs_id s c l : in_set s c = false -> ignore_chs s (c :: l) = c :: l.
Proof. intros H. cbn. by rewrite H. Qed.
Lemma params_text_cons e ps : params_text (e :: ps) = str "; " ++ e.1 ++ chr "=" :: 34 :: quote_esc e.2 ++ 34 :: params_text ps.
Proof.
  change (params_text (e :: ps)) with (param_text e ++ params_text ps). unfold param_text. cbn [app].
  rewrite <- app_assoc. cbn [app]. by rewrite <- app_assoc.
Qed.
Lemma in_set_sub a b c : (forall x, in_set b x = false -> in_set a x = false) -> in_set b c = false -> in_set a c = false.
Proof. auto. Qed.
Lemma kv_of_text e ps pre : key_fits e.1 -> no_quote e.2 -> ignore_chs [32; 9; chr ";"] pre = [] ->
  kv_of (pre ++ e.1 ++ chr "=" :: 34 :: quote_esc e.2 ++ 34 :: params_text ps) = Some (e.1, (e.2, params_text ps)).
Proof.
  intros [Hne Hk] Hv Hpre. unfold kv_of.
  assert (Hig : forall l, ignore_chs [32; 9; chr ";"] (pre ++ l) = ignore_chs [32; 9; chr ";"] l).
  { intros l. clear -Hpre. induction pre as [|c pre IH]; [done|]. cbn [app ignore_chs] in *. destruct (in_set _ c); [by apply IH|done]. }
  rewrite Hig. clear Hig. destruct e as [k v]. cbn [fst snd] in *. destruct k as [|c k]; [done|]. pose proof Hk as [Hc _]%Forall_cons.
  cbn [app]. rewrite ignore_chs_id. 2: { revert Hc. unfold in_set. cbn [existsb]. lia. }
  unfold find_delim. rewrite app_comm_cons, until_app; [| |done].
  2: { eapply Forall_impl; [exact Hk|]. intros x. unfold in_set. cbn [existsb]. lia. }
  cbn [ignore_chs in_set existsb]. change (chr "=" =? 32) with false. change (chr "=" =? 9) with false. cbn match. cbn [orb].
  rewrite Z.eqb_refl. unfold value_or_empty, value_of. cbn [ignore_chs in_set existsb]. change (34 =? 32) with false. change (34 =? 9) with false.
  cbn [orb]. cbn match. change (34 =? 34) with true. cbn match. cbn [default from_option id]. by rewrite quoted_esc.
Qed.
Lemma params_from_text ps : forall fuel, Forall (fun e => key_fits e.1 /\ no_quote e.2) ps ->
  (length (params_text ps) < fuel)%nat -> params_from fuel (params_text ps) = ps.
Proof.
  induction ps as [|e ps IH]; intros fuel Hps Hf; [by destruct fuel|]. destruct fuel as [|fuel]; [lia|].
  apply Forall_cons in Hps as [[Hk Hv] Hps]. rewrite params_text_cons in *. cbn [params_from].
  rewrite (kv_of_text e ps (str "; ") Hk Hv eq_refl), IH; [by destruct e|done|].
  revert Hf. rewrite !length_app. cbn [length]. rewrite length_app. cbn [length]. lia.
Qed.
Definition header_text (v : list Z) (ps : list (list Z * list Z)) : list Z := v ++ params_text ps.
Lemma header_reads v ps : value_fits v -> Forall (fun e => key_fits e.1 /\ no_quote e.2) ps ->
  exists r, value_of (header_text v ps) = Some (v, r) /\ params_of r = ps.
Proof.
  intros [Hne Hv] Hps. unfold header_text, value_of. destruct v as [|c v]; [done|]. pose proof Hv as [Hc Hv']%Forall_cons.
  cbn [app]. rewrite ignore_chs_id by (revert Hc; unfold in_set; cbn [existsb]; lia).
  rewrite (proj2 (Z.eqb_neq c 34)) by (intros ->; done).
  assert (Hd : Forall (fun c => in_set [32; 9; chr ";"] c = false) (c :: v)).
  { eapply Forall_impl; [exact Hv|]. intros x. unfold in_set. cbn [existsb]. lia. }
  unfold find_delim. destruct ps as [|e ps].
  - cbn [params_text mbind list_bind]. rewrite app_nil_r, until_item, break_at_end by done. by exists [].
  - rewrite params_text_cons. change (str "; " ++ ?l) with (chr ";" :: str " " ++ l). rewrite app_comm_cons, until_app by done.
    eexists. split; [done|]. cbn [tail]. unfold params_of. apply Forall_cons in Hps as [[Hk Hq] Hps]. cbn [params_from].
    rewrite (kv_of_text e ps (str " ") Hk Hq eq_refl), params_from_text; [by destruct e|done|].
    rewrite !length_app. cbn [length]. rewrite length_app. cbn [length]. lia.
Qed.

(** ** Theorems *)
(** C22: [zmime_header_line_get_params], on a line put together from a value and
    parameters in quotation marks, stores the value, and every name with its value
    in the dictionary, a later one replacing an earlier one; a value may hold any
    byte but a quotation mark. *)
Theorem zmime_get_params_roundtrip `{AllocatorSound} (v : list Z) (ps : list (list Z * list Z)) (extra x : list Z) (val : zbuf)
    (params : kvstate (list Z) zbuf) (al : list (list Z * list Z)) :
  value_fits v -> Forall (fun e => key_fits e.1 /\ no_quote e.2) ps -> fits (header_text v ps) ->
  holds None x val -> kv_rep strcmp dict_rep params al -> zlen al + zlen (header_text v ps) < int_max ->
  runs (zmime_header_line_get_params (header_text v ps ++ extra) (zlen (header_text v ps)) val params) (fun r =>
    holds None v r.1 /\ kv_rep strcmp dict_rep r.2 (fold_left put_param ps al)).
Proof.
  intros Hv Hps Hf Hval Hal Hn. destruct (header_reads v ps Hv Hps) as (r & E & Ep).
  eapply runs_mono; [apply (get_params_reads _ _ (header_text v ps) x val params al); try done|].
  - apply read_bytes_app.
  - intros r' [H1 H2]. unfold line_params, value_or_empty in *. rewrite E in *. rewrite Ep in H2. done.
Qed.

(** C24: the decoders of Content-Type and Content-Disposition take any line, stay
    within it and return: the value (in lower case for a disposition) and the last
    [boundary], [charset] and [name], or [filename], their names in any case, are
    what a reading without buffers finds, the rest is left as it was; the values of
    the parameters [filename*], [filename*0] and so on are put together in order,
    and the first decides whether they begin with a charset. The buffer they are
    collected in goes back to the cache of the parser. *)
Theorem zmime_content_headers_read (data l : list Z) (len : Z) (ct : content_type) (cd : disposition) (cache : list zbuf) :
  read_bytes data len = Some l -> fits l -> Forall (fun b => exists x, holds None x b) cache ->
  zmime_header_line_decode_content_type_inner data len ct = Some (content_type_of l ct) /\
  runs (zmime_header_line_decode_content_disposition_inner cache data len cd) (fun r =>
    r.1 = disposition_of l cd /\ Forall (fun b => exists x, holds None x b) r.2).
Proof. intros Hin Hl Hc. split; [by apply content_type_reads|by apply disposition_reads]. Qed.

(** ** Runs *)
Definition ex_params : list (list Z * list Z) := [(str "name", str "a b;" ++ [92]); (str "x", [])].
Lemma zmime_get_params_roundtrip_witness : exists val,
  runs (zmime_header_line_get_params (header_text (str "text/plain") ex_params) (zlen (header_text (str "text/plain") ex_params)) val zdict_create)
    (fun r => holds None (str "text/plain") r.1 /\ kv_rep strcmp dict_rep r.2 [(str "name", str "a b;" ++ [92]); (str "x", [])]).
Proof.
  destruct (zbuf_create_holds 10 ltac:(done)) as (val & _ & Hval). exists val.
  pose proof (zmime_get_params_roundtrip (str "text/plain") ex_params [] [] val zdict_create []) as H.
  rewrite app_nil_r in H. apply H; try done.
  - by repeat constructor.
  - by repeat constructor.
  - split; [by repeat constructor|done].
  - apply kv_rep_create.
Defined.
(** The quotation mark of an escape is kept with its backslash. *)
Lemma quoted_escaped_quote : value_of (34 :: str "a" ++ [92; 34] ++ str "b" ++ [34]) = Some (str "a" ++ [92; 34] ++ str "b", []).
Proof. by vm_compute. Qed.
Definition ex_type : list Z := str "multipart/mixed; Boundary=" ++ 34 :: str "a;b" ++ 34 :: str "; charset=utf-8 ; name".
Lemma zmime_content_headers_read_witness :
  zmime_header_line_decode_content_type_inner ex_type (zlen ex_type) (mk_content_type [0] [0] 0 [0] [0]) =
    Some (mk_content_type (str "multipart/mixed" ++ [0]) (str "a;b" ++ [0]) 3 (str "utf-8" ++ [0]) [0]) /\
  runs (zmime_header_line_decode_content_disposition_inner [] (str "Inline;filename*0=a.;FileName*1=txt") 35 (mk_disposition [0] [0] [0] 0))
    (fun r => r.1 = mk_disposition (str "inline" ++ [0]) [0] (str "a.txt" ++ [0]) 0).
Proof.
  split.
  - apply (zmime_content_headers_read ex_type ex_type (zlen ex_type) _ (mk_disposition [0] [0] [0] 0) []); [done| |constructor].
    split; [by repeat constructor|done].
  - eapply runs_mono.
    + apply (zmime_content_headers_read (str "Inline;filename*0=a.;FileName*1=txt") (str "Inline;filename*0=a.;FileName*1=txt") 35
        (mk_content_type [] [] 0 [] []) (mk_disposition [0] [0] [0] 0) []); [done| |constructor]. split; [by repeat constructor|done].
    + by intros r [-> _].
Defined.
