(* ===== verification/MimeWords.v ===== *)
(** * Encoded words in header lines: what is found

    The words and plain pieces of a line without the array they are stored in
    ([words_of]); the array is always large enough; the pieces cover the line; a
    line that is put together from pieces is cut into these pieces. *)
From S2P Require Import Prelude Chars Buf Base64 QuotedPrintable Text Scan UrlVars Mime.

(** ** Searching *)
Lemma memmem_found pat l x p : memmem pat l = Some (x, p) -> l = x ++ p /\ take (length pat) p = pat.
Proof.
  revert x p. induction l as [|c l IH]; intros x p; cbn [memmem]; [done|].
  destruct (bool_decide_reflect (take (length pat) (c :: l) = pat)) as [E|_]; [intros [= <- <-]; done|].
  destruct (memmem pat l) as [[x' p']|]; [|done]. intros [= <- <-]. destruct (IH _ _ eq_refl) as [-> Hp]. done.
Qed.
Lemma memchr_found c l x p : memchr c l = Some (x, p) -> exists r, p = c :: r /\ l = x ++ c :: r /\ Forall (.≠ c) x.
Proof.
  unfold memchr. revert x p. induction l as [|d l IH]; intros x p; cbn; [done|].
  destruct (Z.eqb_spec c d) as [<-|Hne]; [intros [= <- <-]; by exists l|].
  destruct (until _ l) as [[x' p']|]; [|done]. intros [= <- <-]. destruct (IH _ _ eq_refl) as (r & -> & -> & Hx).
  exists r. split; [done|]. split; [done|]. constructor; [congruence|done].
Qed.
Lemma take_2 a b (p : list Z) : take 2 p = [a; b] -> exists r, p = a :: b :: r.
Proof. destruct p as [|x [|y p]]; [done..|]. cbn. intros [= -> ->]. by exists p. Qed.

(** ** Words *)
Definition word_open (cs : list Z) (e : Z) (d : list Z) : list Z := str "=?" ++ cs ++ chr "?" :: e :: chr "?" :: d.
Definition encode_ok (e : Z) : Prop := ztoupper e = chr "B" \/ ztoupper e = chr "Q".
Definition no_word_end (d : list Z) : Prop := memmem (str "?=") d = None.
(** From [=?] on: the word read and what follows it. *)
Definition word_at (p : list Z) (mt : element2) (next : list Z) : Prop :=
  exists cs e d, mt = mk_element2 cs d (ztoupper e) /\ encode_ok e /\ Forall (.≠ chr "?") cs /\
    (p = word_open cs e (d ++ str "?=" ++ next) \/ (p = word_open cs e d /\ next = [] /\ d <> [])).

Lemma find_word_spec fuel : forall l, (length l < fuel)%nat ->
  exists r, find_word fuel l = Some r /\
    match r with None => True | Some (p, mt, next) => (exists x, l = x ++ p) /\ word_at p mt next end.
Proof.
  induction fuel as [|fuel IH]; intros l Hf; [lia|]. cbn [find_word].
  destruct (6 <? zlen l); cbn [negb]; [|by eexists].
  destruct (memmem (str "=?") l) as [[x p]|] eqn:Em; [|by eexists]. apply memmem_found in Em as [-> Hp].
  apply take_2 in Hp as [q ->]. destruct (zlen _ <? 6); [by eexists|].
  change (drop 2 (chr "=" :: chr "?" :: q)) with q. destruct (memchr (chr "?") q) as [[cs p]|] eqn:Ec; [|by eexists]. apply memchr_found in Ec as (r & -> & -> & Hcs).
  destruct (Z.ltb_spec (zlen (chr "?" :: r)) 3) as [|Hl]; [by eexists|].
  destruct r as [|e0 [|e1 r]]; [rewrite ?zlen_cons, ?zlen_nil in Hl; lia..|].
  change (rd (chr "?" :: e0 :: e1 :: r) 1) with (Some e0). change (rd (chr "?" :: e0 :: e1 :: r) 2) with (Some e1). cbn [mbind option_bind].
  destruct (negb _ && negb _ || negb _) eqn:Ebad.
  { destruct (IH (chr "?" :: e0 :: e1 :: r)) as (w & -> & Hw).
    - rewrite !length_app in Hf. cbn [length] in *. rewrite length_app in Hf. cbn [length] in Hf. lia.
    - eexists. split; [done|]. destruct w as [[[p mt] next]|]; [|done]. destruct Hw as [[y Hy] Hw]. split; [|done].
      exists (x ++ chr "=" :: chr "?" :: cs ++ y). rewrite Hy, <- !app_assoc. cbn [app]. by rewrite <- !app_assoc. }
  apply orb_false_iff in Ebad as [Eb E1%negb_false_iff]. apply Z.eqb_eq in E1 as ->.
  assert (He : encode_ok e0) by (unfold encode_ok; lia).
  change (drop 3 (chr "?" :: e0 :: chr "?" :: r)) with r.
  destruct (bool_decide_reflect (r = [])) as [->|Hr]; [by eexists|].
  destruct (memmem (str "?=") r) as [[d p]|] eqn:Ed.
  - apply memmem_found in Ed as [-> Hp]. apply take_2 in Hp as [next ->]. eexists. split; [done|]. split; [by exists x|].
    exists cs, e0, d. split; [done|]. split; [done|]. split; [done|]. by left.
  - eexists. split; [done|]. split; [by exists x|]. exists cs, e0, r. split; [done|]. split; [done|]. split; [done|]. by right.
Qed.

(** The loop without the array. *)
Definition plain_opt (l : list Z) : list element2 := if bool_decide (l = []) then [] else [plain_piece l].
Fixpoint words_of (fuel : nat) (ps : list Z) : option (list element2) :=
  match fuel with
  | O => None
  | S fuel' =>
      if negb (6 <? zlen ps) then Some (plain_opt ps) else
      w ← find_word (S (length ps)) ps;
      match w with
      | None => Some (plain_opt ps)
      | Some (p_s, mt, ps_next) =>
          es ← words_of fuel' ps_next; Some (plain_opt (take (length ps - length p_s) ps) ++ mt :: es)
      end
  end.

(** ** The pieces cover the line *)
Inductive cut : list Z -> list element2 -> Prop :=
  | cut_rest l : cut l (plain_opt l)
  | cut_word front cs e d r es : encode_ok e -> Forall (.≠ chr "?") cs -> cut r es ->
      cut (front ++ word_open cs e (d ++ str "?=" ++ r)) (plain_opt front ++ mk_element2 cs d (ztoupper e) :: es)
  | cut_open front cs e d : encode_ok e -> Forall (.≠ chr "?") cs -> d <> [] ->
      cut (front ++ word_open cs e d) (plain_opt front ++ [mk_element2 cs d (ztoupper e)]).

Lemma word_at_len p mt next : word_at p mt next -> (length next + 2 <= length p)%nat.
Proof.
  intros (cs & e & d & _ & _ & _ & [->|(-> & -> & _)]); unfold word_open; rewrite !length_app; cbn; rewrite ?length_app; cbn;
    rewrite ?length_app; cbn; lia.
Qed.
Lemma words_of_cut fuel : forall ps, (length ps < fuel)%nat -> exists es, words_of fuel ps = Some es /\ cut ps es.
Proof.
  induction fuel as [|fuel IH]; intros ps Hf; [lia|]. cbn [words_of].
  destruct (negb _); [eexists; split; [done|apply cut_rest]|].
  destruct (find_word_spec (S (length ps)) ps ltac:(lia)) as (w & -> & Hw). cbn [mbind option_bind].
  destruct w as [[[p mt] next]|]; [|eexists; split; [done|apply cut_rest]]. destruct Hw as [[x ->] Hw].
  pose proof (word_at_len _ _ _ Hw). rewrite length_app in Hf. destruct (IH next ltac:(lia)) as (es & -> & Hes). cbn [mbind option_bind].
  eexists. split; [done|]. rewrite take_app_length' by (rewrite length_app; lia).
  destruct Hw as (cs & e & d & -> & He & Hcs & [->|(-> & -> & Hd)]); [by apply cut_word|].
  inversion Hes as [l E1 E2|front ? ? ? ? ? ? ? ? E1|front ? ? ? ? ? ? E1].
  - by apply cut_open.
  - exfalso. by destruct front.
  - exfalso. by destruct front.
Qed.

(** ** The array is large enough *)
(** How often "=?" occurs. *)
Fixpoint occ (l : list Z) : Z :=
  match l with
  | [] => 0
  | c :: l' => (if (c =? chr "=") && bool_decide (head l' = Some (chr "?")) then 1 else 0) + occ l'
  end.
Lemma occ_nonneg l : 0 <= occ l.
Proof. induction l as [|c l IH]; cbn; [done|]. destruct (_ && _); lia. Qed.
Lemma occ_app x l : occ l <= occ (x ++ l).
Proof. induction x as [|c x IH]; cbn [app occ]; [done|]. destruct (_ && _); lia. Qed.
Lemma occ_cons c l : occ (c :: l) = (if (c =? chr "=") && bool_decide (head l = Some (chr "?")) then 1 else 0) + occ l.
Proof. done. Qed.
Lemma occ_prefix l r : occ l <= occ (l ++ r).
Proof.
  induction l as [|c l IH]; [apply occ_nonneg|]. change ((c :: l) ++ r) with (c :: l ++ r). rewrite !occ_cons.
  assert (H : head l = Some (chr "?") -> head (l ++ r) = Some (chr "?")) by (by destruct l).
  destruct (c =? chr "="); cbn [andb]; [|lia].
  destruct (bool_decide_reflect (head l = Some (chr "?"))) as [E|_]; [rewrite (bool_decide_eq_true_2 _ (H E)); lia|].
  destruct (bool_decide _); lia.
Qed.
Lemma occ_open cs e d : 1 + occ d <= occ (word_open cs e d).
Proof.
  unfold word_open. change (str "=?" ++ ?l) with (chr "=" :: chr "?" :: l). cbn [occ].
  change ((chr "=" =? chr "=") && bool_decide (head (chr "?" :: cs ++ chr "?" :: e :: chr "?" :: d) = Some (chr "?"))) with true.
  change (chr "?" =? chr "=") with false. cbn [andb].
  pose proof (occ_app (cs ++ [chr "?"; e; chr "?"]) d) as H. rewrite <- app_assoc in H. cbn [app] in H. lia.
Qed.
Lemma zlen_plain_opt l : zlen (plain_opt l) <= 1.
Proof. unfold plain_opt. by destruct (bool_decide _). Qed.
Lemma cut_count l es : cut l es -> zlen es <= 2 * occ l + 1.
Proof.
  induction 1 as [l|front cs e d r es _ _ _ IH|front cs e d _ _ _].
  - pose proof (zlen_plain_opt l). pose proof (occ_nonneg l). lia.
  - pose proof (zlen_plain_opt front). rewrite zlen_app, zlen_cons.
    pose proof (occ_app front (word_open cs e (d ++ str "?=" ++ r))). pose proof (occ_open cs e (d ++ str "?=" ++ r)).
    pose proof (occ_app (d ++ str "?=") r) as H3. rewrite <- app_assoc in H3. lia.
  - pose proof (zlen_plain_opt front). rewrite zlen_app, zlen_cons, zlen_nil.
    pose proof (occ_app front (word_open cs e d)). pose proof (occ_open cs e d). pose proof (occ_nonneg d). lia.
Qed.

(** The loop that counts finds them all; it reads one byte more. *)
Lemma count_words_spec n : forall p, (n < length p)%nat -> exists c, count_words n p = Some c /\ occ (take (S n) p) <= c.
Proof.
  induction n as [n IH] using (induction_ltof1 _ (fun n => n)). unfold ltof in IH. intros p Hp.
  destruct n as [|n]; [exists 0; split; [done|]; destruct p as [|c p]; [done|]; cbn; by rewrite andb_false_r|].
  destruct p as [|c p]; [cbn in Hp; lia|]. cbn [count_words]. cbn [length] in Hp.
  assert (Hskip : exists k, count_words n p = Some k /\ occ (take (S n) p) <= k) by (apply IH; lia).
  change (occ (take (S (S n)) (c :: p))) with ((if (c =? chr "=") && bool_decide (head (take (S n) p) = Some (chr "?")) then 1 else 0) + occ (take (S n) p)).
  destruct (c =? chr "="); cbn [negb andb]; [|done].
  destruct p as [|c1 p]; [cbn in Hp; lia|]. rewrite rd_0. cbn [mbind option_bind]. change (head (take (S n) (c1 :: p))) with (Some c1).
  destruct (Z.eqb_spec c1 (chr "?")) as [->|Hne]; cbn [negb].
  2: { rewrite bool_decide_eq_false_2 by congruence. done. }
  rewrite bool_decide_eq_true_2 by done.
  change (occ (take (S n) (chr "?" :: p))) with (0 + occ (take n p)).
  destruct n as [|n].
  - exists 1. split; [done|]. by destruct p.
  - destruct (IH n ltac:(lia) p ltac:(cbn in Hp; lia)) as (k & -> & Hk). cbn [mbind option_bind]. eexists. split; [done|]. lia.
Qed.
Lemma put_element_fits max acc e : zlen acc < max -> put_element max acc e = Some (acc ++ [e]).
Proof. intros H. unfold put_element. by rewrite (proj2 (Z.ltb_lt _ _) H). Qed.
Lemma put_plain_fits max acc l : zlen acc + zlen (plain_opt l) <= max ->
  (if bool_decide (l = []) then Some acc else put_element max acc (plain_piece l)) = Some (acc ++ plain_opt l).
Proof.
  unfold plain_opt. destruct (bool_decide (l = [])); [by rewrite app_nil_r|]. rewrite zlen_cons, zlen_nil. intros H.
  apply put_element_fits. lia.
Qed.
Lemma words_loop_fits fuel : forall max ps acc es, words_of fuel ps = Some es -> zlen acc + zlen es <= max ->
  words_loop fuel max ps acc = Some (acc ++ es).
Proof.
  induction fuel as [|fuel IH]; intros max ps acc es; cbn [words_of words_loop]; [done|].
  destruct (negb _); [intros [= <-] Hm; by apply put_plain_fits|].
  destruct (find_word _ ps) as [[[[p mt] next]|]|]; cbn [mbind option_bind]; [|intros [= <-] Hm; by apply put_plain_fits|done].
  destruct (words_of fuel next) as [es'|] eqn:E; [|done]. intros [= <-]. rewrite zlen_app, zlen_cons. intros Hm. zlen_facts.
  rewrite put_plain_fits by lia. cbn [mbind option_bind]. rewrite put_element_fits by (rewrite zlen_app; lia). cbn [mbind option_bind].
  rewrite (IH max next _ es' E) by (rewrite !zlen_app, zlen_cons, zlen_nil; lia). by rewrite <- !app_assoc.
Qed.
Definition line_words (l : list Z) : list element2 := default [] (words_of (S (length l)) l).
Lemma line_words_cut l : cut l (line_words l) /\ words_of (S (length l)) l = Some (line_words l).
Proof. unfold line_words. by destruct (words_of_cut (S (length l)) l ltac:(lia)) as (es & -> & ?). Qed.
Lemma element_vector_inner_runs l extra max : l <> [] -> 2 * occ l + 1 <= max ->
  zmime_header_line_get_element_vector_inner (l ++ extra) (zlen l) max = Some (line_words l).
Proof.
  intros Hl Hm. unfold zmime_header_line_get_element_vector_inner. rewrite in_bytes_app. cbn [mbind option_bind].
  destruct l as [|c l]; [done|]. pose proof (zlen_nonneg l). rewrite (proj2 (Z.ltb_ge (zlen (c :: l)) 1)) by (rewrite zlen_cons; lia).
  destruct (line_words_cut (c :: l)) as [Hc E]. apply cut_count in Hc.
  by rewrite (words_loop_fits _ max (c :: l) [] _ E) by (rewrite zlen_nil; lia).
Qed.
Lemma header_element_total mt : bytes_ok (e2_charset mt) -> header_element_of mt =
  Some (mk_header_element (if bool_decide (e2_charset mt = []) then None else Some (ztolower <$> take_while (fun c => negb (c =? 0)) (e2_charset mt)))
    (e2_data mt) (e2_encode mt)).
Proof.
  intros Hb. unfold header_element_of. destruct (e2_charset mt) as [|c cs] eqn:E; [done|].
  pose proof (zlen_nonneg cs). rewrite (proj2 (Z.eqb_neq (zlen (c :: cs)) 0)) by (rewrite zlen_cons; lia). rewrite bool_decide_eq_false_2 by done.
  assert (Hlow : forall x, bytes_ok x -> exists r, zstr_tolower (x ++ [0]) = Some ((ztolower <$> take_while (fun c => negb (c =? 0)) x) ++ 0 :: r) /\
    Forall (.≠ 0) (ztolower <$> take_while (fun c => negb (c =? 0)) x)).
  { clear. unfold zstr_tolower. induction 1 as [|c x Hc _ (r & IH & Hn)]; [by exists []|]. cbn [app map_string take_while].
    destruct (Z.eqb_spec c 0) as [->|Hne]; cbn [negb]; [by exists (x ++ [0])|]. rewrite IH. exists r. split; [done|].
    rewrite fmap_cons. constructor; [|done]. assert (H : text_ok (ztolower <$> [c])) by (apply ztolower_text; constructor; [unfold byte_ok in Hc; lia|done]).
    apply Forall_cons in H as [H _]. lia. }
  destruct (Hlow _ Hb) as (r & Er & Hn). rewrite Er. cbn [mbind option_bind]. by rewrite cstr_app.
Qed.
Lemma cut_bytes l es : cut l es -> bytes_ok l -> Forall (fun mt => bytes_ok (e2_charset mt) /\ bytes_ok (e2_data mt)) es.
Proof.
  assert (Hp : forall l, bytes_ok l -> Forall (fun mt => bytes_ok (e2_charset mt) /\ bytes_ok (e2_data mt)) (plain_opt l)).
  { intros x Hx. unfold plain_opt. destruct (bool_decide _); repeat constructor. done. }
  induction 1 as [l|front cs e d r es _ _ _ IH|front cs e d _ _ _]; intros Hb; [auto|..].
  - apply Forall_app in Hb as [Hfr Hb]. unfold word_open in Hb. repeat (apply Forall_app in Hb as [? Hb] || apply Forall_cons in Hb as [? Hb]).
    apply Forall_app. split; [auto|]. constructor; [done|]. by apply IH.
  - apply Forall_app in Hb as [Hfr Hb]. unfold word_open in Hb. repeat (apply Forall_app in Hb as [? Hb] || apply Forall_cons in Hb as [? Hb]).
    apply Forall_app. split; [auto|]. by constructor.
Qed.

(** ** A line from its pieces *)
Inductive hpiece := HPlain (t : list Z) | HWord (cs : list Z) (e : Z) (d : list Z).
Definition piece_text (p : hpiece) : list Z :=
  match p with HPlain t => t | HWord cs e d => word_open cs e (d ++ str "?=") end.
Definition line_text (ps : list hpiece) : list Z := ps ≫= piece_text.
Definition piece_element (p : hpiece) : element2 :=
  match p with HPlain t => plain_piece t | HWord cs e d => mk_element2 cs d (ztoupper e) end.
Definition no_word_start (t : list Z) : Prop := memmem (str "=?") t = None.
Definition piece_ok (p : hpiece) : Prop :=
  match p with
  | HPlain t => t <> [] /\ no_word_start t
  | HWord cs e d => encode_ok e /\ Forall (.≠ chr "?") cs /\ no_word_end d
  end.
Definition is_plain (p : hpiece) : bool := match p with HPlain _ => true | HWord _ _ _ => false end.
(** Two plain pieces in a row are one. *)
Fixpoint pieces_ok (ps : list hpiece) : Prop :=
  match ps with
  | [] => True
  | p :: ps' => piece_ok p /\ (is_plain p = true -> forall q, head ps' = Some q -> is_plain q = false) /\ pieces_ok ps'
  end.

Lemma memmem_app a b x r : a <> b -> memmem [a; b] x = None -> memmem [a; b] (x ++ a :: b :: r) = Some (x, a :: b :: r).
Proof.
  intros Hab. induction x as [|c x IH]; cbn [app memmem].
  - intros _. by rewrite bool_decide_eq_true_2.
  - destruct (bool_decide_reflect (take (length [a; b]) (c :: x) = [a; b])) as [|Hne]; [done|].
    destruct (memmem [a; b] x) as [|]; [done|]. intros _. rewrite bool_decide_eq_false_2, IH by (done || (destruct x as [|d x]; [by intros [= _ ?]|done])).
    done.
Qed.
Lemma find_word_at fuel x cs e d r : no_word_start x -> piece_ok (HWord cs e d) ->
  find_word (S fuel) (x ++ word_open cs e (d ++ str "?=" ++ r)) =
  Some (Some (word_open cs e (d ++ str "?=" ++ r), mk_element2 cs d (ztoupper e), r)).
Proof.
  intros Hx (He & Hcs & Hd). cbn [find_word].
  assert (Hl : 6 < zlen (word_open cs e (d ++ str "?=" ++ r))).
  { unfold word_open. rewrite !zlen_app, !zlen_cons, !zlen_app, !zlen_cons, zlen_nil. pose proof (zlen_nonneg cs).
    pose proof (zlen_nonneg d). pose proof (zlen_nonneg r). lia. }
  rewrite zlen_app. pose proof (zlen_nonneg x). rewrite (proj2 (Z.ltb_lt 6 _)) by lia. cbn [negb].
  change (word_open cs e (d ++ str "?=" ++ r)) with (chr "=" :: chr "?" :: cs ++ chr "?" :: e :: chr "?" :: d ++ str "?=" ++ r) in *.
  rewrite memmem_app by done. rewrite (proj2 (Z.ltb_ge _ 6)) by lia. 
  match goal with |- context [drop 2 (61 :: 63 :: ?q)] => change (drop 2 (61 :: 63 :: q)) with q end.
  unfold memchr. rewrite until_app; [| |by rewrite Z.eqb_refl].
  2: { eapply Forall_impl; [exact Hcs|]. intros c Hc. apply Z.eqb_neq. congruence. }
  rewrite (proj2 (Z.ltb_ge _ 3)).
  2: { rewrite !zlen_cons, zlen_app. pose proof (zlen_nonneg d). pose proof (zlen_nonneg (str "?=" ++ r)). lia. }
  match goal with |- context [rd (63 :: e :: 63 :: ?q) 1] => change (rd (chr "?" :: e :: chr "?" :: q) 1) with (Some e);
    change (rd (chr "?" :: e :: chr "?" :: q) 2) with (Some (chr "?")); change (drop 3 (chr "?" :: e :: chr "?" :: q)) with q end.
  cbn [mbind option_bind]. change (chr "?" =? chr "?") with true. cbn [negb]. rewrite orb_false_r.
  assert (negb (ztoupper e =? chr "B") && negb (ztoupper e =? chr "Q") = false) as -> by (unfold encode_ok in He; lia).
  rewrite bool_decide_eq_false_2 by (by destruct d). change (str "?=" ++ r) with (chr "?" :: chr "=" :: r). rewrite (memmem_app (chr "?") (chr "=")) by done. done.
Qed.
Lemma find_word_none fuel x : no_word_start x -> find_word (S fuel) x = Some None.
Proof. intros Hx. cbn [find_word]. destruct (negb _); [done|]. by rewrite Hx. Qed.
Lemma words_of_word fuel x cs e d r es : no_word_start x -> piece_ok (HWord cs e d) -> words_of fuel r = Some es ->
  words_of (S fuel) (x ++ word_open cs e (d ++ str "?=" ++ r)) = Some (plain_opt x ++ mk_element2 cs d (ztoupper e) :: es).
Proof.
  intros Hx Hw Hr. cbn [words_of]. rewrite (proj2 (Z.ltb_lt 6 _)).
  2: { unfold word_open. rewrite !zlen_app, !zlen_cons, !zlen_app, !zlen_cons, zlen_nil. pose proof (zlen_nonneg cs).
    pose proof (zlen_nonneg d). pose proof (zlen_nonneg r). pose proof (zlen_nonneg x). lia. }
  cbn [negb]. rewrite find_word_at by done. cbn [mbind option_bind]. rewrite Hr. cbn [mbind option_bind].
  rewrite take_app_length' by (rewrite length_app; lia). done.
Qed.
Lemma line_text_cons p ps : line_text (p :: ps) = piece_text p ++ line_text ps.
Proof. done. Qed.
Lemma word_open_app cs e d r : word_open cs e d ++ r = word_open cs e (d ++ r).
Proof. unfold word_open. rewrite <- !app_assoc. cbn [app]. by rewrite <- ?app_assoc. Qed.
Lemma word_text_app cs e d r : word_open cs e (d ++ str "?=") ++ r = word_open cs e (d ++ str "?=" ++ r).
Proof. by rewrite word_open_app, <- app_assoc. Qed.
Lemma words_of_text ps : forall fuel, (length (line_text ps) < fuel)%nat -> pieces_ok ps ->
  words_of fuel (line_text ps) = Some (piece_element <$> ps).
Proof.
  induction ps as [ps IH] using (induction_ltof1 _ (@length hpiece)). unfold ltof in IH. intros fuel Hf Hok.
  destruct fuel as [|fuel]; [lia|]. destruct ps as [|[t|cs e d] ps]; [done| |]; destruct Hok as (Hp & Hadj & Hok); rewrite line_text_cons in *;
    cbn [piece_text] in *.
  - destruct Hp as [Hne Ht]. destruct ps as [|[t'|cs e d] ps].
    + cbn [line_text mbind list_bind]. rewrite app_nil_r. cbn [words_of]. assert (Hpl : plain_opt t = [plain_piece t]) by (unfold plain_opt; by rewrite bool_decide_eq_false_2).
      rewrite Hpl, find_word_none by done. by destruct (negb _).
    + by specialize (Hadj eq_refl _ eq_refl).
    + rewrite line_text_cons in *. cbn [piece_text] in *. rewrite word_text_app in *. destruct Hok as (Hw & _ & Hok).
      rewrite (words_of_word fuel t cs e d _ (piece_element <$> ps)); try done.
      * unfold plain_opt. by rewrite bool_decide_eq_false_2.
      * apply IH; [cbn; lia| |done]. rewrite length_app in Hf. unfold word_open in Hf. rewrite !length_app in Hf. cbn [length] in Hf.
        rewrite !length_app in Hf. cbn [length] in Hf. lia.
  - rewrite word_text_app in *. rewrite <- (app_nil_l (word_open _ _ _)).
    rewrite (words_of_word fuel [] cs e d _ (piece_element <$> ps)); try done.
    apply IH; [cbn; lia| |done]. unfold word_open in Hf. rewrite !length_app in Hf. cbn [length] in Hf.
    rewrite !length_app in Hf. cbn [length] in Hf. lia.
Qed.
Lemma line_words_text ps : pieces_ok ps -> line_words (line_text ps) = piece_element <$> ps.
Proof. intros H. unfold line_words. by rewrite words_of_text by (lia || done). Qed.
