(* ===== verification/MimeDecode.v ===== *)
(** * Encoded words in header lines: what they decode to

    The conversion to UTF-8 is a function [utf8] of the charset and the bytes
    ([CharsetLaws]). The plain pieces of a line and the words that belong together
    are converted one after the other. *)
From S2P Require Import Prelude Chars Buf Base64 QuotedPrintable Text Scan UrlVars Mime MimeWords.

Class CharsetLaws `{!Charsets} (utf8 : option (list Z) -> list Z -> list Z) : Prop :=
  utf8_runs : forall cs d b, bytes_ok d -> d <> [] -> zlen d + 1 < 2 ^ 29 -> zlen (utf8 cs d) + 1 < 2 ^ 29 -> Buf.holds None [] b ->
    runs (zmime_iconv ((fun x => x ++ [0]) <$> cs) d (zlen d) b) (Buf.holds None (utf8 cs d)).

(** ** Without buffers *)
Definition same_charset_b (mt mtn : element2) : bool := default false (same_charset mt mtn).
Fixpoint joined (mt : element2) (mtns : list element2) : list Z * list element2 :=
  match mtns with
  | [] => ([], [])
  | mtn :: mtns' =>
      if e2_encode mtn =? 0 then if blank_piece mtn then joined mt mtns' else ([], mtns)
      else if same_charset_b mt mtn then let r := joined mt mtns' in (e2_data mtn ++ r.1, r.2) else ([], mtns)
  end.
Definition decoded (encode : Z) (d : list Z) : list Z := if encode =? chr "B" then b64_dec (b64_clean d) else qp2047_dec d.
(** What is converted together, with its charset. *)
Fixpoint groups (fuel : nat) (def : option (list Z)) (mts : list element2) : list (option (list Z) * list Z) :=
  match fuel, mts with
  | O, _ | _, [] => []
  | S fuel', mt :: mtns =>
      if bool_decide (e2_data mt = []) then groups fuel' def mtns
      else if negb (e2_encode mt =? chr "B") && negb (e2_encode mt =? chr "Q") then (def, e2_data mt) :: groups fuel' def mtns
      else
        let r := joined mt mtns in
        let d := decoded (e2_encode mt) (e2_data mt ++ r.1) in
        (if bool_decide (d = []) then [] else [(Some (take 32 (e2_charset mt)), d)]) ++ groups fuel' def r.2
  end.
Definition groups_of (def : option (list Z)) (mts : list element2) := groups (S (length mts)) def mts.
Definition groups_text (utf8 : option (list Z) -> list Z -> list Z) (gs : list (option (list Z) * list Z)) : list Z :=
  gs ≫= (fun g => utf8 g.1 g.2).
Definition data_len (mts : list element2) : Z := zlen (mts ≫= e2_data).

Lemma strncaseeq_total a : forall b, length a = length b -> is_Some (strncaseeq a b (length a)).
Proof.
  induction a as [|x a IH]; intros [|y b] H; cbn in *; try done. destruct (_ =? _); [|by eexists].
  destruct (x =? 0); [by eexists|]. apply IH. lia.
Qed.
Lemma same_charset_total mt mtn : same_charset mt mtn = Some (same_charset_b mt mtn).
Proof.
  unfold same_charset_b. assert (H : is_Some (same_charset mt mtn)); [|by destruct H as [b ->]]. unfold same_charset.
  destruct (e2_charset mt) as [|c cs]; [cbn; by eexists|]. destruct (negb _); [by eexists|].
  rewrite rd_0. cbn [mbind option_bind]. destruct (c =? 0); [by eexists|].
  destruct (Z.eqb_spec (zlen (c :: cs)) (zlen (e2_charset mtn))) as [E|]; cbn [negb]; [|by eexists].
  destruct (e2_charset mtn) as [|d ds]; [rewrite zlen_cons, zlen_nil in E; zlen_facts; lia|]. rewrite rd_0. cbn [mbind option_bind].
  destruct (d =? 0); [by eexists|]. apply strncaseeq_total. unfold zlen in E. lia.
Qed.
Lemma joined_len mt mtns : zlen (joined mt mtns).1 + data_len (joined mt mtns).2 <= data_len mtns /\ (length (joined mt mtns).2 <= length mtns)%nat.
Proof.
  induction mtns as [|mtn mtns [IH1 IH2]]; [done|]. cbn [joined].
  assert (E : data_len (mtn :: mtns) = zlen (e2_data mtn) + data_len mtns) by (unfold data_len; cbn; by rewrite zlen_app).
  zlen_facts. cbn [length]. destruct (_ =? 0); [destruct (blank_piece mtn)|destruct (same_charset_b mt mtn)]; cbn [fst snd length]; rewrite ?zlen_app, ?zlen_nil, ?E; lia.
Qed.
Lemma joined_bytes mt mtns : Forall (fun m => bytes_ok (e2_data m)) mtns ->
  bytes_ok (joined mt mtns).1 /\ Forall (fun m => bytes_ok (e2_data m)) (joined mt mtns).2.
Proof.
  induction 1 as [|mtn mtns Hm Hms [IH1 IH2]]; [done|]. cbn [joined].
  destruct (_ =? 0); [destruct (blank_piece mtn)|destruct (same_charset_b mt mtn)]; cbn [fst snd]; auto.
  split; [|done]. by apply Forall_app.
Qed.
Lemma join_words_runs mt mtns : forall b x, holds None x b -> Forall (fun m => bytes_ok (e2_data m)) mtns ->
  zlen x + data_len mtns + 1 < 2 ^ 29 ->
  runs (join_words mt mtns b) (fun r => holds None (x ++ (joined mt mtns).1) r.1 /\ r.2 = (joined mt mtns).2).
Proof.
  induction mtns as [|mtn mtns IH]; intros b x Hb Hms Hl; cbn [join_words joined]; [apply runs_ret; by rewrite app_nil_r|].
  apply Forall_cons in Hms as [Hm Hms]. assert (E : data_len (mtn :: mtns) = zlen (e2_data mtn) + data_len mtns) by (unfold data_len; cbn; by rewrite zlen_app).
  rewrite E in Hl. pose proof (zlen_nonneg (e2_data mtn)). pose proof (zlen_nonneg (mtns ≫= e2_data)) as Hd. fold (data_len mtns) in Hd. zlen_facts.
  destruct (_ =? 0); [destruct (blank_piece mtn); [apply IH; [done..|lia]|apply runs_ret; by rewrite app_nil_r]|].
  rewrite same_charset_total. cbn [mbind option_bind]. destruct (same_charset_b mt mtn); [|apply runs_ret; by rewrite app_nil_r].
  eapply runs_bind; [apply (appends_bytes (e2_data mtn) Hm ltac:(unfold int_max; lia) None b x Hb); cbn; lia|]. cbn [clip]. intros b' Hb'.
  eapply runs_mono; [apply (IH b' _ Hb' Hms); rewrite zlen_app; lia|]. cbn [fst snd]. intros r. by rewrite <- app_assoc.
Qed.
Lemma qp2047_dec_length l : zlen (qp2047_dec l) <= zlen l.
Proof.
  induction l as [l IH] using (induction_ltof1 _ (@length Z)). unfold ltof in IH. destruct l as [|c0 l]; [done|]. cbn [qp2047_dec].
  destruct (_ =? _); [pose proof (IH l ltac:(cbn; lia)); rewrite !zlen_cons; lia|].
  destruct (negb _); [pose proof (IH l ltac:(cbn; lia)); rewrite !zlen_cons; lia|].
  destruct l as [|c1 [|c2 l]]; rewrite ?zlen_nil; zlen_facts; try lia. pose proof (IH l ltac:(cbn; lia)). rewrite !zlen_cons. lia.
Qed.
Lemma decoded_length e d : zlen (decoded e d) <= zlen d.
Proof.
  unfold decoded. destruct (_ =? _); [|apply qp2047_dec_length].
  pose proof (b64_dec_length (b64_clean d)). pose proof (b64_clean_length d). zlen_facts. lia.
Qed.
Lemma decode_runs e d b x : holds None x b -> bytes_ok d -> zlen d + 1 < 2 ^ 29 ->
  runs (b ← zbuf_reset b; if e =? chr "B" then zbase64_decode d (zlen d) b else zqp_decode_2047 d (zlen d) b) (holds None (decoded e d)).
Proof.
  intros Hb Hd Hl. pose proof (decoded_length e d) as Hdl.
  eapply runs_bind; [apply (zbuf_reset_holds None b x), Hb|]. intros b1 Hb1. unfold decoded in *. destruct (e =? chr "B").
  - apply (zbase64_decode_appends d (zlen d) d (in_bytes_full d) None b1 [] Hb1). cbn. rewrite zlen_nil. lia.
  - apply (zqp_decode_2047_appends d (zlen d) d (in_bytes_full d) Hd None b1 [] Hb1). cbn. rewrite zlen_nil. lia.
Qed.

(** ** The engine *)
Section engine.
Context `{CharsetLaws}.

(** A group: it is converted into the emptied buffer and appended. *)
Lemma convert_then {B} cs d result out x z (k : zbuf -> zbuf -> option B) Q :
  holds None x result -> holds None z out -> bytes_ok d -> d <> [] -> zlen d + 1 < 2 ^ 29 -> zlen x + zlen (utf8 cs d) + 1 < 2 ^ 29 ->
  (forall r o, holds None (x ++ utf8 cs d) r -> holds None (utf8 cs d) o -> runs (k r o) Q) ->
  runs (out ← zbuf_reset out; out ← zmime_iconv ((fun x => x ++ [0]) <$> cs) d (zlen d) out; result ← zbuf_append result out; k result out) Q.
Proof.
  intros Hx Hz Hd Hne Hl Hu Hk. zlen_facts.
  eapply runs_bind; [apply (zbuf_reset_holds None out z), Hz|]. intros out1 Hout1.
  eapply runs_bind; [apply (utf8_runs cs d out1); try done; lia|]. intros out2 Hout2.
  eapply runs_bind; [apply (appends_append None out2 (utf8 cs d) Hout2 ltac:(unfold int_max; lia) None result x Hx); cbn; lia|]. cbn [clip].
  intros r Hr. by apply Hk.
Qed.

Lemma data_len_cons mt mts : data_len (mt :: mts) = zlen (e2_data mt) + data_len mts.
Proof. unfold data_len. cbn. by rewrite zlen_app. Qed.
Lemma data_len_nonneg mts : 0 <= data_len mts.
Proof. apply zlen_nonneg. Qed.
Lemma groups_text_app a b : groups_text utf8 (a ++ b) = groups_text utf8 a ++ groups_text utf8 b.
Proof. unfold groups_text. apply bind_app. Qed.
(** The fuel does not matter when there is enough. *)
Lemma groups_fuel def n : forall m mts, (length mts < n)%nat -> (length mts < m)%nat -> groups n def mts = groups m def mts.
Proof.
  induction n as [|n IH]; intros [|m] mts Hn Hm; try lia. destruct mts as [|mt mts]; [done|]. cbn [length] in *. cbn [groups].
  pose proof (joined_len mt mts) as [_ Hj].
  rewrite (IH m mts), (IH m (joined mt mts).2) by lia. done.
Qed.
Lemma utf8_loop_runs fuel : forall def mts result bq out x y z, (length mts < fuel)%nat ->
  Forall (fun m => bytes_ok (e2_data m)) mts -> data_len mts + 1 < 2 ^ 29 ->
  holds None x result -> holds None y bq -> holds None z out ->
  zlen x + zlen (groups_text utf8 (groups fuel def mts)) + 1 < 2 ^ 29 ->
  runs (utf8_loop fuel ((fun x => x ++ [0]) <$> def) mts result bq out)
    (fun r => holds None (x ++ groups_text utf8 (groups fuel def mts)) r.1.1 /\ (exists y, holds None y r.1.2) /\ exists z, holds None z r.2).
Proof.
  induction fuel as [|fuel IH]; intros def mts result bq out x y z Hf Hb Hl Hx Hy Hz Hg; [lia|].
  destruct mts as [|mt mts]; cbn [utf8_loop groups] in *; [apply runs_ret; rewrite app_nil_r; eauto|].
  apply Forall_cons in Hb as [Hmt Hb]. rewrite data_len_cons in Hl. pose proof (data_len_nonneg mts). zlen_facts. cbn [length] in Hf.
  destruct (bool_decide_reflect (e2_data mt = [])) as [E0|Hne].
  { rewrite E0, zlen_nil. cbn [Z.eqb]. apply (IH def mts result bq out x y z); try done; lia. }
  rewrite (proj2 (Z.eqb_neq (zlen (e2_data mt)) 0)) by (by intros ?%zlen_inv_nil).
  destruct (negb _ && negb _).
  { change ((def, e2_data mt) :: groups fuel def mts) with ([(def, e2_data mt)] ++ groups fuel def mts) in *. rewrite groups_text_app, zlen_app in *.
    change (groups_text utf8 [(def, e2_data mt)]) with (utf8 def (e2_data mt) ++ []) in *. rewrite app_nil_r in *. zlen_facts.
    apply (convert_then def (e2_data mt) result out x z); try done; try lia. intros r o Hr Ho. rewrite app_assoc in *.
    apply (IH def mts r bq o _ y (utf8 def (e2_data mt)) ltac:(lia) Hb ltac:(lia) Hr Hy Ho). rewrite zlen_app. lia. }
  pose proof (joined_len mt mts) as [Hj Hjl]. pose proof (joined_bytes mt mts Hb) as [Hj1 Hj2].
  eapply runs_bind; [apply (zbuf_memcpy_holds None bq y (e2_data mt) (zlen (e2_data mt)) (e2_data mt));
    [apply Hy|unfold int_max; lia|apply in_bytes_full|done|done|cbn; lia]|]. cbn [clip]. intros bq1 Hq1.
  eapply runs_bind; [apply (join_words_runs mt mts bq1 _ Hq1 Hb); lia|]. intros [bq2 rest'] [Hq2 Erest]. cbn [fst snd] in *. subst rest'.
  destruct (joined mt mts) as [dj rest]. cbn [fst snd] in *. pose proof (data_len_nonneg rest). zlen_facts.
  set (d0 := e2_data mt ++ dj) in *. assert (Hd0 : zlen d0 = zlen (e2_data mt) + zlen dj) by apply zlen_app.
  assert (Hb0 : bytes_ok d0) by by apply Forall_app.
  eapply runs_bind; [apply (terminate_holds None bq2 d0), Hq2|]. intros bq3 Hq3. cbn beta in Hq3.
  rewrite (holds_bytes _ _ _ Hq3), (rep_len _ _ _ (proj1 Hq3)). cbn [mbind option_bind].
  destruct (decode_runs (e2_encode mt) d0 out z Hz Hb0 ltac:(lia)) as (o1 & E1 & Ho1).
  destruct (zbuf_reset out) as [out1|]; [|done]. cbn [mbind option_bind] in E1 |- *. rewrite E1. cbn [mbind option_bind].
  pose proof (decoded_length (e2_encode mt) d0) as Hdl. set (d := decoded (e2_encode mt) d0) in *. pose proof (zlen_nonneg d).
  rewrite (rep_len _ _ _ (proj1 Ho1)). assert (Hdb : bytes_ok d) by apply (rep_bytes _ _ _ (proj1 Ho1)).
  destruct (bool_decide_reflect (d = [])) as [Ed|Hdne].
  { rewrite Ed, zlen_nil in *. cbn [Z.ltb Z.compare app] in *. apply (IH def rest result bq3 o1 x d0 []); try done; lia. }
  rewrite (proj2 (Z.ltb_ge (zlen d) 1)) by (pose proof (zlen_nonneg d); assert (zlen d <> 0) by (by intros ?%zlen_inv_nil); lia).
  rewrite (holds_bytes _ _ _ Ho1). cbn [mbind option_bind].
  eapply runs_bind; [apply (zbuf_memcpy_holds None bq3 d0 d (zlen d) d);
    [apply Hq3|unfold int_max; lia|apply in_bytes_full|done|done|cbn; lia]|]. cbn [clip]. intros bq4 Hq4.
  rewrite (holds_bytes _ _ _ Hq4), (rep_len _ _ _ (proj1 Hq4)). cbn [mbind option_bind].
  rewrite groups_text_app, zlen_app in *. unfold groups_text at 1 in Hg. unfold groups_text at 1. cbn [mbind list_bind fst snd] in Hg |- *.
  rewrite app_nil_r in *. zlen_facts.
  apply (convert_then (Some (take 32 (e2_charset mt))) d result o1 x d); try done; try lia. intros r o Hr Ho. rewrite app_assoc in *.
  apply (IH def rest r bq4 o _ d (utf8 (Some (take 32 (e2_charset mt))) d) ltac:(lia) Hj2 ltac:(lia) Hr Hq4 Ho). rewrite zlen_app. lia.
Qed.

Lemma cut_data_len l es : cut l es -> data_len es <= zlen l.
Proof.
  assert (Hp : forall front, data_len (plain_opt front) <= zlen front).
  { intros x. unfold plain_opt. destruct (bool_decide _); [apply zlen_nonneg|]. unfold data_len. cbn. by rewrite app_nil_r. }
  assert (Happ : forall a b, data_len (a ++ b) = data_len a + data_len b) by (intros a b; unfold data_len; by rewrite bind_app, zlen_app).
  assert (Hw : forall cs e d, zlen d <= zlen (word_open cs e d)).
  { intros cs e d. unfold word_open. rewrite !zlen_app, !zlen_cons, ?zlen_nil. pose proof (zlen_nonneg cs). pose proof (zlen_nonneg (str "=?")). lia. }
  induction 1 as [l|front cs e d r es _ _ _ IH|front cs e d _ _ _]; [auto|..]; specialize (Hp front); rewrite Happ, data_len_cons, zlen_app; cbn [e2_data].
  - specialize (Hw cs e (d ++ str "?=" ++ r)). rewrite !zlen_app in Hw. pose proof (zlen_nonneg (str "?=")). lia.
  - specialize (Hw cs e d). change (data_len []) with 0. lia.
Qed.
Lemma utf8_engine_runs def l extra len result bq out x y z : bytes_ok l -> zlen l + 17 < 2 ^ 29 -> l <> [] ->
  (if len =? -1 then zlen <$> cstr (l ++ extra) else Some len) = Some (zlen l) ->
  holds None x result -> holds None y bq -> holds None z out ->
  zlen (groups_text utf8 (groups_of def (line_words l))) + 1 < 2 ^ 29 ->
  runs (zmime_header_line_get_utf8_engine ((fun x => x ++ [0]) <$> def) (l ++ extra) len result bq out)
    (fun r => holds None (groups_text utf8 (groups_of def (line_words l))) r.1.1 /\ (exists y, holds None y r.1.2) /\ exists z, holds None z r.2).
Proof.
  intros Hb Hl Hne Hlen Hr Hbq Hout Hg. zlen_facts. unfold zmime_header_line_get_utf8_engine.
  destruct (zbuf_reset_holds None result x (proj1 Hr)) as (r1 & -> & Hr1). cbn [mbind option_bind]. rewrite Hlen. cbn [mbind option_bind].
  assert (Hpos : 1 <= zlen l) by (destruct l as [|c0 l]; [done|]; rewrite zlen_cons; pose proof (zlen_nonneg l); lia).
  rewrite (proj2 (Z.ltb_ge (zlen l) 1)) by lia.
  destruct (count_words_spec (Z.to_nat (zlen l - 1)) (l ++ extra)) as (c & -> & Hc); [rewrite length_app; unfold zlen in *; lia|].
  cbn [mbind option_bind]. replace (S (Z.to_nat (zlen l - 1))) with (length l) in Hc by (unfold zlen in *; lia). rewrite take_app_length in Hc.
  rewrite (element_vector_inner_runs l extra (c * 2 + 10) Hne) by lia. cbn [mbind option_bind].
  destruct (line_words_cut l) as [Hcut _]. pose proof (cut_data_len _ _ Hcut).
  apply (utf8_loop_runs (S (length (line_words l))) def (line_words l) r1 bq out [] y z); try done; try lia.
  eapply Forall_impl; [by apply (cut_bytes l)|]. by intros m [_ ?].
Qed.
Lemma get_utf8_runs def l extra result x : bytes_ok l -> zlen l + 17 < 2 ^ 29 -> l <> [] -> holds None x result ->
  zlen (groups_text utf8 (groups_of def (line_words l))) + 1 < 2 ^ 29 ->
  runs (zmime_header_line_get_utf8 ((fun x => x ++ [0]) <$> def) (l ++ extra) (zlen l) result)
    (holds None (groups_text utf8 (groups_of def (line_words l)))).
Proof.
  intros Hb Hl Hne Hr Hg. zlen_facts. unfold zmime_header_line_get_utf8.
  rewrite (proj2 (Z.ltb_ge (zlen l) 0)) by lia. cbn [mbind option_bind].
  eapply runs_bind; [apply zbuf_create_holds; lia|]. intros bq Hbq.
  eapply runs_bind; [apply zbuf_create_holds; lia|]. intros out Hout.
  eapply runs_bind; [apply (utf8_engine_runs def l extra (zlen l) result bq out x [] []); try done|intros r [Hres _]; by apply runs_ret].
  by rewrite (proj2 (Z.eqb_neq (zlen l) (-1))) by lia.
Qed.
End engine.

(** ** A text in encoded words *)
(** The words of the chunks of a text, in one charset, blanks between them. *)
Fixpoint enc_words (cs blanks : list Z) (xs : list (list Z)) : list hpiece :=
  match xs with
  | [] => []
  | [x] => [HWord cs (chr "B") (b64 x)]
  | x :: xs' => HWord cs (chr "B") (b64 x) :: HPlain blanks :: enc_words cs blanks xs'
  end.
Definition charset_ok (cs : list Z) : Prop := Forall (fun c => 0 < c < 256 /\ c <> chr "?") cs /\ cs <> [].
Definition blanks_ok (l : list Z) : Prop := Forall (eq 32) l /\ l <> [].
Definition chunk_ok (x : list Z) : Prop := bytes_ok x /\ x <> [].

Lemma b64_char_range v : b64_char v -> 0 <= v < 256.
Proof. by intros [_ H]. Qed.
Lemma b64_no_end x : Forall (.≠ chr "?") (b64 x).
Proof.
  assert (Hd : forall v k, b64_digit v k <> chr "?").
  { intros v k. pose proof (b64_digit_in v k) as H. revert H. apply (proj1 (Forall_forall (.≠ chr "?") b64enc)).
    by vm_compute; repeat constructor. }
  unfold b64. induction x as [|a|a b|a b c l IH] using list_ind3; cbn [b64_quads concat]; rewrite ?app_nil_r; try (repeat constructor; (apply Hd || done)).
Qed.
Lemma memmem_head a b l : Forall (.≠ a) l -> memmem [a; b] l = None.
Proof.
  induction 1 as [|c l Hc _ IH]; [done|]. cbn [memmem]. rewrite bool_decide_eq_false_2, IH; [done|].
  destruct l; by intros [= ? _].
Qed.
Lemma b64_nonempty x : chunk_ok x -> b64 x <> [].
Proof. intros [_ Hx]. by destruct x as [|a [|b [|c x]]]. Qed.
Lemma enc_words_ok cs blanks xs : charset_ok cs -> blanks_ok blanks -> pieces_ok (enc_words cs blanks xs).
Proof.
  intros [Hcs _] [Hb Hbne].
  assert (Hw : forall x, piece_ok (HWord cs (chr "B") (b64 x))).
  { intros x. split; [by left|]. split; [eapply Forall_impl; [exact Hcs|]; by intros c [_ ?]|]. apply memmem_head, b64_no_end. }
  assert (Hp : piece_ok (HPlain blanks)).
  { split; [done|]. apply memmem_head. eapply Forall_impl; [exact Hb|]. by intros c <-. }
  induction xs as [|x [|y xs] IH]; [done| |].
  - split; [apply Hw|]. by split.
  - split; [apply Hw|]. split; [done|]. split; [done|]. split; [|exact IH]. intros _ q. by destruct xs; intros [= <-].
Qed.
Lemma same_charset_self cs d d' : charset_ok cs -> same_charset_b (mk_element2 cs d (chr "B")) (mk_element2 cs d' (chr "B")) = true.
Proof.
  intros [Hcs Hne]. unfold same_charset_b, same_charset. cbn [e2_charset e2_encode]. destruct cs as [|c cs]; [done|].
  rewrite (proj2 (Z.ltb_lt 0 _)) by (rewrite zlen_cons; pose proof (zlen_nonneg cs); lia). rewrite Z.eqb_refl. cbn [negb andb].
  rewrite !rd_0. cbn [mbind option_bind]. pose proof Hcs as [[Hc _] _]%Forall_cons. rewrite (proj2 (Z.eqb_neq c 0)) by lia. rewrite Z.eqb_refl. cbn [negb].
  assert (H : forall l, Forall (fun c => 0 < c < 256 /\ c <> chr "?") l -> strncaseeq l l (length l) = Some true).
  { clear. induction 1 as [|x l [Hx _] _ IH]; [done|]. cbn. rewrite Z.eqb_refl. by rewrite (proj2 (Z.eqb_neq x 0)) by lia. }
  by rewrite H.
Qed.
Lemma joined_words cs blanks xs d0 : charset_ok cs -> blanks_ok blanks -> 
  joined (mk_element2 cs d0 (chr "B")) (match xs with [] => [] | _ => plain_piece blanks :: (piece_element <$> enc_words cs blanks xs) end) =
  (concat (b64 <$> xs), []).
Proof.
  intros Hcs [Hb Hbne].
  assert (Hbl : blank_piece (plain_piece blanks) = true).
  { unfold blank_piece. cbn. clear Hbne. induction Hb as [|c l <- _ IH]; [done|]. by rewrite forallb_cons || (cbn; rewrite IH). }
  induction xs as [|x xs IH]; [done|]. cbn [joined]. change (e2_encode (plain_piece blanks) =? 0) with true. cbn match. rewrite Hbl.
  assert (E : piece_element <$> enc_words cs blanks (x :: xs) = mk_element2 cs (b64 x) (chr "B") ::
    match xs with [] => [] | _ => plain_piece blanks :: (piece_element <$> enc_words cs blanks xs) end) by (by destruct xs).
  rewrite E. cbn [joined]. change (e2_encode (mk_element2 cs (b64 x) (chr "B")) =? 0) with false. cbn match.
  rewrite same_charset_self by done. rewrite IH. done.
Qed.
Lemma groups_words cs blanks xs def : charset_ok cs -> blanks_ok blanks -> Forall chunk_ok xs -> xs <> [] ->
  groups_of def (piece_element <$> enc_words cs blanks xs) = [(Some (take 32 cs), concat xs)].
Proof.
  intros Hcs Hb Hxs Hne. destruct xs as [|x xs]; [done|].
  assert (E : piece_element <$> enc_words cs blanks (x :: xs) = mk_element2 cs (b64 x) (chr "B") ::
    match xs with [] => [] | _ => plain_piece blanks :: (piece_element <$> enc_words cs blanks xs) end) by (by destruct xs).
  rewrite E. unfold groups_of. cbn [length groups]. pose proof Hxs as [Hx _]%Forall_cons.
  rewrite bool_decide_eq_false_2 by (cbn; by apply b64_nonempty). change (negb (e2_encode (mk_element2 cs (b64 x) (chr "B")) =? chr "B")) with false. cbn [andb].
  rewrite joined_words by done. cbn [fst snd e2_data e2_charset e2_encode].
  assert (Hd : decoded (chr "B") (b64 x ++ concat (b64 <$> xs)) = concat (x :: xs)).
  { unfold decoded. rewrite Z.eqb_refl. change (b64 x ++ concat (b64 <$> xs)) with (concat (b64 <$> (x :: xs))).
    assert (Hcl : b64_clean (concat (b64 <$> (x :: xs))) = concat (b64 <$> (x :: xs))).
    { generalize (x :: xs). intros l. induction l as [|y l IH]; [done|]. cbn [fmap list_fmap concat].
      rewrite b64_clean_app, IH; [done|]. unfold b64. pose proof (b64_quads_ok y) as Hq. induction Hq as [|q qs (_ & Hq & _) _ IHq]; [done|].
      cbn [concat]. by rewrite forallb_app, Hq, IHq. }
    rewrite Hcl. clear -Hxs. induction Hxs as [|y l [Hy _] _ IH]; [done|]. cbn [fmap list_fmap concat]. by rewrite b64_dec_app, IH. }
  rewrite Hd, bool_decide_eq_false_2; [done|]. destruct Hx as [_ Hx]. by destruct x.
Qed.

(** The elements handed out: the charset in lower case, up to a NUL. *)
Definition element_of (mt : element2) : header_element :=
  mk_header_element (if bool_decide (e2_charset mt = []) then None else Some (ztolower <$> take_while (fun c => negb (c =? 0)) (e2_charset mt)))
    (e2_data mt) (e2_encode mt).
Lemma element_vector_runs l extra : bytes_ok l -> extra <> [] ->
  zmime_header_line_get_element_vector (l ++ extra) (zlen l) = Some (element_of <$> line_words l).
Proof.
  intros Hb He. unfold zmime_header_line_get_element_vector. rewrite in_bytes_app. cbn [mbind option_bind]. pose proof (zlen_nonneg l).
  destruct (line_words_cut l) as [Hc _]. rewrite (proj2 (Z.ltb_ge (zlen l) 0)) by lia.
  destruct (count_words_spec (Z.to_nat (zlen l)) (l ++ extra)) as (c & -> & Hcnt).
  { rewrite length_app, zlen_to_nat. destruct extra; [done|]. cbn. lia. }
  cbn [mbind option_bind].
  assert (Hle : occ l <= c).
  { etrans; [|exact Hcnt]. rewrite zlen_to_nat. replace (take (S (length l)) (l ++ extra)) with (l ++ take 1 extra); [apply occ_prefix|].
    rewrite take_app. replace (S (length l) - length l)%nat with 1%nat by lia. by rewrite (take_ge l) by lia. }
  assert (Hin : zmime_header_line_get_element_vector_inner (l ++ extra) (zlen l) (c * 2 + 10) = Some (line_words l)).
  { destruct l as [|d l]; [|by apply element_vector_inner_runs; [|lia]].
    unfold zmime_header_line_get_element_vector_inner. by rewrite in_bytes_app. }
  rewrite Hin. cbn [mbind option_bind]. apply mapM_Some_2, Forall2_fmap_r, Forall_Forall2_diag.
  eapply Forall_impl; [by apply (cut_bytes l)|]. intros mt [Hmt _]. by apply header_element_total.
Qed.

(** ** Theorems *)
(** C23: a header line is cut into plain pieces and encoded words that cover it in
    order: every byte belongs to a piece or to the marks of a word, no charset
    holds a '?', every word has the encoding B or Q; only the last may lack its
    end mark. [zmime_header_line_get_element_vector] takes any line that a byte
    follows, ends, and never overruns the array it allocates for the pieces from
    the number of start marks in the line. *)
Theorem zmime_element_vector_covers (l extra : list Z) : bytes_ok l -> extra <> [] -> exists es,
  zmime_header_line_get_element_vector (l ++ extra) (zlen l) = Some (element_of <$> es) /\ cut l es /\ zlen es <= 2 * occ l + 1.
Proof.
  intros Hb He. exists (line_words l). destruct (line_words_cut l) as [Hc _]. split; [by apply element_vector_runs|].
  split; [done|by apply cut_count].
Qed.

(** A header line put together from plain pieces and encoded words is cut into
    exactly these, whatever the charsets and the encoded bytes: the charset in
    lower case, the encoding B or Q. *)
Theorem zmime_element_vector_roundtrip (ps : list hpiece) (extra : list Z) :
  pieces_ok ps -> bytes_ok (line_text ps) -> extra <> [] ->
  zmime_header_line_get_element_vector (line_text ps ++ extra) (zlen (line_text ps)) = Some (element_of ∘ piece_element <$> ps).
Proof. intros Hok Hb He. rewrite element_vector_runs, line_words_text by done. by rewrite list_fmap_compose. Qed.

(** C21: a text that is not empty, cut into chunks anywhere, each chunk written in
    base64 as an encoded word of one charset and the words put apart by blanks: the
    line decodes to the text, converted to UTF-8 as a whole. *)
Theorem zmime_encoded_words_roundtrip `{CharsetLaws} (cs blanks : list Z) (xs : list (list Z)) (def : option (list Z))
    (extra x : list Z) (result : zbuf) :
  charset_ok cs -> blanks_ok blanks -> Forall chunk_ok xs -> xs <> [] ->
  bytes_ok (line_text (enc_words cs blanks xs)) -> zlen (line_text (enc_words cs blanks xs)) + 17 < 2 ^ 29 ->
  zlen (utf8 (Some (take 32 cs)) (concat xs)) + 1 < 2 ^ 29 -> Buf.holds None x result ->
  let line := line_text (enc_words cs blanks xs) in
  runs (zmime_header_line_get_utf8 ((fun x => x ++ [0]) <$> def) (line ++ extra) (zlen line) result)
    (Buf.holds None (utf8 (Some (take 32 cs)) (concat xs))).
Proof.
  intros Hcs Hb Hxs Hne Hby Hl Hu Hr line. pose proof (enc_words_ok cs blanks xs Hcs Hb) as Hok.
  pose proof (get_utf8_runs def line extra result x Hby Hl) as Hg. unfold line in *. rewrite line_words_text, groups_words in Hg by done.
  unfold groups_text in Hg. cbn [mbind list_bind fst snd] in Hg. rewrite app_nil_r in Hg. apply Hg; try done.
  destruct xs as [|y xs]; [done|]. unfold line_text. by destruct xs.
Qed.

(** ** Runs *)
(** A conversion to run it on: the bytes as they are. *)
Definition same_bytes : Charsets := fun _ d n b => zbuf_memcpy b d n.
#[local] Existing Instance same_bytes.
Lemma same_bytes_laws : CharsetLaws (fun _ d => d).
Proof.
  intros cs d b Hd _ Hl _ [Hb _]. zlen_facts. apply (zbuf_memcpy_holds None b []); try done; [unfold int_max; lia|apply in_bytes_full].
Qed.
#[local] Existing Instance same_bytes_laws.
Definition ex_pieces : list hpiece :=
  [HPlain (str "Re: "); HWord (str "UTF-8") (chr "q") (str "a_b"); HPlain (str " ="); HWord (str "gbk") (chr "B") []].
Lemma ex_pieces_ok : pieces_ok ex_pieces.
Proof.
  unfold ex_pieces. cbn [pieces_ok piece_ok is_plain head]. unfold encode_ok, no_word_start, no_word_end.
  repeat split; try done; try (by repeat constructor); try (by left); try (by right); by intros _ ? [= <-].
Qed.
Lemma zmime_element_vector_covers_witness : exists es,
  zmime_header_line_get_element_vector (str "a=?x?B?YQ" ++ [0]) 9 = Some (element_of <$> es) /\ cut (str "a=?x?B?YQ") es.
Proof.
  destruct (zmime_element_vector_covers (str "a=?x?B?YQ") [0]) as (es & E & Hc & _); [by repeat constructor|done|].
  exists es. split; [exact E|exact Hc].
Defined.
Lemma zmime_element_vector_roundtrip_witness :
  zmime_header_line_get_element_vector (str "Re: =?UTF-8?q?a_b?= ==?gbk?B??=" ++ [0]) 31 =
  Some [mk_header_element None (str "Re: ") 0; mk_header_element (Some (str "utf-8")) (str "a_b") (chr "Q");
    mk_header_element None (str " =") 0; mk_header_element (Some (str "gbk")) [] (chr "B")].
Proof. apply (zmime_element_vector_roundtrip ex_pieces [0] ex_pieces_ok); [by repeat constructor|done]. Defined.
Lemma zmime_encoded_words_roundtrip_witness : exists result,
  runs (zmime_header_line_get_utf8 None (str "=?utf-8?B?aGU=?=  =?utf-8?B?bGxv?=") 34 result) (Buf.holds None (str "hello")).
Proof.
  destruct (zbuf_create_holds 10 ltac:(done)) as (result & _ & Hr). exists result.
  apply (zmime_encoded_words_roundtrip (utf8 := fun _ d => d) (str "utf-8") (str "  ") [str "he"; str "llo"] None [] [] result); try done.
  - split; [by repeat constructor|done].
  - split; [by repeat constructor|done].
  - repeat constructor; done.
  - by repeat constructor.
Defined.
