(* ===== verification/MimeLine.v ===== *)
(** * Header lines: unfolding, the first token, RFC 2231 values *)
From S2P Require Import Prelude Chars Buf Hex Text Scan UrlVars Mime MimeDecode.

(** ** Unfolding *)
(** A line break and the blank after it go, and so do NULs and carriage returns
    elsewhere. *)
Fixpoint unfolded (l : list Z) : list Z :=
  match l with
  | [] => []
  | c :: l' =>
      if (c =? 0) || (c =? 13) then unfolded l'
      else if c =? 10 then
        match l' with
        | [] => []
        | c :: l' => if (c =? 9) || (c =? 32) then unfolded l' else 10 :: c :: unfolded l'
        end
      else c :: unfolded l'
  end.
Lemma unfolded_len l : zlen (unfolded l) <= zlen l.
Proof.
  induction l as [l IH] using (induction_ltof1 _ (@length Z)). unfold ltof in IH. destruct l as [|c l]; [done|]. cbn [unfolded].
  pose proof (IH l ltac:(cbn; lia)). destruct (_ || _); [rewrite zlen_cons; lia|]. destruct (c =? 10); [|rewrite !zlen_cons; lia].
  destruct l as [|c2 l]; [rewrite zlen_cons, zlen_nil; lia|]. pose proof (IH l ltac:(cbn; lia)).
  destruct (_ || _); rewrite !zlen_cons in *; lia.
Qed.
Lemma ZBUF_PUT_holds b x c : rep None b x -> byte_ok c -> zlen x + 2 < 2 ^ 29 -> runs (ZBUF_PUT b (s8 c)) (fun b' => rep None b' (x ++ [c])).
Proof.
  intros Hb Hc Hl. eapply runs_mono; [apply (ZBUF_PUT_runs None b x (s8 c) Hb); cbn; lia|].
  intros b' Hb'. by rewrite u8_s8, u8_id in Hb'.
Qed.
Lemma unescape_loop_runs l : forall b x, rep None b x -> bytes_ok l -> zlen x + zlen l + 2 < 2 ^ 29 ->
  runs (unescape_loop l b) (fun b' => rep None b' (x ++ unfolded l)).
Proof.
  induction l as [l IH] using (induction_ltof1 _ (@length Z)). unfold ltof in IH. intros b x Hb Hl Hn.
  destruct l as [|c l]; cbn [unescape_loop unfolded]; [apply runs_ret; by rewrite app_nil_r|].
  apply Forall_cons in Hl as [Hc Hl]. rewrite zlen_cons in Hn. zlen_facts.
  destruct (_ || _); [apply IH; [cbn; lia|done..|lia]|]. destruct (c =? 10).
  - destruct l as [|c2 l]; [apply runs_ret; by rewrite app_nil_r|]. apply Forall_cons in Hl as [Hc2 Hl]. rewrite zlen_cons in Hn. zlen_facts.
    destruct (_ || _); [apply IH; [cbn; lia|done..|lia]|].
    eapply runs_bind; [apply (ZBUF_PUT_holds b x 10 Hb); [unfold byte_ok; lia|lia]|]. intros b1 Hb1.
    eapply runs_bind; [apply (ZBUF_PUT_holds b1 _ c2 Hb1 Hc2); rewrite zlen_app, zlen_cons, zlen_nil; lia|]. intros b2 Hb2.
    eapply runs_mono; [apply (IH l ltac:(cbn; lia) b2 _ Hb2 Hl); rewrite !zlen_app, !zlen_cons, !zlen_nil; lia|]. intros b' Hb'. by rewrite <- !app_assoc in Hb'.
  - eapply runs_bind; [apply (ZBUF_PUT_holds b x c Hb Hc); lia|]. intros b1 Hb1.
    eapply runs_mono; [apply (IH l ltac:(cbn; lia) b1 _ Hb1 Hl); rewrite !zlen_app, !zlen_cons, !zlen_nil; lia|]. intros b' Hb'. by rewrite <- !app_assoc in Hb'.
Qed.
Lemma snoc_app {A} (pre : list A) x l : pre ++ x :: l = (pre ++ [x]) ++ l.
Proof. by rewrite <- app_assoc. Qed.
Lemma zlen_snoc {A} (pre : list A) x : zlen (pre ++ [x]) = zlen pre + 1.
Proof. by rewrite zlen_app. Qed.
Lemma unescape_inner_loop_runs l : forall pre dest, zlen l <= zlen dest ->
  exists rest, unescape_inner_loop l (pre ++ dest) (zlen pre) = Some (pre ++ (Some <$> unfolded l) ++ rest, zlen pre + zlen (unfolded l)) /\
    zlen (unfolded l) + zlen rest = zlen dest.
Proof.
  induction l as [l IH] using (induction_ltof1 _ (@length Z)). unfold ltof in IH. intros pre dest Hd.
  destruct l as [|c l]; cbn [unescape_inner_loop unfolded]; [exists dest; split; [by rewrite Z.add_0_r|done]|].
  rewrite zlen_cons in Hd. zlen_facts.
  destruct (_ || _); [apply IH; [cbn; lia|lia]|]. destruct (c =? 10).
  - destruct l as [|c2 l]; [exists dest; split; [by rewrite Z.add_0_r|done]|]. rewrite zlen_cons in Hd. zlen_facts.
    destruct (_ || _); [apply IH; [cbn; lia|lia]|].
    destruct dest as [|d0 [|d1 dest]]; [rewrite ?zlen_cons, ?zlen_nil in Hd; zlen_facts; lia..|]. rewrite !zlen_cons in Hd.
    rewrite wr_app, snoc_app. cbn [mbind option_bind]. rewrite <- (zlen_snoc pre (Some 10)), wr_app, snoc_app. cbn [mbind option_bind].
    destruct (IH l ltac:(cbn; lia) ((pre ++ [Some 10]) ++ [Some c2]) dest ltac:(lia)) as (rest & E & Hr).
    exists rest. replace (zlen pre + 2) with (zlen ((pre ++ [Some 10]) ++ [Some c2])) by (rewrite !zlen_snoc; lia). rewrite E.
    rewrite !zlen_snoc, !fmap_cons, !zlen_cons, <- !app_assoc. split; [|lia]. cbn [app]. do 2 f_equal. lia.
  - destruct dest as [|d0 dest]; [rewrite zlen_nil in Hd; lia|]. rewrite zlen_cons in Hd.
    rewrite wr_app, snoc_app. cbn [mbind option_bind]. destruct (IH l ltac:(cbn; lia) (pre ++ [Some c]) dest ltac:(lia)) as (rest & E & Hr).
    exists rest. rewrite <- (zlen_snoc pre (Some c)), E. rewrite zlen_snoc, fmap_cons, !zlen_cons, <- app_assoc. split; [|lia]. cbn [app]. do 2 f_equal. lia.
Qed.

(** Both functions that unfold a header line write the same text, the line
    without its line breaks before a blank, the blank after them, NULs and carriage
    returns: one into a buffer, the other into the caller's block, of which it
    fills no more than the line is long, and no more than [dest_size]. *)
Theorem zmime_unfolding (l extra x : list Z) (result : zbuf) (dest : list cell) (dest_size : Z) :
  bytes_ok l -> zlen l + 2 < 2 ^ 29 -> holds None x result -> 0 <= dest_size <= zlen dest ->
  runs (zmime_raw_header_line_unescape (l ++ extra) (zlen l) result) (holds None (unfolded l)) /\
  let m := take (Z.to_nat dest_size) l in
  exists rest, zmime_raw_header_line_unescape_inner (l ++ extra) (zlen l) dest dest_size =
    Some ((Some <$> unfolded m) ++ rest, zlen (unfolded m)) /\ zlen (unfolded m) <= Z.min (zlen l) dest_size /\
    zlen (unfolded m) + zlen rest = zlen dest.
Proof.
  intros Hb Hl Hr Hd. zlen_facts. split.
  - unfold zmime_raw_header_line_unescape. eapply runs_bind; [apply (zbuf_reset_holds None result x), Hr|]. intros b [Hb1 _].
    rewrite read_bytes_app. cbn [mbind option_bind].
    eapply runs_bind; [apply (unescape_loop_runs l b [] Hb1 Hb); rewrite zlen_nil; lia|]. intros b2 Hb2. by apply terminate_holds.
  - unfold zmime_raw_header_line_unescape_inner.
    assert (Hm : read_bytes (l ++ extra) (if dest_size <? zlen l then dest_size else zlen l) = Some (take (Z.to_nat dest_size) l)).
    { destruct (Z.ltb_spec dest_size (zlen l)).
      - rewrite <- (take_drop (Z.to_nat dest_size) l) at 1. rewrite <- app_assoc.
        rewrite <- (read_bytes_app (take (Z.to_nat dest_size) l) (drop (Z.to_nat dest_size) l ++ extra)). f_equal.
        unfold zlen in *. rewrite length_take. lia.
      - rewrite read_bytes_app. by rewrite take_ge by (unfold zlen in *; lia). }
    rewrite Hm. cbn [mbind option_bind]. set (m := take _ l).
    assert (Hml : zlen m = Z.min (zlen l) dest_size) by (unfold m, zlen in *; rewrite length_take; lia).
    destruct (unescape_inner_loop_runs m [] dest ltac:(lia)) as (rest & E & Hrest). exists rest.
    change (zlen []) with 0 in E. pose proof (unfolded_len m). split; [exact E|]. split; [lia|done].
Qed.

(** ** RFC 2231 *)
Lemma decode_2231_text strict v extra : forall b x, rep None b x -> bytes_ok v -> zlen x + zlen v + 2 < 2 ^ 29 ->
  runs (decode_2231 (length (url_enc strict v)) (url_enc strict v ++ extra) b) (fun b' => rep None b' (x ++ v)).
Proof.
  induction v as [|c v IH]; intros b x Hb Hv Hn; [apply runs_ret; by rewrite app_nil_r|].
  apply Forall_cons in Hv as [Hc Hv]. rewrite zlen_cons in Hn. zlen_facts.
  change (url_enc strict (c :: v)) with (url_char strict c ++ url_enc strict v). unfold url_char.
  assert (Hstep : forall b1, rep None b1 (x ++ [c]) ->
    runs (decode_2231 (length (url_enc strict v)) (url_enc strict v ++ extra) b1) (fun b' => rep None b' (x ++ c :: v))).
  { intros b1 Hb1. eapply runs_mono; [apply (IH b1 (x ++ [c]) Hb1 Hv); rewrite zlen_snoc; lia|]. intros b' Hb'. by rewrite <- app_assoc in Hb'. }
  destruct (url_plain strict c) eqn:Ep.
  - cbn [app length decode_2231]. assert (Hne : c <> chr "%") by (intros ->; by destruct strict).
    rewrite (proj2 (Z.eqb_neq c (chr "%"))) by done. cbn [negb].
    eapply runs_bind; [by apply (ZBUF_PUT_holds b x c Hb Hc); lia|]. done.
  - unfold hex_byte. cbn [app length decode_2231]. change (chr "%" =? chr "%") with true. cbn [negb]. unfold byte_ok in Hc.
    assert (H1 : 0 <= c / 16 < 16) by (split; [apply Z.div_pos; lia|apply Z.div_lt_upper_bound; lia]).
    assert (H2 : 0 <= c mod 16 < 16) by (apply Z.mod_pos_bound; lia).
    rewrite rd_0. change (rd (hex_digit (c / 16) :: hex_digit (c mod 16) :: url_enc strict v ++ extra) 1) with (Some (hex_digit (c mod 16))).
    cbn [mbind option_bind]. rewrite !rd_xdigitval by by apply hex_digit_byte. rewrite !hex_digit_ascii by done. cbn [mbind option_bind].
    rewrite !digit_value_hex_digit by done. rewrite lor_shiftl_add by (lia || (change (2 ^ 4) with 16; lia)). change (2 ^ 4) with 16.
    replace (c / 16 * 16 + c mod 16) with c by (pose proof (Z.div_mod c 16); lia).
    eapply runs_bind; [apply (ZBUF_PUT_runs None b x c Hb); cbn; lia|]. intros b1 Hb1. cbn beta in Hb1.
    rewrite u8_id in Hb1 by (unfold byte_ok; lia). by apply Hstep.
Qed.

(** A parameter value of RFC 2231, a charset, a language and text with percent
    escapes between apostrophes, is decoded to the bytes of the text and converted
    to UTF-8; but the charset handed to the conversion ends in the apostrophe that
    ends it in the line (up to a '*', when it has one). *)
Theorem zmime_2231_decodes `{CharsetLaws} (def : option (list Z)) (cs lang v extra x : list Z) (strict : bool) (result : zbuf) :
  text_ok cs -> text_ok lang -> Forall (fun c => c <> chr "'" /\ c <> chr "*") cs -> Forall (.≠ chr "'") lang -> zlen cs <= 32 ->
  bytes_ok v -> v <> [] ->
  let line := cs ++ str "'" ++ lang ++ str "'" ++ url_enc strict v in
  zlen line + 2 < 2 ^ 29 -> zlen (utf8 (Some (cs ++ str "'")) v) + 1 < 2 ^ 29 -> holds None x result ->
  runs (zmime_header_line_get_utf8_2231 ((fun x => x ++ [0]) <$> def) (line ++ extra) (zlen line) result true)
    (holds None (utf8 (Some (cs ++ str "'")) v)).
Proof.
  intros Hcs Hlang Hcs2 Hlang2 Hcl Hv Hvne line Hl Hu Hr. unfold zmime_header_line_get_utf8_2231.
  assert (Hlen : zlen line = zlen cs + zlen lang + zlen (url_enc strict v) + 2).
  { unfold line. rewrite !zlen_app, !zlen_cons, !zlen_nil. lia. }
  pose proof (zlen_nonneg cs). pose proof (zlen_nonneg lang). pose proof (zlen_nonneg (url_enc strict v)).
  rewrite (proj2 (Z.eqb_neq (zlen line) (-1))) by lia. cbn [mbind option_bind]. rewrite (proj2 (Z.ltb_ge (zlen line) 1)) by lia.
  destruct (ZSTACK_BUF_holds (zvar_charset_name_max_size + 1) ltac:(done)) as (cb & -> & Hcb). cbn [mbind option_bind].
  destruct (zbuf_reset_holds None result x (proj1 Hr)) as (r1 & -> & Hr1). cbn [mbind option_bind]. rewrite read_bytes_app. cbn [mbind option_bind].
  assert (E1 : memchr (chr "'") line = Some (cs, chr "'" :: lang ++ str "'" ++ url_enc strict v)).
  { unfold memchr, line. apply until_app; [|by rewrite Z.eqb_refl]. eapply Forall_impl; [exact Hcs2|]. intros c [Hc _]. apply Z.eqb_neq. congruence. }
  rewrite E1.
  assert (E2 : memchr (chr "'") (lang ++ str "'" ++ url_enc strict v) = Some (lang, chr "'" :: url_enc strict v)).
  { unfold memchr. apply until_app; [|by rewrite Z.eqb_refl]. eapply Forall_impl; [exact Hlang2|]. intros c Hc. apply Z.eqb_neq. congruence. }
  assert (Hin : in_bytes line (zlen cs + 1) = Some (cs ++ str "'")).
  { unfold line. change (cs ++ str "'" ++ ?r) with (cs ++ str "'" ++ r). rewrite app_assoc.
    replace (zlen cs + 1) with (zlen (cs ++ str "'")) by (by rewrite zlen_app). apply in_bytes_app. }
  assert (Hcsb : bytes_ok (cs ++ str "'")) by (apply Forall_app; split; [by apply text_bytes|by repeat constructor]).
  eapply runs_bind; [apply (zbuf_memcpy_holds (Some (zvar_charset_name_max_size + 1)) cb [] line (zlen cs + 1) (cs ++ str "'"));
    [apply Hcb|unfold int_max; lia|done|by rewrite zlen_app|done|done]|].
  intros cb1 Hcb1. cbn [tail]. rewrite E2. rewrite (holds_bytes _ _ _ Hcb1). cbn [mbind option_bind].
  assert (Hclip : clip (Some (zvar_charset_name_max_size + 1)) (cs ++ str "'") = cs ++ str "'").
  { change (take 33 (cs ++ str "'") = cs ++ str "'"). apply firstn_all2. rewrite length_app. unfold zlen in Hcl. cbn [length]. lia. }
  rewrite Hclip. rewrite cstr_app by (apply Forall_app; split; [by apply text_nonzero|by repeat constructor]). cbn [mbind option_bind].
  assert (E3 : memchr (chr "*") (cs ++ str "'") = None).
  { unfold memchr. rewrite until_item, break_at_end; [done|]. apply Forall_app. split; [|by repeat constructor].
    eapply Forall_impl; [exact Hcs2|]. intros c [_ Hc]. apply Z.eqb_neq. congruence. }
  rewrite E3. destruct (zbuf_create_holds (zlen line) ltac:(lia)) as (tb & -> & Htb). cbn [mbind option_bind].
  destruct (zbuf_reset_holds None tb [] (proj1 Htb)) as (tb1 & -> & [Htb1 _]). cbn [mbind option_bind].
  replace (zlen (chr "'" :: url_enc strict v) - 1) with (zlen (url_enc strict v)) by (rewrite zlen_cons; lia).
  assert (Ed : drop (Z.to_nat (zlen line - zlen (url_enc strict v))) (line ++ extra) = url_enc strict v ++ extra).
  { unfold line. rewrite !app_assoc, <- (app_assoc _ _ extra). apply drop_app_length'.
    unfold zlen. rewrite !length_app. cbn. lia. }
  rewrite Ed, zlen_to_nat. 
  assert (Hvl : zlen v <= zlen (url_enc strict v)).
  { clear. induction v as [|c v IH]; [done|]. change (url_enc strict (c :: v)) with (url_char strict c ++ url_enc strict v).
    rewrite zlen_app, zlen_cons. unfold url_char. destruct (url_plain strict c); rewrite ?zlen_cons, ?zlen_nil; zlen_facts; lia. }
  eapply runs_bind; [apply (decode_2231_text strict v extra tb1 [] Htb1 Hv); rewrite zlen_nil; lia|]. intros tb2 Htb2. cbn beta in Htb2.
  rewrite (rep_zbuf_bytes _ _ _ Htb2), (rep_len _ _ _ Htb2). cbn [mbind option_bind app].
  apply (utf8_runs (Some (cs ++ str "'")) v r1); try done. lia.
Qed.
(** An escape that ends the value is read past its end. *)
Lemma zmime_2231_overreads : exists result, zbuf_create 10 = Some result /\
  zmime_header_line_get_utf8_2231 (H := fun _ _ _ b => Some b) None (str "utf-8''a%4") 10 result true = None.
Proof. eexists. split; by vm_compute. Qed.

(** ** Runs *)
#[local] Existing Instance same_bytes.
#[local] Existing Instance same_bytes_laws.
Lemma zmime_unfolding_witness : exists result,
  runs (zmime_raw_header_line_unescape (str "a: b" ++ [13; 10; 32] ++ str "c") 8 result) (holds None (str "a: bc")) /\
  zmime_raw_header_line_unescape_inner (str "a: b" ++ [13; 10; 32] ++ str "c") 8 (replicate 7 None) 7 =
    Some ((Some <$> str "a: b") ++ replicate 3 None, 4).
Proof.
  destruct (zbuf_create_holds 10 ltac:(done)) as (result & _ & Hr). exists result. split.
  - apply (zmime_unfolding (str "a: b" ++ [13; 10; 32] ++ str "c") [] [] result [] 0); try done. by repeat constructor.
  - by vm_compute.
Defined.
Lemma zmime_2231_decodes_witness : exists result,
  runs (zmime_header_line_get_utf8_2231 None (str "utf-8'en'a%20b") 14 result true) (holds None (str "a b")).
Proof.
  destruct (zbuf_create_holds 10 ltac:(done)) as (result & _ & Hr). exists result.
  apply (zmime_2231_decodes (utf8 := fun _ d => d) None (str "utf-8") (str "en") (str "a b") [] [] true result); try done; by repeat constructor.
Defined.
