(* ===== verification/Date.v ===== *)
(** * Dates: src/stdlib/date.c and src/mime/date.c

    The calendar of <time.h> is the proleptic Gregorian one, days are counted from
    1970-01-01; the time zone of [localtime_r] is a parameter. A pointer into the
    copy of the text is what is left of the copy, and a token that is terminated by
    writing a NUL behind it is the bytes up to there. *)
From S2P Require Import Prelude Chars Text Scan.

(** ** <time.h> *)
Record tm := mk_tm { tm_sec : Z; tm_min : Z; tm_hour : Z; tm_mday : Z; tm_mon : Z; tm_year : Z; tm_wday : Z }.

Definition leap (y : Z) : bool := (y mod 4 =? 0) && (negb (y mod 100 =? 0) || (y mod 400 =? 0)).
Definition month_lengths (lp : bool) : list Z := [31; if lp then 29 else 28; 31; 30; 31; 30; 31; 31; 30; 31; 30; 31].
(** The first day of a year, and of a month of it. *)
Definition year_start (y : Z) : Z := 365 * y + (y - 1) / 4 - (y - 1) / 100 + (y - 1) / 400 - 719527.
Definition month_start (lp : bool) (mon : Z) : Z := foldr Z.add 0 (take (Z.to_nat mon) (month_lengths lp)).
Definition year_of (d : Z) : Z :=
  let y := 1970 + 400 * d / 146097 in
  if d <? year_start y then y - 1 else if d <? year_start (y + 1) then y else y + 1.
(** The month and the day of the month, from 0, of a day of the year. *)
Fixpoint month_day (lens : list Z) (mon yday : Z) : Z * Z :=
  match lens with
  | n :: lens' => if yday <? n then (mon, yday) else month_day lens' (mon + 1) (yday - n)
  | [] => (mon, yday)
  end.

(** [timegm]: months are in 0..11, the other fields any [int]. *)
Definition timegm (t : tm) : Z :=
  let y := tm_year t + 1900 in
  let day := year_start y + month_start (leap y) (tm_mon t) + tm_mday t - 1 in
  ((day * 24 + tm_hour t) * 60 + tm_min t) * 60 + tm_sec t.
(** [gmtime_r]: [None] when the year is not an [int]. *)
Definition gmtime_r (t : Z) : option tm :=
  let d := t / 86400 in
  let s := t mod 86400 in
  let y := year_of d in
  let md := month_day (month_lengths (leap y)) 0 (d - year_start y) in
  if int_ok (y - 1900) then Some (mk_tm (s mod 60) (s / 60 mod 60) (s / 3600) (md.2 + 1) md.1 (y - 1900) ((d + 4) mod 7))
  else None.
(** Seconds east of Greenwich and the abbreviation of the zone, at a time. *)
Class Timezone := zone_at : Z -> Z * list Z.
Definition localtime_r `{!Timezone} (t : Z) : option tm := gmtime_r (t + (zone_at t).1).

(** ["%02d"], ["%a"], ["%b"], ["%z"] of [strftime] *)
Definition two (n : Z) : list Z := [48 + n / 10; 48 + n mod 10].
Definition day_names : list (list Z) := [str "Sun"; str "Mon"; str "Tue"; str "Wed"; str "Thu"; str "Fri"; str "Sat"].
Definition month_names : list (list Z) :=
  [str "Jan"; str "Feb"; str "Mar"; str "Apr"; str "May"; str "Jun"; str "Jul"; str "Aug"; str "Sep"; str "Oct"; str "Nov"; str "Dec"].
Definition name_in (names : list (list Z)) (n : Z) : list Z := default (str "?") (names !! Z.to_nat n).
Definition zone_text (off : Z) : list Z :=
  let m := Z.abs off / 60 in (if off <? 0 then chr "-" else chr "+") :: two (m / 60) ++ two (m mod 60).
Definition date_text (t : tm) : list Z :=
  name_in day_names (tm_wday t) ++ str ", " ++ two (tm_mday t) ++ str " " ++ name_in month_names (tm_mon t) ++ str " " ++
  fmt_zd (tm_year t + 1900) ++ str " " ++ two (tm_hour t) ++ str ":" ++ two (tm_min t) ++ str ":" ++ two (tm_sec t).
(** What [strftime(buf, max, ..)] leaves in [buf]: unspecified, [None], when the
    text and its NUL do not fit. *)
Definition strftime (max : Z) (text : list Z) : option (list Z) :=
  if zlen text + 1 <=? max then Some (text ++ [0]) else None.

(** ** src/stdlib/date.c *)
Definition zvar_rfc1123_date_string_size : Z := 32.
Definition zvar_rfc822_date_string_size : Z := 38.
Definition zbuild_rfc1123_date_string (t : Z) : option (option (list Z)) :=
  tmbuf ← gmtime_r t;
  Some (strftime zvar_rfc1123_date_string_size (date_text tmbuf ++ str " GMT")).
Definition zbuild_rfc822_date_string `{!Timezone} (t : Z) : option (option (list Z)) :=
  tmbuf ← localtime_r t;
  Some (strftime zvar_rfc822_date_string_size
          (date_text tmbuf ++ str " " ++ zone_text (zone_at t).1 ++ str " (" ++ (zone_at t).2 ++ str ")")).

(** ** src/mime/date.c *)
Fixpoint strncpy (src : list Z) (n : nat) : option (list Z) :=
  match n with
  | O => Some []
  | S n' =>
      match src with
      | [] => None
      | c :: src' => if c =? 0 then Some (replicate n 0) else cons c <$> strncpy src' n'
      end
  end.
(** The loop over [str_copy]: every '-' becomes a blank; the offset of the last. *)
Fixpoint blank_dashes (p : list Z) (i last_offset : Z) : option (list Z * Z) :=
  match p with
  | [] => None
  | c :: p' =>
      if c =? 0 then Some (p, last_offset) else
      let dash := c =? chr "-" in
      r ← blank_dashes p' (i + 1) (if dash then i else last_offset);
      Some ((if dash then chr " " else c) :: r.1, r.2)
  end.
(** A macro [___FIND] or [___IGNORE] and the [___ERR] after it: the bytes
    passed and the pointer, [None] when it is at the end of the text. *)
Definition FIND (stop : Z -> bool) (p : list Z) : option (option (list Z * list Z)) :=
  r ← until (fun c => (c =? 0) || stop c) p;
  c ← head r.2;
  Some (if c =? 0 then None else Some r).
Definition at_blank (c : Z) : bool := c =? chr " ".
Definition no_blank (c : Z) : bool := negb (c =? chr " ").
Definition at_colon (c : Z) : bool := c =? chr ":".

Local Notation "'try' ' pat ← e ; k" := (r ← e; match r with None => Some (-1) | Some pat => k end)
  (at level 10, pat pattern, e at level 100, k at level 200).

(** The [switch] on the name of the month, [ps] its three bytes. *)
Definition month_of (ps : list Z) : option Z :=
  c0 ← rd ps 0; c1 ← rd ps 1; c2 ← rd ps 2;
  Some (if c0 =? chr "a" then (if c1 =? chr "p" then 3 else 7)
        else if c0 =? chr "d" then 11
        else if c0 =? chr "f" then 1
        else if c0 =? chr "j" then (if c1 =? chr "a" then 0 else if c2 =? chr "n" then 5 else 6)
        else if c0 =? chr "m" then (if c2 =? chr "r" then 2 else 4)
        else if c0 =? chr "n" then 10
        else if c0 =? chr "o" then 9
        else if c0 =? chr "s" then 8
        else -1).
(** From the sign to [break_offset]: [sign] and [offset]. *)
Definition date_offset (ps : list Z) : option (Z * Z) :=
  n ← zlen <$> cstr ps;
  if n <? 5 then Some (0, 0) else
  c0 ← rd ps 0; c1 ← rd ps 1; c2 ← rd ps 2; c3 ← rd ps 3; c4 ← rd ps 4;
  let sign := if c0 =? chr "-" then -1 else 1 in
  let offset := (s8 c1 - 48) * 10 + (s8 c2 - 48) in
  Some (sign, (offset * 60 + (s8 c3 - 48) * 10 + (s8 c4 - 48)) * 60).

(** From the first [___FIND_DIGIT] on. *)
Definition date_fields (str_copy : list Z) (last_offset : Z) : option Z :=
  try '(_, p) ← FIND isdigit str_copy;
  try '(ps, p) ← FIND at_blank p;
  tm_mday ← atoi (ps ++ [0]);
  try '(_, p) ← FIND no_blank (tail p);
  try '(ps, p) ← FIND at_blank p;
  if negb (zlen ps =? 3) then Some (-1) else
  v ← month_of ps;
  if v =? -1 then Some (-1) else
  try '(_, p) ← FIND no_blank (tail p);
  try '(ps, p) ← FIND at_blank p;
  if negb (zlen ps =? 4) then Some (-1) else
  year ← atoi (ps ++ [0]);
  try '(_, p) ← FIND no_blank (tail p);
  try '(ps, p) ← FIND at_colon p;
  tm_hour ← atoi (ps ++ [0]);
  try '(ps, p) ← FIND at_colon (tail p);
  tm_min ← atoi (ps ++ [0]);
  try '(ps, p) ← FIND at_blank (tail p);
  tm_sec ← atoi (ps ++ [0]);
  try '(_, p) ← FIND no_blank (tail p);
  '(sign, offset) ← date_offset (if 128 - zlen p =? last_offset + 1 then chr "-" :: p else p);
  let result := timegm (mk_tm tm_sec tm_min tm_hour tm_mday v (year - 1900) 0) in
  if result =? -1 then Some (-1) else Some (result - sign * offset).
Definition zmime_header_line_decode_date (s : list Z) : option Z :=
  str_copy ← strncpy s 127;
  str_copy ← zstr_tolower (str_copy ++ [0]);
  r ← blank_dashes str_copy 0 0;
  date_fields r.1 r.2.

Example date_1 : zmime_header_line_decode_date (str "Thu, 01 Jan 1970 00:00:01 GMT" ++ [0]) = Some 1.
Proof. by vm_compute. Qed.
Example date_2 : zmime_header_line_decode_date (str "Thu, 29-Feb-2024 12:00:00 -0500 (EST)" ++ [0]) = Some 1709226000.
Proof. by vm_compute. Qed.
Example date_3 : zbuild_rfc1123_date_string 1709226000 = Some (Some (str "Thu, 29 Feb 2024 17:00:00 GMT" ++ [0])).
Proof. by vm_compute. Qed.
