(* ===== verification/DateTrip.v ===== *)
(** * Dates: what is written is read back

    The calendar functions are inverse to each other; the dates the library writes
    are the dates it reads. *)
From S2P Require Import Prelude Chars Text Scan Date.

(** ** The calendar *)
Lemma year_length y : year_start (y + 1) = year_start y + (if leap y then 366 else 365).
Proof. unfold year_start, leap. destruct (Z.eqb_spec (y mod 4) 0), (Z.eqb_spec (y mod 100) 0), (Z.eqb_spec (y mod 400) 0); cbn; zdiv. Qed.
Lemma year_start_spread y d : year_start y <= d < year_start (y + 1) -> year_start y <= d < year_start y + 366.
Proof. rewrite year_length. destruct (leap y); lia. Qed.
Lemma year_of_spec d : year_start (year_of d) <= d < year_start (year_of d + 1).
Proof.
  unfold year_of. set (y := 1970 + 400 * d / 146097).
  assert (Hy : 146097 * (y - 1970) <= 400 * d < 146097 * (y - 1970) + 146097) by (unfold y; zdiv).
  clearbody y. destruct (Z.ltb_spec d (year_start y)), (Z.ltb_spec d (year_start (y + 1))); unfold year_start in *; zdiv.
Qed.
Lemma month_day_spec lens : forall mon yday, 0 <= yday < foldr Z.add 0 lens -> Forall (fun n => 0 <= n) lens ->
  exists k, (month_day lens mon yday).1 = mon + Z.of_nat k /\ (k < length lens)%nat /\
    0 <= (month_day lens mon yday).2 /\ foldr Z.add 0 (take k lens) + (month_day lens mon yday).2 = yday /\
    exists n, lens !! k = Some n /\ (month_day lens mon yday).2 < n.
Proof.
  induction lens as [|n lens IH]; intros mon yday Hy Hl; cbn in Hy; [lia|]. cbn [month_day]. apply Forall_cons in Hl as [Hn Hl].
  destruct (Z.ltb_spec yday n).
  - exists O. cbn. repeat split; try lia. by exists n.
  - destruct (IH (mon + 1) (yday - n) ltac:(lia) Hl) as (k & E & Hk & H0 & Hs & n' & Hn' & Hlt).
    exists (S k). rewrite E. cbn. repeat split; try lia. by exists n'.
Qed.

(** A date of the calendar. *)
Record date_ok (t : tm) : Prop := {
  ok_mon : 0 <= tm_mon t < 12;
  ok_day : 1 <= tm_mday t <= 31;
  ok_hour : 0 <= tm_hour t < 24;
  ok_min : 0 <= tm_min t < 60;
  ok_sec : 0 <= tm_sec t < 60;
  ok_wday : 0 <= tm_wday t < 7
}.
Lemma month_lengths_bound lp k n : month_lengths lp !! k = Some n -> n <= 31.
Proof. do 13 (destruct k as [|k]; [cbn; intros [= <-]; destruct lp; lia|]). done. Qed.
Lemma gmtime_spec t tmb : gmtime_r t = Some tmb ->
  date_ok tmb /\ timegm tmb = t /\ year_start (tm_year tmb + 1900) <= t / 86400 < year_start (tm_year tmb + 1900 + 1).
Proof.
  unfold gmtime_r. destruct (int_ok _); [|done]. intros <-%(inj Some). cbn [tm_year]. set (d := t / 86400). set (s := t mod 86400).
  set (y := year_of d). replace (y - 1900 + 1900) with y by lia. pose proof (year_of_spec d) as Hy. fold y in Hy.
  assert (Hs : 0 <= s < 86400) by (unfold s; zdiv). assert (Ht : t = 86400 * d + s) by (unfold d, s; zdiv).
  pose proof Hy as Hy'. rewrite year_length in Hy'.
  assert (Hsum : foldr Z.add 0 (month_lengths (leap y)) = if leap y then 366 else 365) by (by destruct (leap y)).
  destruct (month_day_spec (month_lengths (leap y)) 0 (d - year_start y)) as (k & E & Hk & H0 & Hm & n & Hn & Hlt).
  { rewrite Hsum. destruct (leap y); lia. }
  { destruct (leap y); repeat constructor; lia. }
  apply month_lengths_bound in Hn as Hn31. set (md := month_day _ _ _) in *. clearbody md. replace (length (month_lengths (leap y))) with 12%nat in Hk by (by destruct (leap y)).
  split; [|split; [|done]].
  - clearbody s d. clear Hsum Ht.
    split; cbn [tm_mon tm_mday tm_hour tm_min tm_sec tm_wday]; try lia; zdiv.
  - unfold timegm. cbn [tm_year tm_mon tm_mday tm_hour tm_min tm_sec]. replace (y - 1900 + 1900) with y by lia. unfold month_start.
    rewrite E. replace (Z.to_nat (0 + Z.of_nat k)) with k by lia. revert Hm. generalize (foldr Z.add 0 (take k (month_lengths (leap y)))). intros ms Hm.
    rewrite Ht. zdiv.
Qed.
Lemma gmtime_year t y0 y1 : int_ok (y0 - 1900) = true -> int_ok (y1 - 1901) = true -> year_start y0 * 86400 <= t < year_start y1 * 86400 ->
  exists tmb, gmtime_r t = Some tmb /\ y0 <= tm_year tmb + 1900 < y1.
Proof.
  intros H0 H1 Ht. pose proof (year_of_spec (t / 86400)) as Hy. set (y := year_of (t / 86400)) in *.
  assert (Hm : forall a b, a + 1 <= b -> year_start (a + 1) <= year_start b) by (intros a b Hab; unfold year_start; zdiv).
  assert (Hr : y0 <= y < y1).
  { assert (year_start y0 <= t / 86400 < year_start y1) by zdiv.
    split; [destruct (Z_lt_le_dec y y0) as [|]; [|done]; specialize (Hm y y0)|
            destruct (Z_lt_le_dec y y1) as [|]; [done|]; specialize (Hm (y1 - 1) y); replace (y1 - 1 + 1) with y1 in Hm by lia;
            pose proof (year_length y); destruct (leap y)]; lia. }
  unfold gmtime_r. fold y. assert (int_ok (y - 1900) = true) as -> by (unfold int_ok, int_min, int_max in *; lia).
  eexists. split; [done|]. cbn [tm_year]. lia.
Qed.

(** ** Numbers of dates *)
(** A number with a bound, by its value. *)
Ltac below_cases tac :=
  match goal with H : 0 <= ?m < ?b |- _ =>
    rewrite <- (Z2Nat.id m) by lia; let Hk := fresh in assert (Hk : Z.of_nat (Z.to_nat m) < b) by lia;
    revert Hk; generalize (Z.to_nat m); clear; let k := fresh in intros k Hk;
    repeat (destruct k as [|k]; [tac|try lia])
  end.
Lemma two_digits n : 0 <= n < 100 -> all isdigit (two n) /\ digits_value (two n) = n.
Proof.
  intros Hn. unfold two, digits_value. cbn [fold_left]. split; [|zdiv].
  repeat constructor; unfold isdigit, in_range; zdiv.
Qed.
Lemma year_digits y : 1000 <= y <= 9999 -> fmt_zd y = [y / 1000 + 48; y / 100 mod 10 + 48; y / 10 mod 10 + 48; y mod 10 + 48].
Proof.
  intros Hy. unfold fmt_zd. rewrite (proj2 (Z.ltb_ge y 0)) by lia. change 64%nat with (S (S (S (S 60)))). cbn [decimal_digits].
  rewrite (proj2 (Z.ltb_ge y 10)), (proj2 (Z.ltb_ge (y / 10) 10)), (proj2 (Z.ltb_ge (y / 10 / 10) 10)), (proj2 (Z.ltb_lt (y / 10 / 10 / 10) 10)) by zdiv.
  rewrite !Z.div_div by lia. done.
Qed.
Lemma year_value y : 1000 <= y <= 9999 -> all isdigit (fmt_zd y) /\ digits_value (fmt_zd y) = y /\ zlen (fmt_zd y) = 4.
Proof.
  intros Hy. rewrite year_digits by done. split; [|split; [|done]].
  - repeat constructor; unfold isdigit, in_range; zdiv.
  - unfold digits_value. cbn [fold_left]. zdiv.
Qed.
Lemma atoi_number ds : all isdigit ds -> ds <> [] -> digits_value ds < 2 ^ 31 -> atoi (ds ++ [0]) = Some (digits_value ds).
Proof. intros Hd Hn Hv. rewrite <- (app_nil_r ds) at 1. by apply atoi_digits. Qed.

(** ** The copy of the text *)
Lemma strncpy_text l r n : Forall (.≠ 0) l -> (length l < n)%nat -> strncpy (l ++ 0 :: r) n = Some (l ++ replicate (n - length l) 0).
Proof.
  revert n. induction l as [|c l IH]; intros n Hl Hn; destruct n as [|n]; cbn in Hn; try lia; [done|].
  apply Forall_cons in Hl as [Hc Hl]. cbn [app strncpy length Nat.sub]. rewrite (proj2 (Z.eqb_neq c 0)) by done. by rewrite IH by (done || lia).
Qed.
(** The last dash of a text that starts at offset [i]. *)
Fixpoint last_dash (l : list Z) (i last : Z) : Z :=
  match l with [] => last | c :: l => last_dash l (i + 1) (if c =? chr "-" then i else last) end.
Definition undash (c : Z) : Z := if c =? chr "-" then chr " " else c.
Lemma blank_dashes_text l r : forall i last, Forall (.≠ 0) l ->
  blank_dashes (l ++ 0 :: r) i last = Some ((undash <$> l) ++ 0 :: r, last_dash l i last).
Proof.
  induction l as [|c l IH]; intros i last Hl; [done|]. apply Forall_cons in Hl as [Hc Hl]. cbn [app blank_dashes fmap list_fmap last_dash].
  rewrite (proj2 (Z.eqb_neq c 0)) by done. by rewrite IH.
Qed.
Definition no_dash (l : list Z) : Prop := Forall (.≠ chr "-") l.
Lemma undash_id l : no_dash l -> undash <$> l = l.
Proof. induction 1 as [|c l Hc _ IH]; [done|]. cbn [fmap list_fmap]. unfold undash at 1. rewrite (proj2 (Z.eqb_neq _ _)) by done. by f_equal. Qed.
Lemma last_dash_app a b i last : no_dash a -> last_dash (a ++ b) i last = last_dash b (i + zlen a) last.
Proof.
  intros Ha. revert i. induction Ha as [|c a Hc _ IH]; intros i; [by rewrite zlen_nil, Z.add_0_r|]. cbn [app last_dash].
  rewrite (proj2 (Z.eqb_neq _ _)) by done. rewrite IH, zlen_cons. f_equal. lia.
Qed.
Lemma FIND_at stop x c r : Forall (fun c => c <> 0 /\ stop c = false) x -> c <> 0 -> stop c = true -> FIND stop (x ++ c :: r) = Some (Some (x, c :: r)).
Proof.
  intros Hx Hc Hs. unfold FIND. rewrite until_app.
  - cbn [mbind option_bind snd head]. by rewrite (proj2 (Z.eqb_neq c 0)).
  - eapply Forall_impl; [exact Hx|]. cbn. intros d [Hd ->]. by rewrite (proj2 (Z.eqb_neq d 0)).
  - by rewrite Hs, orb_true_r.
Qed.

(** ** Reading a date *)
(** The number of a month by its name, which stands before the byte [c]. *)
Lemma month_name_read mon : 0 <= mon < 12 -> exists c0 c1 c2, ztolower <$> name_in month_names mon = [c0; c1; c2] /\
  Forall (fun c => c <> 0 /\ at_blank c = false) [c0; c1; c2] /\ month_of [c0; c1; c2] = Some mon.
Proof.
  intros Hm. below_cases ltac:(eexists _, _, _; (split; [by vm_compute|]); (split; [by repeat constructor|]); by vm_compute).
Qed.
Lemma FIND_here (stop : Z -> bool) c r : c <> 0 -> stop c = true -> FIND stop (c :: r) = Some (Some ([], c :: r)).
Proof. apply (FIND_at stop []). done. Qed.
Lemma digits_pass ds (stop : Z -> bool) : all isdigit ds -> (forall c, 48 <= c <= 57 -> stop c = false) -> Forall (fun c => c <> 0 /\ stop c = false) ds.
Proof. intros Hd Hs. eapply Forall_impl; [exact Hd|]. intros c Hc%isdigit_range. split; [lia|by apply Hs]. Qed.
Lemma FIND_number ds r : all isdigit ds -> ds <> [] -> FIND no_blank (ds ++ r) = Some (Some ([], ds ++ r)).
Proof.
  intros Hd Hn. destruct ds as [|c ds]; [done|]. apply Forall_cons in Hd as [Hc%isdigit_range _].
  apply (FIND_at no_blank [] c (ds ++ r)); [done|lia|]. unfold no_blank. lia.
Qed.
Lemma FIND_end (stop : Z -> bool) ds c r : all isdigit ds -> (forall c, 48 <= c <= 57 -> stop c = false) -> c <> 0 -> stop c = true ->
  FIND stop (ds ++ c :: r) = Some (Some (ds, c :: r)).
Proof. intros Hd Hs Hc Hstop. apply FIND_at; [by apply digits_pass|done..]. Qed.

Lemma FIND_first wd ds r : Forall (fun c => c <> 0 /\ isdigit c = false) wd -> all isdigit ds -> ds <> [] ->
  FIND isdigit (wd ++ ds ++ r) = Some (Some (wd, ds ++ r)).
Proof.
  intros Hw Hd Hn. destruct ds as [|c ds]; [done|]. apply Forall_cons in Hd as [Hc _]. apply isdigit_range in Hc as Hc'.
  apply FIND_at; [done|lia|done].
Qed.

Definition low_text (wd : list Z) (t : tm) : list Z :=
  wd ++ two (tm_mday t) ++ 32 :: (ztolower <$> name_in month_names (tm_mon t)) ++ 32 :: fmt_zd (tm_year t + 1900) ++ 32 ::
  two (tm_hour t) ++ 58 :: two (tm_min t) ++ 58 :: two (tm_sec t) ++ [32].
Local Ltac step := cbn [mbind option_bind fst snd tail].
Lemma date_fields_read wd t bl c p last sign off : Forall (fun c => c <> 0 /\ isdigit c = false) wd -> date_ok t ->
  1000 <= tm_year t + 1900 <= 9999 -> bl = [] \/ bl = [32] -> c <> 0 -> c <> 32 ->
  date_offset (if 128 - zlen (c :: p) =? last + 1 then 45 :: c :: p else c :: p) = Some (sign, off) ->
  date_fields (low_text wd t ++ bl ++ c :: p) last = Some (if timegm t =? -1 then -1 else timegm t - sign * off).
Proof.
  intros Hwd Ht Hy Hbl Hc Hcb Ho. destruct Ht as [Hmon Hday Hhour Hmin Hsec _].
  destruct (month_name_read _ Hmon) as (c0 & c1 & c2 & Em & Hmn & Hmo).
  destruct (year_value _ Hy) as (Yd & Yv & Yl). destruct (two_digits (tm_mday t)) as [Dd Dv]; [lia|].
  destruct (two_digits (tm_hour t)) as [Hd Hv]; [lia|]. destruct (two_digits (tm_min t)) as [Md Mv]; [lia|]. destruct (two_digits (tm_sec t)) as [Sd Sv]; [lia|].
  assert (Hb : forall c, 48 <= c <= 57 -> at_blank c = false) by (intros ? ?; unfold at_blank; lia).
  assert (Hcol : forall c, 48 <= c <= 57 -> at_colon c = false) by (intros ? ?; unfold at_colon; lia).
  unfold date_fields, low_text. rewrite Em. repeat (rewrite <- app_assoc; cbn [app]).
  rewrite FIND_first by done. step. rewrite (FIND_end at_blank) by done. step. rewrite atoi_number by (done || lia). step.
  apply Forall_cons in Hmn as Hmn'. destruct Hmn' as [[Hc0 Hc0b] _].
  rewrite FIND_here by (try done; unfold no_blank, at_blank in *; by rewrite Hc0b). step.
  match goal with |- context [FIND at_blank (c0 :: c1 :: c2 :: 32 :: ?r)] => change (c0 :: c1 :: c2 :: 32 :: r) with ([c0; c1; c2] ++ 32 :: r); rewrite FIND_at by done end. step. rewrite Hmo. step.
  rewrite (proj2 (Z.eqb_neq (tm_mon t) (-1))) by lia.
  rewrite FIND_number by (try done; intros E; by rewrite E in Yl). step.
  rewrite (FIND_end at_blank) by done. step. rewrite Yl. step. rewrite atoi_number by (try lia; try done; intros E; by rewrite E in Yl). step.
  rewrite FIND_number by done. step. rewrite (FIND_end at_colon) by done. step. rewrite atoi_number by (done || lia). step.
  rewrite (FIND_end at_colon) by done. step. rewrite atoi_number by (done || lia). step.
  rewrite (FIND_end at_blank) by done. step. rewrite atoi_number by (done || lia). step.
  assert (E : FIND no_blank (bl ++ c :: p) = Some (Some (bl, c :: p))).
  { apply FIND_at; [|done|unfold no_blank; lia]. destruct Hbl as [->| ->]; by repeat constructor. }
  rewrite E. step. rewrite Ho. step. rewrite Dv, Yv, Hv, Mv, Sv. 
  replace (tm_year t + 1900 - 1900) with (tm_year t) by lia.
  change (timegm (mk_tm _ _ _ _ _ _ _)) with (timegm t). by destruct (timegm t =? -1).
Qed.

(** ** Dates as they are written *)
Definition plain_lower (l : list Z) : Prop := Forall (fun c => c <> 0 /\ ztolower c <> 0 /\ ztolower c <> chr "-") l.
Lemma day_name_read n : 0 <= n < 7 -> exists c0 c1 c2, name_in day_names n = [c0; c1; c2] /\
  Forall (fun c => c <> 0 /\ ztolower c <> 0 /\ isdigit (ztolower c) = false /\ ztolower c <> chr "-") [c0; c1; c2].
Proof.
  intros Hn. below_cases ltac:(eexists _, _, _; (split; [by vm_compute|]); by repeat constructor).
Qed.
Lemma month_name_shape n : 0 <= n < 12 -> exists c0 c1 c2, name_in month_names n = [c0; c1; c2] /\
  plain_lower [c0; c1; c2].
Proof.
  intros Hm. below_cases ltac:(eexists _, _, _; (split; [by vm_compute|]); by repeat constructor).
Qed.
Lemma digit_lower c : isdigit c = true -> ztolower c = c.
Proof. intros H%isdigit_range. rewrite ztolower_spec; [|unfold byte_ok; lia]. unfold isupper, in_range.
  destruct (Z.leb_spec 65 c), (Z.leb_spec c 90); cbn; lia.
Qed.
Lemma digits_lower ds : all isdigit ds -> ztolower <$> ds = ds.
Proof. induction 1 as [|c ds Hc _ IH]; [done|]. cbn [fmap list_fmap]. by rewrite digit_lower, IH. Qed.
Lemma digits_plain ds : all isdigit ds -> plain_lower ds.
Proof. intros Hd. eapply Forall_impl; [exact Hd|]. intros c Hc. cbv beta. rewrite !digit_lower by done. apply isdigit_range in Hc. lia. Qed.
Lemma plain_no_dash l : plain_lower l -> no_dash (ztolower <$> l).
Proof. intros H. apply Forall_fmap. eapply Forall_impl; [exact H|]. by intros c (_ & _ & ?). Qed.
Lemma plain_nonzero l : plain_lower l -> Forall (.≠ 0) l.
Proof. intros H. eapply Forall_impl; [exact H|]. by intros c [? _]. Qed.

Lemma date_text_shape t : date_ok t -> 1000 <= tm_year t + 1900 <= 9999 -> plain_lower (date_text t) /\ zlen (date_text t) = 25 /\
  exists wd, (ztolower <$> date_text t) ++ [32] = low_text wd t /\ Forall (fun c => c <> 0 /\ isdigit c = false) wd.
Proof.
  intros [Hmon Hday Hhour Hmin Hsec Hwd] Hy. destruct (day_name_read _ Hwd) as (w0 & w1 & w2 & Ew & Hw).
  destruct (month_name_shape _ Hmon) as (m0 & m1 & m2 & Em & Hm). destruct (year_value _ Hy) as (Yd & _ & Yl).
  destruct (two_digits (tm_mday t)) as [Dd _]; [lia|]. destruct (two_digits (tm_hour t)) as [Hd _]; [lia|].
  destruct (two_digits (tm_min t)) as [Md _]; [lia|]. destruct (two_digits (tm_sec t)) as [Sd _]; [lia|].
  unfold date_text. rewrite Ew, Em. split; [|split].
  - repeat (apply Forall_app; split); try (by apply digits_plain); try (by repeat constructor); [|exact Hm].
    eapply Forall_impl; [exact Hw|]. by intros c (? & ? & _ & ?).
  - rewrite !zlen_app, Yl. done.
  - exists ([ztolower w0; ztolower w1; ztolower w2] ++ str ", "). split.
    + unfold low_text. rewrite !fmap_app, Em, (digits_lower _ Dd), (digits_lower _ Yd), (digits_lower _ Hd), (digits_lower _ Md), (digits_lower _ Sd).
      by rewrite <- !app_assoc.
    + repeat constructor; try done; (do 3 apply Forall_cons in Hw as [(? & ? & ? & ?) Hw]); done.
Qed.

(** The copy of a date with the zone [z]. *)
Lemma decode_text t z : date_ok t -> 1000 <= tm_year t + 1900 <= 9999 -> bytes_ok z -> Forall (.≠ 0) z -> zlen z <= 100 ->
  exists wd, Forall (fun c => c <> 0 /\ isdigit c = false) wd /\
  zmime_header_line_decode_date ((date_text t ++ 32 :: z) ++ [0]) =
    date_fields (low_text wd t ++ (undash <$> (ztolower <$> z)) ++ replicate (102 - length z) 0) (last_dash (ztolower <$> z) 26 0).
Proof.
  intros Ht Hy Hb Hz Hl. destruct (date_text_shape t Ht Hy) as (Hp & Hlen & wd & El & Hwd). exists wd. split; [done|].
  assert (Hlen' : length (date_text t) = 25%nat) by (unfold zlen in Hlen; lia).
  pose proof (plain_nonzero _ Hp) as H0. unfold zmime_header_line_decode_date.
  assert (Hnz : Forall (.≠ 0) (date_text t ++ 32 :: z)) by (apply Forall_app; split; [done|by constructor]).
  assert (Hll : length (date_text t ++ 32 :: z) = (26 + length z)%nat) by (rewrite length_app; cbn [length]; lia).
  rewrite strncpy_text by (try done; rewrite Hll; unfold zlen in Hl; lia). cbn [mbind option_bind]. rewrite Hll.
  assert (Er : replicate (127 - (26 + length z)) 0 ++ [0] = 0 :: replicate (127 - (26 + length z)) 0) by (by rewrite <- replicate_cons_app).
  rewrite <- app_assoc, Er, zstr_tolower_text by done. cbn [mbind option_bind].
  assert (Hlow : ztolower <$> date_text t ++ 32 :: z = low_text wd t ++ (ztolower <$> z)) by (rewrite <- El, fmap_app, <- app_assoc; done).
  assert (Hnd : no_dash (low_text wd t)) by (rewrite <- El; apply Forall_app; split; [by apply plain_no_dash|by repeat constructor]).
  rewrite Hlow, blank_dashes_text.
  2: { apply Forall_app. split; [|by apply lower_nonzero]. rewrite <- El. apply Forall_app. split; [|by repeat constructor].
       apply Forall_fmap. eapply Forall_impl; [exact Hp|]. by intros c (_ & ? & _). }
  cbn [mbind option_bind fst snd]. rewrite last_dash_app by done.
  replace (0 + zlen (low_text wd t)) with 26 by (rewrite <- El, zlen_app, zlen_fmap, Hlen; done).
  rewrite fmap_app, (undash_id _ Hnd), <- app_assoc. do 2 f_equal.
  by replace (102 - length z)%nat with (S (127 - (26 + length z))) by (unfold zlen in Hl; lia).
Qed.

(** ** The zone *)
(** A zone as the dates can show it: whole minutes, an abbreviation of at most
    three characters without a dash (others [zbuild_rfc822_date_string] writes
    too, but they are not read back, or not written whole). *)
Record zone_ok (off : Z) (name : list Z) : Prop := {
  zone_whole : off mod 60 = 0;
  zone_range : Z.abs off < 360000;
  zone_bytes : bytes_ok name;
  zone_nonzero : Forall (.≠ 0) name;
  zone_no_dash : no_dash name;
  zone_short : zlen name <= 3
}.
Definition zone_tail (off : Z) (name : list Z) : list Z := zone_text off ++ str " (" ++ name ++ str ")".
Definition zone_digits (off : Z) : list Z := two (Z.abs off / 60 / 60) ++ two (Z.abs off / 60 mod 60).
Lemma zone_digits_ok off : Z.abs off < 360000 -> all isdigit (zone_digits off).
Proof. intros H. apply Forall_app. split; apply two_digits; zdiv. Qed.
Lemma lower_no_dash l : bytes_ok l -> no_dash l -> no_dash (ztolower <$> l).
Proof.
  intros Hb H0. apply Forall_fmap. eapply Forall_impl; [apply Forall_and; split; [exact Hb|exact H0]|].
  intros c [Hc Hc0]. unfold compose. rewrite ztolower_spec by done. unfold isupper, in_range, byte_ok in *.
  destruct (Z.leb_spec 65 c), (Z.leb_spec c 90); cbn; lia.
Qed.
Lemma s8_digit c : isdigit c = true -> s8 c = c.
Proof. intros Hc%isdigit_range. unfold s8, swrap. zdiv. Qed.
Lemma date_offset_read sgn off y zs : sgn = chr "-" \/ sgn = chr "+" -> Z.abs off < 360000 -> off mod 60 = 0 -> Forall (.≠ 0) y ->
  date_offset (sgn :: zone_digits off ++ y ++ 0 :: zs) = Some (if sgn =? chr "-" then -1 else 1, Z.abs off).
Proof.
  intros Hs Hr Hm Hy. pose proof (zone_digits_ok off Hr) as Hd. unfold date_offset.
  assert (Hn : Forall (.≠ 0) (sgn :: zone_digits off ++ y)).
  { constructor; [lia|]. apply Forall_app. split; [|done]. eapply Forall_impl; [exact Hd|]. intros c Hc%isdigit_range. lia. }
  rewrite (app_assoc (zone_digits off)), app_comm_cons, cstr_app by done. cbn [fmap option_fmap option_map mbind option_bind].
  assert (Hl : 5 <= zlen (sgn :: zone_digits off ++ y)) by (rewrite zlen_cons, zlen_app; pose proof (zlen_nonneg y); change (zlen (zone_digits off)) with 4; lia).
  rewrite (proj2 (Z.ltb_ge _ 5)) by done. cbn [app]. unfold zone_digits, two in *. cbn [app] in *.
  apply Forall_cons in Hd as [Ea%s8_digit Hd]. apply Forall_cons in Hd as [Eb%s8_digit Hd].
  apply Forall_cons in Hd as [Ec%s8_digit Hd]. apply Forall_cons in Hd as [Ed%s8_digit _]. unfold rd. cbn [Z.ltb Z.compare].
  change (Z.to_nat 0) with 0%nat. change (Z.to_nat 1) with 1%nat. change (Z.to_nat 2) with 2%nat. change (Z.to_nat 3) with 3%nat. change (Z.to_nat 4) with 4%nat.
  cbn [lookup list_lookup mbind option_bind]. rewrite Ea, Eb, Ec, Ed. do 2 f_equal. zdiv.
Qed.
Lemma zone_tail_low off name : zone_ok off name -> ztolower <$> zone_tail off name =
  (if off <? 0 then chr "-" else chr "+") :: zone_digits off ++ 32 :: str "(" ++ (ztolower <$> name) ++ str ")".
Proof.
  intros [Hm Hr Hb H0 Hd Hs]. unfold zone_tail, zone_text. cbv zeta. fold (zone_digits off). rewrite !fmap_app.
  rewrite (fmap_cons ztolower), (digits_lower _ (zone_digits_ok off Hr)). by destruct (off <? 0).
Qed.
Lemma zone_tail_ok off name : zone_ok off name -> bytes_ok (zone_tail off name) /\ Forall (.≠ 0) (zone_tail off name) /\
  zlen (zone_tail off name) = 8 + zlen name.
Proof.
  intros [Hm Hr Hb H0 Hd Hs]. pose proof (zone_digits_ok off Hr) as Hz. unfold zone_tail, zone_text. cbv zeta. fold (zone_digits off).
  assert (Hb' : bytes_ok (zone_digits off) /\ Forall (.≠ 0) (zone_digits off)).
  { split; (eapply Forall_impl; [exact Hz|]; intros c Hc%isdigit_range; unfold byte_ok; lia). }
  destruct Hb' as [Hzb Hz0]. repeat split.
  - apply Forall_app; split; [constructor; [by destruct (off <? 0)|done]|]. apply Forall_app; split; [by repeat constructor|].
    apply Forall_app; split; [done|by repeat constructor].
  - apply Forall_app; split; [constructor; [by destruct (off <? 0)|done]|]. apply Forall_app; split; [by repeat constructor|].
    apply Forall_app; split; [done|by repeat constructor].
  - unfold zlen, zone_digits, two. cbn [app length]. rewrite !length_app. cbn [length]. lia.
Qed.
(** A date with a zone is read as the date less the offset of the zone. *)
Lemma decode_zone t off name : date_ok t -> 1000 <= tm_year t + 1900 <= 9999 -> zone_ok off name ->
  zmime_header_line_decode_date ((date_text t ++ 32 :: zone_tail off name) ++ [0]) =
    Some (if timegm t =? -1 then -1 else timegm t - off).
Proof.
  intros Ht Hy Hz. destruct (zone_tail_ok off name Hz) as (Hb & H0 & Hl). pose proof (zone_short _ _ Hz) as Hs. zlen_facts.
  destruct (decode_text t (zone_tail off name) Ht Hy Hb H0 ltac:(lia)) as (wd & Hwd & ->). rewrite (zone_tail_low _ _ Hz).
  set (rest := 32 :: str "(" ++ (ztolower <$> name) ++ str ")"). pose proof (zone_digits_ok off (zone_range _ _ Hz)) as Hzd.
  assert (Hlen : length (zone_tail off name) = (8 + length name)%nat) by (unfold zlen in Hl; lia).
  assert (Hlr : length rest = (3 + length name)%nat) by (unfold rest; cbn; rewrite length_app, length_fmap; cbn; lia).
  assert (Hnr : no_dash rest).
  { unfold rest. constructor; [done|]. constructor; [done|]. apply Forall_app. split; [|by repeat constructor]. by apply lower_no_dash; apply Hz. }
  assert (Hndz : no_dash (zone_digits off)) by (eapply Forall_impl; [exact Hzd|]; intros c Hc%isdigit_range; lia).
  assert (Hnd : no_dash (zone_digits off ++ rest)) by (by apply Forall_app).
  assert (Hr0 : Forall (.≠ 0) rest).
  { unfold rest. constructor; [done|]. constructor; [done|]. apply Forall_app. split; [|by repeat constructor]. apply lower_nonzero; apply Hz. }
  rewrite Hlen, fmap_cons, (undash_id _ Hnd). cbn [last_dash].
  replace (102 - (8 + length name))%nat with (S (93 - length name)) by (unfold zlen in Hs; lia).
  rewrite <- (app_nil_r (zone_digits off ++ rest)) at 2. rewrite last_dash_app by done. cbn [last_dash].
  pose proof (date_offset_read (if off <? 0 then chr "-" else chr "+") off rest (replicate (93 - length name) 0)) as Ho.
  assert (Hsz : zlen (zone_digits off ++ rest ++ 0 :: replicate (93 - length name) 0) = 101).
  { unfold zlen. rewrite !length_app. cbn [length]. rewrite Hlr, length_replicate. change (length (zone_digits off)) with 4%nat. unfold zlen in Hs. lia. }
  specialize (Ho ltac:(destruct (off <? 0); auto) (zone_range _ _ Hz) (zone_whole _ _ Hz) Hr0).
  set (zs := replicate (93 - length name) 0) in *. cbn [app replicate]. fold zs. rewrite <- app_assoc.
  destruct (Z.ltb_spec off 0) as [Hn|Hn].
  - change (undash (chr "-")) with 32. destruct (zone_digits off) as [|c ds] eqn:Ed; [done|]. apply Forall_cons in Hzd as [Hc%isdigit_range _].
    etransitivity; [apply (date_fields_read wd t [32] c (ds ++ rest ++ 0 :: zs) 26 (-1) (Z.abs off)); try done; try lia; [by right|]|].
    2: { destruct (timegm t =? -1); f_equal. lia. }
    change (c :: ds ++ rest ++ 0 :: zs) with ((c :: ds) ++ rest ++ 0 :: zs). rewrite Hsz. done.
  - change (undash (chr "+")) with 43.
    etransitivity; [apply (date_fields_read wd t [] 43 (zone_digits off ++ rest ++ 0 :: zs) 0 1 (Z.abs off)); try done; [by left|]|].
    2: { destruct (timegm t =? -1); f_equal. lia. }
    rewrite zlen_cons, Hsz. done.
Qed.

(** ** Theorems *)
(** C28: a date the library writes is the date it reads. [zbuild_rfc1123_date_string]
    writes the date of every time of the years 1000 to 9999, within its 32 bytes,
    and [zmime_header_line_decode_date] finds that time in it;
    [zbuild_rfc822_date_string] does so for the local time in every zone of whole
    minutes whose abbreviation has at most three characters, none of them a dash
    (as "-03" has: its dash is taken for the sign of the offset, see
    [zmime_date_dash_zone]), but the last second of 1969 by the local clock is
    taken for an error and answered -1. An abbreviation of four characters or more,
    as "CEST", does not fit the 38 bytes: the buffer is left unspecified. *)
Theorem zmime_date_roundtrip `{!Timezone} (t : Z) :
  (-30610224000 <= t < 253402300800 -> exists buf,
    zbuild_rfc1123_date_string t = Some (Some buf) /\ zmime_header_line_decode_date buf = Some t) /\
  (let '(off, name) := zone_at t in
   -30610224000 <= t + off < 253402300800 ->
    (zone_ok off name -> exists buf,
      zbuild_rfc822_date_string t = Some (Some buf) /\
      zmime_header_line_decode_date buf = Some (if t + off =? -1 then -1 else t)) /\
    (3 < zlen name -> zbuild_rfc822_date_string t = Some None)).
Proof.
  assert (Hg : forall t, -30610224000 <= t < 253402300800 -> exists tmb, gmtime_r t = Some tmb /\
    date_ok tmb /\ timegm tmb = t /\ 1000 <= tm_year tmb + 1900 <= 9999).
  { intros u Hu. destruct (gmtime_year u 1000 10000 eq_refl eq_refl Hu) as (tmb & E & Hy). exists tmb.
    destruct (gmtime_spec u tmb E) as (? & ? & _). split; [done|]; split; [done|]; split; [done|lia]. }
  split.
  - intros Ht. destruct (Hg t Ht) as (tmb & E & Hok & Hgm & Hy). destruct (date_text_shape tmb Hok Hy) as (_ & Hl & _).
    exists ((date_text tmb ++ str " GMT") ++ [0]). unfold zbuild_rfc1123_date_string, strftime. rewrite E. cbn [mbind option_bind].
    rewrite zlen_app, Hl. split; [done|].
    destruct (decode_text tmb (str "GMT") Hok Hy ltac:(by repeat constructor) ltac:(by repeat constructor) ltac:(done)) as (wd & Hwd & E1).
    rewrite E1. etransitivity; [apply (date_fields_read wd tmb [] (chr "g") _ _ 0 0); try done; by left|]. rewrite Hgm. destruct (Z.eqb_spec t (-1)); f_equal; lia.
  - destruct (zone_at t) as [off name] eqn:Ez. intros Ht. destruct (Hg (t + off) Ht) as (tmb & E & Hok & Hgm & Hy).
    destruct (date_text_shape tmb Hok Hy) as (_ & Hl & _). split.
    2: { intros Hn. unfold zbuild_rfc822_date_string, localtime_r, strftime. rewrite Ez. cbn [fst snd]. rewrite E. cbn [mbind option_bind].
         rewrite !zlen_app, Hl. unfold zone_text, two. cbv zeta. rewrite zlen_cons.
         by rewrite (proj2 (Z.leb_gt _ zvar_rfc822_date_string_size)) by (unfold zvar_rfc822_date_string_size, zlen in *; cbn [length app]; lia). }
    intros Hz. destruct (zone_tail_ok off name Hz) as (_ & _ & Hzl).
    exists ((date_text tmb ++ 32 :: zone_tail off name) ++ [0]). unfold zbuild_rfc822_date_string, localtime_r. rewrite Ez. cbn [fst snd].
    rewrite E. cbn [mbind option_bind]. split.
    + unfold strftime. change (date_text tmb ++ str " " ++ _) with (date_text tmb ++ 32 :: zone_tail off name).
      pose proof (zone_short _ _ Hz). rewrite zlen_app, zlen_cons, Hl, Hzl.
      rewrite (proj2 (Z.leb_le _ zvar_rfc822_date_string_size)) by (unfold zvar_rfc822_date_string_size; lia). done.
    + rewrite decode_zone by done. rewrite Hgm. do 2 f_equal. case_match; lia.
Qed.

(** ** Runs *)
Definition est : Timezone := fun _ => (-18000, str "EST").
Definition cest : Timezone := fun _ => (7200, str "CEST").
Definition brt : Timezone := fun _ => (-10800, str "-03").
Lemma zmime_date_roundtrip_witness : exists buf,
  @zbuild_rfc822_date_string est 1709226000 = Some (Some buf) /\ zmime_header_line_decode_date buf = Some 1709226000.
Proof.
  destruct (@zmime_date_roundtrip est 1709226000) as [_ H]. cbn [zone_at est] in H.
  destruct (H ltac:(done)) as [Hz _]. destruct Hz as (buf & ? & E); [split; try done; by repeat constructor|].
  exists buf. split; [done|]. by rewrite E.
Defined.
(** An abbreviation of four characters leaves [buf] undefined; in one with a dash
    the sign of the offset is lost. *)
Lemma zbuild_rfc822_overruns : @zbuild_rfc822_date_string cest 1709226000 = Some None.
Proof. by vm_compute. Qed.
Lemma zmime_date_dash_zone : (buf ← @zbuild_rfc822_date_string brt 1709226000; buf ← buf; zmime_header_line_decode_date buf) = Some 1709108160.
Proof. by vm_compute. Qed.
(** A date without seconds, which RFC 5322 allows, is an error. *)
Lemma zmime_date_no_seconds : zmime_header_line_decode_date (str "Thu, 29 Feb 2024 12:00 +0000" ++ [0]) = Some (-1).
Proof. by vm_compute. Qed.
