(* ===== verification/Address.v ===== *)
(** * Addresses in the lines of a mail header: src/mime/address.c

    A pointer into the header line is what is left of the line. The cache a single
    address is copied into is the block of the bytes put there and the NUL behind
    them; what an earlier address left behind that NUL is out of reach. *)
From S2P Require Import Prelude Chars Buf Text Dict Mime.

(** ** One address *)
(** The [for] loop: [i] is counted by the bytes left, [put] by the bytes in
    [w]; [Some None] is the return of -1 when the cache is full. The result is
    the cache and the bytes left. *)
Fixpoint tok_loop (p : list Z) (last : bool) (inquote find_lt : bool) (w : list Z) (size : Z) :
    option (option (list Z * list Z)) :=
  let put (c : Z) (k : list Z -> option (option (list Z * list Z))) :=
    if zlen w >? size then Some None else k (w ++ [c]) in
  match p with
  | [] => Some (Some (w, []))
  | c :: p =>
      if last then put c (fun w => tok_loop p false inquote find_lt w size)
      else if c =? chr "\" then tok_loop p true inquote find_lt w size
      else if c =? 34 then
        if inquote then put c (fun w => tok_loop p false false find_lt w size)
        else tok_loop p false true false w size
      else if inquote then put c (fun w => tok_loop p false inquote find_lt w size)
      else if c =? chr "," then Some (Some (w, p))
      else if c =? chr ";" then Some (Some (w, p))
      else
        let find_lt := if c =? chr "<" then true else find_lt in
        put c (fun w => if (c =? chr ">") && find_lt then Some (Some (w, p)) else tok_loop p false inquote find_lt w size)
  end.

(** The loop that removes each '>' at the end: [Some None] is the return of -2. *)
Fixpoint strip_gt (fuel : nat) (m : list Z) (pstr : Z) : option (option (list Z * Z * Z)) :=
  match fuel with
  | O => None
  | S fuel' =>
      '(m, pstr) ← ztrim m pstr;
      plen ← strlen_at m pstr;
      if plen <? 1 then Some None else
      c ← rd m (pstr + plen - 1);
      if c =? chr ">" then m ← wr m (pstr + plen - 1) (chr " "); strip_gt fuel' m pstr
      else Some (Some (m, pstr, plen))
  end.

(** From the end for a '<', a blank, a quotation mark or a byte that is not ASCII: the block and [findi]. *)
Fixpoint find_mail (n : nat) (m : list Z) (pstr : Z) : option (list Z * Z) :=
  match n with
  | O => Some (m, -1)
  | S n' =>
      let i := Z.of_nat n' in
      ch ← rd m (pstr + i);
      let high := negb (Z.land ch 128 =? 0) in
      if (ch =? chr "<") || (ch =? chr " ") || (ch =? 34) || high then
        m ← (if high then Some m else wr m (pstr + i) 0);
        Some (m, i)
      else find_mail n' m pstr
  end.
(** The loop over the name: [n] bytes of it are left at index [name]. *)
Fixpoint blank_quotes (fuel : nat) (m : list Z) (name : Z) : option (list Z) :=
  match fuel with
  | O => None
  | S fuel' =>
      c ← rd m name;
      if c =? 0 then wr m name 0 else
      m ← wr m name (if c =? 34 then chr " " else c);
      blank_quotes fuel' m (name + 1)
  end.

(** What is done with the name at [name]: the block and [*rname]. *)
Definition take_name (m : list Z) (name : Z) : option (list Z * Z) :=
  m ← blank_quotes (S (length m)) m name;
  name_len ← strlen_at m name;
  '(slen, rname) ← zskip m name name_len (32 :: 9 :: 34 :: 39 :: 13 :: [10]) None;
  if slen >? 0 then rname ← rname; m ← wr m (rname + slen) 0; Some (m, rname) else ztrim m name.

Inductive tok_result := TokEnd | TokNone | Tok (name address : list Z).
(** What is done with the cache [m] of [idx] bytes and a NUL: -2 is [TokNone]. *)
Definition tok_cache (m : list Z) (idx : Z) : option tok_result :=
  if idx <? 1 then Some TokNone else
  r ← strip_gt (S (length m)) m 0;
  match r with
  | None => Some TokNone
  | Some (m, pstr, plen) =>
      '(m, findi) ← find_mail (Z.to_nat plen) m pstr;
      if findi >? -1 then
        '(m, mail) ← ztrim m (pstr + findi + 1);
        '(m, rname) ← take_name m pstr;
        name ← cstr (drop (Z.to_nat rname) m);
        address ← cstr (drop (Z.to_nat mail) m);
        Some (Tok name address)
      else address ← cstr (drop (Z.to_nat pstr) m); Some (Tok [] address)
  end.
(** The result, and [*str] after it; [*len] is the length of what is left. *)
Definition zmime_header_line_address_tok (p : list Z) (size : Z) : option (tok_result * list Z) :=
  if zlen p <=? 0 then Some (TokEnd, p) else
  r ← tok_loop p false false false [] size;
  match r with
  | None => Some (TokEnd, p)
  | Some (w, p) => r ← tok_cache (w ++ [0]) (zlen w); Some (r, p)
  end.

(** ** Vectors of addresses *)
(** [zmime_address_t] *)
Record address := mk_address { a_name : list Z; a_address : list Z; a_name_utf8 : list Z }.

Definition create_mime_address_simple (n a : list Z) : option address :=
  m ← zstr_tolower (a ++ [0]);
  a ← cstr m;
  Some (mk_address n a []).

Section charsets.
Context `{!Charsets}.
Variable src_charset_def : option (list Z).

(** The loop that joins the names of a vector, [i] when one was put already. *)
Fixpoint join_names (vec : list address) (i : bool) (tmpbf : zbuf) : option zbuf :=
  match vec with
  | [] => Some tmpbf
  | ma :: vec =>
      tmpbf ← (if i then zbuf_strcat tmpbf (Some (str " " ++ [0])) else Some tmpbf);
      tmpbf ← zbuf_strcat tmpbf (Some (a_name ma ++ [0]));
      join_names vec true tmpbf
  end.
(** The call of [zmime_header_line_get_address_vector_engine] on a buffer is [engine]. *)
Definition create_mime_address (engine : list Z -> Z -> option (list address)) (n a : list Z) (loop_mode : bool) : option address :=
  if loop_mode || negb (default 0 (head n) =? 0) || negb (default 0 (head a) =? chr "=") || negb (default 0 (a !! 1%nat) =? chr "?")
  then create_mime_address_simple n a else
  let alen := zlen a in
  tmpbf ← zbuf_create (2 * alen + 100);
  tmpbf ← zmime_header_line_get_utf8 src_charset_def (a ++ [0]) alen tmpbf;
  data ← zbuf_data_z tmpbf;
  vec ← engine data (bf_len tmpbf);
  match vec with
  | [] => create_mime_address_simple n a
  | ma0 :: _ =>
      tmpbf ← zbuf_reset tmpbf;
      tmpbf ← join_names vec false tmpbf;
      name ← zbuf_data_z tmpbf;
      name ← cstr name;
      Some (mk_address name (a_address ma0) [])
  end.

(** The [while] loop of the engine: [in_len] bytes are cut into addresses. *)
Fixpoint address_loop (rounds : nat) (create : list Z -> list Z -> option address) (p : list Z) (size : Z) : option (list address) :=
  match rounds with
  | O => None
  | S rounds' =>
      r ← zmime_header_line_address_tok p size;
      match r with
      | (TokEnd, _) => Some []
      | (TokNone, p) => address_loop rounds' create p size
      | (Tok n a, p) => addr ← create n a; vec ← address_loop rounds' create p size; Some (addr :: vec)
      end
  end.
(** [loop_mode] is not passed on: [create_mime_address] is called with 0. *)
Fixpoint zmime_header_line_get_address_vector_engine (fuel : nat) (in_str : list Z) (in_len : Z) (loop_mode : bool) : option (list address) :=
  match fuel with
  | O => None
  | S fuel' =>
      in_len ← (if in_len =? -1 then zlen <$> cstr in_str else Some in_len);
      if in_len <? 1 then Some [] else
      p ← read_bytes in_str in_len;
      address_loop (S (length p))
        (fun n a => create_mime_address (fun s len => zmime_header_line_get_address_vector_engine fuel' s len true) n a false) p (in_len + 1000)
  end.
Definition zmime_header_line_get_address_vector (fuel : nat) (in_str : list Z) (in_len : Z) : option (list address) :=
  zmime_header_line_get_address_vector_engine fuel in_str in_len false.

(** The walk of the UTF-8 variant over the vector. *)
Fixpoint utf8_names (vec : list address) (tmpbf bq_join out_string : zbuf) : option (list address) :=
  match vec with
  | [] => Some []
  | addr :: vec =>
      if negb (default 0 (head (a_name addr)) =? 0) && (default 0 (head (a_name_utf8 addr)) =? 0) then
        tmpbf ← zbuf_reset tmpbf;
        bq_join ← zbuf_reset bq_join;
        out_string ← zbuf_reset out_string;
        r ← zmime_header_line_get_utf8_engine src_charset_def (a_name addr ++ [0]) (-1) tmpbf bq_join out_string;
        name ← zbuf_data_z r.1.1;
        name ← cstr name;
        vec ← utf8_names vec r.1.1 r.1.2 r.2;
        Some (mk_address (a_name addr) (a_address addr) name :: vec)
      else vec ← utf8_names vec tmpbf bq_join out_string; Some (addr :: vec)
  end.
Definition zmime_header_line_get_address_vector_utf8 (fuel : nat) (in_str : list Z) (in_len : Z) : option (list address) :=
  vec ← zmime_header_line_get_address_vector fuel in_str in_len;
  tmpbf ← zbuf_create 128;
  bq_join ← zbuf_create (-1);
  out_string ← zbuf_create (-1);
  utf8_names vec tmpbf bq_join out_string.
End charsets.
