(* ===== verification/AddressTok.v ===== *)
(** * One address of a header line

    The text of an address, its name and its mail address, without a cache: what
    the tokenizer of Address.v finds in any line. *)
From S2P Require Import Prelude Chars Buf Text Scan Mime Address.

(** ** The text of an address *)
(** The bytes copied, and what is left of the line. *)
Fixpoint tok_text (p : list Z) (last inquote find_lt : bool) : list Z * list Z :=
  match p with
  | [] => ([], [])
  | c :: p =>
      let put r := (c :: r.1, r.2) in
      if last then put (tok_text p false inquote find_lt)
      else if c =? chr "\" then tok_text p true inquote find_lt
      else if c =? 34 then
        if inquote then put (tok_text p false false find_lt) else tok_text p false true false
      else if inquote then put (tok_text p false inquote find_lt)
      else if (c =? chr ",") || (c =? chr ";") then ([], p)
      else
        let find_lt := (c =? chr "<") || find_lt in
        if (c =? chr ">") && find_lt then ([c], p) else put (tok_text p false inquote find_lt)
  end.
Lemma tok_loop_text p : forall last inquote find_lt w size, zlen w + zlen p <= size ->
  tok_loop p last inquote find_lt w size =
  Some (Some (w ++ (tok_text p last inquote find_lt).1, (tok_text p last inquote find_lt).2)).
Proof.
  induction p as [|c p IH]; intros last inquote find_lt w size Hs; cbn [tok_loop tok_text]; [by rewrite app_nil_r|].
  rewrite zlen_cons in Hs. zlen_facts.
  assert (Hput : forall l q f, (if zlen w >? size then Some None else tok_loop p l q f (w ++ [c]) size) =
    Some (Some (w ++ (c :: (tok_text p l q f).1), (tok_text p l q f).2))).
  { intros l q f. rewrite Z.gtb_ltb, (proj2 (Z.ltb_ge size (zlen w))) by lia. rewrite IH by (rewrite zlen_app, zlen_cons, zlen_nil; lia).
    by rewrite <- app_assoc. }
  destruct last; [apply Hput|]. destruct (c =? chr "\"); [apply IH; lia|].
  destruct (c =? 34); [destruct inquote; [apply Hput|apply IH; lia]|]. destruct inquote; [apply Hput|].
  destruct (c =? chr ","); cbn [orb]; [by rewrite app_nil_r|]. destruct (c =? chr ";"); cbn [orb]; [by rewrite app_nil_r|].
  replace (if c =? chr "<" then true else find_lt) with ((c =? chr "<") || find_lt) by (by destruct (c =? chr "<")).
  destruct (_ && _); [|apply Hput]. by rewrite Z.gtb_ltb, (proj2 (Z.ltb_ge size (zlen w))) by lia.
Qed.
Lemma tok_text_rest c p : (length (tok_text (c :: p) false false false).2 <= length p)%nat.
Proof.
  assert (H : forall p l q f, (length (tok_text p l q f).2 <= length p)%nat).
  { clear. induction p as [|c p IH]; intros l q f; cbn [tok_text]; [done|]. cbn [length].
    pose proof (fun l q f => Nat.le_trans _ _ _ (IH l q f) (Nat.le_succ_diag_r _)) as H.
    repeat case_match; cbn [fst snd]; auto using Nat.le_succ_diag_r; lia. }
  cbn [tok_text]. repeat case_match; cbn [fst snd]; auto.
Qed.

(** ** Stripping *)
Definition rstrip (d : Z -> bool) (l : list Z) : list Z := rev (drop_while d (rev l)).
Definition strip (d : Z -> bool) (l : list Z) : list Z := rstrip d (drop_while d l).
(** A C string within a block: where it starts, and that it ends there. *)
Definition in_block (m pre x : list Z) : Prop := Forall (.≠ 0) x /\ exists rest, m = pre ++ x ++ 0 :: rest.
Lemma rstrip_spec d l : exists b, l = rstrip d l ++ b /\ all d b /\ (forall c, last (rstrip d l) = Some c -> d c = false).
Proof.
  exists (rev (take_while d (rev l))). unfold rstrip. split; [|split].
  - by rewrite <- rev_app_distr, take_drop_while, rev_involutive.
  - apply Forall_rev, take_while_all.
  - intros c. replace (last (rev _)) with (head (drop_while d (rev l))); [apply drop_while_head|].
    destruct (drop_while d (rev l)); [done|]. symmetry. apply last_snoc.
Qed.
Lemma rstrip_unique d core b : all d b -> (forall c, last core = Some c -> d c = false) -> rstrip d (core ++ b) = core.
Proof.
  intros Hb Hc. unfold rstrip. rewrite rev_app_distr. assert (Hr : all d (rev b)) by by apply Forall_rev.
  revert Hr. generalize (rev b). intros r Hr. induction Hr as [|c r Hcr _ IH].
  - destruct core as [|x core _] using rev_ind; [done|]. rewrite last_snoc in Hc. cbn [app]. rewrite rev_app_distr. cbn [rev app drop_while].
    rewrite (Hc x eq_refl). cbn [rev]. by rewrite rev_involutive.
  - cbn [app drop_while]. by rewrite Hcr.
Qed.
Lemma trims_strip d l a core b : trims d d l a core b -> core = strip d l /\ (core <> [] -> a = take_while d l).
Proof.
  intros (E & Ha & Hb & Hh & Hl). assert (Hd : forall y, (forall c, head y = Some c -> d c = false) -> drop_while d (a ++ y) = y /\ take_while d (a ++ y) = a).
  { clear -Ha. intros y Hy. induction Ha as [|c a Hc _ [IH1 IH2]]; cbn [app drop_while take_while].
    - destruct y as [|c y]; [done|]. cbn [drop_while take_while]. by rewrite (Hy c eq_refl).
    - rewrite Hc. split; [done|by f_equal]. }
  destruct core as [|c core].
  - split; [|done]. subst l. unfold strip. assert (Hall : forall x, all d x -> drop_while d x = []).
    { clear. induction 1 as [|c x Hc _ IH]; [done|]. cbn. by rewrite Hc. }
    rewrite Hall; [done|]. by apply Forall_app.
  - destruct (Hd ((c :: core) ++ b)) as [E1 E2]; [by apply Hh|]. subst l. unfold strip. rewrite E1. split; [|done].
    symmetry. by apply rstrip_unique.
Qed.
Lemma rstrip_app_all d l b : all d b -> rstrip d (l ++ b) = rstrip d l.
Proof.
  intros Hb. destruct (rstrip_spec d l) as (b' & E & Hb' & Hl). rewrite E at 1. rewrite <- app_assoc.
  apply rstrip_unique; [by apply Forall_app|done].
Qed.
Lemma rstrip_length d l : (length (rstrip d l) <= length l)%nat.
Proof. destruct (rstrip_spec d l) as (b & E & _). rewrite E at 2. rewrite length_app. lia. Qed.
Lemma strip_nil d l : strip d l = [] -> drop_while d l = [].
Proof.
  intros E. unfold strip in E. pose proof (drop_while_head d l) as Hh. destruct (rstrip_spec d (drop_while d l)) as (b & Eb & Hb & _).
  rewrite E in Eb. cbn [app] in Eb. destruct (drop_while d l) as [|c y]; [done|]. specialize (Hh c eq_refl).
  rewrite <- Eb in Hb. apply Forall_cons in Hb as [Hc _]. by rewrite Hh in Hc.
Qed.

Lemma insert_mid (l1 l2 : list Z) y v n : n = zlen l1 -> <[Z.to_nat n := v]> (l1 ++ y :: l2) = l1 ++ v :: l2.
Proof. intros ->. rewrite zlen_to_nat, <- (Nat.add_0_r (length l1)), insert_app_r. done. Qed.
(** [ztrim] within a block. *)
Lemma ztrim_shape pre x rest : Forall (.≠ 0) x -> exists a b, x = a ++ strip DELETE x ++ b /\ all DELETE b /\
  (strip DELETE x <> [] -> a = take_while DELETE x) /\
  (forall c, head (strip DELETE x) = Some c -> DELETE c = false) /\ (forall c, last (strip DELETE x) = Some c -> DELETE c = false) /\
  ztrim (pre ++ x ++ 0 :: rest) (zlen pre) = Some (pre ++ a ++ strip DELETE x ++ 0 :: tail (b ++ 0 :: rest), zlen (pre ++ a)).
Proof.
  intros Hx. destruct (ztrim_spec pre x rest Hx) as ([m' p] & E & a & core & b & Ht & -> & -> & _).
  destruct (trims_strip _ _ _ _ _ Ht) as [Ec Ha]. destruct Ht as (Ex & _ & Hb & Hh & Hl). exists a, b. rewrite <- Ec. split; [done|]. split; [done|]. split; [done|].
  split; [done|]. split; [done|]. rewrite E. rewrite zlen_app. do 2 f_equal. rewrite Ex.
  assert (El : pre ++ (a ++ core ++ b) ++ 0 :: rest = (pre ++ a ++ core) ++ hd 0 (b ++ 0 :: rest) :: tail (b ++ 0 :: rest)).
  { rewrite <- !app_assoc. by destruct b. }
  rewrite El, insert_mid by (rewrite !zlen_app; lia). by rewrite <- !app_assoc.
Qed.
Lemma strlen_block pre x rest : Forall (.≠ 0) x -> strlen_at (pre ++ x ++ 0 :: rest) (zlen pre) = Some (zlen x).
Proof. by apply (strlen_at_string _ pre x rest). Qed.
(** ** White space and '>' at the ends *)
Definition is_gt (c : Z) : bool := DELETE c || (c =? chr ">").
Definition text_of (x : list Z) : list Z := rstrip is_gt (drop_while DELETE x).
Lemma drop_while_app_head d (a y : list Z) : all d a -> (forall c, head y = Some c -> d c = false) -> drop_while d (a ++ y) = y.
Proof.
  intros Ha Hy. induction Ha as [|c a Hc _ IH]; cbn [app drop_while]; [|by rewrite Hc].
  destruct y as [|c y]; [done|]. cbn [drop_while]. by rewrite (Hy c eq_refl).
Qed.
Lemma strip_gt_spec fuel : forall pre x rest, Forall (.≠ 0) x -> (length (strip DELETE x) < fuel)%nat ->
  (text_of x = [] /\ strip_gt fuel (pre ++ x ++ 0 :: rest) (zlen pre) = Some None) \/
  (text_of x <> [] /\ exists pre' rest', strip_gt fuel (pre ++ x ++ 0 :: rest) (zlen pre) =
    Some (Some (pre' ++ text_of x ++ 0 :: rest', zlen pre', zlen (text_of x)))).
Proof.
  induction fuel as [|fuel IH]; intros pre x rest Hx Hf; [lia|]. cbn [strip_gt].
  destruct (ztrim_shape pre x rest Hx) as (a & b & Ex & Hb & Ha & Hh & Hl & ->). cbn [mbind option_bind].
  set (rest1 := tail (b ++ 0 :: rest)). rewrite (app_assoc pre a).
  assert (Hnz : Forall (.≠ 0) (strip DELETE x)) by (rewrite Ex in Hx; by apply Forall_app in Hx as [_ [Hx _]%Forall_app]).
  rewrite strlen_block by done. cbn [mbind option_bind].
  destruct (strip DELETE x) as [|c core _] eqn:Es using rev_ind.
  { left. split; [unfold text_of; by rewrite (strip_nil _ _ Es)|done]. }
  rewrite (proj2 (Z.ltb_ge _ 1)) by (rewrite zlen_app, zlen_cons, zlen_nil; pose proof (zlen_nonneg core); lia).
  assert (Eb : (pre ++ a) ++ (core ++ [c]) ++ 0 :: rest1 = ((pre ++ a) ++ core) ++ c :: 0 :: rest1) by (by rewrite <- !app_assoc).
  rewrite Eb. replace (zlen (pre ++ a) + zlen (core ++ [c]) - 1) with (zlen ((pre ++ a) ++ core)) by (rewrite !zlen_app, zlen_cons, zlen_nil; lia).
  rewrite rd_at. cbn [mbind option_bind]. assert (Hc : DELETE c = false) by (apply Hl; by rewrite last_snoc).
  assert (Ed : drop_while DELETE x = (core ++ [c]) ++ b).
  { rewrite Ex at 1. rewrite Ha by (by destruct core). apply drop_while_app_head; [apply take_while_all|].
    intros d Hd. apply Hh. by destruct core. }
  destruct (Z.eqb_spec c (chr ">")) as [->|Hgt].
  - rewrite wr_app. cbn [mbind option_bind].
    assert (El : ((pre ++ a) ++ core) ++ chr " " :: 0 :: rest1 = (pre ++ a) ++ (core ++ [32]) ++ 0 :: rest1) by (by rewrite <- !app_assoc).
    rewrite El.
    assert (Et : text_of (core ++ [32]) = text_of x).
    { unfold text_of at 2. rewrite Ed, <- app_assoc. rewrite (rstrip_app_all is_gt core).
      2: { constructor; [done|]. eapply Forall_impl; [exact Hb|]. unfold is_gt. by intros d ->. }
      unfold text_of. destruct core as [|d core]; [done|]. cbn [app drop_while]. rewrite (Hh d eq_refl).
      apply (rstrip_app_all is_gt (d :: core)). by repeat constructor. }
    rewrite <- Et. apply IH.
    + apply Forall_app. apply Forall_app in Hnz as [Hnz _]. split; [done|by repeat constructor].
    + rewrite length_app in Hf. cbn [length] in Hf. unfold strip. destruct core as [|d core]; [cbn; lia|].
      cbn [app drop_while]. rewrite (Hh d eq_refl).
      change (d :: core ++ [32]) with ((d :: core) ++ [32]). rewrite (rstrip_app_all DELETE (d :: core) [32]) by (by repeat constructor). pose proof (rstrip_length DELETE (d :: core)). lia.
  - right. assert (Et : text_of x = core ++ [c]).
    { unfold text_of. rewrite Ed. apply rstrip_unique.
      - eapply Forall_impl; [exact Hb|]. unfold is_gt. by intros d ->.
      - intros d. rewrite last_snoc. intros [= <-]. unfold is_gt. rewrite Hc. by apply Z.eqb_neq. }
    rewrite Et. split; [by destruct core|]. exists (pre ++ a), rest1. by rewrite <- Eb.
Qed.

(** ** The name and the mail address *)
Definition high (c : Z) : bool := negb (Z.land c 128 =? 0).
(** What ends the mail address on its left. *)
Definition mail_break (c : Z) : bool := (c =? chr "<") || (c =? chr " ") || (c =? 34) || high c.
Definition unquote (c : Z) : Z := if c =? 34 then chr " " else c.
Definition around_name : Z -> bool := strchr (32 :: 9 :: 34 :: 39 :: 13 :: [10]).
Definition name_of (x : list Z) : list Z :=
  let y := unquote <$> x in
  match strip around_name y with [] => strip DELETE y | n => n end.
(** A name that starts before a mail address and was not cut from it: the NUL
    after the name falls into the mail address. *)
Definition cut_mail (y mail : list Z) : list Z :=
  let q := unquote <$> y in
  let e := (length (take_while around_name q) + length (strip around_name q))%nat in
  let k := (length y - length mail)%nat in
  if (e <? k)%nat then mail else take (e - k) mail.
Definition split_text (y : list Z) : tok_result :=
  let r := break_at mail_break (rev y) in
  let mail := drop_while DELETE (rev r.1) in
  match r.2 with
  | [] => Tok [] y
  | b :: front => if high b then Tok (name_of y) (cut_mail y mail) else Tok (name_of (rev front)) mail
  end.
Definition tok_of (w : list Z) : tok_result :=
  match text_of (take_while (fun c => negb (c =? 0)) w) with [] => TokNone | y => split_text y end.

Lemma find_mail_spec A y : forall T, find_mail (length y) (A ++ y ++ T) (zlen A) =
  let r := break_at mail_break (rev y) in
  match r.2 with
  | [] => Some (A ++ y ++ T, -1)
  | b :: front => Some (A ++ rev front ++ (if high b then b else 0) :: rev r.1 ++ T, zlen front)
  end.
Proof.
  induction y as [|c y IH] using rev_ind; intros T; [done|]. rewrite length_app, Nat.add_comm. cbn [length Nat.add find_mail].
  assert (E : A ++ (y ++ [c]) ++ T = (A ++ y) ++ c :: T) by (by rewrite <- !app_assoc).
  rewrite E. change (Z.of_nat (length y)) with (zlen y). replace (zlen A + zlen y) with (zlen (A ++ y)) by apply zlen_app.
  rewrite rd_at. cbn [mbind option_bind]. rewrite rev_app_distr. cbn [rev app break_at].
  change ((c =? chr "<") || (c =? chr " ") || (c =? 34) || negb (Z.land c 128 =? 0)) with (mail_break c).
  change (negb (Z.land c 128 =? 0)) with (high c). destruct (mail_break c).
  - cbn [fst snd rev app]. rewrite wr_app, rev_involutive. unfold zlen. rewrite length_rev.
    destruct (high c); cbn [mbind option_bind]; by rewrite <- app_assoc.
  - rewrite <- app_assoc. rewrite (IH (c :: T)). cbn [fst snd]. destruct (break_at mail_break (rev y)) as [r1 [|b front]]; cbn [fst snd]; [done|].
    cbn [rev]. by rewrite <- !app_assoc.
Qed.
Lemma blank_quotes_spec x : forall fuel A rest, Forall (.≠ 0) x -> (length x < fuel)%nat ->
  blank_quotes fuel (A ++ x ++ 0 :: rest) (zlen A) = Some (A ++ (unquote <$> x) ++ 0 :: rest).
Proof.
  induction x as [|c x IH]; intros fuel A rest Hx Hf; (destruct fuel as [|fuel]; [cbn in Hf; lia|]); cbn [blank_quotes app].
  - rewrite rd_at. cbn [mbind option_bind Z.eqb fmap list_fmap app]. by rewrite wr_app.
  - apply Forall_cons in Hx as [Hc Hx]. rewrite rd_at. cbn [mbind option_bind]. rewrite (proj2 (Z.eqb_neq c 0)), wr_app by done.
    cbn [mbind option_bind]. fold (unquote c). change (A ++ unquote c :: x ++ 0 :: rest) with (A ++ [unquote c] ++ x ++ 0 :: rest).
    rewrite (app_assoc A). replace (zlen A + 1) with (zlen (A ++ [unquote c])) by (by rewrite zlen_app).
    rewrite IH by (done || (cbn in Hf; lia)). cbn [fmap list_fmap]. by rewrite <- app_assoc.
Qed.
Lemma unquote_nonzero x : Forall (.≠ 0) x -> Forall (.≠ 0) (unquote <$> x).
Proof. intros H. apply Forall_fmap. eapply Forall_impl; [exact H|]. intros c Hc. unfold compose, unquote. by destruct (c =? 34). Qed.

Lemma cstr_block (A x rest : list Z) n : n = zlen A -> Forall (.≠ 0) x -> cstr (drop (Z.to_nat n) (A ++ x ++ 0 :: rest)) = Some x.
Proof. intros -> Hx. rewrite zlen_to_nat, drop_app_length. by apply cstr_app. Qed.
(** The name, and what is left of its bytes [x]: the block changes nowhere else. *)
Lemma take_name_spec A x rest : Forall (.≠ 0) x -> exists Y rname,
  take_name (A ++ x ++ 0 :: rest) (zlen A) = Some (A ++ Y ++ rest, rname) /\ length Y = S (length x) /\
  cstr (drop (Z.to_nat rname) (A ++ Y ++ rest)) = Some (name_of x) /\
  (strip around_name (unquote <$> x) <> [] ->
   Y = <[(length (take_while around_name (unquote <$> x)) + length (strip around_name (unquote <$> x)))%nat := 0]> ((unquote <$> x) ++ [0])).
Proof.
  intros Hx. unfold take_name. rewrite blank_quotes_spec by (try done; rewrite !length_app; lia). cbn [mbind option_bind].
  pose proof (unquote_nonzero x Hx) as Hy. unfold name_of. rewrite <- (length_fmap unquote x). set (y := unquote <$> x) in *. clearbody y. clear Hx x.
  rewrite strlen_block by done. cbn [mbind option_bind].
  destruct (zskip_spec A y (0 :: rest) (32 :: 9 :: 34 :: 39 :: 13 :: [10]) None) as ([n start] & -> & a & core & b & Ht & -> & ->).
  cbn [mbind option_bind default from_option id]. fold around_name in Ht. destruct (trims_strip _ _ _ _ _ Ht) as [Ec Ha]. destruct Ht as (Ey & _ & _ & _ & _).
  assert (Et : forall z, tail (z ++ 0 :: rest) = tail (z ++ [0]) ++ rest) by (by intros [|? ?]; cbn; rewrite <- ?app_assoc).
  assert (Hlen : forall u v w, y = u ++ v ++ w -> length (u ++ v ++ 0 :: tail (w ++ [0])) = S (length y)).
  { intros u v w ->. rewrite !length_app. cbn [length]. destruct w; cbn; rewrite ?length_app; cbn; lia. }
  rewrite Z.gtb_ltb. destruct (Z.ltb_spec 0 (zlen core)) as [Hpos|Hzero].
  - rewrite (proj2 (Z.eqb_neq _ 0)) by lia. cbn [mbind option_bind].
    assert (Hne : core <> []) by (intros ->; done).
    assert (El : A ++ y ++ 0 :: rest = (A ++ a ++ core) ++ hd 0 (b ++ [0]) :: tail (b ++ [0]) ++ rest).
    { rewrite Ey, <- !app_assoc. do 3 f_equal. by destruct b; cbn; rewrite <- ?app_assoc. }
    exists (a ++ core ++ 0 :: tail (b ++ [0])), (zlen A + zlen a). rewrite El.
    replace (zlen A + zlen a + zlen core) with (zlen (A ++ a ++ core)) by (rewrite !zlen_app; lia). rewrite wr_app. cbn [mbind option_bind].
    assert (Eb : (A ++ a ++ core) ++ 0 :: tail (b ++ [0]) ++ rest = A ++ (a ++ core ++ 0 :: tail (b ++ [0])) ++ rest) by (by rewrite <- !app_assoc).
    rewrite Eb. split; [done|]. split; [by apply Hlen|]. rewrite <- Ec. split.
    + destruct core; [done|]. rewrite <- app_assoc, <- app_assoc, (app_assoc A). apply cstr_block; [by rewrite zlen_app|].
      rewrite Ey in Hy. by apply Forall_app in Hy as [_ [Hy _]%Forall_app].
    + intros _. rewrite <- (Ha Hne), <- length_app. replace (length (a ++ core)) with (Z.to_nat (zlen (a ++ core))) by apply zlen_to_nat.
      assert (Ez : y ++ [0] = (a ++ core) ++ hd 0 (b ++ [0]) :: tail (b ++ [0])) by (rewrite Ey, <- !app_assoc; by destruct b).
      rewrite Ez, insert_mid by done. by rewrite <- app_assoc.
  - assert (core = []) as -> by (apply zlen_inv_nil; zlen_facts; lia).
    destruct (ztrim_shape A y rest Hy) as (a' & b' & Ey' & _ & _ & _ & _ & ->). rewrite Et.
    exists (a' ++ strip DELETE y ++ 0 :: tail (b' ++ [0])), (zlen (A ++ a')).
    assert (Eb : A ++ a' ++ strip DELETE y ++ 0 :: tail (b' ++ [0]) ++ rest = A ++ (a' ++ strip DELETE y ++ 0 :: tail (b' ++ [0])) ++ rest) by (by rewrite <- !app_assoc).
    rewrite Eb. split; [done|]. split; [by apply Hlen|]. rewrite <- Ec. split; [|done].
    rewrite <- app_assoc, <- app_assoc, (app_assoc A). apply cstr_block; [done|]. rewrite Ey' in Hy. by apply Forall_app in Hy as [_ [Hy _]%Forall_app].
Qed.
Lemma last_app_some (a b : list Z) c : last b = Some c -> last (a ++ b) = Some c.
Proof. intros H. destruct b as [|d b _] using rev_ind; [done|]. by rewrite app_assoc, last_snoc in *. Qed.
Lemma take_while_nil d (l : list Z) : take_while d l ++ drop_while d l = l.
Proof. apply take_drop_while. Qed.
(** [ztrim] where nothing is to be cut at the end. *)
Lemma ztrim_left_only P post R : Forall (.≠ 0) post -> (forall c, last post = Some c -> DELETE c = false) ->
  ztrim (P ++ post ++ 0 :: R) (zlen P) = Some (P ++ post ++ 0 :: R, zlen P + zlen (take_while DELETE post)).
Proof.
  intros Hp Hl. destruct (ztrim_shape P post R Hp) as (a & b & E & Hb & Ha & _ & _ & ->).
  assert (b = []) as ->.
  { destruct b as [|c b _] using rev_ind; [done|]. apply Forall_app in Hb as [_ [Hc _]%Forall_cons].
    rewrite (Hl c) in Hc; [done|]. rewrite E, !app_assoc. apply last_snoc. }
  cbn [app tail]. rewrite app_nil_r in E. rewrite zlen_app. destruct (strip DELETE post) as [|c core] eqn:Es.
  - assert (post = []) as ->; [|by destruct a]. destruct post as [|d post _] using rev_ind; [done|].
    apply strip_nil in Es. pose proof (take_drop_while DELETE (post ++ [d])) as Et. rewrite Es, app_nil_r in Et.
    pose proof (take_while_all DELETE (post ++ [d])) as Hall. rewrite Et in Hall. apply Forall_app in Hall as [_ [Hd _]%Forall_cons].
    by rewrite (Hl d (last_snoc _ _)) in Hd.
  - rewrite <- Ha by done. rewrite E. by rewrite <- !app_assoc.
Qed.
Lemma y_last x c : last (text_of x) = Some c -> DELETE c = false.
Proof. intros H. destruct (rstrip_spec is_gt (drop_while DELETE x)) as (b & _ & _ & Hl). specialize (Hl c H). unfold is_gt in Hl. by destruct (DELETE c). Qed.
Lemma y_nonzero x : Forall (.≠ 0) x -> Forall (.≠ 0) (text_of x).
Proof.
  intros Hx. rewrite <- (take_drop_while DELETE x) in Hx. apply Forall_app in Hx as [_ Hx].
  destruct (rstrip_spec is_gt (drop_while DELETE x)) as (b & E & _). rewrite E in Hx. by apply Forall_app in Hx as [? _].
Qed.
Lemma high_around b : high b = true -> unquote b = b /\ around_name b = false.
Proof.
  intros Hb. unfold unquote, around_name, strchr, in_set. cbn [existsb].
  destruct (Z.eqb_spec b 34); [by subst|]. destruct (Z.eqb_spec b 32); [by subst|]. destruct (Z.eqb_spec b 9); [by subst|].
  destruct (Z.eqb_spec b 39); [by subst|]. destruct (Z.eqb_spec b 13); [by subst|]. destruct (Z.eqb_spec b 10); [by subst|].
  by destruct (Z.eqb_spec b 0); [subst|].
Qed.
Lemma strip_has d (l1 l2 : list Z) b : d b = false -> strip d (l1 ++ b :: l2) <> [].
Proof.
  intros Hb E%strip_nil. assert (Hall : all d (l1 ++ b :: l2)).
  { rewrite <- (take_drop_while d (l1 ++ b :: l2)), E, app_nil_r. apply take_while_all. }
  apply Forall_app in Hall as [_ [Hd _]%Forall_cons]. by rewrite Hb in Hd.
Qed.
Lemma split_parts y : let r := break_at mail_break (rev y) in
  y = rev r.2 ++ rev r.1 /\ forall b front, r.2 = b :: front -> y = rev front ++ b :: rev r.1.
Proof.
  cbn zeta. assert (E : y = rev (break_at mail_break (rev y)).2 ++ rev (break_at mail_break (rev y)).1).
  { by rewrite <- rev_app_distr, break_at_app, rev_involutive. }
  split; [done|]. intros b front E2. rewrite E2 in E. cbn [rev] in E. by rewrite <- app_assoc in E.
Qed.
Lemma cstr_cut u mail R e : Forall (.≠ 0) mail -> (e <= length u + length mail)%nat ->
  cstr (drop (length u) (<[e := 0]> (u ++ mail ++ [0])) ++ R) = Some (if (e <? length u)%nat then mail else take (e - length u) mail).
Proof.
  intros Hm He. destruct (Nat.ltb_spec e (length u)).
  - rewrite drop_insert_lt, drop_app_length, <- app_assoc by lia. by apply cstr_app.
  - rewrite drop_insert_ge, drop_app_length by lia. set (j := (e - length u)%nat).
    assert (Hj : (j <= length mail)%nat) by (unfold j; lia). clearbody j. clear He.
    rewrite <- (take_drop j mail) at 1. rewrite <- app_assoc.
    replace j with (length (take j mail) + 0)%nat at 1 by (rewrite length_take; lia). rewrite insert_app_r.
    destruct (drop j mail ++ [0]) as [|c r] eqn:E; [by destruct (drop j mail)|]. cbn [insert list_insert].
    rewrite <- app_assoc. apply cstr_app. by apply Forall_take.
Qed.
Lemma strip_end d q : (length (take_while d q) + length (strip d q) <= length q)%nat.
Proof. rewrite <- (take_drop_while d q) at 3. rewrite length_app. pose proof (rstrip_length d (drop_while d q)). unfold strip. lia. Qed.
Lemma tok_cache_spec w : tok_cache (w ++ [0]) (zlen w) = Some (tok_of w).
Proof.
  unfold tok_cache, tok_of. set (x := take_while (fun c => negb (c =? 0)) w). destruct w as [|c0 w0]; [done|].
  rewrite (proj2 (Z.ltb_ge _ 1)) by (rewrite zlen_cons; pose proof (zlen_nonneg w0); lia). set (w := c0 :: w0) in *. clearbody w. clear c0 w0.
  assert (Hx : Forall (.≠ 0) x) by (eapply Forall_impl; [apply take_while_all|]; cbn; intros c; by destruct (Z.eqb_spec c 0)).
  assert (Em : exists rest, w ++ [0] = [] ++ x ++ 0 :: rest).
  { pose proof (take_drop_while (fun c => negb (c =? 0)) w) as Ew. fold x in Ew.
    pose proof (drop_while_head (fun c => negb (c =? 0)) w) as Hd. destruct (drop_while _ w) as [|c d].
    - exists []. rewrite app_nil_r in Ew. by rewrite Ew.
    - specialize (Hd c eq_refl). destruct (Z.eqb_spec c 0) as [->|]; [|done]. exists (d ++ [0]). rewrite <- Ew, <- app_assoc. done. }
  destruct Em as [rest Em]. rewrite Em.
  assert (Hf : (length (strip DELETE x) < S (length ([] ++ x ++ 0%Z :: rest)))%nat).
  { cbn [app]. rewrite length_app. unfold strip. pose proof (rstrip_length DELETE (drop_while DELETE x)).
    pose proof (f_equal length (take_drop_while DELETE x)) as E. rewrite length_app in E. lia. }
  destruct (strip_gt_spec _ [] x rest Hx Hf) as [[E0 E]|(Hne & A & R & E)].
  { change (zlen (@nil Z)) with 0 in E. rewrite E. cbn [mbind option_bind]. by rewrite E0. }
  change (zlen (@nil Z)) with 0 in E. rewrite E. cbn [mbind option_bind]. pose proof (y_last x) as Hl. pose proof (y_nonzero x Hx) as Hy.
  set (y := text_of x) in *. clearbody y. destruct y as [|y0 y'] eqn:Ey; [done|]. rewrite <- Ey in *. clear Hne Ey y0 y' E Hf Em rest Hx x w.
  rewrite (zlen_to_nat y), find_mail_spec. unfold split_text. destruct (split_parts y) as [_ Hs].
  set (r := break_at mail_break (rev y)) in *. cbn zeta. destruct r.2 as [|b front] eqn:Er.
  { cbn [mbind option_bind]. by rewrite cstr_block. }
  cbn [mbind option_bind]. specialize (Hs b front eq_refl). 
  assert (Hnq : Forall (fun c => unquote c = c) (rev r.1)).
  { apply Forall_rev. eapply Forall_impl; [apply break_at_pre|]. unfold mail_break, unquote. intros c Hc. destruct (c =? 34); [|done].
    by destruct (c =? chr "<"), (c =? chr " "). }
  set (post := rev r.1) in *. clearbody post. clear Er r.
  assert (Hpost : Forall (.≠ 0) post /\ Forall (.≠ 0) (rev front)).
  { rewrite Hs in Hy. apply Forall_app in Hy as [? [_ ?]%Forall_cons]. done. }
  destruct Hpost as [Hpost Hfront]. assert (Hlp : forall c, last post = Some c -> DELETE c = false).
  { intros c Hc. apply Hl. rewrite Hs. change (b :: post) with ([b] ++ post). rewrite app_assoc. by apply last_app_some. }
  pose proof (zlen_nonneg front). rewrite (Z.gtb_ltb (zlen front)), (proj2 (Z.ltb_lt (-1) (zlen front))) by lia.
  set (b' := if high b then b else 0).
  assert (Ebl : A ++ rev front ++ b' :: post ++ 0 :: R = (A ++ rev front ++ [b']) ++ post ++ 0 :: R) by (by rewrite <- !app_assoc).
  assert (El : zlen A + zlen front + 1 = zlen (A ++ rev front ++ [b'])) by (unfold zlen; rewrite !length_app, length_rev; cbn [length]; lia).
  rewrite Ebl, El, ztrim_left_only by done. cbn [mbind option_bind]. rewrite <- Ebl.
  set (am := take_while DELETE post). set (mail := drop_while DELETE post).
  assert (Ep : post = am ++ mail) by (symmetry; apply take_drop_while).
  assert (Hmail : Forall (.≠ 0) mail) by (rewrite Ep in Hpost; by apply Forall_app in Hpost as [_ ?]).
  unfold b'. destruct (high b) eqn:Hb.
  - assert (Eb : A ++ rev front ++ b :: post ++ 0 :: R = A ++ y ++ 0 :: R) by (rewrite Hs, <- !app_assoc; done).
    rewrite Eb. destruct (take_name_spec A y R Hy) as (Y & rname & -> & HY & Hn & HYe). cbn [mbind option_bind]. rewrite Hn. cbn [mbind option_bind].
    destruct (high_around b Hb) as [Hub Hab]. set (q := unquote <$> y) in *.
    assert (Eq : q ++ [0] = (unquote <$> rev front ++ b :: am) ++ mail ++ [0]).
    { unfold q. rewrite Hs, Ep, app_comm_cons, app_assoc, fmap_app, <- app_assoc. do 2 f_equal.
      rewrite Ep in Hnq. apply Forall_app in Hnq as [_ Hnq]. clear -Hnq. induction Hnq as [|c l Hc _ IH]; [done|]. cbn [fmap list_fmap]. by rewrite Hc, IH. }
    assert (Hne : strip around_name q <> []).
    { unfold q. rewrite Hs, fmap_app, fmap_cons. apply strip_has. by rewrite Hub. }
    rewrite (HYe Hne), Eq. set (u := unquote <$> rev front ++ b :: am) in *.
    pose proof (strip_end around_name q) as Hend. assert (Hlq : length q = (length u + length mail)%nat).
    { apply (f_equal length) in Eq. rewrite !length_app in Eq. cbn [length] in Eq. lia. }
    assert (Hk : Z.to_nat (zlen (A ++ rev front ++ [b]) + zlen am) = (length A + length u)%nat).
    { unfold u, zlen. rewrite length_fmap, !length_app. cbn [length]. lia. }
    rewrite Hk, <- drop_drop, drop_app_length, drop_app_le by (rewrite length_insert, !length_app; lia).
    rewrite cstr_cut by (done || lia). cbn [mbind option_bind]. unfold cut_mail. fold q.
    replace (length y - length mail)%nat with (length u) by (rewrite <- (length_fmap unquote y); fold q; lia). done.
  - destruct (take_name_spec A (rev front) (post ++ 0 :: R) Hfront) as (Y & rname & -> & HY & Hn & _). cbn [mbind option_bind]. rewrite Hn. cbn [mbind option_bind].
    assert (Eq : A ++ Y ++ post ++ 0 :: R = (A ++ Y ++ am) ++ mail ++ 0 :: R) by (rewrite Ep, <- !app_assoc; done).
    rewrite Eq, cstr_block; [done| |done]. unfold zlen. rewrite !length_app, HY. cbn [length]. lia.
Qed.
