(* ===== verification/AddressTrip.v ===== *)
(** * Vectors of addresses

    What [zmime_header_line_get_address_vector] finds in any header line, through
    the encoded words it decodes and parses again; lists of addresses that are read
    back; the header lines on which it does not return. *)
From S2P Require Import Prelude Chars Buf Text Scan Dict Mime MimeWords MimeDecode Address AddressTok.

(** ** The addresses of a line *)
Fixpoint toks (n : nat) (p : list Z) : list (list Z * list Z) :=
  match n with
  | O => []
  | S n' =>
      if bool_decide (p = []) then [] else
      let r := tok_text p false false false in
      match tok_of r.1 with Tok a b => [(a, b)] | _ => [] end ++ toks n' r.2
  end.
Definition line_toks (p : list Z) : list (list Z * list Z) := toks (length p) p.
Definition plain_address (t : list Z * list Z) : address := mk_address t.1 (ztolower <$> t.2) [].
(** An address without a name that looks like an encoded word. *)
Definition bare (t : list Z * list Z) : bool := bool_decide (t.1 = []) && bool_decide (take 2 t.2 = str "=?").
Fixpoint joined_names (vs : list address) : list Z :=
  match vs with
  | [] => []
  | v :: [] => a_name v
  | v :: vs => a_name v ++ 32 :: joined_names vs
  end.

Section spec.
Context (utf8 : option (list Z) -> list Z -> list Z) (def : option (list Z)).
Definition decoded_line (l : list Z) : list Z := groups_text utf8 (groups_of def (line_words l)).
(** Addresses by way of encoded words inside encoded words, at most [depth] deep,
    while the texts stay small. *)
Fixpoint addrs (depth : nat) (l : list Z) : option (list address) :=
  match depth with
  | O => None
  | S depth' =>
      mapM (fun t =>
        if bare t then
          let u := decoded_line t.2 in
          if zlen u + 1100 <? 2 ^ 28 then
            vs ← addrs depth' u;
            match vs with
            | [] => Some (plain_address t)
            | v :: _ =>
                if zlen (joined_names vs) + 1 <? 2 ^ 29 then Some (mk_address (joined_names vs) (a_address v) []) else None
            end
          else None
        else Some (plain_address t)) (line_toks l)
  end.
(** The encoded words are nested deeper than that. *)
Fixpoint too_deep (depth : nat) (l : list Z) : Prop :=
  match depth with
  | O => True
  | S depth' => Exists (fun t => bare t = true /\ zlen (decoded_line t.2) + 1100 < 2 ^ 28 /\ too_deep depth' (decoded_line t.2)) (line_toks l)
  end.
End spec.

(** ** The tokens of a line *)
Lemma toks_fuel n : forall m p, (length p <= n)%nat -> (length p <= m)%nat -> toks n p = toks m p.
Proof.
  induction n as [|n IH]; intros m p Hn Hm.
  - destruct p; [|cbn in Hn; lia]. by destruct m.
  - destruct m as [|m]; [destruct p; [done|cbn in Hm; lia]|]. cbn [toks]. destruct (bool_decide_reflect (p = [])) as [|Hp]; [done|].
    destruct p as [|c p]; [done|]. pose proof (tok_text_rest c p). cbn [length] in *. by rewrite (IH m) by lia.
Qed.
Lemma address_tok_spec p size : p <> [] -> zlen p <= size ->
  zmime_header_line_address_tok p size = Some (tok_of (tok_text p false false false).1, (tok_text p false false false).2).
Proof.
  intros Hp Hs. unfold zmime_header_line_address_tok. zlen_facts.
  rewrite (proj2 (Z.leb_gt _ 0)) by (assert (zlen p <> 0) by (by intros ?%zlen_inv_nil); lia).
  rewrite tok_loop_text by (by rewrite zlen_nil). cbn [mbind option_bind app]. by rewrite tok_cache_spec.
Qed.
Lemma tok_of_end w : tok_of w <> TokEnd.
Proof. unfold tok_of, split_text. cbn zeta. repeat case_match; done. Qed.
Lemma address_loop_spec create size n : forall p, (length p < n)%nat -> zlen p <= size ->
  address_loop n create p size = mapM (fun t => create t.1 t.2) (toks n p).
Proof.
  induction n as [|n IH]; intros p Hn Hs; [lia|]. cbn [toks address_loop]. zlen_facts.
  destruct (bool_decide_reflect (p = [])) as [->|Hp]; [done|].
  rewrite address_tok_spec by done. cbn [mbind option_bind]. destruct p as [|c p]; [done|]. pose proof (tok_text_rest c p) as Hr.
  set (r := tok_text (c :: p) false false false) in *. cbn [length] in *.
  assert (Hr2 : zlen r.2 <= size) by (unfold zlen in *; cbn [length] in Hs; lia).
  destruct (tok_of r.1) as [| |a b] eqn:Et; cbn [app]; [by apply tok_of_end in Et|by apply IH; [lia|]|].
  rewrite IH by (done || lia). cbn [mapM fst snd]. by destruct (create a b).
Qed.

(** ** What tokens are made of *)
Section made_of.
Context (P : Z -> Prop) (P_blank : P 32).
Lemma drop_while_made d l : Forall P l -> Forall P (drop_while d l).
Proof using. intros H. rewrite <- (take_drop_while d l) in H. by apply Forall_app in H as [_ ?]. Qed.
Lemma rstrip_made d l : Forall P l -> Forall P (rstrip d l).
Proof using. intros H. destruct (rstrip_spec d l) as (b & E & _). rewrite E in H. by apply Forall_app in H as [? _]. Qed.
Lemma strip_made d l : Forall P l -> Forall P (strip d l).
Proof using. intros H. by apply rstrip_made, drop_while_made. Qed.
Lemma name_made x : Forall P x -> Forall P (name_of x).
Proof using P_blank.
  intros H. assert (Hq : Forall P (unquote <$> x)).
  { apply Forall_fmap. eapply Forall_impl; [exact H|]. intros c Hc. unfold compose, unquote. by destruct (c =? 34). }
  unfold name_of. pose proof (strip_made around_name _ Hq). destruct (strip around_name _); [by apply strip_made|done].
Qed.
Lemma tok_made w a b : Forall P (take_while (fun c => negb (c =? 0)) w) -> tok_of w = Tok a b -> Forall P a /\ Forall P b.
Proof using P_blank.
  intros H. unfold tok_of. set (x := take_while _ w) in *. assert (Hy : Forall P (text_of x)) by by apply rstrip_made, drop_while_made.
  destruct (text_of x) as [|y0 y'] eqn:Ey; [done|]. set (y := y0 :: y') in *. unfold split_text. destruct (split_parts y) as [E Hs].
  set (r := break_at mail_break (rev y)) in *. cbn zeta in *.
  assert (Hm : Forall P (drop_while DELETE (rev r.1))) by (apply drop_while_made; rewrite E in Hy; by apply Forall_app in Hy as [_ ?]).
  destruct r.2 as [|c front] eqn:Er; [by intros [= <- <-]|].
  assert (Hf : Forall P (rev front)) by (rewrite E in Hy; cbn [rev] in Hy; by apply Forall_app in Hy as [[? _]%Forall_app _]).
  destruct (high c); intros [= <- <-]; split; try done; [by apply name_made| |by apply name_made].
  unfold cut_mail. case_match; [done|]. by apply Forall_take.
Qed.
End made_of.
Lemma tok_text_made P p : forall l q f, Forall P p -> Forall P (tok_text p l q f).1 /\ Forall P (tok_text p l q f).2.
Proof.
  induction p as [|c p IH]; intros l q f Hp; [done|]. apply Forall_cons in Hp as [Hc Hp]. cbn [tok_text].
  assert (Hput : forall l q f, Forall P (c :: (tok_text p l q f).1) /\ Forall P (tok_text p l q f).2).
  { intros l' q' f'. destruct (IH l' q' f' Hp). split; [by constructor|done]. }
  repeat case_match; cbn [fst snd]; auto.
Qed.
Lemma tok_text_length p : forall l q f, (length (tok_text p l q f).1 <= length p)%nat.
Proof.
  induction p as [|c p IH]; intros l q f; [done|]. cbn [tok_text length].
  assert (Hput : forall l q f, (length (c :: (tok_text p l q f).1) <= S (length p))%nat) by (intros l' q' f'; cbn [length]; pose proof (IH l' q' f'); lia).
  assert (Hskip : forall l q f, (length (tok_text p l q f).1 <= S (length p))%nat) by (intros l' q' f'; pose proof (IH l' q' f'); lia).
  repeat case_match; cbn [fst snd]; auto; cbn [length]; lia.
Qed.
Lemma drop_while_length d (l : list Z) : (length (drop_while d l) <= length l)%nat.
Proof. rewrite <- (take_drop_while d l) at 2. rewrite length_app. lia. Qed.
Lemma strip_length d l : (length (strip d l) <= length l)%nat.
Proof. unfold strip. pose proof (rstrip_length d (drop_while d l)). pose proof (drop_while_length d l). lia. Qed.
Lemma name_length x : (length (name_of x) <= length x)%nat.
Proof.
  unfold name_of. rewrite <- (length_fmap unquote x). pose proof (strip_length around_name (unquote <$> x)). pose proof (strip_length DELETE (unquote <$> x)).
  by destruct (strip around_name _).
Qed.
Lemma tok_length w a b : tok_of w = Tok a b -> (length a <= length w)%nat /\ (length b <= length w)%nat.
Proof.
  unfold tok_of. set (x := take_while _ w). assert (Hx : (length x <= length w)%nat).
  { unfold x. rewrite <- (take_drop_while (fun c => negb (c =? 0)) w) at 2. rewrite length_app. lia. }
  assert (Hy : (length (text_of x) <= length w)%nat).
  { unfold text_of. pose proof (rstrip_length is_gt (drop_while DELETE x)). pose proof (drop_while_length DELETE x). lia. }
  destruct (text_of x) as [|y0 y'] eqn:Ey; [done|]. set (y := y0 :: y') in *. unfold split_text. destruct (split_parts y) as [E Hs].
  set (r := break_at mail_break (rev y)) in *. cbn zeta in *.
  assert (Hm : (length (drop_while DELETE (rev r.1)) <= length y)%nat).
  { pose proof (drop_while_length DELETE (rev r.1)). rewrite E, length_app. lia. }
  destruct r.2 as [|c front] eqn:Er; [intros [= <- <-]; split; [apply Nat.le_0_l|done]|].
  assert (Hf : (length (rev front) <= length y)%nat) by (rewrite E; cbn [rev]; rewrite !length_app; lia).
  pose proof (name_length y). pose proof (name_length (rev front)).
  destruct (high c); intros [= <- <-]; split; try lia.
  unfold cut_mail. case_match; [lia|]. rewrite length_take. lia.
Qed.
Record tok_ok (len : nat) (t : list Z * list Z) : Prop := {
  tok_name : text_ok t.1;
  tok_mail : text_ok t.2;
  tok_name_len : (length t.1 <= len)%nat;
  tok_mail_len : (length t.2 <= len)%nat
}.
Lemma toks_ok n : forall p len, bytes_ok p -> (length p <= len)%nat -> Forall (tok_ok len) (toks n p).
Proof.
  induction n as [|n IH]; intros p len Hp Hl; cbn [toks]; [constructor|]. destruct (bool_decide_reflect (p = [])) as [|Hne]; [constructor|].
  destruct p as [|c p]; [done|]. pose proof (tok_text_rest c p) as Hr. destruct (tok_text_made byte_ok (c :: p) false false false Hp) as [H1 H2].
  pose proof (tok_text_length (c :: p) false false false) as Hw. set (r := tok_text (c :: p) false false false) in *. cbn [length] in *.
  apply Forall_app. split; [|apply IH; [done|lia]]. destruct (tok_of r.1) as [| |a b] eqn:Et; try constructor; [|constructor].
  destruct (tok_length _ _ _ Et). destruct (tok_made (fun c => 0 < c < 256) ltac:(done) r.1 a b) as [Ha Hb]; [|done|split; cbn; try done; lia].
  pose proof (take_while_all (fun c => negb (c =? 0)) r.1) as Hnz. rewrite <- (take_drop_while (fun c => negb (c =? 0)) r.1) in H1.
  apply Forall_app in H1 as [H1 _]. eapply Forall_impl; [apply Forall_and; split; [exact H1|exact Hnz]|].
  intros d [Hd Hd0]. unfold byte_ok in Hd. cbn in Hd0. destruct (Z.eqb_spec d 0); [done|lia].
Qed.

(** ** One address, created *)
Lemma simple_runs n a : text_ok a -> create_mime_address_simple n a = Some (plain_address (n, a)).
Proof.
  intros Ha. unfold create_mime_address_simple. rewrite zstr_tolower_text by by apply text_nonzero. cbn [mbind option_bind].
  rewrite cstr_app by by apply text_nonzero, ztolower_text. done.
Qed.
Lemma bare_test n a : text_ok n -> 
  negb (default 0 (head n) =? 0) || negb (default 0 (head a) =? chr "=") || negb (default 0 (a !! 1%nat) =? chr "?") = negb (bare (n, a)).
Proof.
  intros Hn. unfold bare. cbn [fst snd]. destruct n as [|c n].
  - destruct a as [|a0 [|a1 a]]; [done|rewrite (bool_decide_eq_false_2 (take 2 [a0] = _)), andb_false_r by done; cbn; by destruct (a0 =? 61)|].
    destruct (Z.eqb_spec a0 61) as [->|Hx], (Z.eqb_spec a1 63) as [->|Hy];
      [done|rewrite (bool_decide_eq_false_2 (take 2 _ = _)) by (intros [= ?]; done)..]; cbn; by rewrite ?(proj2 (Z.eqb_neq _ _)) by done.
  - apply Forall_cons in Hn as [Hc _]. rewrite (bool_decide_eq_false_2 (c :: n = [])) by done. cbn. by rewrite (proj2 (Z.eqb_neq c 0)) by lia.
Qed.
Lemma joined_names_cons v vs : joined_names (v :: vs) = a_name v ++ (vs ≫= fun v => 32 :: a_name v).
Proof.
  revert v. induction vs as [|v' vs IH]; intros v; [cbn; by rewrite app_nil_r|].
  change (joined_names (v :: v' :: vs)) with (a_name v ++ 32 :: joined_names (v' :: vs)). by rewrite IH.
Qed.
Lemma strcat_runs b x y : holds None x b -> text_ok y -> zlen x + zlen y + 1 < 2 ^ 29 ->
  runs (zbuf_strcat b (Some (y ++ [0]))) (holds None (x ++ y)).
Proof.
  intros Hb Hy Hl. zlen_facts. apply (zbuf_strcat_holds None b x (Some (y ++ [0])) y); [apply Hb| |by apply text_bytes|unfold int_max; lia|cbn; lia].
  unfold strlen_or_empty. cbn. by rewrite cstr_app by by apply text_nonzero.
Qed.
Lemma blank_text : text_ok [32].
Proof. by apply Forall_singleton. Qed.
Lemma join_names_runs vs : forall b x, holds None x b -> Forall (fun v => text_ok (a_name v)) vs ->
  zlen x + zlen (vs ≫= fun v => 32 :: a_name v) + 1 < 2 ^ 29 ->
  runs (join_names vs true b) (holds None (x ++ (vs ≫= fun v => 32 :: a_name v))).
Proof.
  induction vs as [|v vs IH]; intros b x Hb Hvs Hl; cbn [join_names mbind list_bind] in *; [apply runs_ret; by rewrite app_nil_r|].
  apply Forall_cons in Hvs as [Hv Hvs]. rewrite zlen_app, zlen_cons in Hl. zlen_facts.
  pose proof (zlen_nonneg (vs ≫= fun v => 32 :: a_name v)) as Hr. cbn [mbind list_bind] in Hr.
  eapply runs_bind; [apply (strcat_runs b x [32] Hb blank_text); change (zlen [32]) with 1; lia|]. intros b1 Hb1.
  eapply runs_bind; [apply (strcat_runs b1 _ (a_name v) Hb1 Hv); rewrite zlen_app; change (zlen [32]) with 1; lia|]. intros b2 Hb2.
  eapply runs_mono; [apply (IH b2 _ Hb2 Hvs); rewrite !zlen_app; change (zlen [32]) with 1; lia|]. intros b3. by rewrite <- !app_assoc.
Qed.
Lemma join_all_runs vs b : holds None [] b -> Forall (fun v => text_ok (a_name v)) vs -> zlen (joined_names vs) + 1 < 2 ^ 29 ->
  runs (join_names vs false b) (holds None (joined_names vs)).
Proof.
  intros Hb Hvs Hl. destruct vs as [|v vs]; [by apply runs_ret|]. rewrite joined_names_cons in *. rewrite zlen_app in Hl.
  apply Forall_cons in Hvs as [Hv Hvs]. zlen_facts. pose proof (zlen_nonneg (vs ≫= fun v => 32 :: a_name v)) as Hr. cbn [join_names mbind option_bind].
  eapply runs_bind; [apply (strcat_runs b [] (a_name v) Hb Hv); rewrite zlen_nil; lia|]. intros b1 Hb1. by apply join_names_runs.
Qed.
Lemma joined_names_text vs : Forall (fun v => text_ok (a_name v)) vs -> text_ok (joined_names vs).
Proof.
  destruct vs as [|v vs]; [constructor|]. rewrite joined_names_cons. intros [Hv Hvs]%Forall_cons. apply Forall_app. split; [done|].
  induction Hvs as [|v' vs Hv' _ IH]; [constructor|]. cbn [mbind list_bind]. constructor; [done|]. by apply Forall_app.
Qed.

(** ** The engine *)
Section engine.
Context {C : Charsets} {utf8 : option (list Z) -> list Z -> list Z} {L : CharsetLaws utf8} (def : option (list Z)).
#[local] Abbreviation def_z := ((fun x => x ++ [0]) <$> def).
#[local] Abbreviation engine := (zmime_header_line_get_address_vector_engine def_z).

Lemma create_plain eng n a : text_ok n -> text_ok a -> bare (n, a) = false ->
  create_mime_address def_z eng n a false = Some (plain_address (n, a)).
Proof.
  intros Hn Ha Hb. unfold create_mime_address. cbn [orb]. rewrite bare_test, Hb by done. by apply simple_runs.
Qed.
Lemma create_bare eng a vs : text_ok a -> bare ([], a) = true -> zlen a + 1100 < 2 ^ 28 ->
  let u := decoded_line utf8 def a in
  zlen u + 1100 < 2 ^ 28 -> (bytes_ok u -> eng (u ++ [0]) (zlen u) = Some vs /\ Forall (fun v => text_ok (a_name v)) vs) ->
  zlen (joined_names vs) + 1 < 2 ^ 29 ->
  create_mime_address def_z eng [] a false =
    Some (match vs with [] => plain_address ([], a) | v :: _ => mk_address (joined_names vs) (a_address v) [] end) /\
  text_ok (joined_names vs).
Proof.
  intros Ha Hb Hl u Hu Heng Hj. zlen_facts. unfold create_mime_address. cbn [orb].
  rewrite (bare_test [] a), Hb by constructor. cbn [negb].
  assert (Hne : a <> []) by (intros ->; done).
  destruct (zbuf_create_holds (2 * zlen a + 100)) as (b0 & -> & Hb0); [lia|]. cbn [mbind option_bind].
  destruct (get_utf8_runs def a [0] b0 [] (text_bytes _ Ha)) as (b1 & -> & Hb1); try done; [lia|unfold u, decoded_line in *; lia|].
  fold (decoded_line utf8 def a) in Hb1. fold u in Hb1. cbn [mbind option_bind].
  rewrite (zbuf_data_z_rep b1 u) by done. cbn [mbind option_bind]. rewrite (rep_len _ _ _ (proj1 Hb1)).
  destruct (Heng (rep_bytes _ _ _ (proj1 Hb1))) as [-> Hvs]. cbn [mbind option_bind]. pose proof (joined_names_text vs Hvs) as Hjt. split; [|done].
  destruct vs as [|v vs]; [by apply simple_runs|].
  destruct (zbuf_reset_holds None b1 u (proj1 Hb1)) as (b2 & -> & Hb2). cbn [mbind option_bind].
  destruct (join_all_runs (v :: vs) b2 Hb2 Hvs Hj) as (b3 & -> & Hb3). cbn [mbind option_bind].
  rewrite (zbuf_data_z_rep b3 _ Hb3). cbn [mbind option_bind]. rewrite cstr_app by by apply text_nonzero. done.
Qed.
Lemma create_bare_undefined eng a : text_ok a -> bare ([], a) = true -> zlen a + 1100 < 2 ^ 28 ->
  let u := decoded_line utf8 def a in
  zlen u + 1100 < 2 ^ 28 -> (bytes_ok u -> eng (u ++ [0]) (zlen u) = None) -> create_mime_address def_z eng [] a false = None.
Proof.
  intros Ha Hb Hl u Hu Heng. zlen_facts. unfold create_mime_address. cbn [orb].
  rewrite (bare_test [] a), Hb by constructor. cbn [negb]. assert (Hne : a <> []) by (intros ->; done).
  destruct (zbuf_create_holds (2 * zlen a + 100)) as (b0 & -> & Hb0); [lia|]. cbn [mbind option_bind].
  destruct (get_utf8_runs def a [0] b0 [] (text_bytes _ Ha)) as (b1 & -> & Hb1); try done; [lia|unfold u, decoded_line in *; lia|].
  fold (decoded_line utf8 def a) in Hb1. fold u in Hb1. cbn [mbind option_bind].
  rewrite (zbuf_data_z_rep b1 u) by done. cbn [mbind option_bind]. rewrite (rep_len _ _ _ (proj1 Hb1)).
  by rewrite (Heng (rep_bytes _ _ _ (proj1 Hb1))).
Qed.
Lemma engine_too_deep depth : forall l extra lm, bytes_ok l -> zlen l + 1100 < 2 ^ 28 -> too_deep utf8 def depth l ->
  engine depth (l ++ extra) (zlen l) lm = None.
Proof.
  induction depth as [|depth IH]; intros l extra lm Hb Hl Hd; [done|]. cbn [too_deep zmime_header_line_get_address_vector_engine] in *. zlen_facts.
  rewrite (proj2 (Z.eqb_neq (zlen l) (-1))) by lia. cbn [mbind option_bind].
  destruct (Z.ltb_spec (zlen l) 1).
  { assert (l = []) as -> by (apply zlen_inv_nil; lia). by apply Exists_nil in Hd. }
  rewrite read_bytes_app. cbn [mbind option_bind]. rewrite address_loop_spec by lia. rewrite (toks_fuel _ (length l)) by lia.
  fold (line_toks l). pose proof (toks_ok (length l) l (length l) Hb ltac:(lia)) as Ht. fold (line_toks l) in Ht.
  induction Hd as [[n a] ts (Hbare & Hu & Hd)|t ts _ IHd]; apply Forall_cons in Ht as [Hok Ht].
  - cbn [mapM fst snd] in *. destruct Hok as [Hn Ha _ Hlen]. cbn [fst snd] in *.
    assert (n = []) as -> by (unfold bare in Hbare; cbn [fst snd] in Hbare; by apply andb_prop in Hbare as [?%bool_decide_eq_true_1 _]).
    rewrite create_bare_undefined; [done|done|done|unfold zlen in *; lia|done|]. intros Hub. by apply IH.
  - cbn [mapM]. destruct (create_mime_address _ _ _ _ _); [|done]. cbn [mbind option_bind]. by rewrite IHd.
Qed.
Lemma engine_reads depth : forall l extra lm vs, bytes_ok l -> zlen l + 1100 < 2 ^ 28 -> addrs utf8 def depth l = Some vs ->
  engine depth (l ++ extra) (zlen l) lm = Some vs /\ Forall (fun v => text_ok (a_name v)) vs.
Proof.
  induction depth as [|depth IH]; intros l extra lm vs Hb Hl Hvs; [done|]. cbn [addrs zmime_header_line_get_address_vector_engine] in *. zlen_facts.
  rewrite (proj2 (Z.eqb_neq (zlen l) (-1))) by lia. cbn [mbind option_bind].
  destruct (Z.ltb_spec (zlen l) 1).
  { assert (l = []) as -> by (apply zlen_inv_nil; lia). by injection Hvs as <-. }
  rewrite read_bytes_app. cbn [mbind option_bind]. apply mapM_Some_1 in Hvs.
  pose proof (toks_ok (length l) l (length l) Hb ltac:(lia)) as Ht.
  assert (Hall : Forall2 (fun t v => create_mime_address def_z (fun s len => engine depth s len true) t.1 t.2 false = Some v /\ text_ok (a_name v)) (line_toks l) vs).
  { unfold line_toks in *. clear -L IH Hvs Ht Hl. revert Ht. induction Hvs as [|[n a] v ts vs Hv _ IHvs]; intros Ht; [constructor|].
    apply Forall_cons in Ht as [[Hn Ha _ Hlen] Ht]. constructor; [|by apply IHvs]. cbn [fst snd] in *. clear IHvs Ht.
    destruct (bare (n, a)) eqn:Ebare; [|injection Hv as <-; split; [by apply create_plain|done]].
    destruct (Z.ltb_spec (zlen (decoded_line utf8 def a) + 1100) (2 ^ 28)) as [Hu|]; [|done].
    destruct (addrs utf8 def depth _) as [ws|] eqn:Ews; [|done]. cbn [mbind option_bind] in Hv.
    assert (n = []) as -> by (unfold bare in Ebare; cbn [fst snd] in Ebare; by apply andb_prop in Ebare as [?%bool_decide_eq_true_1 _]).
    assert (Hj : zlen (joined_names ws) + 1 < 2 ^ 29).
    { destruct ws as [|w ws]; [done|]. destruct (Z.ltb_spec (zlen (joined_names (w :: ws)) + 1) (2 ^ 29)); [done|done]. }
    destruct (create_bare (fun s len => engine depth s len true) a ws Ha Ebare) as [-> Hjt]; try done.
    - unfold zlen in *. lia.
    - intros Hub. by apply IH.
    - destruct ws as [|w ws]; [injection Hv as <-; split; [done|constructor]|].
      destruct (_ <? _); [|done]. injection Hv as <-. split; done. }
  split; [|clear -Hall; induction Hall as [|t v ts vs [_ Hv] _ IH]; by constructor].
  rewrite address_loop_spec by lia. rewrite (toks_fuel _ (length l)) by lia. fold (line_toks l).
  apply mapM_Some_2. eapply Forall2_impl; [exact Hall|]. by intros t v [? _].
Qed.
End engine.

(** ** Addresses as they are written *)
Lemma line_toks_step p : p <> [] -> line_toks p =
  match tok_of (tok_text p false false false).1 with Tok a b => [(a, b)] | _ => [] end ++ line_toks (tok_text p false false false).2.
Proof.
  intros Hp. destruct p as [|c p]; [done|]. unfold line_toks at 1. cbn [length toks]. rewrite bool_decide_eq_false_2 by done.
  pose proof (tok_text_rest c p). unfold line_toks. by rewrite (toks_fuel (length p) (length (tok_text (c :: p) false false false).2)) by lia.
Qed.
(** A quoted name, with its backslashes doubled, and an address in angle brackets. *)
Definition escape_name (n : list Z) : list Z := n ≫= fun c => if c =? chr "\" then [c; c] else [c].
Definition contact_text (t : list Z * list Z) : list Z := 34 :: escape_name t.1 ++ 34 :: str " <" ++ t.2 ++ str ">".
Fixpoint contacts_text (ts : list (list Z * list Z)) : list Z :=
  match ts with
  | [] => []
  | [t] => contact_text t
  | t :: ts => contact_text t ++ str ", " ++ contacts_text ts
  end.
Definition mail_char (c : Z) : Prop :=
  0 < c < 256 /\ mail_break c = false /\ DELETE c = false /\ Forall (fun d => c <> d) (str "\,;>").
Record contact_ok (t : list Z * list Z) : Prop := {
  contact_name : text_ok t.1;
  contact_no_quote : Forall (.≠ 34) t.1;
  contact_ends : forall c, head t.1 = Some c \/ last t.1 = Some c -> DELETE c = false /\ around_name c = false;
  contact_mail : Forall mail_char t.2;
  contact_some : t.2 <> []
}.

Lemma quoted_text n : forall f rest, Forall (.≠ 34) n ->
  tok_text (escape_name n ++ 34 :: rest) false true f = (n ++ 34 :: (tok_text rest false false f).1, (tok_text rest false false f).2).
Proof.
  induction n as [|c n IH]; intros f rest Hn; [by cbn|]. apply Forall_cons in Hn as [Hc Hn]. unfold escape_name in *. cbn [mbind list_bind].
  rewrite <- app_assoc. destruct (Z.eqb_spec c (chr "\")) as [->|Hb]; cbn [app tok_text].
  - rewrite Z.eqb_refl, IH by done. done.
  - rewrite (proj2 (Z.eqb_neq c (chr "\"))), (proj2 (Z.eqb_neq c 34)), IH by done. done.
Qed.
Lemma mail_text a rest : Forall mail_char a ->
  tok_text (a ++ chr ">" :: rest) false false true = (a ++ [chr ">"], rest).
Proof.
  induction 1 as [|c a (_ & Hb & _ & Hs) _ IH]; [done|]. cbn [app tok_text].
  repeat (apply Forall_cons in Hs as [?%Z.eqb_neq Hs]). unfold mail_break in Hb.
  destruct (c =? chr "<") eqn:E1; [done|]. destruct (c =? chr " ") eqn:E2; [done|]. destruct (c =? 34) eqn:E3; [done|].
  repeat match goal with H : (c =? _) = false |- _ => rewrite H; clear H end. cbn [orb andb]. by rewrite IH.
Qed.
Definition copied (t : list Z * list Z) : list Z := t.1 ++ 34 :: str " <" ++ t.2 ++ str ">".
Lemma contact_tok t rest : contact_ok t -> tok_text (contact_text t ++ rest) false false false = (copied t, rest).
Proof.
  intros [_ Hq _ Hm _]. unfold contact_text, copied. cbn [app]. rewrite <- app_assoc. cbn [app].
  change (tok_text (34 :: escape_name t.1 ++ 34 :: 32 :: 60 :: (t.2 ++ [62]) ++ rest) false false false) with
    (tok_text (escape_name t.1 ++ 34 :: 32 :: 60 :: (t.2 ++ [62]) ++ rest) false true false).
  rewrite quoted_text by done. cbn [tok_text]. cbn [Z.eqb Pos.eqb orb andb fst snd]. rewrite <- app_assoc. cbn [app].
  rewrite (mail_text t.2 rest Hm). done.
Qed.
Lemma mail_chars a : Forall mail_char a -> text_ok a /\ Forall (fun c => mail_break c = false) a /\ Forall (fun c => is_gt c = false) a /\ Forall (fun c => DELETE c = false) a.
Proof.
  intros H. repeat split; (eapply Forall_impl; [exact H|]); intros c (Hc & Hb & Hd & Hs); try done.
  unfold is_gt. rewrite Hd. do 3 apply Forall_cons in Hs as [_ Hs]. apply Forall_cons in Hs as [Hs _]. by apply Z.eqb_neq.
Qed.
Lemma drop_while_none d (l : list Z) : (forall c, head l = Some c -> d c = false) -> drop_while d l = l.
Proof. intros H. by apply (drop_while_app_head d [] l). Qed.
Lemma Forall_last (P : Z -> Prop) l c : Forall P l -> last l = Some c -> P c.
Proof. intros H E. apply last_Some in E as [l' ->]. by apply Forall_app in H as [_ [? _]%Forall_cons]. Qed.
Lemma Forall_head' (P : Z -> Prop) l c : Forall P l -> head l = Some c -> P c.
Proof. intros H E. apply head_Some in E as [l' ->]. by apply Forall_cons in H as [? _]. Qed.
Lemma contact_name_of n : Forall (.≠ 34) n -> (forall c, head n = Some c \/ last n = Some c -> DELETE c = false /\ around_name c = false) ->
  name_of (n ++ [34; 32]) = n.
Proof.
  intros Hq He. unfold name_of. assert (E : unquote <$> n ++ [34; 32] = n ++ [32; 32]).
  { rewrite fmap_app. f_equal. clear He. induction Hq as [|c n Hc _ IH]; [done|]. cbn [fmap list_fmap]. rewrite IH. unfold unquote.
    by rewrite (proj2 (Z.eqb_neq c 34)). }
  rewrite E. destruct n as [|c n]; [done|].
  assert (Es : strip around_name ((c :: n) ++ [32; 32]) = c :: n).
  { unfold strip. rewrite drop_while_none by (intros d [= <-]; by apply He; left).
    apply rstrip_unique; [by repeat constructor|]. intros d Hd. by apply He; right. }
  by rewrite Es.
Qed.
Lemma contact_tok_of bl t : contact_ok t -> bl = [] \/ bl = [32] -> tok_of (bl ++ copied t) = Tok t.1 t.2.
Proof.
  intros [Hn Hq He Hm Hs] Hbl. destruct (mail_chars _ Hm) as (Hmt & Hmb & Hmg & Hmd). unfold tok_of, copied.
  rewrite take_while_string.
  2: { apply Forall_app. split; [destruct Hbl as [->| ->]; by repeat constructor|]. apply text_nonzero. apply Forall_app. split; [done|].
       do 3 (constructor; [lia|]). apply Forall_app. split; [done|by apply Forall_singleton]. }
  set (y := t.1 ++ 34 :: str " <" ++ t.2).
  assert (Et : text_of (bl ++ t.1 ++ 34 :: str " <" ++ t.2 ++ str ">") = y).
  { unfold text_of. rewrite drop_while_app_head.
    - replace (t.1 ++ 34 :: str " <" ++ t.2 ++ str ">") with (y ++ str ">") by (unfold y; by rewrite <- !app_assoc).
      apply rstrip_unique; [by apply Forall_singleton|]. intros c Hc. unfold y in Hc.
      apply (Forall_last (fun c => is_gt c = false) t.2); [done|]. destruct t.2 as [|d a _] using rev_ind; [done|].
      rewrite last_snoc. replace (t.1 ++ 34 :: str " <" ++ a ++ [d]) with ((t.1 ++ 34 :: str " <" ++ a) ++ [d]) in Hc by (by rewrite <- !app_assoc).
      by rewrite last_snoc in Hc.
    - destruct Hbl as [->| ->]; by repeat constructor.
    - intros c Hc. destruct t.1 as [|d n] eqn:E1; [injection Hc as <-; done|]. injection Hc as <-. by apply He; left. }
  rewrite Et. assert (Hy : y <> []) by (unfold y; by destruct t.1). destruct y as [|y0 y'] eqn:Ey; [done|]. rewrite <- Ey in *. clear Hy Ey y0 y'.
  unfold split_text. assert (Er : rev y = rev t.2 ++ 60 :: 32 :: 34 :: rev t.1).
  { unfold y. rewrite rev_app_distr. cbn [rev app]. rewrite <- !app_assoc. done. }
  rewrite Er, break_at_mid by (try done; by apply Forall_rev). cbn [fst snd]. rewrite rev_involutive.
  rewrite drop_while_none by (intros c; apply (Forall_head' (fun c => DELETE c = false)); done).
  change (high 60) with false. cbn match. cbn [rev]. rewrite rev_involutive, <- app_assoc. cbn [app]. by rewrite contact_name_of.
Qed.
Lemma contacts_toks ts : Forall contact_ok ts -> line_toks (contacts_text ts) = ts.
Proof.
  assert (Hg : forall ts, Forall contact_ok ts -> forall bl, bl = [] \/ bl = [32] -> line_toks (bl ++ contacts_text ts) = ts).
  2: { intros Hts. by apply (Hg ts Hts []); left. }
  clear ts. induction 1 as [|t ts Ht Hts IH]; intros bl Hbl.
  { destruct Hbl as [->| ->]; by vm_compute. }
  assert (Htok : forall rest, tok_text (bl ++ contact_text t ++ rest) false false false = (bl ++ copied t, rest)).
  { intros rest. pose proof (contact_tok t rest Ht) as E. destruct Hbl as [->| ->]; [done|]. cbn [app].
    change (tok_text (32 :: contact_text t ++ rest) false false false) with (let r := tok_text (contact_text t ++ rest) false false false in (32 :: r.1, r.2)).
    by rewrite E. }
  assert (Hne : forall rest, bl ++ contact_text t ++ rest <> []) by (intros rest; destruct Hbl as [->| ->]; done).
  assert (Hstep : forall rest, line_toks (bl ++ contact_text t ++ rest) = t :: line_toks rest).
  { intros rest. rewrite line_toks_step, Htok by done. cbn [fst snd]. rewrite contact_tok_of by done. by destruct t. }
  destruct ts as [|t' ts]; cbn [contacts_text].
  - rewrite <- (app_nil_r (contact_text t)), Hstep. done.
  - rewrite Hstep. f_equal. rewrite line_toks_step by done.
    change (tok_text (str ", " ++ contacts_text (t' :: ts)) false false false) with (@nil Z, 32 :: contacts_text (t' :: ts)). cbn [fst snd].
    change (tok_of []) with TokNone. cbn [app]. apply (IH [32]). by right.
Qed.

Lemma addrs_plain utf8 def depth l : Forall (fun t => bare t = false) (line_toks l) -> addrs utf8 def (S depth) l = Some (plain_address <$> line_toks l).
Proof.
  intros Hp. cbn [addrs]. apply mapM_Some_2. induction Hp as [|t ts Ht _ IH]; [constructor|]. cbn [fmap list_fmap].
  constructor; [by rewrite Ht|done].
Qed.

(** ** Names in UTF-8 *)
Section names.
Context {C : Charsets} {utf8 : option (list Z) -> list Z -> list Z} {L : CharsetLaws utf8} (def : option (list Z)).
(** What the UTF-8 variant adds to an address. *)
Definition with_utf8 (v : address) : address :=
  if bool_decide (a_name v <> []) && (default 0 (head (a_name_utf8 v)) =? 0)
  then mk_address (a_name v) (a_address v) (take_while (fun c => negb (c =? 0)) (decoded_line utf8 def (a_name v))) else v.
Definition name_small (v : address) : Prop :=
  zlen (a_name v) + 17 < 2 ^ 29 /\ zlen (decoded_line utf8 def (a_name v)) + 1 < 2 ^ 29.
Lemma cstr_first x : cstr (x ++ [0]) = Some (take_while (fun c => negb (c =? 0)) x).
Proof using.
  rewrite <- (take_drop_while (fun c => negb (c =? 0)) x) at 1. pose proof (drop_while_head (fun c => negb (c =? 0)) x) as Hd.
  assert (Hx : Forall (.≠ 0) (take_while (fun c => negb (c =? 0)) x)) by (eapply Forall_impl; [apply take_while_all|]; cbn; intros c; by destruct (Z.eqb_spec c 0)).
  destruct (drop_while _ x) as [|c d]; [rewrite app_nil_r; by apply cstr_app|]. specialize (Hd c eq_refl). destruct (Z.eqb_spec c 0) as [->|]; [|done].
  rewrite <- app_assoc. by apply cstr_app.
Qed.
Lemma utf8_names_reads vec : forall b1 b2 b3 x1 x2 x3, Forall (fun v => text_ok (a_name v)) vec -> Forall name_small vec ->
  holds None x1 b1 -> holds None x2 b2 -> holds None x3 b3 ->
  utf8_names ((fun x => x ++ [0]) <$> def) vec b1 b2 b3 = Some (with_utf8 <$> vec).
Proof.
  induction vec as [|v vec IH]; intros b1 b2 b3 x1 x2 x3 Ht Hs H1 H2 H3; [done|]. cbn [utf8_names fmap list_fmap].
  apply Forall_cons in Ht as [Hv Ht]. apply Forall_cons in Hs as [[Hl Hu] Hs].
  assert (Etest : negb (default 0 (head (a_name v)) =? 0) = bool_decide (a_name v <> [])).
  { destruct (a_name v) as [|c n]; [done|]. apply Forall_cons in Hv as [Hc _]. cbn. by rewrite (proj2 (Z.eqb_neq c 0)) by lia. }
  unfold with_utf8 at 1. rewrite Etest. destruct (bool_decide_reflect (a_name v <> [])) as [Hn|]; cbn [andb]; [|by rewrite (IH b1 b2 b3 x1 x2 x3)].
  destruct (default 0 (head (a_name_utf8 v)) =? 0); [|by rewrite (IH b1 b2 b3 x1 x2 x3)].
  destruct (zbuf_reset_holds None b1 x1 (proj1 H1)) as (c1 & -> & Hc1). destruct (zbuf_reset_holds None b2 x2 (proj1 H2)) as (c2 & -> & Hc2).
  destruct (zbuf_reset_holds None b3 x3 (proj1 H3)) as (c3 & -> & Hc3). cbn [mbind option_bind].
  destruct (utf8_engine_runs def (a_name v) [0] (-1) c1 c2 c3 [] [] []) as (r & -> & Hr1 & (y & Hr2) & (z & Hr3)); try done.
  { by apply text_bytes. }
  { cbn [Z.eqb]. change (-1 =? -1) with true. cbn match. by rewrite cstr_app by by apply text_nonzero. }
  cbn [mbind option_bind]. rewrite (zbuf_data_z_rep _ _ Hr1). cbn [mbind option_bind]. rewrite cstr_first. cbn [mbind option_bind].
  by rewrite (IH _ _ _ _ _ _ Ht Hs Hr1 Hr2 Hr3).
Qed.
End names.
Arguments with_utf8 utf8 def v : clear implicits.
Arguments name_small utf8 def v : clear implicits.

(** ** Addresses that decode to themselves *)
Lemma mail_tok l : Forall mail_char l -> l <> [] -> tok_text l false false false = (l, []) /\ tok_of l = Tok [] l.
Proof.
  intros Hl Hne. split.
  - clear Hne. induction Hl as [|c l (_ & Hb & _ & Hs) _ IH]; [done|]. cbn [tok_text].
    repeat (apply Forall_cons in Hs as [?%Z.eqb_neq Hs]). unfold mail_break in Hb.
    destruct (c =? chr "<") eqn:E1; [done|]. destruct (c =? chr " ") eqn:E2; [done|]. destruct (c =? 34) eqn:E3; [done|].
    repeat match goal with H : (c =? _) = false |- _ => rewrite H; clear H end. cbn [orb andb]. by rewrite IH.
  - destruct (mail_chars _ Hl) as (Ht & Hb & Hg & Hd). unfold tok_of. rewrite take_while_string by by apply text_nonzero.
    assert (E : text_of l = l).
    { unfold text_of. rewrite drop_while_none by (intros c; by apply (Forall_head' (fun c => DELETE c = false))).
      rewrite <- (app_nil_r l) at 1. apply rstrip_unique; [constructor|]. intros c. by apply (Forall_last (fun c => is_gt c = false)). }
    rewrite E. destruct l as [|c l]; [done|]. unfold split_text. rewrite break_at_end by (by apply Forall_rev). done.
Qed.

(** ** Theorems *)
(** C26: [zmime_header_line_get_address_vector] takes any bytes: it finds the names
    and mail addresses of [addrs], which cuts the line into addresses and follows
    the encoded words that stand for an address, where they are nested finitely
    deep; the UTF-8 variant adds the names decoded. Where they are nested deeper than
    the calls go, there is no answer: a line such as "=?", whose nesting has no end,
    overflows the stack of the C. A line in which no address without a name starts
    with "=?" needs no depth at all, its addresses are those of [line_toks]. *)
Theorem zmime_address_vector_reads `{CharsetLaws} (def : option (list Z)) (l extra : list Z) :
  let vector := zmime_header_line_get_address_vector ((fun x => x ++ [0]) <$> def) in
  let vector_utf8 := zmime_header_line_get_address_vector_utf8 ((fun x => x ++ [0]) <$> def) in
  bytes_ok l -> zlen l + 1100 < 2 ^ 28 ->
  (forall depth vs, addrs utf8 def depth l = Some vs -> Forall (name_small utf8 def) vs ->
     vector depth (l ++ extra) (zlen l) = Some vs /\
     vector_utf8 depth (l ++ extra) (zlen l) = Some (with_utf8 utf8 def <$> vs)) /\
  (forall depth, too_deep utf8 def depth l -> vector depth (l ++ extra) (zlen l) = None) /\
  (Forall (fun t => bare t = false) (line_toks l) -> forall depth,
     vector (S depth) (l ++ extra) (zlen l) = Some (plain_address <$> line_toks l)).
Proof.
  intros vector vector_utf8 Hb Hl. split.
  - intros depth vs Hvs Hsm. destruct (engine_reads def depth l extra false vs Hb Hl Hvs) as [E Ht]. split; [done|].
    unfold vector_utf8, zmime_header_line_get_address_vector_utf8, zmime_header_line_get_address_vector. rewrite E. cbn [mbind option_bind].
    destruct (zbuf_create_holds 128) as (b1 & -> & H1); [done|]. destruct (zbuf_create_holds (-1)) as (b2 & -> & H2); [done|].
    cbn [mbind option_bind]. by apply (utf8_names_reads def vs b1 b2 b2 [] [] []).
  - split; [intros depth; by apply engine_too_deep|].
    intros Hp depth. destruct (engine_reads def (S depth) l extra false (plain_address <$> line_toks l) Hb Hl) as [E _]; [by apply addrs_plain|].
    unfold vector, zmime_header_line_get_address_vector. exact E.
Qed.

(** C25: a list of addresses, each with its name in quotes and the mail address in
    angle brackets, is read back in order: names may hold commas, brackets,
    backslashes, any byte but a quotation mark, and the mail addresses come out in
    lower case. *)
Theorem zmime_address_list_roundtrip `{CharsetLaws} (def : option (list Z)) (ts : list (list Z * list Z)) (extra : list Z) (depth : nat) :
  let line := contacts_text ts in
  Forall contact_ok ts -> Forall (fun t => bare t = false) ts -> zlen line + 1100 < 2 ^ 28 ->
  zmime_header_line_get_address_vector ((fun x => x ++ [0]) <$> def) (S depth) (line ++ extra) (zlen line) =
    Some ((fun t => mk_address t.1 (ztolower <$> t.2) []) <$> ts).
Proof.
  intros line Ht Hp Hl. assert (Hb : bytes_ok line).
  { unfold line. clear Hp Hl line. assert (He : forall n, text_ok n -> bytes_ok (escape_name n)).
    { intros n Hn. unfold escape_name. induction Hn as [|c n Hc _ IH]; [constructor|]. cbn [mbind list_bind]. apply Forall_app. split; [|done].
      assert (byte_ok c) by (unfold byte_ok; lia). destruct (_ =? _); repeat apply Forall_cons_2; done. }
    assert (Hc : forall t, contact_ok t -> bytes_ok (contact_text t)).
    { intros t [Hn _ _ Hm _]. destruct (mail_chars _ Hm) as (Hmt & _). unfold contact_text. constructor; [done|]. apply Forall_app. split; [by apply He|].
      do 3 (constructor; [done|]). apply Forall_app. split; [by apply text_bytes|by apply Forall_singleton]. }
    induction Ht as [|t ts Ht Hts IH]; [constructor|]. destruct ts as [|t' ts]; [by apply Hc|]. cbn [contacts_text].
    apply Forall_app. split; [by apply Hc|]. do 2 (constructor; [done|]). exact IH. }
  pose proof (contacts_toks ts Ht) as E. fold line in E. change (fun t => mk_address t.1 (ztolower <$> t.2) []) with plain_address. unfold zmime_header_line_get_address_vector.
  destruct (engine_reads def (S depth) line extra false (plain_address <$> line_toks line) Hb Hl) as [Er _]; [apply addrs_plain; by rewrite E|].
  rewrite E in Er. exact Er.
Qed.

(** C27: the engine does not tell the call on a decoded address from the first one
    ([loop_mode] is not passed on), so that an address of printable characters
    without a name that starts with "=?" and decodes to itself, as "=?" alone does,
    makes it call itself without end: no depth is enough, though the address is
    created once the call on the same text answers. *)
Theorem zmime_address_recurses `{CharsetLaws} (def : option (list Z)) (x extra : list Z) :
  let l := str "=?" ++ x in
  Forall mail_char x -> zlen l + 1100 < 2 ^ 28 -> decoded_line utf8 def l = l ->
  (forall depth, zmime_header_line_get_address_vector ((fun x => x ++ [0]) <$> def) depth (l ++ extra) (zlen l) = None) /\
  (forall engine, engine (l ++ [0]) (zlen l) = Some [] ->
     create_mime_address ((fun x => x ++ [0]) <$> def) engine [] l false = Some (plain_address ([], l))).
Proof.
  intros l Hx Hl Hd. assert (Hm : Forall mail_char l).
  { unfold l. do 2 (constructor; [split; [done|]; split; [done|]; split; [done|]; by repeat apply Forall_cons_2|]). done. }
  destruct (mail_tok l Hm ltac:(done)) as [Et Eo]. destruct (mail_chars l Hm) as (Ht & _). pose proof (text_bytes l Ht) as Hb.
  assert (Hpos : 2 <= zlen l) by (unfold l; rewrite zlen_app; pose proof (zlen_nonneg x); change (zlen (str "=?")) with 2; lia).
  assert (Hbare : bare ([], l) = true) by done. assert (Hne : l <> []) by done. clearbody l. clear Hx x.
  assert (Hcall : forall eng, create_mime_address ((fun x => x ++ [0]) <$> def) eng [] l false =
    vec ← eng (l ++ [0]) (zlen l); match vec with [] => Some (plain_address ([], l)) | _ => create_mime_address ((fun x => x ++ [0]) <$> def) eng [] l false end).
  { intros eng. unfold create_mime_address. cbn [orb]. rewrite (bare_test [] l), Hbare by constructor. cbn [negb].
    destruct (zbuf_create_holds (2 * zlen l + 100)) as (b0 & -> & Hb0); [lia|]. cbn [mbind option_bind].
    destruct (get_utf8_runs def l [0] b0 [] Hb) as (b1 & -> & Hb1); try done; [lia|fold (decoded_line utf8 def l); rewrite Hd; lia|].
    fold (decoded_line utf8 def l) in Hb1. rewrite Hd in Hb1. cbn [mbind option_bind].
    rewrite (zbuf_data_z_rep b1 l Hb1). cbn [mbind option_bind]. rewrite (rep_len _ _ _ (proj1 Hb1)).
    destruct (eng (l ++ [0]) (zlen l)) as [[|v vs]|]; cbn [mbind option_bind]; try done. by apply simple_runs. }
  split; [|by intros engine E; rewrite Hcall, E].
  unfold zmime_header_line_get_address_vector. intros depth. generalize false as lm. revert extra. induction depth as [|depth IH]; intros extra lm; [done|].
  cbn [zmime_header_line_get_address_vector_engine]. rewrite (proj2 (Z.eqb_neq (zlen l) (-1))) by lia. cbn [mbind option_bind].
  rewrite (proj2 (Z.ltb_ge (zlen l) 1)) by lia. rewrite read_bytes_app. cbn [mbind option_bind address_loop].
  rewrite address_tok_spec by (done || lia). rewrite Et. cbn [fst snd mbind option_bind]. rewrite Eo. cbn [mbind option_bind].
  rewrite Hcall, IH. done.
Qed.

(** ** Runs *)
#[local] Existing Instance same_bytes.
#[local] Existing Instance same_bytes_laws.
Definition ex_contacts : list (list Z * list Z) := [(str "Doe, J\", str "J.Doe@b.c"); ([], str "x@y")].
Lemma zmime_address_list_roundtrip_witness :
  zmime_header_line_get_address_vector None 1 (contacts_text ex_contacts ++ [0]) (zlen (contacts_text ex_contacts)) =
    Some [mk_address (str "Doe, J\") (str "j.doe@b.c") []; mk_address [] (str "x@y") []].
Proof.
  apply (zmime_address_list_roundtrip None ex_contacts [0] 0); [|by repeat constructor|done].
  assert (Hends : forall c, c = chr "D" \/ c = chr "\" -> DELETE c = false /\ around_name c = false) by (by intros c [->| ->]).
  repeat apply Forall_cons_2; [split|split|done]; cbn [fst snd]; try done; repeat apply Forall_cons_2; try done;
    try (by repeat split; repeat apply Forall_cons_2); intros c [[= <-]|[= <-]]; auto.
Defined.
Lemma zmime_address_vector_reads_witness :
  zmime_header_line_get_address_vector_utf8 None 2 (str "Jo <J@d>, =?x?B?YSA8YkBjPg==?=;" ++ [0]) 31 =
    Some [mk_address (str "Jo") (str "j@d") (str "Jo"); mk_address (str "a") (str "b@c") (str "a")].
Proof.
  destruct (zmime_address_vector_reads None (str "Jo <J@d>, =?x?B?YSA8YkBjPg==?=;") [0]) as [H _]; [by repeat apply Forall_cons_2|done|].
  apply (H 2%nat [mk_address (str "Jo") (str "j@d") []; mk_address (str "a") (str "b@c") []]); [by vm_compute|].
  repeat apply Forall_cons_2; done.
Defined.
(** The header line "To: =?" makes the parser overflow its stack. *)
Lemma zmime_address_recurses_witness :
  zmime_header_line_get_address_vector None 100 (str "=?" ++ [0]) 2 = None.
Proof. apply (zmime_address_recurses None [] [0]); [constructor|done|by vm_compute]. Defined.
